(* ===== verification/_CoqProject ===== *)
-Q . S2P
Prelude.v
Text.v
Errors.v
Program.v
Permissions.v
Store.v
PermissionQueryDb.v
Audience.v
Polls.v
PollsSystem.v
Moderation.v
ModerationSystem.v
CipherMemberships.v
CipherNumbers.v
ProtLedger.v
ProtStore.v
PaymentOrders.v
Catalog.v
Settings.v
StripeSignature.v
StripeApi.v
StripeClient.v
PaymentEvents.v
PaymentsWorld.v
EngineCore.v
EngineProt.v
EngineReverse.v
Engine.v
Dispatch.v
EngineCalls.v
EngineRefunds.v
EngineSample.v
PaymentsRoutes.v
CheckoutForm.v
EngineResume.v
EngineLifecycle.v
OrderLife.v
PaymentsSystem.v
SeatLists.v
Boosts.v
BoostsSystem.v
MlsModel.v
MlsDb.v
ProtectedDb.v
ProtectedInvariants.v
ProtectedSeating.v
ProtectedCaps.v
ProtectedSystem.v
Relationships.v
MessageParser.v
Ratelimit.v
Presence.v
Coalesced.v
CalendarTime.v
CivilTime.v
Calendar.v
CalendarRoutes.v
CalendarSeries.v
CalendarSystem.v
CalendarReminders.v
CalendarAnswers.v
CalendarUpcoming.v
E2eeModel.v
E2ee.v
E2eeRoutes.v
E2eeSystem.v
E2eeSocket.v
E2eeBackups.v
Float64.v
UpLimiter.v
UpBudget.v
UpTables.v
