(* ===== verification/Prelude.v ===== *)
(** * Sloga backend: verification development

    The Sloga backend (src/crates) is a chat service in Rust: a REST API
    (delta), a WebSocket gateway (bonfire), daemons (crond, pushd,
    voice-ingress) and file services, all built on the crates under
    crates/core.  Those core crates hold the program's own rules and are what
    is modelled here: who may do what, who may read what, how money turns
    into memberships and Prot, and the small concurrent services everything
    else calls.

    ** The parts and the files that model them

    Shared:
    - Prelude.v: results with the [let?] notation for Rust's [?], the
      state-and-panic monad [M] with its [do] notation, machine integers,
      stable sorting, hash-map iteration and its folds, strings and their
      order, and the automation ([to_prop], [inv_op], [int_solve], the hint
      database [sloga]).
    - Text.v: the functions of [str] the sources use.
    - Errors.v: crates/core/result.  [ErrorType] is what every fallible
      operation returns ([Result]); [into_response] (axum.rs) and
      [respond_to] (rocket.rs) render it.
    - Program.v: [prog], asynchronous code as a tree of atomic operations,
      with its runs, crashes and interleavings, a rely-guarantee logic, also
      with the history of what a program has seen ([wph]), and one for
      handlers that owe a write to an invariant ([settles]).

    Permissions and audience:
    - Permissions.v: crates/core/permissions.  Permission bits, the
      [PermissionValue] operations (Module PermissionValue), the
      [PermissionQuery] trait as a class and the three calculators of impl.rs
      over the state of a query.  [LawfulQuery] is the interface the
      calculators' theorems are proved against.
    - Store.v: the user, server, member and channel documents of
      crates/core/database, with the look-ups of the in-memory driver and the
      role operations.
    - PermissionQueryDb.v: util/permissions.rs of the same crate.
      [DatabasePermissionQuery] with its caches is an instance of
      [PermissionQuery], and is shown to be a [LawfulQuery].
    - Audience.v: util/bulk_permissions.rs, the batched calculator behind
      mass mentions, and util/event_visibility.rs, the viewer of the calendar.
    - Relationships.v: friend requests, friendships, blocks and wall entries
      of models/users and models/user_respect, and their routes.
    - Polls.v: models/polls, the poll routes of crates/delta and crond's
      poll_expiry.rs.  PollsSystem.v: what holds however they interleave.
    - Boosts.v: models/server_boosts, the perks of crates/core/config, the
      boost routes and crond's prune_expired_boosts.rs.  BoostsSystem.v: who
      can move a slot, and that counts are put right.
    - Moderation.v: the routes of crates/delta/src/routes/servers by which
      members act on each other and on roles.  ModerationSystem.v: what
      people below a tier of roles cannot do to it.

    Calendar:
    - CalendarTime.v: the recurrence engine of models/calendar_events
      (model.rs), which turns a rule in local time into instants.  The class
      [Chrono] is what it uses of the chrono library and [ChronoLaws] what it
      relies on (of a zone: that its offset moves by at most a day between
      wall clocks three days apart); CivilTime.v is an instance with the Gregorian calendar, UTC
      and one zone with summer time, on which the examples run.
    - Calendar.v: the documents, the in-memory driver, creating, editing and
      answering.  CalendarRoutes.v: routes/events of crates/delta (which call
      the viewer of Audience.v) and crond's event_reminders.rs.
    - CalendarSeries.v, CalendarSystem.v, CalendarReminders.v,
      CalendarAnswers.v, CalendarUpcoming.v: what is proved of the engine, of
      all handlers together, of the reminder job, of answers and of the list
      of upcoming events.

    End-to-end encryption:
    - E2eeModel.v: the documents and the signed texts of models/e2ee
      (model.rs).  The class [Crypto] is what is used of base64 and Ed25519.
    - E2ee.v: the in-memory driver and the life of a device: how it is
      revoked, alone or with its session or account.
    - E2eeRoutes.v: routes/e2ee of crates/delta, crond's
      prune_e2ee_envelopes.rs, and the two halves of a connection of bonfire's
      websocket.rs: [worker] answers the messages about devices, [listener]
      forwards what is published.
    - E2eeSystem.v, E2eeSocket.v, E2eeBackups.v: what is proved of all
      handlers together, of one connection and of backups.

    Money:
    - CipherMemberships.v, CipherNumbers.v, PaymentOrders.v, PaymentEvents.v:
      the collections of the same names with every operation of their
      in-memory drivers, and the paged sweep of crond's
      prot_cipher_backfill.rs.
    - ProtLedger.v, ProtStore.v: the double-entry ledger of models/prot.
      The first has the driver-independent rules (model.rs, ops.rs), the
      second the in-memory driver (ops/reference.rs) that runs them under its
      locks, with the Cipher sync, clawback and forfeit built on it.
    - Catalog.v, Settings.v: crates/core/payments catalog.rs and settings.rs.
    - StripeSignature.v, StripeApi.v, StripeClient.v: stripe/.  What is sent
      to the provider and how its answers are read; the [Stripe] class is the
      provider's interface, and the client over any network implements it.
    - PaymentsWorld.v: the collections and the provider as one world, and
      every call to them as one atomic operation on it.
    - EngineCore.v, EngineProt.v, EngineReverse.v, Engine.v: engine.rs and
      engine/prot.rs.  Dispatch.v: dispatch.rs.  PaymentsRoutes.v:
      crates/delta/src/routes/payments.
    - EngineCalls.v, EngineRefunds.v, EngineResume.v, EngineLifecycle.v,
      OrderLife.v, CheckoutForm.v, PaymentsSystem.v: what is proved of them
      together (the first collects the calls that leave orders alone, then
      the rules of refunds, fulfilment cut short and gone on with, the moves
      of an order by handlers and by its own checkout);
      EngineSample.v is a small provider and database for the examples.

    Protected channels:
    - SeatLists.v: the signed texts of models/protected_channels/model.rs.
    - MlsModel.v: the documents and the decisions of models/mls and
      models/protected_channels.
    - MlsDb.v, ProtectedDb.v: the in-memory drivers of the two.
    - ProtectedInvariants.v, ProtectedSeating.v, ProtectedCaps.v,
      ProtectedSystem.v: what holds in every state their operations reach.

    Services:
    - MessageParser.v: crates/core/parser, mentions of a message.
    - Ratelimit.v: crates/core/ratelimits, the bucket table and the guard.
    - Presence.v: crates/core/presence, sessions kept in Redis.  The [Redis]
      class lists the commands sent, [LawfulRedis] what is relied on.
    - Coalesced.v: crates/core/coalesced, one shared run per key.
    - UpLimiter.v: up_limiter.rs of crates/daemons/pushd, which decides what
      push messages may be sent where.  Float64.v is the binary floating point
      it counts in.  UpBudget.v: what a destination can see of us;
      UpTables.v: its tables and maps.

    ** How code is rendered

    An operation on a collection takes the map and returns the new map with
    its [Result].  The in-memory drivers hold their mutexes from the first
    read to the last write of an operation, so one operation is one step; the
    relations [step] of the files collect them, and "reachable" is [rtc step]
    from the empty collection ([reach] in ProtectedSystem, with a clock that
    does not go back).

    Code that calls several operations (the payments engine, the dispatcher,
    the routes of payments, relationships, polls, boosts, events and devices,
    and a connection of the gateway as far as devices go) is a [prog]:
    between two of its operations anything else may run, and it may be lost
    anywhere.  Theorems
    about "every interleaving" are about [sys_step], which starts, advances
    and drops any number of such programs.  CoalescionService releases its
    locks between reads and writes, and there each lock section is a step of
    its own.  Presence and rate limiting are modelled one operation at a
    time, moderation one request at a time, and the permission calculators
    on a snapshot.

    An [f64] is the rational it denotes, and its operations round to 53 bits
    (Float64.v).

    A panic ([unwrap], arithmetic overflow in a checked build) is [None], or
    [Panic] in a [prog].  A [w]-bit integer is a [Z] and every wrapping,
    checked or saturating operation is written out.

    The order in which a Rust HashMap is walked is unspecified: it is the
    class [HashIter], any function that lists each binding once.  Theorems
    hold for every instance, and those about determinism, and those that
    compare code that fetches the same document separately, have two of them.

    Other parameters stand for code outside this repository: the digests and
    HMAC-SHA256, base64, Ed25519, the JSON and date parsers, the HTTP library, chrono
    and its time zones, the message broker, the payment provider, fresh ULIDs and random numbers as arguments, [lexer]
    for the tokenizer the logos macro generates, the clock, the slur filter
    (it works on what the decancer library returns), and the hash that gives
    a bucket key.

    ** What the theorems show

    - Payments (PaymentsSystem, EngineResume, CheckoutForm, PaymentsRoutes,
      StripeSignature, StripeClient): refunds are asked for only by the rules
      of [may_refund], whatever else runs; orders stay well formed and move
      only along their life, but for the one move of their own checkout; an
      interrupted fulfilment is completed by a later delivery, or waits for
      the provider without a refund;
      unsigned deliveries change nothing and acknowledged ones are settled;
      the form sent comes back as a session that matches; requests to the
      provider are well formed and no key leaks into an error text.
    - Ledger (ProtStore, ProtLedger, Catalog): the balances are derivable from
      the rows in every reachable state and nothing is created or lost;
      wallets stay at or above zero; a posting is applied once, and refused or
      replayed calls change nothing; the sync and the clawback settle a
      membership at its target; a validated configuration sells nothing below
      cost.
    - Orders and numbers (PaymentOrders, CipherNumbers, CipherMemberships):
      leases exclude and fence; provider ids and membership numbers are
      unique; numbers are sold lowest first and each once; membership writes
      are a compare and swap; the paged sweep visits each membership once.
    - Protected channels (ProtectedSystem, SeatLists): only devices of the
      seated are in a channel's open group, or their removal is pending; seats
      never exceed the slots paid for; each epoch has one commit; closed
      groups stay closed; the signed texts have one form and the encoding a
      commit is bound to determines the list.
    - Permissions (Permissions, PermissionQueryDb, Audience): the calculators
      over the database refine a stateless specification and do not panic; a
      timeout and a hidden channel bound what anyone can do; an editor cannot
      grant what they lack; where no two roles have one rank, the batched
      calculator and the caching viewer agree with the single ones.
    - Relationships: every request refines a table on the pair of sides, the
      sides stay matching when requests do not overlap, and a wall has one
      entry per author in every interleaving.
    - Polls (PollsSystem): votes that overlap are all counted, results are
      announced once, and every stored ballot is one the poll accepts.
    - Boosts (BoostsSystem): a slot changes only for its owner; whatever
      counts the handlers leave, the next pass puts them right; boosting never
      lowers a limit.
    - Moderation (ModerationSystem): a tier of roles and those who hold them
      are out of reach of everyone below, in any sequence of requests.
    - Calendar (CalendarSeries, CalendarSystem, CalendarReminders,
      CalendarAnswers, CalendarUpcoming): every series has an expansion, in
      order and within its rule, and expanding less of it or looking through a
      window gives the matching part; what is computed and stored with an
      event fits it in every interleaving, so the coarse queries miss nothing
      of an event that starts at the earliest instant of its wall clock;
      the reminder job sends what is owed and nothing twice, wherever it is
      stopped; an answer changes one row; the paged list of upcoming events is
      the one sorted list, cut.
    - End-to-end encryption (E2eeModel, E2eeSystem, E2eeSocket, E2eeBackups):
      one signed text says one thing; the directory of devices stays signed in
      every interleaving, a one-time key is given once and an envelope waits
      for its recipient; a connection drains and acknowledges only what is for
      a device whose key signed for that session, and otherwise only forwards
      what is published on its topics; a backup uploaded alone
      never goes back.
    - Services (Errors, MessageParser, Ratelimit, Presence, Coalesced): both
      responders agree; the message iterator refines a recursive definition;
      a window admits exactly its limit and counters do not overflow; the
      online set follows the sessions.
    - Push limits (UpBudget, UpTables): no destination rejects more of our
      sends than its budget, however they overlap and with all the rounding;
      heavy users are named with a fixed number of counters; the maps keep
      their sizes.
    - Where the code does something other than what it means to, a theorem
      shows that behaviour as it is: [mute_lifted_by_channel_override],
      [equal_ranks_nondeterministic], [create_after_delete_repeats_rank],
      [bounded_queue_never_used], [check_then_insert_race],
      [reconnect_while_closing], [unclosed_marker_exposes],
      [checkout_reopens_a_voided_order], [settled_event_back_to_failed],
      [call_commit_admits_two_devices], [block_raced_by_accept],
      [closed_poll_counts_a_ghost], [update_sent_after_close],
      [rollback_frees_another_allocation], [repeated_hour_missed],
      [acceptance_forgotten], [cancellation_undone] and [backup_rolled_back].

    ** Bounds and fuel

    - [sweep_with]: one unit per page.  Every page but the last advances the
      cursor, so more units than memberships are enough, and the theorem says
      so for any such fuel.
    - [collect]: one unit per call of the iterator.  [iter_size] is twice the
      pending input plus the queue, which bounds the number of calls.
    - [redact_loop], [replace_upto]: the length of the text, which every round
      shortens.
    - The loops of the recurrence engine: 732 units.  Each turn adds an
      occurrence or a block of weeks, and the code stops at 730 of either; that
      they never run out is part of [series_expansion].
    - [oneoff_pages]: six units, for the five pages of the scan budget.
    - [evict]: the size of the map, from which every turn removes an entry;
      [evict_not_over] shows that it is enough.
    - [forfeit_loop] and the retry loops of the engine: the code's own bounds.
    - All other recursion is structural.

    ** What is not modelled

    The MongoDB drivers (queries to an external server: the in-memory drivers
    implement the same trait), network, file and media services, the
    WebSocket loop, importers, the delivery of push messages, configuration
    loading and the JSON models.  Of the route handlers, those of payments, relationships,
    polls, boosts, moderation, events and devices are modelled; the others
    decode requests and call operations like the ones above.  Of an edit of a
    member, moving and disconnecting in voice is left out, and so is the
    creation of a poll (it sends a message), the import of events from old
    messages, and the upload of attachment blobs (object storage).
    Events sent to the gateway (those of polls, events and devices apart),
    queue messages, log texts and reports to the error tracker have no effect
    on what is stored and are left out.

    Also left out: calls and remote control in voice, whose state is kept by
    Lua scripts in Redis and by the media server; the importers and the media
    services, which are clients of other systems; sessions, accounts and
    two-factor tickets, whose checks are those of their libraries; referrals,
    soft reservations, scheduled messages, idempotency keys and antispam, and
    the routes of protected channels, which are smaller parts of the kind
    modelled here. *)

From stdpp Require Import base numbers list gmap strings pretty sorting.
From Stdlib Require Import Lia.

#[global] Set Default Goal Selector "!".

(** ** Results and effects *)

(** Rust's [Result<T, E>] with the error type left open. *)
Inductive result (E A : Type) : Type :=
| Ok (a : A)
| Err (e : E).
Arguments Ok {_ _} _.
Arguments Err {_ _} _.

Declare Scope sloga_scope.
Delimit Scope sloga_scope with sloga.

(** The [?] operator: an error leaves the enclosing function. *)
Notation "'let?' x ':=' c 'in' k" :=
  (match c with Ok x => k | Err e => Err e end)
  (at level 10, x pattern, c at level 100, k at level 200) : sloga_scope.

Open Scope sloga_scope.
Open Scope Z_scope.

Definition is_ok {E A} (r : result E A) : bool :=
  match r with Ok _ => true | Err _ => false end.

Definition ok_or {E A} (o : option A) (e : E) : result E A :=
  match o with Some a => Ok a | None => Err e end.

#[global] Instance result_eq_dec {E A} `{EqDecision E, EqDecision A} :
  EqDecision (result E A).
Proof. solve_decision. Defined.

(** Code that mutates its receiver and may panic: [None] is a panic. *)
Definition M (S A : Type) : Type := S -> option (A * S).

Definition st_ret {S A} (a : A) : M S A := fun s => Some (a, s).

Definition st_bind {S A B} (c : M S A) (k : A -> M S B) : M S B :=
  fun s => match c s with Some (a, s') => k a s' | None => None end.

Definition st_panic {S A} : M S A := fun _ => None.

Notation "'do' x <- c ; k" := (st_bind c (fun x => k))
  (at level 10, x pattern, c at level 100, k at level 200) : sloga_scope.

(** ** Machine integers

    A [w]-bit value is a [Z] in the range of its type; wrapping, checked and
    saturating operations are written out. *)

Definition u32_max : Z := 4294967295.
Definition u64_max : Z := 18446744073709551615.
Definition i64_min : Z := -9223372036854775808.
Definition i64_max : Z := 9223372036854775807.
Definition two64 : Z := 18446744073709551616.
Definition two63 : Z := 9223372036854775808.

Definition is_u32 (z : Z) : Prop := 0 <= z <= u32_max.
Definition is_u64 (z : Z) : Prop := 0 <= z <= u64_max.
Definition is_i64 (z : Z) : Prop := i64_min <= z <= i64_max.

Ltac unfold_ints :=
  unfold is_u32, is_u64, is_i64, u32_max, u64_max, i64_min, i64_max, two64, two63 in *.

(** Solver for the range goals of the development. *)
Ltac int_solve := unfold_ints; lia.

(** [x as u64] on a 64-bit value. *)
Definition as_u64 (z : Z) : Z := z mod two64.

(** [x as i64] on a 64-bit value. *)
Definition as_i64 (z : Z) : Z :=
  let r := z mod two64 in if r <? two63 then r else r - two64.

Definition checked_add_u64 (a b : Z) : option Z :=
  if a + b <=? u64_max then Some (a + b) else None.
Definition saturating_add_u64 (a b : Z) : Z := Z.min u64_max (a + b).

Definition in_i64 (z : Z) : bool := (i64_min <=? z) && (z <=? i64_max).
Definition checked_add_i64 (a b : Z) : option Z :=
  if in_i64 (a + b) then Some (a + b) else None.
Definition checked_sub_i64 (a b : Z) : option Z :=
  if in_i64 (a - b) then Some (a - b) else None.
Definition clamp_i64 (z : Z) : Z := Z.max i64_min (Z.min i64_max z).
Definition saturating_add_i64 (a b : Z) : Z := clamp_i64 (a + b).
Definition saturating_sub_i64 (a b : Z) : Z := clamp_i64 (a - b).
Definition saturating_mul_i64 (a b : Z) : Z := clamp_i64 (a * b).
Definition saturating_neg_i64 (a : Z) : Z := clamp_i64 (- a).

(** Bitwise not on a [u64]. *)
Definition not_u64 (v : Z) : Z := Z.land (Z.lnot v) (Z.ones 64).

Lemma as_u64_range z : is_u64 (as_u64 z).
Proof. unfold as_u64. pose proof (Z.mod_pos_bound z two64). int_solve. Qed.

Lemma as_i64_range z : is_i64 (as_i64 z).
Proof.
  unfold as_i64. pose proof (Z.mod_pos_bound z two64).
  cbv zeta. destruct (Z.ltb_spec (z mod two64) two63); int_solve.
Qed.

Lemma as_u64_as_i64 z : is_u64 z -> as_u64 (as_i64 z) = z.
Proof.
  intros Hz. unfold as_u64, as_i64. cbv zeta.
  rewrite (Z.mod_small z) by int_solve.
  destruct (Z.ltb_spec z two63).
  - rewrite Z.mod_small; [done | int_solve].
  - replace (z - two64) with (z + (-1) * two64) by lia.
    rewrite Z.mod_add by (unfold_ints; lia). apply Z.mod_small. int_solve.
Qed.

Lemma as_i64_as_u64 z : is_i64 z -> as_i64 (as_u64 z) = z.
Proof.
  intros Hz. unfold as_u64, as_i64. cbv zeta.
  rewrite Z.mod_mod by (unfold_ints; lia).
  destruct (Z.le_gt_cases 0 z).
  - rewrite Z.mod_small by int_solve.
    destruct (Z.ltb_spec z two63); [done | int_solve].
  - assert (z mod two64 = z + two64) as ->.
    { replace z with (z + two64 + (-1) * two64) at 1 by lia.
      rewrite Z.mod_add by (unfold_ints; lia). apply Z.mod_small. int_solve. }
    destruct (Z.ltb_spec (z + two64) two63); int_solve.
Qed.

Lemma saturating_add_u64_range a b :
  is_u64 a -> is_u64 b -> is_u64 (saturating_add_u64 a b).
Proof. unfold saturating_add_u64. int_solve. Qed.

Lemma checked_add_u64_Some a b c :
  checked_add_u64 a b = Some c -> c = a + b /\ a + b <= u64_max.
Proof. unfold checked_add_u64. case_match; naive_solver lia. Qed.

Lemma checked_add_i64_Some a b c :
  checked_add_i64 a b = Some c -> c = a + b /\ is_i64 c.
Proof.
  unfold checked_add_i64, in_i64. case_match eqn:E; [|done].
  intros [= <-]. split; [done | int_solve].
Qed.

Lemma checked_sub_i64_Some a b c :
  checked_sub_i64 a b = Some c -> c = a - b /\ is_i64 c.
Proof.
  unfold checked_sub_i64, in_i64. case_match eqn:E; [|done].
  intros [= <-]. split; [done | int_solve].
Qed.

Lemma clamp_i64_range z : is_i64 (clamp_i64 z).
Proof. unfold clamp_i64. int_solve. Qed.

Lemma clamp_i64_id z : is_i64 z -> clamp_i64 z = z.
Proof. unfold clamp_i64. int_solve. Qed.

(** ** Bits of a [u64] *)

Lemma not_u64_spec v i : 0 <= i < 64 -> Z.testbit (not_u64 v) i = negb (Z.testbit v i).
Proof.
  intros Hi. unfold not_u64.
  rewrite Z.land_spec, Z.lnot_spec, Z.ones_spec_low by lia. apply andb_true_r.
Qed.

Lemma not_u64_high v i : 64 <= i -> Z.testbit (not_u64 v) i = false.
Proof.
  intros Hi. unfold not_u64. rewrite Z.land_spec, Z.ones_spec_high by lia.
  apply andb_false_r.
Qed.

(** A non-negative value with no bit at or above 64 is a [u64]. *)
Lemma u64_of_bits v :
  0 <= v -> (forall i, 64 <= i -> Z.testbit v i = false) -> is_u64 v.
Proof.
  intros Hv Hb.
  assert (Z.land v (Z.ones 64) = v) as E.
  { apply Z.bits_inj'. intros i Hi. rewrite Z.land_spec.
    destruct (Z.le_gt_cases 64 i).
    - rewrite (Hb i) by lia. done.
    - rewrite Z.ones_spec_low by lia. apply andb_true_r. }
  rewrite Z.land_ones in E by lia. pose proof (Z.mod_pos_bound v (2 ^ 64)).
  change (2 ^ 64) with two64 in *. int_solve.
Qed.

Lemma u64_high_bits v i : is_u64 v -> 64 <= i -> Z.testbit v i = false.
Proof.
  intros Hv Hi. destruct (Z.eq_dec v 0) as [->|]; [apply Z.testbit_0_l|].
  apply Z.bits_above_log2; [int_solve|].
  apply Z.log2_lt_pow2; [int_solve|].
  apply Z.lt_le_trans with (2 ^ 64); [change (2 ^ 64) with two64; int_solve|].
  apply Z.pow_le_mono_r; lia.
Qed.

Lemma u64_bits_inj a b :
  is_u64 a -> is_u64 b ->
  (forall i, 0 <= i < 64 -> Z.testbit a i = Z.testbit b i) -> a = b.
Proof.
  intros Ha Hb H. apply Z.bits_inj'. intros i Hi.
  destruct (Z.le_gt_cases 64 i); [|apply H; lia].
  by rewrite !u64_high_bits.
Qed.

Lemma is_u64_lor a b : is_u64 a -> is_u64 b -> is_u64 (Z.lor a b).
Proof.
  intros Ha Hb. apply u64_of_bits.
  - apply Z.lor_nonneg. int_solve.
  - intros i Hi. rewrite Z.lor_spec, !u64_high_bits by done. done.
Qed.

Lemma is_u64_land_l a b : is_u64 a -> 0 <= b -> is_u64 (Z.land a b).
Proof.
  intros Ha Hb. apply u64_of_bits.
  - apply Z.land_nonneg. int_solve.
  - intros i Hi. rewrite Z.land_spec, u64_high_bits by done. done.
Qed.

Lemma is_u64_not v : is_u64 (not_u64 v).
Proof.
  unfold not_u64. rewrite Z.land_ones by lia.
  pose proof (Z.mod_pos_bound (Z.lnot v) (2 ^ 64)).
  change (2 ^ 64) with two64 in *. int_solve.
Qed.

(** [a & m == m], read bit by bit. *)
Lemma land_eq_subset a m :
  Z.land a m = m <-> (forall i, 0 <= i -> Z.testbit m i = true -> Z.testbit a i = true).
Proof.
  split.
  - intros E i Hi Hm. rewrite <- E, Z.land_spec in Hm. by apply andb_true_iff in Hm as [].
  - intros H. apply Z.bits_inj'. intros i Hi. rewrite Z.land_spec.
    destruct (Z.testbit m i) eqn:Em; [|apply andb_false_r].
    by rewrite (H i Hi Em).
Qed.

(** ** Stable sorting, as [slice::sort_by] *)

Section Sort.
Context {A : Type} (le : A -> A -> bool).

Fixpoint insert_by (x : A) (l : list A) : list A :=
  match l with
  | [] => [x]
  | y :: l' => if le x y then x :: l else y :: insert_by x l'
  end.

Definition sort_by (l : list A) : list A := foldr insert_by [] l.

Lemma insert_by_perm x l : insert_by x l ≡ₚ x :: l.
Proof.
  induction l as [|y l IH]; simpl; [done|].
  case_match; [done|]. rewrite IH. constructor.
Qed.

Lemma sort_by_perm l : sort_by l ≡ₚ l.
Proof. induction l as [|x l IH]; simpl; [done|]. by rewrite insert_by_perm, IH. Qed.

Lemma elem_of_sort_by x l : x ∈ sort_by l <-> x ∈ l.
Proof. by rewrite sort_by_perm. Qed.

Context (le_total : forall x y, le x y = true \/ le y x = true).
Context (le_trans : forall x y z, le x y = true -> le y z = true -> le x z = true).

Lemma insert_by_sorted x l :
  StronglySorted (fun a b => le a b = true) l ->
  StronglySorted (fun a b => le a b = true) (insert_by x l).
Proof.
  induction 1 as [|y l Hs IH Hy]; simpl; [repeat constructor|].
  destruct (le x y) eqn:E.
  - constructor; [by constructor|]. constructor; [done|].
    eapply Forall_impl; [exact Hy|]. simpl. eauto.
  - constructor; [done|]. rewrite insert_by_perm. constructor; [|done].
    destruct (le_total x y); congruence.
Qed.

Lemma sort_by_sorted l : StronglySorted (fun a b => le a b = true) (sort_by l).
Proof. induction l; simpl; [constructor | by apply insert_by_sorted]. Qed.

(** Two orders of the same elements sort alike when no two distinct
    elements compare equal. *)
Lemma sort_by_unique l1 l2 :
  l1 ≡ₚ l2 ->
  (forall x y, x ∈ l1 -> y ∈ l1 -> le x y = true -> le y x = true -> x = y) ->
  sort_by l1 = sort_by l2.
Proof.
  intros Hp Hanti.
  assert (sort_by l1 ≡ₚ sort_by l2) as Hp' by by rewrite !sort_by_perm.
  assert (forall x y, x ∈ sort_by l1 -> y ∈ sort_by l1 ->
            le x y = true -> le y x = true -> x = y) as Ha'.
  { intros x y Hx Hy. rewrite elem_of_sort_by in Hx, Hy. eauto. }
  pose proof (sort_by_sorted l1) as S1. pose proof (sort_by_sorted l2) as S2.
  clear Hp Hanti. revert Hp' Ha' S1 S2.
  generalize (sort_by l1) (sort_by l2). clear l1 l2.
  induction l as [|x l IH]; intros l2 Hp Ha S1 S2.
  { apply Permutation_nil_l in Hp. done. }
  destruct l2 as [|y l2]; [symmetry in Hp; by apply Permutation_nil_cons in Hp|].
  inversion S1 as [|? ? S1' F1]; inversion S2 as [|? ? S2' F2]; subst.
  assert (x = y) as ->.
  { assert (y ∈ x :: l) as Hy by (rewrite Hp; left).
    assert (x ∈ y :: l2) as Hx by (rewrite <- Hp; left).
    apply elem_of_cons in Hy as [->|Hy]; [done|].
    apply elem_of_cons in Hx as [->|Hx]; [done|].
    rewrite Forall_forall in F1, F2.
    apply Ha; [left | by right | by apply F1 | by apply F2]. }
  f_equal. apply IH; [by apply Permutation_cons_inv in Hp| |done|done].
  intros a b Hx Hy. apply Ha; by right.
Qed.
End Sort.

(** [Vec::dedup] *)
Fixpoint dedup (l : list Z) : list Z :=
  match l with
  | [] => []
  | x :: rest =>
      match rest with
      | y :: _ => if x =? y then dedup rest else x :: dedup rest
      | [] => [x]
      end
  end.

Lemma dedup_elem x l : x ∈ dedup l <-> x ∈ l.
Proof.
  induction l as [|y l IH]; [done|]. destruct l as [|z l]; [done|]. cbn [dedup] in *.
  destruct (y =? z) eqn:E; rewrite !elem_of_cons, IH, ?elem_of_cons; [|done].
  apply Z.eqb_eq in E as ->. tauto.
Qed.

Lemma dedup_NoDup l : StronglySorted (fun a b => (a <=? b) = true) l -> NoDup (dedup l).
Proof.
  induction l as [|y l IH]; intros Hs; [constructor|]. apply StronglySorted_inv in Hs as [Hs Hf].
  destruct l as [|z l]; [apply NoDup_singleton|]. cbn [dedup] in *.
  destruct (y =? z) eqn:E; [by apply IH|]. apply Z.eqb_neq in E. apply NoDup_cons. split; [|by apply IH].
  intros Hy. apply (dedup_elem y (z :: l)) in Hy. apply StronglySorted_inv in Hs as [_ Hz].
  rewrite Forall_forall in Hf, Hz. pose proof (Hf z (list_elem_of_here _ _)) as H1.
  apply elem_of_cons in Hy as [->|Hy]; [done|]. pose proof (Hz y Hy) as H2. apply Z.leb_le in H1, H2. lia.
Qed.

Lemma dedup_ascending l : StronglySorted (fun a b => (a <=? b) = true) l -> StronglySorted Z.lt (dedup l).
Proof.
  induction l as [|y l IH]; intros Hs; [constructor|]. pose proof (dedup_NoDup _ Hs) as Hn.
  apply StronglySorted_inv in Hs as [Hs Hf]. destruct l as [|z l]; [repeat constructor|]. cbn [dedup] in *.
  destruct (y =? z) eqn:E; [by apply IH|]. constructor; [by apply IH|].
  apply NoDup_cons in Hn as [Hn _]. rewrite Forall_forall in *. intros x Hx.
  assert (x <> y) as Hne by (intros ->; done). apply (dedup_elem x (z :: l)), Hf, Z.leb_le in Hx. lia.
Qed.

Lemma insert_by_fmap {A B} (f : A -> B) (le : B -> B -> bool) (x : A) (l : list A) :
  f <$> insert_by (fun a b => le (f a) (f b)) x l = insert_by le (f x) (f <$> l).
Proof.
  induction l as [|y l IH]; simpl; [done|]. case_match; simpl; [done|].
  f_equal. exact IH.
Qed.

(** Sorting rows by a key and projecting the key is sorting the keys. *)
Lemma sort_by_fmap {A B} (f : A -> B) (le : B -> B -> bool) (l : list A) :
  f <$> sort_by (fun a b => le (f a) (f b)) l = sort_by le (f <$> l).
Proof.
  unfold sort_by. induction l as [|x l IH]; simpl; [done|].
  rewrite insert_by_fmap. f_equal. exact IH.
Qed.

Lemma elem_of_filter_bool {A} (p : A -> bool) (l : list A) x :
  x ∈ List.filter p l <-> p x = true /\ x ∈ l.
Proof. rewrite !list_elem_of_In, filter_In. tauto. Qed.

Lemma filter_bool_perm {A} (p : A -> bool) (l1 l2 : list A) :
  l1 ≡ₚ l2 -> List.filter p l1 ≡ₚ List.filter p l2.
Proof.
  induction 1 as [|x l l' _ IH|x y l|]; simpl; [done| | |by etrans].
  - case_match; [by constructor | done].
  - repeat case_match; first [reflexivity | apply perm_swap].
Qed.

#[export] Instance filter_bool_Proper {A} (p : A -> bool) :
  Proper ((≡ₚ) ==> (≡ₚ)) (List.filter p).
Proof. intros l1 l2. apply filter_bool_perm. Qed.

Lemma filter_bool_sorted {A} (R : A -> A -> Prop) (p : A -> bool) (l : list A) :
  StronglySorted R l -> StronglySorted R (List.filter p l).
Proof.
  induction 1 as [|x l Hs IH Hx]; simpl; [constructor|]. case_match; [|done].
  constructor; [done|]. rewrite Forall_forall in *. intros y [_ Hy]%elem_of_filter_bool. auto.
Qed.

Lemma filter_bool_filter {A} (p q : A -> bool) (l : list A) :
  (forall x, x ∈ l -> p x = true -> q x = true) ->
  List.filter p (List.filter q l) = List.filter p l.
Proof.
  induction l as [|x l IH]; simpl; intros Hpq; [done|].
  assert (List.filter p (List.filter q l) = List.filter p l) as E
    by (apply IH; intros; apply Hpq; [by right | done]).
  destruct (q x) eqn:Eq; simpl; [by rewrite E|].
  destruct (p x) eqn:Ep; [|done]. rewrite (Hpq x) in Eq; [done | left | done].
Qed.

Lemma filter_bool_all {A} (p : A -> bool) (l : list A) :
  (forall x, x ∈ l -> p x = true) -> List.filter p l = l.
Proof.
  induction l as [|x l IH]; simpl; intros Hp; [done|].
  rewrite (Hp x) by left. f_equal. apply IH. intros. apply Hp. by right.
Qed.

Lemma filter_bool_none {A} (p : A -> bool) (l : list A) :
  (forall x, x ∈ l -> p x = false) -> List.filter p l = [].
Proof.
  induction l as [|x l IH]; simpl; intros Hp; [done|].
  rewrite (Hp x) by left. apply IH. intros. apply Hp. by right.
Qed.

Lemma filter_bool_fmap {A B} (f : A -> B) (p : B -> bool) (l : list A) :
  List.filter p (f <$> l) = f <$> List.filter (fun x => p (f x)) l.
Proof.
  induction l as [|x l IH]; simpl; [done|]. case_match; simpl; [f_equal|]; exact IH.
Qed.

(** What every step preserves holds wherever the steps lead. *)
Lemma rtc_invariant {A} (R : A -> A -> Prop) (P : A -> Prop) x y :
  (forall a b, R a b -> P a -> P b) -> P x -> rtc R x y -> P y.
Proof. intros HR Hx H. induction H; eauto. Qed.

(** ** Hash maps

    A [HashMap] is a [gmap]; its iteration order is unspecified, so every
    operation that walks one takes the order as a parameter and the theorems
    hold for all of them. *)

Class HashIter (K V : Type) `{Countable K} := {
  hm_iter : gmap K V -> list (K * V);
  hm_iter_perm : forall m, hm_iter m ≡ₚ map_to_list m;
}.

(** The order in which stdpp lists a map: the instance witnesses use. *)
#[export] Instance canonical_iter K V `{Countable K} : HashIter K V | 100 := {|
  hm_iter := map_to_list;
  hm_iter_perm := fun m => Permutation_refl (map_to_list m);
|}.

(** [map.values()] *)
Definition hm_values {K V} `{HashIter K V} (m : gmap K V) : list V := (hm_iter m).*2.

(** [map.values_mut()] visits the entries in the same unspecified order. *)
Definition hm_keys {K V} `{HashIter K V} (m : gmap K V) : list K := (hm_iter m).*1.

Section HashMap.
Context {K V : Type} `{HashIter K V}.
Implicit Types (m : gmap K V).

Lemma elem_of_hm_iter m k v : (k, v) ∈ hm_iter m <-> m !! k = Some v.
Proof. rewrite hm_iter_perm. apply elem_of_map_to_list. Qed.

Lemma hm_values_perm m : hm_values m ≡ₚ (map_to_list m).*2.
Proof. unfold hm_values. by rewrite hm_iter_perm. Qed.

Lemma elem_of_hm_values m v : v ∈ hm_values m <-> exists k, m !! k = Some v.
Proof.
  unfold hm_values. rewrite list_elem_of_fmap. split.
  - intros ([k v'] & -> & Hk). exists k. by apply elem_of_hm_iter.
  - intros [k Hk]. exists (k, v). split; [done|]. by apply elem_of_hm_iter.
Qed.

Lemma hm_keys_NoDup m : NoDup (hm_keys m).
Proof. unfold hm_keys. rewrite hm_iter_perm. apply NoDup_fst_map_to_list. Qed.

Lemma elem_of_hm_keys m k : k ∈ hm_keys m <-> is_Some (m !! k).
Proof.
  unfold hm_keys. rewrite list_elem_of_fmap. split.
  - intros ([k' v] & -> & Hk). exists v. by apply elem_of_hm_iter.
  - intros [v Hk]. exists (k, v). split; [done|]. by apply elem_of_hm_iter.
Qed.

Lemma hm_values_length m : length (hm_values m) = size m.
Proof. rewrite hm_values_perm, length_fmap. apply length_map_to_list. Qed.

(** [values().any(p)] *)
Lemma hm_any_true (p : V -> bool) m :
  existsb p (hm_values m) = true <-> exists k v, m !! k = Some v /\ p v = true.
Proof.
  rewrite existsb_exists. split.
  - intros (v & Hv & Hp). apply list_elem_of_In, elem_of_hm_values in Hv as [k Hk]. eauto.
  - intros (k & v & Hk & Hp). exists v. split; [|done].
    apply list_elem_of_In, elem_of_hm_values. eauto.
Qed.

Lemma hm_any_false (p : V -> bool) m :
  existsb p (hm_values m) = false <-> forall k v, m !! k = Some v -> p v = false.
Proof.
  split.
  - intros E k v Hk. destruct (p v) eqn:Ep; [|done].
    assert (existsb p (hm_values m) = true) by (apply hm_any_true; eauto). congruence.
  - intros Hall. destruct (existsb p (hm_values m)) eqn:E; [|done].
    apply hm_any_true in E as (k & v & Hk & Hp). rewrite (Hall k v Hk) in Hp. done.
Qed.

(** [values().find(p)] *)
Lemma hm_find_Some (p : V -> bool) m v :
  List.find p (hm_values m) = Some v -> (exists k, m !! k = Some v) /\ p v = true.
Proof.
  intros E. apply find_some in E as [Hin Hp].
  by apply list_elem_of_In, elem_of_hm_values in Hin.
Qed.

Lemma hm_find_None (p : V -> bool) m :
  List.find p (hm_values m) = None -> forall k v, m !! k = Some v -> p v = false.
Proof.
  intros E k v Hk. eapply find_none in E; [exact E|].
  apply list_elem_of_In, elem_of_hm_values. eauto.
Qed.

(** A predicate only one entry satisfies is found whatever the order. *)
Lemma hm_find_unique (p : V -> bool) m k v :
  m !! k = Some v -> p v = true ->
  (forall k' v', m !! k' = Some v' -> p v' = true -> v' = v) ->
  List.find p (hm_values m) = Some v.
Proof.
  intros Hk Hp Hu. destruct (List.find p (hm_values m)) as [w|] eqn:E.
  - apply hm_find_Some in E as [[k' Hk'] Hp']. f_equal. eauto.
  - pose proof (hm_find_None _ _ E k v Hk). congruence.
Qed.

(** [iter().find(p)] on the entries: the key comes with the row. *)
Lemma hm_find_entry_Some (p : V -> bool) m k v :
  List.find (fun kv => p kv.2) (hm_iter m) = Some (k, v) -> m !! k = Some v /\ p v = true.
Proof.
  intros E. apply find_some in E as [Hin Hp]. split; [|done].
  by apply list_elem_of_In, elem_of_hm_iter in Hin.
Qed.

Lemma hm_find_entry_None (p : V -> bool) m :
  List.find (fun kv => p kv.2) (hm_iter m) = None ->
  forall k v, m !! k = Some v -> p v = false.
Proof.
  intros E k v Hk. eapply (find_none _ _ E (k, v)).
  by apply list_elem_of_In, elem_of_hm_iter.
Qed.
End HashMap.

(** ** Sums over the rows of a map *)

Definition list_sum {A} (f : A -> Z) (l : list A) : Z := foldr (fun a t => f a + t) 0 l.

#[export] Instance list_sum_Permutation {A} (f : A -> Z) :
  Proper ((≡ₚ) ==> (=)) (list_sum f).
Proof. intros l1 l2 H. induction H; simpl in *; lia. Qed.

Lemma list_sum_app {A} (f : A -> Z) l1 l2 :
  list_sum f (l1 ++ l2) = list_sum f l1 + list_sum f l2.
Proof. induction l1; simpl; lia. Qed.

Lemma list_sum_nonneg {A} (f : A -> Z) l :
  (forall x, x ∈ l -> 0 <= f x) -> 0 <= list_sum f l.
Proof.
  induction l as [|x l IH]; simpl; intros Hf; [lia|].
  assert (0 <= f x) by (apply Hf; left).
  assert (0 <= list_sum f l) by (apply IH; intros; apply Hf; by right). lia.
Qed.

Definition map_sum {K V} `{Countable K} (f : V -> Z) (m : gmap K V) : Z :=
  list_sum f (map_to_list m).*2.

Section MapSum.
Context {K V : Type} `{Countable K}.
Implicit Types (f : V -> Z) (m : gmap K V).

Lemma map_sum_empty f : map_sum f (∅ : gmap K V) = 0.
Proof. unfold map_sum. by rewrite map_to_list_empty. Qed.

Lemma map_sum_insert_new f m k v :
  m !! k = None -> map_sum f (<[k := v]> m) = f v + map_sum f m.
Proof. intros Hk. unfold map_sum. by rewrite map_to_list_insert. Qed.

Lemma map_sum_delete f m k v :
  m !! k = Some v -> map_sum f m = f v + map_sum f (delete k m).
Proof.
  intros Hk. rewrite <- (insert_delete_id m k v) at 1 by done.
  rewrite map_sum_insert_new; [done | apply lookup_delete_eq].
Qed.

Lemma map_sum_insert f m k v :
  map_sum f (<[k := v]> m) = map_sum f m + f v - from_option f 0 (m !! k).
Proof.
  destruct (m !! k) as [o|] eqn:E; simpl.
  - rewrite (map_sum_delete f m k o E), <- insert_delete_eq.
    rewrite map_sum_insert_new by apply lookup_delete_eq. lia.
  - rewrite map_sum_insert_new by done. lia.
Qed.

Lemma map_sum_values `{!HashIter K V} f m : list_sum f (hm_values m) = map_sum f m.
Proof. unfold map_sum. by rewrite hm_values_perm. Qed.

Lemma map_sum_ext f g m :
  (forall k v, m !! k = Some v -> f v = g v) -> map_sum f m = map_sum g m.
Proof.
  induction m as [|k v m Hk IH] using map_ind; intros E; [by rewrite !map_sum_empty|].
  rewrite !map_sum_insert_new by done. f_equal.
  - apply (E k). apply lookup_insert_eq.
  - apply IH. intros j w Hj. apply (E j).
    rewrite lookup_insert_ne; [done|]. intros ->. congruence.
Qed.
End MapSum.

(** ** Strings, compared byte by byte as in Rust *)

Definition str_ltb (a b : string) : bool := String.ltb a b.
Definition str_leb (a b : string) : bool := String.leb a b.
Definition str_eqb (a b : string) : bool := String.eqb a b.

(** [s.starts_with(p)] *)
Definition starts_with (p s : string) : bool := String.prefix p s.

(** [s.strip_prefix(p).is_some_and(|rest| !rest.is_empty())] *)
Definition has_prefix_and_rest (p s : string) : bool :=
  String.prefix p s && (String.length p <? String.length s)%nat.

(** [s.contains(c)] *)
Fixpoint contains_char (c : Ascii.ascii) (s : string) : bool :=
  match s with
  | EmptyString => false
  | String d s' => Ascii.eqb c d || contains_char c s'
  end.

Definition newline : Ascii.ascii := Ascii.ascii_of_nat 10.

Lemma str_eqb_eq a b : str_eqb a b = true <-> a = b.
Proof. apply String.eqb_eq. Qed.

Lemma str_eqb_refl a : str_eqb a a = true.
Proof. apply String.eqb_refl. Qed.

Lemma str_eqb_neq a b : str_eqb a b = false <-> a <> b.
Proof. apply String.eqb_neq. Qed.

(** Order by the list of byte codes: the order of [str::cmp]. *)
Fixpoint codes (s : string) : list N :=
  match s with
  | EmptyString => []
  | String c s' => Ascii.N_of_ascii c :: codes s'
  end.

Fixpoint codes_cmp (a b : list N) : comparison :=
  match a, b with
  | [], [] => Eq
  | [], _ => Lt
  | _, [] => Gt
  | x :: a', y :: b' =>
      match N.compare x y with Eq => codes_cmp a' b' | c => c end
  end.

Lemma str_compare_codes a b : String.compare a b = codes_cmp (codes a) (codes b).
Proof.
  revert b. induction a as [|x a IH]; intros [|y b]; simpl; try done.
  unfold Ascii.compare. by rewrite IH.
Qed.

Lemma codes_cmp_lt_trans a b c :
  codes_cmp a b = Lt -> codes_cmp b c = Lt -> codes_cmp a c = Lt.
Proof.
  revert b c. induction a as [|x a IH]; intros [|y b] [|z c]; simpl; try done.
  destruct (N.compare_spec x y), (N.compare_spec y z), (N.compare_spec x z);
    subst; try done; try lia. apply IH.
Qed.

Lemma codes_cmp_refl a : codes_cmp a a = Eq.
Proof. induction a; simpl; [done|]. by rewrite N.compare_refl. Qed.

Lemma str_ltb_lt a b : str_ltb a b = true <-> String.compare a b = Lt.
Proof. unfold str_ltb, String.ltb. by destruct (String.compare a b). Qed.

Lemma str_leb_le a b : str_leb a b = true <-> a = b \/ String.compare a b = Lt.
Proof.
  unfold str_leb, String.leb. destruct (String.compare a b) eqn:E.
  - apply String.compare_eq_iff in E. naive_solver.
  - naive_solver.
  - split; [done|]. intros [->|]; [|done].
    by rewrite str_compare_codes, codes_cmp_refl in E.
Qed.

Lemma str_compare_lt_trans a b c :
  String.compare a b = Lt -> String.compare b c = Lt -> String.compare a c = Lt.
Proof. rewrite !str_compare_codes. apply codes_cmp_lt_trans. Qed.

Lemma str_ltb_irrefl a : str_ltb a a = false.
Proof.
  destruct (str_ltb a a) eqn:E; [|done].
  by rewrite str_ltb_lt, str_compare_codes, codes_cmp_refl in E.
Qed.

Lemma str_ltb_trans a b c : str_ltb a b = true -> str_ltb b c = true -> str_ltb a c = true.
Proof. rewrite !str_ltb_lt. apply str_compare_lt_trans. Qed.

Lemma str_leb_total a b : str_leb a b = true \/ str_leb b a = true.
Proof. apply String.leb_total. Qed.

Lemma str_leb_antisym a b : str_leb a b = true -> str_leb b a = true -> a = b.
Proof. apply String.leb_antisym. Qed.

Lemma str_leb_trans a b c : str_leb a b = true -> str_leb b c = true -> str_leb a c = true.
Proof.
  rewrite !str_leb_le. intros [->|Hab] [->|Hbc]; eauto using str_compare_lt_trans.
Qed.

Lemma str_leb_ltb_eq a b : str_leb a b = true -> a = b \/ str_ltb a b = true.
Proof. rewrite str_leb_le, str_ltb_lt. done. Qed.

Lemma str_ltb_leb a b : str_ltb a b = true -> str_leb a b = true.
Proof. rewrite str_leb_le, str_ltb_lt. auto. Qed.

Lemma str_ltb_ge a b : str_ltb a b = false -> str_leb b a = true.
Proof.
  intros E. destruct (str_leb_total b a) as [|H]; [done|].
  apply str_leb_ltb_eq in H as [->|H]; [|congruence].
  destruct (str_leb_total b b); done.
Qed.

Lemma contains_char_app c a b : contains_char c (a +:+ b) = contains_char c a || contains_char c b.
Proof. induction a as [|d a IH]; simpl; [done|]. rewrite IH. apply orb_assoc. Qed.

Lemma str_app_inj_l a b c : a +:+ b = a +:+ c -> b = c.
Proof. induction a as [|d a IH]; simpl; [done|]. intros [= H]. auto. Qed.

(** A character that is no digit does not occur in a printed number. *)
Definition not_digit (c : Ascii.ascii) : bool :=
  let n := Ascii.nat_of_ascii c in ((n <? 45) || (57 <? n))%nat.

Lemma pretty_N_char_digit c n :
  not_digit c = true -> contains_char c (String (pretty_N_char n) "") = false.
Proof.
  intros Hc. cbn [contains_char]. rewrite orb_false_r.
  destruct (Ascii.eqb_spec c (pretty_N_char n)) as [->|]; [|done].
  exfalso. revert Hc. unfold pretty_N_char. repeat case_match; discriminate.
Qed.

Lemma pretty_N_go_contains c x s :
  not_digit c = true -> contains_char c (pretty_N_go x s) = contains_char c s.
Proof.
  intros Hc. revert s. induction (N.lt_wf_0 x) as [x _ IH]. intros s.
  destruct (decide (x = 0)%N) as [->|Hx]; [by rewrite pretty_N_go_0|].
  rewrite pretty_N_go_step by lia. rewrite IH by (apply N.div_lt; lia).
  pose proof (pretty_N_char_digit c (x `mod` 10) Hc) as Hd. cbn [contains_char] in *.
  rewrite orb_false_r in Hd. by rewrite Hd.
Qed.

Lemma pretty_Z_contains c (z : Z) : not_digit c = true -> contains_char c (pretty z) = false.
Proof.
  intros Hc.
  assert (forall n : N, contains_char c (pretty n) = false) as HN.
  { intros n. unfold pretty, pretty_N. case_decide; [|by rewrite pretty_N_go_contains].
    exact (pretty_N_char_digit c 0 Hc). }
  destruct z as [|p|p]; [exact (pretty_N_char_digit c 0 Hc) | apply HN|].
  change (pretty (Z.neg p)) with ("-" +:+ pretty (N.pos p)).
  rewrite contains_char_app, HN, orb_false_r. cbn [contains_char]. rewrite orb_false_r.
  destruct (Ascii.eqb_spec c (Ascii.ascii_of_nat 45)) as [->|]; [done|].
  by apply Ascii.eqb_neq.
Qed.

#[export] Instance option_string_eq_dec : EqDecision (option string) := _.

(** [o.as_deref() == Some(s)] *)
Definition is_some_str (o : option string) (s : string) : bool :=
  match o with Some t => str_eqb t s | None => false end.

Lemma is_some_str_true o s : is_some_str o s = true <-> o = Some s.
Proof.
  destruct o as [t|]; simpl; [|naive_solver].
  rewrite str_eqb_eq. naive_solver.
Qed.

Lemma is_some_str_false o s : is_some_str o s = false <-> o <> Some s.
Proof. rewrite <- is_some_str_true. by destruct (is_some_str o s). Qed.

(** [==] on [Option<T>] through decidable equality. *)
Definition eqb {A} `{EqDecision A} (a b : A) : bool := bool_decide (a = b).

Lemma eqb_eq {A} `{EqDecision A} (a b : A) : eqb a b = true <-> a = b.
Proof. unfold eqb. apply bool_decide_eq_true. Qed.

Lemma eqb_neq {A} `{EqDecision A} (a b : A) : eqb a b = false <-> a <> b.
Proof. unfold eqb. apply bool_decide_eq_false. Qed.

Lemma eqb_refl {A} `{EqDecision A} (a : A) : eqb a a = true.
Proof. by apply eqb_eq. Qed.

(** ** Automation *)

Create HintDb sloga.
Create Rewrite HintDb sloga_bool.

#[export] Hint Resolve as_u64_range as_i64_range clamp_i64_range is_u64_not
  is_u64_lor hm_keys_NoDup sort_by_perm str_leb_total : sloga.
#[export] Hint Resolve saturating_add_u64_range : sloga.

#[export] Hint Rewrite @str_eqb_eq @str_eqb_neq @is_some_str_true @is_some_str_false
  @eqb_eq @eqb_neq andb_true_iff andb_false_iff orb_true_iff orb_false_iff
  negb_true_iff negb_false_iff Z.ltb_lt Z.leb_le Z.eqb_eq Z.ltb_ge Z.leb_gt Z.eqb_neq : sloga_bool.

(** Turn every boolean test in the context and the goal into its meaning. *)
Ltac to_prop := autorewrite with sloga_bool in *.

(** Split the [match]es of a hypothesis that says what an operation returned,
    dropping the branches that return something else. *)
Ltac inv_op H :=
  repeat (match type of H with
          | context [match ?x with _ => _ end] =>
              lazymatch x with
              | context [match _ with _ => _ end] => fail
              | _ => destruct x eqn:?; try discriminate H
              end
          end);
  simplify_eq.
