(* ===== verification/Text.v ===== *)
(** * Text

    The functions of [str] the sources use, on the UTF-8 bytes of a string:
    splitting, trimming, decimal numbers. *)

From stdpp Require Import base numbers list strings pretty.
From S2P Require Import Prelude.
Open Scope Z_scope.

(** [(lo..=hi).contains(&b)] *)
Definition byte_between (lo hi : nat) (c : Ascii.ascii) : bool :=
  ((lo <=? Ascii.nat_of_ascii c) && (Ascii.nat_of_ascii c <=? hi))%nat.

Lemma byte_between_true lo hi c :
  byte_between lo hi c = true <-> (lo <= Ascii.nat_of_ascii c <= hi)%nat.
Proof. unfold byte_between. rewrite andb_true_iff, !Nat.leb_le. done. Qed.

(** [u8::is_ascii_alphanumeric] *)
Definition is_ascii_alphanumeric (c : Ascii.ascii) : bool :=
  byte_between 48 57 c || byte_between 65 90 c || byte_between 97 122 c.

(** [str::to_ascii_uppercase] *)
Definition ascii_upper (c : Ascii.ascii) : Ascii.ascii :=
  if byte_between 97 122 c then Ascii.ascii_of_nat (Ascii.nat_of_ascii c - 32) else c.

Fixpoint to_ascii_uppercase (s : string) : string :=
  match s with
  | EmptyString => EmptyString
  | String c rest => String (ascii_upper c) (to_ascii_uppercase rest)
  end.

Definition comma : Ascii.ascii := Ascii.ascii_of_nat 44.
Definition dot : Ascii.ascii := Ascii.ascii_of_nat 46.
Definition slash : Ascii.ascii := Ascii.ascii_of_nat 47.
Definition equals : Ascii.ascii := Ascii.ascii_of_nat 61.

(** [str::split(c)]: the first part, and the others *)
Fixpoint split_on (sep : Ascii.ascii) (s : string) : string * list string :=
  match s with
  | EmptyString => ("", [])
  | String c s' =>
      let '(part, parts) := split_on sep s' in
      if Ascii.eqb c sep then ("", part :: parts) else (String c part, parts)
  end.

(** [str::split_once(c)] *)
Fixpoint split_once (sep : Ascii.ascii) (s : string) : option (string * string) :=
  match s with
  | EmptyString => None
  | String c s' =>
      if Ascii.eqb c sep then Some ("", s')
      else match split_once sep s' with
           | Some (key, value) => Some (String c key, value)
           | None => None
           end
  end.

(** ** Characters *)

Definition continuation (s : string) : bool :=
  match s with String c _ => byte_between 128 191 c | EmptyString => false end.

(** [str::chars], each as its bytes *)
Fixpoint chars (s : string) : list string :=
  match s with
  | EmptyString => []
  | String c s' =>
      match continuation s', chars s' with
      | true, d :: rest => String c d :: rest
      | _, rest => String c "" :: rest
      end
  end.

Definition bytes_of (s : string) : list nat := Ascii.nat_of_ascii <$> String.list_ascii_of_string s.

(** [char::is_whitespace], the Unicode White_Space characters *)
Definition is_whitespace (c : string) : bool :=
  (match bytes_of c with
  | [a] => (9 <=? a) && (a <=? 13) || (a =? 32)
  | [a; b] => (a =? 194) && ((b =? 133) || (b =? 160))
  | [a; b; d] =>
      (a =? 225) && (b =? 154) && (d =? 128)
      || (a =? 226) && (b =? 128)
         && ((128 <=? d) && (d <=? 138) || (d =? 168) || (d =? 169) || (d =? 175))
      || (a =? 226) && (b =? 129) && (d =? 159)
      || (a =? 227) && (b =? 128) && (d =? 128)
  | _ => false
  end)%nat.

Fixpoint drop_spaces (cs : list string) : list string :=
  match cs with
  | c :: rest => if is_whitespace c then drop_spaces rest else cs
  | [] => []
  end.

Definition concat_chars (cs : list string) : string := foldr String.append "" cs.

(** [str::trim] *)
Definition trim (s : string) : string :=
  concat_chars (rev (drop_spaces (rev (drop_spaces (chars s))))).

(** ** Decimal numbers *)

Definition digit_value (c : Ascii.ascii) : option Z :=
  let n := Ascii.nat_of_ascii c in
  if ((48 <=? n) && (n <=? 57))%nat then Some (Z.of_nat n - 48) else None.

Fixpoint parse_digits (acc : Z) (s : string) : option Z :=
  match s with
  | EmptyString => Some acc
  | String c s' =>
      match digit_value c with Some d => parse_digits (10 * acc + d) s' | None => None end
  end.

(** [t.parse::<i64>()] of a string of digits *)
Definition parse_i64_digits (s : string) : option Z :=
  match parse_digits 0 s with
  | Some n => if n <=? i64_max then Some n else None
  | None => None
  end.

Definition all_digits (s : string) : bool :=
  forallb (byte_between 48 57) (String.list_ascii_of_string s).

Lemma digit_value_pretty n : (n < 10)%N -> digit_value (pretty_N_char n) = Some (Z.of_N n).
Proof.
  intros Hn. assert (n ∈ N.of_nat <$> seq 0 10) as Hin.
  { apply list_elem_of_fmap. exists (N.to_nat n). rewrite elem_of_seq. lia. }
  clear Hn. revert n Hin. apply Forall_forall. repeat constructor.
Qed.

Lemma parse_pretty_N_go x : forall s, parse_digits 0 (pretty_N_go x s) = parse_digits (Z.of_N x) s.
Proof.
  induction (N.lt_wf_0 x) as [x _ IH]. intros s.
  destruct (decide (x = 0)%N) as [->|Hx]; [by rewrite pretty_N_go_0|].
  rewrite pretty_N_go_step by lia. rewrite IH by (apply N.div_lt; lia).
  cbn [parse_digits]. rewrite digit_value_pretty by (apply N.mod_lt; lia). f_equal.
  pose proof (N.div_mod x 10 ltac:(lia)). lia.
Qed.

Lemma pretty_digit_head (z : Z) : 0 <= z -> exists c s, pretty z = String c s /\
  digit_value c <> None.
Proof.
  intros Hz.
  assert (forall x s, (exists c t, s = String c t /\ digit_value c <> None) ->
    exists c t, pretty_N_go x s = String c t /\ digit_value c <> None) as Hgo.
  { intros x. induction (N.lt_wf_0 x) as [x _ IH]. intros s Hs.
    destruct (decide (x = 0)%N) as [->|Hx]; [by rewrite pretty_N_go_0|].
    rewrite pretty_N_go_step by lia. apply IH; [apply N.div_lt; lia|].
    eexists _, _. split; [done|]. by rewrite digit_value_pretty by (apply N.mod_lt; lia). }
  destruct z as [|p|p]; [by eexists _, _| |lia].
  change (pretty (Z.pos p)) with (pretty_N_go (N.pos p) "").
  rewrite pretty_N_go_step by lia. apply Hgo. eexists _, _. split; [done|].
  by rewrite digit_value_pretty by (apply N.mod_lt; lia).
Qed.


(** A number printed without a sign, and read *)
Lemma parse_digits_pretty (z : Z) : 0 <= z -> parse_digits 0 (pretty z) = Some z.
Proof.
  intros Hz. destruct z as [|p|p]; [done| |lia].
  change (pretty (Z.pos p)) with (pretty_N_go (N.pos p) ""). by rewrite parse_pretty_N_go.
Qed.

(** ** Splitting *)

Lemma split_on_none sep w : contains_char sep w = false -> split_on sep w = (w, []).
Proof.
  induction w as [|c w IH]; [done|]. cbn [contains_char split_on]. intros H.
  apply orb_false_iff in H as [Hc H]. rewrite Ascii.eqb_sym in Hc. by rewrite IH, Hc.
Qed.

Lemma split_on_app sep u v :
  contains_char sep u = false ->
  split_on sep (u +:+ String sep v) = (u, (split_on sep v).1 :: (split_on sep v).2).
Proof.
  intros Hu. induction u as [|c u IH].
  - change ("" +:+ String sep v) with (String sep v). cbn [split_on].
    rewrite Ascii.eqb_refl. by destruct (split_on sep v).
  - cbn [contains_char] in Hu. apply orb_false_iff in Hu as [Hc Hu].
    rewrite Ascii.eqb_sym in Hc.
    change (String c u +:+ String sep v) with (String c (u +:+ String sep v)).
    cbn [split_on]. by rewrite (IH Hu), Hc.
Qed.

Lemma split_once_app sep u v :
  contains_char sep u = false -> split_once sep (u +:+ String sep v) = Some (u, v).
Proof.
  intros Hu. induction u as [|c u IH].
  - change ("" +:+ String sep v) with (String sep v). cbn [split_once]. by rewrite Ascii.eqb_refl.
  - cbn [contains_char] in Hu. apply orb_false_iff in Hu as [Hc Hu].
    rewrite Ascii.eqb_sym in Hc.
    change (String c u +:+ String sep v) with (String c (u +:+ String sep v)).
    cbn [split_once]. by rewrite (IH Hu), Hc.
Qed.

(** Two strings joined by a character the first parts do not have *)
Lemma join_inj sep a b a' b' :
  contains_char sep a = false -> contains_char sep a' = false ->
  a +:+ String sep b = a' +:+ String sep b' -> a = a' /\ b = b'.
Proof.
  intros Ha Ha' E. apply (f_equal (split_once sep)) in E.
  rewrite !split_once_app in E by done. by injection E.
Qed.

Lemma all_digits_no sep s :
  byte_between 48 57 sep = false -> all_digits s = true -> contains_char sep s = false.
Proof.
  intros Hs. unfold all_digits. induction s as [|c s IH]; [done|]. cbn. intros [Hc H]%andb_true_iff.
  rewrite (IH H), orb_false_r. apply Ascii.eqb_neq. congruence.
Qed.

(** ** Trimming *)

(** A string of printable ASCII is left alone. *)
Definition graphic (s : string) : bool :=
  forallb (byte_between 33 126) (String.list_ascii_of_string s).

Lemma graphic_chars s :
  graphic s = true -> chars s = (fun c => String c "") <$> String.list_ascii_of_string s.
Proof.
  unfold graphic. induction s as [|c s IH]; [done|]. cbn. intros [Hc H]%andb_true_iff.
  rewrite (IH H). assert (continuation s = false) as ->; [|done].
  destruct s as [|d s]; [done|]. cbn [continuation forallb String.list_ascii_of_string] in *.
  apply andb_true_iff in H as [H _]. apply byte_between_true in H.
  unfold byte_between. apply andb_false_iff. left. apply Nat.leb_gt. lia.
Qed.

Lemma graphic_drop (l : list Ascii.ascii) :
  forallb (byte_between 33 126) l = true ->
  drop_spaces ((fun c => String c "") <$> l) = (fun c => String c "") <$> l.
Proof.
  destruct l as [|c l]; [done|]. cbn [forallb]. intros [Hc _]%andb_true_iff.
  rewrite fmap_cons. cbn [drop_spaces]. replace (is_whitespace (String c "")) with false; [done|].
  unfold is_whitespace, bytes_of. cbn [String.list_ascii_of_string fmap list_fmap].
  apply byte_between_true in Hc. symmetry. apply orb_false_iff. split; [apply andb_false_iff; right|].
  - apply Nat.leb_gt. lia.
  - apply Nat.eqb_neq. lia.
Qed.

Lemma trim_graphic s : graphic s = true -> trim s = s.
Proof.
  intros Hs. unfold trim. rewrite graphic_chars by done. unfold graphic in Hs.
  rewrite graphic_drop by done. rewrite <- map_rev, graphic_drop.
  - rewrite map_rev, rev_involutive. clear Hs.
    unfold concat_chars. induction s as [|c s IH]; [done|]. cbn. by rewrite IH.
  - rewrite forallb_forall in *. intros x Hx. apply Hs. by rewrite <- in_rev in Hx.
Qed.

Lemma parse_digits_all s : forall acc z, parse_digits acc s = Some z -> all_digits s = true.
Proof.
  unfold all_digits. induction s as [|c s IH]; intros acc z; [done|].
  cbn [parse_digits String.list_ascii_of_string forallb]. unfold digit_value, byte_between.
  destruct (_ && _)%nat; [|done]. apply IH.
Qed.

Lemma all_digits_pretty (z : Z) : 0 <= z -> all_digits (pretty z) = true.
Proof. intros Hz. eapply parse_digits_all, parse_digits_pretty, Hz. Qed.

Lemma all_digits_graphic s : all_digits s = true -> graphic s = true.
Proof.
  unfold all_digits, graphic. rewrite !forallb_forall. intros H x Hx. specialize (H x Hx).
  apply byte_between_true in H. apply byte_between_true. lia.
Qed.

Lemma parse_i64_pretty (z : Z) : 0 <= z <= i64_max -> parse_i64_digits (pretty z) = Some z.
Proof.
  intros Hz. unfold parse_i64_digits. rewrite parse_digits_pretty by lia.
  by replace (z <=? i64_max) with true by lia.
Qed.

Lemma pretty_not_empty (z : Z) : 0 <= z -> pretty z <> "".
Proof. intros Hz. destruct (pretty_digit_head z Hz) as (c & s & E & _). by rewrite E. Qed.

(** ** Searching *)

(** [str::find(p)] of a pattern string *)
Fixpoint find_str (p s : string) : option nat :=
  if starts_with p s then Some 0%nat
  else match s with EmptyString => None | String _ s' => S <$> find_str p s' end.

(** [&s[..n]] and [&s[n..]] *)
Fixpoint take_bytes (n : nat) (s : string) : string :=
  match n, s with S n, String c s' => String c (take_bytes n s') | _, _ => "" end.

Fixpoint drop_bytes (n : nat) (s : string) : string :=
  match n, s with S n, String _ s' => drop_bytes n s' | _, _ => s end.

(** [str::replace]; a step takes at least one byte of a pattern that is not
    empty, so the length of the string is fuel enough. *)
Fixpoint replace_upto (fuel : nat) (from to s : string) : string :=
  match fuel, find_str from s with
  | S fuel, Some i =>
      take_bytes i s +:+ to +:+ replace_upto fuel from to (drop_bytes (i + String.length from) s)
  | _, _ => s
  end.

Definition replace (s from to : string) : string := replace_upto (String.length s) from to s.

(** [char::is_control], the Unicode Cc characters *)
Definition is_control (c : string) : bool :=
  (match bytes_of c with
   | [a] => (a <=? 31) || (a =? 127)
   | [a; b] => (a =? 194) && (128 <=? b) && (b <=? 159)
   | _ => false
   end)%nat.

Lemma str_cons_app c (s t : string) : String c s +:+ t = String c (s +:+ t).
Proof. done. Qed.

Lemma str_app_assoc (a b c : string) : a +:+ (b +:+ c) = (a +:+ b) +:+ c.
Proof. induction a as [|x a IH]; [done|]. exact (f_equal (String x) IH). Qed.

Lemma str_app_length (a b : string) : String.length (a +:+ b) = (String.length a + String.length b)%nat.
Proof. induction a as [|c a IH]; [done|]. rewrite str_cons_app. cbn. by rewrite IH. Qed.

Lemma str_app_nil (a : string) : a +:+ "" = a.
Proof. induction a as [|x a IH]; [done|]. exact (f_equal (String x) IH). Qed.

Lemma take_drop_bytes n s : take_bytes n s +:+ drop_bytes n s = s.
Proof. revert s. induction n as [|n IH]; intros [|c s]; [done..|].
  exact (f_equal (String c) (IH s)).
Qed.

Lemma drop_bytes_length n s : (String.length (drop_bytes n s) = String.length s - n)%nat.
Proof. revert s. induction n as [|n IH]; intros [|c s]; cbn; done. Qed.

Lemma starts_with_app p s t : starts_with p s = true -> starts_with p (s +:+ t) = true.
Proof.
  unfold starts_with. revert s. induction p as [|c p IH]; intros [|d s]; try done.
  - by destruct t.
  - rewrite str_cons_app. cbn. destruct (Ascii.ascii_dec c d); [apply IH|done].
Qed.

Lemma starts_with_head c d p s : starts_with (String c p) (String d s) = true -> c = d.
Proof. unfold starts_with. cbn. by destruct (Ascii.ascii_dec c d). Qed.

Lemma starts_with_self p t : starts_with p (p +:+ t) = true.
Proof.
  unfold starts_with. induction p as [|c p IH]; [by destruct t|]. rewrite str_cons_app. cbn.
  by destruct (Ascii.ascii_dec c c).
Qed.

Lemma starts_with_trans p q s :
  starts_with p q = true -> starts_with q s = true -> starts_with p s = true.
Proof.
  unfold starts_with. revert q s. induction p as [|c p IH]; intros [|d q] [|e s]; cbn; try done.
  destruct (Ascii.ascii_dec c d) as [->|], (Ascii.ascii_dec d e); try done. apply IH.
Qed.

(** ** Strings a pattern does not occur in *)

Definition absent (p s : string) : Prop := find_str p s = None.

Lemma absent_cons p c s :
  absent p (String c s) <-> starts_with p (String c s) = false /\ absent p s.
Proof.
  unfold absent. cbn [find_str]. destruct (starts_with p (String c s)); [naive_solver|].
  destruct (find_str p s); naive_solver.
Qed.

Lemma absent_left p s t : absent p (s +:+ t) -> absent p s.
Proof.
  induction s as [|c s IH].
  - unfold absent. cbn. destruct p; [|done]. by destruct t.
  - rewrite str_cons_app. rewrite !absent_cons. intros [H1 H2].
    split; [|by apply IH]. apply not_true_iff_false. intros H.
    apply (starts_with_app _ _ t) in H. rewrite str_cons_app in H.
    congruence.
Qed.

Lemma absent_right p s t : absent p (s +:+ t) -> absent p t.
Proof.
  induction s as [|c s IH]; [done|]. rewrite str_cons_app.
  rewrite absent_cons. tauto.
Qed.

(** A character outside the pattern separates the occurrences. *)
Lemma starts_with_across p u c v :
  contains_char c p = false -> starts_with p (u +:+ String c v) = starts_with p u.
Proof.
  unfold starts_with. revert u. induction p as [|x p IH]; intros [|y u]; rewrite ?str_cons_app; cbn; try done.
  - intros [H1 H2]%orb_false_iff. apply Ascii.eqb_neq in H1.
    change ("" +:+ String c v) with (String c v). cbn.
    destruct (Ascii.ascii_dec x c); congruence.
  - intros [H1 H2]%orb_false_iff. destruct (Ascii.ascii_dec x y); [by apply IH|done].
Qed.

Lemma absent_across p u c v :
  contains_char c p = false -> absent p u -> absent p v -> absent p (u +:+ String c v).
Proof.
  intros Hc Hu Hv. induction u as [|d u IH].
  - apply absent_cons. split; [|done]. pose proof (starts_with_across p "" c v Hc) as E.
    change ("" +:+ String c v) with (String c v) in E. rewrite E. unfold absent in Hu. cbn [find_str] in Hu. by destruct (starts_with p "").
  - change (String d u +:+ String c v) with (String d (u +:+ String c v)).
    apply absent_cons in Hu as [H1 H2]. apply absent_cons. split; [|by apply IH].
    change (String d (u +:+ String c v)) with (String d u +:+ String c v).
    by rewrite starts_with_across.
Qed.

Lemma absent_longer p q s : starts_with p q = true -> absent p s -> absent q s.
Proof.
  intros Hp. induction s as [|c s IH].
  - unfold absent. cbn. destruct p, q; done.
  - rewrite !absent_cons. intros [H1 H2]. split; [|by apply IH].
    apply not_true_iff_false. intros H. apply (starts_with_trans p) in H; congruence.
Qed.

(** Before the first occurrence there is none. *)
Lemma absent_before p s n :
  p <> "" -> (forall i, find_str p s = Some i -> (n <= i)%nat) -> absent p (take_bytes n s).
Proof.
  intros Hp. revert s. induction n as [|n IH]; intros s Hn.
  - unfold absent. destruct s; by destruct p.
  - destruct s as [|c s]; [unfold absent; by destruct p|]. cbn [take_bytes].
    cbn [find_str] in Hn. destruct (starts_with p (String c s)) eqn:E.
    { specialize (Hn 0%nat eq_refl). lia. }
    apply absent_cons. split.
    + apply not_true_iff_false. intros H. apply (starts_with_app _ _ (drop_bytes n s)) in H.
      change (String c (take_bytes n s) +:+ drop_bytes n s)
        with (String c (take_bytes n s +:+ drop_bytes n s)) in H.
      rewrite take_drop_bytes in H. congruence.
    + apply IH. intros i Hi. rewrite Hi in Hn. specialize (Hn (S i) eq_refl). lia.
Qed.

Lemma absent_first c p s : contains_char c s = false -> absent (String c p) s.
Proof.
  induction s as [|d s IH]; [done|]. cbn [contains_char]. intros [H1 H2]%orb_false_iff.
  apply absent_cons. split; [|by apply IH]. unfold starts_with. cbn.
  apply Ascii.eqb_neq in H1. by destruct (Ascii.ascii_dec c d).
Qed.

Lemma concat_chars_cons c cs : concat_chars (c :: cs) = c +:+ concat_chars cs.
Proof. done. Qed.

Lemma concat_chars_app a b : concat_chars (a ++ b) = concat_chars a +:+ concat_chars b.
Proof.
  induction a as [|x a IH]; [done|]. rewrite <- app_comm_cons, !concat_chars_cons, IH.
  apply str_app_assoc.
Qed.

Lemma concat_chars_chars s : concat_chars (chars s) = s.
Proof.
  induction s as [|c s IH]; [done|]. cbn [chars]. destruct (continuation s).
  - destruct (chars s) as [|d rest]; rewrite concat_chars_cons in *; [by rewrite <- IH|].
    rewrite str_cons_app. by rewrite IH.
  - rewrite concat_chars_cons, IH. done.
Qed.

(** ** Hex *)

Definition hex_digit (n : nat) : Ascii.ascii :=
  default (Ascii.ascii_of_nat 48) (String.get n "0123456789abcdef").

(** [DIGITS[(byte >> 4)]] and [DIGITS[(byte & 0x0f)]] *)
Definition hex_high (b : Ascii.ascii) : Ascii.ascii := hex_digit (Ascii.nat_of_ascii b / 16).
Definition hex_low (b : Ascii.ascii) : Ascii.ascii := hex_digit (Ascii.nat_of_ascii b mod 16).

Fixpoint to_lower_hex (bytes : string) : string :=
  match bytes with
  | EmptyString => EmptyString
  | String b rest => String (hex_high b) (String (hex_low b) (to_lower_hex rest))
  end.

Lemma hex_digit_inj m n : (m < 16)%nat -> (n < 16)%nat -> hex_digit m = hex_digit n -> m = n.
Proof.
  intros Hm Hn E.
  assert (forall k, (k < 16)%nat -> String.index 0 (String (hex_digit k) "") "0123456789abcdef" = Some k)
    as Hi.
  { intros k Hk. do 16 (destruct k as [|k]; [reflexivity|]). lia. }
  pose proof (Hi m Hm). rewrite E, (Hi n Hn) in H. congruence.
Qed.

Lemma to_lower_hex_inj a : forall b, to_lower_hex a = to_lower_hex b -> a = b.
Proof.
  induction a as [|x a IH]; intros [|y b]; cbn [to_lower_hex]; try done. intros [= E1 E2 E3].
  rewrite (IH _ E3). f_equal. unfold hex_high, hex_low in *.
  pose proof (Ascii.nat_ascii_bounded x). pose proof (Ascii.nat_ascii_bounded y).
  apply hex_digit_inj in E1; [|by apply Nat.Div0.div_lt_upper_bound..].
  apply hex_digit_inj in E2; [|by apply Nat.mod_upper_bound..].
  rewrite <- (Ascii.ascii_nat_embedding x), <- (Ascii.ascii_nat_embedding y). f_equal.
  rewrite (Nat.div_mod_eq (Ascii.nat_of_ascii x) 16), (Nat.div_mod_eq (Ascii.nat_of_ascii y) 16).
  by rewrite E1, E2.
Qed.

(** ** Splitting and joining *)

Lemma split_on_join sep s :
  s = foldl (fun acc part => acc +:+ String sep part) (split_on sep s).1 (split_on sep s).2.
Proof.
  assert (forall parts a b, foldl (fun acc part => acc +:+ String sep part) (a +:+ b) parts
                            = a +:+ foldl (fun acc part => acc +:+ String sep part) b parts) as Hf.
  { induction parts as [|p parts IH]; intros a b; [done|]. cbn. by rewrite <- str_app_assoc, IH. }
  induction s as [|c s IH]; [done|]. cbn [split_on]. destruct (split_on sep s) as [part parts].
  destruct (Ascii.eqb c sep) eqn:E; cbn [fst snd] in *.
  - apply Ascii.eqb_eq in E as ->. cbn [foldl].
    change ("" +:+ String sep part) with (String sep "" +:+ part). rewrite Hf, <- IH. done.
  - change (String c part) with (String c "" +:+ part). rewrite Hf, <- IH. done.
Qed.

Lemma split_on_parts sep s :
  contains_char sep (split_on sep s).1 = false
  /\ Forall (fun part => contains_char sep part = false) (split_on sep s).2.
Proof.
  induction s as [|c s [IH1 IH2]]; [done|]. cbn [split_on]. destruct (split_on sep s) as [p ps].
  destruct (Ascii.eqb c sep) eqn:E; cbn [fst snd] in *; [by split; [|constructor]|].
  split; [|done]. cbn. rewrite Ascii.eqb_sym in E. by rewrite E.
Qed.

(** ** Canonical decimals *)

Lemma digit_value_char c d : digit_value c = Some d -> 0 <= d < 10 /\ c = pretty_N_char (Z.to_N d).
Proof.
  unfold digit_value. destruct ((48 <=? Ascii.nat_of_ascii c) && (Ascii.nat_of_ascii c <=? 57))%nat eqn:E;
    [|done].
  intros [= <-]. apply andb_true_iff in E as [E1 E2]. apply Nat.leb_le in E1, E2. split; [lia|].
  rewrite <- (Ascii.ascii_nat_embedding c). remember (Ascii.nat_of_ascii c) as n.
  assert (n ∈ seq 48 10) as Hin by (apply elem_of_seq; lia). clear Heqn E1 E2. revert n Hin.
  apply Forall_forall. by repeat constructor.
Qed.

(** The digits of a number that does not start with a zero are printed back. *)
Lemma pretty_of_digits d : forall (acc : Z) z s,
  0 < acc -> parse_digits acc d = Some z ->
  pretty_N_go (Z.to_N z) s = pretty_N_go (Z.to_N acc) (d +:+ s).
Proof.
  induction d as [|c d IH]; intros acc z s Hacc; cbn [parse_digits].
  - by intros [= <-].
  - destruct (digit_value c) as [v|] eqn:Ev; [|done]. intros Hz.
    apply digit_value_char in Ev as [Hv ->]. rewrite (IH (10 * acc + v) z s); [|lia|done].
    rewrite (pretty_N_go_step (Z.to_N (10 * acc + v))) by lia.
    replace (Z.to_N (10 * acc + v) / 10)%N with (Z.to_N acc);
      [replace (Z.to_N (10 * acc + v) mod 10)%N with (Z.to_N v); [done|]|].
    + apply (N.mod_unique _ 10 (Z.to_N acc)); lia.
    + apply (N.div_unique _ 10 _ (Z.to_N v)); lia.
Qed.

Lemma pretty_parsed c d z :
  digit_value c <> Some 0 -> parse_digits 0 (String c d) = Some z -> pretty z = String c d.
Proof.
  cbn [parse_digits]. destruct (digit_value c) as [v|] eqn:Ev; [|done]. intros H0 Hz.
  apply digit_value_char in Ev as [Hv ->].
  assert (0 < v) by (assert (v <> 0) by congruence; lia).
  assert (forall d acc z, 0 <= acc -> parse_digits acc d = Some z -> acc <= z) as Hmono.
  { clear. intros d. induction d as [|c d IH]; intros acc z Ha; cbn [parse_digits];
      [intros [= <-]; lia|].
    destruct (digit_value c) as [v|] eqn:E; [|done]. apply digit_value_char in E as [? _].
    intros Hle%IH; lia. }
  pose proof (Hmono d (10 * 0 + v) z ltac:(lia) Hz).
  apply (pretty_of_digits _ _ _ "") in Hz; [|lia]. rewrite str_app_nil in Hz.
  destruct z as [|p|p]; [lia| |lia]. change (pretty (Z.pos p)) with (pretty_N_go (Z.to_N (Z.pos p)) "").
  rewrite Hz, pretty_N_go_step by lia. replace (Z.to_N (10 * 0 + v) / 10)%N with 0%N;
    [|symmetry; apply N.div_small; lia].
  rewrite pretty_N_go_0. rewrite N.mod_small by lia. done.
Qed.

Lemma pretty_N_go_head x : (0 < x)%N -> forall s, exists n t,
  (0 < n < 10)%N /\ pretty_N_go x s = String (pretty_N_char n) t.
Proof.
  induction (N.lt_wf_0 x) as [x _ IH]. intros Hx s. rewrite pretty_N_go_step by lia.
  pose proof (N.div_mod x 10 ltac:(lia)) as Hd. pose proof (N.mod_lt x 10 ltac:(lia)) as Hm.
  destruct (decide (x / 10 = 0)%N) as [E|E].
  - rewrite E, pretty_N_go_0. exists (x mod 10)%N. eexists. split; [lia|done].
  - apply IH; [apply N.div_lt; lia|lia].
Qed.

(** A number that is not zero does not start with the digit zero. *)
Lemma pretty_head (z : Z) : 0 < z -> exists n t, (0 < n < 10)%N /\ pretty z = String (pretty_N_char n) t.
Proof.
  intros Hz. destruct z as [|p|p]; [lia| |lia].
  change (pretty (Z.pos p)) with (pretty_N_go (N.pos p) ""). by apply pretty_N_go_head.
Qed.

(** Fewer than [10^n]: at most [n] digits *)
Lemma pretty_N_go_length n : forall x s, (x < 10 ^ N.of_nat n)%N ->
  (String.length (pretty_N_go x s) <= n + String.length s)%nat.
Proof.
  induction n as [|n IH]; intros x s Hx.
  - change (10 ^ N.of_nat 0)%N with 1%N in Hx. assert (x = 0%N) as -> by lia. by rewrite pretty_N_go_0.
  - destruct (decide (x = 0%N)) as [->|E]; [rewrite pretty_N_go_0; lia|].
    rewrite pretty_N_go_step by lia. etrans; [apply IH|cbn; lia].
    apply N.Div0.div_lt_upper_bound. rewrite Nat2N.inj_succ, N.pow_succ_r' in Hx. done.
Qed.

Lemma pretty_length (n : nat) (z : Z) :
  0 <= z -> z < 10 ^ Z.of_nat n -> (1 <= n)%nat -> (String.length (pretty z) <= n)%nat.
Proof.
  intros Hz Hn H1. destruct z as [|p|p]; [cbn; lia| |lia].
  change (pretty (Z.pos p)) with (pretty_N_go (N.pos p) "").
  etrans; [apply (pretty_N_go_length n)|cbn; lia].
  change (N.pos p) with (Z.to_N (Z.pos p)). apply N2Z.inj_lt.
  rewrite Z2N.id, N2Z.inj_pow, nat_N_Z by lia. done.
Qed.
