(* ===== verification/Errors.v ===== *)
(** * Error type and its HTTP rendering (crates/core/result)

    [ErrorType] is the enum every fallible operation of the backend returns;
    the two responders (axum for the micro-services, rocket for the REST API)
    turn an error into a response.  The error's source location and the JSON
    text serde produces are left abstract: the body is either the serialized
    error or the fixed text of a blacklisted login. *)

From stdpp Require Import base list strings.
From S2P Require Import Prelude.
Open Scope Z_scope.

Module ErrorType.

Inductive t : Type :=
| LabelMe
| AlreadyOnboarded
| UsernameTaken
| InvalidUsername
| DisallowedName
| DiscriminatorChangeRatelimited
| UnknownUser
| AlreadyFriends
| AlreadySentRequest
| Blocked
| BlockedByOther
| NotFriends
| DirectMessagesPaused
| ProfileIsPrivate
| TooManyPendingFriendRequests (max_ : Z)
| UnknownChannel
| UnknownAttachment
| UnknownMessage
| CannotDeleteMessage
| CannotEditMessage
| CannotJoinCall
| TooManyAttachments (max_ : Z)
| TooManyEmbeds (max_ : Z)
| TooManyReplies (max_ : Z)
| TooManyChannels (max_ : Z)
| EmptyMessage
| PayloadTooLarge
| CannotRemoveYourself
| GroupTooLarge (max_ : Z)
| AlreadyInGroup
| NotInGroup
| ThreadAlreadyExists
| AlreadyPinned
| NotPinned
| InSlowmode (retry_after : Z)
| CantCreateServers
| UnknownServer
| InvalidRole
| Banned
| TooManyServers (max_ : Z)
| ImportAlreadyInProgress
| ImportSourceNotFound
| ImportVerificationMissing
| ImportBotNotInServer
| ImportUpstreamUnavailable
| ImportSourceUnavailable
| TooManyEmoji (max_ : Z)
| TooManyStickers (max_ : Z)
| TooManySounds (max_ : Z)
| TooManyRoles (max_ : Z)
| AlreadyInServer
| CannotTimeoutYourself
| NotEnoughBoosts (available : Z)
| TooManyBoosts (max_ : Z)
| PerkRequired
| InvalidReferralCode
| InvalidClaim
| ReachedMaximumBots
| IsBot
| IsNotBot
| BotIsPrivate
| TooManyCommands (max_ : Z)
| BotOffline
| InteractionExpired
| InteractionAlreadyResponded
| PollClosed
| UnknownRaid
| UnknownEdition
| SoftResMixedEditions
| TooManySoftResRaids (max_ : Z)
| SoftResLocked
| SoftResInvalidItems
| SoftResClassRestricted
| SoftResItemCapReached
| SoftResRecurringEvent
| SoftResEventAlreadyLinked
| TooManyScheduledMessages (max_ : Z)
| NotAnAnnouncementChannel
| AlreadyCrossposted
| TooManyFollowers (max_ : Z)
| TooManyCrossposts (max_ : Z)
| CannotReportYourself
| MissingPermission (permission : string)
| MissingUserPermission (permission : string)
| NotElevated
| NotPrivileged
| CannotGiveMissingPermissions
| NotOwner
| IsElevated
| DatabaseError (operation : string) (collection : string)
| InternalError
| InvalidOperation
| InvalidCredentials
| InvalidProperty
| InvalidSession
| InvalidFlagValue
| NotAuthenticated
| DuplicateNonce
| NotFound
| NoEffect
| FailedValidation (error : string)
| OperationFailed
| IncorrectData (with_ : string)
| LiveKitUnavailable
| NotAVoiceChannel
| NotInVoiceChannel
| AlreadyConnected
| NotConnected
| UnknownNode
| RemoteControlOfferPending
| RemoteControlGrantActive
| WatchSessionExists
| NotWatchHost
| ProxyError
| FileTooSmall
| FileTooLarge (max_ : Z)
| FileTypeNotAllowed
| UploadSessionConflict
| UploadIncomplete
| TooManyUploadSessions (max_ : Z)
| ImageProcessingFailed
| NoEmbedData
| VosoUnavailable
| FeatureDisabled (feature : string)
| RenderFail
| MissingHeaders
| CaptchaFailed
| BlockedByShield
| UnverifiedAccount
| EmailFailed
| InvalidToken
| MissingInvite
| InvalidInvite
| CompromisedPassword
| ShortPassword
| Blacklisted
| LockedOut
| TotpAlreadyEnabled
| DisallowedMFAMethod
| MlsCallFull (max_ : Z)
| VideoCallFull (max_ : Z)
| PaymentsDisabled
| CipherSalesClosed
| CipherSoldOut
| CipherRegionUnavailable
| CipherTierInvalid
| PaymentPending
| PaymentProviderError
| ProtectedChannelResecuring (reason : string)
| NotSeated
| SeatCapReached (max_ : Z)
| DeviceCapReached (max_ : Z)
| ChannelProtected
| ProtectedFieldRefused (field : string)
| SeatListNamesRemovedUsers (users : list string)
| InsufficientProt (needed : Z) (available : Z)
| ProtDisabled
| ProtSalesClosed
| ProtPackInvalid
| ProtWalletCap (max_ : Z)
| ProtHeldPurchase
| ProtTankFrozen
| ProtGoalClosed
| ProtNotEligible
| ProtTierBelowSeats
| ProtIdempotencyConflict
| ProtReplicaSetRequired
| ProtRegionUnavailable.

End ErrorType.

(** [revolt_result::Result]: the location string carries no behaviour. *)
Abbreviation Result A := (result ErrorType.t A).

(** [create_database_error!] *)
Definition create_database_error (operation collection : string) : ErrorType.t :=
  ErrorType.DatabaseError operation collection.

(** [ToRevoltError for Option]: an absent value is an internal error. *)
Definition to_internal_error {A} (o : option A) : Result A :=
  ok_or o ErrorType.InternalError.

(** ** Status codes *)

Module StatusCode.
Definition BAD_REQUEST : Z := 400.
Definition UNAUTHORIZED : Z := 401.
Definition FORBIDDEN : Z := 403.
Definition NOT_FOUND : Z := 404.
Definition CONFLICT : Z := 409.
Definition GONE : Z := 410.
Definition UNPROCESSABLE_ENTITY : Z := 422.
Definition TOO_MANY_REQUESTS : Z := 429.
Definition INTERNAL_SERVER_ERROR : Z := 500.
Definition BAD_GATEWAY : Z := 502.
Definition SERVICE_UNAVAILABLE : Z := 503.
End StatusCode.

Module Status.
Definition BadRequest : Z := 400.
Definition Unauthorized : Z := 401.
Definition Forbidden : Z := 403.
Definition NotFound : Z := 404.
Definition Conflict : Z := 409.
Definition Gone : Z := 410.
Definition UnprocessableEntity : Z := 422.
Definition TooManyRequests : Z := 429.
Definition InternalServerError : Z := 500.
Definition BadGateway : Z := 502.
Definition ServiceUnavailable : Z := 503.
End Status.

(** What a responder sends: the status, the body, the content type, and
    whether the error is logged first. *)
Inductive Body : Type :=
| SerializedError (e : ErrorType.t)
| DisallowedContactSupport.

Record Response : Type := mkResponse {
  r_status : Z;
  r_body : Body;
  r_content_type : option string;
  r_logged : bool;
}.

Definition respond (status : Z) (e : ErrorType.t) : Response := {|
  r_status := status;
  r_body := SerializedError e;
  r_content_type := Some "application/json"%string;
  r_logged := 500 <=? status;
|}.

Definition blacklisted_response (content_type : option string) : Response := {|
  r_status := 401;
  r_body := DisallowedContactSupport;
  r_content_type := content_type;
  r_logged := false;
|}.

(** The status match of [IntoResponse]; [None] is the arm that returns early. *)
Definition axum_status (e : ErrorType.t) : option Z :=
  match e with
  | ErrorType.LabelMe => Some StatusCode.INTERNAL_SERVER_ERROR
  | ErrorType.AlreadyOnboarded => Some StatusCode.FORBIDDEN
  | ErrorType.UnknownUser => Some StatusCode.NOT_FOUND
  | ErrorType.InvalidUsername => Some StatusCode.BAD_REQUEST
  | ErrorType.DisallowedName => Some StatusCode.BAD_REQUEST
  | ErrorType.UsernameTaken => Some StatusCode.CONFLICT
  | ErrorType.DiscriminatorChangeRatelimited => Some StatusCode.TOO_MANY_REQUESTS
  | ErrorType.AlreadyFriends => Some StatusCode.CONFLICT
  | ErrorType.AlreadySentRequest => Some StatusCode.CONFLICT
  | ErrorType.Blocked => Some StatusCode.CONFLICT
  | ErrorType.BlockedByOther => Some StatusCode.FORBIDDEN
  | ErrorType.NotFriends => Some StatusCode.FORBIDDEN
  | ErrorType.DirectMessagesPaused => Some StatusCode.FORBIDDEN
  | ErrorType.ProfileIsPrivate => Some StatusCode.FORBIDDEN
  | ErrorType.TooManyPendingFriendRequests _ => Some StatusCode.BAD_REQUEST
  | ErrorType.UnknownChannel => Some StatusCode.NOT_FOUND
  | ErrorType.UnknownMessage => Some StatusCode.NOT_FOUND
  | ErrorType.UnknownAttachment => Some StatusCode.BAD_REQUEST
  | ErrorType.CannotDeleteMessage => Some StatusCode.FORBIDDEN
  | ErrorType.CannotEditMessage => Some StatusCode.FORBIDDEN
  | ErrorType.CannotJoinCall => Some StatusCode.BAD_REQUEST
  | ErrorType.TooManyAttachments _ => Some StatusCode.BAD_REQUEST
  | ErrorType.TooManyReplies _ => Some StatusCode.BAD_REQUEST
  | ErrorType.EmptyMessage => Some StatusCode.UNPROCESSABLE_ENTITY
  | ErrorType.PayloadTooLarge => Some StatusCode.UNPROCESSABLE_ENTITY
  | ErrorType.CannotRemoveYourself => Some StatusCode.BAD_REQUEST
  | ErrorType.GroupTooLarge _ => Some StatusCode.FORBIDDEN
  | ErrorType.AlreadyInGroup => Some StatusCode.CONFLICT
  | ErrorType.NotInGroup => Some StatusCode.NOT_FOUND
  | ErrorType.ThreadAlreadyExists => Some StatusCode.CONFLICT
  | ErrorType.AlreadyPinned => Some StatusCode.BAD_REQUEST
  | ErrorType.NotPinned => Some StatusCode.BAD_REQUEST
  | ErrorType.InSlowmode _ => Some StatusCode.TOO_MANY_REQUESTS
  | ErrorType.CantCreateServers => Some StatusCode.FORBIDDEN
  | ErrorType.UnknownServer => Some StatusCode.NOT_FOUND
  | ErrorType.InvalidRole => Some StatusCode.NOT_FOUND
  | ErrorType.Banned => Some StatusCode.FORBIDDEN
  | ErrorType.AlreadyInServer => Some StatusCode.CONFLICT
  | ErrorType.CannotTimeoutYourself => Some StatusCode.BAD_REQUEST
  | ErrorType.ImportAlreadyInProgress => Some StatusCode.CONFLICT
  | ErrorType.ImportSourceNotFound => Some StatusCode.NOT_FOUND
  | ErrorType.ImportVerificationMissing => Some StatusCode.FORBIDDEN
  | ErrorType.ImportBotNotInServer => Some StatusCode.NOT_FOUND
  | ErrorType.ImportUpstreamUnavailable => Some StatusCode.SERVICE_UNAVAILABLE
  | ErrorType.ImportSourceUnavailable => Some StatusCode.BAD_REQUEST
  | ErrorType.TooManyServers _ => Some StatusCode.BAD_REQUEST
  | ErrorType.TooManyEmbeds _ => Some StatusCode.BAD_REQUEST
  | ErrorType.TooManyEmoji _ => Some StatusCode.BAD_REQUEST
  | ErrorType.TooManyStickers _ => Some StatusCode.BAD_REQUEST
  | ErrorType.TooManySounds _ => Some StatusCode.BAD_REQUEST
  | ErrorType.TooManyChannels _ => Some StatusCode.BAD_REQUEST
  | ErrorType.TooManyRoles _ => Some StatusCode.BAD_REQUEST
  | ErrorType.NotEnoughBoosts _ => Some StatusCode.BAD_REQUEST
  | ErrorType.TooManyBoosts _ => Some StatusCode.BAD_REQUEST
  | ErrorType.PerkRequired => Some StatusCode.FORBIDDEN
  | ErrorType.InvalidReferralCode => Some StatusCode.BAD_REQUEST
  | ErrorType.InvalidClaim => Some StatusCode.CONFLICT
  | ErrorType.ReachedMaximumBots => Some StatusCode.BAD_REQUEST
  | ErrorType.IsBot => Some StatusCode.BAD_REQUEST
  | ErrorType.IsNotBot => Some StatusCode.BAD_REQUEST
  | ErrorType.BotIsPrivate => Some StatusCode.FORBIDDEN
  | ErrorType.TooManyCommands _ => Some StatusCode.BAD_REQUEST
  | ErrorType.BotOffline => Some StatusCode.BAD_REQUEST
  | ErrorType.InteractionExpired => Some StatusCode.GONE
  | ErrorType.InteractionAlreadyResponded => Some StatusCode.CONFLICT
  | ErrorType.PollClosed => Some StatusCode.GONE
  | ErrorType.UnknownRaid => Some StatusCode.BAD_REQUEST
  | ErrorType.UnknownEdition => Some StatusCode.BAD_REQUEST
  | ErrorType.SoftResMixedEditions => Some StatusCode.BAD_REQUEST
  | ErrorType.TooManySoftResRaids _ => Some StatusCode.BAD_REQUEST
  | ErrorType.SoftResLocked => Some StatusCode.GONE
  | ErrorType.SoftResInvalidItems => Some StatusCode.BAD_REQUEST
  | ErrorType.SoftResClassRestricted => Some StatusCode.BAD_REQUEST
  | ErrorType.SoftResItemCapReached => Some StatusCode.CONFLICT
  | ErrorType.SoftResRecurringEvent => Some StatusCode.BAD_REQUEST
  | ErrorType.SoftResEventAlreadyLinked => Some StatusCode.CONFLICT
  | ErrorType.TooManyScheduledMessages _ => Some StatusCode.BAD_REQUEST
  | ErrorType.NotAnAnnouncementChannel => Some StatusCode.BAD_REQUEST
  | ErrorType.AlreadyCrossposted => Some StatusCode.BAD_REQUEST
  | ErrorType.TooManyFollowers _ => Some StatusCode.BAD_REQUEST
  | ErrorType.TooManyCrossposts _ => Some StatusCode.TOO_MANY_REQUESTS
  | ErrorType.CannotReportYourself => Some StatusCode.BAD_REQUEST
  | ErrorType.MissingPermission _ => Some StatusCode.FORBIDDEN
  | ErrorType.MissingUserPermission _ => Some StatusCode.FORBIDDEN
  | ErrorType.NotElevated => Some StatusCode.FORBIDDEN
  | ErrorType.NotPrivileged => Some StatusCode.FORBIDDEN
  | ErrorType.CannotGiveMissingPermissions => Some StatusCode.FORBIDDEN
  | ErrorType.NotOwner => Some StatusCode.FORBIDDEN
  | ErrorType.IsElevated => Some StatusCode.FORBIDDEN
  | ErrorType.DatabaseError _ _ => Some StatusCode.INTERNAL_SERVER_ERROR
  | ErrorType.InternalError => Some StatusCode.INTERNAL_SERVER_ERROR
  | ErrorType.InvalidOperation => Some StatusCode.BAD_REQUEST
  | ErrorType.InvalidCredentials => Some StatusCode.UNAUTHORIZED
  | ErrorType.InvalidProperty => Some StatusCode.BAD_REQUEST
  | ErrorType.InvalidSession => Some StatusCode.UNAUTHORIZED
  | ErrorType.NotAuthenticated => Some StatusCode.UNAUTHORIZED
  | ErrorType.DuplicateNonce => Some StatusCode.CONFLICT
  | ErrorType.VosoUnavailable => Some StatusCode.BAD_REQUEST
  | ErrorType.NotFound => Some StatusCode.NOT_FOUND
  | ErrorType.NoEffect => Some StatusCode.BAD_REQUEST
  | ErrorType.FailedValidation _ => Some StatusCode.BAD_REQUEST
  | ErrorType.LiveKitUnavailable => Some StatusCode.BAD_REQUEST
  | ErrorType.NotConnected => Some StatusCode.BAD_REQUEST
  | ErrorType.NotAVoiceChannel => Some StatusCode.BAD_REQUEST
  | ErrorType.NotInVoiceChannel => Some StatusCode.BAD_REQUEST
  | ErrorType.AlreadyConnected => Some StatusCode.BAD_REQUEST
  | ErrorType.UnknownNode => Some StatusCode.BAD_REQUEST
  | ErrorType.RemoteControlOfferPending => Some StatusCode.CONFLICT
  | ErrorType.RemoteControlGrantActive => Some StatusCode.CONFLICT
  | ErrorType.WatchSessionExists => Some StatusCode.CONFLICT
  | ErrorType.NotWatchHost => Some StatusCode.FORBIDDEN
  | ErrorType.InvalidFlagValue => Some StatusCode.BAD_REQUEST
  | ErrorType.FeatureDisabled _ => Some StatusCode.BAD_REQUEST
  | ErrorType.ProxyError => Some StatusCode.BAD_REQUEST
  | ErrorType.FileTooSmall => Some StatusCode.UNPROCESSABLE_ENTITY
  | ErrorType.FileTooLarge _ => Some StatusCode.UNPROCESSABLE_ENTITY
  | ErrorType.FileTypeNotAllowed => Some StatusCode.BAD_REQUEST
  | ErrorType.UploadSessionConflict => Some StatusCode.CONFLICT
  | ErrorType.UploadIncomplete => Some StatusCode.BAD_REQUEST
  | ErrorType.TooManyUploadSessions _ => Some StatusCode.TOO_MANY_REQUESTS
  | ErrorType.ImageProcessingFailed => Some StatusCode.INTERNAL_SERVER_ERROR
  | ErrorType.NoEmbedData => Some StatusCode.BAD_REQUEST
  | ErrorType.RenderFail => Some StatusCode.INTERNAL_SERVER_ERROR
  | ErrorType.MissingHeaders => Some StatusCode.BAD_REQUEST
  | ErrorType.CaptchaFailed => Some StatusCode.BAD_REQUEST
  | ErrorType.BlockedByShield => Some StatusCode.BAD_REQUEST
  | ErrorType.UnverifiedAccount => Some StatusCode.FORBIDDEN
  | ErrorType.EmailFailed => Some StatusCode.INTERNAL_SERVER_ERROR
  | ErrorType.InvalidToken => Some StatusCode.UNAUTHORIZED
  | ErrorType.MissingInvite => Some StatusCode.BAD_REQUEST
  | ErrorType.InvalidInvite => Some StatusCode.BAD_REQUEST
  | ErrorType.CompromisedPassword => Some StatusCode.BAD_REQUEST
  | ErrorType.ShortPassword => Some StatusCode.BAD_REQUEST
  | ErrorType.LockedOut => Some StatusCode.FORBIDDEN
  | ErrorType.TotpAlreadyEnabled => Some StatusCode.BAD_REQUEST
  | ErrorType.DisallowedMFAMethod => Some StatusCode.BAD_REQUEST
  | ErrorType.OperationFailed => Some StatusCode.INTERNAL_SERVER_ERROR
  | ErrorType.IncorrectData _ => Some StatusCode.BAD_REQUEST
  | ErrorType.MlsCallFull _ => Some StatusCode.CONFLICT
  | ErrorType.VideoCallFull _ => Some StatusCode.CONFLICT
  | ErrorType.PaymentsDisabled => Some StatusCode.BAD_REQUEST
  | ErrorType.CipherSalesClosed => Some StatusCode.FORBIDDEN
  | ErrorType.CipherSoldOut => Some StatusCode.CONFLICT
  | ErrorType.CipherRegionUnavailable => Some StatusCode.BAD_REQUEST
  | ErrorType.CipherTierInvalid => Some StatusCode.BAD_REQUEST
  | ErrorType.PaymentPending => Some StatusCode.CONFLICT
  | ErrorType.PaymentProviderError => Some StatusCode.BAD_GATEWAY
  | ErrorType.ProtectedChannelResecuring _ => Some StatusCode.CONFLICT
  | ErrorType.NotSeated => Some StatusCode.FORBIDDEN
  | ErrorType.SeatCapReached _ => Some StatusCode.BAD_REQUEST
  | ErrorType.DeviceCapReached _ => Some StatusCode.BAD_REQUEST
  | ErrorType.ChannelProtected => Some StatusCode.BAD_REQUEST
  | ErrorType.ProtectedFieldRefused _ => Some StatusCode.BAD_REQUEST
  | ErrorType.SeatListNamesRemovedUsers _ => Some StatusCode.BAD_REQUEST
  | ErrorType.InsufficientProt _ _ => Some StatusCode.CONFLICT
  | ErrorType.ProtDisabled => Some StatusCode.BAD_REQUEST
  | ErrorType.ProtSalesClosed => Some StatusCode.FORBIDDEN
  | ErrorType.ProtPackInvalid => Some StatusCode.BAD_REQUEST
  | ErrorType.ProtWalletCap _ => Some StatusCode.CONFLICT
  | ErrorType.ProtHeldPurchase => Some StatusCode.FORBIDDEN
  | ErrorType.ProtTankFrozen => Some StatusCode.FORBIDDEN
  | ErrorType.ProtGoalClosed => Some StatusCode.CONFLICT
  | ErrorType.ProtNotEligible => Some StatusCode.FORBIDDEN
  | ErrorType.ProtTierBelowSeats => Some StatusCode.CONFLICT
  | ErrorType.ProtIdempotencyConflict => Some StatusCode.CONFLICT
  | ErrorType.ProtReplicaSetRequired => Some StatusCode.SERVICE_UNAVAILABLE
  | ErrorType.ProtRegionUnavailable => Some StatusCode.BAD_REQUEST
  | ErrorType.Blacklisted => None
  end.

(** The status match of [Responder]; [None] is the arm that returns early. *)
Definition rocket_status (e : ErrorType.t) : option Z :=
  match e with
  | ErrorType.LabelMe => Some Status.InternalServerError
  | ErrorType.AlreadyOnboarded => Some Status.Forbidden
  | ErrorType.UnknownUser => Some Status.NotFound
  | ErrorType.InvalidUsername => Some Status.BadRequest
  | ErrorType.DisallowedName => Some Status.BadRequest
  | ErrorType.UsernameTaken => Some Status.Conflict
  | ErrorType.DiscriminatorChangeRatelimited => Some Status.TooManyRequests
  | ErrorType.AlreadyFriends => Some Status.Conflict
  | ErrorType.AlreadySentRequest => Some Status.Conflict
  | ErrorType.Blocked => Some Status.Conflict
  | ErrorType.BlockedByOther => Some Status.Forbidden
  | ErrorType.NotFriends => Some Status.Forbidden
  | ErrorType.DirectMessagesPaused => Some Status.Forbidden
  | ErrorType.ProfileIsPrivate => Some Status.Forbidden
  | ErrorType.TooManyPendingFriendRequests _ => Some Status.BadRequest
  | ErrorType.UnknownChannel => Some Status.NotFound
  | ErrorType.UnknownMessage => Some Status.NotFound
  | ErrorType.UnknownAttachment => Some Status.BadRequest
  | ErrorType.CannotDeleteMessage => Some Status.Forbidden
  | ErrorType.CannotEditMessage => Some Status.Forbidden
  | ErrorType.CannotJoinCall => Some Status.BadRequest
  | ErrorType.TooManyAttachments _ => Some Status.BadRequest
  | ErrorType.TooManyReplies _ => Some Status.BadRequest
  | ErrorType.EmptyMessage => Some Status.UnprocessableEntity
  | ErrorType.PayloadTooLarge => Some Status.UnprocessableEntity
  | ErrorType.CannotRemoveYourself => Some Status.BadRequest
  | ErrorType.GroupTooLarge _ => Some Status.Forbidden
  | ErrorType.AlreadyInGroup => Some Status.Conflict
  | ErrorType.NotInGroup => Some Status.NotFound
  | ErrorType.ThreadAlreadyExists => Some Status.Conflict
  | ErrorType.AlreadyPinned => Some Status.BadRequest
  | ErrorType.NotPinned => Some Status.BadRequest
  | ErrorType.InSlowmode _ => Some Status.TooManyRequests
  | ErrorType.InvalidFlagValue => Some Status.BadRequest
  | ErrorType.CantCreateServers => Some Status.Forbidden
  | ErrorType.UnknownServer => Some Status.NotFound
  | ErrorType.InvalidRole => Some Status.NotFound
  | ErrorType.Banned => Some Status.Forbidden
  | ErrorType.AlreadyInServer => Some Status.Conflict
  | ErrorType.CannotTimeoutYourself => Some Status.BadRequest
  | ErrorType.ImportAlreadyInProgress => Some Status.Conflict
  | ErrorType.ImportSourceNotFound => Some Status.NotFound
  | ErrorType.ImportVerificationMissing => Some Status.Forbidden
  | ErrorType.ImportBotNotInServer => Some Status.NotFound
  | ErrorType.ImportUpstreamUnavailable => Some Status.ServiceUnavailable
  | ErrorType.ImportSourceUnavailable => Some Status.BadRequest
  | ErrorType.TooManyServers _ => Some Status.BadRequest
  | ErrorType.TooManyEmbeds _ => Some Status.BadRequest
  | ErrorType.TooManyEmoji _ => Some Status.BadRequest
  | ErrorType.TooManyStickers _ => Some Status.BadRequest
  | ErrorType.TooManySounds _ => Some Status.BadRequest
  | ErrorType.TooManyChannels _ => Some Status.BadRequest
  | ErrorType.TooManyRoles _ => Some Status.BadRequest
  | ErrorType.NotEnoughBoosts _ => Some Status.BadRequest
  | ErrorType.TooManyBoosts _ => Some Status.BadRequest
  | ErrorType.PerkRequired => Some Status.Forbidden
  | ErrorType.InvalidReferralCode => Some Status.BadRequest
  | ErrorType.InvalidClaim => Some Status.Conflict
  | ErrorType.ReachedMaximumBots => Some Status.BadRequest
  | ErrorType.IsBot => Some Status.BadRequest
  | ErrorType.IsNotBot => Some Status.BadRequest
  | ErrorType.BotIsPrivate => Some Status.Forbidden
  | ErrorType.TooManyCommands _ => Some Status.BadRequest
  | ErrorType.BotOffline => Some Status.BadRequest
  | ErrorType.InteractionExpired => Some Status.Gone
  | ErrorType.InteractionAlreadyResponded => Some Status.Conflict
  | ErrorType.PollClosed => Some Status.Gone
  | ErrorType.UnknownRaid => Some Status.BadRequest
  | ErrorType.UnknownEdition => Some Status.BadRequest
  | ErrorType.SoftResMixedEditions => Some Status.BadRequest
  | ErrorType.TooManySoftResRaids _ => Some Status.BadRequest
  | ErrorType.SoftResLocked => Some Status.Gone
  | ErrorType.SoftResInvalidItems => Some Status.BadRequest
  | ErrorType.SoftResClassRestricted => Some Status.BadRequest
  | ErrorType.SoftResItemCapReached => Some Status.Conflict
  | ErrorType.SoftResRecurringEvent => Some Status.BadRequest
  | ErrorType.SoftResEventAlreadyLinked => Some Status.Conflict
  | ErrorType.TooManyScheduledMessages _ => Some Status.BadRequest
  | ErrorType.NotAnAnnouncementChannel => Some Status.BadRequest
  | ErrorType.AlreadyCrossposted => Some Status.BadRequest
  | ErrorType.TooManyFollowers _ => Some Status.BadRequest
  | ErrorType.TooManyCrossposts _ => Some Status.TooManyRequests
  | ErrorType.CannotReportYourself => Some Status.BadRequest
  | ErrorType.MissingPermission _ => Some Status.Forbidden
  | ErrorType.MissingUserPermission _ => Some Status.Forbidden
  | ErrorType.NotElevated => Some Status.Forbidden
  | ErrorType.NotPrivileged => Some Status.Forbidden
  | ErrorType.CannotGiveMissingPermissions => Some Status.Forbidden
  | ErrorType.NotOwner => Some Status.Forbidden
  | ErrorType.IsElevated => Some Status.Forbidden
  | ErrorType.DatabaseError _ _ => Some Status.InternalServerError
  | ErrorType.InternalError => Some Status.InternalServerError
  | ErrorType.InvalidOperation => Some Status.BadRequest
  | ErrorType.InvalidCredentials => Some Status.Unauthorized
  | ErrorType.InvalidProperty => Some Status.BadRequest
  | ErrorType.InvalidSession => Some Status.Unauthorized
  | ErrorType.NotAuthenticated => Some Status.Unauthorized
  | ErrorType.DuplicateNonce => Some Status.Conflict
  | ErrorType.NotFound => Some Status.NotFound
  | ErrorType.NoEffect => Some Status.BadRequest
  | ErrorType.FailedValidation _ => Some Status.BadRequest
  | ErrorType.LiveKitUnavailable => Some Status.BadRequest
  | ErrorType.NotAVoiceChannel => Some Status.BadRequest
  | ErrorType.NotInVoiceChannel => Some Status.BadRequest
  | ErrorType.AlreadyConnected => Some Status.BadRequest
  | ErrorType.NotConnected => Some Status.BadRequest
  | ErrorType.UnknownNode => Some Status.BadRequest
  | ErrorType.RemoteControlOfferPending => Some Status.Conflict
  | ErrorType.RemoteControlGrantActive => Some Status.Conflict
  | ErrorType.WatchSessionExists => Some Status.Conflict
  | ErrorType.NotWatchHost => Some Status.Forbidden
  | ErrorType.FeatureDisabled _ => Some Status.BadRequest
  | ErrorType.ProxyError => Some Status.BadRequest
  | ErrorType.FileTooSmall => Some Status.UnprocessableEntity
  | ErrorType.FileTooLarge _ => Some Status.UnprocessableEntity
  | ErrorType.FileTypeNotAllowed => Some Status.BadRequest
  | ErrorType.UploadSessionConflict => Some Status.Conflict
  | ErrorType.UploadIncomplete => Some Status.BadRequest
  | ErrorType.TooManyUploadSessions _ => Some Status.TooManyRequests
  | ErrorType.ImageProcessingFailed => Some Status.InternalServerError
  | ErrorType.NoEmbedData => Some Status.BadRequest
  | ErrorType.VosoUnavailable => Some Status.BadRequest
  | ErrorType.RenderFail => Some Status.InternalServerError
  | ErrorType.MissingHeaders => Some Status.BadRequest
  | ErrorType.CaptchaFailed => Some Status.BadRequest
  | ErrorType.BlockedByShield => Some Status.BadRequest
  | ErrorType.UnverifiedAccount => Some Status.Forbidden
  | ErrorType.EmailFailed => Some Status.InternalServerError
  | ErrorType.InvalidToken => Some Status.Unauthorized
  | ErrorType.MissingInvite => Some Status.BadRequest
  | ErrorType.InvalidInvite => Some Status.BadRequest
  | ErrorType.CompromisedPassword => Some Status.BadRequest
  | ErrorType.ShortPassword => Some Status.BadRequest
  | ErrorType.LockedOut => Some Status.Forbidden
  | ErrorType.TotpAlreadyEnabled => Some Status.BadRequest
  | ErrorType.DisallowedMFAMethod => Some Status.BadRequest
  | ErrorType.OperationFailed => Some Status.InternalServerError
  | ErrorType.IncorrectData _ => Some Status.BadRequest
  | ErrorType.MlsCallFull _ => Some Status.Conflict
  | ErrorType.VideoCallFull _ => Some Status.Conflict
  | ErrorType.PaymentsDisabled => Some Status.BadRequest
  | ErrorType.CipherSalesClosed => Some Status.Forbidden
  | ErrorType.CipherSoldOut => Some Status.Conflict
  | ErrorType.CipherRegionUnavailable => Some Status.BadRequest
  | ErrorType.CipherTierInvalid => Some Status.BadRequest
  | ErrorType.PaymentPending => Some Status.Conflict
  | ErrorType.PaymentProviderError => Some Status.BadGateway
  | ErrorType.ProtectedChannelResecuring _ => Some Status.Conflict
  | ErrorType.NotSeated => Some Status.Forbidden
  | ErrorType.SeatCapReached _ => Some Status.BadRequest
  | ErrorType.DeviceCapReached _ => Some Status.BadRequest
  | ErrorType.ChannelProtected => Some Status.BadRequest
  | ErrorType.ProtectedFieldRefused _ => Some Status.BadRequest
  | ErrorType.SeatListNamesRemovedUsers _ => Some Status.BadRequest
  | ErrorType.InsufficientProt _ _ => Some Status.Conflict
  | ErrorType.ProtDisabled => Some Status.BadRequest
  | ErrorType.ProtSalesClosed => Some Status.Forbidden
  | ErrorType.ProtPackInvalid => Some Status.BadRequest
  | ErrorType.ProtWalletCap _ => Some Status.Conflict
  | ErrorType.ProtHeldPurchase => Some Status.Forbidden
  | ErrorType.ProtTankFrozen => Some Status.Forbidden
  | ErrorType.ProtGoalClosed => Some Status.Conflict
  | ErrorType.ProtNotEligible => Some Status.Forbidden
  | ErrorType.ProtTierBelowSeats => Some Status.Conflict
  | ErrorType.ProtIdempotencyConflict => Some Status.Conflict
  | ErrorType.ProtReplicaSetRequired => Some Status.ServiceUnavailable
  | ErrorType.ProtRegionUnavailable => Some Status.BadRequest
  | ErrorType.Blacklisted => None
  end.

(** [IntoResponse::into_response] *)
Definition into_response (e : ErrorType.t) : Response :=
  match axum_status e with
  | None => blacklisted_response (Some "application/json"%string)
  | Some status => respond status e
  end.

(** [Responder::respond_to] *)
Definition respond_to (e : ErrorType.t) : Response :=
  match rocket_status e with
  | None => blacklisted_response None
  | Some status => respond status e
  end.

(** The REST API and the micro-services answer every error with the same
    status, body and logging decision, always with an error status, and the
    content type differs for a blacklisted login only. *)
Theorem responders_agree (e : ErrorType.t) :
  r_status (into_response e) = r_status (respond_to e) /\
  r_body (into_response e) = r_body (respond_to e) /\
  r_logged (into_response e) = r_logged (respond_to e) /\
  400 <= r_status (respond_to e) < 600 /\
  (r_content_type (into_response e) = r_content_type (respond_to e) <->
   e <> ErrorType.Blacklisted).
Proof. destruct e; (repeat split; try done; try lia). Qed.
