(* ===== verification/Program.v ===== *)
(** * Programs of atomic operations

    Asynchronous code that talks to shared state (the database and the payment
    provider) is a [prog]: a tree of atomic operations on a world, each
    followed by what the code does with the answer.  Between two operations
    other code runs, or the process stops.  [run] is the undisturbed run,
    [stops] the worlds a crash can leave behind, and [sys_step] any
    interleaving of any number of programs.  [wp] is a rely-guarantee
    precondition; [holds] is the case of an environment of which only an
    invariant is known, and what it guarantees is true of every interleaving
    of programs that keep the invariant. *)

From stdpp Require Import base relations list.
From S2P Require Import Prelude Errors.

Inductive prog (W A : Type) : Type :=
| Ret (a : A)
| Panic
| Atom {X : Type} (op : W -> W * X) (k : X -> prog W A).
Arguments Ret {_ _} _.
Arguments Panic {_ _}.
Arguments Atom {_ _ _} _ _.

Fixpoint bind {W A B} (p : prog W A) (f : A -> prog W B) : prog W B :=
  match p with
  | Ret a => f a
  | Panic => Panic
  | Atom op k => Atom op (fun x => bind (k x) f)
  end.

(** One atomic operation *)
Definition atom {W A} (op : W -> W * A) : prog W A := Atom op Ret.

Notation "'do!' x <- c ; k" := (bind c (fun x => k))
  (at level 10, x pattern, c at level 100, k at level 200) : sloga_scope.

(** ** Fallible programs: [?] leaves the function *)

Definition Eff (W A : Type) : Type := prog W (Result A).

Definition ebind {W A B} (c : Eff W A) (k : A -> Eff W B) : Eff W B :=
  bind c (fun r => match r with Ok a => k a | Err e => Ret (Err e) end).

Notation "'let!' x ':=' c 'in' k" := (ebind c (fun x => k))
  (at level 10, x pattern, c at level 100, k at level 200) : sloga_scope.

Definition ok {W A} (a : A) : Eff W A := Ret (Ok a).
Definition fail {W A} (e : ErrorType.t) : Eff W A := Ret (Err e).

(** ** Undisturbed runs, crashes and interleavings *)

Fixpoint run {W A} (p : prog W A) (w : W) : option (A * W) :=
  match p with
  | Ret a => Some (a, w)
  | Panic => None
  | Atom op k => let '(w', x) := op w in run (k x) w'
  end.

(** The worlds a program leaves when it stops after any of its operations *)
Inductive stops {W A} : prog W A -> W -> W -> Prop :=
| stops_here p w : stops p w w
| stops_later {X} (op : W -> W * X) k w w' :
    stops (k (op w).2) (op w).1 w' -> stops (Atom op k) w w'.

Record Sys (W : Type) : Type := mkSys { sys_world : W; sys_threads : list (prog W unit) }.
Arguments mkSys {_} _ _.
Arguments sys_world {_} _.
Arguments sys_threads {_} _.

(** One event of the system: a handler starts, a running one makes its next
    operation, or one is lost. *)
Inductive sys_step {W} (handler : prog W unit -> Prop) : Sys W -> Sys W -> Prop :=
| sys_start w ts p : handler p -> sys_step handler (mkSys w ts) (mkSys w (p :: ts))
| sys_atom {X} w ts1 ts2 (op : W -> W * X) k :
    sys_step handler (mkSys w (ts1 ++ Atom op k :: ts2))
      (mkSys (op w).1 (ts1 ++ k (op w).2 :: ts2))
| sys_lost w ts1 ts2 p :
    sys_step handler (mkSys w (ts1 ++ p :: ts2)) (mkSys w (ts1 ++ ts2)).

(** The same without losses *)
Inductive live_step {W} (handler : prog W unit -> Prop) : Sys W -> Sys W -> Prop :=
| live_start w ts p : handler p -> live_step handler (mkSys w ts) (mkSys w (p :: ts))
| live_atom {X} w ts1 ts2 (op : W -> W * X) k :
    live_step handler (mkSys w (ts1 ++ Atom op k :: ts2)) (mkSys (op w).1 (ts1 ++ k (op w).2 :: ts2)).

(** A schedule: each number names the thread that makes its next operation *)
Fixpoint sys_sched {W} (schedule : list nat) (s : Sys W) : option (Sys W) :=
  match schedule with
  | [] => Some s
  | i :: rest =>
      match sys_threads s !! i with
      | Some (Atom op k) =>
          let '(w, x) := op (sys_world s) in
          sys_sched rest (mkSys w (<[i := k x]> (sys_threads s)))
      | _ => None
      end
  end.

(** A handler whose answer nobody waits for *)
Definition spawn {W A} (p : prog W A) : prog W unit := bind p (fun _ => Ret tt).

(** [p] gets to [p'] while the environment makes [E] steps in between. *)
Inductive among {W A} (E : W -> W -> Prop) : prog W A -> W -> prog W A -> W -> Prop :=
| among_here p w : among E p w p w
| among_env p w w1 p' w' : E w w1 -> among E p w1 p' w' -> among E p w p' w'
| among_op X (op : W -> W * X) k w p' w' :
    among E (k (op w).2) (op w).1 p' w' -> among E (Atom op k) w p' w'.

(** The first [n] operations, undisturbed *)
Fixpoint drive {W A} (n : nat) (p : prog W A) (w : W) : prog W A * W :=
  match n, p with
  | S n', Atom op k => let '(w', x) := op w in drive n' (k x) w'
  | _, _ => (p, w)
  end.

(** ** Rely and guarantee *)

(** Every operation of [p] is a [G] step even though the environment makes
    [E] steps before it, and [p] ends in [Q]. *)
Fixpoint wp {W A} (E G : W -> W -> Prop) (p : prog W A) (Q : A -> W -> Prop) (w : W) : Prop :=
  match p with
  | Ret a => Q a w
  | Panic => True
  | Atom op k => forall w1, E w w1 -> G w1 (op w1).1 /\ wp E G (k (op w1).2) Q (op w1).1
  end.

(** The same when all that is known of the world between two operations is an
    invariant: what is left are facts about values. *)
Fixpoint holds {W A} (I : W -> Prop) (G : W -> W -> Prop) (p : prog W A) (Q : A -> Prop) : Prop :=
  match p with
  | Ret a => Q a
  | Panic => True
  | Atom op k => forall w, I w -> I (op w).1 /\ G w (op w).1 /\ holds I G (k (op w).2) Q
  end.

(** An undisturbed run that ends, in [Q], with [I] true after every operation *)
Fixpoint ends_in {W A} (I : W -> Prop) (p : prog W A) (Q : A -> W -> Prop) (w : W) : Prop :=
  match p with
  | Ret a => Q a w
  | Panic => False
  | Atom op k => I (op w).1 /\ ends_in I (k (op w).2) Q (op w).1
  end.

Section Theory.
Context {W : Type}.
Implicit Types (E G : W -> W -> Prop) (w : W).

Lemma run_bind {A B} (p : prog W A) (f : A -> prog W B) w :
  run (bind p f) w = match run p w with Some (a, w') => run (f a) w' | None => None end.
Proof.
  revert w. induction p as [a| |X op k IH]; intros w; simpl; [done | done|].
  destruct (op w) as [w' x]. apply IH.
Qed.

Lemma wp_bind {A B} E G (p : prog W A) (f : A -> prog W B) Q w :
  wp E G p (fun a w' => wp E G (f a) Q w') w -> wp E G (bind p f) Q w.
Proof.
  revert w. induction p as [a| |X op k IH]; intros w; simpl; [done | done|].
  intros H w1 He. destruct (H w1 He) as [Hg Hk]. split; [done|]. by apply IH.
Qed.

Lemma wp_mono {A} E G (p : prog W A) (Q Q' : A -> W -> Prop) w :
  wp E G p Q w -> (forall a w', Q a w' -> Q' a w') -> wp E G p Q' w.
Proof.
  intros H HQ. revert w H. induction p as [a| |X op k IH]; intros w; simpl; [by apply HQ | done|].
  intros H w1 He. destruct (H w1 He) as [Hg Hk]. split; [done|]. by apply IH.
Qed.

Lemma among_drive {A} E n : forall (p : prog W A) w, among E p w (drive n p w).1 (drive n p w).2.
Proof.
  induction n as [|n IH]; intros p w; simpl; [by destruct p; constructor|].
  destruct p as [a| |X op k]; [constructor | constructor|].
  apply among_op. destruct (op w) as [w' x]. apply IH.
Qed.

Lemma stops_drive {A} n : forall (p : prog W A) w, stops p w (drive n p w).2.
Proof.
  induction n as [|n IH]; intros p w; simpl; [destruct p; constructor|].
  destruct p as [a| |X op k]; [constructor | constructor|].
  apply stops_later. destruct (op w) as [w' x]. apply IH.
Qed.

Lemma ends_in_bind {A B} I (p : prog W A) (f : A -> prog W B) Q w :
  ends_in I p (fun a w' => ends_in I (f a) Q w') w -> ends_in I (bind p f) Q w.
Proof.
  revert w. induction p as [a| |X op k IH]; intros w; simpl; [done | done|].
  intros [Hi Hk]. split; [done|]. by apply IH.
Qed.

Lemma ends_in_mono {A} I (p : prog W A) (Q Q' : A -> W -> Prop) w :
  ends_in I p Q w -> (forall a w', Q a w' -> Q' a w') -> ends_in I p Q' w.
Proof.
  intros H HQ. revert w H. induction p as [a| |X op k IH]; intros w; simpl; [by apply HQ | done|].
  intros [Hi Hk]. split; [done|]. by apply IH.
Qed.

Lemma ends_in_ebind {A B} I (c : Eff W A) (k : A -> Eff W B) Q w :
  ends_in I c (fun r w' => match r with Ok a => ends_in I (k a) Q w' | Err e => Q (Err e) w' end) w ->
  ends_in I (ebind c k) Q w.
Proof. intros H. apply ends_in_bind. eapply ends_in_mono; [exact H|]. by intros [a|e]. Qed.

Lemma ends_in_run {A} I (p : prog W A) Q w :
  ends_in I p Q w -> exists a w', run p w = Some (a, w') /\ Q a w'.
Proof.
  revert w. induction p as [a| |X op k IH]; intros w; simpl; [eauto | done|].
  intros [_ Hk]. destruct (op w) as [w2 x]. by apply IH.
Qed.

Lemma ends_in_stops {A} I (p : prog W A) Q w w' :
  ends_in I p Q w -> I w -> stops p w w' -> I w'.
Proof.
  intros H Hw Hs. induction Hs as [p w|X op k w w' Hs IH]; [done|]. destruct H. by apply IH.
Qed.

Lemma holds_bind {A B} I G (p : prog W A) (f : A -> prog W B) (Q : B -> Prop) :
  holds I G p (fun a => holds I G (f a) Q) -> holds I G (bind p f) Q.
Proof.
  induction p as [a| |X op k IH]; simpl; [done | done|].
  intros H w Hi. destruct (H w Hi) as (Hw & Hg & Hk). eauto.
Qed.

Lemma holds_mono {A} I G (p : prog W A) (Q Q' : A -> Prop) :
  holds I G p Q -> (forall a, Q a -> Q' a) -> holds I G p Q'.
Proof.
  intros H HQ. revert H. induction p as [a| |X op k IH]; simpl; [by apply HQ | done|].
  intros H w Hi. destruct (H w Hi) as (Hw & Hg & Hk). eauto.
Qed.

Lemma holds_ebind {A B} I G (c : Eff W A) (k : A -> Eff W B) (Q : Result B -> Prop) :
  holds I G c (fun r => match r with Ok a => holds I G (k a) Q | Err e => Q (Err e) end) ->
  holds I G (ebind c k) Q.
Proof. intros H. apply holds_bind. eapply holds_mono; [exact H|]. by intros [a|e]. Qed.

Lemma holds_spawn {A} I G (p : prog W A) Q :
  holds I G p Q -> holds I G (spawn p) (fun _ => True).
Proof. intros H. apply holds_bind. by eapply holds_mono. Qed.

(** What an undisturbed run and a crash keep *)
Lemma holds_run {A} I G (p : prog W A) Q w a w' :
  holds I G p Q -> I w -> run p w = Some (a, w') -> Q a /\ I w' /\ rtc G w w'.
Proof.
  revert w. induction p as [x| |X op k IH]; intros w H Hi Hr; simpl in *; simplify_eq.
  - split_and!; [done | done | constructor].
  - destruct (H w Hi) as (Hw & Hg & Hk). destruct (op w) as [w2 x]; simpl in *.
    destruct (IH x w2 Hk Hw Hr) as (HQ & Hi' & Hr'). split_and!; [done | done | by eapply rtc_l].
Qed.

Lemma holds_stops {A} I G (p : prog W A) Q w w' :
  holds I G p Q -> I w -> stops p w w' -> I w' /\ rtc G w w'.
Proof.
  intros H Hi Hs. induction Hs as [p w|X op k w w' Hs IH]; [split; [done | constructor]|].
  destruct (H w Hi) as (Hw & Hg & Hk). destruct (IH Hk Hw). split; [done | by eapply rtc_l].
Qed.

(** What every handler guarantees is what the whole system does, however its
    handlers interleave and wherever they stop. *)
Definition guarded I G (s : Sys W) : Prop :=
  I (sys_world s) /\ Forall (fun p => holds I G p (fun _ => True)) (sys_threads s).

Lemma guarded_step (handler : prog W unit -> Prop) I G s s' :
  (forall p, handler p -> holds I G p (fun _ => True)) ->
  guarded I G s -> sys_step handler s s' ->
  guarded I G s' /\ (sys_world s' = sys_world s \/ G (sys_world s) (sys_world s')).
Proof.
  intros Hh [Hi Hg] Hs. unfold guarded.
  destruct Hs as [w ts p Hp|X w ts1 ts2 op k|w ts1 ts2 p]; simpl in *.
  - split; [|by left]. split; [done|]. constructor; auto.
  - apply Forall_app in Hg as [H1 [H2 H3]%Forall_cons]. destruct (H2 w Hi) as (Hw & Hgw & Hk).
    split; [|by right]. split; [done|]. apply Forall_app. split; [done|]. by constructor.
  - apply Forall_app in Hg as [H1 [_ H3]%Forall_cons]. split; [|by left]. split; [done|].
    by apply Forall_app.
Qed.

Lemma guarded_steps (handler : prog W unit -> Prop) I G s s' :
  (forall p, handler p -> holds I G p (fun _ => True)) ->
  guarded I G s -> rtc (sys_step handler) s s' ->
  guarded I G s' /\ rtc (fun w w' => I w /\ I w' /\ G w w') (sys_world s) (sys_world s').
Proof.
  intros Hh Hg Hs. induction Hs as [s|s1 s2 s3 H1 _ IH]; [split; [done | constructor]|].
  destruct (guarded_step _ _ _ _ _ Hh Hg H1) as [Hg2 Hw]. destruct (IH Hg2) as [Hg3 Hr].
  split; [done|]. destruct Hw as [<-|Hw]; [done|]. eapply rtc_l; [|exact Hr].
  by split_and!; [apply Hg | apply Hg2|].
Qed.

(** An undisturbed run is one of the interleavings. *)
Lemma sys_run {A} (handler : prog W unit -> Prop) (p : prog W A) w a w' ts :
  run p w = Some (a, w') ->
  rtc (sys_step handler) (mkSys w (spawn p :: ts)) (mkSys w' (Ret tt :: ts)).
Proof.
  unfold spawn. revert w. induction p as [x| |X op k IH]; intros w Hr; simpl in *; simplify_eq.
  - constructor.
  - destruct (op w) as [w2 x] eqn:E. eapply rtc_l; [apply (sys_atom handler w [] ts)|].
    rewrite E. by apply IH.
Qed.

Lemma live_steps (handler : prog W unit -> Prop) s s' :
  rtc (live_step handler) s s' -> rtc (sys_step handler) s s'.
Proof. apply rtc_subrel. intros ? ? []; by constructor. Qed.

Lemma sys_sched_live (handler : prog W unit -> Prop) schedule : forall s s',
  sys_sched schedule s = Some s' -> rtc (live_step handler) s s'.
Proof.
  induction schedule as [|i rest IH]; intros [w ts] s' Hs; simpl in *; simplify_eq; [constructor|].
  destruct (ts !! i) as [[| |X op k]|] eqn:Ei; try done.
  destruct (op w) as [w2 x] eqn:Eo. eapply rtc_l; [|by apply IH].
  rewrite <- (take_drop_middle ts i _ Ei) at 1.
  assert (<[i := k x]> ts = take i ts ++ k x :: drop (S i) ts) as ->.
  { apply insert_take_drop. by apply lookup_lt_Some in Ei. }
  pose proof (live_atom handler w (take i ts) (drop (S i) ts) op k) as Hstep.
  by rewrite Eo in Hstep.
Qed.

Lemma sys_sched_steps (handler : prog W unit -> Prop) schedule s s' :
  sys_sched schedule s = Some s' -> rtc (sys_step handler) s s'.
Proof. intros H. by eapply live_steps, sys_sched_live. Qed.

Lemma sys_sched_app l1 l2 : forall s : Sys W, sys_sched (l1 ++ l2) s = sys_sched l1 s ≫= sys_sched l2.
Proof.
  induction l1 as [|i l1 IH]; intros s; simpl; [done|].
  destruct (sys_threads s !! i) as [[| |X op k]|]; try done. destruct (op _). apply IH.
Qed.

(** Two handlers at once *)
Lemma two_start (handler : prog W unit -> Prop) w p q :
  handler p -> handler q -> rtc (sys_step handler) (mkSys w []) (mkSys w [p; q]).
Proof.
  intros Hp Hq. eapply rtc_l; [by apply (sys_start _ _ _ q)|]. apply rtc_once. by constructor.
Qed.

(** Two observations along one schedule *)
Lemma sys_sched_observe {X} (handler : prog W unit -> Prop) (f : Sys W -> option X) s0 s l1 l2 a b :
  rtc (sys_step handler) s0 s ->
  sys_sched l1 s ≫= f = Some a -> sys_sched (l1 ++ l2) s ≫= f = Some b ->
  exists s1 s2, rtc (sys_step handler) s0 s1 /\ rtc (sys_step handler) s1 s2 /\
    f s1 = Some a /\ f s2 = Some b.
Proof.
  intros H0 Ha Hb. rewrite sys_sched_app in Hb.
  destruct (sys_sched l1 s) as [s1|] eqn:E1; simpl in *; [|done].
  destruct (sys_sched l2 s1) as [s2|] eqn:E2; simpl in *; [|done].
  exists s1, s2. split_and!; try done; [etrans; [done|]|]; by eapply sys_sched_steps.
Qed.

Lemma run_ebind {A B} (c : Eff W A) (k : A -> Eff W B) w :
  run (ebind c k) w =
  match run c w with
  | Some (Ok a, w') => run (k a) w'
  | Some (Err e, w') => Some (Err e, w')
  | None => None
  end.
Proof. unfold ebind. rewrite run_bind. by destruct (run c w) as [[[a|e] w']|]. Qed.

Lemma run_atom {A} (op : W -> W * A) w : run (atom op) w = Some ((op w).2, (op w).1).
Proof. unfold atom. simpl. by destruct (op w). Qed.
End Theory.

(** Programs are taken apart by the lemmas above, not by reduction. *)
#[global] Arguments ends_in : simpl never.
#[global] Arguments bind : simpl never.
#[global] Arguments ebind : simpl never.
#[global] Arguments atom : simpl never.

(** ** Programs by the operations they are made of *)

Fixpoint made_of {W A} (P : forall X, (W -> W * X) -> Prop) (p : prog W A) : Prop :=
  match p with
  | Ret _ | Panic => True
  | Atom op k => P _ op /\ forall x, made_of P (k x)
  end.

Section MadeOf.
Context {W : Type} (P : forall X, (W -> W * X) -> Prop).

Lemma made_of_bind {A B} (p : prog W A) (f : A -> prog W B) :
  made_of P p -> (forall a, made_of P (f a)) -> made_of P (bind p f).
Proof.
  intros Hp Hf. induction p as [a| |X op k IH]; simpl; [apply Hf | done|].
  destruct Hp as [Ho Hk]. split; [done|]. intros x. by apply IH.
Qed.

Lemma made_of_ebind {A B} (c : Eff W A) (k : A -> Eff W B) :
  made_of P c -> (forall a, made_of P (k a)) -> made_of P (ebind c k).
Proof. intros Hc Hk. apply made_of_bind; [done|]. by intros [a|e]; [apply Hk|]. Qed.

Lemma made_of_atom {A} (op : W -> W * A) : P _ op -> made_of P (atom op).
Proof. by split. Qed.

Lemma made_of_spawn {A} (p : prog W A) : made_of P p -> made_of P (spawn p).
Proof. intros Hp. by apply made_of_bind. Qed.

Lemma made_of_holds {A} (I : W -> Prop) (G : W -> W -> Prop) (p : prog W A) :
  (forall X op w, P X op -> I w -> I (op w).1 /\ G w (op w).1) -> made_of P p -> holds I G p (fun _ => True).
Proof.
  intros Hop. induction p as [a| |X op k IH]; simpl; [done..|]. intros [Ho Hk] w Hw.
  destruct (Hop _ _ w Ho Hw). eauto.
Qed.
End MadeOf.

Lemma made_of_mono {W A} (P Q : forall X, (W -> W * X) -> Prop) (p : prog W A) :
  (forall X op, P X op -> Q X op) -> made_of P p -> made_of Q p.
Proof.
  intros HPQ. induction p as [a| |X op k IH]; simpl; [done..|]. intros [Ho Hk]. split; [by apply HPQ|].
  intros x. by apply IH.
Qed.

(** ** Debts

    What one thread has begun and not finished can make a fact about the world
    false for a while: a tally that is written after what it counts, a flag
    that is set before it is announced.  Each thread then carries a debt, and
    the fact is one about the world and the debts of all threads together. *)

Section Debts.
Context {W M : Type} (add : M -> M -> M) (zero : M).
Context `{!Assoc (=) add, !Comm (=) add, !LeftId (=) zero add}.
Context (I : W -> M -> Prop).

(** From a debt [d], [p] keeps [I] whatever the others owe, and ends in [Q]. *)
Fixpoint settles {A} (p : prog W A) (d : M) (Q : A -> M -> Prop) : Prop :=
  match p with
  | Ret a => Q a d
  | Panic => d = zero
  | Atom op k =>
      forall w D, I w (add D d) -> exists d', I (op w).1 (add D d') /\ settles (k (op w).2) d' Q
  end.

Abbreviation pays p d := (settles p d (fun _ d' => d' = zero)).

Lemma settles_mono {A} (p : prog W A) d (Q Q' : A -> M -> Prop) :
  settles p d Q -> (forall a d', Q a d' -> Q' a d') -> settles p d Q'.
Proof.
  intros H HQ. revert d H. induction p as [a| |X op k IH]; intros d H; simpl in *; [by apply HQ|done|].
  intros w D Hw. destruct (H w D Hw) as (d' & Hi & Hk). exists d'. split; [done|]. by apply IH.
Qed.

Lemma settles_bind {A B} (p : prog W A) (f : A -> prog W B) d (Q : B -> M -> Prop) :
  settles p d (fun a d' => settles (f a) d' Q) -> settles (bind p f) d Q.
Proof.
  revert d. induction p as [a| |X op k IH]; intros d H; simpl in *; [done|done|].
  intros w D Hw. destruct (H w D Hw) as (d' & Hi & Hk). exists d'. split; [done|]. by apply IH.
Qed.

Lemma settles_ebind {A B} (c : Eff W A) (k : A -> Eff W B) d (Q : Result B -> M -> Prop) :
  settles c d (fun r d' => match r with Ok a => settles (k a) d' Q | Err e => Q (Err e) d' end) ->
  settles (ebind c k) d Q.
Proof. intros H. apply settles_bind. eapply settles_mono; [exact H|]. by intros [a|e]. Qed.

Lemma settles_atom {X} (op : W -> W * X) d (Q : X -> M -> Prop) :
  (forall w D, I w (add D d) -> exists d', I (op w).1 (add D d') /\ Q (op w).2 d') -> settles (atom op) d Q.
Proof. done. Qed.

(** An operation that leaves the world alone *)
Lemma settles_read {X} (op : W -> W * X) d (Q : X -> M -> Prop) :
  (forall w, (op w).1 = w) -> (forall w D, I w (add D d) -> Q (op w).2 d) -> settles (atom op) d Q.
Proof. intros Hop HQ. apply settles_atom. intros w D Hw. exists d. rewrite Hop. eauto. Qed.

Lemma settles_spawn {A} (p : prog W A) : pays p zero -> pays (spawn p) zero.
Proof. intros H. by apply settles_bind, (settles_mono _ _ _ _ H). Qed.

(** Programs that owe nothing between their parts *)
Lemma pays_ebind {A B} (c : Eff W A) (k : A -> Eff W B) :
  pays c zero -> (forall a, pays (k a) zero) -> pays (ebind c k) zero.
Proof.
  intros Hc Hk. apply settles_ebind. eapply settles_mono; [exact Hc|]. intros [a|e] d ->; [apply Hk|done].
Qed.

Lemma pays_bind {A B} (c : prog W A) (k : A -> prog W B) :
  pays c zero -> (forall a, pays (k a) zero) -> pays (bind c k) zero.
Proof. intros Hc Hk. apply settles_bind. eapply settles_mono; [exact Hc|]. intros a d ->. apply Hk. Qed.

Lemma pays_read {X} (op : W -> W * X) : (forall w, (op w).1 = w) -> pays (atom op) zero.
Proof. intros H. by apply settles_read. Qed.

Lemma pays_atom {X} (op : W -> W * X) : (forall w D, I w D -> I (op w).1 D) -> pays (atom op) zero.
Proof. intros H. apply settles_atom. intros w D Hw. exists zero. split; [by apply H|done]. Qed.

Definition total_debt (ds : list M) : M := foldr add zero ds.

Lemma total_debt_middle ds1 d ds2 : total_debt (ds1 ++ d :: ds2) = add (total_debt (ds1 ++ ds2)) d.
Proof.
  induction ds1 as [|e ds1 IH]; simpl; [by rewrite (comm_L add)|]. by rewrite IH, (assoc_L add).
Qed.

Definition covered (s : Sys W) : Prop :=
  exists ds, Forall2 (fun p d => pays p d) (sys_threads s) ds /\ I (sys_world s) (total_debt ds).

Lemma covered_start w ts p : pays p zero -> covered (mkSys w ts) -> covered (mkSys w (p :: ts)).
Proof.
  intros Hp (ds & Hf & Hi). exists (zero :: ds). split; [by constructor|]. simpl in *. by rewrite (left_id_L zero add).
Qed.

Lemma covered_atom {X} w ts1 ts2 (op : W -> W * X) k :
  covered (mkSys w (ts1 ++ Atom op k :: ts2)) -> covered (mkSys (op w).1 (ts1 ++ k (op w).2 :: ts2)).
Proof.
  intros (ds & Hf & Hi). simpl in *. apply Forall2_app_inv_l in Hf as (ds1 & ds' & H1 & Hf & ->).
  apply Forall2_cons_inv_l in Hf as (d & ds2 & Hp & H2 & ->). rewrite total_debt_middle in Hi.
  destruct (Hp w _ Hi) as (d' & Hi' & Hk). exists (ds1 ++ d' :: ds2). split.
  - apply Forall2_app; [done|]. by constructor.
  - simpl. by rewrite total_debt_middle.
Qed.

Lemma covered_live (handler : prog W unit -> Prop) s s' :
  (forall p, handler p -> pays p zero) -> covered s -> rtc (live_step handler) s s' -> covered s'.
Proof.
  intros Hh Hc Hs. induction Hs as [|s1 s2 s3 H1 _ IH]; [done|]. apply IH.
  destruct H1; [by apply covered_start; [apply Hh|]|by apply covered_atom].
Qed.

(** Where debts may be forgotten, threads may be lost. *)
Lemma covered_steps (handler : prog W unit -> Prop) s s' :
  (forall w D d, I w (add D d) -> I w D) ->
  (forall p, handler p -> pays p zero) -> covered s -> rtc (sys_step handler) s s' -> covered s'.
Proof.
  intros Hl Hh Hc Hs. induction Hs as [|s1 s2 s3 H1 _ IH]; [done|]. apply IH.
  destruct H1 as [w ts p Hp|X w ts1 ts2 op k|w ts1 ts2 p].
  - by apply covered_start; [apply Hh|].
  - by apply covered_atom.
  - destruct Hc as (ds & Hf & Hi). simpl in *. apply Forall2_app_inv_l in Hf as (ds1 & ds' & F1 & Hf & ->).
    apply Forall2_cons_inv_l in Hf as (d & ds2 & Hp & F2 & ->). rewrite total_debt_middle in Hi.
    exists (ds1 ++ ds2). split; [by apply Forall2_app|]. by eapply Hl.
Qed.

Lemma covered_empty w : I w zero -> covered (mkSys w []).
Proof. by exists []. Qed.

(** Threads that are done owe nothing. *)
Lemma covered_done s :
  covered s -> Forall (fun p => p = Ret tt) (sys_threads s) -> I (sys_world s) zero.
Proof.
  intros (ds & Hf & Hi) Hd. assert (total_debt ds = zero) as <-; [|done]. clear Hi. revert Hd.
  induction Hf as [|p d ts ds Hp Hf IH]; intros Hd; [done|]. apply Forall_cons in Hd as [-> Hd]. simpl in *.
  rewrite Hp, (left_id_L zero add). by apply IH.
Qed.
End Debts.

(** ** What a program has seen

    The same with the worlds the program's own operations ran in, latest
    first: what an operation was answered is a fact about one of them, and
    stays one whatever happens to the world afterwards. *)

Section Seen.
Context {W : Type}.
Implicit Types (E : W -> W -> Prop) (G : list W -> W -> W -> Prop) (h : list W) (w : W).

Inductive among_seen {A} E : prog W A -> list W -> W -> prog W A -> list W -> W -> Prop :=
| seen_here p h w : among_seen E p h w p h w
| seen_env p h w w1 p' h' w' : E w w1 -> among_seen E p h w1 p' h' w' -> among_seen E p h w p' h' w'
| seen_op X (op : W -> W * X) k h w p' h' w' :
    among_seen E (k (op w).2) (w :: h) (op w).1 p' h' w' -> among_seen E (Atom op k) h w p' h' w'.

(** The first [n] operations, undisturbed *)
Fixpoint drive_seen {A} (n : nat) (p : prog W A) h w : prog W A * list W * W :=
  match n, p with
  | S n', Atom op k => let '(w', x) := op w in drive_seen n' (k x) (w :: h) w'
  | _, _ => (p, h, w)
  end.

Fixpoint wph {A} E G (p : prog W A) (Q : A -> list W -> W -> Prop) h w : Prop :=
  match p with
  | Ret a => Q a h w
  | Panic => True
  | Atom op k =>
      forall w1, E w w1 -> G h w1 (op w1).1 /\ wph E G (k (op w1).2) Q (w1 :: h) (op w1).1
  end.

Lemma wph_bind {A B} E G (p : prog W A) (f : A -> prog W B) Q h w :
  wph E G p (fun a h' w' => wph E G (f a) Q h' w') h w -> wph E G (bind p f) Q h w.
Proof.
  revert h w. induction p as [a| |X op k IH]; intros h w; simpl; [done | done|].
  intros H w1 He. destruct (H w1 He) as [Hg Hk]. split; [done|]. by apply IH.
Qed.

Lemma wph_mono {A} E G (p : prog W A) (Q Q' : A -> list W -> W -> Prop) h w :
  wph E G p Q h w -> (forall a h' w', Q a h' w' -> Q' a h' w') -> wph E G p Q' h w.
Proof.
  intros H HQ. revert h w H. induction p as [a| |X op k IH]; intros h w; simpl; [by apply HQ | done|].
  intros H w1 He. destruct (H w1 He) as [Hg Hk]. split; [done|]. by apply IH.
Qed.

Lemma wph_bind_mono {A B} E G (p : prog W A) (f g : A -> prog W B) Q h w :
  wph E G (bind p f) Q h w -> (forall a h' w', wph E G (f a) Q h' w' -> wph E G (g a) Q h' w') ->
  wph E G (bind p g) Q h w.
Proof.
  intros H Hfg. revert h w H. induction p as [a| |X op k IH]; intros h w; [by apply Hfg | done|].
  intros H w1 He. destruct (H w1 He) as [Hg Hk]. split; [done|]. by apply IH.
Qed.

Lemma wph_bind_assoc {A B C} E G (p : prog W A) (f : A -> prog W B) (g : B -> prog W C) Q h w :
  wph E G (bind p (fun a => bind (f a) g)) Q h w -> wph E G (bind (bind p f) g) Q h w.
Proof.
  revert h w. induction p as [a| |X op k IH]; intros h w; [done | done|].
  intros H w1 He. destruct (H w1 He) as [Hg Hk]. split; [done|]. by apply IH.
Qed.

(** What [wph] says of the operation a program is about to make *)
Lemma wph_among {A X} E G (p : prog W A) h w (op : W -> W * X) k h' w' :
  (forall w, E w w) -> (forall w1 w2 w3, E w1 w2 -> E w2 w3 -> E w1 w3) ->
  wph E G p (fun _ _ _ => True) h w -> among_seen E p h w (Atom op k) h' w' -> G h' w' (op w').1.
Proof.
  intros Hrefl Htrans Hp Ha. remember (Atom op k) as q eqn:Eq.
  induction Ha as [p h w|p h w w1 p' h' w' He _ IH|Y op' k' h w p' h' w' _ IH]; subst.
  - by apply Hp.
  - apply IH; [|done]. destruct p as [a| |Z opp kk]; simpl in *; [done | done|].
    intros w2 H2. eauto.
  - apply IH; [|done]. by apply Hp.
Qed.

Lemma among_seen_drive {A} E n : forall (p : prog W A) h w,
  let '(p', h', w') := drive_seen n p h w in among_seen E p h w p' h' w'.
Proof.
  induction n as [|n IH]; intros p h w; simpl; [by destruct p; constructor|].
  destruct p as [a| |X op k]; [constructor | constructor|].
  specialize (IH (k (op w).2) (w :: h) (op w).1).
  destruct (op w) as [w1 x] eqn:Eo; simpl in IH. destruct (drive_seen _ _ _ _) as [[p' h'] w'].
  apply seen_op. by rewrite Eo.
Qed.
End Seen.
