(* ===== verification/Permissions.v ===== *)
(** * Permission calculation (crates/core/permissions)

    [ChannelPermission] and [UserPermission] bit sets, the mutable
    [PermissionValue], the [PermissionQuery] trait as a type class over the
    state of the query, and the three calculators written against it.
    [LawfulQuery] is what the calculators rely on: each question has one
    answer as long as the selected user and server do not change. *)

From stdpp Require Import base numbers list strings.
From S2P Require Import Prelude Errors.
Open Scope Z_scope.

(** ** Data (models/channel.rs, models/server.rs, models/user.rs) *)

Inductive ChannelType : Type :=
| SavedMessages
| DirectMessage
| Group
| ServerChannel
| UnknownType.

Module ChannelPermission.

Inductive t : Type :=
| ManageChannel
| ManageServer
| ManagePermissions
| ManageRole
| ManageCustomisation
| KickMembers
| BanMembers
| TimeoutMembers
| AssignRoles
| ChangeNickname
| ManageNicknames
| ChangeAvatar
| RemoveAvatars
| ViewAuditLog
| ViewChannel
| ReadMessageHistory
| SendMessage
| ManageMessages
| ManageWebhooks
| InviteOthers
| SendEmbeds
| UploadFiles
| Masquerade
| React
| BypassSlowmode
| Connect
| Speak
| Video
| MuteMembers
| DeafenMembers
| MoveMembers
| Listen
| UseSoundboard
| UseRemoteControl
| RecordCall
| UseWatchTogether
| MentionEveryone
| MentionRoles
| GrantAllSafe
| GrantAll.

(** [permission as u64] *)
Definition value (p : t) : Z :=
  match p with
  | ManageChannel => Z.shiftl 1 0
  | ManageServer => Z.shiftl 1 1
  | ManagePermissions => Z.shiftl 1 2
  | ManageRole => Z.shiftl 1 3
  | ManageCustomisation => Z.shiftl 1 4
  | KickMembers => Z.shiftl 1 6
  | BanMembers => Z.shiftl 1 7
  | TimeoutMembers => Z.shiftl 1 8
  | AssignRoles => Z.shiftl 1 9
  | ChangeNickname => Z.shiftl 1 10
  | ManageNicknames => Z.shiftl 1 11
  | ChangeAvatar => Z.shiftl 1 12
  | RemoveAvatars => Z.shiftl 1 13
  | ViewAuditLog => Z.shiftl 1 14
  | ViewChannel => Z.shiftl 1 20
  | ReadMessageHistory => Z.shiftl 1 21
  | SendMessage => Z.shiftl 1 22
  | ManageMessages => Z.shiftl 1 23
  | ManageWebhooks => Z.shiftl 1 24
  | InviteOthers => Z.shiftl 1 25
  | SendEmbeds => Z.shiftl 1 26
  | UploadFiles => Z.shiftl 1 27
  | Masquerade => Z.shiftl 1 28
  | React => Z.shiftl 1 29
  | BypassSlowmode => Z.shiftl 1 39
  | Connect => Z.shiftl 1 30
  | Speak => Z.shiftl 1 31
  | Video => Z.shiftl 1 32
  | MuteMembers => Z.shiftl 1 33
  | DeafenMembers => Z.shiftl 1 34
  | MoveMembers => Z.shiftl 1 35
  | Listen => Z.shiftl 1 36
  | UseSoundboard => Z.shiftl 1 40
  | UseRemoteControl => Z.shiftl 1 41
  | RecordCall => Z.shiftl 1 42
  | UseWatchTogether => Z.shiftl 1 43
  | MentionEveryone => Z.shiftl 1 37
  | MentionRoles => Z.shiftl 1 38
  | GrantAllSafe => 0x000FFFFFFFFFFFFF
  | GrantAll => u64_max
  end.

(** [fmt::Display], which prints the variant's name *)
Definition to_string (p : t) : string :=
  match p with
  | ManageChannel => "ManageChannel"
  | ManageServer => "ManageServer"
  | ManagePermissions => "ManagePermissions"
  | ManageRole => "ManageRole"
  | ManageCustomisation => "ManageCustomisation"
  | KickMembers => "KickMembers"
  | BanMembers => "BanMembers"
  | TimeoutMembers => "TimeoutMembers"
  | AssignRoles => "AssignRoles"
  | ChangeNickname => "ChangeNickname"
  | ManageNicknames => "ManageNicknames"
  | ChangeAvatar => "ChangeAvatar"
  | RemoveAvatars => "RemoveAvatars"
  | ViewAuditLog => "ViewAuditLog"
  | ViewChannel => "ViewChannel"
  | ReadMessageHistory => "ReadMessageHistory"
  | SendMessage => "SendMessage"
  | ManageMessages => "ManageMessages"
  | ManageWebhooks => "ManageWebhooks"
  | InviteOthers => "InviteOthers"
  | SendEmbeds => "SendEmbeds"
  | UploadFiles => "UploadFiles"
  | Masquerade => "Masquerade"
  | React => "React"
  | BypassSlowmode => "BypassSlowmode"
  | Connect => "Connect"
  | Speak => "Speak"
  | Video => "Video"
  | MuteMembers => "MuteMembers"
  | DeafenMembers => "DeafenMembers"
  | MoveMembers => "MoveMembers"
  | Listen => "Listen"
  | UseSoundboard => "UseSoundboard"
  | UseRemoteControl => "UseRemoteControl"
  | RecordCall => "RecordCall"
  | UseWatchTogether => "UseWatchTogether"
  | MentionEveryone => "MentionEveryone"
  | MentionRoles => "MentionRoles"
  | GrantAllSafe => "GrantAllSafe"
  | GrantAll => "GrantAll"
  end%string.

(** [+] on two permissions, and on a value and a permission *)
Definition add (a b : t) : Z := Z.lor (value a) (value b).
Definition add_value (a : Z) (b : t) : Z := Z.lor a (value b).

End ChannelPermission.

Module CP := ChannelPermission.

Definition ALLOW_IN_TIMEOUT : Z := CP.add CP.ViewChannel CP.ReadMessageHistory.

Definition DEFAULT_PERMISSION_VIEW_ONLY : Z := CP.add CP.ViewChannel CP.ReadMessageHistory.

(** [u64 + u64] is the addition of machine integers; it overflows no bit
    here because the two sides share none. *)
Definition DEFAULT_PERMISSION : Z :=
  DEFAULT_PERMISSION_VIEW_ONLY +
  foldl CP.add_value (CP.add CP.SendMessage CP.InviteOthers)
    [CP.SendEmbeds; CP.UploadFiles; CP.Connect; CP.Speak; CP.Listen; CP.Video;
     CP.UseSoundboard; CP.UseWatchTogether].

Definition DEFAULT_PERMISSION_SAVED_MESSAGES : Z := CP.value CP.GrantAllSafe.

Definition DEFAULT_PERMISSION_DIRECT_MESSAGE : Z :=
  DEFAULT_PERMISSION +
  CP.add_value (CP.add CP.ManageChannel CP.React) CP.Masquerade.

Definition DEFAULT_PERMISSION_SERVER : Z :=
  DEFAULT_PERMISSION +
  CP.add_value (CP.add CP.React CP.ChangeNickname) CP.ChangeAvatar.

Definition DEFAULT_WEBHOOK_PERMISSIONS : Z :=
  foldl CP.add_value (CP.add CP.SendMessage CP.SendEmbeds) [CP.Masquerade; CP.React].

Module UserPermission.

Inductive t : Type := Access | ViewProfile | SendMessage | Invite.

(** [permission as u64] *)
Definition value (p : t) : Z :=
  match p with
  | Access => Z.shiftl 1 0
  | ViewProfile => Z.shiftl 1 1
  | SendMessage => Z.shiftl 1 2
  | Invite => Z.shiftl 1 3
  end.

Definition to_string (p : t) : string :=
  match p with
  | Access => "Access"
  | ViewProfile => "ViewProfile"
  | SendMessage => "SendMessage"
  | Invite => "Invite"
  end%string.

End UserPermission.

Module UP := UserPermission.

Module RelationshipStatus.
Inductive t : Type :=
| None | User | Friend | Outgoing | Incoming | Blocked | BlockedOther.
End RelationshipStatus.

(** An allow and a deny mask, as the API carries them ([u64]) and as models
    and the database store them ([i64]). *)
Module Override.
Record t : Type := mk { allow : Z; deny : Z }.
Definition default : t := mk 0 0.
Definition wf (o : t) : Prop := is_u64 (allow o) /\ is_u64 (deny o).
End Override.

Module OverrideField.
Record t : Type := mk { a : Z; d : Z }.
Definition default : t := mk 0 0.
Definition wf (o : t) : Prop := is_i64 (a o) /\ is_i64 (d o).
End OverrideField.

(** [From<Override> for OverrideField] and back *)
Definition override_to_field (v : Override.t) : OverrideField.t :=
  OverrideField.mk (as_i64 (Override.allow v)) (as_i64 (Override.deny v)).

Definition field_to_override (v : OverrideField.t) : Override.t :=
  Override.mk (as_u64 (OverrideField.a v)) (as_u64 (OverrideField.d v)).

(** ** PermissionValue (models/mod.rs) *)

Module PermissionValue.

(** The mutators return the new value. *)
Definition allow (p v : Z) : Z := Z.lor p v.
Definition revoke (p v : Z) : Z := Z.land p (not_u64 v).
Definition revoke_all (p : Z) : Z := 0.
Definition restrict (p v : Z) : Z := Z.land p v.

Definition apply (p : Z) (v : Override.t) : Z :=
  revoke (allow p (Override.allow v)) (Override.deny v).

Definition has (p v : Z) : bool := Z.land p v =? v.

Definition has_user_permission (p : Z) (permission : UP.t) : bool :=
  has p (UP.value permission).

Definition has_channel_permission (p : Z) (permission : CP.t) : bool :=
  has p (CP.value permission).

Definition throw_if_lacking_user_permission (p : Z) (permission : UP.t) : Result unit :=
  if has_user_permission p permission then Ok tt
  else Err (ErrorType.MissingPermission (UP.to_string permission)).

Definition throw_if_lacking_channel_permission (p : Z) (permission : CP.t) : Result unit :=
  if has_channel_permission p permission then Ok tt
  else Err (ErrorType.MissingPermission (CP.to_string permission)).

Definition throw_permission_override (p : Z) (current_value : option Override.t)
    (next_value : Override.t) : Result unit :=
  match current_value with
  | Some current =>
      if negb (has p (Z.land (not_u64 (Override.allow current)) (Override.allow next_value)))
         || negb (has p (Z.land (Override.deny current) (not_u64 (Override.deny next_value))))
      then Err ErrorType.CannotGiveMissingPermissions
      else Ok tt
  | None =>
      if negb (has p (Override.allow next_value))
      then Err ErrorType.CannotGiveMissingPermissions
      else Ok tt
  end.

End PermissionValue.

Module PV := PermissionValue.

(** ** The query interface (trait.rs)

    Every method borrows the query mutably, so it is an effect on the query's
    state [S]; a panic ([unimplemented!], [expect]) is [None]. *)
Class PermissionQuery (S : Type) := {
  are_we_privileged : M S bool;
  are_we_a_bot : M S bool;
  are_the_users_same : M S bool;
  user_relationship : M S RelationshipStatus.t;
  user_is_bot : M S bool;
  have_mutual_connection : M S bool;
  are_we_server_owner : M S bool;
  are_we_a_member : M S bool;
  get_default_server_permissions : M S Z;
  get_our_server_role_overrides : M S (list Override.t);
  are_we_timed_out : M S bool;
  do_we_have_publish_overwrites : M S bool;
  do_we_have_receive_overwrites : M S bool;
  get_channel_type : M S ChannelType;
  get_default_channel_permissions : M S Override.t;
  get_our_channel_role_overrides : M S (list Override.t);
  do_we_own_the_channel : M S bool;
  are_we_part_of_the_channel : M S bool;
  set_recipient_as_user : M S unit;
  set_server_from_channel : M S unit;
}.

(** ** The calculators (impl.rs) *)

Section Calculators.
Context {S : Type} `{PermissionQuery S}.

(** The part of [calculate_user_permissions] after the relationship match. *)
Definition finish_user_permissions (permissions : Z) : M S Z :=
  do mutual <- have_mutual_connection;
  if mutual then
    st_ret (UP.value UP.Access + UP.value UP.ViewProfile + UP.value UP.SendMessage)
  else st_ret permissions.

Definition calculate_user_permissions : M S Z :=
  do privileged <- are_we_privileged;
  if (privileged : bool) then st_ret u64_max else
  do same <- are_the_users_same;
  if (same : bool) then st_ret u64_max else
  do relationship <- user_relationship;
  match relationship with
  | RelationshipStatus.Friend => st_ret u64_max
  | RelationshipStatus.Blocked | RelationshipStatus.BlockedOther =>
      st_ret (UP.value UP.Access)
  | RelationshipStatus.Incoming | RelationshipStatus.Outgoing =>
      finish_user_permissions (UP.value UP.Access)
  | _ => finish_user_permissions 0
  end.

(** [a().await || b().await]: [b] runs only when [a] is false. *)
Definition or_else (a b : M S bool) : M S bool :=
  do x <- a; if (x : bool) then st_ret true else b.

Definition calculate_server_permissions : M S Z :=
  do all <- or_else are_we_privileged are_we_server_owner;
  if (all : bool) then st_ret (CP.value CP.GrantAllSafe) else
  do member <- are_we_a_member;
  if negb member then st_ret 0 else
  do default_permissions <- get_default_server_permissions;
  do role_overrides <- get_our_server_role_overrides;
  let permissions := foldl PV.apply default_permissions role_overrides in
  do publish <- do_we_have_publish_overwrites;
  let permissions :=
    if negb publish
    then PV.revoke (PV.revoke permissions (CP.value CP.Speak)) (CP.value CP.Video)
    else permissions in
  do receive <- do_we_have_receive_overwrites;
  let permissions :=
    if negb receive then PV.revoke permissions (CP.value CP.Listen) else permissions in
  do timed_out <- are_we_timed_out;
  st_ret (if (timed_out : bool) then PV.restrict permissions ALLOW_IN_TIMEOUT else permissions).

Definition calculate_channel_permissions : M S Z :=
  do privileged <- are_we_privileged;
  if (privileged : bool) then st_ret (CP.value CP.GrantAllSafe) else
  do channel_type <- get_channel_type;
  match channel_type with
  | SavedMessages =>
      do owned <- do_we_own_the_channel;
      st_ret (if (owned : bool) then DEFAULT_PERMISSION_SAVED_MESSAGES else 0)
  | DirectMessage =>
      do part <- are_we_part_of_the_channel;
      if (part : bool) then
        do _ <- set_recipient_as_user;
        do permissions <- calculate_user_permissions;
        st_ret (if PV.has_user_permission permissions UP.SendMessage
              then DEFAULT_PERMISSION_DIRECT_MESSAGE
              else DEFAULT_PERMISSION_VIEW_ONLY)
      else st_ret 0
  | Group =>
      do owned <- do_we_own_the_channel;
      if (owned : bool) then st_ret (CP.value CP.GrantAllSafe) else
      do part <- are_we_part_of_the_channel;
      if (part : bool) then
        do default_permissions <- get_default_channel_permissions;
        st_ret (Z.lor DEFAULT_PERMISSION_VIEW_ONLY (Override.allow default_permissions))
      else st_ret 0
  | ServerChannel =>
      do _ <- set_server_from_channel;
      do owner <- are_we_server_owner;
      if (owner : bool) then st_ret (CP.value CP.GrantAllSafe) else
      do member <- are_we_a_member;
      if (member : bool) then
        do permissions <- calculate_server_permissions;
        do default_permissions <- get_default_channel_permissions;
        let permissions := PV.apply permissions default_permissions in
        do role_overrides <- get_our_channel_role_overrides;
        let permissions := foldl PV.apply permissions role_overrides in
        do timed_out <- are_we_timed_out;
        let permissions :=
          if (timed_out : bool) then PV.restrict permissions ALLOW_IN_TIMEOUT
          else permissions in
        st_ret (if negb (PV.has_channel_permission permissions CP.ViewChannel)
              then PV.revoke_all permissions else permissions)
      else st_ret 0
  | UnknownType => st_ret 0
  end.

End Calculators.

(** ** What the calculators promise

    [Facts] are the answers to the trait's questions for one choice of user
    and server; the specification is a pure function of them. *)
Record Facts : Type := {
  f_privileged : bool;
  f_same : bool;
  f_relationship : RelationshipStatus.t;
  f_mutual : bool;
  f_owner : bool;
  f_member : bool;
  f_default_server : Z;
  f_server_roles : list Override.t;
  f_timed_out : bool;
  f_publish : bool;
  f_receive : bool;
  f_channel_type : ChannelType;
  f_default_channel : Override.t;
  f_channel_roles : list Override.t;
  f_owns_channel : bool;
  f_part : bool;
}.

Definition spec_user (F : Facts) : Z :=
  if f_privileged F || f_same F then u64_max else
  match f_relationship F with
  | RelationshipStatus.Friend => u64_max
  | RelationshipStatus.Blocked | RelationshipStatus.BlockedOther => 1
  | RelationshipStatus.Incoming | RelationshipStatus.Outgoing => if f_mutual F then 7 else 1
  | _ => if f_mutual F then 7 else 0
  end.

(** Bits a member loses to a server mute, a server deafen and a timeout. *)
Definition voice_mask (F : Facts) : Z :=
  Z.lor (if f_publish F then 0 else Z.lor (CP.value CP.Speak) (CP.value CP.Video))
        (if f_receive F then 0 else CP.value CP.Listen).

Definition timeout_mask (F : Facts) (p : Z) : Z :=
  if f_timed_out F then Z.land p ALLOW_IN_TIMEOUT else p.

Definition spec_server (F : Facts) : Z :=
  if f_privileged F || f_owner F then CP.value CP.GrantAllSafe
  else if negb (f_member F) then 0
  else timeout_mask F
         (PV.revoke (foldl PV.apply (f_default_server F) (f_server_roles F)) (voice_mask F)).

(** A server channel: the server's value, then the channel's overrides,
    everything or nothing according to [ViewChannel]. *)
Definition spec_server_channel (F : Facts) : Z :=
  if f_privileged F || f_owner F then CP.value CP.GrantAllSafe
  else if negb (f_member F) then 0
  else
    let p := timeout_mask F
      (foldl PV.apply (spec_server F) (f_default_channel F :: f_channel_roles F)) in
    if PV.has_channel_permission p CP.ViewChannel then p else 0.

(** The values have their machine types. *)
Definition facts_wf (F : Facts) : Prop :=
  is_u64 (f_default_server F) /\ Override.wf (f_default_channel F) /\
  Forall Override.wf (f_server_roles F) /\ Forall Override.wf (f_channel_roles F).

(** What a lawful query answers.  [resolved] says the membership has been
    looked up, which the calculators do before they ask about it. *)
Class LawfulQuery (S : Type) `{PermissionQuery S} := {
  facts : S -> Facts;
  resolved : S -> Prop;
  law_wf s : facts_wf (facts s);
  law_privileged s : are_we_privileged s = Some (f_privileged (facts s), s);
  law_same s : are_the_users_same s = Some (f_same (facts s), s);
  law_relationship s : user_relationship s = Some (f_relationship (facts s), s);
  law_mutual s : exists s', have_mutual_connection s = Some (f_mutual (facts s), s');
  law_owner s : are_we_server_owner s = Some (f_owner (facts s), s);
  law_member s : exists s', are_we_a_member s = Some (f_member (facts s), s') /\
    facts s' = facts s /\ (f_member (facts s) = true -> resolved s');
  law_default_server s :
    get_default_server_permissions s = Some (f_default_server (facts s), s);
  law_server_roles s : resolved s ->
    get_our_server_role_overrides s = Some (f_server_roles (facts s), s);
  law_timed_out s : resolved s -> are_we_timed_out s = Some (f_timed_out (facts s), s);
  law_publish s : resolved s ->
    do_we_have_publish_overwrites s = Some (f_publish (facts s), s);
  law_receive s : resolved s ->
    do_we_have_receive_overwrites s = Some (f_receive (facts s), s);
  law_channel_type s : get_channel_type s = Some (f_channel_type (facts s), s);
  law_default_channel s :
    get_default_channel_permissions s = Some (f_default_channel (facts s), s);
  law_channel_roles s : resolved s ->
    get_our_channel_role_overrides s = Some (f_channel_roles (facts s), s);
  law_owns_channel s : do_we_own_the_channel s = Some (f_owns_channel (facts s), s);
  law_part s : are_we_part_of_the_channel s = Some (f_part (facts s), s);
  law_set_recipient s s' : set_recipient_as_user s = Some (tt, s') ->
    f_privileged (facts s') = f_privileged (facts s);
  law_set_server s s' : set_server_from_channel s = Some (tt, s') ->
    f_privileged (facts s') = f_privileged (facts s);
}.

(** Rewriting one effect at a time with what the interface says of it. *)
Ltac query_step :=
  match goal with
  | |- context [st_bind ?c ?k ?s] => unfold st_bind at 1
  end;
  rewrite ?law_privileged, ?law_same, ?law_relationship, ?law_owner, ?law_default_server,
    ?law_channel_type, ?law_default_channel, ?law_owns_channel, ?law_part;
  rewrite ?law_server_roles, ?law_timed_out, ?law_publish, ?law_receive,
    ?law_channel_roles by done;
  cbv beta iota.

Section Refinement.
Context {S : Type} `{LawfulQuery S}.

Lemma finish_user_refines p s : exists s',
  finish_user_permissions p s = Some (if f_mutual (facts s) then 7 else p, s').
Proof.
  unfold finish_user_permissions, st_bind. destruct (law_mutual s) as [s' ->].
  exists s'. by destruct (f_mutual (facts s)).
Qed.

Lemma calculate_user_refines s : exists s',
  calculate_user_permissions s = Some (spec_user (facts s), s').
Proof.
  unfold calculate_user_permissions, spec_user. query_step.
  destruct (f_privileged (facts s)); [by exists s|]. query_step.
  destruct (f_same (facts s)); [by exists s|]. query_step.
  destruct (f_relationship (facts s)); try (by exists s);
    edestruct finish_user_refines as [s' ->]; exists s'; by destruct (f_mutual (facts s)).
Qed.
End Refinement.

(** ** Bits of a permission value *)

Lemma apply_wf p o : is_u64 p -> Override.wf o -> is_u64 (PV.apply p o).
Proof.
  intros Hp [Ha Hd]. unfold PV.apply, PV.revoke, PV.allow.
  apply is_u64_land_l; [by apply is_u64_lor|]. pose proof (is_u64_not (Override.deny o)).
  int_solve.
Qed.

Lemma foldl_apply_wf os p :
  is_u64 p -> Forall Override.wf os -> is_u64 (foldl PV.apply p os).
Proof.
  revert p. induction os as [|o os IH]; intros p Hp Hos; [done|].
  inversion Hos; subst. simpl. apply IH; [by apply apply_wf | done].
Qed.

Lemma revoke_wf p v : is_u64 p -> is_u64 (PV.revoke p v).
Proof.
  intros Hp. apply is_u64_land_l; [done|]. pose proof (is_u64_not v). int_solve.
Qed.

Lemma restrict_wf p v : is_u64 p -> 0 <= v -> is_u64 (PV.restrict p v).
Proof. apply is_u64_land_l. Qed.

Lemma revoke_0 p : is_u64 p -> PV.revoke p 0 = p.
Proof.
  intros Hp. apply u64_bits_inj; [by apply revoke_wf | done |]. intros i Hi.
  unfold PV.revoke. rewrite Z.land_spec, not_u64_spec, Z.testbit_0_l by lia.
  apply andb_true_r.
Qed.

Lemma revoke_revoke p a b : PV.revoke (PV.revoke p a) b = PV.revoke p (Z.lor a b).
Proof.
  unfold PV.revoke, not_u64. rewrite <- Z.land_assoc. f_equal.
  apply Z.bits_inj'. intros i Hi.
  rewrite !Z.land_spec, !Z.lnot_spec, Z.lor_spec by lia.
  by destruct (Z.testbit a i), (Z.testbit b i), (Z.testbit (Z.ones 64) i).
Qed.

(** One override decides a bit: deny, else allow, else what was there. *)
Lemma apply_bit p o i : 0 <= i < 64 ->
  Z.testbit (PV.apply p o) i =
  (Z.testbit p i || Z.testbit (Override.allow o) i) && negb (Z.testbit (Override.deny o) i).
Proof.
  intros Hi. unfold PV.apply, PV.revoke, PV.allow.
  by rewrite Z.land_spec, Z.lor_spec, not_u64_spec.
Qed.

Lemma has_spec p v : 0 <= v ->
  PV.has p v = true <-> (forall i, 0 <= i -> Z.testbit v i = true -> Z.testbit p i = true).
Proof. intros Hv. unfold PV.has. rewrite Z.eqb_eq. apply land_eq_subset. Qed.

#[export] Hint Resolve apply_wf foldl_apply_wf revoke_wf restrict_wf : sloga.

Section Refinement2.
Context {S : Type} `{LawfulQuery S}.

Lemma server_value_wf F :
  facts_wf F ->
  is_u64 (foldl PV.apply (f_default_server F) (f_server_roles F)).
Proof. intros (? & ? & ? & ?). by apply foldl_apply_wf. Qed.

Lemma voice_mask_correct F p :
  is_u64 p ->
  (if negb (f_receive F) then
     PV.revoke
       (if negb (f_publish F)
        then PV.revoke (PV.revoke p (CP.value CP.Speak)) (CP.value CP.Video) else p)
       (CP.value CP.Listen)
   else
     if negb (f_publish F)
     then PV.revoke (PV.revoke p (CP.value CP.Speak)) (CP.value CP.Video) else p)
  = PV.revoke p (voice_mask F).
Proof.
  intros Hp. unfold voice_mask.
  destruct (f_publish F), (f_receive F); simpl negb; cbv iota;
    rewrite ?revoke_revoke, ?Z.lor_0_l, ?Z.lor_0_r, ?revoke_0; done.
Qed.

Lemma calculate_server_refines s : exists s',
  calculate_server_permissions s = Some (spec_server (facts s), s') /\
  facts s' = facts s /\
  (f_privileged (facts s) = false -> f_owner (facts s) = false ->
   f_member (facts s) = true -> resolved s').
Proof.
  pose proof (server_value_wf _ (law_wf s)) as Hwf.
  unfold calculate_server_permissions, spec_server, or_else.
  unfold st_bind at 1 2. rewrite law_privileged.
  destruct (f_privileged (facts s)); [exists s; done|]. rewrite law_owner.
  destruct (f_owner (facts s)); [exists s; done|]. cbv beta iota. unfold st_bind at 1.
  destruct (law_member s) as (s1 & -> & E1 & Hr).
  destruct (f_member (facts s)) eqn:Em; [|exists s1; done].
  specialize (Hr eq_refl). cbn [negb orb].
  do 5 query_step. rewrite E1 in *. exists s1. unfold st_ret.
  rewrite voice_mask_correct by done. unfold timeout_mask, PV.restrict.
  by destruct (f_timed_out (facts s)).
Qed.

Lemma calculate_server_channel_refines s s1 :
  f_channel_type (facts s) = ServerChannel ->
  set_server_from_channel s = Some (tt, s1) ->
  exists s', calculate_channel_permissions s = Some (spec_server_channel (facts s1), s').
Proof.
  intros Hct Hset. pose proof (law_set_server s s1 Hset) as Hp.
  unfold calculate_channel_permissions, spec_server_channel. query_step. rewrite Hp.
  destruct (f_privileged (facts s)); [by exists s|]. query_step. rewrite Hct.
  unfold st_bind at 1. rewrite Hset. query_step.
  destruct (f_owner (facts s1)) eqn:Eo; [by exists s1|]. unfold st_bind at 1.
  destruct (law_member s1) as (s2 & -> & E2 & Hr).
  destruct (f_member (facts s1)) eqn:Em; [|by exists s2]. cbn [negb orb].
  unfold st_bind at 1. destruct (calculate_server_refines s2) as (s3 & -> & E3 & Hr3).
  rewrite E2 in *. assert (resolved s3) by (apply Hr3; congruence).
  do 3 query_step. rewrite E3. exists s3. unfold st_ret, timeout_mask, PV.restrict. simpl.
  destruct (f_timed_out (facts s1)), (PV.has_channel_permission _ _); done.
Qed.
End Refinement2.

(** A query with fixed answers: the simplest lawful instance. *)
Record FixedQuery : Type := mkFixed { fixed : Facts; fixed_wf : facts_wf fixed }.

Definition answer {A} (f : Facts -> A) : M FixedQuery A := fun q => Some (f (fixed q), q).

#[export] Instance fixed_query : PermissionQuery FixedQuery := {|
  are_we_privileged := answer f_privileged;
  are_we_a_bot := answer (fun _ => false);
  are_the_users_same := answer f_same;
  user_relationship := answer f_relationship;
  user_is_bot := answer (fun _ => false);
  have_mutual_connection := answer f_mutual;
  are_we_server_owner := answer f_owner;
  are_we_a_member := answer f_member;
  get_default_server_permissions := answer f_default_server;
  get_our_server_role_overrides := answer f_server_roles;
  are_we_timed_out := answer f_timed_out;
  do_we_have_publish_overwrites := answer f_publish;
  do_we_have_receive_overwrites := answer f_receive;
  get_channel_type := answer f_channel_type;
  get_default_channel_permissions := answer f_default_channel;
  get_our_channel_role_overrides := answer f_channel_roles;
  do_we_own_the_channel := answer f_owns_channel;
  are_we_part_of_the_channel := answer f_part;
  set_recipient_as_user := answer (fun _ => tt);
  set_server_from_channel := answer (fun _ => tt);
|}.

#[export] Instance fixed_query_lawful : LawfulQuery FixedQuery.
Proof.
  refine {| facts := fixed; resolved := fun _ => True; law_wf := fixed_wf |};
    intros; try done; try (eexists; done);
    match goal with E : _ = Some _ |- _ => by injection E as <- end.
Defined.

(** ** Reading the specification *)

Definition channel_target (F Fsel : Facts) : Z :=
  if f_privileged F then CP.value CP.GrantAllSafe else
  match f_channel_type F with
  | SavedMessages => if f_owns_channel F then DEFAULT_PERMISSION_SAVED_MESSAGES else 0
  | DirectMessage =>
      if f_part F then
        if PV.has_user_permission (spec_user Fsel) UP.SendMessage
        then DEFAULT_PERMISSION_DIRECT_MESSAGE else DEFAULT_PERMISSION_VIEW_ONLY
      else 0
  | Group =>
      if f_owns_channel F then CP.value CP.GrantAllSafe
      else if f_part F
      then Z.lor DEFAULT_PERMISSION_VIEW_ONLY (Override.allow (f_default_channel F)) else 0
  | ServerChannel => spec_server_channel Fsel
  | UnknownType => 0
  end.

(** The state the calculation looks at after it selected a user or server. *)
Definition selects {S} `{PermissionQuery S} (s s1 : S) (ct : ChannelType) : Prop :=
  match ct with
  | DirectMessage => set_recipient_as_user s = Some (tt, s1)
  | ServerChannel => set_server_from_channel s = Some (tt, s1)
  | _ => s1 = s
  end.

(** The channel calculator computes [channel_target] on every kind of channel
    for every lawful query, and never panics once the user or server is
    selected. *)
Lemma calculate_channel_refines {S} `{LawfulQuery S} (s s1 : S) :
  selects s s1 (f_channel_type (facts s)) ->
  exists s', calculate_channel_permissions s = Some (channel_target (facts s) (facts s1), s').
Proof.
  intros Hsel. unfold channel_target. destruct (f_channel_type (facts s)) eqn:Hct;
    simpl in Hsel.
  4: { destruct (calculate_server_channel_refines s s1 Hct Hsel) as [s' ->]. exists s'.
       unfold spec_server_channel. rewrite (law_set_server s s1 Hsel).
       by destruct (f_privileged (facts s)). }
  all: unfold calculate_channel_permissions; query_step;
    destruct (f_privileged (facts s)) eqn:Ep; [by exists s|]; query_step; rewrite Hct.
  - query_step. by exists s.
  - query_step. destruct (f_part (facts s)); [|by exists s].
    unfold st_bind at 1. rewrite Hsel. unfold st_bind at 1.
    destruct (calculate_user_refines s1) as [s2 ->]. by exists s2.
  - query_step. destruct (f_owns_channel (facts s)); [by exists s|]. query_step.
    destruct (f_part (facts s)); [|by exists s]. query_step. by exists s.
  - by exists s.
Qed.

(** A member of a text channel with one role, used by the witnesses. *)
Definition sample_facts (timed_out publish : bool) (channel : Override.t) : Facts := {|
  f_privileged := false; f_same := false; f_relationship := RelationshipStatus.None;
  f_mutual := false; f_owner := false; f_member := true;
  f_default_server := DEFAULT_PERMISSION_SERVER;
  f_server_roles := [Override.mk (CP.value CP.ManageMessages) 0];
  f_timed_out := timed_out; f_publish := publish; f_receive := true;
  f_channel_type := ServerChannel; f_default_channel := channel; f_channel_roles := [];
  f_owns_channel := false; f_part := false;
|}.

Lemma sample_wf t p c : Override.wf c -> facts_wf (sample_facts t p c).
Proof.
  intros Hc. split; [|split]; [vm_compute; split; discriminate | done |].
  split; repeat constructor; vm_compute; discriminate.
Qed.

Lemma default_override_wf : Override.wf Override.default.
Proof. vm_compute. repeat split; discriminate. Qed.

Definition sample_query (t p : bool) : FixedQuery :=
  mkFixed (sample_facts t p Override.default) (sample_wf t p _ default_override_wf).

Lemma timeout_mask_sub F p :
  f_timed_out F = true -> Z.land (timeout_mask F p) ALLOW_IN_TIMEOUT = timeout_mask F p.
Proof.
  intros E. unfold timeout_mask. rewrite E, <- Z.land_assoc. f_equal.
Qed.

Lemma grant_all_safe_wf : is_u64 (CP.value CP.GrantAllSafe).
Proof. vm_compute. split; discriminate. Qed.

Lemma zero_wf : is_u64 0.
Proof. vm_compute. split; discriminate. Qed.

Lemma timeout_mask_wf F p : is_u64 p -> is_u64 (timeout_mask F p).
Proof.
  intros Hp. unfold timeout_mask. case_match; [|done].
  apply restrict_wf; [done | vm_compute; discriminate].
Qed.

#[export] Hint Resolve grant_all_safe_wf zero_wf timeout_mask_wf : sloga.

Lemma spec_server_wf F : facts_wf F -> is_u64 (spec_server F).
Proof.
  intros HF. unfold spec_server.
  case_match; [apply grant_all_safe_wf|]. case_match; [apply zero_wf|].
  by apply timeout_mask_wf, revoke_wf, server_value_wf.
Qed.

(** A timed-out member holds at most [ViewChannel] and [ReadMessageHistory],
    on the server and in each of its channels, whatever the roles and the
    channel's overrides grant. *)
Theorem timeout_restricts {S} `{LawfulQuery S} (s s1 s' : S) (v : Z) :
  f_privileged (facts s) = false ->
  f_channel_type (facts s) = ServerChannel ->
  set_server_from_channel s = Some (tt, s1) ->
  f_owner (facts s1) = false ->
  f_timed_out (facts s1) = true ->
  calculate_channel_permissions s = Some (v, s') ->
  Z.land v ALLOW_IN_TIMEOUT = v /\
  exists w s2, calculate_server_permissions s1 = Some (w, s2) /\
    Z.land w ALLOW_IN_TIMEOUT = w.
Proof.
  intros Hp Hct Hset Ho Ht Hc. pose proof (law_set_server s s1 Hset) as Hp1.
  destruct (calculate_server_channel_refines s s1 Hct Hset) as [s2 E].
  rewrite E in Hc. injection Hc as <- <-.
  destruct (calculate_server_refines s1) as (s3 & Es & _). rewrite Es.
  enough (Z.land (spec_server_channel (facts s1)) ALLOW_IN_TIMEOUT = spec_server_channel (facts s1) /\
    Z.land (spec_server (facts s1)) ALLOW_IN_TIMEOUT = spec_server (facts s1)) as [? ?]
    by (split; [done|]; by eexists _, _).
  unfold spec_server_channel, spec_server. rewrite Hp1, Hp, Ho. cbn [orb].
  destruct (f_member (facts s1)); [|done]. cbn [negb].
  split; [|by apply timeout_mask_sub]. case_match; [by apply timeout_mask_sub | done].
Qed.

Lemma timeout_restricts_witness :
  exists v s', calculate_channel_permissions (sample_query true true) = Some (v, s') /\
    Z.land v ALLOW_IN_TIMEOUT = v /\
    exists w s2, calculate_server_permissions (sample_query true true) = Some (w, s2) /\
      Z.land w ALLOW_IN_TIMEOUT = w.
Proof.
  destruct (calculate_channel_permissions (sample_query true true)) as [[v s']|] eqn:E;
    [|vm_compute in E; discriminate E].
  exists v, s'. split; [reflexivity|].
  exact (timeout_restricts (sample_query true true) (sample_query true true)
           s' v eq_refl eq_refl eq_refl eq_refl eq_refl E).
Defined.

(** Without privilege or ownership the value of a server channel is either
    nothing at all or includes [ViewChannel]; a non-member gets nothing; the
    value is a [u64]. *)
Theorem server_channel_view_gate {S} `{LawfulQuery S} (s s1 s' : S) (v : Z) :
  f_privileged (facts s) = false ->
  f_channel_type (facts s) = ServerChannel ->
  set_server_from_channel s = Some (tt, s1) ->
  f_owner (facts s1) = false ->
  calculate_channel_permissions s = Some (v, s') ->
  is_u64 v /\
  (v = 0 \/ PV.has_channel_permission v CP.ViewChannel = true) /\
  (f_member (facts s1) = false -> v = 0).
Proof.
  intros Hp Hct Hset Ho Hc. pose proof (law_set_server s s1 Hset) as Hp1.
  destruct (calculate_server_channel_refines s s1 Hct Hset) as [s2 E].
  rewrite E in Hc. injection Hc as <- <-. pose proof (law_wf s1) as Hwf.
  pose proof (spec_server_wf _ Hwf) as Hs. destruct Hwf as (? & Hd & ? & Hr).
  unfold spec_server_channel. rewrite Hp1, Hp, Ho. cbn [orb].
  destruct (f_member (facts s1)); cbn [negb]; [|auto with sloga].
  split; [|split; [case_match; auto | done]].
  case_match; [|apply zero_wf].
  apply timeout_mask_wf, foldl_apply_wf; [done | by constructor].
Qed.

Lemma server_channel_view_gate_witness :
  let v := channel_target (sample_facts false true Override.default)
             (sample_facts false true Override.default) in
  is_u64 v /\ (v = 0 \/ PV.has_channel_permission v CP.ViewChannel = true) /\
  (true = false -> v = 0).
Proof.
  exact (server_channel_view_gate (sample_query false true) (sample_query false true)
           (sample_query false true) _ eq_refl eq_refl eq_refl eq_refl eq_refl).
Defined.

(** What the last override that mentions a bit says about it. *)
Definition last_word (i : Z) (os : list Override.t) : option bool :=
  foldl (fun acc o =>
    if Z.testbit (Override.deny o) i then Some false
    else if Z.testbit (Override.allow o) i then Some true else acc) None os.

Lemma foldl_apply_last_word (p : Z) (os : list Override.t) (i : Z) :
  0 <= i < 64 ->
  Z.testbit (foldl PV.apply p os) i = default (Z.testbit p i) (last_word i os).
Proof.
  intros Hi. unfold last_word. induction os as [|o os IH] using rev_ind; [done|].
  rewrite !foldl_app. simpl. rewrite apply_bit, IH by done.
  destruct (Z.testbit (Override.deny o) i), (Z.testbit (Override.allow o) i);
    rewrite ?andb_true_r, ?andb_false_r, ?orb_true_r, ?orb_false_r; done.
Qed.

(** [throw_permission_override] lets through only changes that cannot give
    anyone a bit the editor lacks: a bit of any base value that the new
    override grants and the old one did not is held by the editor. *)
Theorem override_edit_no_escalation (editor base : Z) (cur : option Override.t)
    (next : Override.t) (i : Z) :
  0 <= i < 64 ->
  Override.wf next ->
  (forall o, cur = Some o -> Override.wf o) ->
  PV.throw_permission_override editor cur next = Ok tt ->
  Z.testbit (PV.apply base next) i = true ->
  Z.testbit (PV.apply base (default Override.default cur)) i = false ->
  Z.testbit editor i = true.
Proof.
  intros Hi [Hna Hnd] Hcur Hok Hafter Hbefore.
  rewrite apply_bit in Hafter, Hbefore by done.
  destruct cur as [cur|]; unfold PV.throw_permission_override in Hok; simpl in Hbefore.
  - destruct (Hcur cur eq_refl) as [Hca Hcd]. inv_op Hok. to_prop.
    destruct Heqb as [H1 H2]. pose proof (is_u64_not (Override.allow cur)).
    pose proof (is_u64_not (Override.deny next)).
    rewrite has_spec in H1 by (apply Z.land_nonneg; int_solve).
    rewrite has_spec in H2 by (apply Z.land_nonneg; int_solve).
    specialize (H1 i). specialize (H2 i).
    rewrite Z.land_spec, not_u64_spec in H1, H2 by done.
    destruct (Z.testbit (Override.deny cur) i), (Z.testbit (Override.allow cur) i),
      (Z.testbit (Override.allow next) i), (Z.testbit (Override.deny next) i),
      (Z.testbit base i); simpl in *; intuition (congruence || lia).
  - rewrite Z.testbit_0_l in Hbefore. inv_op Hok. to_prop. rewrite has_spec in Heqb by int_solve. specialize (Heqb i).
    destruct (Z.testbit (Override.allow next) i), (Z.testbit (Override.deny next) i),
      (Z.testbit base i); simpl in *; intuition (congruence || lia).
Qed.

Lemma override_edit_no_escalation_witness : Z.testbit 4 2 = true.
Proof.
  apply (override_edit_no_escalation 4 0 (Some (Override.mk 0 0)) (Override.mk 4 0) 2);
    [lia | vm_compute; repeat split; discriminate
    | intros o [= <-]; vm_compute; repeat split; discriminate | reflexivity | reflexivity
    | reflexivity].
Defined.

(** Overrides survive the trip through their stored form, both ways. *)
Theorem override_field_roundtrip (o : Override.t) (f : OverrideField.t) :
  Override.wf o -> OverrideField.wf f ->
  field_to_override (override_to_field o) = o /\
  override_to_field (field_to_override f) = f /\
  OverrideField.wf (override_to_field o) /\ Override.wf (field_to_override f).
Proof.
  intros [Ha Hd] [Hfa Hfd]. destruct o, f. unfold override_to_field, field_to_override.
  simpl in *. rewrite !as_u64_as_i64, !as_i64_as_u64 by done.
  repeat split; apply as_u64_range || apply as_i64_range.
Qed.

Lemma override_field_roundtrip_witness :
  field_to_override (override_to_field (Override.mk u64_max 5)) = Override.mk u64_max 5 /\
  override_to_field (field_to_override (OverrideField.mk (-1) 5)) = OverrideField.mk (-1) 5 /\
  OverrideField.wf (override_to_field (Override.mk u64_max 5)) /\
  Override.wf (field_to_override (OverrideField.mk (-1) 5)).
Proof.
  apply override_field_roundtrip; vm_compute; repeat split; discriminate.
Defined.

(** A block hides everything but the account's existence: with a blocked
    relationship (either direction) nobody but a privileged caller or the user
    themselves can message or see the profile, mutual servers or not. *)
Theorem blocked_user_permissions {S} `{LawfulQuery S} (s : S) :
  f_privileged (facts s) = false -> f_same (facts s) = false ->
  f_relationship (facts s) = RelationshipStatus.Blocked \/
  f_relationship (facts s) = RelationshipStatus.BlockedOther ->
  exists v s', calculate_user_permissions s = Some (v, s') /\
    PV.has_user_permission v UP.Access = true /\
    PV.has_user_permission v UP.SendMessage = false /\
    PV.has_user_permission v UP.ViewProfile = false.
Proof.
  intros Hp Hs Hr. destruct (calculate_user_refines s) as [s' E].
  exists (spec_user (facts s)), s'. split; [done|]. unfold spec_user. rewrite Hp, Hs.
  by destruct Hr as [-> | ->].
Qed.

Definition blocked_query : FixedQuery.
Proof.
  refine (mkFixed {|
    f_privileged := false; f_same := false;
    f_relationship := RelationshipStatus.BlockedOther; f_mutual := true;
    f_owner := false; f_member := false; f_default_server := 0; f_server_roles := [];
    f_timed_out := false; f_publish := true; f_receive := true;
    f_channel_type := UnknownType; f_default_channel := Override.default;
    f_channel_roles := []; f_owns_channel := false; f_part := false |} _).
  repeat split; try constructor; vm_compute; discriminate.
Defined.

Lemma blocked_user_permissions_witness :
  exists v s', calculate_user_permissions blocked_query = Some (v, s') /\
    PV.has_user_permission v UP.Access = true /\
    PV.has_user_permission v UP.SendMessage = false /\
    PV.has_user_permission v UP.ViewProfile = false.
Proof.
  exact (blocked_user_permissions blocked_query eq_refl eq_refl (or_intror eq_refl)).
Defined.

(** A server mute does not bind in a channel whose override allows [Speak]:
    the calculator applies the channel's overrides after the mute, so the
    member holds [Speak] there although the server value lacks it. *)
Theorem mute_lifted_by_channel_override :
  exists q : FixedQuery,
    f_publish (facts q) = false /\ f_owner (facts q) = false /\
    (exists v s', calculate_server_permissions q = Some (v, s') /\
       PV.has_channel_permission v CP.Speak = false) /\
    (exists v s', calculate_channel_permissions q = Some (v, s') /\
       PV.has_channel_permission v CP.Speak = true).
Proof.
  assert (Override.wf (Override.mk (CP.value CP.Speak) 0)) as Hw
    by (vm_compute; repeat split; discriminate).
  set (q := mkFixed _ (sample_wf false false _ Hw)). exists q. split_and!; [done | done | |].
  - destruct (calculate_server_refines q) as (s' & E & _).
    eexists _, s'. split; [exact E | vm_compute; reflexivity].
  - destruct (calculate_server_channel_refines q q) as (s' & E); [reflexivity..|].
    eexists _, s'. split; [exact E | vm_compute; reflexivity].
Qed.

