(* ===== verification/Store.v ===== *)
(** * Users, servers, members and channels, and the in-memory database

    The documents of crates/core/database that permission calculation reads,
    with the fields some modelled operation uses, and the operations of the
    in-memory driver ([ReferenceDb]) on them: lookups, mutual connections and
    the role operations.  Each lock is taken and released within one
    operation, so an operation is one step on the [Db] record. *)

From stdpp Require Import base numbers list gmap strings.
From S2P Require Import Prelude Errors Permissions.
Open Scope Z_scope.

(** ** Documents *)

Record Relationship : Type := mkRelationship {
  rel_id : string;
  rel_status : RelationshipStatus.t;
}.

Record User : Type := mkUser {
  user_id : string;
  user_privileged : bool;
  user_bot_owner : option string;  (* [bot.owner], when the user is a bot *)
  user_relations : option (list Relationship);
}.

Record Role : Type := mkRole {
  role_id : string;
  role_name : string;
  role_permissions : OverrideField.t;
  role_colour : option string;
  role_hoist : bool;
  role_rank : Z;
}.

Record Server : Type := mkServer {
  server_id : string;
  server_owner : string;
  server_roles : gmap string Role;
  server_default_permissions : Z;
}.

Record Member : Type := mkMember {
  member_server : string;
  member_user : string;
  member_roles : list string;
  member_timeout : option Z;
  member_can_publish : bool;
  member_can_receive : bool;
}.

Module Channel.
Inductive t : Type :=
| SavedMessages (id user : string)
| DirectMessage (id : string) (recipients : list string)
| Group (id owner : string) (recipients : list string) (permissions : option Z)
| TextChannel (id server : string) (default_permissions : option OverrideField.t)
    (role_permissions : gmap string OverrideField.t)
| Thread (id server parent_channel : string)
| Forum (id server : string) (default_permissions : option OverrideField.t)
    (role_permissions : gmap string OverrideField.t).

Definition id (c : t) : string :=
  match c with
  | SavedMessages id _ | DirectMessage id _ | Group id _ _ _
  | TextChannel id _ _ _ | Thread id _ _ | Forum id _ _ _ => id
  end.
End Channel.

(** [Member::get_ranking]: the smallest rank of the member's roles, lower is
    higher; the owner outranks every role. *)
Definition get_ranking (m : Member) (s : Server) : Z :=
  if str_eqb (member_user m) (server_owner s) then i64_min
  else foldl (fun value rid =>
    match server_roles s !! rid with
    | Some role => if role_rank role <? value then role_rank role else value
    | None => value
    end) i64_max (member_roles m).

(** [Member::in_timeout], at time [now] *)
Definition in_timeout (now : Z) (m : Member) : bool :=
  match member_timeout m with Some timeout => now <? timeout | None => false end.

(** ** The database *)

Record Db : Type := mkDb {
  db_users : gmap string User;
  db_servers : gmap string Server;
  db_members : gmap (string * string) Member;   (* by server, user *)
  db_channels : gmap string Channel.t;
}.

Definition set_servers (d : Db) (s : gmap string Server) : Db :=
  mkDb (db_users d) s (db_members d) (db_channels d).

Definition fetch_user (d : Db) (id : string) : Result User :=
  ok_or (db_users d !! id) ErrorType.NotFound.

Definition fetch_server (d : Db) (id : string) : Result Server :=
  ok_or (db_servers d !! id) ErrorType.NotFound.

Definition fetch_member (d : Db) (server user : string) : Result Member :=
  ok_or (db_members d !! (server, user)) ErrorType.NotFound.

Section Mutual.
Context `{!HashIter string Channel.t, !HashIter (string * string) Member}.

Definition fetch_mutual_server_ids (d : Db) (user_a user_b : string) : Result (list string) :=
  let keys := hm_keys (db_members d) in
  let of_a := (List.filter (fun key => str_eqb key.2 user_a) keys).*1 in
  let mutual := (List.filter (fun key =>
      str_eqb key.2 user_b && existsb (str_eqb key.1) of_a) keys).*1 in
  Ok (sort_by str_leb mutual).

(** The ids of the groups and direct messages both users are in. *)
Definition mutual_channel_id (user_a user_b : string) (c : Channel.t) : option string :=
  match c with
  | Channel.Group id _ recipients _ | Channel.DirectMessage id recipients =>
      if existsb (str_eqb user_a) recipients && existsb (str_eqb user_b) recipients
      then Some id else None
  | _ => None
  end.

Definition fetch_mutual_channel_ids (d : Db) (user_a user_b : string) : Result (list string) :=
  Ok (sort_by str_leb (omap (mutual_channel_id user_a user_b) (hm_values (db_channels d)))).

(** [User::has_mutual_connection] *)
Definition has_mutual_connection (d : Db) (user_a user_b : string) : Result bool :=
  let? servers := fetch_mutual_server_ids d user_a user_b in
  match servers with
  | _ :: _ => Ok true
  | [] =>
      let? channels := fetch_mutual_channel_ids d user_a user_b in
      Ok (match channels with [] => false | _ => true end)
  end.

End Mutual.

(** ** Roles *)

Definition with_roles (s : Server) (roles : gmap string Role) : Server :=
  mkServer (server_id s) (server_owner s) roles (server_default_permissions s).

Definition insert_role (d : Db) (sid : string) (role : Role) : Db * Result unit :=
  match db_servers d !! sid with
  | Some server =>
      (set_servers d (<[sid := with_roles server (<[role_id role := role]> (server_roles server))]>
         (db_servers d)), Ok tt)
  | None => (d, Err ErrorType.NotFound)
  end.

Definition strip_role (sid rid : string) (m : Member) : Member :=
  if str_eqb (member_server m) sid then
    mkMember (member_server m) (member_user m)
      (List.filter (fun id => negb (str_eqb id rid)) (member_roles m))
      (member_timeout m) (member_can_publish m) (member_can_receive m)
  else m.

Definition strip_override (sid rid : string) (c : Channel.t) : Channel.t :=
  match c with
  | Channel.TextChannel id server dp rp =>
      if str_eqb server sid then Channel.TextChannel id server dp (delete rid rp) else c
  | Channel.Forum id server dp rp =>
      if str_eqb server sid then Channel.Forum id server dp (delete rid rp) else c
  | _ => c
  end.

Definition delete_role (d : Db) (sid rid : string) : Db * Result unit :=
  match db_servers d !! sid with
  | Some server =>
      match server_roles server !! rid with
      | Some _ =>
          (mkDb (db_users d)
             (<[sid := with_roles server (delete rid (server_roles server))]> (db_servers d))
             (strip_role sid rid <$> db_members d)
             (strip_override sid rid <$> db_channels d), Ok tt)
      | None => (d, Err ErrorType.NotFound)
      end
  | None => (d, Err ErrorType.NotFound)
  end.

(** [Role::create]; [new_id] is the generated ULID and [server] the caller's
    copy of the server. *)
Definition role_create (d : Db) (server : Server) (new_id name : string) : Db * Result Role :=
  let role := mkRole new_id name OverrideField.default None false
                (Z.of_nat (size (server_roles server))) in
  match insert_role d (server_id server) role with
  | (d', Ok _) => (d', Ok role)
  | (d', Err e) => (d', Err e)
  end.

(** [roles.get_mut(id).unwrap().rank = rank] over the enumerated new order *)
Fixpoint assign_ranks (rank : Z) (order : list string) (roles : gmap string Role)
    : option (gmap string Role) :=
  match order with
  | [] => Some roles
  | id :: order' =>
      match roles !! id with
      | Some r =>
          assign_ranks (rank + 1) order'
            (<[id := mkRole (role_id r) (role_name r) (role_permissions r) (role_colour r)
                       (role_hoist r) rank]> roles)
      | None => None
      end
  end.

(** [Server::set_role_ordering]; [None] is the panic of [unwrap].  The
    database keeps the server's other fields ([update_server] with only
    [roles] set). *)
Definition set_role_ordering (d : Db) (server : Server) (new_order : list string)
    : option (Db * Result unit) :=
  match assign_ranks 0 new_order (server_roles server) with
  | None => None
  | Some roles =>
      match db_servers d !! server_id server with
      | Some stored =>
          Some (set_servers d (<[server_id server := with_roles stored roles]> (db_servers d)),
                Ok tt)
      | None => Some (d, Err ErrorType.NotFound)
      end
  end.

(** No two roles of the server share a rank. *)
Definition ranks_distinct (roles : gmap string Role) : Prop :=
  forall i j r r', roles !! i = Some r -> roles !! j = Some r' ->
    role_rank r = role_rank r' -> i = j.

(** A server with two roles, for concrete inputs *)
Definition sample_role (id : string) (rank allow deny : Z) : Role :=
  mkRole id id (OverrideField.mk allow deny) None false rank.

Definition sample_server : Server :=
  mkServer "s" "owner"
    (<["a" := sample_role "a" 0 0 4]> (<["b" := sample_role "b" 1 4 0]> ∅)) 0.

(** ** Theorems *)

(** Deleting a role leaves no trace of it in the server: no member of the
    server lists it and no channel of the server has an override for it.
    Every other role stays where it was: members still hold it, servers still
    have it unchanged, and other servers keep even a role of the same id. *)
Theorem delete_role_removes_references (d d' : Db) (sid rid : string) :
  delete_role d sid rid = (d', Ok tt) ->
  (forall s, db_servers d' !! sid = Some s -> server_roles s !! rid = None) /\
  (forall k m, db_members d' !! k = Some m -> member_server m = sid -> rid ∉ member_roles m) /\
  (forall c id dp rp, db_channels d' !! c = Some (Channel.TextChannel id sid dp rp) \/
     db_channels d' !! c = Some (Channel.Forum id sid dp rp) -> rp !! rid = None) /\
  (forall k m r, db_members d !! k = Some m -> member_server m <> sid \/ r <> rid ->
     exists m', db_members d' !! k = Some m' /\ (r ∈ member_roles m' <-> r ∈ member_roles m)) /\
  (forall s r, s <> sid \/ r <> rid ->
     (fun x => server_roles x !! r) <$> db_servers d' !! s =
     (fun x => server_roles x !! r) <$> db_servers d !! s).
Proof.
  unfold delete_role. intros H. inv_op H. split_and!; simpl.
  - intros s' Hs. by simplify_map_eq.
  - intros k m Hm Hsid. apply lookup_fmap_Some in Hm as (m0 & <- & Hm0).
    unfold strip_role in *. destruct (str_eqb (member_server m0) sid) eqn:E; simpl in *.
    + intros [Hneg _]%elem_of_filter_bool. by rewrite str_eqb_refl in Hneg.
    + apply str_eqb_neq in E. done.
  - intros c id dp rp Hc. rewrite !lookup_fmap in Hc.
    destruct (db_channels d !! c) as [[]|]; destruct Hc as [Hc|Hc]; simpl in Hc; try done;
      case_match eqn:E; simplify_eq; try apply lookup_delete_eq;
      by rewrite str_eqb_refl in E.
  - intros k m x Hm Hne. rewrite lookup_fmap, Hm. simpl. eexists. split; [done|].
    unfold strip_role. destruct (str_eqb (member_server m) sid) eqn:E; [|done].
    apply str_eqb_eq in E. destruct Hne as [Hne|Hne]; [done|]. simpl.
    rewrite elem_of_filter_bool. apply str_eqb_neq in Hne as ->. naive_solver.
  - intros s0 x Hne. destruct (decide (s0 = sid)) as [->|Hs].
    + destruct Hne as [?|Hne]; [done|]. by simplify_map_eq.
    + by rewrite lookup_insert_ne.
Qed.

Lemma delete_role_removes_references_witness :
  exists d', delete_role (mkDb ∅ {[ "s"%string := sample_server ]}
      {[ ("s", "u")%string := mkMember "s" "u" ["b"; "a"] None true true ]}
      {[ "c"%string := Channel.TextChannel "c" "s" None {[ "a"%string := OverrideField.mk 1 2 ]} ]})
      "s" "a" = (d', Ok tt) /\
    (forall k m, db_members d' !! k = Some m -> member_server m = "s"%string ->
       "a"%string ∉ member_roles m).
Proof.
  eexists. split; [reflexivity|].
  eapply (delete_role_removes_references
    (mkDb ∅ {[ "s"%string := sample_server ]}
      {[ ("s", "u")%string := mkMember "s" "u" ["b"; "a"] None true true ]}
      {[ "c"%string := Channel.TextChannel "c" "s" None {[ "a"%string := OverrideField.mk 1 2 ]} ]})
    _ "s" "a"). reflexivity.
Defined.

(** ** Reordering roles *)

Lemma assign_ranks_lookup (order : list string) : forall rank roles roles' id,
  NoDup order -> assign_ranks rank order roles = Some roles' ->
  roles' !! id = match list_find (eq id) order with
                 | Some (n, _) => (fun r => mkRole (role_id r) (role_name r) (role_permissions r)
                     (role_colour r) (role_hoist r) (rank + Z.of_nat n)) <$> roles !! id
                 | None => roles !! id
                 end.
Proof.
  induction order as [|x order IH]; intros rank roles roles' id Hnd H; simpl in *; [congruence|].
  apply NoDup_cons in Hnd as [Hx Hnd]. destruct (roles !! x) as [r|] eqn:Ex; [|done].
  rewrite (IH _ _ _ id Hnd H). destruct (decide (id = x)) as [->|Hne].
  - assert (list_find (eq x) order = None) as ->.
    { apply list_find_None, Forall_forall. intros y Hy <-. done. }
    rewrite lookup_insert_eq, Ex. simpl. by rewrite Z.add_0_r.
  - rewrite lookup_insert_ne by done.
    destruct (list_find (eq id) order) as [[n y]|]; simpl; [|done].
    destruct (roles !! id); simpl; [|done]. do 2 f_equal. lia.
Qed.

Lemma assign_ranks_total (order : list string) : forall rank roles,
  (forall id, id ∈ order -> is_Some (roles !! id)) ->
  is_Some (assign_ranks rank order roles).
Proof.
  induction order as [|x order IH]; intros rank roles Hin; simpl; [eauto|].
  destruct (Hin x) as [r Hr]; [left|]. rewrite Hr. apply IH.
  intros id Hid. rewrite lookup_insert. case_decide; [eauto|]. apply Hin. by right.
Qed.

(** Reordering the roles of a stored server by a complete order without
    repetitions does not panic, stores ranks equal to the positions in the
    order, changes nothing else of any role, and leaves the ranks pairwise
    distinct, whatever they were before. *)
Theorem set_role_ordering_spec (d : Db) (server stored : Server) (order : list string) :
  NoDup order ->
  (forall id, id ∈ order <-> is_Some (server_roles server !! id)) ->
  db_servers d !! server_id server = Some stored ->
  exists roles, set_role_ordering d server order =
      Some (set_servers d (<[server_id server := with_roles stored roles]> (db_servers d)), Ok tt) /\
    ranks_distinct roles /\
    (forall n id r, order !! n = Some id -> server_roles server !! id = Some r ->
       roles !! id = Some (mkRole (role_id r) (role_name r) (role_permissions r)
         (role_colour r) (role_hoist r) (Z.of_nat n))) /\
    (forall id, roles !! id = None <-> server_roles server !! id = None).
Proof.
  intros Hnd Hall Hst.
  destruct (assign_ranks_total order 0 (server_roles server)) as [roles Hr];
    [by intros; apply Hall|].
  exists roles. unfold set_role_ordering. rewrite Hr, Hst.
  pose proof (fun id => assign_ranks_lookup order 0 (server_roles server) roles id Hnd Hr) as Hl.
  assert (forall id r', roles !! id = Some r' -> exists n, order !! n = Some id /\ role_rank r' = Z.of_nat n) as Hpos.
  { intros id r' Hid. rewrite Hl in Hid.
    destruct (list_find (eq id) order) as [[n y]|] eqn:Ef.
    - apply list_find_Some in Ef as (Hn & <- & _).
      destruct (server_roles server !! id); simplify_eq/=. exists n. split; [done|]. simpl. lia.
    - exfalso. apply list_find_None in Ef. rewrite Forall_forall in Ef.
      apply (Ef id); [|done]. apply Hall. eauto. }
  split; [done|]. split_and!.
  - intros i j r r' Hi Hj E. apply Hpos in Hi as (n & Hn & En), Hj as (k & Hk & Ek).
    assert (n = k) as -> by lia. congruence.
  - intros n id r Hn Hid. rewrite Hl, Hid.
    destruct (list_find (eq id) order) as [[k y]|] eqn:Ef.
    + apply list_find_Some in Ef as (Hk & <- & _). simpl.
      assert (k = n) as -> by (eapply NoDup_lookup; eauto). done.
    + exfalso. apply list_find_None in Ef. rewrite Forall_forall in Ef.
      apply (Ef id); [by eapply list_elem_of_lookup_2 | done].
  - intros id. rewrite Hl.
    destruct (list_find (eq id) order) as [[n y]|]; simpl; [|done].
    by destruct (server_roles server !! id).
Qed.

Lemma set_role_ordering_spec_witness :
  exists roles, ranks_distinct roles /\
    set_role_ordering (mkDb ∅ {[ "s"%string := sample_server ]} ∅ ∅) sample_server ["b"; "a"]
    = Some (set_servers (mkDb ∅ {[ "s"%string := sample_server ]} ∅ ∅)
        (<["s"%string := with_roles sample_server roles]> {[ "s"%string := sample_server ]}), Ok tt).
Proof.
  destruct (set_role_ordering_spec (mkDb ∅ {[ "s"%string := sample_server ]} ∅ ∅)
    sample_server sample_server ["b"; "a"]%string) as (roles & E & Hd & _).
  - by repeat constructor; set_solver.
  - intros id. unfold sample_server. simpl. rewrite !lookup_insert, lookup_empty.
    repeat case_decide; subst; split; try set_solver; by intros [? ?].
  - apply lookup_singleton_eq.
  - exists roles. split; [exact Hd | exact E].
Defined.
