(* ===== verification/PermissionQueryDb.v ===== *)
(** * The database's permission query (crates/core/database/src/util/permissions.rs)

    [DatabasePermissionQuery] answers the questions of the permission
    calculators from a database, caching what it fetched.  The database is a
    snapshot: it does not change while one calculation runs.  [Cow] wrappers
    disappear, the two constructors behave alike everywhere. *)

From stdpp Require Import base numbers list gmap strings sorting.
From S2P Require Import Prelude Errors Permissions Store.
Open Scope Z_scope.

Record DatabasePermissionQuery : Type := mkQuery {
  q_database : Db;
  q_now : Z;                       (* [Timestamp::now_utc], read by [in_timeout] *)
  q_perspective : User;
  q_user : option User;
  q_channel : option Channel.t;
  q_server : option Server;
  q_member : option Member;
  q_cached_user_permission : option Z;
  q_cached_mutual_connection : option bool;
  q_cached_permission : option Z;
}.

Abbreviation DPQ := DatabasePermissionQuery.

(** Struct update syntax, [..self] *)
Definition set_user (q : DPQ) (u : User) : DPQ :=
  mkQuery (q_database q) (q_now q) (q_perspective q) (Some u) (q_channel q) (q_server q)
    (q_member q) (q_cached_user_permission q) (q_cached_mutual_connection q)
    (q_cached_permission q).
Definition set_channel (q : DPQ) (c : Channel.t) : DPQ :=
  mkQuery (q_database q) (q_now q) (q_perspective q) (q_user q) (Some c) (q_server q)
    (q_member q) (q_cached_user_permission q) (q_cached_mutual_connection q)
    (q_cached_permission q).
Definition set_server (q : DPQ) (s : Server) : DPQ :=
  mkQuery (q_database q) (q_now q) (q_perspective q) (q_user q) (q_channel q) (Some s)
    (q_member q) (q_cached_user_permission q) (q_cached_mutual_connection q)
    (q_cached_permission q).
Definition set_member (q : DPQ) (m : Member) : DPQ :=
  mkQuery (q_database q) (q_now q) (q_perspective q) (q_user q) (q_channel q) (q_server q)
    (Some m) (q_cached_user_permission q) (q_cached_mutual_connection q)
    (q_cached_permission q).
Definition set_cached_mutual (q : DPQ) (b : bool) : DPQ :=
  mkQuery (q_database q) (q_now q) (q_perspective q) (q_user q) (q_channel q) (q_server q)
    (q_member q) (q_cached_user_permission q) (Some b) (q_cached_permission q).
Definition set_cached_user (q : DPQ) (v : Z) : DPQ :=
  mkQuery (q_database q) (q_now q) (q_perspective q) (q_user q) (q_channel q) (q_server q)
    (q_member q) (Some v) (q_cached_mutual_connection q) (q_cached_permission q).

(** [DatabasePermissionQuery::new] and [perms] *)
Definition new (database : Db) (now : Z) (perspective : User) : DPQ :=
  mkQuery database now perspective None None None None None None None.
Definition perms := new.

Section Query.
Context `{!HashIter string Channel.t, !HashIter (string * string) Member}.
Context `{!HashIter string Role, !HashIter string OverrideField.t}.

(** *** Questions about the selected user *)

Definition db_are_the_users_same (q : DPQ) : bool :=
  match q_user q with
  | Some other => str_eqb (user_id (q_perspective q)) (user_id other)
  | None => false
  end.

(** The first entry of [relations] for the other user. *)
Fixpoint relation_with (other : string) (relations : list Relationship)
    : option RelationshipStatus.t :=
  match relations with
  | [] => None
  | entry :: rest =>
      if str_eqb (rel_id entry) other then Some (rel_status entry)
      else relation_with other rest
  end.

Definition db_user_relationship (q : DPQ) : RelationshipStatus.t :=
  match q_user q with
  | Some other =>
      if str_eqb (user_id (q_perspective q)) (user_id other)
      then RelationshipStatus.User
      else if match user_bot_owner other with
              | Some owner => str_eqb (user_id (q_perspective q)) owner
              | None => false
              end
      then RelationshipStatus.User
      else match user_relations (q_perspective q) with
           | Some relations => default RelationshipStatus.None
                                 (relation_with (user_id other) relations)
           | None => RelationshipStatus.None
           end
  | None => RelationshipStatus.None
  end.

Definition db_user_is_bot (q : DPQ) : bool :=
  match q_user q with Some other => bool_decide (is_Some (user_bot_owner other)) | None => false end.

Definition db_have_mutual_connection (q : DPQ) : bool * DPQ :=
  match q_cached_mutual_connection q with
  | Some value => (value, q)
  | None =>
      match q_user q with
      | Some user =>
          let value :=
            match has_mutual_connection (q_database q) (user_id (q_perspective q))
                    (user_id user) with
            | Ok value => value
            | Err _ => false            (* unwrap_or_default *)
            end in
          (value, set_cached_mutual q value)
      | None => (false, q)
      end
  end.

(** *** Questions about the server *)

Definition db_are_we_server_owner (q : DPQ) : bool :=
  match q_server q with
  | Some server => str_eqb (server_owner server) (user_id (q_perspective q))
  | None => false
  end.

Definition db_are_we_a_member (q : DPQ) : bool * DPQ :=
  match q_server q with
  | Some server =>
      match q_member q with
      | Some _ => (true, q)
      | None =>
          match fetch_member (q_database q) (server_id server) (user_id (q_perspective q)) with
          | Ok member => (true, set_member q member)
          | Err _ => (false, q)
          end
      end
  | None => (false, q)
  end.

Definition db_get_default_server_permissions (q : DPQ) : Z :=
  match q_server q with
  | Some server => as_u64 (server_default_permissions server)
  | None => 0
  end.

(** [roles.sort_by(|a, b| b.0.cmp(&a.0))]: highest rank number first *)
Definition rank_desc (a b : Z * Override.t) : bool := b.1 <=? a.1.

Definition member_role_ids (m : option Member) : list string :=
  match m with Some member => member_roles member | None => [] end.

Definition server_role_overrides (server : Server) (m : option Member) : list Override.t :=
  let roles := List.filter (fun e => existsb (str_eqb e.1) (member_role_ids m))
                 (hm_iter (server_roles server)) in
  let ranked := (fun e => (role_rank e.2, field_to_override (role_permissions e.2))) <$> roles in
  (sort_by rank_desc ranked).*2.

Definition db_get_our_server_role_overrides (q : DPQ) : list Override.t :=
  match q_server q with
  | Some server => server_role_overrides server (q_member q)
  | None => []
  end.

Definition member_timed_out (now : Z) (m : option Member) : bool :=
  match m with Some member => in_timeout now member | None => false end.

Definition db_publish (m : option Member) : bool :=
  match m with Some member => member_can_publish member | None => true end.

Definition db_receive (m : option Member) : bool :=
  match m with Some member => member_can_receive member | None => true end.

(** *** Questions about the channel *)

Definition db_get_channel_type (q : DPQ) : ChannelType :=
  match q_channel q with
  | Some (Channel.DirectMessage _ _) => DirectMessage
  | Some (Channel.Group _ _ _ _) => Group
  | Some (Channel.SavedMessages _ _) => SavedMessages
  | Some (Channel.TextChannel _ _ _ _) => ServerChannel
  | Some (Channel.Thread _ _ _) => ServerChannel
  | Some (Channel.Forum _ _ _ _) => ServerChannel
  | None => UnknownType
  end.

Definition db_get_default_channel_permissions (q : DPQ) : Override.t :=
  match q_channel q with
  | Some (Channel.Group _ _ _ permissions) =>
      Override.mk
        (as_u64 (default (as_i64 DEFAULT_PERMISSION_DIRECT_MESSAGE) permissions)) 0
  | Some (Channel.TextChannel _ _ default_permissions _)
  | Some (Channel.Forum _ _ default_permissions _) =>
      field_to_override (default OverrideField.default default_permissions)
  | _ => Override.default
  end.

Definition channel_role_overrides (server : Server) (m : option Member)
    (role_permissions : gmap string OverrideField.t) : list Override.t :=
  let entries := List.filter (fun e => existsb (str_eqb e.1) (member_role_ids m))
                   (hm_iter role_permissions) in
  let ranked := omap (fun e =>
      (fun role => (role_rank role, field_to_override e.2)) <$> server_roles server !! e.1)
    entries in
  (sort_by rank_desc ranked).*2.

Definition overrides_in_channel (c : option Channel.t) (server : option Server)
    (m : option Member) : list Override.t :=
  match c with
  | Some (Channel.TextChannel _ _ _ role_permissions)
  | Some (Channel.Forum _ _ _ role_permissions) =>
      match server with
      | Some server => channel_role_overrides server m role_permissions
      | None => []
      end
  | _ => []
  end.

Definition db_do_we_own_the_channel (q : DPQ) : bool :=
  match q_channel q with
  | Some (Channel.Group _ owner _ _) => str_eqb owner (user_id (q_perspective q))
  | Some (Channel.SavedMessages _ user) => str_eqb user (user_id (q_perspective q))
  | _ => false
  end.

Definition db_are_we_part_of_the_channel (q : DPQ) : bool :=
  match q_channel q with
  | Some (Channel.DirectMessage _ recipients) | Some (Channel.Group _ _ recipients _) =>
      existsb (str_eqb (user_id (q_perspective q))) recipients
  | _ => false
  end.

(** *** Selecting the user and the server *)

Definition db_set_recipient_as_user : M DPQ unit := fun q =>
  match q_channel q with
  | Some (Channel.DirectMessage _ recipients) =>
      match List.find (fun r => negb (str_eqb r (user_id (q_perspective q)))) recipients with
      | None => None                      (* expect("Missing recipient for DM") *)
      | Some recipient_id =>
          match fetch_user (q_database q) recipient_id with
          | Ok user => Some (tt, set_user q user)
          | Err _ => Some (tt, q)
          end
      end
  | Some _ => None                        (* unimplemented!() *)
  | None => Some (tt, q)
  end.

Definition known_server_is (q : DPQ) (id : string) : bool :=
  match q_server q with Some known => str_eqb id (server_id known) | None => false end.

Definition db_set_server_from_channel : M DPQ unit := fun q =>
  match q_channel q with
  | Some (Channel.TextChannel _ server _ _)
  | Some (Channel.Thread _ server _)
  | Some (Channel.Forum _ server _ _) =>
      if known_server_is q server then Some (tt, q)
      else match fetch_server (q_database q) server with
           | Ok s => Some (tt, set_server q s)
           | Err _ => Some (tt, q)
           end
  | Some _ => None                        (* unimplemented!() *)
  | None => Some (tt, q)
  end.

(** A question that changes nothing. *)
Definition ask {A} (f : DPQ -> A) : M DPQ A := fun q => Some (f q, q).

#[export] Instance database_permission_query : PermissionQuery DPQ := {|
  are_we_privileged := ask (fun q => user_privileged (q_perspective q));
  are_we_a_bot := ask (fun q => bool_decide (is_Some (user_bot_owner (q_perspective q))));
  are_the_users_same := ask db_are_the_users_same;
  user_relationship := ask db_user_relationship;
  user_is_bot := ask db_user_is_bot;
  have_mutual_connection := fun q => Some (db_have_mutual_connection q);
  are_we_server_owner := ask db_are_we_server_owner;
  are_we_a_member := fun q => Some (db_are_we_a_member q);
  get_default_server_permissions := ask db_get_default_server_permissions;
  get_our_server_role_overrides := ask db_get_our_server_role_overrides;
  are_we_timed_out := ask (fun q => member_timed_out (q_now q) (q_member q));
  do_we_have_publish_overwrites := ask (fun q => db_publish (q_member q));
  do_we_have_receive_overwrites := ask (fun q => db_receive (q_member q));
  get_channel_type := ask db_get_channel_type;
  get_default_channel_permissions := ask db_get_default_channel_permissions;
  get_our_channel_role_overrides :=
    ask (fun q => overrides_in_channel (q_channel q) (q_server q) (q_member q));
  do_we_own_the_channel := ask db_do_we_own_the_channel;
  are_we_part_of_the_channel := ask db_are_we_part_of_the_channel;
  set_recipient_as_user := db_set_recipient_as_user;
  set_server_from_channel := db_set_server_from_channel;
|}.

(** [calc_user]: the value is computed once and kept; [None] is the panic
    without a selected user. *)
Definition calc_user (q : DPQ) : option DPQ :=
  match q_cached_user_permission q with
  | Some _ => Some q
  | None =>
      match q_user q with
      | None => None
      | Some _ =>
          match calculate_user_permissions q with
          | Some (v, q') => Some (set_cached_user q' v)
          | None => None
          end
      end
  end.

(** [get_member_rank]; the inner [None] is the panic of [unwrap]. *)
Definition get_member_rank (q : DPQ) : option (option Z) :=
  match q_member q with
  | None => Some None
  | Some m => match q_server q with
              | Some s => Some (Some (get_ranking m s))
              | None => None
              end
  end.

End Query.

(** ** The query is lawful *)

Section Lawful.
Context `{!HashIter string Channel.t, !HashIter (string * string) Member}.
Context `{!HashIter string Role, !HashIter string OverrideField.t}.

(** The member the query works with: the cached one, else the stored one. *)
Definition effective_member (q : DPQ) : option Member :=
  match q_member q with
  | Some m => Some m
  | None =>
      match q_server q with
      | Some server => db_members (q_database q) !! (server_id server, user_id (q_perspective q))
      | None => None
      end
  end.

Definition db_facts (q : DPQ) : Facts := {|
  f_privileged := user_privileged (q_perspective q);
  f_same := db_are_the_users_same q;
  f_relationship := db_user_relationship q;
  f_mutual := (db_have_mutual_connection q).1;
  f_owner := db_are_we_server_owner q;
  f_member := bool_decide (is_Some (q_server q)) && bool_decide (is_Some (effective_member q));
  f_default_server := db_get_default_server_permissions q;
  f_server_roles :=
    match q_server q with
    | Some server => server_role_overrides server (effective_member q)
    | None => []
    end;
  f_timed_out := member_timed_out (q_now q) (effective_member q);
  f_publish := db_publish (effective_member q);
  f_receive := db_receive (effective_member q);
  f_channel_type := db_get_channel_type q;
  f_default_channel := db_get_default_channel_permissions q;
  f_channel_roles := overrides_in_channel (q_channel q) (q_server q) (effective_member q);
  f_owns_channel := db_do_we_own_the_channel q;
  f_part := db_are_we_part_of_the_channel q;
|}.

Lemma field_to_override_wf f : Override.wf (field_to_override f).
Proof. split; apply as_u64_range. Qed.

Lemma sorted_overrides_wf (l : list (Z * Override.t)) :
  Forall Override.wf l.*2 -> Forall Override.wf (sort_by rank_desc l).*2.
Proof. by rewrite sort_by_perm. Qed.

Lemma server_role_overrides_wf server m : Forall Override.wf (server_role_overrides server m).
Proof.
  apply sorted_overrides_wf. rewrite <- list_fmap_compose, Forall_fmap.
  apply Forall_true. intros. apply field_to_override_wf.
Qed.

Lemma channel_role_overrides_wf server m rp :
  Forall Override.wf (channel_role_overrides server m rp).
Proof.
  apply sorted_overrides_wf. rewrite Forall_fmap. apply Forall_forall.
  intros [r o] (e & _ & He)%list_elem_of_omap. simpl in *.
  destruct (server_roles server !! e.1); simplify_eq/=. apply field_to_override_wf.
Qed.

Lemma overrides_in_channel_wf c s m : Forall Override.wf (overrides_in_channel c s m).
Proof.
  unfold overrides_in_channel.
  repeat case_match; first [apply channel_role_overrides_wf | by apply Forall_nil_2].
Qed.

Lemma db_facts_wf q : facts_wf (db_facts q).
Proof.
  split_and!; simpl.
  - unfold db_get_default_server_permissions.
    case_match; [apply as_u64_range | apply zero_wf].
  - unfold db_get_default_channel_permissions. repeat case_match;
      auto using field_to_override_wf, default_override_wf;
      (split; [apply as_u64_range | apply zero_wf]).
  - case_match; [apply server_role_overrides_wf | by apply Forall_nil_2].
  - apply overrides_in_channel_wf.
Qed.

Lemma db_facts_set_member q m :
  effective_member q = Some m -> db_facts (set_member q m) = db_facts q.
Proof.
  intros E. unfold db_facts. rewrite E. f_equal.
  destruct q as [? ? ? [u|] ? ? ? ? [cm|] ?]; done.
Qed.

Lemma db_are_we_a_member_spec q :
  (db_are_we_a_member q).1 = f_member (db_facts q) /\
  db_facts (db_are_we_a_member q).2 = db_facts q /\
  (f_member (db_facts q) = true -> is_Some (q_member (db_are_we_a_member q).2)).
Proof.
  unfold db_are_we_a_member, fetch_member.
  destruct (q_server q) as [server|] eqn:Es; [|simpl; by rewrite Es].
  destruct (q_member q) as [m|] eqn:Em.
  - simpl. unfold effective_member. rewrite Es, Em. eauto.
  - destruct (db_members (q_database q) !! _) as [m|] eqn:Ef; simpl ok_or; cbv iota; simpl.
    + assert (effective_member q = Some m) as E
        by (unfold effective_member; by rewrite Em, Es).
      rewrite db_facts_set_member, Es, E by done. simpl. eauto.
    + unfold effective_member. rewrite Es, Em, Ef. simpl. done.
Qed.

#[export] Instance database_query_lawful : LawfulQuery DPQ.
Proof.
  refine {| facts := db_facts; resolved := fun q => is_Some (q_member q);
            law_wf := db_facts_wf |}; intros s; try done.
  - exists (db_have_mutual_connection s).2. simpl. by rewrite <- surjective_pairing.
  - destruct (db_are_we_a_member_spec s) as (E1 & E2 & E3).
    exists (db_are_we_a_member s).2. split; [|done]. cbn. f_equal.
    rewrite (surjective_pairing (db_are_we_a_member s)). by f_equal.
  - intros [m Hm]. simpl. unfold ask, db_get_our_server_role_overrides, effective_member.
    by rewrite Hm.
  - intros [m Hm]. simpl. unfold ask, effective_member. by rewrite Hm.
  - intros [m Hm]. simpl. unfold ask, effective_member. by rewrite Hm.
  - intros [m Hm]. simpl. unfold ask, effective_member. by rewrite Hm.
  - intros [m Hm]. simpl. unfold ask, effective_member. by rewrite Hm.
  - intros s' Hset. simpl in *. unfold db_set_recipient_as_user in Hset.
    repeat case_match; by simplify_eq.
  - intros s' Hset. simpl in *. unfold db_set_server_from_channel in Hset.
    repeat case_match; by simplify_eq.
Defined.

End Lawful.

(** ** Theorems *)

Lemma rank_desc_total x y : rank_desc x y = true \/ rank_desc y x = true.
Proof. unfold rank_desc. lia. Qed.

Lemma rank_desc_trans x y z :
  rank_desc x y = true -> rank_desc y z = true -> rank_desc x z = true.
Proof. unfold rank_desc. lia. Qed.

(** Entries ranked injectively sort the same way from any order. *)
Lemma sort_ranked_unique {K A} (f : K * A -> Z * Override.t) (l1 l2 : list (K * A)) :
  l1 ≡ₚ l2 ->
  (forall x y, x ∈ l1 -> y ∈ l1 -> (f x).1 = (f y).1 -> x = y) ->
  sort_by rank_desc (f <$> l1) = sort_by rank_desc (f <$> l2).
Proof.
  intros Hp Hinj. apply sort_by_unique;
    [apply rank_desc_total | apply rank_desc_trans | by rewrite Hp |].
  intros a b (x & -> & Hx)%list_elem_of_fmap (y & -> & Hy)%list_elem_of_fmap.
  unfold rank_desc. intros H1 H2. f_equal. apply Hinj; [done | done | lia].
Qed.

(** Reversing the walk of a hash map is an iteration order too. *)
Definition reversed_iter K V `{Countable K} : HashIter K V.
Proof.
  refine {| hm_iter := fun m => rev (map_to_list m) |}.
  intros m. by rewrite <- Permutation_rev.
Defined.

(** With distinct ranks a member's overrides come in one order, whatever
    order the hash map is walked in, on the server and in a channel. *)
Theorem role_overrides_deterministic
    (i1 i2 : HashIter string Role) (j1 j2 : HashIter string OverrideField.t)
    (server : Server) (m : option Member) (rp : gmap string OverrideField.t) :
  ranks_distinct (server_roles server) ->
  @server_role_overrides i1 server m = @server_role_overrides i2 server m /\
  @channel_role_overrides j1 server m rp = @channel_role_overrides j2 server m rp.
Proof.
  intros Hd. split; unfold server_role_overrides, channel_role_overrides; f_equal.
  - apply sort_ranked_unique; [apply filter_bool_perm; by rewrite !hm_iter_perm|].
    intros [x r] [y r'] [_ Hx]%elem_of_filter_bool [_ Hy]%elem_of_filter_bool E.
    apply elem_of_hm_iter in Hx, Hy. simpl in E.
    assert (x = y) as -> by eauto. congruence.
  - apply sort_by_unique; [apply rank_desc_total | apply rank_desc_trans | |].
    { apply omap_Permutation, filter_bool_perm. by rewrite !hm_iter_perm. }
    intros a b ([x o] & Hx & Ex)%list_elem_of_omap ([y o'] & Hy & Ey)%list_elem_of_omap H1 H2.
    apply elem_of_filter_bool in Hx as [_ Hx], Hy as [_ Hy]. apply elem_of_hm_iter in Hx, Hy.
    simpl in *. destruct (server_roles server !! x) eqn:Rx, (server_roles server !! y) eqn:Ry;
      simplify_eq/=. unfold rank_desc in *. simpl in *.
    assert (x = y) as -> by (eapply Hd; eauto; lia). congruence.
Qed.

Lemma ranks_distinct_two a b ra rb :
  role_rank ra <> role_rank rb ->
  ranks_distinct (<[a := ra]> (<[b := rb]> ∅)).
Proof.
  intros Hne i j r r' Hi Hj E.
  rewrite !lookup_insert in Hi, Hj. repeat case_decide; simplify_map_eq; congruence.
Qed.

Lemma role_overrides_deterministic_witness :
  @server_role_overrides (canonical_iter string Role) sample_server
    (Some (mkMember "s" "u" ["a"; "b"] None true true)) =
  @server_role_overrides (reversed_iter string Role) sample_server
    (Some (mkMember "s" "u" ["a"; "b"] None true true)) /\
  @channel_role_overrides (canonical_iter string OverrideField.t) sample_server
    (Some (mkMember "s" "u" ["a"; "b"] None true true)) {["a"%string := OverrideField.mk 1 2]} =
  @channel_role_overrides (reversed_iter string OverrideField.t) sample_server
    (Some (mkMember "s" "u" ["a"; "b"] None true true)) {["a"%string := OverrideField.mk 1 2]}.
Proof.
  apply (role_overrides_deterministic _ (reversed_iter string Role)
           _ (reversed_iter string OverrideField.t)).
  by apply ranks_distinct_two.
Defined.

(** A bit an override mentions. *)
Definition mentions (o : Override.t) (i : Z) : bool :=
  Z.testbit (Override.allow o) i || Z.testbit (Override.deny o) i.

Lemma last_word_snoc i l o :
  last_word i (l ++ [o]) =
  if mentions o i then Some (negb (Z.testbit (Override.deny o) i)) else last_word i l.
Proof.
  unfold last_word, mentions. rewrite foldl_app. simpl.
  by destruct (Z.testbit (Override.deny o) i), (Z.testbit (Override.allow o) i).
Qed.

Lemma last_word_sorted (l : list (Z * Override.t)) (k : Z) (o : Override.t) (i : Z) :
  StronglySorted (fun a b => rank_desc a b = true) l ->
  (k, o) ∈ l -> mentions o i = true ->
  (forall k' o', (k', o') ∈ l -> mentions o' i = true -> k < k' \/ (k', o') = (k, o)) ->
  last_word i l.*2 = Some (negb (Z.testbit (Override.deny o) i)).
Proof.
  induction l as [|[k' o'] l IH] using rev_ind; intros Hs Hin Hm Hmin.
  { by apply not_elem_of_nil in Hin. }
  rewrite fmap_app. simpl. rewrite last_word_snoc.
  apply StronglySorted_app in Hs as (Hcross & Hsl & _).
  destruct (mentions o' i) eqn:Em.
  - destruct (Hmin k' o') as [Hlt | E]; [set_solver | done | |].
    + exfalso. apply elem_of_app in Hin as [Hin | Hin].
      * specialize (Hcross _ (k', o') Hin). unfold rank_desc in Hcross. simpl in Hcross.
        assert (k' <= k); [|lia]. apply Z.leb_le, Hcross. by left.
      * apply list_elem_of_singleton in Hin. simplify_eq. lia.
    + by simplify_eq.
  - apply IH; try done.
    + apply elem_of_app in Hin as [? | Hin]; [done|].
      apply list_elem_of_singleton in Hin. simplify_eq. congruence.
    + intros. apply Hmin; [set_solver | done].
Qed.

Section TopRole.
Context `{!HashIter string Role}.

(** The ranked overrides behind [server_role_overrides]. *)
Lemma server_role_overrides_ranked server m : exists l,
  server_role_overrides server m = l.*2 /\
  StronglySorted (fun a b => rank_desc a b = true) l /\
  (forall k o, (k, o) ∈ l <-> exists id r, server_roles server !! id = Some r /\
     id ∈ member_role_ids m /\ k = role_rank r /\ o = field_to_override (role_permissions r)).
Proof.
  eexists. split; [reflexivity|]. split.
  { apply sort_by_sorted; [apply rank_desc_total | apply rank_desc_trans]. }
  intros k o. rewrite elem_of_sort_by, list_elem_of_fmap. split.
  - intros ([id r] & [= -> ->] & [Hm Hin]%elem_of_filter_bool).
    apply elem_of_hm_iter in Hin. exists id, r. split; [done|]. split; [|done].
    apply existsb_exists in Hm as (x & Hx & E). apply str_eqb_eq in E. simpl in E. subst x.
    by apply list_elem_of_In.
  - intros (id & r & Hr & Hid & -> & ->). exists (id, r). split; [done|].
    apply elem_of_filter_bool. split; [|by apply elem_of_hm_iter].
    apply existsb_exists. exists id. split; [by apply list_elem_of_In | apply str_eqb_refl].
Qed.
End TopRole.

(** The highest role a member holds that mentions a permission decides it:
    with distinct ranks, the bit after all role overrides is what that role's
    override says, whatever the default and the other roles say. *)
Theorem top_role_decides `{!HashIter string Role} (server : Server) (member : Member)
    (id : string) (r : Role) (base i : Z) :
  0 <= i < 64 ->
  ranks_distinct (server_roles server) ->
  id ∈ member_roles member ->
  server_roles server !! id = Some r ->
  mentions (field_to_override (role_permissions r)) i = true ->
  (forall id' r', id' ∈ member_roles member -> server_roles server !! id' = Some r' ->
     mentions (field_to_override (role_permissions r')) i = true -> role_rank r <= role_rank r') ->
  Z.testbit (foldl PV.apply base (server_role_overrides server (Some member))) i =
  negb (Z.testbit (Override.deny (field_to_override (role_permissions r))) i).
Proof.
  intros Hi Hd Hid Hr Hm Hmin.
  destruct (server_role_overrides_ranked server (Some member)) as (l & -> & Hs & Hl).
  rewrite foldl_apply_last_word by done.
  erewrite (last_word_sorted l (role_rank r)); [done | done | | done |].
  - apply Hl. eauto 10.
  - intros k' o' (id' & r' & Hr' & Hid' & -> & ->)%Hl Hm'.
    destruct (Z.le_gt_cases (role_rank r') (role_rank r)) as [Hle|]; [right | left; lia].
    pose proof (Hmin id' r' Hid' Hr' Hm').
    assert (id' = id) as -> by (eapply Hd; eauto; lia). by simplify_eq.
Qed.

Lemma sample_ranks : ranks_distinct (server_roles sample_server).
Proof. by apply ranks_distinct_two. Qed.

Lemma top_role_decides_witness :
  Z.testbit (foldl PV.apply 4 (server_role_overrides sample_server
    (Some (mkMember "s" "u" ["a"; "b"] None true true)))) 2 = false.
Proof.
  apply (top_role_decides sample_server (mkMember "s" "u" ["a"; "b"] None true true)
           "a" (sample_role "a" 0 0 4) 4 2); [lia | apply sample_ranks | left | done | done |].
  intros id' r' Hid Hr _. unfold sample_server in Hr. simpl in Hr.
  rewrite !lookup_insert in Hr. repeat case_decide; simplify_map_eq; vm_compute; discriminate.
Defined.

(** Two roles of one rank leave the result to the hash map: the same member
    of the same server holds a permission under one iteration order and lacks
    it under another. *)
Theorem equal_ranks_nondeterministic :
  exists (server : Server) (member : Member) (i1 i2 : HashIter string Role),
    let value i := foldl PV.apply 0 (@server_role_overrides i server (Some member)) in
    PV.has_channel_permission (value i1) CP.ManageMessages = true /\
    PV.has_channel_permission (value i2) CP.ManageMessages = false.
Proof.
  set (v := CP.value CP.ManageMessages).
  exists (mkServer "s" "owner"
    (<["a" := sample_role "a" 1 v 0]> (<["b" := sample_role "b" 1 0 v]> ∅)) 0).
  exists (mkMember "s" "u" ["a"; "b"] None true true).
  first
    [ exists (canonical_iter string Role), (reversed_iter string Role);
      vm_compute; split; reflexivity
    | exists (reversed_iter string Role), (canonical_iter string Role);
      vm_compute; split; reflexivity ].
Qed.

(** A role created after a deletion can share its rank with an existing role:
    the new rank is the number of roles left, not one below the lowest. *)
Theorem create_after_delete_repeats_rank :
  exists (d d1 d2 : Db) (s s1 s2 : Server) (r : Role),
    db_servers d !! "s"%string = Some s /\ ranks_distinct (server_roles s) /\
    delete_role d "s" "a" = (d1, Ok tt) /\
    db_servers d1 !! "s"%string = Some s1 /\
    role_create d1 s1 "c" "new" = (d2, Ok r) /\
    db_servers d2 !! "s"%string = Some s2 /\
    ~ ranks_distinct (server_roles s2).
Proof.
  exists (mkDb ∅ {[ "s"%string := sample_server ]} ∅ ∅).
  eexists _, _, sample_server, _, _, _. split_and!.
  1: apply lookup_singleton_eq. 1: apply sample_ranks.
  1: vm_compute; reflexivity. 1: vm_compute; reflexivity.
  1: vm_compute; reflexivity. 1: vm_compute; reflexivity.
  intros Hd.
  assert ("b"%string = "c"%string); [|done].
  eapply Hd; [vm_compute; reflexivity | vm_compute; reflexivity | reflexivity].
Qed.

Lemma group_value_wf v : is_u64 v -> is_u64 (Z.lor DEFAULT_PERMISSION_VIEW_ONLY v).
Proof. apply is_u64_lor. vm_compute. split; discriminate. Qed.

Lemma view_only_wf : is_u64 DEFAULT_PERMISSION_VIEW_ONLY.
Proof. vm_compute. split; discriminate. Qed.

Lemma direct_message_wf : is_u64 DEFAULT_PERMISSION_DIRECT_MESSAGE.
Proof. vm_compute. split; discriminate. Qed.

Lemma channel_target_wf F Fsel :
  facts_wf F -> facts_wf Fsel -> is_u64 (channel_target F Fsel).
Proof.
  intros HF Hsel. unfold channel_target, spec_server_channel.
  destruct HF as (_ & [Ha _] & _). pose proof (spec_server_wf _ Hsel) as Hs.
  destruct Hsel as (_ & Hd & _ & Hr).
  repeat (case_match; auto using zero_wf, grant_all_safe_wf, group_value_wf,
    direct_message_wf, view_only_wf).
  apply timeout_mask_wf, foldl_apply_wf; [done | by constructor].
Qed.

(** Whom or what a channel calculation looks at: in a direct message someone
    besides the caller, as stored; in a server's channel that server, the one
    already at hand or the stored one; the query as it is elsewhere. *)
Definition looks_at (q q1 : DPQ) : Prop :=
  match q_channel q with
  | Some (Channel.DirectMessage _ recipients) =>
      exists r, r ∈ recipients /\ r <> user_id (q_perspective q) /\
        q1 = match db_users (q_database q) !! r with Some u => set_user q u | None => q end
  | Some (Channel.TextChannel _ sid _ _) | Some (Channel.Thread _ sid _)
  | Some (Channel.Forum _ sid _ _) =>
      (exists s, q_server q = Some s /\ server_id s = sid /\ q1 = q) \/
      (forall s, q_server q = Some s -> server_id s <> sid) /\
        q1 = match db_servers (q_database q) !! sid with Some s => set_server q s | None => q end
  | _ => q1 = q
  end.

Lemma recipient_found (me : string) (recipients : list string) :
  (exists r, r ∈ recipients /\ r <> me) ->
  exists r, List.find (fun r => negb (str_eqb r me)) recipients = Some r /\
    r ∈ recipients /\ r <> me.
Proof.
  intros (r & Hr & Hne). destruct (List.find _ recipients) as [x|] eqn:E.
  - exists x. apply find_some in E as [Hx E]. apply negb_true_iff, str_eqb_neq in E.
    split_and!; [done | by apply list_elem_of_In | done].
  - apply list_elem_of_In in Hr. apply (find_none _ _ E) in Hr.
    apply negb_false_iff, str_eqb_eq in Hr. done.
Qed.

Lemma selects_looks_at `{!HashIter string Channel.t, !HashIter (string * string) Member}
    `{!HashIter string Role, !HashIter string OverrideField.t} (q : DPQ) :
  (forall id recipients, q_channel q = Some (Channel.DirectMessage id recipients) ->
     exists r, r ∈ recipients /\ r <> user_id (q_perspective q)) ->
  exists q1, selects q q1 (db_get_channel_type q) /\ looks_at q q1.
Proof.
  intros Hdm. unfold db_get_channel_type, looks_at.
  assert (forall sid, db_set_server_from_channel q =
      (if known_server_is q sid then Some (tt, q)
       else Some (tt, match db_servers (q_database q) !! sid with
                      | Some s => set_server q s | None => q end)) ->
    exists q1, db_set_server_from_channel q = Some (tt, q1) /\
      ((exists s, q_server q = Some s /\ server_id s = sid /\ q1 = q) \/
       (forall s, q_server q = Some s -> server_id s <> sid) /\
       q1 = match db_servers (q_database q) !! sid with Some s => set_server q s | None => q end))
    as Hserver.
  { intros sid ->. unfold known_server_is. destruct (q_server q) as [s|] eqn:Es.
    - destruct (str_eqb sid (server_id s)) eqn:E; eexists; (split; [done|]).
      + apply str_eqb_eq in E. left. by exists s.
      + apply str_eqb_neq in E. right. split; [|done]. intros ? [= <-]. congruence.
    - eexists. split; [done|]. by right. }
  destruct (q_channel q) as [[]|] eqn:Ec; simpl; try (by eexists);
    try (apply Hserver; unfold db_set_server_from_channel, fetch_server; rewrite Ec;
         repeat case_match; simplify_eq/=; done).
  destruct (recipient_found _ _ (Hdm _ _ eq_refl)) as (r & Hf & Hr & Hne).
  unfold db_set_recipient_as_user, fetch_user. rewrite Ec, Hf.
  destruct (db_users (q_database q) !! r) as [u|] eqn:Eu; simpl;
    (eexists; split; [done|]; exists r; by rewrite Eu).
Qed.

(** C37. The channel calculator over the database never panics, whatever the
    channel and the stored documents, provided a direct message names someone
    besides the caller: it looks at the other user or the channel's server,
    and returns the specified value of what it finds there, a [u64]. *)
Theorem db_channel_permissions_refine
    `{!HashIter string Channel.t, !HashIter (string * string) Member}
    `{!HashIter string Role, !HashIter string OverrideField.t} (q : DPQ) :
  (forall id recipients, q_channel q = Some (Channel.DirectMessage id recipients) ->
     exists r, r ∈ recipients /\ r <> user_id (q_perspective q)) ->
  exists q1 q', looks_at q q1 /\
    calculate_channel_permissions q = Some (channel_target (db_facts q) (db_facts q1), q') /\
    is_u64 (channel_target (db_facts q) (db_facts q1)).
Proof.
  intros Hdm. destruct (selects_looks_at q Hdm) as (q1 & Hsel & Hl).
  destruct (calculate_channel_refines q q1) as [q' E]; [exact Hsel|].
  exists q1, q'. split; [done|]. split; [exact E|]. apply channel_target_wf; apply db_facts_wf.
Qed.

(** Alice and Bob, who share a direct message only. *)
Definition sample_db : Db :=
  mkDb {[ "alice"%string := mkUser "alice" false None None;
          "bob"%string := mkUser "bob" false None None ]} ∅ ∅
       {[ "dm"%string := Channel.DirectMessage "dm" ["alice"; "bob"] ]}.

Definition sample_dm_query : DPQ :=
  set_channel (new sample_db 0 (mkUser "alice" false None None))
    (Channel.DirectMessage "dm" ["alice"; "bob"]).

Lemma db_channel_permissions_refine_witness :
  exists q1 q', looks_at sample_dm_query q1 /\
    calculate_channel_permissions sample_dm_query =
      Some (channel_target (db_facts sample_dm_query) (db_facts q1), q') /\
    is_u64 (channel_target (db_facts sample_dm_query) (db_facts q1)).
Proof.
  apply (db_channel_permissions_refine sample_dm_query).
  intros id recipients [= <- <-]. exists "bob"%string. split; [set_solver | done].
Defined.

