(* ===== verification/Audience.v ===== *)
(** * Who can see a channel
      (crates/core/database/src/util/bulk_permissions.rs, event_visibility.rs)

    Mass mentions ask for many users at once whether they see a channel; the
    calendar asks for many events whether one user sees them.  Both have their
    own way to the answer: a second calculator over documents fetched in bulk,
    and a viewer that keeps what it fetched and decided.  The database is a
    snapshot during one question.  Reports to the error tracker are left out. *)

From stdpp Require Import base numbers list gmap strings sorting.
From S2P Require Import Prelude Errors Permissions Store PermissionQueryDb.
Open Scope Z_scope.

(** ** Channels *)

Definition fetch_channel (d : Db) (id : string) : Result Channel.t :=
  ok_or (db_channels d !! id) ErrorType.NotFound.

(** [Channel::server] *)
Definition channel_server (c : Channel.t) : option string :=
  match c with
  | Channel.TextChannel _ server _ _ | Channel.Thread _ server _ | Channel.Forum _ server _ _ =>
      Some server
  | _ => None
  end.

Definition is_thread (c : Channel.t) : bool :=
  match c with Channel.Thread _ _ _ => true | _ => false end.

Definition permission_target (d : Db) (c : Channel.t) : Result Channel.t :=
  match c with
  | Channel.Thread _ _ parent_channel =>
      let? parent := fetch_channel d parent_channel in
      match parent with
      | Channel.TextChannel _ _ _ _ | Channel.Forum _ _ _ _ => Ok parent
      | _ => Err ErrorType.NotFound
      end
  | _ => Ok c
  end.

(** [fetch_users]: [seen.insert] keeps the first of equal ids *)
Fixpoint first_ids (seen ids : list string) : list string :=
  match ids with
  | [] => []
  | id :: rest =>
      if existsb (str_eqb id) seen then first_ids seen rest else id :: first_ids (id :: seen) rest
  end.

Definition fetch_users (d : Db) (ids : list string) : Result (list User) :=
  Ok (omap (fun id => db_users d !! id) (first_ids [] ids)).

Definition fetch_members (d : Db) (server_id : string) (ids : list string) : Result (list Member) :=
  Ok (omap (fun id => db_members d !! (server_id, id)) ids).

(** ** The bulk calculator *)

Record BulkDatabasePermissionQuery : Type := mkBulk {
  b_database : Db;
  b_server : option Server;
  b_channel : option Channel.t;
  b_users : option (list User);
  b_members : option (list Member);
  b_cached_users : option (list User);
  b_cached_members : option (list Member);
  b_cached_member_perms : option (gmap string Z);
}.

Abbreviation Bulk := BulkDatabasePermissionQuery.

Definition bulk_new (database : Db) (server : Server) : Bulk :=
  mkBulk database (Some server) None None None None None None.

Definition from_server_id (db : Db) (server : string) : Bulk :=
  let server := match fetch_server db server with Ok server => Some server | Err _ => None end in
  mkBulk db server None None None None None None.

Definition bulk_channel (b : Bulk) (channel : option Channel.t) : Bulk :=
  mkBulk (b_database b) (b_server b) channel (b_users b) (b_members b) (b_cached_users b)
    (b_cached_members b) (b_cached_member_perms b).

Definition from_channel_id (b : Bulk) (channel_id : string) : Bulk :=
  match fetch_channel (b_database b) channel_id with
  | Err _ => bulk_channel b None
  | Ok channel =>
      let channel :=
        if is_thread channel then
          match permission_target (b_database b) channel with Ok parent => parent | Err _ => channel end
        else channel in
      bulk_channel b (Some channel)
  end.

Definition bulk_members (b : Bulk) (members : list Member) : Bulk :=
  mkBulk (b_database b) (b_server b) (b_channel b) None (Some members) None None None.
Definition bulk_users (b : Bulk) (users : list User) : Bulk :=
  mkBulk (b_database b) (b_server b) (b_channel b) (Some users) None None None None.

Definition set_fetched (b : Bulk) (users : option (list User)) (members : option (list Member))
    (cached_users : option (list User)) (cached_members : option (list Member)) : Bulk :=
  mkBulk (b_database b) (b_server b) (b_channel b) users members cached_users cached_members
    (b_cached_member_perms b).

Section Bulk.
Context `{!HashIter string Role, !HashIter string OverrideField.t}.
(** [Timestamp::now_utc], read by [in_timeout] *)
Context (now : Z).

(** [calculate_server_permissions] of this file *)
Definition bulk_server_permissions (server : Server) (user : User) (member : Member) : Z :=
  if user_privileged user || str_eqb (server_owner server) (user_id user)
  then CP.value CP.GrantAllSafe
  else
    let permissions := as_u64 (server_default_permissions server) in
    let roles := List.filter (fun e => existsb (str_eqb e.1) (member_roles member))
                   (hm_iter (server_roles server)) in
    let ranked := (fun e => (role_rank e.2, field_to_override (role_permissions e.2))) <$> roles in
    let permissions := foldl PV.apply permissions (sort_by rank_desc ranked).*2 in
    if in_timeout now member then PV.restrict permissions ALLOW_IN_TIMEOUT else permissions.

(** The body of the loop over the users *)
Definition bulk_member_permissions (server : Server) (default_permissions : option OverrideField.t)
    (role_permissions : gmap string OverrideField.t) (user : User) (member : option Member) : Z :=
  match member with
  | None => 0
  | Some member =>
      if user_privileged user then CP.value CP.GrantAllSafe
      else if str_eqb (user_id user) (server_owner server) then CP.value CP.GrantAllSafe
      else
        let permission := bulk_server_permissions server user member in
        let permission :=
          match default_permissions with
          | Some defaults => PV.apply permission (field_to_override defaults)
          | None => permission
          end in
        let roles :=
          omap (fun e => (fun role => (role_rank role, field_to_override e.2))
                         <$> server_roles server !! e.1)
            (List.filter (fun e => existsb (str_eqb e.1) (member_roles member))
               (hm_iter role_permissions)) in
        foldl PV.apply permission (sort_by rank_desc roles).*2
  end.

(** [HashMap::from_iter] over the members: the last of equal users *)
Definition members_by_user (members : list Member) : gmap string Member :=
  foldl (fun m member => <[member_user member := member]> m) ∅ members.

(** [None] is the panic "No users or members added to the query". *)
Definition calculate_members_permissions (query : Bulk) : option (gmap string Z * Bulk) :=
  match b_channel query with
  | Some (Channel.TextChannel _ _ default_permissions role_permissions)
  | Some (Channel.Forum _ _ default_permissions role_permissions) =>
      match b_server query with
      | None => Some (∅, query)
      | Some server =>
          let with_users :=
            match b_users query with
            | Some _ => Some (Ok query)
            | None =>
                match b_members query with
                | None => None
                | Some members =>
                    Some (match fetch_users (b_database query) (member_user <$> members) with
                          | Ok users => Ok (set_fetched query (Some users) (b_members query)
                                              (Some users) (b_cached_members query))
                          | Err e => Err e
                          end)
                end
            end in
          match with_users with
          | None => None
          | Some (Err _) => Some (∅, query)
          | Some (Ok query) =>
              match b_users query with
              | None => None
              | Some users =>
                  let with_members :=
                    match b_members query with
                    | Some _ => Ok query
                    | None =>
                        match fetch_members (b_database query) (server_id server) (user_id <$> users) with
                        | Ok members => Ok (set_fetched query (b_users query) (Some members)
                                              (b_cached_users query) (Some members))
                        | Err e => Err e
                        end
                    end in
                  match with_members with
                  | Err _ => Some (∅, query)
                  | Ok query =>
                      let members := members_by_user (default [] (b_members query)) in
                      Some (foldl (fun resp user =>
                              <[user_id user := bulk_member_permissions server default_permissions
                                  role_permissions user (members !! user_id user)]> resp) ∅ users,
                            query)
                  end
              end
          end
      end
  | _ => Some (∅, query)
  end.

Definition members_can_see_channel (query : Bulk) : option (gmap string bool) :=
  let view := fmap (fun p => PV.has_channel_permission p CP.ViewChannel) in
  match b_cached_member_perms query with
  | Some perms => Some (view perms)
  | None =>
      match calculate_members_permissions query with
      | Some (perms, _) => Some (view perms)
      | None => None
      end
  end.
End Bulk.

(** ** Events of the calendar *)

(** Of an event, what is read *)
Record CalendarEvent : Type := mkEvent { cev_server : string; cev_channel : option string }.

Record EventViewer : Type := mkViewer {
  v_db : Db;
  v_user : User;
  v_members : gmap string Member;
  v_servers : gmap string (option Server);
  v_channels : gmap string (option (string * bool));
}.

(** [collect] into a map: the last of equal servers *)
Definition rows_by_server (rows : list Member) : gmap string Member :=
  foldl (fun m member => <[member_server member := member]> m) ∅ rows.

(** Rows of other users are ignored ([debug_assert!] is off in a release). *)
Definition with_memberships (db : Db) (user : User) (members : list Member) : EventViewer :=
  let own := List.filter (fun member => str_eqb (member_user member) (user_id user)) members in
  mkViewer db user (rows_by_server own) ∅ ∅.

Definition for_server (db : Db) (user : User) (server_id : string) : EventViewer :=
  with_memberships db user
    (match fetch_member db server_id (user_id user) with Ok member => [member] | Err _ => [] end).

Definition try_resolve_event_channel_target (db : Db) (channel : Channel.t) : Result (option Channel.t) :=
  match permission_target db channel with
  | Err ErrorType.NotFound => Ok None
  | Err e => Err e
  | Ok target =>
      match channel_server target with
      | None => Ok None
      | Some server =>
          if is_some_str (channel_server channel) server then Ok (Some target) else Ok None
      end
  end.

Definition resolve_event_channel_target (db : Db) (channel : Channel.t) : option Channel.t :=
  match try_resolve_event_channel_target db channel with Ok target => target | Err _ => None end.

Section Events.
Context `{!HashIter string Channel.t, !HashIter (string * string) Member}.
Context `{!HashIter string Role, !HashIter string OverrideField.t}.
Context (now : Z).

(** [calculate_channel_permissions(..).has_channel_permission(ViewChannel)];
    [None] is a panic *)
Definition views (q : DPQ) : option bool :=
  match calculate_channel_permissions q with
  | Some (v, _) => Some (PV.has_channel_permission v CP.ViewChannel)
  | None => None
  end.

Definition cache_server (v : EventViewer) (server_id : string) : EventViewer :=
  match v_servers v !! server_id with
  | Some _ => v
  | None =>
      let server := match fetch_server (v_db v) server_id with Ok server => Some server | Err _ => None end in
      mkViewer (v_db v) (v_user v) (v_members v) (<[server_id := server]> (v_servers v)) (v_channels v)
  end.

Definition resolve_channel (v : EventViewer) (channel_id : string)
    : option (EventViewer * option (string * bool)) :=
  match fetch_channel (v_db v) channel_id with
  | Err _ => Some (v, None)
  | Ok channel =>
      match resolve_event_channel_target (v_db v) channel with
      | None => Some (v, None)
      | Some target =>
          match channel_server target with
          | None => Some (v, None)
          | Some sid =>
              if bool_decide (v_members v !! sid = None) then Some (v, Some (sid, false))
              else
                let v := cache_server v sid in
                match v_servers v !! sid, v_members v !! sid with
                | Some (Some server), Some member =>
                    if str_eqb (server_id server) sid && str_eqb (member_server member) sid then
                      let query :=
                        set_channel (set_member (set_server (new (v_db v) now (v_user v)) server) member)
                          target in
                      match views query with
                      | Some verdict => Some (v, Some (sid, verdict))
                      | None => None
                      end
                    else Some (v, Some (sid, false))
                | _, _ => Some (v, Some (sid, false))
                end
          end
      end
  end.

Definition can_view (v : EventViewer) (event : CalendarEvent) : option (EventViewer * bool) :=
  if bool_decide (v_members v !! cev_server event = None) then Some (v, false)
  else
    match cev_channel event with
    | None => Some (v, true)
    | Some channel_id =>
        let looked_up :=
          match v_channels v !! channel_id with
          | Some _ => Some v
          | None =>
              match resolve_channel v channel_id with
              | None => None
              | Some (v, resolved) =>
                  Some (mkViewer (v_db v) (v_user v) (v_members v) (v_servers v)
                          (<[channel_id := resolved]> (v_channels v)))
              end
          end in
        match looked_up with
        | None => None
        | Some v =>
            Some (v, match v_channels v !! channel_id with
                     | Some (Some (sid, true)) => str_eqb sid (cev_server event)
                     | _ => false
                     end)
        end
    end.

Definition user_can_view_channel (db : Db) (user : User) (sid : string) (target : Channel.t)
    : option bool :=
  if is_thread target then Some false
  else if negb (is_some_str (channel_server target) sid) then Some false
  else
    match fetch_member db sid (user_id user) with
    | Err _ => Some false
    | Ok member =>
        if negb (str_eqb (member_server member) sid) || negb (str_eqb (member_user member) (user_id user))
        then Some false
        else views (set_channel (set_member (new db now user) member) target)
    end.

Definition require_event_channel_view (db : Db) (user : User) (sid : string) (channel : Channel.t)
    : option (Result unit) :=
  if negb (is_some_str (channel_server channel) sid) then Some (Err ErrorType.InvalidOperation)
  else
    match resolve_event_channel_target db channel with
    | None => Some (Err ErrorType.NotFound)
    | Some target =>
        match user_can_view_channel db user sid target with
        | None => None
        | Some true => Some (Ok tt)
        | Some false => Some (Err ErrorType.NotFound)
        end
    end.
End Events.

(** ** One verdict *)

(** *** The bit of [ViewChannel] *)

Lemma view_bit p : PV.has_channel_permission p CP.ViewChannel = Z.testbit p 20.
Proof.
  unfold PV.has_channel_permission, PV.has. change (CP.value CP.ViewChannel) with (2 ^ 20).
  apply eq_true_iff_eq. rewrite Z.eqb_eq. split.
  - intros H. apply (f_equal (fun z => Z.testbit z 20)) in H. rewrite Z.land_spec in H.
    apply andb_true_iff in H as [H _]; done.
  - intros H. apply Z.bits_inj'. intros n Hn. rewrite Z.land_spec, Z.pow2_bits_eqb by lia.
    destruct (20 =? n) eqn:E; [|apply andb_false_r]. apply Z.eqb_eq in E as <-. by rewrite H.
Qed.

(** What the last of two lists of overrides leaves *)
Lemma word_app i b os os' :
  default b (last_word i (os ++ os')) = default (default b (last_word i os)) (last_word i os').
Proof.
  unfold last_word. rewrite foldl_app. generalize (foldl (fun acc o =>
    if Z.testbit (Override.deny o) i then Some false
    else if Z.testbit (Override.allow o) i then Some true else acc) None os). intros acc.
  induction os' as [|o os' IH] using rev_ind; [done|]. rewrite !foldl_app. cbn [foldl].
  destruct (Z.testbit (Override.deny o) i); [done|]. by destruct (Z.testbit (Override.allow o) i).
Qed.

Section Agreement.
Context `{!HashIter string Channel.t, !HashIter (string * string) Member}.
Context `{!HashIter string Role, !HashIter string OverrideField.t}.
Context (now : Z).

(** What a server channel's calculation decides about the bit *)
Lemma spec_view F :
  Z.testbit (spec_server_channel F) 20 =
  (f_privileged F || f_owner F)
  || f_member F && default (Z.testbit (f_default_server F) 20)
       (last_word 20 (f_server_roles F ++ f_default_channel F :: f_channel_roles F)).
Proof.
  unfold spec_server_channel. destruct (f_privileged F || f_owner F) eqn:E; [reflexivity|].
  destruct (f_member F) eqn:Em; cbn [negb andb orb]; [|apply Z.bits_0].
  assert (forall p, Z.testbit (timeout_mask F p) 20 = Z.testbit p 20) as Ht.
  { intros p. unfold timeout_mask. destruct (f_timed_out F); [|done].
    rewrite Z.land_spec. apply andb_true_r. }
  assert (forall p, Z.testbit (PV.revoke p (voice_mask F)) 20 = Z.testbit p 20) as Hv.
  { intros p. unfold PV.revoke. rewrite Z.land_spec. unfold voice_mask.
    destruct (f_publish F), (f_receive F); apply andb_true_r. }
  set (p := timeout_mask F _). assert (Z.testbit (if PV.has_channel_permission p CP.ViewChannel then p else 0) 20
    = Z.testbit p 20) as ->.
  { rewrite view_bit. destruct (Z.testbit p 20) eqn:Ep; [done|apply Z.bits_0]. }
  subst p. rewrite Ht. unfold spec_server. rewrite E, Em. cbn [negb].
  rewrite foldl_apply_last_word, Ht, Hv, foldl_apply_last_word by lia.
  by rewrite word_app.
Qed.

(** The verdict from the documents *)
Definition verdict (server : Server) (user : User) (member : option Member)
    (default_permissions : option OverrideField.t) (role_permissions : gmap string OverrideField.t) : bool :=
  (user_privileged user || str_eqb (server_owner server) (user_id user))
  || bool_decide (is_Some member)
     && default (Z.testbit (as_u64 (server_default_permissions server)) 20)
          (last_word 20
             (server_role_overrides server member
              ++ field_to_override (default OverrideField.default default_permissions)
              :: channel_role_overrides server member role_permissions)).

(** A text channel or a forum, with its overrides *)
Definition overrides_of (c : Channel.t)
    : option (string * option OverrideField.t * gmap string OverrideField.t) :=
  match c with
  | Channel.TextChannel _ server dp rp | Channel.Forum _ server dp rp => Some (server, dp, rp)
  | _ => None
  end.

Lemma bulk_view server dp rp user m :
  Z.testbit (bulk_member_permissions now server dp rp user (Some m)) 20 = verdict server user (Some m) dp rp.
Proof.
  unfold bulk_member_permissions, bulk_server_permissions, verdict. cbn [is_Some].
  replace (str_eqb (user_id user) (server_owner server))
    with (str_eqb (server_owner server) (user_id user))
    by (apply eq_true_iff_eq; rewrite !str_eqb_eq; done).
  destruct (user_privileged user); [reflexivity|]. cbn [orb].
  destruct (str_eqb (server_owner server) (user_id user)); [reflexivity|]. cbn [orb].
  rewrite bool_decide_eq_true_2 by eauto. cbn [andb].
  fold (channel_role_overrides server (Some m) rp). fold (server_role_overrides server (Some m)).
  set (base := as_u64 (server_default_permissions server)).
  set (p := if in_timeout now m then _ else _).
  assert (Z.testbit p 20 = default (Z.testbit base 20) (last_word 20 (server_role_overrides server (Some m)))) as Hp.
  { subst p. destruct (in_timeout now m).
    - unfold PV.restrict. rewrite Z.land_spec, foldl_apply_last_word by lia. apply andb_true_r.
    - by rewrite foldl_apply_last_word by lia. }
  rewrite foldl_apply_last_word by lia.
  rewrite (word_app 20 (Z.testbit base 20)), <- Hp.
  rewrite (word_app 20 _ [field_to_override (default OverrideField.default dp)]
             (channel_role_overrides server (Some m) rp) : default _ (last_word 20 (_ :: _)) = _).
  f_equal.
  destruct dp as [f|]; [|done]. rewrite apply_bit by lia.
  change (default OverrideField.default (Some f)) with f. unfold last_word. cbn [foldl].
  destruct (Z.testbit (Override.deny (field_to_override f)) 20); [apply andb_false_r|].
  rewrite andb_true_r. destruct (Z.testbit (Override.allow (field_to_override f)) 20);
    [apply orb_true_r|apply orb_false_r].
Qed.

Lemma bulk_view_outsider server dp rp user :
  Z.testbit (bulk_member_permissions now server dp rp user None) 20 = false.
Proof. apply Z.bits_0. Qed.

(** The calculator, whoever gave it the server and the member row *)
Lemma query_view q sid dp rp server :
  (exists target, q_channel q = Some target /\ overrides_of target = Some (sid, dp, rp)) ->
  db_servers (q_database q) !! sid = Some server -> server_id server = sid ->
  q_server q = None \/ q_server q = Some server ->
  views q = Some (verdict server (q_perspective q) (effective_member (set_server q server)) dp rp).
Proof.
  intros (target & Et & Ho) Es Eid Hq.
  assert (forall id recipients, q_channel q = Some (Channel.DirectMessage id recipients) ->
    exists r, r ∈ recipients /\ r <> user_id (q_perspective q)) as Hdm.
  { intros id recipients E. rewrite Et in E. by injection E as ->. }
  destruct (selects_looks_at q Hdm) as (q1 & Hsel & Hl).
  destruct (calculate_channel_refines q q1) as [q' E]; [exact Hsel|].
  assert (db_facts q1 = db_facts (set_server q server)) as Eq1.
  { unfold looks_at in Hl. rewrite Et in Hl. destruct Hq as [Hq|Hq].
    - destruct target; try discriminate Ho; injection Ho as -> -> ->;
        (destruct Hl as [(s & E1 & _)|[_ ->]]; [congruence|by rewrite Es]).
    - assert (q1 = q) as ->.
      { destruct target; try discriminate Ho; injection Ho as -> -> ->;
          (destruct Hl as [(s & _ & _ & ->)|[Hne _]]; [done|by edestruct Hne]). }
      destruct q; cbn in *. by rewrite Hq. }
  unfold views. rewrite E. f_equal. rewrite view_bit. cbn [facts database_query_lawful].
  rewrite Eq1. unfold channel_target.
  destruct (f_privileged (db_facts q)) eqn:Ep.
  { cbn in Ep. unfold verdict. by rewrite Ep. }
  assert (f_channel_type (db_facts q) = ServerChannel) as ->.
  { cbn. unfold db_get_channel_type. rewrite Et. by destruct target. }
  rewrite spec_view. unfold verdict. cbn -[effective_member last_word].
  unfold db_get_default_channel_permissions. cbn -[effective_member last_word]. rewrite Et.
  destruct target; try discriminate Ho; by injection Ho as -> -> ->.
Qed.

(** *** Many users at once *)

Definition members_keyed (d : Db) : Prop :=
  forall s u m, db_members d !! (s, u) = Some m -> member_server m = s /\ member_user m = u.

(** The members fetched for some users, by user *)
Lemma members_by_user_fetched d sid ids u :
  members_keyed d ->
  members_by_user (omap (fun id => db_members d !! (sid, id)) ids) !! u
  = if existsb (str_eqb u) ids then db_members d !! (sid, u) else None.
Proof.
  intros Hk. unfold members_by_user. induction ids as [|id ids IH] using rev_ind; [done|].
  rewrite omap_app, foldl_app, existsb_app. cbn [omap list_omap existsb]. rewrite orb_false_r.
  destruct (db_members d !! (sid, id)) as [m|] eqn:E; cbn [foldl].
  - destruct (Hk _ _ _ E) as [_ Hu]. rewrite Hu. destruct (str_eqb u id) eqn:Eu.
    + apply str_eqb_eq in Eu as ->. by rewrite lookup_insert_eq, orb_true_r.
    + apply str_eqb_neq in Eu. rewrite lookup_insert_ne, orb_false_r by done. exact IH.
  - rewrite IH. destruct (str_eqb u id) eqn:Eu; [|by rewrite orb_false_r].
    apply str_eqb_eq in Eu as ->. rewrite orb_true_r. by destruct (existsb _ ids).
Qed.

Lemma foldl_insert_users {A} (f : User -> A) users (resp : gmap string A) u :
  NoDup (user_id <$> users) -> u ∈ users ->
  foldl (fun resp user => <[user_id user := f user]> resp) resp users !! user_id u = Some (f u).
Proof.
  revert resp. induction users as [|x users IH]; intros resp Hnd Hu; [by apply elem_of_nil in Hu|].
  cbn in *. apply NoDup_cons in Hnd as [Hx Hnd]. apply elem_of_cons in Hu as [->|Hu]; [|by apply IH].
  assert (forall resp : gmap string A, (forall v, v ∈ users -> user_id v <> user_id x) ->
    foldl (fun resp user => <[user_id user := f user]> resp) resp users !! user_id x = resp !! user_id x) as Hl.
  { clear. induction users as [|y users IH]; intros resp Hn; [done|]. cbn.
    rewrite IH by (intros v Hv; apply Hn; by right). apply lookup_insert_ne, Hn. left. }
  rewrite Hl, lookup_insert_eq; [done|]. intros v Hv E. apply Hx. rewrite <- E.
  apply list_elem_of_fmap. eauto.
Qed.

(** What the bulk calculator says *)
Lemma bulk_verdicts d sid server cid channel target dp rp users :
  members_keyed d -> db_servers d !! sid = Some server -> server_id server = sid ->
  db_channels d !! cid = Some channel -> permission_target d channel = Ok target ->
  overrides_of target = Some (sid, dp, rp) -> NoDup (user_id <$> users) ->
  exists seen,
    members_can_see_channel now (bulk_users (from_channel_id (from_server_id d sid) cid) users) = Some seen
    /\ forall u, u ∈ users ->
         seen !! user_id u = Some (match db_members d !! (sid, user_id u) with
                                   | Some m => verdict server u (Some m) dp rp
                                   | None => false
                                   end).
Proof.
  intros Hk Es Eid Ec Et Ho Hnd.
  assert (from_channel_id (from_server_id d sid) cid
          = mkBulk d (Some server) (Some target) None None None None None) as ->.
  { unfold from_channel_id, from_server_id, fetch_channel, fetch_server. cbn. rewrite Ec, Es. cbn.
    destruct channel; cbn [is_thread]; try (by injection Et as <-). by rewrite Et. }
  set (resp := foldl (fun resp user =>
    <[user_id user := bulk_member_permissions now server dp rp user
        (members_by_user (omap (fun id => db_members d !! (server_id server, id)) (user_id <$> users))
         !! user_id user)]> resp) (∅ : gmap string Z) users).
  exists ((fun p => PV.has_channel_permission p CP.ViewChannel) <$> resp). split.
  { unfold members_can_see_channel, calculate_members_permissions. cbn.
    destruct target; try discriminate Ho; injection Ho as -> -> ->; reflexivity. }
  intros u Hu. rewrite lookup_fmap. subst resp. rewrite foldl_insert_users by done. cbn.
  rewrite members_by_user_fetched, Eid by done.
  assert (existsb (str_eqb (user_id u)) (user_id <$> users) = true) as ->.
  { apply existsb_exists. exists (user_id u). split; [|apply str_eqb_refl].
    apply list_elem_of_In, list_elem_of_fmap. eauto. }
  rewrite view_bit. destruct (db_members d !! (sid, user_id u)) as [m|] eqn:Em.
  - by rewrite bulk_view.
  - by rewrite bulk_view_outsider.
Qed.

(** What the calculator for one user says of a member *)
Lemma single_verdict d sid server target dp rp u m :
  db_servers d !! sid = Some server -> server_id server = sid ->
  overrides_of target = Some (sid, dp, rp) -> db_members d !! (sid, user_id u) = Some m ->
  views (set_channel (new d now u) target) = Some (verdict server u (Some m) dp rp).
Proof.
  intros Es Eid Ho Em. rewrite (query_view _ sid dp rp server); cbn; eauto.
  unfold effective_member. cbn. by rewrite Eid, Em.
Qed.

(** *** Many events *)

(** The stored documents are under their ids, and members are of stored servers *)
Record stored (d : Db) : Prop := {
  sd_members : members_keyed d;
  sd_servers s x : db_servers d !! s = Some x -> server_id x = s;
  sd_member_server s u m : db_members d !! (s, u) = Some m -> is_Some (db_servers d !! s);
}.

Lemma resolved_target d channel target :
  resolve_event_channel_target d channel = Some target ->
  exists sid dp rp, overrides_of target = Some (sid, dp, rp) /\ channel_server target = Some sid
                    /\ channel_server channel = Some sid /\ is_thread target = false.
Proof.
  unfold resolve_event_channel_target, try_resolve_event_channel_target, permission_target, fetch_channel.
  intros H. destruct channel as [| | | |id server parent|]; cbn in H; try discriminate.
  - rewrite str_eqb_refl in H. injection H as <-. cbn. eauto 10.
  - destruct (db_channels d !! parent) as [[]|]; cbn in H; try discriminate;
      (destruct (str_eqb server server0) eqn:E; [|discriminate]); injection H as <-;
      apply str_eqb_eq in E as ->; cbn; eauto 10.
  - rewrite str_eqb_refl in H. injection H as <-. cbn. eauto 10.
Qed.

Lemma target_view d user sid target dp rp member server :
  stored d -> overrides_of target = Some (sid, dp, rp) -> channel_server target = Some sid ->
  is_thread target = false -> db_members d !! (sid, user_id user) = Some member ->
  db_servers d !! sid = Some server ->
  user_can_view_channel now d user sid target = Some (verdict server user (Some member) dp rp)
  /\ views (set_channel (set_member (set_server (new d now user) server) member) target)
     = Some (verdict server user (Some member) dp rp).
Proof.
  intros Hd Ho Hs Ht Em Es. unfold user_can_view_channel, fetch_member.
  destruct (sd_members _ Hd _ _ _ Em) as [E1 E2].
  rewrite Ht, Hs, Em. cbn. rewrite E1, E2, !str_eqb_refl. cbn.
  split; (rewrite (query_view _ sid dp rp server); [done|by eexists|done|by apply (sd_servers _ Hd)|]; auto).
Qed.

(** What a viewer with these member rows decides about a channel *)
Definition channel_verdict (d : Db) (user : User) (members : gmap string Member) (channel_id : string)
    : option (string * bool) :=
  match db_channels d !! channel_id ≫= resolve_event_channel_target d with
  | None => None
  | Some target =>
      match channel_server target with
      | None => None
      | Some sid =>
          Some (sid, bool_decide (is_Some (members !! sid))
                     && default false (user_can_view_channel now d user sid target))
      end
  end.

Record viewer_ok (d : Db) (user : User) (members : gmap string Member) (v : EventViewer) : Prop := {
  vo_db : v_db v = d;
  vo_user : v_user v = user;
  vo_members : v_members v = members;
  vo_servers s x : v_servers v !! s = Some x -> x = db_servers d !! s;
  vo_channels c x : v_channels v !! c = Some x -> x = channel_verdict d user members c;
}.

Lemma cache_server_ok d user members v sid :
  viewer_ok d user members v ->
  viewer_ok d user members (cache_server v sid)
  /\ v_servers (cache_server v sid) !! sid = Some (db_servers d !! sid).
Proof.
  intros [H1 H2 H3 H4 H5]. unfold cache_server. destruct (v_servers v !! sid) as [x|] eqn:E.
  - split; [done|]. by rewrite E, (H4 _ _ E).
  - rewrite H1. unfold fetch_server.
    replace (match ok_or (db_servers d !! sid) ErrorType.NotFound with Ok s => Some s | Err _ => None end)
      with (db_servers d !! sid) by (by destruct (db_servers d !! sid)).
    split; [|cbn; by rewrite lookup_insert_eq]. split; cbn; try done.
    intros s x [[<- <-]|[_ H]]%lookup_insert_Some; [done|by apply H4].
Qed.

Lemma resolve_ok d user members v cid :
  stored d -> (forall s m, members !! s = Some m -> db_members d !! (s, user_id user) = Some m) ->
  viewer_ok d user members v ->
  exists v', resolve_channel now v cid = Some (v', channel_verdict d user members cid)
             /\ viewer_ok d user members v'.
Proof.
  intros Hd Hm Hv. pose proof Hv as [H1 H2 H3 H4 H5]. unfold resolve_channel, channel_verdict, fetch_channel.
  rewrite H1, H3. destruct (db_channels d !! cid) as [ch|]; cbn; [|by exists v].
  destruct (resolve_event_channel_target d ch) as [t|] eqn:Et; [|by exists v].
  apply resolved_target in Et as (sid & dp & rp & Ho & Hs & _ & Ht). rewrite Hs.
  destruct (members !! sid) as [m|] eqn:Em; cbn; [|by exists v].
  pose proof (Hm _ _ Em) as Em'. destruct (sd_member_server _ Hd _ _ _ Em') as [server Es].
  destruct (cache_server_ok d user members v sid Hv) as [Hv' Ec]. rewrite Ec, Es, (vo_members _ _ _ _ Hv'), Em.
  rewrite (sd_servers _ Hd _ _ Es), (proj1 (sd_members _ Hd _ _ _ Em')), !str_eqb_refl. cbn [andb].
  rewrite (vo_db _ _ _ _ Hv'), (vo_user _ _ _ _ Hv').
  destruct (target_view d user sid t dp rp m server Hd Ho Hs Ht Em' Es) as [-> ->].
  exists (cache_server v sid). done.
Qed.

(** The verdict the routes give on one event, without a viewer *)
Definition event_visible (d : Db) (user : User) (event : CalendarEvent) : Prop :=
  match cev_channel event with
  | None => True
  | Some cid =>
      exists channel, db_channels d !! cid = Some channel
        /\ require_event_channel_view now d user (cev_server event) channel = Some (Ok tt)
  end.

Lemma channel_verdict_visible d user members cid sid m :
  stored d -> members !! sid = Some m ->
  (forall s m, members !! s = Some m -> db_members d !! (s, user_id user) = Some m) ->
  channel_verdict d user members cid = Some (sid, true)
  <-> exists channel, db_channels d !! cid = Some channel
        /\ require_event_channel_view now d user sid channel = Some (Ok tt).
Proof.
  intros Hd Em Hm. unfold channel_verdict, require_event_channel_view.
  destruct (db_channels d !! cid) as [ch|]; cbn; [|by split; [|intros (? & [=] & _)]].
  destruct (resolve_event_channel_target d ch) as [t|] eqn:Et.
  - destruct (resolved_target _ _ _ Et) as (sid' & dp & rp & Ho & Hs & Hc & Ht). rewrite Hs. split.
    + intros [= -> Hb]. apply andb_true_iff in Hb as [_ Hb]. exists ch. split; [done|].
      rewrite Hc, Et. cbn. rewrite str_eqb_refl. cbn.
      revert Hb. by destruct (user_can_view_channel now d user sid t) as [[]|].
    + intros (x & [= <-] & Hx). rewrite Hc, Et in Hx. cbn in Hx.
      destruct (str_eqb sid' sid) eqn:E; [|done]. apply str_eqb_eq in E as ->. cbn in Hx.
      rewrite Em. revert Hx. cbn. by destruct (user_can_view_channel now d user sid t) as [[]|].
  - split; [done|]. intros (x & [= <-] & Hx). rewrite Et in Hx. by destruct (negb _).
Qed.

Fixpoint can_view_all (v : EventViewer) (events : list CalendarEvent) : option (list bool) :=
  match events with
  | [] => Some []
  | event :: rest =>
      match can_view now v event with
      | None => None
      | Some (v', seen) => (cons seen) <$> can_view_all v' rest
      end
  end.

Lemma can_view_ok d user members v event :
  stored d -> (forall s m, members !! s = Some m -> db_members d !! (s, user_id user) = Some m) ->
  viewer_ok d user members v ->
  exists v' b, can_view now v event = Some (v', b) /\ viewer_ok d user members v'
    /\ (b = true <-> is_Some (members !! cev_server event) /\ event_visible d user event).
Proof.
  intros Hd Hm Hv. unfold can_view, event_visible. rewrite (vo_members _ _ _ _ Hv).
  destruct (members !! cev_server event) as [m|] eqn:Em; cbn.
  2: { exists v, false. split; [done|]. split; [done|]. split; [done|]. by intros [[? [=]] _]. }
  destruct (cev_channel event) as [cid|].
  2: { exists v, true. split; [done|]. split; [done|]. split; [|done]. intros _. split; [by eexists|done]. }
  assert (exists v', (match v_channels v !! cid with
    | Some _ => Some v
    | None => match resolve_channel now v cid with
              | None => None
              | Some (v, resolved) => Some (mkViewer (v_db v) (v_user v) (v_members v) (v_servers v)
                                              (<[cid := resolved]> (v_channels v))) end end) = Some v'
    /\ viewer_ok d user members v' /\ v_channels v' !! cid = Some (channel_verdict d user members cid))
    as (v' & -> & Hv' & Ec).
  { destruct (v_channels v !! cid) as [x|] eqn:Ec.
    - exists v. split; [done|]. split; [done|]. by rewrite Ec, (vo_channels _ _ _ _ Hv _ _ Ec).
    - destruct (resolve_ok d user members v cid Hd Hm Hv) as (v1 & -> & [H1 H2 H3 H4 H5]).
      eexists. split; [done|]. cbn. rewrite lookup_insert_eq. split; [|done]. split; cbn; try done.
      intros c x [[<- <-]|[_ H]]%lookup_insert_Some; [done|by apply H5]. }
  exists v'. rewrite Ec. eexists. split; [done|]. split; [done|].
  rewrite <- (channel_verdict_visible d user members cid (cev_server event) m Hd Em Hm).
  destruct (channel_verdict d user members cid) as [[sid []]|]; cbn.
  - rewrite str_eqb_eq. split; [intros ->; eauto|by intros [_ [= ->]]].
  - split; [done|by intros [_ [=]]].
  - split; [done|by intros [_ [=]]].
Qed.

Lemma rows_lookup rows s m : rows_by_server rows !! s = Some m -> m ∈ rows /\ member_server m = s.
Proof.
  unfold rows_by_server. revert s m. induction rows as [|x rows IH] using rev_ind; intros s m; [done|].
  rewrite foldl_app. cbn. intros [[<- <-]|[_ H]]%lookup_insert_Some.
  - split; [|done]. apply elem_of_app. right. left.
  - destruct (IH s m H). split; [apply elem_of_app; by left|done].
Qed.

Lemma rows_some rows m : m ∈ rows -> is_Some (rows_by_server rows !! member_server m).
Proof.
  unfold rows_by_server. induction rows as [|x rows IH] using rev_ind; [by intros ?%elem_of_nil|].
  intros Hm. rewrite foldl_app. cbn. destruct (decide (member_server x = member_server m)) as [->|Hne].
  - rewrite lookup_insert_eq. eauto.
  - rewrite lookup_insert_ne by done. apply elem_of_app in Hm as [Hm|Hm]; [by apply IH|].
    apply list_elem_of_singleton in Hm as ->. done.
Qed.

(** What a viewer shows, with the routes walking the maps in its order *)
Lemma viewer_verdicts d user rows events :
  stored d -> Forall (fun m => db_members d !! (member_server m, member_user m) = Some m) rows ->
  exists seen, can_view_all (with_memberships d user rows) events = Some seen
    /\ Forall2 (fun event b =>
         b = true <-> (exists m, m ∈ rows /\ member_server m = cev_server event
                                /\ member_user m = user_id user) /\ event_visible d user event)
         events seen.
Proof.
  intros Hd Hrows. unfold with_memberships. set (own := List.filter _ rows).
  pose proof (rows_lookup own) as Hin. pose proof (rows_some own) as Hex.
  set (members := rows_by_server own) in *.
  assert (viewer_ok d user members (mkViewer d user members ∅ ∅)) as Hv
    by (split; cbn; try done; intros ? ? H; by rewrite lookup_empty in H).
  assert (forall s m, members !! s = Some m -> db_members d !! (s, user_id user) = Some m) as Hm.
  { intros s m [Ho <-]%Hin. apply elem_of_filter_bool in Ho as [Hu%str_eqb_eq Ho].
    rewrite Forall_forall in Hrows. rewrite <- Hu. by apply Hrows. }
  assert (forall e, is_Some (members !! cev_server e) <-> exists m, m ∈ rows /\ member_server m = cev_server e
            /\ member_user m = user_id user) as Hrow.
  { intros e. split.
    - intros [m Hm']. apply Hin in Hm' as [Ho Hs]. apply elem_of_filter_bool in Ho as [Hu%str_eqb_eq Ho]. eauto.
    - intros (m & Ho & <- & Hu). apply Hex. apply elem_of_filter_bool. split; [by apply str_eqb_eq|done]. }
  clearbody members. generalize dependent (mkViewer d user members ∅ ∅).
  induction events as [|e events IH]; intros v Hv; [by exists []|]. cbn [can_view_all].
  destruct (can_view_ok d user members v e Hd Hm Hv) as (v' & b & -> & Hv' & Hb).
  destruct (IH v' Hv') as (seen & -> & Hf). exists (b :: seen). split; [done|].
  constructor; [|done]. by rewrite Hb, Hrow.
Qed.
End Agreement.

(** *** Any two walks *)

(** Every fetch of a server or a channel from MongoDB builds maps of its own,
    each walked in an order of its own. *)
Section Walks.
Context (i1 i2 : HashIter string Role) (j1 j2 : HashIter string OverrideField.t).

Lemma verdict_any_walk server user member dp rp :
  ranks_distinct (server_roles server) ->
  @verdict i1 j1 server user member dp rp = @verdict i2 j2 server user member dp rp.
Proof.
  intros Hr. unfold verdict.
  destruct (role_overrides_deterministic i1 i2 j1 j2 server member rp Hr) as [-> ->]. done.
Qed.

Context (c1 c2 : HashIter string Channel.t) (m1 m2 : HashIter (string * string) Member) (now : Z).

Lemma view_any_walk d user sid target dp rp :
  stored d -> (forall s x, db_servers d !! s = Some x -> ranks_distinct (server_roles x)) ->
  overrides_of target = Some (sid, dp, rp) -> channel_server target = Some sid -> is_thread target = false ->
  @user_can_view_channel c1 m1 i1 j1 now d user sid target = @user_can_view_channel c2 m2 i2 j2 now d user sid target.
Proof.
  intros Hd Hr Ho Hs Ht. destruct (db_members d !! (sid, user_id user)) as [m|] eqn:Em.
  - destruct (sd_member_server _ Hd _ _ _ Em) as [server Es].
    rewrite (proj1 (@target_view c1 m1 i1 j1 now d user sid target dp rp m server Hd Ho Hs Ht Em Es)).
    rewrite (proj1 (@target_view c2 m2 i2 j2 now d user sid target dp rp m server Hd Ho Hs Ht Em Es)).
    by rewrite verdict_any_walk by eauto.
  - unfold user_can_view_channel, fetch_member. by rewrite Em.
Qed.

Lemma event_visible_any_walk d user event :
  stored d -> (forall s x, db_servers d !! s = Some x -> ranks_distinct (server_roles x)) ->
  @event_visible c1 m1 i1 j1 now d user event <-> @event_visible c2 m2 i2 j2 now d user event.
Proof.
  intros Hd Hr. unfold event_visible. destruct (cev_channel event) as [cid|]; [|done].
  assert (forall channel, @require_event_channel_view c1 m1 i1 j1 now d user (cev_server event) channel
                          = @require_event_channel_view c2 m2 i2 j2 now d user (cev_server event) channel) as E.
  { intros channel. unfold require_event_channel_view. destruct (negb _) eqn:En; [done|].
    destruct (resolve_event_channel_target d channel) as [target|] eqn:Et; [|done].
    apply resolved_target in Et as (sid & dp & rp & Ho & Hs & Hc & Ht).
    rewrite Hc in En. cbn in En. apply negb_false_iff, str_eqb_eq in En as <-.
    by rewrite (view_any_walk d user sid target dp rp). }
  split; intros (channel & Hch & Hv); exists channel; (split; [done|]); [by rewrite <- E | by rewrite E].
Qed.
End Walks.

(** C21. Asked for many users whether they see a channel, the bulk calculator says
    of each member of the server what the calculator for one user says, and
    no to everyone else; a thread is judged by its parent.  The two fetch the
    documents separately, so their maps are walked in two orders; no two
    roles of the server have one rank (where ranks are tied, the orders
    decide: [equal_ranks_nondeterministic]). *)
Theorem bulk_verdicts_agree
    (i1 i2 : HashIter string Role) (j1 j2 : HashIter string OverrideField.t)
    `{!HashIter string Channel.t, !HashIter (string * string) Member}
    now d sid server cid channel target dp rp users :
  members_keyed d -> db_servers d !! sid = Some server -> server_id server = sid ->
  ranks_distinct (server_roles server) ->
  db_channels d !! cid = Some channel -> permission_target d channel = Ok target ->
  overrides_of target = Some (sid, dp, rp) -> NoDup (user_id <$> users) ->
  exists seen,
    @members_can_see_channel i1 j1 now (bulk_users (from_channel_id (from_server_id d sid) cid) users) = Some seen
    /\ forall u, u ∈ users ->
         match db_members d !! (sid, user_id u) with
         | Some _ => seen !! user_id u = @views _ _ i2 j2 (set_channel (new d now u) target)
                     /\ @views _ _ i2 j2 (set_channel (new d now u) target) <> None
         | None => seen !! user_id u = Some false
         end.
Proof.
  intros Hk Es Eid Hr Ec Et Ho Hnd.
  destruct (@bulk_verdicts i1 j1 now d sid server cid channel target dp rp users)
    as (seen & Hs & Hall); [done..|].
  exists seen. split; [done|]. intros u Hu. rewrite (Hall u Hu).
  destruct (db_members d !! (sid, user_id u)) as [m|] eqn:Em; [|done].
  rewrite (single_verdict now d sid server target dp rp u m Es Eid Ho Em).
  by rewrite (verdict_any_walk i1 i2 j1 j2) by done.
Qed.

(** C22. However many events it is asked about, in whatever order and with what
    it remembers, a viewer built from member rows of its user never panics
    and shows exactly the events on servers it has a row for whose channel,
    if any, the routes would let the user view there: what is kept from one
    event never leaks into another.  Viewer and routes fetch the documents
    separately and walk their maps in two orders; no server has two roles of
    one rank. *)
Theorem viewer_agrees_with_the_routes
    (c1 c2 : HashIter string Channel.t) (m1 m2 : HashIter (string * string) Member)
    (i1 i2 : HashIter string Role) (j1 j2 : HashIter string OverrideField.t) now d user rows events :
  stored d -> (forall s x, db_servers d !! s = Some x -> ranks_distinct (server_roles x)) ->
  Forall (fun m => db_members d !! (member_server m, member_user m) = Some m) rows ->
  exists seen, @can_view_all c1 m1 i1 j1 now (with_memberships d user rows) events = Some seen
    /\ Forall2 (fun event b =>
         b = true <-> (exists m, m ∈ rows /\ member_server m = cev_server event
                                /\ member_user m = user_id user) /\ @event_visible c2 m2 i2 j2 now d user event)
         events seen.
Proof.
  intros Hd Hr Hrows.
  destruct (@viewer_verdicts c1 m1 i1 j1 now d user rows events Hd Hrows) as (seen & Hs & Hall).
  exists seen. split; [done|]. eapply Forall2_impl; [exact Hall|]. intros event b ->.
  by rewrite (event_visible_any_walk i1 i2 j1 j2 c1 c2 m1 m2).
Qed.

(** ** A server *)

Module AudienceDemo.
Definition owner : User := mkUser "o" false None None.
Definition plain : User := mkUser "p" false None None.
Definition ranked : User := mkUser "r" false None None.
Definition stranger : User := mkUser "x" true None None.
Definition row (u : string) (roles : list string) : Member := mkMember "s" u roles None true true.
Definition open : Channel.t := Channel.TextChannel "c" "s" None ∅.

(** Nobody views but the holders of the lower of two roles *)
Definition overrides : gmap string OverrideField.t := {[ "b" := OverrideField.mk 1048576 0 ]}.
Definition hidden : Channel.t := Channel.Forum "h" "s" (Some (OverrideField.mk 0 1048576)) overrides.
Definition server : Server :=
  mkServer "s" "o" (<["a" := sample_role "a" 0 0 1048576]> (<["b" := sample_role "b" 1 1048576 0]> ∅)) 1048576.
Definition db : Db :=
  mkDb ∅ {[ "s" := server ]}
    {[ ("s", "o") := row "o" []; ("s", "p") := row "p" []; ("s", "r") := row "r" ["a"; "b"] ]}
    {[ "c" := open; "h" := hidden; "t" := Channel.Thread "t" "s" "h" ]}.

Lemma db_stored : stored db.
Proof.
  assert (forall s u m, db_members db !! (s, u) = Some m -> s = "s" /\ member_server m = s /\ member_user m = u) as Hm.
  { intros s u m H. cbn in H. apply lookup_insert_Some in H as [[[= <- <-] <-]|[_ H]]; [done|].
    apply lookup_insert_Some in H as [[[= <- <-] <-]|[_ H]]; [done|].
    apply lookup_singleton_Some in H as [[= <- <-] <-]. done. }
  split.
  - by intros s u m [_ ?]%Hm.
  - intros s x H. cbn in H. by apply lookup_singleton_Some in H as [<- <-].
  - intros s u m [-> _]%Hm. by eexists.
Qed.

Lemma server_ranks : ranks_distinct (server_roles server).
Proof. by apply ranks_distinct_two. Qed.
End AudienceDemo.

Import AudienceDemo.

(** The thread of a hidden forum: its owner sees it and so does the member
    with the role, another member does not, and neither does staff that is no
    member. *)
Lemma bulk_verdicts_agree_witness :
  exists seen,
    members_can_see_channel 0 (bulk_users (from_channel_id (from_server_id db "s") "t")
                                 [owner; plain; ranked; stranger]) = Some seen
    /\ seen !! "o" = Some true /\ seen !! "p" = Some false /\ seen !! "r" = Some true /\ seen !! "x" = Some false.
Proof.
  destruct (bulk_verdicts_agree _ (reversed_iter string Role) _ (reversed_iter string OverrideField.t)
              0 db "s" server "t" (Channel.Thread "t" "s" "h") hidden
              (Some (OverrideField.mk 0 1048576)) overrides [owner; plain; ranked; stranger]) as (seen & E & H);
    [apply db_stored|reflexivity|reflexivity|apply server_ranks|reflexivity..|repeat constructor; set_solver|].
  exists seen. split; [exact E|].
  pose proof (H owner ltac:(set_solver)) as H1. pose proof (H plain ltac:(set_solver)) as H2.
  pose proof (H ranked ltac:(set_solver)) as H3. pose proof (H stranger ltac:(set_solver)) as H4.
  vm_compute in H1, H2, H3, H4.
  split; [apply H1|]. split; [apply H2|]. split; [apply H3 | apply H4].
Defined.

Lemma viewer_agrees_with_the_routes_witness :
  exists seen, can_view_all 0 (with_memberships db plain [row "p" []])
    [mkEvent "s" (Some "c"); mkEvent "s" (Some "t"); mkEvent "q" None; mkEvent "s" None] = Some seen
    /\ seen = [true; false; false; true].
Proof.
  destruct (viewer_agrees_with_the_routes _ (reversed_iter string Channel.t) _ (reversed_iter (string * string) Member)
    _ (reversed_iter string Role) _ (reversed_iter string OverrideField.t) 0 db plain [row "p" []]
    [mkEvent "s" (Some "c"); mkEvent "s" (Some "t"); mkEvent "q" None; mkEvent "s" None]) as (seen & E & _);
    [apply db_stored| |repeat constructor|].
  { intros s x Hx. cbn in Hx. apply lookup_singleton_Some in Hx as [_ <-]. apply server_ranks. }
  exists seen. split; [exact E|]. vm_compute in E. congruence.
Defined.
