(* ===== verification/Polls.v ===== *)
(** * Polls
      (crates/core/database/src/models/polls, crates/delta/src/routes/channels/poll_*.rs,
       crates/delta/src/util/polls.rs, crates/daemons/crond/src/tasks/poll_expiry.rs)

    A poll keeps its counts beside the ballots they count: a vote writes the
    ballot, then adds the difference to the counts, then looks whether the
    poll was closed meanwhile.  Each of these is an operation of its own, so
    the handlers are [prog]s over the stored polls and ballots and over the
    events sent to the channel.  A permission check reads one state of the
    other documents.  Counts stay below the number of users and are written
    without wrap-around. *)

From stdpp Require Import base numbers list gmap strings pretty sorting.
From S2P Require Import Prelude Text Errors Program Permissions Store PermissionQueryDb Audience.
Open Scope Z_scope.
Open Scope sloga_scope.

Record PollAnswer : Type := mkAnswer {
  pa_id : Z;
  pa_text : string;
  pa_emoji : option string;
}.

Record Poll : Type := mkPoll {
  pl_id : string;
  pl_message : string;
  pl_channel : string;
  pl_server : option string;
  pl_author : string;
  pl_question : string;
  pl_answers : list PollAnswer;
  pl_allow_multiselect : bool;
  pl_expires_at : Z;
  pl_closed : bool;
  pl_counts : gmap string Z;
  pl_total_votes : Z;
}.

Record PollVote : Type := mkVote {
  pv_id : string;
  pv_poll : string;
  pv_user : string;
  pv_channel : string;
  pv_answer_ids : list Z;
}.

Record PollAnswerCount : Type := mkCount { pc_answer_id : Z; pc_count : Z }.

(** [v0::Poll] *)
Record PollView : Type := mkView {
  vw_id : string;
  vw_message_id : string;
  vw_channel_id : string;
  vw_author_id : string;
  vw_closed : bool;
  vw_expires_at : Z;
  vw_counts : option (list PollAnswerCount);
  vw_total_votes : option Z;
  vw_my_votes : option (list Z);
}.

(** What is sent to a channel *)
Inductive PollEvent : Type :=
| PollClose (id channel_id message_id : string) (counts : list PollAnswerCount) (total_votes : Z)
| PollVoteUpdate (id channel_id message_id : string) (counts : list PollAnswerCount) (total_votes : Z).

Record World : Type := mkWorld {
  w_db : Db;
  w_polls : gmap string Poll;
  w_votes : gmap string PollVote;
  w_events : list PollEvent;
}.

Definition set_polls (w : World) (polls : gmap string Poll) : World :=
  mkWorld (w_db w) polls (w_votes w) (w_events w).
Definition set_votes (w : World) (votes : gmap string PollVote) : World :=
  mkWorld (w_db w) (w_polls w) votes (w_events w).

Definition set_counts (p : Poll) (counts : gmap string Z) (total_votes : Z) : Poll :=
  mkPoll (pl_id p) (pl_message p) (pl_channel p) (pl_server p) (pl_author p) (pl_question p)
    (pl_answers p) (pl_allow_multiselect p) (pl_expires_at p) (pl_closed p) counts total_votes.
Definition set_closed (p : Poll) : Poll :=
  mkPoll (pl_id p) (pl_message p) (pl_channel p) (pl_server p) (pl_author p) (pl_question p)
    (pl_answers p) (pl_allow_multiselect p) (pl_expires_at p) true (pl_counts p) (pl_total_votes p).

(** ** A poll *)

Definition vote_key (poll user : string) : string := poll +:+ ":" +:+ user.

Definition is_expired (p : Poll) (now_ms : Z) : bool := pl_expires_at p <=? now_ms.

(** [answer.id.to_string()] *)
Definition answer_key (id : Z) : string := pretty id.

Definition counts_for (answers : list PollAnswer) (counts : gmap string Z) : list PollAnswerCount :=
  (fun answer => mkCount (pa_id answer) (default 0 (counts !! answer_key (pa_id answer)))) <$> answers.

Definition counts_vec (p : Poll) : list PollAnswerCount := counts_for (pl_answers p) (pl_counts p).

Definition into_model (p : Poll) (my_votes : option (list Z)) (include_counts : bool) : PollView :=
  mkView (pl_id p) (pl_message p) (pl_channel p) (pl_author p) (pl_closed p) (pl_expires_at p)
    (if include_counts then Some (counts_vec p) else None)
    (if include_counts then Some (pl_total_votes p) else None) my_votes.

(** [*map.entry(k).or_insert(0) += d] *)
Definition bump (d : Z) (counts : gmap string Z) (key : string) : gmap string Z :=
  <[key := default 0 (counts !! key) + d]> counts.

Definition no_ids (ids : list string) : bool := match ids with [] => true | _ => false end.

(** ** The collections *)

Section Store.
Context `{!HashIter string Poll, !HashIter string PollVote, !HashIter string Z}.

Definition insert_poll (poll : Poll) (w : World) : World * Result unit :=
  (set_polls w (<[pl_id poll := poll]> (w_polls w)),
   match w_polls w !! pl_id poll with
   | Some _ => Err (create_database_error "insert" "polls")
   | None => Ok tt
   end).

Definition fetch_poll (id : string) (w : World) : World * Result Poll :=
  (w, ok_or (w_polls w !! id) ErrorType.NotFound).

Definition fetch_polls (ids : list string) (w : World) : World * Result (list Poll) :=
  (w, Ok (omap (fun id => w_polls w !! id) ids)).

Definition upsert_poll_vote (vote : PollVote) (w : World) : World * Result (option (list Z)) :=
  (set_votes w (<[pv_id vote := vote]> (w_votes w)), Ok (pv_answer_ids <$> w_votes w !! pv_id vote)).

Definition remove_poll_vote (poll user : string) (w : World) : World * Result (option (list Z)) :=
  (set_votes w (delete (vote_key poll user) (w_votes w)),
   Ok (pv_answer_ids <$> w_votes w !! vote_key poll user)).

Definition fetch_poll_vote (poll user : string) (w : World) : World * Result (option PollVote) :=
  (w, Ok (w_votes w !! vote_key poll user)).

Definition fetch_poll_votes_for_user (poll_ids : list string) (user : string) (w : World)
    : World * Result (list PollVote) :=
  (w, Ok (omap (fun poll => w_votes w !! vote_key poll user) poll_ids)).

Definition fetch_poll_votes (poll : string) (w : World) : World * Result (list PollVote) :=
  (w, Ok (List.filter (fun vote => str_eqb (pv_poll vote) poll) (hm_values (w_votes w)))).

Definition fetch_poll_voters_page (poll : string) (answer_id : Z) (after : option string) (limit : Z)
    (w : World) : World * Result (list PollVote) :=
  let page := List.filter (fun vote =>
                str_eqb (pv_poll vote) poll && existsb (Z.eqb answer_id) (pv_answer_ids vote)
                && match after with Some after => str_ltb after (pv_id vote) | None => true end)
                (hm_values (w_votes w)) in
  (w, Ok (take (Z.to_nat (Z.max limit 0)) (sort_by (fun a b => str_leb (pv_id a) (pv_id b)) page))).

(** One entry of the differences *)
Definition apply_delta (counts : gmap string Z) (entry : string * Z) : gmap string Z :=
  let counts := bump entry.2 counts entry.1 in
  if default 0 (counts !! entry.1) =? 0 then delete entry.1 counts else counts.

Definition apply_poll_count_deltas (poll : string) (deltas : gmap string Z) (ballot_delta : Z) (w : World)
    : World * Result unit :=
  (set_polls w (alter (fun p => set_counts p (foldl apply_delta (pl_counts p) (hm_iter deltas))
                                  (pl_total_votes p + ballot_delta)) poll (w_polls w)), Ok tt).

Definition set_poll_counts (poll : string) (counts : gmap string Z) (total_votes : Z) (w : World)
    : World * Result unit :=
  (set_polls w (alter (fun p => set_counts p counts total_votes) poll (w_polls w)), Ok tt).

Definition close_poll_if_open (id : string) (w : World) : World * Result bool :=
  match w_polls w !! id with
  | Some poll =>
      if pl_closed poll then (w, Ok false)
      else (set_polls w (<[id := set_closed poll]> (w_polls w)), Ok true)
  | None => (w, Ok false)
  end.

Definition fetch_expired_open_polls (now_ms : Z) (w : World) : World * Result (list Poll) :=
  (w, Ok (List.filter (fun poll => negb (pl_closed poll) && (pl_expires_at poll <=? now_ms))
            (hm_values (w_polls w)))).

(** The lock on the polls is held throughout. *)
Definition delete_polls_for_messages (message_ids : list string) (w : World) : World * Result unit :=
  let poll_ids := pl_id <$> List.filter (fun poll => existsb (str_eqb (pl_message poll)) message_ids)
                              (hm_values (w_polls w)) in
  if no_ids poll_ids then (w, Ok tt)
  else
    (mkWorld (w_db w) (filter (fun kv => existsb (str_eqb kv.1) poll_ids = false) (w_polls w))
       (filter (fun kv => existsb (str_eqb (pv_poll kv.2)) poll_ids = false) (w_votes w)) (w_events w),
     Ok tt).

Definition delete_polls_for_channel (channel : string) (w : World) : World * Result unit :=
  (mkWorld (w_db w) (filter (fun kv => str_eqb (pl_channel kv.2) channel = false) (w_polls w))
     (filter (fun kv => str_eqb (pv_channel kv.2) channel = false) (w_votes w)) (w_events w), Ok tt).

(** [EventV1::p] *)
Definition publish (event : PollEvent) (w : World) : World * unit :=
  (mkWorld (w_db w) (w_polls w) (w_votes w) (w_events w ++ [event]), tt).

(** ** Counting and closing *)

Definition tally (votes : list PollVote) : gmap string Z :=
  foldl (fun counts vote => foldl (bump 1) counts (answer_key <$> pv_answer_ids vote)) ∅ votes.

Definition recount (self : Poll) : Eff World (list PollAnswerCount * Z) :=
  let! votes := atom (fetch_poll_votes (pl_id self)) in
  let counts := tally votes in
  let total_votes := Z.of_nat (length votes) in
  let! _ := atom (set_poll_counts (pl_id self) counts total_votes) in
  ok (counts_for (pl_answers self) counts, total_votes).

Definition close (self : Poll) : Eff World (option (list PollAnswerCount * Z)) :=
  let! won := atom (close_poll_if_open (pl_id self)) in
  if negb won then ok None
  else
    let! (final_counts, total_votes) := recount self in
    do! _ <- atom (publish (PollClose (pl_id self) (pl_channel self) (pl_message self) final_counts
                              total_votes));
    ok (Some (final_counts, total_votes)).

(** One pass of the expiry daemon; errors of one poll are logged. *)
Fixpoint close_all (due : list Poll) : Eff World unit :=
  match due with
  | [] => ok tt
  | poll :: due => do! _ <- close poll; close_all due
  end.

Definition expiry_tick (now_ms : Z) : Eff World unit :=
  let! due := atom (fetch_expired_open_polls now_ms) in
  close_all due.

(** ** Routes *)

Context `{!HashIter string Channel.t, !HashIter (string * string) Member}.
Context `{!HashIter string Role, !HashIter string OverrideField.t}.
(** The validator's message is a parameter. *)
Context (validation_error : string).

(** The gate every route starts with.  [now] is read for timeouts. *)
Definition view_channel (user : User) (target : string) (now : Z) : Eff World (Channel.t * Z) :=
  let! channel := atom (fun w => (w, fetch_channel (w_db w) target)) in
  let! permission_channel := atom (fun w => (w, permission_target (w_db w) channel)) in
  do! permissions <- atom (fun w =>
    (w, calculate_channel_permissions (set_channel (new (w_db w) now user) permission_channel)));
  match permissions with
  | None => Panic
  | Some (permissions, _) =>
      match PV.throw_if_lacking_channel_permission permissions CP.ViewChannel with
      | Ok _ => ok (channel, permissions)
      | Err e => fail e
      end
  end.

(** The poll named in the path, if it is one of the channel *)
Definition poll_in (channel : Channel.t) (poll_id : string) : Eff World Poll :=
  let! poll := atom (fetch_poll poll_id) in
  if negb (str_eqb (pl_channel poll) (Channel.id channel)) then fail ErrorType.NotFound else ok poll.

Definition can_see_counts (poll : Poll) (user_id : string) (permissions : Z) (has_voted : bool) : bool :=
  pl_closed poll || has_voted || str_eqb (pl_author poll) user_id
  || PV.has_channel_permission permissions CP.ManageMessages.

Definition my_votes (poll : Poll) (user : User) : Eff World (option (list Z)) :=
  let! vote := atom (fetch_poll_vote (pl_id poll) (user_id user)) in
  ok (pv_answer_ids <$> vote).

(** [now_ms] is read where the code reads the clock. *)
Definition resolve_open_poll (user : User) (target poll_id : string) (now now_ms : Z) : Eff World Poll :=
  let! (channel, _) := view_channel user target now in
  let! poll := poll_in channel poll_id in
  if pl_closed poll then fail ErrorType.PollClosed
  else if is_expired poll now_ms then
    let! _ := close poll in
    fail ErrorType.PollClosed
  else ok poll.

Definition publish_vote_update (poll : Poll) : Eff World unit :=
  do! _ <- atom (publish (PollVoteUpdate (pl_id poll) (pl_channel poll) (pl_message poll) (counts_vec poll)
                            (pl_total_votes poll)));
  ok tt.

Definition ballot (poll : Poll) (user_id : string) (answer_ids : list Z) : PollVote :=
  mkVote (vote_key (pl_id poll) user_id) (pl_id poll) user_id (pl_channel poll) answer_ids.

Definition compensate_write_after_close (poll : Poll) (user_id : string) (previous : option (list Z))
    : Eff World unit :=
  let! _ := match previous with
            | Some answer_ids => atom (upsert_poll_vote (ballot poll user_id answer_ids))
            | None => atom (remove_poll_vote (pl_id poll) user_id)
            end in
  let! _ := recount poll in
  fail ErrorType.PollClosed.

Definition vote_deltas (previous : option (list Z)) (answer_ids : list Z) : gmap string Z :=
  let deltas := foldl (bump (-1)) ∅ (answer_key <$> default [] previous) in
  let deltas := foldl (bump 1) deltas (answer_key <$> answer_ids) in
  filter (fun kv => kv.2 <> 0) deltas.

(** Is the ballot one of this poll? *)
Definition accepts (poll : Poll) (answer_ids : list Z) : bool :=
  (pl_allow_multiselect poll || (length answer_ids =? 1)%nat)
  && forallb (fun id => existsb (fun answer => pa_id answer =? id) (pl_answers poll)) answer_ids.

Definition poll_vote (user : User) (target poll_id : string) (answer_ids : list Z) (now now_ms : Z)
    : Eff World PollView :=
  if negb ((1 <=? length answer_ids)%nat && (length answer_ids <=? 10)%nat)
  then fail (ErrorType.FailedValidation validation_error)
  else
    let! poll := resolve_open_poll user target poll_id now now_ms in
    let answer_ids := dedup (sort_by Z.leb answer_ids) in
    if negb (accepts poll answer_ids) then fail ErrorType.InvalidProperty
    else
      let! previous := atom (upsert_poll_vote (ballot poll (user_id user) answer_ids)) in
      let! _ := atom (apply_poll_count_deltas (pl_id poll) (vote_deltas previous answer_ids)
                        (match previous with None => 1 | Some _ => 0 end)) in
      let! poll := atom (fetch_poll (pl_id poll)) in
      let! _ := if pl_closed poll then compensate_write_after_close poll (user_id user) previous else ok tt in
      let! _ := publish_vote_update poll in
      ok (into_model poll (Some answer_ids) true).

Definition poll_unvote (user : User) (target poll_id : string) (now now_ms : Z) : Eff World PollView :=
  let! poll := resolve_open_poll user target poll_id now now_ms in
  let! previous := atom (remove_poll_vote (pl_id poll) (user_id user)) in
  let! _ :=
    match previous with
    | Some removed =>
        let deltas := foldl (bump (-1)) ∅ (answer_key <$> removed) in
        let! _ := atom (apply_poll_count_deltas (pl_id poll) deltas (-1)) in
        let! poll := atom (fetch_poll (pl_id poll)) in
        let! _ := if pl_closed poll then compensate_write_after_close poll (user_id user) previous else ok tt in
        publish_vote_update poll
    | None => ok tt
    end in
  let! poll := atom (fetch_poll (pl_id poll)) in
  ok (into_model poll None (str_eqb (pl_author poll) (user_id user))).

Definition poll_end (user : User) (target poll_id : string) (now : Z) : Eff World PollView :=
  let! (channel, permissions) := view_channel user target now in
  let! poll := poll_in channel poll_id in
  let! _ :=
    if negb (str_eqb (pl_author poll) (user_id user))
    then Ret (PV.throw_if_lacking_channel_permission permissions CP.ManageMessages)
    else ok tt in
  let! _ := close poll in
  let! poll := atom (fetch_poll poll_id) in
  let! mine := my_votes poll user in
  ok (into_model poll mine true).

Definition poll_fetch (user : User) (target poll_id : string) (now now_ms : Z) : Eff World PollView :=
  let! (channel, permissions) := view_channel user target now in
  let! poll := poll_in channel poll_id in
  let! poll :=
    if negb (pl_closed poll) && is_expired poll now_ms then
      let! _ := close poll in
      atom (fetch_poll poll_id)
    else ok poll in
  let! mine := my_votes poll user in
  ok (into_model poll mine (can_see_counts poll (user_id user) permissions (bool_decide (is_Some mine)))).

Definition poll_voters (user : User) (target poll_id : string) (answer_id : Z) (after : option string)
    (limit : option Z) (now : Z) : Eff World (list User) :=
  let! (channel, permissions) := view_channel user target now in
  let! poll := poll_in channel poll_id in
  let! _ :=
    if negb (str_eqb (pl_author poll) (user_id user))
    then Ret (PV.throw_if_lacking_channel_permission permissions CP.ManageMessages)
    else ok tt in
  let limit := Z.min (Z.max (default 50 limit) 1) 100 in
  let! votes := atom (fetch_poll_voters_page (pl_id poll) answer_id after limit) in
  atom (fun w => (w, fetch_users (w_db w) (pv_user <$> votes))).

(** The polls that expired, closed one after the other; their ids *)
Fixpoint close_expired (polls : list Poll) (now_ms : Z) : Eff World (list string) :=
  match polls with
  | [] => ok []
  | poll :: polls =>
      if negb (pl_closed poll) && is_expired poll now_ms then
        let! _ := close poll in
        let! refetch := close_expired polls now_ms in
        ok (pl_id poll :: refetch)
      else close_expired polls now_ms
  end.

(** [*slot = updated], in the first slot with its id *)
Fixpoint replace_poll (polls : list Poll) (updated : Poll) : list Poll :=
  match polls with
  | [] => []
  | poll :: rest =>
      if str_eqb (pl_id poll) (pl_id updated) then updated :: rest else poll :: replace_poll rest updated
  end.

Definition polls_fetch_bulk (user : User) (target : string) (ids : list string) (now now_ms : Z)
    : Eff World (list PollView) :=
  if negb ((1 <=? length ids)%nat && (length ids <=? 100)%nat)
  then fail (ErrorType.FailedValidation validation_error)
  else
    let! (channel, permissions) := view_channel user target now in
    let! polls := atom (fetch_polls ids) in
    let polls := List.filter (fun poll => str_eqb (pl_channel poll) (Channel.id channel)) polls in
    let! refetch := close_expired polls now_ms in
    let! polls :=
      if no_ids refetch then ok polls
      else
        let! closed := atom (fetch_polls refetch) in
        ok (foldl replace_poll polls closed) in
    let! mine := atom (fetch_poll_votes_for_user (pl_id <$> polls) (user_id user)) in
    ok ((fun poll =>
           let votes := pv_answer_ids <$> List.find (fun vote => str_eqb (pv_poll vote) (pl_id poll)) mine in
           into_model poll votes
             (can_see_counts poll (user_id user) permissions (bool_decide (is_Some votes)))) <$> polls).
End Store.
