(* ===== verification/PollsSystem.v ===== *)
(** * Polls: votes, closings and deletions at once

    What holds of the counts, of the ballots and of the announcements however
    the handlers of Polls.v interleave, and two interleavings in which they
    promise more than they do. *)

From stdpp Require Import base numbers list gmap strings pretty sorting.
From S2P Require Import Prelude Text Errors Program Permissions Store PermissionQueryDb Audience Polls.
Open Scope Z_scope.
Open Scope sloga_scope.

(** ** Counting *)

Definition occurs (a : Z) (l : list Z) : Z := list_sum (fun x => if x =? a then 1 else 0) l.

Lemma list_sum_cons {A} (f : A -> Z) x l : list_sum f (x :: l) = f x + list_sum f l.
Proof. done. Qed.

Lemma occurs_cons a x l : occurs a (x :: l) = (if x =? a then 1 else 0) + occurs a l.
Proof. done. Qed.

Lemma answer_key_inj a b : answer_key a = answer_key b -> a = b.
Proof. apply pretty_Z_inj. Qed.

Lemma bump_lookup d counts x a :
  default 0 (bump d counts (answer_key x) !! answer_key a)
  = default 0 (counts !! answer_key a) + (if x =? a then d else 0).
Proof.
  unfold bump. destruct (x =? a) eqn:E.
  - apply Z.eqb_eq in E as ->. by rewrite lookup_insert_eq.
  - apply Z.eqb_neq in E. rewrite lookup_insert_ne by (intros H; by apply answer_key_inj in H). lia.
Qed.

Lemma bumps_lookup d l : forall counts a,
  default 0 (foldl (bump d) counts (answer_key <$> l) !! answer_key a)
  = default 0 (counts !! answer_key a) + d * occurs a l.
Proof.
  induction l as [|x l IH]; intros counts a; cbn [fmap list_fmap foldl]; [unfold occurs; cbn [list_sum foldr]; ring|].
  rewrite IH, bump_lookup, occurs_cons. destruct (x =? a); ring.
Qed.

Lemma tally_lookup votes a :
  default 0 (tally votes !! answer_key a) = list_sum (fun v => occurs a (pv_answer_ids v)) votes.
Proof.
  unfold tally. assert (forall counts, default 0 (foldl (fun counts vote =>
    foldl (bump 1) counts (answer_key <$> pv_answer_ids vote)) counts votes !! answer_key a)
    = default 0 (counts !! answer_key a) + list_sum (fun v => occurs a (pv_answer_ids v)) votes) as H;
    [|by rewrite H, lookup_empty].
  induction votes as [|v votes IH]; intros counts; cbn [foldl]; [cbn [list_sum foldr]; ring|].
  rewrite IH, bumps_lookup, list_sum_cons. ring.
Qed.

Lemma apply_delta_lookup counts k d j :
  default 0 (apply_delta counts (k, d) !! j) = default 0 (counts !! j) + (if str_eqb k j then d else 0).
Proof.
  unfold apply_delta, bump. cbn [fst snd]. rewrite lookup_insert_eq. cbn [default from_option].
  destruct (str_eqb k j) eqn:E.
  - apply str_eqb_eq in E as ->. destruct (_ =? 0) eqn:Ez.
    + apply Z.eqb_eq in Ez. rewrite lookup_delete_eq. unfold id in *. cbn. lia.
    + by rewrite lookup_insert_eq.
  - apply str_eqb_neq in E. destruct (_ =? 0).
    + rewrite lookup_delete_ne, lookup_insert_ne by done. lia.
    + rewrite lookup_insert_ne by done. lia.
Qed.

Lemma deltas_lookup `{!HashIter string Z} (deltas : gmap string Z) counts j :
  default 0 (foldl apply_delta counts (hm_iter deltas) !! j)
  = default 0 (counts !! j) + default 0 (deltas !! j).
Proof.
  transitivity (default 0 (counts !! j)
    + list_sum (fun e : string * Z => if str_eqb e.1 j then e.2 else 0) (hm_iter deltas)).
  - generalize (hm_iter deltas). intros l. revert counts. induction l as [|[k d] l IH]; intros counts; cbn [foldl]; [cbn [list_sum foldr]; ring|].
    rewrite IH, apply_delta_lookup, list_sum_cons. cbn [fst snd]. ring.
  - f_equal. rewrite hm_iter_perm. induction deltas as [|k d m Hk IH] using map_ind; [done|].
    rewrite map_to_list_insert by done. rewrite list_sum_cons, IH. cbn [fst snd]. destruct (str_eqb k j) eqn:E.
    + apply str_eqb_eq in E as ->. rewrite lookup_insert_eq, Hk. cbn. lia.
    + apply str_eqb_neq in E. by rewrite lookup_insert_ne.
Qed.

Lemma vote_deltas_lookup previous ids a :
  default 0 (vote_deltas previous ids !! answer_key a) = occurs a ids - from_option (occurs a) 0 previous.
Proof.
  unfold vote_deltas. set (m := foldl _ _ _).
  assert (default 0 (m !! answer_key a) = occurs a ids - from_option (occurs a) 0 previous) as <-.
  { subst m. rewrite !bumps_lookup, lookup_empty. destruct previous as [l|]; cbn [default from_option]; unfold id; [ring|].
    change (occurs a []) with 0. ring. }
  destruct (m !! answer_key a) as [z|] eqn:E.
  - destruct (decide (z = 0)) as [->|Hz].
    + assert (filter (fun kv : string * Z => kv.2 <> 0) m !! answer_key a = None) as ->; [|done].
      apply map_lookup_filter_None. right. intros x Hx. rewrite E in Hx. injection Hx as <-. naive_solver.
    + by rewrite (map_lookup_filter_Some_2 _ _ _ z).
  - assert (filter (fun kv : string * Z => kv.2 <> 0) m !! answer_key a = None) as ->; [|done].
    apply map_lookup_filter_None. by left.
Qed.

(** ** Keys *)

Definition colon : Ascii.ascii := Ascii.ascii_of_nat 58.

(** Polls and ballots are under their keys, and no poll id has a colon, so a
    key names one poll and one user. *)
Record orderly (w : World) : Prop := {
  or_polls k p : w_polls w !! k = Some p -> pl_id p = k /\ contains_char colon k = false;
  or_votes k v : w_votes w !! k = Some v ->
    k = vote_key (pv_poll v) (pv_user v) /\ contains_char colon (pv_poll v) = false;
}.

Lemma vote_key_inj p u p' u' :
  contains_char colon p = false -> contains_char colon p' = false ->
  vote_key p u = vote_key p' u' -> p = p' /\ u = u'.
Proof. intros H H' E. eapply join_inj; [exact H|exact H'|exact E]. Qed.

Lemma ballot_under w p u v :
  orderly w -> contains_char colon p = false -> w_votes w !! vote_key p u = Some v -> pv_poll v = p.
Proof.
  intros Ho Hp Hv. destruct (or_votes w Ho _ _ Hv) as [E Hc].
  by apply vote_key_inj in E as [<- _].
Qed.

Lemma orderly_upsert w p u ids :
  contains_char colon (pl_id p) = false -> orderly w ->
  orderly (set_votes w (<[vote_key (pl_id p) u := ballot p u ids]> (w_votes w))).
Proof.
  intros Hp [H1 H2]. split; [done|]. cbn. intros k v [[<- <-]|[_ H]]%lookup_insert_Some; [done|by apply H2].
Qed.

Lemma orderly_fewer w polls votes events :
  polls ⊆ w_polls w -> votes ⊆ w_votes w -> orderly w -> orderly (mkWorld (w_db w) polls votes events).
Proof.
  intros Hp Hv [H1 H2]. split; cbn; intros k x Hx; [apply H1|apply H2]; by eapply lookup_weaken.
Qed.

Lemma orderly_polls w polls :
  (forall k p, polls !! k = Some p -> exists p0, w_polls w !! k = Some p0 /\ pl_id p = pl_id p0) ->
  orderly w -> orderly (set_polls w polls).
Proof.
  intros Hp [H1 H2]. split; cbn; [|done]. intros k p H. destruct (Hp k p H) as (p0 & H0 & ->). by apply H1.
Qed.

Lemma alter_kept (f : Poll -> Poll) x (polls : gmap string Poll) k p :
  (forall p, pl_id (f p) = pl_id p) -> alter f x polls !! k = Some p ->
  exists p0, polls !! k = Some p0 /\ pl_id p = pl_id p0.
Proof. intros Hf [(-> & p0 & H & ->)|[_ H]]%lookup_alter_Some; by eexists. Qed.

(** ** Votes are counted *)

(** The ballots of a poll, as [fetch_poll_votes] has them *)
Definition ballots_of `{!HashIter string PollVote} (id : string) (w : World) : list PollVote :=
  List.filter (fun vote => str_eqb (pv_poll vote) id) (hm_values (w_votes w)).

Section Counting.
Context `{!HashIter string Poll, !HashIter string PollVote, !HashIter string Z}.
Context `{!HashIter string Channel.t, !HashIter (string * string) Member}.
Context `{!HashIter string Role, !HashIter string OverrideField.t}.
Context (validation_error : string).
(** A poll, and a time at which it has not expired *)
Context (id : string) (T : Z).

(** Everything that reads polls or votes, up to that time, and closings of other polls *)
Inductive voting_handler : prog World unit -> Prop :=
| v_vote user target poll_id ids now now_ms : now_ms <= T ->
    voting_handler (spawn (poll_vote validation_error user target poll_id ids now now_ms))
| v_unvote user target poll_id now now_ms : now_ms <= T ->
    voting_handler (spawn (poll_unvote user target poll_id now now_ms))
| v_end user target poll_id now : poll_id <> id ->
    voting_handler (spawn (poll_end user target poll_id now))
| v_fetch user target poll_id now now_ms : now_ms <= T ->
    voting_handler (spawn (poll_fetch user target poll_id now now_ms))
| v_bulk user target ids now now_ms : now_ms <= T ->
    voting_handler (spawn (polls_fetch_bulk validation_error user target ids now now_ms))
| v_voters user target poll_id answer after limit now :
    voting_handler (spawn (poll_voters user target poll_id answer after limit now))
| v_tick now_ms : now_ms <= T -> voting_handler (spawn (expiry_tick now_ms)).

(** A way to count: what a ballot weighs and what the poll shows for it *)
Context (weight : list Z -> Z) (shown : Poll -> Z).
Context (shown_vote : forall p previous ids,
  shown (set_counts p (foldl apply_delta (pl_counts p) (hm_iter (vote_deltas previous ids)))
           (pl_total_votes p + match previous with None => 1 | Some _ => 0 end))
  = shown p + (weight ids - from_option weight 0 previous)).
Context (shown_unvote : forall p removed,
  shown (set_counts p (foldl apply_delta (pl_counts p) (hm_iter (foldl (bump (-1)) ∅ (answer_key <$> removed))))
           (pl_total_votes p + -1))
  = shown p + - weight removed).

Definition weigh (v : PollVote) : Z := if str_eqb (pv_poll v) id then weight (pv_answer_ids v) else 0.

(** The poll is open, and what it shows is what its ballots weigh, up to [D] *)
Definition counted_up_to (w : World) (D : Z) : Prop :=
  orderly w /\ exists p, w_polls w !! id = Some p /\ pl_closed p = false /\ T < pl_expires_at p
    /\ map_sum weigh (w_votes w) = shown p + D.

Abbreviation S p d Q := (settles Z.add 0 counted_up_to p d Q).
Abbreviation neutral p := (S p 0 (fun _ d => d = 0)).

(** What is known of a poll that was read *)
Definition known (p : Poll) : Prop :=
  contains_char colon (pl_id p) = false
  /\ (pl_id p = id -> pl_closed p = false /\ T < pl_expires_at p).

Lemma known_stored w D k p : counted_up_to w D -> w_polls w !! k = Some p -> pl_id p = k /\ known p.
Proof.
  intros [Ho (q & Hq & Hc & HT & _)] Hp. destruct (or_polls w Ho _ _ Hp) as [Hk Hcol]. split; [done|].
  rewrite <- Hk in Hcol. split; [done|]. intros Hid. rewrite <- Hk, Hid, Hq in Hp. by injection Hp as <-.
Qed.

(** A change of other polls *)
Lemma counted_polls w D polls :
  polls !! id = w_polls w !! id ->
  (forall k p, polls !! k = Some p -> exists p0, w_polls w !! k = Some p0 /\ pl_id p = pl_id p0) ->
  counted_up_to w D -> counted_up_to (set_polls w polls) D.
Proof.
  intros Hid Hk [Ho (p & Hp & H)]. split; [by apply orderly_polls|]. exists p. cbn [w_polls set_polls w_votes].
  by rewrite Hid.
Qed.

Lemma counted_close w D k : k <> id -> counted_up_to w D -> counted_up_to (close_poll_if_open k w).1 D.
Proof.
  intros Hne Hw. unfold close_poll_if_open. destruct (w_polls w !! k) as [p|] eqn:E; [|done].
  destruct (pl_closed p); [done|]. apply counted_polls; [by apply lookup_insert_ne| |done].
  intros j q [[<- <-]|[_ H]]%lookup_insert_Some; [by exists p|by exists q].
Qed.

Lemma counted_alter w D k f :
  k <> id -> (forall p, pl_id (f p) = pl_id p) -> counted_up_to w D ->
  counted_up_to (set_polls w (alter f k (w_polls w))) D.
Proof.
  intros Hne Hf. apply counted_polls; [by apply lookup_alter_ne|]. intros j q. by apply alter_kept.
Qed.

Lemma neutral_publish e : neutral (atom (publish e)).
Proof. apply settles_atom. intros w D [[H1 H2] Hw]. exists 0. split; [|done]. by split. Qed.

Lemma neutral_recount p : pl_id p <> id -> neutral (recount p).
Proof.
  intros Hne. apply pays_ebind; [by apply pays_read|]. intros votes. apply pays_ebind; [|done].
  apply settles_atom. intros w D Hw. exists 0. split; [|done]. by apply counted_alter.
Qed.

Lemma neutral_close p : pl_id p <> id -> neutral (close p).
Proof.
  intros Hne. apply pays_ebind.
  { apply settles_atom. intros w D Hw. exists 0. split; [|done]. by apply counted_close. }
  intros [|]; [|done]. apply pays_ebind; [by apply neutral_recount|]. intros [counts n].
  apply pays_bind; [apply neutral_publish|done].
Qed.

Lemma neutral_view user target now : neutral (view_channel user target now).
Proof.
  do 2 (apply pays_ebind; [by apply pays_read|]; intros ?). apply pays_bind; [by apply pays_read|].
  intros [[permissions q]|]; [|done]. by destruct (PV.throw_if_lacking_channel_permission _ _).
Qed.

(** Reading a poll tells what is known of it. *)
Lemma settles_fetch k :
  S (atom (fetch_poll k)) 0 (fun r d => d = 0 /\ match r with Ok p => pl_id p = k /\ known p | Err _ => True end).
Proof.
  apply settles_read; [done|]. intros w D Hw. split; [done|]. cbn.
  destruct (w_polls w !! k) as [p|] eqn:E; cbn; [|done]. by eapply known_stored.
Qed.

Lemma settles_poll_in channel k :
  S (poll_in channel k) 0 (fun r d => d = 0 /\ match r with Ok p => pl_id p = k /\ known p | Err _ => True end).
Proof.
  apply settles_ebind. eapply settles_mono; [apply settles_fetch|]. intros [p|e] d [-> H]; [|done].
  by destruct (negb _).
Qed.

Lemma expired_other p now_ms : known p -> now_ms <= T -> is_expired p now_ms = true -> pl_id p <> id.
Proof. intros [_ H] Ht E Hid. apply Z.leb_le in E. destruct (H Hid). lia. Qed.

Lemma settles_resolve user target k now now_ms :
  now_ms <= T ->
  S (resolve_open_poll user target k now now_ms) 0
    (fun r d => d = 0 /\ match r with Ok p => known p | Err _ => True end).
Proof.
  intros Ht. apply settles_ebind. eapply settles_mono; [apply neutral_view|]. intros [[channel ?]|e] d ->; [|done].
  apply settles_ebind. eapply settles_mono; [apply settles_poll_in|]. intros [p|e] d [-> Hp]; [|done].
  destruct (pl_closed p); [done|]. destruct (is_expired p now_ms) eqn:E; [|by split; [|apply Hp]].
  apply settles_ebind. eapply settles_mono; [apply neutral_close; by eapply expired_other; [apply Hp|..]|].
  by intros [?|?] d ->.
Qed.

Definition of_poll (k : string) (z : Z) : Z := if str_eqb k id then z else 0.

(** The two writes of ballots and the write of counts, with what they leave to be done *)
Lemma settles_upsert p u ids :
  known p ->
  S (atom (upsert_poll_vote (ballot p u ids))) 0
    (fun r d => exists previous, r = Ok previous
       /\ d = of_poll (pl_id p) (weight ids - from_option weight 0 previous)).
Proof.
  intros [Hc _]. apply settles_atom. intros w D [Ho (q & Hq & H1 & H2 & Hs)]. cbn [upsert_poll_vote fst snd].
  eexists. split; [|eexists; split; reflexivity]. split; [by apply orderly_upsert|]. exists q.
  split_and!; [done..|]. cbn [w_votes set_votes]. rewrite map_sum_insert, Hs.
  unfold weigh at 1, of_poll. cbn [pv_poll pv_answer_ids ballot].
  change (pv_id (ballot p u ids)) with (vote_key (pl_id p) u).
  destruct (w_votes w !! vote_key (pl_id p) u) as [v|] eqn:E; cbn [fmap option_fmap option_map from_option].
  - unfold weigh. rewrite (ballot_under _ _ _ _ Ho Hc E). destruct (str_eqb (pl_id p) id); lia.
  - destruct (str_eqb (pl_id p) id); lia.
Qed.

Lemma settles_remove p u :
  known p ->
  S (atom (remove_poll_vote (pl_id p) u)) 0
    (fun r d => exists previous, r = Ok previous /\ d = of_poll (pl_id p) (- from_option weight 0 previous)).
Proof.
  intros [Hc _]. apply settles_atom. intros w D [Ho (q & Hq & H1 & H2 & Hs)]. cbn [remove_poll_vote fst snd].
  eexists. split; [|eexists; split; reflexivity]. split.
  { destruct Ho as [G1 G2]. split; [done|]. cbn. intros k v [_ H]%lookup_delete_Some. by apply G2. }
  exists q. split_and!; [done..|]. cbn [w_votes set_votes]. unfold of_poll.
  destruct (w_votes w !! vote_key (pl_id p) u) as [v|] eqn:E; cbn [fmap option_fmap option_map from_option].
  - rewrite (map_sum_delete weigh _ _ _ E) in Hs. unfold weigh at 1 in Hs.
    rewrite (ballot_under _ _ _ _ Ho Hc E) in Hs. destruct (str_eqb (pl_id p) id); lia.
  - rewrite delete_id by done. destruct (str_eqb (pl_id p) id); lia.
Qed.

Lemma settles_apply k deltas n change :
  (forall p, shown (set_counts p (foldl apply_delta (pl_counts p) (hm_iter deltas)) (pl_total_votes p + n))
             = shown p + change) ->
  S (atom (apply_poll_count_deltas k deltas n)) (of_poll k change) (fun _ d => d = 0).
Proof.
  intros Hch. apply settles_atom. intros w D Hw. exists 0. split; [|done]. cbn [apply_poll_count_deltas fst].
  unfold of_poll in Hw. destruct (str_eqb k id) eqn:E.
  - apply str_eqb_eq in E as ->. destruct Hw as [Ho (q & Hq & H1 & H2 & Hs)].
    split; [apply orderly_polls; [|done]; intros j p; by apply alter_kept|].
    eexists. cbn [w_polls set_polls w_votes]. rewrite lookup_alter_eq, Hq. split; [reflexivity|].
    split_and!; [done..|]. rewrite Hch. lia.
  - apply str_eqb_neq in E. by apply counted_alter.
Qed.

Lemma neutral_compensate p u previous : known p -> pl_id p <> id -> neutral (compensate_write_after_close p u previous).
Proof.
  intros Hk Hne. assert (of_poll (pl_id p) = fun _ => 0) as Hof.
  { unfold of_poll. by apply str_eqb_neq in Hne as ->. }
  apply pays_ebind.
  - destruct previous as [ids|].
    + eapply settles_mono; [by apply settles_upsert|]. intros r d (prev & _ & ->). by rewrite Hof.
    + eapply settles_mono; [by apply settles_remove|]. intros r d (prev & _ & ->). by rewrite Hof.
  - intros _. apply pays_ebind; [by apply neutral_recount|done].
Qed.

(** After the counts are written: nothing happens to an open poll. *)
Lemma neutral_recheck {A} k u previous (rest : Poll -> Eff World A) :
  (forall p, neutral (rest p)) ->
  neutral (let! p := atom (fetch_poll k) in
           let! _ := if pl_closed p then compensate_write_after_close p u previous else ok tt in
           rest p).
Proof.
  intros Hr. apply settles_ebind. eapply settles_mono; [apply settles_fetch|]. intros [p|e] d [-> H]; [|done].
  apply pays_ebind; [|intros _; apply Hr]. destruct (pl_closed p) eqn:E; [|done].
  apply neutral_compensate; [apply H|]. intros Hid. destruct H as [_ [_ H]]. destruct (H Hid). congruence.
Qed.

Lemma neutral_update p : neutral (publish_vote_update p).
Proof. apply pays_bind; [apply neutral_publish|done]. Qed.

Lemma neutral_vote user target k ids now now_ms :
  now_ms <= T -> neutral (poll_vote validation_error user target k ids now now_ms).
Proof.
  intros Ht. unfold poll_vote. destruct (negb _); [done|].
  apply settles_ebind. eapply settles_mono; [by apply settles_resolve|]. intros [p|e] d [-> Hp]; [|done].
  destruct (negb (accepts _ _)); [done|].
  apply settles_ebind. eapply settles_mono; [by apply settles_upsert|]. intros r d (previous & -> & ->).
  apply settles_ebind. eapply settles_mono; [apply settles_apply; intros q; apply shown_vote|]. intros [?|e] d ->; [|done].
  apply neutral_recheck. intros q. apply pays_ebind; [apply neutral_update|done].
Qed.

Lemma neutral_unvote user target k now now_ms :
  now_ms <= T -> neutral (poll_unvote user target k now now_ms).
Proof.
  intros Ht. apply settles_ebind. eapply settles_mono; [by apply settles_resolve|]. intros [p|e] d [-> Hp]; [|done].
  apply settles_ebind. eapply settles_mono; [by apply settles_remove|]. intros r d (previous & -> & ->).
  apply settles_ebind. apply (settles_mono _ _ _ _ _ (fun _ d => d = 0)).
  - destruct previous as [removed|]; cbn [from_option]; [|by unfold of_poll; destruct (str_eqb _ _)].
    apply settles_ebind. eapply settles_mono; [apply settles_apply; intros q; apply shown_unvote|]. intros [?|e] d ->; [|done].
    apply neutral_recheck. apply neutral_update.
  - intros [?|e] d ->; [|done]. apply pays_ebind; [by apply pays_read|done].
Qed.

Lemma neutral_permission permissions b :
  neutral (if b : bool then Ret (PV.throw_if_lacking_channel_permission permissions CP.ManageMessages)
           else ok tt : Eff World unit).
Proof. by destruct b. Qed.

Lemma neutral_my_votes p user : neutral (my_votes p user).
Proof. apply pays_ebind; [by apply pays_read|done]. Qed.

Lemma neutral_end user target k now : k <> id -> neutral (poll_end user target k now).
Proof.
  intros Hne. apply pays_ebind; [apply neutral_view|]. intros [channel permissions].
  apply settles_ebind. eapply settles_mono; [apply settles_poll_in|]. intros [p|e] d [-> Hp]; [|done].
  apply pays_ebind; [apply neutral_permission|]. intros _.
  apply pays_ebind; [apply neutral_close; by destruct Hp as [-> _]|]. intros _.
  apply pays_ebind; [by apply pays_read|]. intros q.
  apply pays_ebind; [apply neutral_my_votes|done].
Qed.

Lemma neutral_fetch user target k now now_ms : now_ms <= T -> neutral (poll_fetch user target k now now_ms).
Proof.
  intros Ht. apply pays_ebind; [apply neutral_view|]. intros [channel permissions].
  apply settles_ebind. eapply settles_mono; [apply settles_poll_in|]. intros [p|e] d [-> Hp]; [|done].
  destruct Hp as [_ Hp].
  apply pays_ebind.
  - destruct (negb (pl_closed p) && is_expired p now_ms) eqn:E; [|done]. apply andb_true_iff in E as [_ E].
    apply pays_ebind; [apply neutral_close; by eapply expired_other|]. intros _. by apply pays_read.
  - intros q. apply pays_ebind; [apply neutral_my_votes|done].
Qed.

Lemma neutral_voters user target k answer after limit now :
  neutral (poll_voters user target k answer after limit now).
Proof.
  apply pays_ebind; [apply neutral_view|]. intros [channel permissions].
  apply settles_ebind. eapply settles_mono; [apply settles_poll_in|]. intros [p|e] d [-> Hp]; [|done].
  apply pays_ebind; [apply neutral_permission|]. intros _.
  apply pays_ebind; [by apply pays_read|]. intros votes. by apply pays_read.
Qed.

Lemma neutral_close_expired polls now_ms :
  now_ms <= T -> Forall known polls -> neutral (close_expired polls now_ms).
Proof.
  intros Ht. induction polls as [|p polls IH]; intros Hk; [done|]. apply Forall_cons in Hk as [Hp Hk].
  cbn [close_expired]. destruct (negb (pl_closed p) && is_expired p now_ms) eqn:E; [|by apply IH].
  apply andb_true_iff in E as [_ E]. apply pays_ebind; [apply neutral_close; by eapply expired_other|].
  intros _. apply pays_ebind; [by apply IH|done].
Qed.

Lemma neutral_bulk user target ids now now_ms :
  now_ms <= T -> neutral (polls_fetch_bulk validation_error user target ids now now_ms).
Proof.
  intros Ht. unfold polls_fetch_bulk. destruct (negb (_ && _)); [done|].
  apply pays_ebind; [apply neutral_view|]. intros [channel permissions].
  apply settles_ebind. apply (settles_mono _ _ _ _ _ (fun r d => d = 0 /\ match r with Ok l => Forall known l | Err _ => True end)).
  { apply settles_read; [done|]. intros w D Hw. split; [done|]. cbn. apply Forall_forall. intros p Hp.
    apply list_elem_of_omap in Hp as (k & _ & Hp). by eapply known_stored. }
  intros [polls|e] d [-> Hk]; [|done]. apply pays_ebind.
  { apply neutral_close_expired; [done|]. apply Forall_forall. intros p [_ Hp]%elem_of_filter_bool.
    by eapply Forall_forall in Hk. }
  intros refetch. apply pays_ebind.
  - destruct (no_ids refetch); [done|]. apply pays_ebind; [by apply pays_read|done].
  - intros updated. apply pays_ebind; [by apply pays_read|done].
Qed.

Lemma neutral_close_all due : Forall (fun p => pl_id p <> id) due -> neutral (close_all due).
Proof.
  induction due as [|p due IH]; intros H; [done|]. apply Forall_cons in H as [Hp H]. cbn [close_all].
  apply pays_bind; [by apply neutral_close|]. intros _. by apply IH.
Qed.

Lemma neutral_tick now_ms : now_ms <= T -> neutral (expiry_tick now_ms).
Proof.
  intros Ht. apply settles_ebind. apply (settles_mono _ _ _ _ _ (fun r d => d = 0
    /\ match r with Ok l => Forall (fun p => pl_id p <> id) l | Err _ => True end)).
  - apply settles_read; [done|]. intros w D Hw. split; [done|]. cbn. apply Forall_forall.
    intros p [Hp (k & Hk)%elem_of_hm_values]%elem_of_filter_bool. apply andb_true_iff in Hp as [_ Hp].
    destruct (known_stored _ _ _ _ Hw Hk) as [_ Hn]. by eapply expired_other.
  - intros [due|e] d [-> H]; [|done]. by apply neutral_close_all.
Qed.

Lemma voting_handlers_pay p : voting_handler p -> neutral p.
Proof.
  intros []; apply settles_spawn; auto using neutral_vote, neutral_unvote, neutral_end, neutral_fetch,
    neutral_bulk, neutral_voters, neutral_tick.
Qed.

Lemma counted_at_rest w s :
  counted_up_to w 0 -> rtc (live_step voting_handler) (mkSys w []) s ->
  Forall (fun p => p = Ret tt) (sys_threads s) -> counted_up_to (sys_world s) 0.
Proof.
  intros Hw Hs Hd. apply (covered_done Z.add 0); [|done].
  eapply covered_live; [by apply _..|apply voting_handlers_pay| |exact Hs]. by apply covered_empty.
Qed.
End Counting.

Lemma list_sum_filter {A} (f : A -> Z) (P : A -> bool) l :
  list_sum (fun x => if P x then f x else 0) l = list_sum f (List.filter P l).
Proof.
  induction l as [|x l IH]; [done|]. cbn [List.filter]. rewrite list_sum_cons, IH. by destruct (P x).
Qed.

Lemma weigh_ballots `{!HashIter string PollVote} id weight w :
  map_sum (weigh id weight) (w_votes w) = list_sum (fun v => weight (pv_answer_ids v)) (ballots_of id w).
Proof. rewrite <- map_sum_values. apply (list_sum_filter (fun v => weight (pv_answer_ids v))). Qed.

Lemma list_sum_one {A} (l : list A) : list_sum (fun _ => 1) l = Z.of_nat (length l).
Proof. induction l as [|x l IH]; [done|]. rewrite list_sum_cons, IH. cbn [length]. lia. Qed.

Section VotesAreCounted.
Context `{!HashIter string Poll, !HashIter string PollVote, !HashIter string Z}.
Context `{!HashIter string Channel.t, !HashIter (string * string) Member}.
Context `{!HashIter string Role, !HashIter string OverrideField.t}.

(** What a recount would store is what is stored. *)
Definition counts_match (id : string) (w : World) : Prop :=
  exists p, w_polls w !! id = Some p
    /\ pl_total_votes p = Z.of_nat (length (ballots_of id w))
    /\ forall a, default 0 (pl_counts p !! answer_key a) = default 0 (tally (ballots_of id w) !! answer_key a).

Definition open_until (id : string) (T : Z) (w : World) : Prop :=
  exists p, w_polls w !! id = Some p /\ pl_closed p = false /\ T < pl_expires_at p.

(** C25. However votes, changed votes and retractions on a poll interleave, among
    reads and whatever happens to other polls, once every handler is done the
    counts the poll shows are those of its ballots. *)
Theorem votes_are_counted validation_error id T w s :
  orderly w -> open_until id T w -> counts_match id w ->
  rtc (live_step (voting_handler validation_error id T)) (mkSys w []) s ->
  Forall (fun p => p = Ret tt) (sys_threads s) ->
  counts_match id (sys_world s).
Proof.
  intros Ho (p & Hp & Hc & HT) (p' & Hp' & Hn & Ha) Hs Hd. rewrite Hp in Hp'. injection Hp' as <-.
  assert (counted_up_to id T (fun _ => 1) pl_total_votes (sys_world s) 0) as [_ (q & Hq & _ & _ & Hn')].
  { eapply counted_at_rest; [| |split; [exact Ho|]|exact Hs|exact Hd].
    - intros q [previous|] ids; cbn; lia.
    - intros q removed. cbn. lia.
    - exists p. split_and!; [done..|]. rewrite weigh_ballots, list_sum_one, Hn. lia. }
  exists q. split; [done|]. split; [rewrite weigh_ballots, list_sum_one in Hn'; lia|]. intros a.
  assert (counted_up_to id T (occurs a) (fun p => default 0 (pl_counts p !! answer_key a)) (sys_world s) 0)
    as [_ (q' & Hq' & _ & _ & Ha')].
  { eapply counted_at_rest; [| |split; [exact Ho|]|exact Hs|exact Hd].
    - intros r previous ids. cbn [pl_counts set_counts]. by rewrite deltas_lookup, vote_deltas_lookup.
    - intros r removed. cbn [pl_counts set_counts]. rewrite deltas_lookup, bumps_lookup, lookup_empty.
      cbn [default from_option]. unfold Datatypes.id. ring.
    - exists p. split_and!; [done..|]. rewrite weigh_ballots, Ha, tally_lookup. ring. }
  rewrite Hq in Hq'. injection Hq' as <-. rewrite weigh_ballots, <- tally_lookup in Ha'. rewrite Ha'. ring.
Qed.
End VotesAreCounted.

(** ** Announcements and ballots *)

(** A ballot of a poll with these answers *)
Definition fits (answers : list PollAnswer) (multi : bool) (ids : list Z) : Prop :=
  ids <> [] /\ NoDup ids /\ (forall a, a ∈ ids -> a ∈ pa_id <$> answers) /\ (multi = false -> length ids = 1%nat).

Lemma accepts_fits p ids :
  (1 <= length ids)%nat -> accepts p (dedup (sort_by Z.leb ids)) = true ->
  fits (pl_answers p) (pl_allow_multiselect p) (dedup (sort_by Z.leb ids)).
Proof.
  intros Hl [Hm Hv]%andb_true_iff. split_and!.
  - intros E. destruct ids as [|x ids]; [cbn in Hl; lia|].
    assert (x ∈ dedup (sort_by Z.leb (x :: ids))) as Hx; [|rewrite E in Hx; by apply not_elem_of_nil in Hx].
    rewrite dedup_elem, elem_of_sort_by. apply list_elem_of_here.
  - apply dedup_NoDup, sort_by_sorted.
    + intros a b. destruct (Z.leb_spec a b); [by left|]. right. apply Z.leb_le. lia.
    + intros a b c ? ?. rewrite Z.leb_le in *. lia.
  - intros a Ha. rewrite forallb_forall in Hv. specialize (Hv a (proj1 (list_elem_of_In _ _) Ha)).
    apply existsb_exists in Hv as (x & Hx & E). apply Z.eqb_eq in E as <-. apply list_elem_of_fmap.
    exists x. split; [done|]. by apply list_elem_of_In.
  - intros E. rewrite E in Hm. by apply Nat.eqb_eq in Hm.
Qed.

Definition closes (id : string) (events : list PollEvent) : nat :=
  length (List.filter (fun e => match e with PollClose i _ _ _ _ => str_eqb i id | _ => false end) events).

Lemma closes_app id events e :
  closes id (events ++ [e])
  = (closes id events + match e with PollClose i _ _ _ _ => if str_eqb i id then 1 else 0 | _ => 0 end)%nat.
Proof.
  unfold closes. rewrite List.filter_app, length_app. f_equal. destruct e as [i ? ? ? ?|]; cbn; [by destruct (str_eqb i id)|done].
Qed.

Section Soundness.
Context `{!HashIter string Poll, !HashIter string PollVote, !HashIter string Z}.
Context `{!HashIter string Channel.t, !HashIter (string * string) Member}.
Context `{!HashIter string Role, !HashIter string OverrideField.t}.
Context (validation_error : string) (id : string).

(** All that is done to polls and ballots, a poll of this id not being made
    again: ids are fresh. *)
Inductive poll_handler : prog World unit -> Prop :=
| p_vote user target k ids now now_ms :
    poll_handler (spawn (poll_vote validation_error user target k ids now now_ms))
| p_unvote user target k now now_ms : poll_handler (spawn (poll_unvote user target k now now_ms))
| p_end user target k now : poll_handler (spawn (poll_end user target k now))
| p_fetch user target k now now_ms : poll_handler (spawn (poll_fetch user target k now now_ms))
| p_bulk user target ids now now_ms :
    poll_handler (spawn (polls_fetch_bulk validation_error user target ids now now_ms))
| p_voters user target k answer after limit now :
    poll_handler (spawn (poll_voters user target k answer after limit now))
| p_tick now_ms : poll_handler (spawn (expiry_tick now_ms))
| p_insert poll : pl_id poll <> id -> contains_char colon (pl_id poll) = false ->
    poll_handler (spawn (atom (insert_poll poll)))
| p_delete_messages message_ids : poll_handler (spawn (atom (delete_polls_for_messages message_ids)))
| p_delete_channel channel : poll_handler (spawn (atom (delete_polls_for_channel channel))).

Context (answers : list PollAnswer) (multi : bool).

(** [D] announcements are still to come. *)
Record sound (w : World) (D : nat) : Prop := {
  so_orderly : orderly w;
  so_once : (closes id (w_events w) + D <= 1)%nat;
  so_open p : w_polls w !! id = Some p -> pl_closed p = false -> (closes id (w_events w) + D = 0)%nat;
  so_terms p : w_polls w !! id = Some p -> pl_answers p = answers /\ pl_allow_multiselect p = multi;
  so_ballots k v : w_votes w !! k = Some v -> pv_poll v = id -> fits answers multi (pv_answer_ids v);
}.

Abbreviation S p d Q := (settles Nat.add 0%nat sound p d Q).
Abbreviation calm p := (S p 0%nat (fun _ d => d = 0%nat)).

Lemma sound_lose w D d : sound w (D + d) -> sound w D.
Proof. intros [H1 H2 H3 H4 H5]. split; [done|lia|intros p Hp Hc; specialize (H3 p Hp Hc); lia|done..]. Qed.

Definition termed (p : Poll) : Prop :=
  contains_char colon (pl_id p) = false
  /\ (pl_id p = id -> pl_answers p = answers /\ pl_allow_multiselect p = multi).

Lemma termed_stored w D k p : sound w D -> w_polls w !! k = Some p -> termed p.
Proof.
  intros Hs Hp. destruct (or_polls w (so_orderly _ _ Hs) _ _ Hp) as [<- Hc]. split; [done|].
  intros Hid. rewrite Hid in Hp. by apply (so_terms _ _ Hs).
Qed.

(** Polls that keep their terms and are not opened *)
Definition kept_from (polls polls' : gmap string Poll) : Prop :=
  forall k p, polls' !! k = Some p -> exists p0, polls !! k = Some p0 /\ pl_id p = pl_id p0
    /\ pl_answers p = pl_answers p0 /\ pl_allow_multiselect p = pl_allow_multiselect p0
    /\ (pl_closed p = false -> pl_closed p0 = false).

Lemma sound_fewer w D polls votes :
  kept_from (w_polls w) polls -> votes ⊆ w_votes w -> sound w D ->
  sound (mkWorld (w_db w) polls votes (w_events w)) D.
Proof.
  intros Hp Hv [H1 H2 H3 H4 H5]. split; cbn [w_polls w_votes w_events].
  - destruct H1 as [G1 G2]. split; cbn [w_polls w_votes].
    + intros k p H. destruct (Hp k p H) as (p0 & H0 & -> & _). by apply G1.
    + intros k v H. apply G2. by eapply lookup_weaken.
  - done.
  - intros p H Hc. destruct (Hp id p H) as (p0 & H0 & _ & _ & _ & Hcl). by apply (H3 p0 H0), Hcl.
  - intros p H. destruct (Hp id p H) as (p0 & H0 & _ & -> & -> & _). by apply H4.
  - intros k v H. apply (H5 k). by eapply lookup_weaken.
Qed.

Lemma kept_alter f k polls :
  (forall p, pl_id (f p) = pl_id p /\ pl_answers (f p) = pl_answers p
             /\ pl_allow_multiselect (f p) = pl_allow_multiselect p
             /\ (pl_closed (f p) = false -> pl_closed p = false)) ->
  kept_from polls (alter f k polls).
Proof.
  intros Hf j p [(-> & p0 & H & ->)|[_ H]]%lookup_alter_Some; [|by exists p].
  exists p0. split; [done|]. apply Hf.
Qed.

Lemma sound_counts w D k f :
  (forall p, exists counts n, f p = set_counts p counts n) ->
  sound w D -> sound (set_polls w (alter f k (w_polls w))) D.
Proof.
  intros Hf. apply sound_fewer; [|done]. apply kept_alter. intros p. by destruct (Hf p) as (c & n & ->).
Qed.

Lemma calm_view user target now : calm (view_channel user target now).
Proof.
  do 2 (apply pays_ebind; [by apply pays_read|]; intros ?). apply pays_bind; [by apply pays_read|].
  intros [[permissions q]|]; [|done]. by destruct (PV.throw_if_lacking_channel_permission _ _).
Qed.

Lemma settles_stored k :
  S (atom (fetch_poll k)) 0%nat (fun r d => d = 0%nat /\ match r with Ok p => termed p | Err _ => True end).
Proof.
  apply settles_read; [done|]. intros w D Hw. split; [done|]. cbn.
  destruct (w_polls w !! k) as [p|] eqn:E; cbn; [|done]. by eapply termed_stored.
Qed.

Lemma settles_named channel k :
  S (poll_in channel k) 0%nat (fun r d => d = 0%nat /\ match r with Ok p => termed p | Err _ => True end).
Proof.
  apply settles_ebind. eapply settles_mono; [apply settles_stored|]. intros [p|e] d [-> H]; [|done].
  by destruct (negb _).
Qed.

Definition owed (k : string) : nat := if str_eqb k id then 1 else 0.

Lemma settles_flip k :
  S (atom (close_poll_if_open k)) 0%nat
    (fun r d => exists won, r = Ok won /\ d = (if won : bool then owed k else 0)%nat).
Proof.
  apply settles_atom. intros w D Hw. unfold close_poll_if_open.
  destruct (w_polls w !! k) as [p|] eqn:E; [|exists 0%nat; split; [done|by eexists]].
  destruct (pl_closed p) eqn:Ec; [exists 0%nat; split; [done|by eexists]|].
  exists (owed k). split; [|by exists true]. cbn [fst].
  assert (sound (set_polls w (<[k := set_closed p]> (w_polls w))) (D + 0)) as Hs.
  { apply sound_fewer; [|done|done].
    intros j q [[<- <-]|[_ H]]%lookup_insert_Some; [exists p|exists q]; split_and!; try done; intros; congruence. }
  unfold owed. destruct (str_eqb k id) eqn:Ek; [|done]. apply str_eqb_eq in Ek as ->.
  pose proof (so_open _ _ Hw p E Ec) as H0. destruct Hs as [H1 H2 H3 H4 H5].
  split; [done|cbn [w_events set_polls]; lia| |done..].
  intros q Hq. cbn in Hq. rewrite lookup_insert_eq in Hq. injection Hq as <-. done.
Qed.

Lemma settles_recount p d : S (recount p) d (fun r d' => d' = d /\ exists x, r = Ok x).
Proof.
  apply settles_ebind, settles_read; [done|]. intros w D _. cbn [fst snd fetch_poll_votes].
  apply settles_ebind, settles_atom. intros w' D' Hw'. exists d. split; [|split; [done|by eexists]].
  apply sound_counts; [by intros q; eexists _, _|done].
Qed.

Lemma calm_close p : calm (close p).
Proof.
  apply settles_ebind. eapply settles_mono; [apply settles_flip|]. intros r d ([|] & -> & ->); [|done].
  cbn [negb]. apply settles_ebind. eapply settles_mono; [apply settles_recount|].
  intros r d (-> & [counts n] & ->). apply settles_bind, settles_atom. intros w D [H1 H2 H3 H4 H5].
  exists 0%nat. split; [|done]. cbn [publish fst].
  split; cbn [w_events w_polls w_votes]; [by destruct H1; split| | |done|done]; rewrite closes_app; unfold owed in *.
  - lia.
  - intros q Hq Hc. specialize (H3 q Hq Hc). lia.
Qed.

Lemma calm_update p : calm (publish_vote_update p).
Proof.
  apply pays_bind; [|done]. apply pays_atom. intros w D [H1 H2 H3 H4 H5].
  split; cbn [publish fst w_events w_polls w_votes]; [by destruct H1; split| | |done|done];
    rewrite closes_app, Nat.add_0_r; done.
Qed.

Lemma settles_open user target k now now_ms :
  S (resolve_open_poll user target k now now_ms) 0%nat
    (fun r d => d = 0%nat /\ match r with Ok p => termed p | Err _ => True end).
Proof.
  apply settles_ebind. eapply settles_mono; [apply calm_view|]. intros [[channel ?]|e] d ->; [|done].
  apply settles_ebind. eapply settles_mono; [apply settles_named|]. intros [p|e] d [-> Hp]; [|done].
  destruct (pl_closed p); [done|]. destruct (is_expired p now_ms); [|done].
  apply settles_ebind. eapply settles_mono; [apply calm_close|]. by intros [?|?] d ->.
Qed.

Definition ballot_ok (p : Poll) (ids : list Z) : Prop := pl_id p = id -> fits answers multi ids.

Lemma settles_cast p u ids :
  termed p -> ballot_ok p ids ->
  S (atom (upsert_poll_vote (ballot p u ids))) 0%nat
    (fun r d => d = 0%nat /\ exists previous, r = Ok previous /\ forall l, previous = Some l -> ballot_ok p l).
Proof.
  intros [Hc _] Hb. apply settles_atom. intros w D [H1 H2 H3 H4 H5]. exists 0%nat. cbn [upsert_poll_vote fst snd].
  split.
  - split; cbn [w_votes w_polls w_events set_votes]; [by apply orderly_upsert|done..|].
    intros k v Hv Hid. apply lookup_insert_Some in Hv as [[<- <-]|[_ H]]; [by apply Hb|by eapply H5].
  - split; [done|]. eexists. split; [reflexivity|]. intros l Hl Hid.
    apply fmap_Some in Hl as (v & Hv & ->). apply (H5 _ _ Hv). rewrite <- Hid.
    eapply ballot_under; [exact H1|exact Hc|exact Hv].
Qed.

Lemma settles_uncast p u :
  termed p ->
  S (atom (remove_poll_vote (pl_id p) u)) 0%nat
    (fun r d => d = 0%nat /\ exists previous, r = Ok previous /\ forall l, previous = Some l -> ballot_ok p l).
Proof.
  intros [Hc _]. apply settles_atom. intros w D Hw. exists 0%nat. cbn [remove_poll_vote fst snd]. split.
  - apply sound_fewer; [|apply delete_subseteq|done]. intros k q Hq. by exists q.
  - split; [done|]. eexists. split; [reflexivity|]. intros l Hl Hid.
    apply fmap_Some in Hl as (v & Hv & ->). apply (so_ballots _ _ Hw _ _ Hv). rewrite <- Hid.
    eapply ballot_under; [apply (so_orderly _ _ Hw)|exact Hc|exact Hv].
Qed.

(** The poll read again is the same or gone, and so are its terms. *)
Lemma calm_recheck {A} (p : Poll) u previous (rest : Poll -> Eff World A) :
  termed p -> (forall l, previous = Some l -> ballot_ok p l) -> (forall q, calm (rest q)) ->
  calm (let! q := atom (fetch_poll (pl_id p)) in
        let! _ := if pl_closed q then compensate_write_after_close q u previous else ok tt in
        rest q).
Proof.
  intros Hp Hprev Hr. apply settles_ebind, settles_read; [done|]. intros w D Hw. cbn.
  destruct (w_polls w !! pl_id p) as [q|] eqn:E; cbn [ok_or]; [|done].
  destruct (or_polls w (so_orderly _ _ Hw) _ _ E) as [Hq _]. pose proof (termed_stored _ _ _ _ Hw E) as Ht.
  apply pays_ebind; [|intros _; apply Hr]. destruct (pl_closed q); [|done]. apply pays_ebind.
  - destruct previous as [ids|].
    + eapply settles_mono; [apply settles_cast; [done|]|by intros r d [-> _]].
      intros Hid. apply (Hprev ids); [done|]. congruence.
    + eapply settles_mono; [by apply settles_uncast|]. by intros r d [-> _].
  - intros _. apply pays_ebind; [|done]. eapply settles_mono; [apply settles_recount|]. by intros r d [-> _].
Qed.

Lemma calm_apply k deltas n : calm (atom (apply_poll_count_deltas k deltas n)).
Proof. apply pays_atom. intros w D Hw. apply sound_counts; [by intros q; eexists _, _|done]. Qed.

Lemma calm_vote user target k ids now now_ms :
  calm (poll_vote validation_error user target k ids now now_ms).
Proof.
  unfold poll_vote. destruct (negb ((_ <=? _)%nat && _)) eqn:El; [done|].
  apply negb_false_iff, andb_true_iff in El as [El _]. apply Nat.leb_le in El.
  apply settles_ebind. eapply settles_mono; [apply settles_open|]. intros [p|e] d [-> Hp]; [|done].
  destruct (negb (accepts _ _)) eqn:Ea; [done|]. apply negb_false_iff in Ea.
  assert (ballot_ok p (dedup (sort_by Z.leb ids))) as Hok.
  { intros Hid. destruct (proj2 Hp Hid) as [<- <-]. by apply accepts_fits. }
  apply settles_ebind. eapply settles_mono; [by apply settles_cast|]. intros r d (-> & previous & -> & Hprev).
  apply pays_ebind; [apply calm_apply|]. intros _. apply calm_recheck; [done..|].
  intros q. apply pays_ebind; [apply calm_update|done].
Qed.

Lemma calm_unvote user target k now now_ms : calm (poll_unvote user target k now now_ms).
Proof.
  apply settles_ebind. eapply settles_mono; [apply settles_open|]. intros [p|e] d [-> Hp]; [|done].
  apply settles_ebind. eapply settles_mono; [by apply settles_uncast|]. intros r d (-> & previous & -> & Hprev).
  apply pays_ebind.
  - destruct previous as [removed|]; [|done]. apply pays_ebind; [apply calm_apply|]. intros _.
    apply calm_recheck; [done..|]. apply calm_update.
  - intros _. apply pays_ebind; [by apply pays_read|done].
Qed.

Lemma calm_permission permissions b :
  calm (if b : bool then Ret (PV.throw_if_lacking_channel_permission permissions CP.ManageMessages)
        else ok tt : Eff World unit).
Proof. by destruct b. Qed.

Lemma calm_poll_in channel k : calm (poll_in channel k).
Proof. eapply settles_mono; [apply settles_named|]. by intros r d [-> _]. Qed.

Lemma calm_my_votes p user : calm (my_votes p user).
Proof. apply pays_ebind; [by apply pays_read|done]. Qed.

Lemma calm_end user target k now : calm (poll_end user target k now).
Proof.
  apply pays_ebind; [apply calm_view|]. intros [channel permissions].
  apply pays_ebind; [apply calm_poll_in|]. intros p. apply pays_ebind; [apply calm_permission|]. intros _.
  apply pays_ebind; [apply calm_close|]. intros _. apply pays_ebind; [by apply pays_read|]. intros q.
  apply pays_ebind; [apply calm_my_votes|done].
Qed.

Lemma calm_fetch user target k now now_ms : calm (poll_fetch user target k now now_ms).
Proof.
  apply pays_ebind; [apply calm_view|]. intros [channel permissions].
  apply pays_ebind; [apply calm_poll_in|]. intros p. apply pays_ebind.
  - destruct (_ && _); [|done]. apply pays_ebind; [apply calm_close|]. intros _. by apply pays_read.
  - intros q. apply pays_ebind; [apply calm_my_votes|done].
Qed.

Lemma calm_voters user target k answer after limit now :
  calm (poll_voters user target k answer after limit now).
Proof.
  apply pays_ebind; [apply calm_view|]. intros [channel permissions].
  apply pays_ebind; [apply calm_poll_in|]. intros p. apply pays_ebind; [apply calm_permission|]. intros _.
  apply pays_ebind; [by apply pays_read|]. intros votes. by apply pays_read.
Qed.

Lemma calm_close_expired polls now_ms : calm (close_expired polls now_ms).
Proof.
  induction polls as [|p polls IH]; [done|]. cbn [close_expired]. destruct (_ && _); [|done].
  apply pays_ebind; [apply calm_close|]. intros _. by apply pays_ebind.
Qed.

Lemma calm_bulk user target ids now now_ms :
  calm (polls_fetch_bulk validation_error user target ids now now_ms).
Proof.
  unfold polls_fetch_bulk. destruct (negb (_ && _)); [done|].
  apply pays_ebind; [apply calm_view|]. intros [channel permissions].
  apply pays_ebind; [by apply pays_read|]. intros polls. apply pays_ebind; [apply calm_close_expired|].
  intros refetch. apply pays_ebind.
  - destruct (no_ids refetch); [done|]. apply pays_ebind; [by apply pays_read|done].
  - intros updated. apply pays_ebind; [by apply pays_read|done].
Qed.

Lemma calm_tick now_ms : calm (expiry_tick now_ms).
Proof.
  apply pays_ebind; [by apply pays_read|]. intros due. induction due as [|p due IH]; [done|].
  cbn [close_all]. apply pays_bind; [apply calm_close|done].
Qed.

Lemma kept_filter (P : string * Poll -> Prop) `{!forall x, Decision (P x)} polls :
  kept_from polls (filter P polls).
Proof. intros k p [Hp _]%map_lookup_filter_Some. by exists p. Qed.

Lemma calm_insert poll :
  pl_id poll <> id -> contains_char colon (pl_id poll) = false -> calm (atom (insert_poll poll)).
Proof.
  intros Hne Hc. apply pays_atom. intros w D [H1 H2 H3 H4 H5].
  split; cbn [insert_poll fst w_polls w_votes w_events set_polls]; [|done| | |done].
  - destruct H1 as [G1 G2]. split; [|done]. cbn. intros k p [[<- <-]|[_ H]]%lookup_insert_Some; [done|by apply G1].
  - intros p. rewrite lookup_insert_ne by done. apply H3.
  - intros p. rewrite lookup_insert_ne by done. apply H4.
Qed.

Lemma poll_handlers_calm p : poll_handler p -> calm p.
Proof.
  intros []; apply settles_spawn; auto using calm_vote, calm_unvote, calm_end, calm_fetch, calm_bulk,
    calm_voters, calm_tick, calm_insert.
  - apply pays_atom. intros w D Hw. unfold delete_polls_for_messages. destruct (no_ids _); [done|].
    apply sound_fewer; [apply kept_filter|apply map_filter_subseteq|done].
  - apply pays_atom. intros w D Hw. apply sound_fewer; [apply kept_filter|apply map_filter_subseteq|done].
Qed.

Lemma stays_sound w s :
  sound w 0 -> rtc (sys_step poll_handler) (mkSys w []) s -> exists D, sound (sys_world s) D.
Proof.
  intros Hw Hs. assert (covered Nat.add 0%nat sound s) as (ds & _ & H); [|by eexists].
  eapply covered_steps; [by apply _..|apply sound_lose|apply poll_handlers_calm| |exact Hs].
  by apply covered_empty.
Qed.

(** A poll that was just made, or at any time later while it is open *)
Definition fresh (w : World) (p0 : Poll) : Prop :=
  orderly w /\ w_polls w !! id = Some p0 /\ pl_closed p0 = false /\ closes id (w_events w) = 0%nat
  /\ forall k v, w_votes w !! k = Some v -> pv_poll v = id ->
       fits (pl_answers p0) (pl_allow_multiselect p0) (pv_answer_ids v).
End Soundness.

Section PollTheorems.
Context `{!HashIter string Poll, !HashIter string PollVote, !HashIter string Z}.
Context `{!HashIter string Channel.t, !HashIter (string * string) Member}.
Context `{!HashIter string Role, !HashIter string OverrideField.t}.

Lemma fresh_sound id w p0 :
  fresh id w p0 -> sound id (pl_answers p0) (pl_allow_multiselect p0) w 0.
Proof.
  intros (Ho & Hp & Hc & H0 & Hb). split; [done|lia|lia| |done]. intros p Hp'.
  rewrite Hp in Hp'. by injection Hp' as <-.
Qed.

(** C26. However many handlers close a poll (its author, a moderator, a reader
    after it expired, a voter, the daemon), in any interleaving and wherever
    one is lost, its results are announced at most once, and not while it is
    open. *)
Theorem results_announced_once validation_error id w p0 s :
  fresh id w p0 -> rtc (sys_step (poll_handler validation_error id)) (mkSys w []) s ->
  (closes id (w_events (sys_world s)) <= 1)%nat
  /\ forall p, w_polls (sys_world s) !! id = Some p -> pl_closed p = false ->
       closes id (w_events (sys_world s)) = 0%nat.
Proof.
  intros Hf Hs. destruct (stays_sound _ _ _ _ _ _ (fresh_sound _ _ _ Hf) Hs) as [D [_ H2 H3 _ _]].
  split; [lia|]. intros p Hp Hc. specialize (H3 p Hp Hc). lia.
Qed.

(** In every interleaving each stored ballot of a poll is the only one of its
    voter and picks answers the poll has, at least one, none twice, and one
    only when the poll takes one. *)
Theorem ballots_stay_valid validation_error id w p0 s k v :
  fresh id w p0 -> rtc (sys_step (poll_handler validation_error id)) (mkSys w []) s ->
  w_votes (sys_world s) !! k = Some v -> pv_poll v = id ->
  k = vote_key id (pv_user v) /\ fits (pl_answers p0) (pl_allow_multiselect p0) (pv_answer_ids v).
Proof.
  intros Hf Hs Hv Hid. destruct (stays_sound _ _ _ _ _ _ (fresh_sound _ _ _ Hf) Hs) as [D [H1 _ _ _ H5]].
  split; [|by eapply H5]. rewrite <- Hid. by apply (or_votes _ H1).
Qed.
End PollTheorems.

(** ** A poll in a channel *)

Module PollsDemo.
Definition owner : User := AudienceDemo.owner.
Definition plain : User := AudienceDemo.plain.
Definition poll : Poll :=
  mkPoll "q" "m" "c" (Some "s") "o" "Tabs?" [mkAnswer 0 "yes" None; mkAnswer 1 "no" None] false 1000
    false ∅ 0.
Definition world : World := mkWorld AudienceDemo.db {[ "q" := poll ]} ∅ [].
Definition vote (user : User) (answer : Z) : Eff World PollView :=
  poll_vote "" user "c" "q" [answer] 0 500.
Definition finish : Eff World PollView := poll_end owner "c" "q" 0.
Definition after (schedule : list nat) : option World :=
  sys_world <$> sys_sched schedule (mkSys world [spawn (vote plain 0); spawn finish]).
Definition stored (w : World) : option (bool * list PollAnswerCount * Z * nat) :=
  (fun p => (pl_closed p, counts_vec p, pl_total_votes p, size (w_votes w))) <$> w_polls w !! "q".

Lemma world_orderly : orderly world.
Proof.
  split; cbn; intros k x H; [|by rewrite lookup_empty in H]. apply lookup_singleton_Some in H as [<- <-]. by split.
Qed.

Lemma world_fresh : fresh "q" world poll.
Proof.
  split_and!; [apply world_orderly|done..|]. intros k v H. cbn in H. by rewrite lookup_empty in H.
Qed.
End PollsDemo.

(** A vote that finds the poll closed takes its ballot back and recounts, so
    that the results match the ballots "in any interleaving".  The recount of
    the closing handler is a read and a later write: when the vote is taken
    back in between, the closed poll keeps, and announces, a vote nobody has. *)
Theorem closed_poll_counts_a_ghost :
  exists w, PollsDemo.after ([0; 0; 0; 0; 0] ++ [1; 1; 1; 1; 1; 1] ++ [0; 0; 0; 0; 0] ++ [1; 1; 1; 1])%nat = Some w
    /\ PollsDemo.stored w = Some (true, [mkCount 0 1; mkCount 1 0], 1, 0%nat)
    /\ w_events w = [PollClose "q" "c" "m" [mkCount 0 1; mkCount 1 0] 1].
Proof. eexists. split; [vm_compute; reflexivity|]. split; vm_compute; reflexivity. Qed.

(** Nor is it true that no update of the counts is sent after the results. *)
Theorem update_sent_after_close :
  exists w, PollsDemo.after ([0; 0; 0; 0; 0; 0; 0] ++ [1; 1; 1; 1; 1; 1; 1; 1; 1; 1] ++ [0])%nat = Some w
    /\ w_events w = [PollClose "q" "c" "m" [mkCount 0 1; mkCount 1 0] 1;
                     PollVoteUpdate "q" "c" "m" [mkCount 0 1; mkCount 1 0] 1].
Proof. eexists. split; [vm_compute; reflexivity|]. vm_compute; reflexivity. Qed.

(** Two voters at once, one of them after a change of mind *)
Lemma votes_are_counted_witness :
  exists s, sys_sched ([0; 0; 0; 0; 1; 1; 1; 1; 0; 1; 1; 0; 0; 0; 1; 1] ++ [2; 2; 2; 2; 2; 2; 2; 2])%nat
      (mkSys PollsDemo.world [spawn (PollsDemo.vote PollsDemo.plain 0); spawn (PollsDemo.vote PollsDemo.owner 0);
                              spawn (PollsDemo.vote PollsDemo.plain 1)]) = Some s
    /\ PollsDemo.stored (sys_world s) = Some (false, [mkCount 0 1; mkCount 1 1], 2, 2%nat)
    /\ counts_match "q" (sys_world s).
Proof.
  eexists. split; [vm_compute; reflexivity|]. split; [vm_compute; reflexivity|].
  apply (votes_are_counted "" "q" 500 PollsDemo.world).
  - apply PollsDemo.world_orderly.
  - by exists PollsDemo.poll.
  - exists PollsDemo.poll. split_and!; [done|vm_compute; reflexivity|]. intros a. vm_compute. reflexivity.
  - eapply rtc_l; [apply live_start, (v_vote "" "q" 500 PollsDemo.plain "c" "q" [1] 0 500); lia|].
    eapply rtc_l; [apply live_start, (v_vote "" "q" 500 PollsDemo.owner "c" "q" [0] 0 500); lia|].
    eapply rtc_l; [apply live_start, (v_vote "" "q" 500 PollsDemo.plain "c" "q" [0] 0 500); lia|].
    apply (sys_sched_live _ ([0; 0; 0; 0; 1; 1; 1; 1; 0; 1; 1; 0; 0; 0; 1; 1] ++ [2; 2; 2; 2; 2; 2; 2; 2])%nat).
    vm_compute. reflexivity.
  - repeat constructor.
Defined.

(** The author ends the poll while the daemon finds it expired. *)
Lemma results_announced_once_witness :
  exists s, sys_sched [0; 0; 0; 0; 1; 1; 0; 1; 0; 1; 0; 1]%nat
      (mkSys PollsDemo.world [spawn PollsDemo.finish; spawn (expiry_tick 2000)]) = Some s
    /\ w_events (sys_world s) = [PollClose "q" "c" "m" [mkCount 0 0; mkCount 1 0] 0]
    /\ (closes "q" (w_events (sys_world s)) <= 1)%nat.
Proof.
  eexists. split; [vm_compute; reflexivity|]. split; [vm_compute; reflexivity|].
  eapply (results_announced_once "" "q" PollsDemo.world PollsDemo.poll); [apply PollsDemo.world_fresh|].
  eapply rtc_l; [apply sys_start, (p_tick "" "q" 2000)|].
  eapply rtc_l; [apply sys_start, (p_end "" "q" PollsDemo.owner "c" "q" 0)|].
  apply (sys_sched_steps _ [0; 0; 0; 0; 1; 1; 0; 1; 0; 1; 0; 1]%nat). vm_compute. reflexivity.
Defined.

Lemma ballots_stay_valid_witness :
  exists s v, sys_sched [0; 0; 0; 0; 0; 0; 0; 0]%nat
      (mkSys PollsDemo.world [spawn (PollsDemo.vote PollsDemo.plain 1)]) = Some s
    /\ w_votes (sys_world s) !! "q:p" = Some v /\ fits (pl_answers PollsDemo.poll) false (pv_answer_ids v).
Proof.
  eexists _, _. split; [vm_compute; reflexivity|]. split; [vm_compute; reflexivity|].
  eapply (ballots_stay_valid "" "q" PollsDemo.world PollsDemo.poll _ "q:p" _ PollsDemo.world_fresh).
  - eapply rtc_l; [apply sys_start, (p_vote "" "q" PollsDemo.plain "c" "q" [1] 0 500)|].
    apply (sys_sched_steps _ [0; 0; 0; 0; 0; 0; 0; 0]%nat). vm_compute. reflexivity.
  - vm_compute. reflexivity.
  - reflexivity.
Defined.
