(* ===== verification/Moderation.v ===== *)
(** * Moderation of a server
      (crates/delta/src/routes/servers: member_edit.rs, member_remove.rs, ban_create.rs,
       ban_remove.rs, roles_*.rs, permissions_set*.rs; models/server_members, server_bans)

    The routes by which one member acts on another or on the roles of the
    server.  All of them compute what the caller may do, compare the caller's
    rank with that of the member or role acted on, and write.  A request is
    served on one state of the database.

    Of an edit of a member, the requests that move or disconnect them in voice
    are left out, and so are the audit log and the fields nobody is judged by
    (nickname, avatar, icon): whether they are present is what the checks read.
    What the validator, the file store, the seats of protected channels, the
    voice server and the message purge answer comes with the request. *)

From stdpp Require Import base numbers list gmap strings sorting.
From S2P Require Import Prelude Text Errors Permissions Store PermissionQueryDb Audience.
Open Scope Z_scope.
Open Scope sloga_scope.

Module FieldsMember.
Inductive t : Type :=
| Nickname | Pronouns | Avatar | Roles | Timeout | CanReceive | CanPublish | JoinedAt.

Definition eqb (a b : t) : bool :=
  match a, b with
  | Nickname, Nickname | Pronouns, Pronouns | Avatar, Avatar | Roles, Roles | Timeout, Timeout
  | CanReceive, CanReceive | CanPublish, CanPublish | JoinedAt, JoinedAt => true
  | _, _ => false
  end.
End FieldsMember.
Module FM := FieldsMember.

Record DataMemberEdit : Type := mkEdit {
  e_nickname : option string;
  e_pronouns : option string;
  e_avatar : option string;
  e_roles : option (list string);
  e_timeout : option Z;
  e_can_publish : option bool;
  e_can_receive : option bool;
  e_remove : list FM.t;
}.

Record DataEditRole : Type := mkEditRole {
  r_name : option string;
  r_colour : option string;
  r_hoist : option bool;
  r_remove_colour : bool;         (* [remove] contains [FieldsRole::Colour] *)
}.

Record ServerBan : Type := mkBan { ban_reason : option string }.

Record World : Type := mkWorld {
  m_db : Db;
  m_bans : gmap (string * string) ServerBan;
}.

Definition set_db (w : World) (d : Db) : World := mkWorld d (m_bans w).

(** What other code answers in the course of a request, [Ok] where nothing is
    asked of it *)
Record Outside : Type := mkOutside {
  o_valid : Result unit;          (* [data.validate()] *)
  o_reason : Result (option string);  (* [reason.validated()] *)
  o_files : Result unit;          (* attachments marked or taken *)
  o_release : Result unit;        (* seats and threads, before a removal *)
  o_released : Result unit;       (* seats, after it *)
  o_ban_released : Result unit;   (* seats, at the end of a ban *)
  o_voice : Result unit;          (* evictions and permission syncs *)
  o_purge : Result unit;          (* recent messages deleted *)
}.

(** Code that may panic ([None]) or return early *)
Definition Route (A : Type) : Type := World -> option (Result A * World).

Definition rbind {A B} (c : Route A) (k : A -> Route B) : Route B :=
  fun w => match c w with
           | Some (Ok a, w') => k a w'
           | Some (Err e, w') => Some (Err e, w')
           | None => None
           end.
Definition give {A} (r : Result A) : Route A := fun w => Some (r, w).
Definition look {A} (f : Db -> Result A) : Route A := fun w => Some (f (m_db w), w).
Definition write (f : Db -> Db * Result unit) : Route unit :=
  fun w => let '(d, r) := f (m_db w) in Some (r, set_db w d).

Notation "'try' x ':=' c 'in' k" := (rbind c (fun x => k))
  (at level 10, x pattern, c at level 100, k at level 200) : sloga_scope.

Definition refuse_if (b : bool) (e : ErrorType.t) : Route unit :=
  give (if b then Err e else Ok tt).

Section Routes.
Context `{!HashIter string Channel.t, !HashIter (string * string) Member}.
Context `{!HashIter string Role, !HashIter string OverrideField.t}.
(** The clock, the [channels] of a server, the slur filter, and the limit on roles *)
Context (now : Z) (server_channels : string -> list string).
Context (contains_blocked_slur : string -> bool) (server_roles_max : Z).

(** The caller's permissions in the server, and [query.get_member_rank()] *)
Definition standing (user : User) (server : Server) : Route (Z * option Z) :=
  fun w =>
    match calculate_server_permissions (set_server (new (m_db w) now user) server) with
    | None => None
    | Some (permissions, query) =>
        match get_member_rank query with
        | None => None
        | Some rank => Some (Ok (permissions, rank), w)
        end
    end.

Definition need (permissions : Z) (permission : CP.t) : Route unit :=
  give (PV.throw_if_lacking_channel_permission permissions permission).

(** ** Members *)

Definition has_field (remove : list FM.t) (field : FM.t) : bool := existsb (FM.eqb field) remove.

Definition remove_field (m : Member) (field : FM.t) : Member :=
  match field with
  | FM.Roles => mkMember (member_server m) (member_user m) [] (member_timeout m) (member_can_publish m)
                  (member_can_receive m)
  | FM.Timeout => mkMember (member_server m) (member_user m) (member_roles m) None (member_can_publish m)
                    (member_can_receive m)
  | FM.CanPublish => mkMember (member_server m) (member_user m) (member_roles m) (member_timeout m) true
                       (member_can_receive m)
  | FM.CanReceive => mkMember (member_server m) (member_user m) (member_roles m) (member_timeout m)
                       (member_can_publish m) true
  | _ => m
  end.

(** [apply_options] of the [PartialMember] the edit builds *)
Definition apply_options (m : Member) (data : DataMemberEdit) : Member :=
  mkMember (member_server m) (member_user m) (default (member_roles m) (e_roles data))
    (match e_timeout data with Some t => Some t | None => member_timeout m end)
    (default (member_can_publish m) (e_can_publish data))
    (default (member_can_receive m) (e_can_receive data)).

Definition edited (m : Member) (data : DataMemberEdit) : Member :=
  apply_options (foldl remove_field m (e_remove data)) data.

Definition update_member (key : string * string) (data : DataMemberEdit) (d : Db) : Db * Result unit :=
  match db_members d !! key with
  | Some member =>
      (mkDb (db_users d) (db_servers d) (<[key := edited member data]> (db_members d)) (db_channels d), Ok tt)
  | None => (d, Err ErrorType.NotFound)
  end.

Definition MAX_TIMEOUT_DAYS : Z := 28.
Definition day : Z := 86400 * 1000000000.

(** [checked_add] cannot fail before the year 9999 (timestamps are nanoseconds). *)
Definition timeout_in_range (until now : Z) : bool :=
  (now <? until) && (until <=? now + MAX_TIMEOUT_DAYS * day).

(** The checks of [edit] on what the request asks for *)
Definition edit_allowed (user : User) (member : Member) (permissions target_permissions : Z)
    (data : DataMemberEdit) : Route unit :=
  let own := str_eqb (user_id user) (member_user member) in
  let removes := has_field (e_remove data) in
  let asks {A} (field : option A) (f : FM.t) := bool_decide (is_Some field) || removes f in
  try _ :=
    if asks (e_nickname data) FM.Nickname
    then need permissions (if own then CP.ChangeNickname else CP.ManageNicknames) else give (Ok tt) in
  try _ := refuse_if (asks (e_pronouns data) FM.Pronouns && negb own) ErrorType.InvalidOperation in
  try _ :=
    if asks (e_avatar data) FM.Avatar then
      if own then need permissions CP.ChangeAvatar
      else if removes FM.Avatar then need permissions CP.RemoveAvatars
      else give (Err ErrorType.InvalidOperation)
    else give (Ok tt) in
  try _ := if asks (e_roles data) FM.Roles then need permissions CP.AssignRoles else give (Ok tt) in
  try _ :=
    if asks (e_timeout data) FM.Timeout then
      try _ :=
        if bool_decide (is_Some (e_timeout data)) then
          try _ := refuse_if own ErrorType.CannotTimeoutYourself in
          refuse_if (PV.has_channel_permission target_permissions CP.TimeoutMembers) ErrorType.IsElevated
        else give (Ok tt) in
      try _ := need permissions CP.TimeoutMembers in
      refuse_if (match e_timeout data with Some until => negb (timeout_in_range until now) | None => false end)
        (ErrorType.FailedValidation "TimeoutOutOfRange")
    else give (Ok tt) in
  try _ :=
    if asks (e_can_publish data) FM.CanPublish then
      try _ := refuse_if own ErrorType.InvalidOperation in
      need permissions CP.MuteMembers
    else give (Ok tt) in
  try _ :=
    if asks (e_can_receive data) FM.CanReceive then
      try _ := refuse_if own ErrorType.InvalidOperation in
      need permissions CP.DeafenMembers
    else give (Ok tt) in
  try _ := refuse_if ((bool_decide (is_Some (e_can_publish data)) && removes FM.CanPublish)
                      || (bool_decide (is_Some (e_can_receive data)) && removes FM.CanReceive))
             ErrorType.InvalidOperation in
  try _ := refuse_if (removes FM.JoinedAt) ErrorType.InvalidOperation in
  refuse_if (bool_decide (is_Some (e_timeout data)) && removes FM.Timeout) ErrorType.InvalidOperation.

(** The roles the edit adds; the order in which a [HashSet] yields them only
    decides which of two refusals is answered. *)
Fixpoint check_added_roles (server : Server) (our_ranking : Z) (added : list string) : Result unit :=
  match added with
  | [] => Ok tt
  | role_id :: added =>
      match server_roles server !! role_id with
      | Some role =>
          if role_rank role <=? our_ranking then Err ErrorType.NotElevated
          else check_added_roles server our_ranking added
      | None => Err ErrorType.InvalidRole
      end
  end.

Definition edit (user : User) (sid member_id : string) (data : DataMemberEdit) (o : Outside) : Route Member :=
  try _ := give (o_valid o) in
  try _ := give (o_reason o) in
  try _ := refuse_if (match e_nickname data with Some n => contains_blocked_slur n | None => false end)
             ErrorType.DisallowedName in
  try server := look (fun d => fetch_server d sid) in
  try target_user := look (fun d => fetch_user d member_id) in
  try member := look (fun d => fetch_member d (server_id server) member_id) in
  try (permissions, rank) := standing user server in
  try target_permissions :=
    (fun w => match calculate_server_permissions
                      (set_member (set_server (new (m_db w) now target_user) server) member) with
              | Some (p, _) => Some (Ok p, w)
              | None => None
              end) in
  try _ := edit_allowed user member permissions target_permissions data in
  let our_ranking :=
    if user_privileged user || str_eqb (server_owner server) (user_id user) then i64_min
    else default i64_max rank in
  try _ := refuse_if (negb (str_eqb (member_user member) (user_id user)) && negb (user_privileged user)
                      && (get_ranking member server <=? our_ranking)) ErrorType.NotElevated in
  try _ :=
    match e_roles data with
    | Some roles =>
        give (check_added_roles server our_ranking
                (List.filter (fun r => negb (existsb (str_eqb r) (member_roles member))) (first_ids [] roles)))
    | None => give (Ok tt)
    end in
  try _ := give (o_files o) in
  try _ := write (update_member (member_server member, member_user member) data) in
  try _ := give (o_voice o) in
  give (Ok (edited member data)).

(** [soft_delete_member]: this driver cannot keep a timeout for a rejoin. *)
Definition soft_delete_member (key : string * string) : Route unit :=
  fun w =>
    match db_members (m_db w) !! key with
    | Some member =>
        if in_timeout now member then None
        else Some (Ok tt, set_db w (mkDb (db_users (m_db w)) (db_servers (m_db w))
                                      (delete key (db_members (m_db w))) (db_channels (m_db w))))
    | None => Some (Err ErrorType.NotFound, w)
    end.

(** The inner [Result] is the [RemovalOutcome]. *)
Definition remove_with_outcome (member : Member) (o : Outside) : Route (Result unit) :=
  try _ := give (o_release o) in
  try _ := soft_delete_member (member_server member, member_user member) in
  give (Ok (o_released o)).

Definition kick (user : User) (sid member_id : string) (o : Outside) : Route unit :=
  try _ := give (o_reason o) in
  try server := look (fun d => fetch_server d sid) in
  try _ := refuse_if (str_eqb member_id (user_id user)) ErrorType.CannotRemoveYourself in
  try _ := refuse_if (str_eqb member_id (server_owner server)) ErrorType.InvalidOperation in
  try (permissions, rank) := standing user server in
  try _ := need permissions CP.KickMembers in
  try member := look (fun d => fetch_member d (server_id server) member_id) in
  try _ := refuse_if (get_ranking member server <=? default i64_min rank) ErrorType.NotElevated in
  try removal := remove_with_outcome member o in
  try _ := give (o_voice o) in
  give removal.

(** *** Bans *)

Definition fetch_ban (sid uid : string) : Route ServerBan :=
  fun w => Some (ok_or (m_bans w !! (sid, uid)) ErrorType.NotFound, w).

Definition insert_ban (sid uid : string) (ban : ServerBan) : Route unit :=
  fun w =>
    match m_bans w !! (sid, uid) with
    | Some _ => Some (Err (create_database_error "insert" "ban"), w)
    | None => Some (Ok tt, mkWorld (m_db w) (<[(sid, uid) := ban]> (m_bans w)))
    end.

Definition delete_ban (sid uid : string) : Route unit :=
  fun w =>
    match m_bans w !! (sid, uid) with
    | Some _ => Some (Ok tt, mkWorld (m_db w) (delete (sid, uid) (m_bans w)))
    | None => Some (Err ErrorType.NotFound, w)
    end.

(** What a call answers, as a value *)
Definition caught {A} (c : Route A) : Route (Result A) :=
  fun w => match c w with Some (r, w') => Some (Ok r, w') | None => None end.

Definition ban (user : User) (sid target : string) (reason : option string)
    (delete_message_seconds : option Z) (o : Outside) : Route ServerBan :=
  try _ := give (o_valid o) in
  try server := look (fun d => fetch_server d sid) in
  try _ := refuse_if (str_eqb target (user_id user)) ErrorType.CannotRemoveYourself in
  try _ := refuse_if (str_eqb target (server_owner server)) ErrorType.InvalidOperation in
  try (permissions, rank) := standing user server in
  try _ := need permissions CP.BanMembers in
  try fetched := caught (look (fun d => fetch_member d (server_id server) target)) in
  try member := give (match fetched with
                      | Ok member => Ok (Some member)
                      | Err ErrorType.NotFound => Ok None
                      | Err e => Err e
                      end) in
  try _ := refuse_if (match member with
                      | Some member => get_ranking member server <=? default i64_min rank
                      | None => false
                      end) ErrorType.NotElevated in
  try existing := caught (fetch_ban (server_id server) target) in
  try ban :=
    match existing with
    | Ok existing => give (Ok existing)
    | Err ErrorType.NotFound =>
        let ban := mkBan reason in
        try created := caught (insert_ban (server_id server) target ban) in
        match created with
        | Ok _ => give (Ok ban)
        | Err error =>
            try again := caught (fetch_ban (server_id server) target) in
            give (match again with Ok ban => Ok ban | Err _ => Err error end)
        end
    | Err error => give (Err error)
    end in
  try removed :=
    match member with
    | Some member =>
        try outcome := caught (remove_with_outcome member o) in
        give (Ok (match outcome with Ok r => r | Err e => Err e end))
    | None => give (Ok (Ok tt))
    end in
  try _ := give (o_voice o) in
  try _ := give removed in
  try _ := give (o_ban_released o) in
  try _ := match delete_message_seconds with
           | Some seconds => if 0 <? seconds then give (o_purge o) else give (Ok tt)
           | None => give (Ok tt)
           end in
  give (Ok ban).

Definition unban (user : User) (sid target : string) (o : Outside) : Route unit :=
  try _ := give (o_reason o) in
  try server := look (fun d => fetch_server d sid) in
  try (permissions, _) := standing user server in
  try _ := need permissions CP.BanMembers in
  try _ := fetch_ban (server_id server) target in
  delete_ban (server_id server) target.

(** ** Roles *)

Definition update_role (sid rid : string) (f : Role -> Role) (d : Db) : Db * Result unit :=
  match db_servers d !! sid with
  | Some server =>
      match server_roles server !! rid with
      | Some role =>
          (set_servers d (<[sid := with_roles server (<[rid := f role]> (server_roles server))]> (db_servers d)),
           Ok tt)
      | None => (d, Err ErrorType.NotFound)
      end
  | None => (d, Err ErrorType.NotFound)
  end.

Definition create (user : User) (sid name new_id : string) (o : Outside) : Route Role :=
  try _ := give (o_reason o) in
  try _ := give (o_valid o) in
  try server := look (fun d => fetch_server d sid) in
  try (permissions, _) := standing user server in
  try _ := need permissions CP.ManageRole in
  try _ := refuse_if (server_roles_max <=? Z.of_nat (size (server_roles server)))
             (ErrorType.TooManyRoles server_roles_max) in
  fun w => let '(d, r) := role_create (m_db w) server new_id name in Some (r, set_db w d).

Definition role_edited (data : DataEditRole) (r : Role) : Role :=
  let colour := if r_remove_colour data then None else role_colour r in
  mkRole (role_id r) (default (role_name r) (r_name data)) (role_permissions r)
    (match r_colour data with Some c => Some c | None => colour end)
    (default (role_hoist r) (r_hoist data)) (role_rank r).

(** The writes name the role by its own [id] field. *)
Definition edit_role (user : User) (sid rid : string) (data : DataEditRole) (o : Outside) : Route Role :=
  try _ := give (o_valid o) in
  try _ := give (o_reason o) in
  try server := look (fun d => fetch_server d sid) in
  try (permissions, rank) := standing user server in
  try _ := need permissions CP.ManageRole in
  try role := give (ok_or (server_roles server !! rid) ErrorType.NotFound) in
  try _ := refuse_if (role_rank role <=? default i64_min rank) ErrorType.NotElevated in
  try _ := give (o_files o) in
  try _ := write (update_role (server_id server) (role_id role) (role_edited data)) in
  give (Ok (role_edited data role)).

Definition lifted_denies (field : OverrideField.t) : Override.t :=
  Override.mk 0 (Z.land (as_u64 (OverrideField.d field)) (CP.value CP.GrantAllSafe)).

Definition no_override : Override.t := Override.mk 0 0.

(** The channels of the server with a deny for the role *)
Fixpoint channel_denies (d : Db) (rid : string) (ids : list string) : Result (list (Channel.t * Override.t)) :=
  match ids with
  | [] => Ok []
  | id :: ids =>
      match fetch_channel d id with
      | Err ErrorType.NotFound => channel_denies d rid ids
      | Err e => Err e
      | Ok channel =>
          let deny :=
            match channel with
            | Channel.TextChannel _ _ _ rp | Channel.Forum _ _ _ rp => lifted_denies <$> rp !! rid
            | _ => None
            end in
          let? rest := channel_denies d rid ids in
          Ok (match deny with
              | Some deny => if Override.deny deny =? 0 then rest else (channel, deny) :: rest
              | None => rest
              end)
      end
  end.

Fixpoint clear_denies (user : User) (server : Server) (denies : list (Channel.t * Override.t)) : Route unit :=
  match denies with
  | [] => give (Ok tt)
  | (channel, deny) :: denies =>
      try permissions :=
        (fun w => match calculate_channel_permissions (set_server (set_channel (new (m_db w) now user) channel) server)
                  with Some (p, _) => Some (Ok p, w) | None => None end) in
      try _ := need permissions CP.ManagePermissions in
      try _ := give (PV.throw_permission_override permissions (Some deny) no_override) in
      clear_denies user server denies
  end.

Definition throw_if_deleting_lifts_denies (user : User) (server : Server) (role : Role)
    (server_permissions : Z) : Route unit :=
  try denies := look (fun d => channel_denies d (role_id role) (server_channels (server_id server))) in
  let server_deny := lifted_denies (role_permissions role) in
  if (Override.deny server_deny =? 0) && match denies with [] => true | _ => false end then give (Ok tt)
  else
    try _ := need server_permissions CP.ManagePermissions in
    try _ := give (PV.throw_permission_override server_permissions (Some server_deny) no_override) in
    clear_denies user server denies.

Definition delete_role_route (user : User) (sid rid : string) (o : Outside) : Route unit :=
  try _ := give (o_reason o) in
  try server := look (fun d => fetch_server d sid) in
  try (permissions, rank) := standing user server in
  try _ := need permissions CP.ManageRole in
  try role := give (ok_or (server_roles server !! rid) ErrorType.NotFound) in
  try _ := refuse_if (role_rank role <=? default i64_min rank) ErrorType.NotElevated in
  try _ := throw_if_deleting_lifts_denies user server role permissions in
  try _ := write (fun d => delete_role d (server_id server) (role_id role)) in
  give (o_voice o).

(** [ordered_roles], the ids *)
Definition existing_order (server : Server) : list string :=
  (sort_by (fun a b : string * Role => role_rank a.2 <=? role_rank b.2) (hm_iter (server_roles server))).*1.

(** [iter().position(|x| x == id)] *)
Definition position (id : string) (l : list string) : option nat := fst <$> list_find (eq id) l.

Definition edit_role_ranks (user : User) (sid : string) (ranks : list string) (o : Outside) : Route unit :=
  try _ := give (o_reason o) in
  try server := look (fun d => fetch_server d sid) in
  try (permissions, rank) := standing user server in
  try _ := need permissions CP.ManageRole in
  try _ := refuse_if (negb (length ranks =? size (server_roles server))%nat
                      || negb (forallb (fun id => existsb (str_eqb id) ranks) (hm_keys (server_roles server))))
             ErrorType.InvalidOperation in
  try _ := refuse_if
    (negb (str_eqb (server_owner server) (user_id user))
     && existsb (fun e : string * Role =>
          match rank with Some top_rank => role_rank e.2 <=? top_rank | None => true end
          && negb (bool_decide (position e.1 (existing_order server) = position e.1 ranks)))
          (hm_iter (server_roles server))) ErrorType.NotElevated in
  try _ := (fun w => match set_role_ordering (m_db w) server ranks with
                     | Some (d, r) => Some (r, set_db w d)
                     | None => None
                     end) in
  give (o_voice o).

(** ** Permissions *)

Definition set_role_permission (user : User) (sid rid : string) (data : Override.t) (o : Outside) : Route unit :=
  try _ := give (o_reason o) in
  try server := look (fun d => fetch_server d sid) in
  try role := give (ok_or (server_roles server !! rid) ErrorType.NotFound) in
  try (permissions, rank) := standing user server in
  try _ := need permissions CP.ManagePermissions in
  try _ := refuse_if (role_rank role <=? default i64_min rank) ErrorType.NotElevated in
  try _ := give (PV.throw_permission_override permissions (Some (field_to_override (role_permissions role))) data) in
  try _ := write (update_role (server_id server) (role_id role) (fun r =>
             mkRole (role_id r) (role_name r) (override_to_field data) (role_colour r) (role_hoist r) (role_rank r))) in
  give (o_voice o).

Definition set_default_server_permissions (user : User) (sid : string) (permissions_value : Z) (o : Outside)
    : Route unit :=
  try _ := give (o_reason o) in
  try server := look (fun d => fetch_server d sid) in
  try (permissions, _) := standing user server in
  try _ := need permissions CP.ManagePermissions in
  try _ := give (PV.throw_permission_override permissions None (Override.mk permissions_value 0)) in
  try _ := write (fun d =>
    match db_servers d !! server_id server with
    | Some stored =>
        (set_servers d (<[server_id server := mkServer (server_id stored) (server_owner stored) (server_roles stored)
                                               (as_i64 permissions_value)]> (db_servers d)), Ok tt)
    | None => (d, Err ErrorType.NotFound)
    end) in
  give (o_voice o).
End Routes.
