(* ===== verification/ModerationSystem.v ===== *)
(** * Moderation: the hierarchy holds

    Whatever the members below a tier of roles ask for, together and in any
    order, the tier is out of their reach: its roles keep their permissions
    and stay above, its holders keep their roles and are neither timed out,
    muted nor removed, and nobody enters it. *)

From stdpp Require Import base numbers list gmap strings sorting.
From S2P Require Import Prelude Text Errors Permissions Store PermissionQueryDb Audience Moderation.
Open Scope Z_scope.
Open Scope sloga_scope.

(** ** After a route *)

Definition post {A} (c : Route A) (w : World) (Q : World -> Prop) : Prop :=
  forall r w', c w = Some (r, w') -> Q w'.

Lemma post_try {A B} (c : Route A) (k : A -> Route B) w Q :
  (forall a w1, c w = Some (Ok a, w1) -> post (k a) w1 Q) ->
  (forall e w1, c w = Some (Err e, w1) -> Q w1) -> post (rbind c k) w Q.
Proof.
  intros Hok Herr r w' H. unfold rbind in H. destruct (c w) as [[[a|e] w1]|] eqn:E; [| |done].
  - by eapply Hok.
  - injection H as <- <-. by eapply Herr.
Qed.

(** A step that changes nothing *)
Lemma post_give {A B} (r : Result A) (k : A -> Route B) w (Q : World -> Prop) :
  Q w -> (forall a, r = Ok a -> post (k a) w Q) -> post (rbind (give r) k) w Q.
Proof.
  intros HQ Hk. apply post_try.
  - intros a w1 [= -> <-]. by apply Hk.
  - by intros e w1 [= -> <-].
Qed.

Lemma post_look {A B} (f : Db -> Result A) (k : A -> Route B) w (Q : World -> Prop) :
  Q w -> (forall a, f (m_db w) = Ok a -> post (k a) w Q) -> post (rbind (look f) k) w Q.
Proof. intros HQ Hk. by apply (post_give (f (m_db w))). Qed.

Lemma post_refuse {B} b e (k : unit -> Route B) w (Q : World -> Prop) :
  Q w -> (b = false -> post (k tt) w Q) -> post (rbind (refuse_if b e) k) w Q.
Proof. intros HQ Hk. apply post_give; [done|]. intros []. destruct b; [done|]. intros _. by apply Hk. Qed.

Lemma post_need {B} p c (k : unit -> Route B) w (Q : World -> Prop) :
  Q w -> (PV.has_channel_permission p c = true -> post (k tt) w Q) -> post (rbind (need p c) k) w Q.
Proof.
  intros HQ Hk. apply post_give; [done|]. intros []. unfold PV.throw_if_lacking_channel_permission.
  destruct (PV.has_channel_permission p c); [|done]. intros _. by apply Hk.
Qed.

Lemma post_end {A} (r : Result A) w (Q : World -> Prop) : Q w -> post (give r) w Q.
Proof. by intros HQ r' w' [= _ <-]. Qed.

(** A step that reads only *)
Definition reads {A} (c : Route A) : Prop := forall w r w', c w = Some (r, w') -> w' = w.

Lemma post_reads {A B} (c : Route A) (k : A -> Route B) w (Q : World -> Prop) :
  reads c -> Q w -> (forall a, c w = Some (Ok a, w) -> post (k a) w Q) -> post (rbind c k) w Q.
Proof.
  intros Hc HQ Hk. apply post_try.
  - intros a w1 E. pose proof (Hc _ _ _ E) as ->. by apply Hk.
  - intros e w1 E. by pose proof (Hc _ _ _ E) as ->.
Qed.

Lemma reads_give {A} (r : Result A) : reads (give r).
Proof. by intros w r' w' [= _ <-]. Qed.

Lemma reads_try {A B} (c : Route A) (k : A -> Route B) :
  reads c -> (forall a, reads (k a)) -> reads (rbind c k).
Proof.
  intros Hc Hk w r w' H. unfold rbind in H. destruct (c w) as [[[a|e] w1]|] eqn:E; [| |done];
    pose proof (Hc _ _ _ E) as ->; [by eapply Hk|by injection H as _ <-].
Qed.

Lemma reads_if {A} (b : bool) (c1 c2 : Route A) : reads c1 -> reads c2 -> reads (if b then c1 else c2).
Proof. by destruct b. Qed.

(** ** A tier *)

Record keyed (d : Db) : Prop := {
  k_servers k s : db_servers d !! k = Some s -> server_id s = k;
  k_roles k s x r : db_servers d !! k = Some s -> server_roles s !! x = Some r -> role_id r = x;
  k_members k u m : db_members d !! (k, u) = Some m -> member_server m = k /\ member_user m = u;
}.

Section Tier.
Context (sid : string).

Record tier (R : gset string) (s : Server) (d : Db) : Prop := {
  t_keyed : keyed d;
  t_server : db_servers d !! sid = Some s;
  t_above x y rx ry : server_roles s !! x = Some rx -> server_roles s !! y = Some ry ->
    x ∈ R -> y ∉ R -> role_rank rx < role_rank ry;
  t_low x rx : server_roles s !! x = Some rx -> x ∈ R -> role_rank rx < i64_max;
  t_exists x : x ∈ R -> is_Some (server_roles s !! x);
  t_min x r : server_roles s !! x = Some r -> i64_min <= role_rank r;
  t_size : Z.of_nat (size (server_roles s)) <= i64_max;
}.

(** Someone below the tier *)
Record below (R : gset string) (s : Server) (d : Db) (uid : string) : Prop := {
  b_owner : server_owner s <> uid;
  b_roles m x : db_members d !! (sid, uid) = Some m -> x ∈ member_roles m -> x ∉ R;
}.

(** Someone in it *)
Definition within (R : gset string) (s : Server) (m : Member) : Prop :=
  server_owner s = member_user m \/ exists x, x ∈ R /\ x ∈ member_roles m.

Record keeps (R : gset string) (s : Server) (d : Db) (s' : Server) (d' : Db) : Prop := {
  kp_owner : server_owner s' = server_owner s;
  kp_roles x r : x ∈ R -> server_roles s !! x = Some r ->
    exists r', server_roles s' !! x = Some r' /\ role_permissions r' = role_permissions r
               /\ role_name r' = role_name r;
  kp_within u m : db_members d !! (sid, u) = Some m -> within R s m ->
    exists m', db_members d' !! (sid, u) = Some m' /\ member_timeout m' = member_timeout m
      /\ member_can_publish m' = member_can_publish m /\ member_can_receive m' = member_can_receive m
      /\ member_user m' = member_user m
      /\ forall x, x ∈ R -> x ∈ member_roles m' <-> x ∈ member_roles m;
  kp_closed u m' x : db_members d' !! (sid, u) = Some m' -> x ∈ R -> x ∈ member_roles m' ->
    exists m, db_members d !! (sid, u) = Some m /\ x ∈ member_roles m;
}.

Lemma keeps_refl R s d : keeps R s d s d.
Proof. split; [done|eauto| |eauto]. intros u m Hm Hw. exists m. by split_and!. Qed.

Lemma keeps_trans R s d s1 d1 s2 d2 : keeps R s d s1 d1 -> keeps R s1 d1 s2 d2 -> keeps R s d s2 d2.
Proof.
  intros [O1 R1 W1 C1] [O2 R2 W2 C2]. split.
  - congruence.
  - intros x r Hx Hr. destruct (R1 x r Hx Hr) as (r1 & H1 & E1 & N1).
    destruct (R2 x r1 Hx H1) as (r2 & H2 & E2 & N2). exists r2. split_and!; congruence.
  - intros u m Hm Hw. destruct (W1 u m Hm Hw) as (m1 & Hm1 & ? & ? & ? & Hu & Hr1).
    assert (within R s1 m1) as Hw1.
    { destruct Hw as [Ho|(x & Hx & Hxm)]; [left; congruence|right]. exists x. split; [done|]. by apply Hr1. }
    destruct (W2 u m1 Hm1 Hw1) as (m2 & Hm2 & ? & ? & ? & Hu2 & Hr2). exists m2. split_and!; try congruence.
    intros x Hx. by rewrite Hr2, Hr1.
  - intros u m2 x Hm2 Hx Hxm. destruct (C2 u m2 x Hm2 Hx Hxm) as (m1 & Hm1 & Hxm1). by eapply C1.
Qed.

Lemma keeps_weaken R R' s d s' d' : R ⊆ R' -> keeps R' s d s' d' -> keeps R s d s' d'.
Proof.
  intros Hs [O1 R1 W1 C1]. split; [done|intros x r Hx; by apply R1, Hs| |intros u m x Hm Hx; by apply C1, Hs].
  intros u m Hm Hw. destruct (W1 u m Hm) as (m' & ? & ? & ? & ? & ? & Hr).
  - destruct Hw as [Ho|(x & Hx & Hxm)]; [by left|right; exists x; split; [by apply Hs|done]].
  - exists m'. split_and!; try done. intros x Hx. by apply Hr, Hs.
Qed.

(** What one request may do: the tier may be joined by roles nobody below holds *)
Definition good (R : gset string) (s : Server) (w w' : World) : Prop :=
  exists R' s', R ⊆ R' /\ tier R' s' (m_db w') /\ keeps R s (m_db w) s' (m_db w')
    /\ forall u, below R s (m_db w) u -> below R' s' (m_db w') u.

Lemma good_refl R s w : tier R s (m_db w) -> good R s w w.
Proof. intros Ht. exists R, s. split_and!; [done|done|apply keeps_refl|done]. Qed.

(** *** Ranks *)

Lemma ranking_fold s z l : forall v,
  z < v -> (forall x r, x ∈ l -> server_roles s !! x = Some r -> z < role_rank r) ->
  z < foldl (fun value rid => match server_roles s !! rid with
                              | Some role => if role_rank role <? value then role_rank role else value
                              | None => value end) v l.
Proof.
  induction l as [|x l IH]; intros v Hv Hl; cbn; [done|]. apply IH; [|intros y r Hy; apply Hl; by right].
  destruct (server_roles s !! x) as [r|] eqn:E; [|done]. destruct (_ <? _); [|done].
  apply (Hl x); [left|done].
Qed.

Lemma ranking_fold_le s l : forall v,
  foldl (fun value rid => match server_roles s !! rid with
                          | Some role => if role_rank role <? value then role_rank role else value
                          | None => value end) v l <= v
  /\ forall x r, x ∈ l -> server_roles s !! x = Some r ->
     foldl (fun value rid => match server_roles s !! rid with
                             | Some role => if role_rank role <? value then role_rank role else value
                             | None => value end) v l <= role_rank r.
Proof.
  induction l as [|y l IH]; intros v; cbn; [split; [lia|by intros x r H%elem_of_nil]|].
  set (v' := match server_roles s !! y with Some _ => _ | None => _ end). destruct (IH v') as [H1 H2].
  assert (v' <= v /\ forall r, server_roles s !! y = Some r -> v' <= role_rank r) as [Hv Hy].
  { subst v'. destruct (server_roles s !! y) as [r|]; [|split; [lia|done]].
    destruct (Z.ltb_spec (role_rank r) v); (split; [lia|intros r' [= <-]; lia]). }
  split; [lia|]. intros x r Hx Hr. apply elem_of_cons in Hx as [->|Hx]; [|by eapply H2].
  specialize (Hy r Hr). lia.
Qed.

Lemma ranking_min R s d m : tier R s d -> i64_min <= get_ranking m s.
Proof.
  intros Ht. unfold get_ranking. destruct (str_eqb _ _); [done|].
  apply Z.lt_pred_le, ranking_fold; [done|]. intros x r _ Hr. apply Z.lt_pred_le. by eapply t_min.
Qed.

(** The tier outranks those below it. *)
Lemma outranked R s d u m x r :
  tier R s d -> below R s d u -> db_members d !! (sid, u) = Some m ->
  x ∈ R -> server_roles s !! x = Some r -> role_rank r < get_ranking m s.
Proof.
  intros Ht Hb Hm Hx Hr. unfold get_ranking. destruct (k_members _ (t_keyed _ _ _ Ht) _ _ _ Hm) as [_ Hu].
  destruct (str_eqb (member_user m) (server_owner s)) eqn:E.
  { apply str_eqb_eq in E. destruct (b_owner _ _ _ _ Hb). congruence. }
  apply ranking_fold; [by eapply t_low|]. intros y ry Hy Hry. eapply t_above; [done..|].
  by eapply (b_roles _ _ _ _ Hb).
Qed.

(** Someone in the tier ranks at least as high as one of its roles. *)
Lemma within_ranking R s d m rk :
  tier R s d -> within R s m ->
  (forall x r, x ∈ R -> server_roles s !! x = Some r -> role_rank r < rk) -> i64_min <= rk ->
  get_ranking m s <= rk.
Proof.
  intros Ht Hw Hrk Hmin. unfold get_ranking. destruct (str_eqb (member_user m) (server_owner s)) eqn:E; [done|].
  destruct Hw as [Ho|(x & Hx & Hxm)]; [by rewrite Ho, str_eqb_refl in E|].
  destruct (t_exists _ _ _ Ht x Hx) as [r Hr].
  pose proof (proj2 (ranking_fold_le s (member_roles m) i64_max) x r Hxm Hr). specialize (Hrk x r Hx Hr). lia.
Qed.

(** *** What requests write *)

Definition with_server (d : Db) (s : Server) : Db := set_servers d (<[sid := s]> (db_servers d)).

Definition with_members (d : Db) (members : gmap (string * string) Member) : Db :=
  mkDb (db_users d) (db_servers d) members (db_channels d).

Lemma keyed_server d s s' :
  keyed d -> db_servers d !! sid = Some s -> server_id s' = server_id s ->
  (forall x r, server_roles s' !! x = Some r -> role_id r = x) -> keyed (with_server d s').
Proof.
  intros [K1 K2 K3] Hs Hid Hr. split; cbn; [| |done].
  - intros k t H. apply lookup_insert_Some in H as [[<- <-]|[_ H]]; [|by apply K1].
    rewrite Hid. by apply K1.
  - intros k t x r H Hx. apply lookup_insert_Some in H as [[<- <-]|[_ H]]; [by apply Hr|by eapply K2].
Qed.

(** A write of the server that keeps the tier's roles and ranks *)
Lemma good_server R s w s' :
  tier R s (m_db w) ->
  server_id s' = server_id s -> server_owner s' = server_owner s ->
  size (server_roles s') = size (server_roles s) ->
  (forall x r', server_roles s' !! x = Some r' -> exists r, server_roles s !! x = Some r
     /\ role_id r' = role_id r /\ role_rank r' = role_rank r) ->
  (forall x r, x ∈ R -> server_roles s !! x = Some r -> server_roles s' !! x = Some r) ->
  good R s w (set_db w (with_server (m_db w) s')).
Proof.
  intros Ht Hid Ho Hsz Hback Hfor. exists R, s'. split; [done|]. split.
  { split; cbn [m_db set_db].
    - eapply keyed_server; [apply Ht|apply Ht|done|]. intros x r' H. destruct (Hback x r' H) as (r & Hr & -> & _).
      eapply k_roles; [apply Ht|apply Ht|done].
    - apply lookup_insert_eq.
    - intros x y rx ry Hx Hy. destruct (Hback x rx Hx) as (rx0 & Hx0 & _ & ->), (Hback y ry Hy) as (ry0 & Hy0 & _ & ->).
      by apply (t_above _ _ _ Ht).
    - intros x rx Hx. destruct (Hback x rx Hx) as (rx0 & Hx0 & _ & ->). by apply (t_low _ _ _ Ht).
    - intros x Hx. destruct (t_exists _ _ _ Ht x Hx) as [r Hr]. eexists. by apply Hfor.
    - intros x rx Hx. destruct (Hback x rx Hx) as (rx0 & Hx0 & _ & ->). by apply (t_min _ _ _ Ht x).
    - rewrite Hsz. apply Ht. }
  split.
  { split; [done| |by intros u m Hm _; exists m; split_and!|by intros u m x Hm _ Hxm; exists m].
    intros x r Hx Hr. exists r. split_and!; [by apply Hfor|done..]. }
  intros u [B1 B2]. split; [congruence|done].
Qed.

(** A write of one member outside the tier, who is given none of it *)
Lemma good_member R s w u m m' :
  tier R s (m_db w) -> db_members (m_db w) !! (sid, u) = Some m -> ~ within R s m ->
  member_server m' = member_server m -> member_user m' = member_user m ->
  (forall x, x ∈ R -> x ∉ member_roles m') ->
  good R s w (set_db w (with_members (m_db w) (<[(sid, u) := m']> (db_members (m_db w))))).
Proof.
  intros Ht Hm Hw Hs Hu Hr. exists R, s. split; [done|]. split.
  { destruct Ht as [[K1 K2 K3] ? ? ? ? ? ?]. split; try done. split; [done..|]. cbn. intros k v n H.
    apply lookup_insert_Some in H as [[[= <- <-] <-]|[_ H]]; [|by apply K3]. rewrite Hs, Hu. by apply K3. }
  split.
  { split; [done|eauto|..].
    - intros v n Hn Hwn. destruct (decide (v = u)) as [->|Hne]; [rewrite Hm in Hn; injection Hn as <-; done|].
      exists n. split; [|by split_and!]. cbn. rewrite lookup_insert_ne; [done|congruence].
    - intros v n x Hn Hx Hxn. cbn in Hn. apply lookup_insert_Some in Hn as [[[= <-] <-]|[_ Hn]]; [by destruct (Hr x Hx)|].
      by exists n. }
  intros v [B1 B2]. split; [done|]. cbn. intros n x Hn Hxn Hx.
  apply lookup_insert_Some in Hn as [[[= <-] <-]|[_ Hn]]; [by apply (Hr x)|by eapply B2].
Qed.

Lemma good_remove R s w u m :
  tier R s (m_db w) -> db_members (m_db w) !! (sid, u) = Some m -> ~ within R s m ->
  good R s w (set_db w (with_members (m_db w) (delete (sid, u) (db_members (m_db w))))).
Proof.
  intros Ht Hm Hw. exists R, s. split; [done|]. split.
  { destruct Ht as [[K1 K2 K3] ? ? ? ? ? ?]. split; try done. split; [done..|]. cbn. intros k v n [_ H]%lookup_delete_Some.
    by apply K3. }
  split.
  { split; [done|eauto|..].
    - intros v n Hn Hwn. destruct (decide (v = u)) as [->|Hne]; [rewrite Hm in Hn; injection Hn as <-; done|].
      exists n. split; [|by split_and!]. cbn. rewrite lookup_delete_ne; [done|congruence].
    - intros v n x Hn Hx Hxn. cbn in Hn. apply lookup_delete_Some in Hn as [_ Hn]. by exists n. }
  intros v [B1 B2]. split; [done|]. cbn. intros n x [_ Hn]%lookup_delete_Some. by apply B2.
Qed.

Lemma strip_role_roles rid m x : x ∈ member_roles (strip_role sid rid m) -> x ∈ member_roles m.
Proof.
  unfold strip_role. destruct (str_eqb _ _); [|done]. cbn. by intros [_ H]%elem_of_filter_bool.
Qed.

Lemma strip_role_kept rid m x : x <> rid -> x ∈ member_roles m -> x ∈ member_roles (strip_role sid rid m).
Proof.
  intros Hne Hx. unfold strip_role. destruct (str_eqb _ _); [|done]. cbn. apply elem_of_filter_bool.
  split; [|done]. by apply str_eqb_neq in Hne as ->.
Qed.

Lemma good_delete_role R s w rid r :
  tier R s (m_db w) -> server_roles s !! rid = Some r -> rid ∉ R ->
  good R s w (set_db w (delete_role (m_db w) sid rid).1).
Proof.
  intros Ht Hr Hn. unfold delete_role. rewrite (t_server _ _ _ Ht), Hr. cbn [fst].
  set (s' := with_roles s (delete rid (server_roles s))).
  assert (forall x rx, server_roles s' !! x = Some rx -> server_roles s !! x = Some rx) as Hback.
  { intros x rx H. cbn in H. by apply lookup_delete_Some in H as [_ H]. }
  assert (forall x rx, x ∈ R -> server_roles s !! x = Some rx -> server_roles s' !! x = Some rx) as Hfor.
  { intros x rx Hx H. cbn. rewrite lookup_delete_ne; [done|]. by intros ->. }
  assert (tier R s' (m_db (set_db w (with_server (m_db w) s')))) as Ht'.
  { destruct Ht as [K S A L E Mn Sz]. split; cbn [m_db set_db].
    - eapply keyed_server; [done..|]. intros x r' H%Hback. by eapply k_roles.
    - apply lookup_insert_eq.
    - intros x y rx ry Hx%Hback Hy%Hback. by apply A.
    - intros x rx Hx%Hback. by apply L.
    - intros x Hx. destruct (E x Hx) as [rx Hrx]. exists rx. by apply Hfor.
    - intros x rx Hx%Hback. by eapply Mn.
    - cbn. rewrite map_size_delete, Hr. lia. }
  exists R, s'. split; [done|].
  assert (forall v n, (strip_role sid rid <$> db_members (m_db w)) !! (sid, v) = Some n ->
            exists n0, db_members (m_db w) !! (sid, v) = Some n0 /\ n = strip_role sid rid n0) as Hmem.
  { intros v n H. rewrite lookup_fmap in H. apply fmap_Some in H as (n0 & H0 & ->). by exists n0. }
  split.
  { destruct Ht' as [[K1 K2 K3] S A L E Mn Sz]. split; try done. split; [exact K1|exact K2|]. cbn. intros k v n H.
    rewrite lookup_fmap in H. apply fmap_Some in H as (n0 & H0 & ->). unfold strip_role.
    destruct (str_eqb _ _); cbn; by apply K3. }
  split.
  { split; [done| | |].
    - intros x rx Hx Hrx. exists rx. split; [by apply Hfor|done].
    - intros v n Hv _. exists (strip_role sid rid n). cbn. rewrite lookup_fmap, Hv. cbn. split; [done|].
      unfold strip_role at 1 2 3 4. destruct (str_eqb (member_server n) sid); cbn; split_and!; try done;
        intros x Hx; (split; [apply strip_role_roles|]); apply strip_role_kept; by intros ->.
    - intros v n x Hv Hx Hxn. apply Hmem in Hv as (n0 & H0 & ->). exists n0. split; [done|].
      by eapply strip_role_roles. }
  intros v [B1 B2]. split; [done|]. intros n x Hv Hxn. apply Hmem in Hv as (n0 & H0 & ->).
  apply (B2 n0); [done|]. by eapply strip_role_roles.
Qed.
(** *** A new role *)

(** The new role's rank counts the roles, so it may land above old ones: then
    it joins the tier. *)
Lemma good_create R s w new_id name :
  tier R s (m_db w) -> server_roles s !! new_id = None -> Z.of_nat (size (server_roles s)) < i64_max ->
  (forall u m, db_members (m_db w) !! (sid, u) = Some m -> new_id ∉ member_roles m) ->
  good R s w (set_db w (role_create (m_db w) s new_id name).1).
Proof.
  intros Ht Hnew Hsz Hnone. unfold role_create, insert_role.
  pose proof (k_servers _ (t_keyed _ _ _ Ht) _ _ (t_server _ _ _ Ht)) as Hsid. rewrite Hsid, (t_server _ _ _ Ht).
  cbn [fst role_id]. set (role := mkRole new_id name _ _ _ _). set (n := Z.of_nat (size (server_roles s))) in *.
  set (s' := with_roles s (<[new_id := role]> (server_roles s))).
  assert (forall x rx, x <> new_id -> server_roles s' !! x = Some rx <-> server_roles s !! x = Some rx) as Hsame.
  { intros x rx Hne. cbn. by rewrite lookup_insert_ne. }
  assert (server_roles s' !! new_id = Some role) as Hat by apply lookup_insert_eq.
  assert (forall x, x ∈ R -> x <> new_id) as HR.
  { intros x Hx ->. destruct (t_exists _ _ _ Ht new_id Hx) as [r Hr]. congruence. }
  assert (exists R', R ⊆ R' /\ (forall x, x ∈ R' -> x ∈ R \/ x = new_id)
    /\ (new_id ∈ R' -> exists z rz, z ∈ R /\ server_roles s !! z = Some rz /\ n <= role_rank rz)
    /\ (new_id ∉ R' -> forall z rz, z ∈ R -> server_roles s !! z = Some rz -> role_rank rz < n))
    as (R' & Hsub & HR' & Hin & Hout).
  { destruct (decide (map_Exists (fun z rz => z ∈ R /\ n <= role_rank rz) (server_roles s))) as [H|H].
    - exists (R ∪ {[new_id]}). split_and!; [set_solver..| |set_solver]. intros _.
      apply map_Exists_lookup in H as (z & rz & ? & ? & ?). by exists z, rz.
    - exists R. split_and!; [done|by left|intros Hx; by destruct (HR _ Hx)|]. intros _ z rz Hz Hrz.
      destruct (Z.lt_ge_cases (role_rank rz) n) as [|Hge]; [done|]. destruct H. apply map_Exists_lookup. eauto. }
  exists R', s'. split; [done|]. split.
  { split; cbn [m_db set_db].
    - eapply keyed_server; [apply Ht|apply Ht|done|]. intros x r H.
      destruct (decide (x = new_id)) as [->|Hne]; [rewrite Hat in H; by injection H as <-|].
      apply Hsame in H; [|done]. eapply k_roles; [apply Ht|apply Ht|done].
    - apply lookup_insert_eq.
    - intros x y rx ry Hx Hy Hxr Hyr. destruct (decide (x = new_id)) as [->|Hx'].
      + rewrite Hat in Hx. injection Hx as <-. destruct (Hin Hxr) as (z & rz & Hz & Hrz & Hle).
        assert (y <> new_id) as Hy' by (intros ->; done). apply Hsame in Hy; [|done].
        assert (role_rank rz < role_rank ry) by (eapply (t_above _ _ _ Ht); [done..|set_solver]). cbn. lia.
      + apply Hsame in Hx; [|done]. destruct (HR' x Hxr) as [HxR|]; [|done].
        destruct (decide (y = new_id)) as [->|Hy'].
        * rewrite Hat in Hy. injection Hy as <-. cbn. by eapply Hout.
        * apply Hsame in Hy; [|done]. eapply (t_above _ _ _ Ht); [done..|set_solver].
    - intros x rx Hx Hxr. destruct (decide (x = new_id)) as [->|Hx'].
      + rewrite Hat in Hx. injection Hx as <-. destruct (Hin Hxr) as (z & rz & Hz & Hrz & Hle).
        pose proof (t_low _ _ _ Ht z rz Hrz Hz). cbn. lia.
      + apply Hsame in Hx; [|done]. destruct (HR' x Hxr) as [HxR|]; [|done]. by eapply (t_low _ _ _ Ht).
    - intros x Hxr. destruct (decide (x = new_id)) as [->|Hx']; [by eexists|].
      destruct (HR' x Hxr) as [HxR|]; [|done]. destruct (t_exists _ _ _ Ht x HxR) as [r Hr]. exists r.
      by apply Hsame.
    - intros x rx Hx. destruct (decide (x = new_id)) as [->|Hx'].
      + rewrite Hat in Hx. injection Hx as <-. cbn. unfold i64_min. subst n. lia.
      + apply Hsame in Hx; [|done]. by eapply (t_min _ _ _ Ht).
    - cbn. rewrite map_size_insert_None by done. lia. }
  split.
  { split; [done| |by intros u m Hm _; exists m; split_and!|by intros u m x Hm _ Hxm; exists m].
    intros x r Hx Hr. exists r. split_and!; [|done..]. apply Hsame; [by apply HR|done]. }
  intros u [B1 B2]. split; [done|]. intros m x Hm Hxm Hx. destruct (HR' x Hx) as [HxR| ->].
  - by eapply B2.
  - by eapply Hnone.
Qed.

(** *** A new order *)

Lemma position_at l n x : NoDup l -> l !! n = Some x -> position x l = Some n.
Proof.
  intros Hnd Hl. unfold position. destruct (list_find (eq x) l) as [[m y]|] eqn:E.
  - apply list_find_Some in E as (Hm & <- & _). cbn. f_equal. by eapply NoDup_lookup.
  - apply list_find_None in E. rewrite Forall_forall in E. destruct (E x); [|done]. by eapply list_elem_of_lookup_2.
Qed.

Lemma position_some l n x : position x l = Some n -> l !! n = Some x.
Proof.
  unfold position. intros H. apply fmap_Some in H as ([m y] & H & ->). by apply list_find_Some in H as (? & <- & _).
Qed.

(** The first places stay those of the tier. *)
Lemma places_kept (P : string -> Prop) `{!forall x, Decision (P x)} old new x y i j :
  NoDup old -> NoDup new ->
  (forall a b ia ib, old !! ia = Some a -> old !! ib = Some b -> P a -> ~ P b -> (ia < ib)%nat) ->
  (forall a, P a -> a ∈ old -> position a old = position a new) ->
  (forall a, a ∈ new -> a ∈ old) ->
  P x -> ~ P y -> new !! i = Some x -> new !! j = Some y -> (i < j)%nat.
Proof.
  intros Ho Hn Hs Hp Hin Hx Hy Hi Hj.
  assert (old !! i = Some x) as Hox.
  { apply position_some. rewrite Hp; [by apply position_at|done|]. apply Hin. by eapply list_elem_of_lookup_2. }
  destruct (Nat.lt_ge_cases i j) as [|Hge]; [done|]. exfalso.
  assert (is_Some (old !! j)) as [z Hz].
  { apply lookup_lt_is_Some. apply lookup_lt_Some in Hox. lia. }
  destruct (decide (P z)) as [Hpz|Hpz].
  - assert (new !! j = Some z) as Hnz; [|congruence]. apply position_some.
    rewrite <- Hp; [by apply position_at|done|by eapply list_elem_of_lookup_2].
  - specialize (Hs x z i j Hox Hz Hx Hpz). lia.
Qed.

Lemma existing_order_sorted `{!HashIter string Role} s x y rx ry i j :
  existing_order s !! i = Some x -> existing_order s !! j = Some y ->
  server_roles s !! x = Some rx -> server_roles s !! y = Some ry -> role_rank rx < role_rank ry -> (i < j)%nat.
Proof.
  unfold existing_order. set (l := sort_by _ _). intros Hi Hj Hx Hy Hr.
  assert (forall n z, l.*1 !! n = Some z -> exists r, l !! n = Some (z, r) /\ server_roles s !! z = Some r) as Hl.
  { intros n z H. rewrite list_lookup_fmap in H. apply fmap_Some in H as ([z' r] & H & ->). exists r. split; [done|].
    apply elem_of_hm_iter. apply list_elem_of_lookup_2 in H. by apply elem_of_sort_by in H. }
  destruct (Hl i x Hi) as (r1 & H1 & E1), (Hl j y Hj) as (r2 & H2 & E2).
  rewrite Hx in E1. rewrite Hy in E2. injection E1 as <-. injection E2 as <-.
  destruct (Nat.lt_trichotomy i j) as [|[->|Hlt]]; [done|rewrite H1 in H2; injection H2 as -> ->; lia|]. exfalso.
  assert (StronglySorted (fun a b : string * Role => (role_rank a.2 <=? role_rank b.2) = true) l) as Hs.
  { apply sort_by_sorted; [intros a b; destruct (Z.leb_spec (role_rank a.2) (role_rank b.2)); [by left|right; apply Z.leb_le; lia]|].
    intros a b c ? ?. rewrite Z.leb_le in *. lia. }
  assert ((role_rank ry <=? role_rank rx) = true) as Hle; [|apply Z.leb_le in Hle; lia].
  rewrite <- (take_drop i l) in Hs.
  apply (StronglySorted_app_1_elem_of _ _ _ (y, ry) (x, rx) Hs).
  - apply list_elem_of_lookup_2 with j. rewrite lookup_take_lt; [done|lia].
  - apply list_elem_of_lookup_2 with 0%nat. by rewrite lookup_drop, Nat.add_0_r.
Qed.

Lemma existing_order_keys `{!HashIter string Role} s :
  NoDup (existing_order s) /\ forall x, x ∈ existing_order s <-> is_Some (server_roles s !! x).
Proof.
  unfold existing_order.
  assert ((sort_by (fun a b : string * Role => role_rank a.2 <=? role_rank b.2) (hm_iter (server_roles s))).*1
          ≡ₚ hm_keys (server_roles s)) as Hp.
  { unfold hm_keys. by rewrite sort_by_perm. }
  split; [rewrite Hp; apply hm_keys_NoDup|]. intros x. rewrite Hp. unfold hm_keys.
  rewrite hm_iter_perm. rewrite list_elem_of_fmap. split.
  - intros ([k r] & -> & H%elem_of_map_to_list). by exists r.
  - intros [r H]. exists (x, r). split; [done|]. by apply elem_of_map_to_list.
Qed.

Lemma good_reorder `{!HashIter string Role} R s w ranks d r :
  tier R s (m_db w) -> length ranks = size (server_roles s) ->
  (forall x, is_Some (server_roles s !! x) -> x ∈ ranks) ->
  (forall x rx, x ∈ R -> server_roles s !! x = Some rx -> position x (existing_order s) = position x ranks) ->
  set_role_ordering (m_db w) s ranks = Some (d, r) -> good R s w (set_db w d).
Proof.
  intros Ht Hlen Hall Hpos Hset. destruct (existing_order_keys s) as [Hond Hokeys].
  assert (existing_order s ≡ₚ ranks) as Hperm.
  { apply submseteq_length_Permutation.
    - apply NoDup_submseteq; [done|]. intros x Hx. by apply Hall, Hokeys.
    - rewrite Hlen. unfold existing_order. rewrite length_fmap, sort_by_perm, hm_iter_perm.
      by rewrite length_map_to_list. }
  assert (NoDup ranks) as Hnd by (by rewrite <- Hperm).
  pose proof (k_servers _ (t_keyed _ _ _ Ht) _ _ (t_server _ _ _ Ht)) as Hsid.
  unfold set_role_ordering in Hset. destruct (assign_ranks 0 ranks (server_roles s)) as [roles|] eqn:Ea; [|done].
  rewrite Hsid, (t_server _ _ _ Ht) in Hset. injection Hset as <- <-.
  assert (forall x r', roles !! x = Some r' -> exists r n, server_roles s !! x = Some r /\ ranks !! n = Some x
    /\ r' = mkRole (role_id r) (role_name r) (role_permissions r) (role_colour r) (role_hoist r) (Z.of_nat n)) as Hback.
  { intros x r' H. rewrite (assign_ranks_lookup _ _ _ _ x Hnd Ea) in H.
    destruct (list_find (eq x) ranks) as [[n y]|] eqn:E.
    - apply list_find_Some in E as (Hn & <- & _). apply fmap_Some in H as (r0 & H0 & ->). by exists r0, n.
    - apply list_find_None in E. rewrite Forall_forall in E. destruct (E x); [|done]. apply Hall. by eexists. }
  assert (forall x rx, server_roles s !! x = Some rx -> exists n, roles !! x = Some
    (mkRole (role_id rx) (role_name rx) (role_permissions rx) (role_colour rx) (role_hoist rx) (Z.of_nat n))) as Hfor.
  { intros x rx H. rewrite (assign_ranks_lookup _ _ _ _ x Hnd Ea), H.
    destruct (list_find (eq x) ranks) as [[n y]|] eqn:E; [by exists n|].
    apply list_find_None in E. rewrite Forall_forall in E. destruct (E x); [|done]. apply Hall. by eexists. }
  exists R, (with_roles s roles). split; [done|]. split.
  { split; cbn [m_db set_db].
    - eapply keyed_server; [apply Ht|apply Ht|done|]. intros x r' H. cbn in H.
      destruct (Hback x r' H) as (r0 & n & H0 & _ & ->).
      exact (k_roles _ (t_keyed _ _ _ Ht) _ _ _ _ (t_server _ _ _ Ht) H0).
    - apply lookup_insert_eq.
    - cbn. intros x y rx ry Hx Hy Hxr Hyr.
      destruct (Hback x rx Hx) as (x0 & i & Hx0 & Hi & ->), (Hback y ry Hy) as (y0 & j & Hy0 & Hj & ->). cbn.
      apply inj_lt. apply (places_kept (fun z => z ∈ R) (existing_order s) ranks x y i j); try done.
      + intros a b ia ib Ha Hb Hra Hrb.
        assert (is_Some (server_roles s !! a) /\ is_Some (server_roles s !! b)) as [[ra Era] [rb Erb]].
        { split; apply Hokeys; by eapply list_elem_of_lookup_2. }
        eapply existing_order_sorted; [exact Ha|exact Hb|exact Era|exact Erb|]. by eapply (t_above _ _ _ Ht).
      + intros a Ha Hin. apply Hokeys in Hin as [ra Hra]. by eapply Hpos.
      + intros a. rewrite Hperm. done.
    - cbn. intros x rx Hx Hxr. destruct (Hback x rx Hx) as (x0 & i & Hx0 & Hi & ->). cbn.
      apply lookup_lt_Some in Hi. pose proof (t_size _ _ _ Ht). lia.
    - cbn. intros x Hx. destruct (t_exists _ _ _ Ht x Hx) as [rx Hrx]. destruct (Hfor x rx Hrx) as [n Hn]. by eexists.
    - cbn. intros x rx Hx. destruct (Hback x rx Hx) as (x0 & i & _ & _ & ->). cbn. unfold i64_min. lia.
    - cbn. assert (dom roles = dom (server_roles s)) as Hdom.
      { apply set_eq. intros x. rewrite !elem_of_dom. split; intros [rx H].
        - destruct (Hback x rx H) as (r0 & n & H0 & _). by eexists.
        - destruct (Hfor x rx H) as [n Hn]. by eexists. }
      rewrite <- (size_dom (D:=gset string) roles), Hdom, size_dom. apply Ht. }
  split.
  { split; [done| |by intros u m Hm _; exists m; split_and!|by intros u m x Hm _ Hxm; exists m].
    intros x rx Hx Hrx. destruct (Hfor x rx Hrx) as [n Hn]. eexists. split; [exact Hn|done]. }
  intros u [B1 B2]. by split.
Qed.
End Tier.

(** ** Requests *)

Section Requests.
Context `{!HashIter string Channel.t, !HashIter (string * string) Member}.
Context `{!HashIter string Role, !HashIter string OverrideField.t}.
Context (now : Z) (server_channels : string -> list string).
Context (contains_blocked_slur : string -> bool) (server_roles_max : Z).
Context (roles_max_small : server_roles_max <= i64_max).
Context (sid : string) (R : gset string) (s : Server).

(** The rank a caller below the tier is judged with *)
Definition judged (rank : option Z) (permissions : Z) : Prop :=
  match rank with
  | Some rk => i64_min <= rk /\ forall x r, x ∈ R -> server_roles s !! x = Some r -> role_rank r < rk
  | None => permissions = 0
  end.

Lemma standing_spec user w :
  tier sid R s (m_db w) -> user_privileged user = false -> below sid R s (m_db w) (user_id user) ->
  exists permissions rank, standing now user s w = Some (Ok (permissions, rank), w) /\ judged rank permissions.
Proof.
  intros Ht Hp Hb. unfold standing.
  pose proof (k_servers _ (t_keyed _ _ _ _ Ht) _ _ (t_server _ _ _ _ Ht)) as Hsid.
  set (q := set_server (new (m_db w) now user) s).
  assert (db_are_we_server_owner q = false) as Ho.
  { cbn. apply str_eqb_neq. apply Hb. }
  destruct (db_members (m_db w) !! (sid, user_id user)) as [m|] eqn:Em.
  - assert (db_are_we_a_member q = (true, set_member q m)) as Hm.
    { unfold db_are_we_a_member, fetch_member. cbn. by rewrite Hsid, Em. }
    assert (exists p, calculate_server_permissions q = Some (p, set_member q m)) as [p ->].
    { unfold calculate_server_permissions, or_else, st_bind. cbn -[db_are_we_server_owner db_are_we_a_member].
      rewrite Hp. cbn -[db_are_we_server_owner db_are_we_a_member]. rewrite Ho. cbn -[db_are_we_a_member]. rewrite Hm. by eexists. }
    cbn. eexists _, _. split; [done|]. cbn. split; [by eapply ranking_min|]. intros x r. by eapply outranked.
  - assert (db_are_we_a_member q = (false, q)) as Hm.
    { unfold db_are_we_a_member, fetch_member. cbn. by rewrite Hsid, Em. }
    assert (calculate_server_permissions q = Some (0, q)) as ->.
    { unfold calculate_server_permissions, or_else, st_bind. cbn -[db_are_we_server_owner db_are_we_a_member].
      rewrite Hp. cbn -[db_are_we_server_owner db_are_we_a_member]. rewrite Ho. cbn -[db_are_we_a_member]. by rewrite Hm. }
    by eexists _, _.
Qed.

(** *** The steps the routes share *)

Context (user : User) (w : World).
Context (Ht : tier sid R s (m_db w)) (Hp : user_privileged user = false).
Context (Hb : below sid R s (m_db w) (user_id user)).

Abbreviation Good := (good sid R s w).

Lemma good_here : Good w.
Proof. by apply good_refl. Qed.

(** Only the documents count. *)
Lemma good_docs w1 w' : m_db w1 = m_db w -> good sid R s w1 w' -> Good w'.
Proof. unfold good. by intros ->. Qed.

Lemma good_bans bans : Good (mkWorld (m_db w) bans).
Proof. eapply (good_docs (mkWorld (m_db w) bans)); [done|]. by apply good_refl. Qed.

Lemma server_id_s : server_id s = sid.
Proof. exact (k_servers _ (t_keyed _ _ _ _ Ht) _ _ (t_server _ _ _ _ Ht)). Qed.

Lemma post_server {B} (k : Server -> Route B) :
  post (k s) w Good -> post (rbind (look (fun d => fetch_server d sid)) k) w Good.
Proof.
  intros Hk. apply post_look; [apply good_here|]. unfold fetch_server. rewrite (t_server _ _ _ _ Ht).
  by intros a [= <-].
Qed.

Lemma post_standing {B} (k : Z * option Z -> Route B) :
  (forall permissions rank, judged rank permissions -> post (k (permissions, rank)) w Good) ->
  post (rbind (standing now user s) k) w Good.
Proof.
  intros Hk. destruct (standing_spec user w Ht Hp Hb) as (permissions & rank & E & Hj).
  apply post_try; intros a w1 E1; rewrite E in E1; [|done]. injection E1 as <- <-. by apply Hk.
Qed.

(** Whoever has a permission has a rank. *)
Lemma post_judged {B} permissions rank c (k : unit -> Route B) :
  judged rank permissions ->
  (forall rk, rank = Some rk -> i64_min <= rk ->
     (forall x r, x ∈ R -> server_roles s !! x = Some r -> role_rank r < rk) -> post (k tt) w Good) ->
  post (rbind (need permissions c) k) w Good.
Proof.
  intros Hj Hk. apply post_need; [apply good_here|]. intros Hc. destruct rank as [rk|].
  - destruct Hj. by eapply Hk.
  - cbn in Hj. subst permissions. by destruct c.
Qed.

Lemma not_within m rk :
  i64_min <= rk -> (forall x r, x ∈ R -> server_roles s !! x = Some r -> role_rank r < rk) ->
  (get_ranking m s <=? rk) = false -> ~ within R s m.
Proof.
  intros Hmin Hrk Hr Hw. apply Z.leb_gt in Hr.
  pose proof (within_ranking _ _ _ _ _ _ Ht Hw Hrk Hmin). lia.
Qed.

Lemma not_in_tier x r rk :
  (forall x r, x ∈ R -> server_roles s !! x = Some r -> role_rank r < rk) ->
  server_roles s !! x = Some r -> (role_rank r <=? rk) = false -> x ∉ R.
Proof. intros Hrk Hr Hle Hx. apply Z.leb_gt in Hle. specialize (Hrk x r Hx Hr). lia. Qed.

(** *** Members *)

Lemma post_remove w1 uid m o :
  m_db w1 = m_db w -> db_members (m_db w) !! (sid, uid) = Some m -> ~ within R s m ->
  post (remove_with_outcome now m o) w1 Good.
Proof.
  intros E Hm Hw. assert (Good w1) as Hg1 by (eapply good_docs; [exact E|]; apply good_refl; by rewrite E).
  apply post_give; [done|]. intros _ _. destruct (k_members _ (t_keyed _ _ _ _ Ht) _ _ _ Hm) as [E1 E2].
  assert (forall r w', soft_delete_member now (member_server m, member_user m) w1 = Some (r, w') -> Good w') as Hd.
  { intros r w' Hd. unfold soft_delete_member in Hd. rewrite E, E1, E2, Hm in Hd. destruct (in_timeout now m); [done|].
    injection Hd as <- <-. eapply (good_docs w1); [exact E|].
    rewrite <- E in Ht, Hm. pose proof (good_remove sid R s w1 uid m Ht Hm Hw) as Hg. unfold with_members in Hg.
    by rewrite E in Hg. }
  apply post_try; intros a w2 H2.
  - apply post_end. by eapply Hd.
  - by eapply Hd.
Qed.

Lemma post_kick member_id o : post (kick now user sid member_id o) w Good.
Proof.
  apply post_give; [apply good_here|]. intros _ _. apply post_server.
  apply post_refuse; [apply good_here|]. intros _. apply post_refuse; [apply good_here|]. intros _.
  apply post_standing. intros permissions rank Hj. apply post_judged with rank; [done|]. intros rk -> Hmin Hrk.
  apply post_look; [apply good_here|]. intros m Hm. rewrite server_id_s in Hm. unfold fetch_member, ok_or in Hm.
  destruct (db_members (m_db w) !! (sid, member_id)) as [m0|] eqn:Em; [|done]. injection Hm as ->.
  apply post_refuse; [apply good_here|]. cbn [default from_option]. intros Hr.
  pose proof (post_remove w member_id m o eq_refl Em (not_within m rk Hmin Hrk Hr)) as Hrem.
  apply post_try; intros a w1 H1; [|by eapply Hrem].
  apply post_give; [by eapply Hrem|]. intros _ _. apply post_end. by eapply Hrem.
Qed.

Lemma post_unban target o : post (unban now user sid target o) w Good.
Proof.
  apply post_give; [apply good_here|]. intros _ _. apply post_server. apply post_standing. intros permissions rank Hj.
  apply post_judged with rank; [done|]. intros rk -> _ _.
  apply post_reads; [by intros w1 r w' [= _ <-]|apply good_here|]. intros b _ r w' H. unfold delete_ban in H.
  destruct (m_bans w !! _); injection H as _ <-; [apply good_bans|apply good_here].
Qed.

(** Steps that leave the documents alone *)
Definition documents_kept {A} (c : Route A) : Prop :=
  forall w1 r w', c w1 = Some (r, w') -> m_db w' = m_db w1.

Lemma kept_good w1 : m_db w1 = m_db w -> Good w1.
Proof. intros E. eapply good_docs; [exact E|]. apply good_refl. by rewrite E. Qed.

Lemma post_documents {A B} (c : Route A) (k : A -> Route B) w1 :
  documents_kept c -> m_db w1 = m_db w ->
  (forall a w2, m_db w2 = m_db w -> post (k a) w2 Good) -> post (rbind c k) w1 Good.
Proof.
  intros Hc E Hk. apply post_try; intros a w2 H2; pose proof (Hc _ _ _ H2) as E2.
  - apply Hk. congruence.
  - apply kept_good. congruence.
Qed.

Lemma documents_give {A} (r : Result A) : documents_kept (give r).
Proof. by intros w1 r' w' [= _ <-]. Qed.

Lemma documents_caught {A} (c : Route A) : documents_kept c -> documents_kept (caught c).
Proof.
  intros Hc w1 r w' H. unfold caught in H. destruct (c w1) as [[r1 w2]|] eqn:E; [|done].
  injection H as _ <-. by eapply Hc.
Qed.

Lemma documents_try {A B} (c : Route A) (k : A -> Route B) :
  documents_kept c -> (forall a, documents_kept (k a)) -> documents_kept (rbind c k).
Proof.
  intros Hc Hk w1 r w' H. unfold rbind in H. destruct (c w1) as [[[a|e] w2]|] eqn:E; [| |done];
    pose proof (Hc _ _ _ E) as <-; [by eapply Hk|by injection H as _ <-].
Qed.

Lemma documents_fetch_ban k u : documents_kept (fetch_ban k u).
Proof. by intros w1 r w' [= _ <-]. Qed.

Lemma documents_insert_ban k u b : documents_kept (insert_ban k u b).
Proof. intros w1 r w' H. unfold insert_ban in H. by destruct (m_bans w1 !! _); injection H as _ <-. Qed.

Lemma post_ban target reason seconds o : post (ban now user sid target reason seconds o) w Good.
Proof.
  apply post_give; [apply good_here|]. intros _ _. apply post_server.
  apply post_refuse; [apply good_here|]. intros _. apply post_refuse; [apply good_here|]. intros _.
  apply post_standing. intros permissions rank Hj. apply post_judged with rank; [done|]. intros rk -> Hmin Hrk.
  rewrite server_id_s. apply post_reads; [by intros w1 r w' [= _ <-]|apply good_here|]. intros fetched [= <-].
  apply post_give; [apply good_here|]. intros member Hmem. apply post_refuse; [apply good_here|]. intros Hr.
  apply post_documents; [apply documents_caught, documents_fetch_ban|done|]. intros existing w1 E1.
  apply post_documents; [|done|].
  { destruct existing as [b|[]]; try apply documents_give.
    apply documents_try; [apply documents_caught, documents_insert_ban|]. intros [?|e]; [apply documents_give|].
    apply documents_try; [apply documents_caught, documents_fetch_ban|]. intros again. apply documents_give. }
  intros b w2 E2.
  assert (forall (k : Result unit -> Route ServerBan), (forall a w3, Good w3 -> post (k a) w3 Good) ->
    post (rbind (match member with
                 | Some member => try outcome := caught (remove_with_outcome now member o) in
                                  give (Ok (match outcome with Ok r => r | Err e => Err e end))
                 | None => give (Ok (Ok tt))
                 end) k) w2 Good) as Hrem.
  { intros k Hk. destruct member as [m|]; [|by apply post_give; [by apply kept_good|intros; by apply Hk, kept_good]].
    unfold fetch_member, ok_or in Hmem.
    destruct (db_members (m_db w) !! (sid, target)) as [m0|] eqn:Em; [|done]. injection Hmem as ->.
    pose proof (post_remove w2 target m o E2 Em (not_within m rk Hmin Hrk Hr)) as Hrem.
    assert (forall r w3, (try outcome := caught (remove_with_outcome now m o) in
              give (Ok (match outcome with Ok r => r | Err e => Err e end))) w2 = Some (r, w3) -> Good w3) as H3.
    { intros r w3 H3. unfold rbind, caught in H3.
      destruct (remove_with_outcome now m o w2) as [[r1 w4]|] eqn:E; [|done]. injection H3 as _ <-. by eapply Hrem. }
    apply post_try; intros a w3 H; [apply Hk|]; by eapply H3. }
  apply Hrem. intros removed w3 H3. do 3 (apply post_give; [done|]; intros _ _).
  destruct seconds as [n|]; [destruct (0 <? n)|]; (apply post_give; [done|]; intros _ _; by apply post_end).
Qed.

(** *** Edits of members *)

Lemma first_ids_all x ids : forall seen, x ∈ ids -> existsb (str_eqb x) seen = false -> x ∈ first_ids seen ids.
Proof.
  induction ids as [|y ids IH]; intros seen Hx Hs; [by apply elem_of_nil in Hx|]. cbn [first_ids].
  destruct (decide (x = y)) as [->|Hne]; [rewrite Hs; left|].
  apply elem_of_cons in Hx as [->|Hx]; [done|]. destruct (existsb (str_eqb y) seen); [by apply IH|].
  right. apply IH; [done|]. cbn. rewrite Hs. apply orb_false_iff. split; [|done]. by apply str_eqb_neq.
Qed.

Lemma check_added_ranks our added x :
  check_added_roles s our added = Ok tt -> x ∈ added ->
  exists r, server_roles s !! x = Some r /\ our < role_rank r.
Proof.
  induction added as [|y added IH]; intros H Hx; [by apply elem_of_nil in Hx|]. cbn in H.
  destruct (server_roles s !! y) as [r|] eqn:E; [|done]. destruct (Z.leb_spec (role_rank r) our); [done|].
  apply elem_of_cons in Hx as [->|Hx]; [by exists r|by apply IH].
Qed.

Lemma remove_fields_member m remove :
  member_server (foldl remove_field m remove) = member_server m
  /\ member_user (foldl remove_field m remove) = member_user m
  /\ forall x, x ∈ member_roles (foldl remove_field m remove) -> x ∈ member_roles m.
Proof.
  revert m. induction remove as [|f remove IH]; intros m; [done|]. cbn [foldl].
  destruct (IH (remove_field m f)) as (-> & -> & H). destruct f; split_and!; try done; intros x Hx%H;
    by apply elem_of_nil in Hx.
Qed.

Lemma edited_member m data :
  member_server (edited m data) = member_server m /\ member_user (edited m data) = member_user m
  /\ forall x, x ∈ member_roles (edited m data) ->
       x ∈ member_roles m \/ exists roles, e_roles data = Some roles /\ x ∈ roles.
Proof.
  destruct (remove_fields_member m (e_remove data)) as (H1 & H2 & H3). unfold edited, apply_options.
  cbn [member_server member_user member_roles]. split_and!; [done..|]. intros x Hx.
  destruct (e_roles data) as [roles|]; [right; by exists roles|left; by apply H3].
Qed.

Lemma reads_edit_allowed member permissions target_permissions data :
  reads (edit_allowed now user member permissions target_permissions data).
Proof.
  unfold edit_allowed, need, refuse_if.
  repeat first [apply reads_give | apply reads_if | apply reads_try; [|intros []]].
Qed.

(** The rank an editor is judged with, a member or not *)
Lemma judged_ranking permissions rank x r :
  judged rank permissions -> x ∈ R -> server_roles s !! x = Some r -> role_rank r < default i64_max rank.
Proof.
  intros Hj Hx Hr. destruct rank as [rk|]; [by apply (proj2 Hj x)|]. by eapply (t_low _ _ _ _ Ht).
Qed.

Lemma ranking_max m : get_ranking m s <= i64_max.
Proof.
  unfold get_ranking. destruct (str_eqb _ _); [done|]. apply (proj1 (ranking_fold_le s (member_roles m) i64_max)).
Qed.

Lemma post_edit member_id data o : post (edit now contains_blocked_slur user sid member_id data o) w Good.
Proof.
  do 3 (apply post_give; [apply good_here|]; intros _ _). apply post_server.
  apply post_look; [apply good_here|]. intros target_user _.
  apply post_look; [apply good_here|]. intros m Hm. rewrite server_id_s in Hm. unfold fetch_member, ok_or in Hm.
  destruct (db_members (m_db w) !! (sid, member_id)) as [m0|] eqn:Em; [|done]. injection Hm as ->.
  destruct (k_members _ (t_keyed _ _ _ _ Ht) _ _ _ Em) as [Es Eu].
  apply post_standing. intros permissions rank Hj.
  apply post_reads; [by intros w1 r w' H; destruct (calculate_server_permissions _) as [[]|]; [injection H as _ <-|]
                    |apply good_here|]. intros target_permissions _.
  apply post_reads; [apply reads_edit_allowed|apply good_here|]. intros _ _.
  rewrite Hp. assert (str_eqb (server_owner s) (user_id user) = false) as -> by (apply str_eqb_neq, Hb).
  cbn [orb negb]. set (our := default i64_max rank).
  assert (forall x r, x ∈ R -> server_roles s !! x = Some r -> role_rank r < our) as Hour.
  { intros x r. by apply (judged_ranking permissions). }
  apply post_refuse; [apply good_here|]. intros Hr.
  assert (~ within R s m) as Hw.
  { destruct (str_eqb (member_user m) (user_id user)) eqn:Eo.
    - apply str_eqb_eq in Eo. intros [Ho|(x & Hx & Hxm)]; [by apply (b_owner _ _ _ _ _ Hb); congruence|].
      eapply (b_roles _ _ _ _ _ Hb); [|exact Hxm|exact Hx]. by rewrite <- Eo, Eu.
    - rewrite andb_true_r in Hr. cbn [negb andb] in Hr.
      destruct rank as [rk|]; [by eapply not_within; [apply Hj|..]|].
      apply Z.leb_gt in Hr. pose proof (ranking_max m). cbn in our. subst our. lia. }
  apply post_try; [|intros e w1 H1; destruct (e_roles data); injection H1 as _ <-; apply good_here].
  intros [] w1 H1.
  assert (w1 = w /\ forall x, x ∈ R -> x ∉ member_roles (edited m data)) as [-> Hroles].
  { destruct (edited_member m data) as (_ & _ & He).
    assert (forall x, x ∈ R -> x ∉ member_roles m) as Hold by (intros x Hx Hxm; apply Hw; right; by exists x).
    destruct (e_roles data) as [roles|] eqn:Er; [injection H1 as Hc <-|injection H1 as <-]; (split; [done|]);
      intros x Hx Hxm; (destruct (He x Hxm) as [Hxo|(roles' & E & Hxr)]; [by apply (Hold x)|]); [|done].
    injection E as <-.
    destruct (check_added_ranks our _ x Hc) as (r & Hxr' & Hlt).
    - apply elem_of_filter_bool. split; [|by apply first_ids_all].
      apply negb_true_iff, not_true_iff_false. intros H. apply existsb_exists in H as (y & Hy & E).
      apply str_eqb_eq in E as <-. apply (Hold x Hx). by apply list_elem_of_In.
    - specialize (Hour x r Hx Hxr'). lia. }
  apply post_give; [apply good_here|]. intros _ _.
  assert (forall r w', write (update_member (member_server m, member_user m) data) w = Some (r, w') -> Good w') as Hwr.
  { intros r w' H. unfold write, update_member in H. rewrite Es, Eu, Em in H. injection H as _ <-.
    destruct (edited_member m data) as (E1 & E2 & _).
    by apply (good_member sid R s w member_id m (edited m data)). }
  apply post_try; intros a w1 H1'; [|by eapply Hwr].
  apply post_give; [by eapply Hwr|]. intros _ _. apply post_end. by eapply Hwr.
Qed.

(** *** Roles *)

(** A write followed by steps that change nothing *)
Lemma post_then {A B} (c : Route A) (k : A -> Route B) :
  post c w Good -> (forall a w1, Good w1 -> post (k a) w1 Good) -> post (rbind c k) w Good.
Proof. intros Hc Hk. apply post_try; intros a w1 H1; [apply Hk|]; by eapply Hc. Qed.

Lemma post_update_role rid r f :
  server_roles s !! rid = Some r -> rid ∉ R ->
  (forall a, role_id (f a) = role_id a /\ role_rank (f a) = role_rank a) ->
  post (write (update_role (server_id s) (role_id r) f)) w Good.
Proof.
  intros Hr Hn Hf a w' H. unfold write, update_role in H. rewrite server_id_s, (t_server _ _ _ _ Ht) in H.
  rewrite (k_roles _ (t_keyed _ _ _ _ Ht) _ _ _ _ (t_server _ _ _ _ Ht) Hr), Hr in H. injection H as _ <-.
  apply (good_server sid R s w); [done..| | |]; cbn.
  - by rewrite map_size_insert_Some by eauto.
  - intros x r' H. apply lookup_insert_Some in H as [[<- <-]|[_ H]]; [exists r; destruct (Hf r); by split_and!|].
    by exists r'.
  - intros x rx Hx Hrx. rewrite lookup_insert_ne; [done|]. by intros ->.
Qed.

(** The role a caller may act on *)
Lemma post_role {B} rid rk (k : Role -> Route B) :
  (forall x r, x ∈ R -> server_roles s !! x = Some r -> role_rank r < rk) ->
  (forall r, server_roles s !! rid = Some r -> rid ∉ R -> post (k r) w Good) ->
  post (try role := give (ok_or (server_roles s !! rid) ErrorType.NotFound) in
        try _ := refuse_if (role_rank role <=? default i64_min (Some rk)) ErrorType.NotElevated in k role) w Good.
Proof.
  intros Hrk Hk. apply post_give; [apply good_here|]. intros r Hr.
  destruct (server_roles s !! rid) as [r0|] eqn:E; [|done]. injection Hr as ->.
  apply post_refuse; [apply good_here|]. cbn [default from_option]. intros Hle. apply Hk; [done|].
  by eapply not_in_tier.
Qed.

Lemma post_edit_role rid data o : post (edit_role now user sid rid data o) w Good.
Proof.
  do 2 (apply post_give; [apply good_here|]; intros _ _). apply post_server.
  apply post_standing. intros permissions rank Hj. apply post_judged with rank; [done|]. intros rk -> Hmin Hrk.
  apply post_role; [done|]. intros r Hr Hn. apply post_give; [apply good_here|]. intros _ _.
  apply post_then; [|intros a w1 H1; by apply post_end]. by eapply post_update_role.
Qed.

Lemma post_set_role rid data o : post (set_role_permission now user sid rid data o) w Good.
Proof.
  apply post_give; [apply good_here|]. intros _ _. apply post_server.
  apply post_give; [apply good_here|]. intros r Hr.
  destruct (server_roles s !! rid) as [r0|] eqn:E; [|done]. injection Hr as ->.
  apply post_standing. intros permissions rank Hj. apply post_judged with rank; [done|]. intros rk -> Hmin Hrk.
  apply post_refuse; [apply good_here|]. cbn [default from_option]. intros Hle.
  apply post_give; [apply good_here|]. intros _ _.
  apply post_then; [|intros a w1 H1; by apply post_end].
  eapply post_update_role; [exact E|by eapply not_in_tier|done].
Qed.

Lemma post_set_default value o : post (set_default_server_permissions now user sid value o) w Good.
Proof.
  apply post_give; [apply good_here|]. intros _ _. apply post_server.
  apply post_standing. intros permissions rank Hj. apply post_judged with rank; [done|]. intros rk -> _ _.
  apply post_give; [apply good_here|]. intros _ _.
  apply post_then; [|intros a w1 H1; by apply post_end].
  intros a w' H. unfold write in H. rewrite server_id_s, (t_server _ _ _ _ Ht) in H. injection H as _ <-.
  apply (good_server sid R s w); try done. intros x r' H. by exists r'.
Qed.

Lemma post_create name new_id o :
  server_roles s !! new_id = None ->
  (forall u m, db_members (m_db w) !! (sid, u) = Some m -> new_id ∉ member_roles m) ->
  post (create now server_roles_max user sid name new_id o) w Good.
Proof.
  intros Hnew Hnone. do 2 (apply post_give; [apply good_here|]; intros _ _). apply post_server.
  apply post_standing. intros permissions rank Hj. apply post_judged with rank; [done|]. intros rk -> _ _.
  apply post_refuse; [apply good_here|]. intros Hsz. apply Z.leb_gt in Hsz. intros r w' H.
  destruct (role_create (m_db w) s new_id name) as [d r0] eqn:E. injection H as _ <-.
  replace d with (role_create (m_db w) s new_id name).1 by (by rewrite E). apply good_create; try done. lia.
Qed.

Lemma reads_clear_denies denies : reads (clear_denies now user s denies).
Proof.
  induction denies as [|[channel deny] denies IH]; [apply reads_give|]. cbn [clear_denies].
  apply reads_try; [|intros p; do 2 (apply reads_try; [apply reads_give|intros _]); done].
  intros w1 r w' H. destruct (calculate_channel_permissions _) as [[]|]; [by injection H as _ <-|done].
Qed.

Lemma post_delete_role rid o : post (delete_role_route now server_channels user sid rid o) w Good.
Proof.
  apply post_give; [apply good_here|]. intros _ _. apply post_server.
  apply post_standing. intros permissions rank Hj. apply post_judged with rank; [done|]. intros rk -> Hmin Hrk.
  apply post_role; [done|]. intros r Hr Hn. apply post_reads; [|apply good_here|].
  { unfold throw_if_deleting_lifts_denies. apply reads_try; [by intros w1 a w' [= _ <-]|]. intros denies.
    apply reads_if; [apply reads_give|]. do 2 (apply reads_try; [apply reads_give|intros _]). apply reads_clear_denies. }
  intros _ _. apply post_then; [|intros a w1 H1; by apply post_end]. intros a w' H. unfold write in H.
  rewrite server_id_s, (k_roles _ (t_keyed _ _ _ _ Ht) _ _ _ _ (t_server _ _ _ _ Ht) Hr) in H.
  destruct (delete_role (m_db w) sid rid) as [d r0] eqn:E. injection H as _ <-.
  replace d with (delete_role (m_db w) sid rid).1 by (by rewrite E). by eapply good_delete_role.
Qed.

Lemma post_reorder ranks o : post (edit_role_ranks now user sid ranks o) w Good.
Proof.
  apply post_give; [apply good_here|]. intros _ _. apply post_server.
  apply post_standing. intros permissions rank Hj. apply post_judged with rank; [done|]. intros rk -> Hmin Hrk.
  apply post_refuse; [apply good_here|]. intros H1. apply post_refuse; [apply good_here|]. intros H2.
  apply orb_false_iff in H1 as [Hlen Hall]. apply negb_false_iff in Hlen, Hall.
  assert (str_eqb (server_owner s) (user_id user) = false) as Ho by (apply str_eqb_neq, Hb).
  rewrite Ho in H2. cbn [negb andb] in H2.
  apply post_then; [|intros a w1 Hw1; by apply post_end]. intros a w' H.
  destruct (set_role_ordering (m_db w) s ranks) as [[d r0]|] eqn:E; [|done]. injection H as _ <-.
  eapply good_reorder; [exact Ht|by apply Nat.eqb_eq| | |exact E].
  - intros x [r Hr]. rewrite forallb_forall in Hall.
    assert (existsb (str_eqb x) ranks = true) as Hx.
    { apply Hall, list_elem_of_In. unfold hm_keys. apply list_elem_of_fmap. exists (x, r).
      split; [done|]. by apply elem_of_hm_iter. }
    apply existsb_exists in Hx as (y & Hy & Exy). apply str_eqb_eq in Exy as <-. by apply list_elem_of_In.
  - intros x rx Hx Hr. destruct (decide (position x (existing_order s) = position x ranks)) as [|Hne]; [done|].
    exfalso. apply not_true_iff_false in H2. apply H2. apply existsb_exists. exists (x, rx).
    split; [apply list_elem_of_In; by apply elem_of_hm_iter|]. cbn [fst snd]. apply andb_true_iff.
    split; [apply Z.leb_le; specialize (Hrk x rx Hx Hr); lia|]. by rewrite bool_decide_false.
Qed.
End Requests.

(** ** Sequences of requests *)

Inductive request : Type :=
| EditMember (member_id : string) (data : DataMemberEdit)
| Kick (member_id : string)
| Ban (target : string) (reason : option string) (delete_message_seconds : option Z)
| Unban (target : string)
| CreateRole (name new_id : string)
| EditRole (rid : string) (data : DataEditRole)
| DeleteRole (rid : string)
| ReorderRoles (ranks : list string)
| SetRolePermission (rid : string) (data : Override.t)
| SetDefaultPermissions (value : Z).

Definition outcome {A} (c : Route A) : World -> option World := fun w => snd <$> c w.

(** Role ids are drawn anew. *)
Definition draws_new (sid : string) (r : request) (w : World) : Prop :=
  match r with
  | CreateRole _ new_id =>
      (forall s, db_servers (m_db w) !! sid = Some s -> server_roles s !! new_id = None)
      /\ forall u m, db_members (m_db w) !! (sid, u) = Some m -> new_id ∉ member_roles m
  | _ => True
  end.

Section System.
Context `{!HashIter string Channel.t, !HashIter (string * string) Member}.
Context `{!HashIter string Role, !HashIter string OverrideField.t}.
Context (server_channels : string -> list string).
Context (contains_blocked_slur : string -> bool) (server_roles_max : Z) (sid : string).

Definition serve (now : Z) (user : User) (r : request) (o : Outside) : World -> option World :=
  match r with
  | EditMember member_id data => outcome (edit now contains_blocked_slur user sid member_id data o)
  | Kick member_id => outcome (kick now user sid member_id o)
  | Ban target reason seconds => outcome (ban now user sid target reason seconds o)
  | Unban target => outcome (unban now user sid target o)
  | CreateRole name new_id => outcome (create now server_roles_max user sid name new_id o)
  | EditRole rid data => outcome (edit_role now user sid rid data o)
  | DeleteRole rid => outcome (delete_role_route now server_channels user sid rid o)
  | ReorderRoles ranks => outcome (edit_role_ranks now user sid ranks o)
  | SetRolePermission rid data => outcome (set_role_permission now user sid rid data o)
  | SetDefaultPermissions value => outcome (set_default_server_permissions now user sid value o)
  end.

(** A request of one of [users], none of them staff *)
Inductive moderates (users : gset string) : World -> World -> Prop :=
| moderates_serve now user r o w w' :
    user_id user ∈ users -> user_privileged user = false -> draws_new sid r w ->
    serve now user r o w = Some w' -> moderates users w w'.

Lemma post_outcome {A} (c : Route A) w Q w' : post c w Q -> outcome c w = Some w' -> Q w'.
Proof. intros Hc H. apply fmap_Some in H as ([r w1] & H & ->). by eapply Hc. Qed.

Lemma moderates_good users R s w w' :
  server_roles_max <= i64_max -> tier sid R s (m_db w) -> (forall u, u ∈ users -> below sid R s (m_db w) u) ->
  moderates users w w' -> good sid R s w w'.
Proof.
  intros Hmax Ht Hb Hm. destruct Hm as [now user r o w w' Hu Hp Hnew H]. specialize (Hb _ Hu).
  destruct r; cbn [serve] in H; (eapply post_outcome; [|exact H]).
  - by apply post_edit.
  - by apply post_kick.
  - by apply post_ban.
  - by apply post_unban.
  - destruct Hnew as [H1 H2]. apply post_create; try done. by apply H1, Ht.
  - by apply post_edit_role.
  - by apply post_delete_role.
  - by apply post_reorder.
  - by apply post_set_role.
  - by apply post_set_default.
Qed.

(** C29. Take a tier of roles above all others, and any number of people below it:
    not the owner, not staff, holding none of its roles.  Whatever they ask
    for, in whatever order, together and with all the permissions they can be
    given, every role of the tier keeps its name and permissions, everyone in
    the tier, the owner too, stays a member with the same roles of it, not timed out, muted or
    deafened by them, and nobody new holds one of its roles. *)
Theorem tier_out_of_reach users R s w w' :
  server_roles_max <= i64_max -> tier sid R s (m_db w) ->
  (forall u, u ∈ users -> below sid R s (m_db w) u) ->
  rtc (moderates users) w w' ->
  exists s', db_servers (m_db w') !! sid = Some s' /\ keeps sid R s (m_db w) s' (m_db w').
Proof.
  intros Hmax Ht Hb Hsteps.
  assert (forall R0 s0 d0, keeps sid R s d0 s0 (m_db w) -> R ⊆ R0 -> tier sid R0 s0 (m_db w) ->
    (forall u, u ∈ users -> below sid R0 s0 (m_db w) u) ->
    exists s', db_servers (m_db w') !! sid = Some s' /\ keeps sid R s d0 s' (m_db w')) as Hgen.
  { clear Ht Hb. induction Hsteps as [w|w w1 w' Hstep _ IH]; intros R0 s0 d0 Hk Hs Ht Hb.
    - exists s0. split; [apply Ht|done].
    - destruct (moderates_good users R0 s0 w w1 Hmax Ht Hb Hstep) as (R1 & s1 & Hs1 & Ht1 & Hk1 & Hb1).
      apply (IH R1 s1); [|by etrans|done|eauto].
      eapply keeps_trans; [exact Hk|]. by apply (keeps_weaken sid R R0). }
  apply (Hgen R s); [apply keeps_refl|done..].
Qed.
End System.

(** *** A server with an owner, a captain and two moderators *)

Module ModerationDemo.
Definition role (id : string) (allow rank : Z) : Role :=
  mkRole id id (OverrideField.mk allow 0) None false rank.
Definition all_safe : Z := CP.value CP.GrantAllSafe.
Definition roles : gmap string Role :=
  <["cap" := role "cap" all_safe 0]> (<["mod" := role "mod" all_safe 1]> {["new" := role "new" 0 2]}).
Definition server : Server := mkServer "s" "o" roles 0.
Definition member (id : string) (held : list string) : Member := mkMember "s" id held None true true.
Definition members : gmap (string * string) Member :=
  <[("s", "o") := member "o" []]> (<[("s", "c") := member "c" ["cap"]]>
    (<[("s", "m") := member "m" ["mod"]]> {[("s", "n") := member "n" ["mod"; "new"]]})).
Definition person (id : string) : User := mkUser id false None None.
Definition users : gmap string User :=
  <["o" := person "o"]> (<["c" := person "c"]> (<["m" := person "m"]> {["n" := person "n"]})).
Definition world : World := mkWorld (mkDb users {["s" := server]} members ∅) ∅.
Definition fine : Outside :=
  mkOutside (Ok tt) (Ok None) (Ok tt) (Ok tt) (Ok tt) (Ok tt) (Ok tt) (Ok tt).
Definition nothing : DataMemberEdit := mkEdit None None None None None None None [].
Definition captain_me : DataMemberEdit := mkEdit None None None (Some ["cap"]) None None None [].
Definition silence : DataMemberEdit := mkEdit None None None None (Some 3600) None None [].

(** The moderators try the captain, then each other, then the roles. *)
Definition plot : list (string * request) :=
  [("m", Kick "c"); ("m", EditMember "c" silence); ("n", EditMember "n" captain_me); ("m", Ban "o" None None);
   ("n", SetRolePermission "cap" (Override.mk 0 1)); ("m", CreateRole "upstart" "up");
   ("n", ReorderRoles ["up"; "cap"; "mod"; "new"]); ("n", ReorderRoles ["cap"; "mod"; "up"; "new"]);
   ("m", EditMember "m" (mkEdit None None None (Some ["mod"; "up"]) None None None []));
   ("m", DeleteRole "new"); ("m", DeleteRole "cap")].

Definition play (w : option World) (a : string * request) : option World :=
  w ≫= serve (fun _ => []) (fun _ => false) 100 "s" 0 (person a.1) a.2 fine.

Definition worlds : list World := omap (fun n => foldl play (Some world) (take n plot)) (seq 0 12).

Lemma tier_of_cap : tier "s" {["cap"]} server (m_db world).
Proof.
  assert (forall x r, roles !! x = Some r ->
    (x, r) ∈ [("cap", role "cap" all_safe 0); ("mod", role "mod" all_safe 1); ("new", role "new" 0 2)]) as Hroles.
  { intros x r H. apply elem_of_map_to_list in H. revert H. by vm_compute. }
  split.
  - split; cbn.
    + by intros k s [<- <-]%lookup_singleton_Some.
    + intros k s x r [<- <-]%lookup_singleton_Some H%Hroles. set_unfold in H.
      by repeat destruct H as [[= -> ->]|H].
    + intros k u m H. unfold members in H.
      repeat (apply lookup_insert_Some in H as [[[= <- <-] <-]|[_ H]]; [done|]).
      by apply lookup_singleton_Some in H as [[= <- <-] <-].
  - apply lookup_insert_eq.
  - intros x y rx ry Hx%Hroles Hy%Hroles Hin Hout. set_unfold in Hx. set_unfold in Hy. apply elem_of_singleton in Hin as ->.
    repeat destruct Hx as [[= Ex ->]|Hx]; try done.
    repeat destruct Hy as [[= -> ->]|Hy]; try done; set_solver.
  - intros x r H%Hroles _. set_unfold in H. by repeat destruct H as [[= _ ->]|H].
  - intros x ->%elem_of_singleton. by eexists.
  - intros x r H%Hroles. set_unfold in H. by repeat destruct H as [[= _ ->]|H].
  - vm_compute. discriminate.
Qed.

Definition plotters : gset string := {["m"; "n"]}.
Abbreviation steps := (rtc (moderates (fun _ => []) (fun _ => false) 100 "s" plotters)).

Lemma up_is_new : draws_new "s" (CreateRole "upstart" "up") world.
Proof.
  split.
  - intros s Hs. cbn [m_db world db_servers] in Hs. apply lookup_singleton_Some in Hs as [_ <-]. done.
  - intros u m H. cbn in H. unfold members in H.
    repeat (apply lookup_insert_Some in H as [[_ <-]|[_ H]]; [cbn; set_solver|]).
    apply lookup_singleton_Some in H as [_ <-]. cbn. set_solver.
Qed.

Lemma plotters_below u : u ∈ plotters -> below "s" {["cap"]} server (m_db world) u.
Proof.
  unfold plotters. intros Hu. assert (u = "m" \/ u = "n") as [-> | ->] by set_solver; (split; [done|]);
    intros m x H Hx; injection H as <-; cbn in Hx; set_solver.
Qed.

Lemma play_step w a w' :
  a.1 ∈ plotters -> draws_new "s" a.2 w -> play (Some w) a = Some w' -> steps w w'.
Proof. intros Ha Hn H. apply rtc_once. by eapply (moderates_serve _ _ _ _ _ 0 (person a.1)). Qed.

Lemma play_none acts : foldl play None acts = None.
Proof. by induction acts. Qed.

Lemma play_steps acts : forall w w',
  forallb (fun a => bool_decide (a.1 ∈ plotters) && match a.2 with CreateRole _ _ => false | _ => true end) acts = true ->
  foldl play (Some w) acts = Some w' -> steps w w'.
Proof.
  induction acts as [|a acts IH]; intros w w' Hall H; [by injection H as ->|]. cbn [foldl] in H. cbn [forallb] in Hall.
  apply andb_true_iff in Hall as [[Ha Hn]%andb_true_iff Hall]. apply bool_decide_eq_true in Ha.
  destruct (play (Some w) a) as [w1|] eqn:E; [|by rewrite play_none in H].
  etrans; [|by apply IH]. eapply play_step; [done| |done]. by destruct (a.2).
Qed.
End ModerationDemo.

(** The captain sits through the whole plot. *)
Lemma tier_out_of_reach_witness :
  exists w' s', foldl ModerationDemo.play (Some ModerationDemo.world) ModerationDemo.plot = Some w'
    /\ db_servers (m_db w') !! "s" = Some s'
    /\ keeps "s" {["cap"]} ModerationDemo.server (m_db ModerationDemo.world) s' (m_db w').
Proof.
  eexists. destruct (tier_out_of_reach (fun _ => []) (fun _ => false) 100 "s" ModerationDemo.plotters {["cap"]}
    ModerationDemo.server ModerationDemo.world (default ModerationDemo.world
      (foldl ModerationDemo.play (Some ModerationDemo.world) ModerationDemo.plot))) as (s' & H1 & H2).
  - vm_compute. discriminate.
  - apply ModerationDemo.tier_of_cap.
  - apply ModerationDemo.plotters_below.
  - etrans; [apply (ModerationDemo.play_steps (take 5 ModerationDemo.plot)); vm_compute; reflexivity|].
    etrans; [eapply (ModerationDemo.play_step _ ("m", CreateRole "upstart" "up"));
             [vm_compute; reflexivity|apply ModerationDemo.up_is_new|vm_compute; reflexivity]|].
    apply (ModerationDemo.play_steps (drop 6 ModerationDemo.plot)); vm_compute; reflexivity.
  - exists s'. split; [|split; [exact H1|exact H2]]. vm_compute. reflexivity.
Defined.
