(* ===== verification/CipherMemberships.v ===== *)
(** * Cipher memberships (crates/core/database/src/models/cipher_memberships)

    The membership document, the operations of the in-memory driver on the
    locked map, and the hourly sweep of crates/daemons/crond that pages
    through every membership.  Each operation holds the map's mutex from its
    first read to its last write, so it is one step on the map. *)

From stdpp Require Import base numbers list gmap strings sorting.
From S2P Require Import Prelude Errors.
Open Scope Z_scope.

Inductive CipherTier : Type := T99 | T149 | T299.

Inductive CipherRevokeReason : Type := Refund | DisputeLost | Admin.

Record CipherMembership : Type := mkMembership {
  cm_user_id : string;
  cm_number : Z;
  cm_tier : CipherTier;
  cm_prot_grant : Z;
  cm_orders : list string;
  cm_disputed_orders : list string;
  cm_granted_at : Z;
  cm_revoked_at : option Z;
  cm_revoke_reason : option CipherRevokeReason;
  cm_prot_posted_at : option Z;
  cm_version : Z;
}.

Definition set_version (m : CipherMembership) (v : Z) : CipherMembership :=
  mkMembership (cm_user_id m) (cm_number m) (cm_tier m) (cm_prot_grant m) (cm_orders m)
    (cm_disputed_orders m) (cm_granted_at m) (cm_revoked_at m) (cm_revoke_reason m)
    (cm_prot_posted_at m) v.

Definition is_active (m : CipherMembership) : bool :=
  match cm_revoked_at m with None => true | Some _ => false end.

(** [public_badge]: the number and tier shown to others *)
Definition public_badge (m : CipherMembership) : option (Z * CipherTier) :=
  if is_active m && match cm_disputed_orders m with [] => true | _ => false end
  then Some (cm_number m, cm_tier m) else None.

Abbreviation Memberships := (gmap string CipherMembership).

Definition MEMBERSHIPS_PAGE_MAX : Z := 500.

Section Ops.
Context `{!HashIter string CipherMembership}.

Definition insert_cipher_membership (ms : Memberships) (m : CipherMembership)
    : Memberships * Result bool :=
  match ms !! cm_user_id m with
  | Some _ => (ms, Ok false)
  | None =>
      if existsb (fun row => cm_number row =? cm_number m) (hm_values ms)
      then (ms, Err (create_database_error "insert" "cipher_membership"))
      else (<[cm_user_id m := m]> ms, Ok true)
  end.

Definition fetch_cipher_membership (ms : Memberships) (user_id : string)
    : Result (option CipherMembership) := Ok (ms !! user_id).

Definition fetch_cipher_membership_by_number (ms : Memberships) (number : Z)
    : Result (option CipherMembership) :=
  Ok (List.find (fun row => cm_number row =? number) (hm_values ms)).

(** [memberships.get(id).is_none_or(|row| row.version != expected)] *)
Definition version_moved (ms : Memberships) (user_id : string) (expected : Z) : bool :=
  match ms !! user_id with
  | None => true
  | Some row => negb (cm_version row =? expected)
  end.

Definition update_cipher_membership_if_version (ms : Memberships) (m : CipherMembership)
    (expected : Z) : Memberships * Result bool :=
  match checked_add_u64 expected 1 with
  | None => (ms, Err (create_database_error "replace" "cipher_membership"))
  | Some next =>
      if version_moved ms (cm_user_id m) expected then (ms, Ok false)
      else if existsb (fun row => negb (str_eqb (cm_user_id row) (cm_user_id m))
                                  && (cm_number row =? cm_number m)) (hm_values ms)
      then (ms, Err (create_database_error "replace" "cipher_membership"))
      else (<[cm_user_id m := set_version m next]> ms, Ok true)
  end.

Definition delete_cipher_membership (ms : Memberships) (user_id : string)
    : Memberships * Result unit := (delete user_id ms, Ok tt).

Definition delete_cipher_membership_if_version (ms : Memberships) (user_id : string)
    (expected : Z) : Memberships * Result bool :=
  if version_moved ms user_id expected then (ms, Ok false)
  else (delete user_id ms, Ok true).

Definition user_id_leb (a b : CipherMembership) : bool := str_leb (cm_user_id a) (cm_user_id b).

(** [after_user_id.is_none_or(|after| row.user_id > after)] *)
Definition is_after (after : option string) (row : CipherMembership) : bool :=
  match after with None => true | Some a => str_ltb a (cm_user_id row) end.

Definition fetch_cipher_memberships_page (ms : Memberships) (after_user_id : option string)
    (limit : Z) : Result (list CipherMembership) :=
  if negb ((1 <=? limit) && (limit <=? MEMBERSHIPS_PAGE_MAX)) then Err ErrorType.InternalError
  else Ok (take (Z.to_nat limit)
             (sort_by user_id_leb (List.filter (is_after after_user_id) (hm_values ms)))).

Definition bump_cipher_membership_version_locked (ms : Memberships) (user_id : string)
    (expected : Z) : Memberships * bool :=
  match ms !! user_id with
  | Some row =>
      if cm_version row =? expected then
        match checked_add_u64 expected 1 with
        | Some next => (<[user_id := set_version row next]> ms, true)
        | None => (ms, false)
        end
      else (ms, false)
  | None => (ms, false)
  end.

(** One operation of the driver, or the ledger's version bump *)
Inductive step : Memberships -> Memberships -> Prop :=
| step_insert ms m : step ms (insert_cipher_membership ms m).1
| step_update ms m expected : step ms (update_cipher_membership_if_version ms m expected).1
| step_delete ms u : step ms (delete_cipher_membership ms u).1
| step_delete_if ms u expected : step ms (delete_cipher_membership_if_version ms u expected).1
| step_bump ms u expected : step ms (bump_cipher_membership_version_locked ms u expected).1.

(** Every row is stored under its user and no two rows hold one number. *)
Definition memberships_wf (ms : Memberships) : Prop :=
  (forall k m, ms !! k = Some m -> cm_user_id m = k) /\
  (forall k1 k2 m1 m2, ms !! k1 = Some m1 -> ms !! k2 = Some m2 ->
     cm_number m1 = cm_number m2 -> k1 = k2).

Lemma memberships_wf_empty : memberships_wf ∅.
Proof. split; intros; simplify_map_eq. Qed.

Lemma memberships_wf_delete ms k : memberships_wf ms -> memberships_wf (delete k ms).
Proof.
  intros [Hk Hn]. split.
  - intros ? ? [_ Hl]%lookup_delete_Some. eauto.
  - intros ? ? ? ? [_ H1]%lookup_delete_Some [_ H2]%lookup_delete_Some. eauto.
Qed.

(** Writing a row whose number no other user holds keeps the invariant. *)
Lemma memberships_wf_insert ms m :
  memberships_wf ms ->
  (forall k row, ms !! k = Some row -> k <> cm_user_id m -> cm_number row <> cm_number m) ->
  memberships_wf (<[cm_user_id m := m]> ms).
Proof.
  intros [Hk Hn] Hfree. split.
  - intros k row. rewrite lookup_insert. case_decide; intros; simplify_eq; eauto.
  - intros k1 k2 m1 m2. rewrite !lookup_insert.
    repeat case_decide; intros; simplify_eq; eauto; exfalso; eapply Hfree; eauto.
Qed.

Lemma membership_step_wf ms ms' : step ms ms' -> memberships_wf ms -> memberships_wf ms'.
Proof.
  intros Hs Hwf. destruct Hs.
  - unfold insert_cipher_membership. repeat case_match; simpl; try done.
    apply memberships_wf_insert; [done|]. intros k row Hk _ En.
    rewrite hm_any_false in *. to_prop.
    match goal with H : forall k v, _ -> _ |- _ => pose proof (H k row Hk) end. to_prop. done.
  - unfold update_cipher_membership_if_version. repeat case_match; simpl; try done.
    apply (memberships_wf_insert ms (set_version m _)); [done|]. intros k row Hk Hne En.
    rewrite hm_any_false in *.
    match goal with H : forall k v, _ -> _ = false |- _ => pose proof (H k row Hk) as Hf end.
    apply andb_false_iff in Hf as [Hf|Hf]; to_prop; [|done].
    simpl in *. destruct Hwf as [Hkey _]. apply Hkey in Hk. congruence.
  - by apply memberships_wf_delete.
  - unfold delete_cipher_membership_if_version. case_match; [done|].
    by apply memberships_wf_delete.
  - unfold bump_cipher_membership_version_locked.
    destruct (ms !! u) as [row|] eqn:E; [|done]. repeat case_match; try done. simpl.
    pose proof Hwf as [Hkey Hnum]. pose proof (Hkey _ _ E) as <-.
    apply (memberships_wf_insert ms (set_version row _)); [done|].
    intros k r Hk Hne En. apply Hne. eapply Hnum; eauto.
Qed.
End Ops.

(** ** The hourly sweep (crates/daemons/crond/src/tasks/prot_cipher_backfill.rs) *)

Inductive Tick : Type :=
| Off
| Swept (synced failed : Z)
| PageFailed (synced failed : Z).

Section Sweep.
Context `{!HashIter string CipherMembership}.
(** The database the sweep runs against, its membership map, and the sync
    it hands every membership to. *)
Context {S : Type} (memberships : S -> Memberships).
Context (sync : string -> S -> S * Result unit).

(** The [for m in rows] loop; the counters are [u64]s that count rows. *)
Fixpoint sync_ids (ids : list string) (synced failed : Z) (s : S) : Z * Z * S :=
  match ids with
  | [] => (synced, failed, s)
  | id :: rest =>
      match sync id s with
      | (s', Ok _) => sync_ids rest (synced + 1) failed s'
      | (s', Err _) => sync_ids rest synced (failed + 1) s'
      end
  end.

(** [sweep_with]; [None] only when [fuel] pages did not end the loop *)
Fixpoint sweep_with (fuel : nat) (page : Z) (after : option string) (synced failed : Z) (s : S)
    : option (Tick * S) :=
  match fuel with
  | O => None
  | Datatypes.S fuel' =>
      match fetch_cipher_memberships_page (memberships s) after page with
      | Err _ => Some (PageFailed synced failed, s)
      | Ok rows =>
          match last (cm_user_id <$> rows) with
          | None => Some (Swept synced failed, s)
          | Some l =>
              if match after with Some a => str_leb l a | None => false end
              then Some (PageFailed synced failed, s)
              else match sync_ids (cm_user_id <$> rows) synced failed s with
                   | (synced', failed', s') =>
                       sweep_with fuel' page (Some l) synced' failed' s'
                   end
          end
      end
  end.
End Sweep.

(** ** Pages *)

(** Every row is stored under its user id. *)
Definition keyed (ms : Memberships) : Prop := forall k m, ms !! k = Some m -> cm_user_id m = k.

Definition id_after (after : option string) (id : string) : bool :=
  match after with None => true | Some a => str_ltb a id end.

(** The user ids of a database, in byte order. *)
Definition sorted_ids (ids : gset string) : list string := sort_by str_leb (elements ids).

Definition str_lt (a b : string) : Prop := str_ltb a b = true.

Lemma str_sort_unique l1 l2 : l1 ≡ₚ l2 -> sort_by str_leb l1 = sort_by str_leb l2.
Proof.
  intros Hp. apply sort_by_unique; eauto using str_leb_trans with sloga.
  intros. by apply str_leb_antisym.
Qed.

Lemma str_sort_strict l : NoDup l -> StronglySorted str_lt (sort_by str_leb l).
Proof.
  intros Hnd. assert (NoDup (sort_by str_leb l)) as Hnd' by by rewrite sort_by_perm.
  pose proof (sort_by_sorted str_leb str_leb_total str_leb_trans l) as Hs. revert Hnd' Hs.
  generalize (sort_by str_leb l). clear l Hnd.
  induction l as [|x l IH]; intros Hnd Hs; [constructor|].
  apply NoDup_cons in Hnd as [Hx Hnd]. inversion Hs as [|? ? Hs' Hf]; subst.
  constructor; [auto|]. rewrite Forall_forall in *. intros y Hy.
  destruct (str_leb_ltb_eq x y (Hf y Hy)) as [->|]; done.
Qed.

Lemma sorted_ids_strict ids : StronglySorted str_lt (sorted_ids ids).
Proof. apply str_sort_strict, NoDup_elements. Qed.

Lemma elem_of_sorted_ids ids x : x ∈ sorted_ids ids <-> x ∈ ids.
Proof. unfold sorted_ids. by rewrite elem_of_sort_by, elem_of_elements. Qed.

(** Two strictly sorted lists of the same ids are one list. *)
Lemma filter_sorted_ids p ids :
  List.filter p (sorted_ids ids) = sort_by str_leb (List.filter p (elements ids)).
Proof.
  transitivity (sort_by str_leb (List.filter p (sorted_ids ids))).
  - symmetry. unfold sorted_ids. generalize (str_sort_strict _ (NoDup_elements ids)).
    generalize (sort_by str_leb (elements ids)). intros l Hs.
    apply (filter_bool_sorted _ p) in Hs. revert Hs. generalize (List.filter p l). clear l.
    induction l as [|x l IH]; intros Hs; [done|].
    inversion Hs as [|? ? Hs' Hf]; subst.
    change (insert_by str_leb x (sort_by str_leb l) = x :: l). rewrite IH by done.
    destruct l as [|y l]; [done|]. simpl. inversion Hf; subst.
    by rewrite (str_ltb_leb x y).
  - apply str_sort_unique, filter_bool_perm. apply sort_by_perm.
Qed.

Lemma keyed_ids `{!HashIter string CipherMembership} ms :
  keyed ms -> cm_user_id <$> hm_values ms ≡ₚ elements (dom ms).
Proof.
  intros Hk. unfold hm_values. rewrite <- list_fmap_compose.
  assert ((cm_user_id ∘ snd) <$> hm_iter ms = (hm_iter ms).*1) as ->.
  { apply list_fmap_ext. intros i [k m] Hi. simpl. apply Hk.
    apply elem_of_hm_iter. by eapply list_elem_of_lookup_2. }
  apply NoDup_Permutation; [apply hm_keys_NoDup | apply NoDup_elements |].
  intros x. rewrite elem_of_elements, elem_of_dom. apply elem_of_hm_keys.
Qed.

(** A page holds the next [limit] user ids after its cursor, in order. *)
Lemma page_ids `{!HashIter string CipherMembership} ms after limit :
  keyed ms -> 1 <= limit <= MEMBERSHIPS_PAGE_MAX ->
  exists rows, fetch_cipher_memberships_page ms after limit = Ok rows /\
    cm_user_id <$> rows =
      take (Z.to_nat limit) (List.filter (id_after after) (sorted_ids (dom ms))).
Proof.
  intros Hk Hl. unfold fetch_cipher_memberships_page.
  replace ((1 <=? limit) && (limit <=? MEMBERSHIPS_PAGE_MAX)) with true
    by (symmetry; apply andb_true_iff; lia).
  eexists. split; [reflexivity|]. rewrite fmap_take. f_equal.
  rewrite (sort_by_fmap cm_user_id str_leb), filter_sorted_ids. apply str_sort_unique.
  rewrite <- (keyed_ids ms Hk), filter_bool_fmap. done.
Qed.

(** What lies after the last id of a page is the rest of the list. *)
Lemma after_last ids after n x :
  last (take n (List.filter (id_after after) (sorted_ids ids))) = Some x ->
  List.filter (id_after (Some x)) (sorted_ids ids) =
    drop n (List.filter (id_after after) (sorted_ids ids)) /\ id_after after x = true.
Proof.
  intros Hlast. apply last_Some in Hlast as [l1 Hl1].
  set (l := List.filter (id_after after) (sorted_ids ids)) in *.
  assert (l = (l1 ++ [x]) ++ drop n l) as El by (by rewrite <- Hl1, take_drop).
  assert (StronglySorted str_lt l) as Hs by apply filter_bool_sorted, sorted_ids_strict.
  assert (x ∈ l) as Hx by (rewrite El; set_solver).
  apply elem_of_filter_bool in Hx as [Hx _]. split; [|done].
  transitivity (List.filter (id_after (Some x)) l).
  { symmetry. apply filter_bool_filter. intros y _ Hy.
    destruct after as [a|]; simpl in *; eauto using str_ltb_trans. }
  rewrite El in Hs. rewrite El at 1.
  rewrite !List.filter_app.
  apply StronglySorted_app in Hs as (Hcross & Hs1 & _).
  apply StronglySorted_app in Hs1 as (Hcross1 & _ & _).
  rewrite (filter_bool_none _ l1), (filter_bool_all _ (drop n l)).
  - simpl. by rewrite str_ltb_irrefl.
  - intros y Hy. apply Hcross; set_solver.
  - intros y Hy. assert (str_lt y x) as Hyx by (apply Hcross1; set_solver).
    simpl. destruct (str_ltb x y) eqn:E; [|done].
    pose proof (str_ltb_trans _ _ _ Hyx E) as Hyy. by rewrite str_ltb_irrefl in Hyy.
Qed.

Section SweepFacts.
Context `{!HashIter string CipherMembership}.
Context {S : Type} (memberships : S -> Memberships).
Context (sync : string -> S -> S * Result unit).
(** A sync neither adds nor removes a membership. *)
Context (sync_keeps : forall u s, keyed (memberships s) ->
  keyed (memberships (sync u s).1) /\
  dom (memberships (sync u s).1) = dom (memberships s)).

Lemma sync_ids_keeps ids : forall a b s a' b' s',
  keyed (memberships s) -> sync_ids sync ids a b s = (a', b', s') ->
  keyed (memberships s') /\ dom (memberships s') = dom (memberships s) /\
  a' + b' = a + b + Z.of_nat (length ids).
Proof.
  induction ids as [|id ids IH]; intros a b s a' b' s' Hk H; simpl in *.
  { simplify_eq. split_and!; [done | done | lia]. }
  destruct (sync_keeps id s Hk) as [Hk' Hd']. destruct (sync id s) as [s1 []]; simpl in *;
    apply IH in H as (? & Hd & ?); [|done | |done]; rewrite Hd; split_and!; try done; lia.
Qed.

Lemma sync_ids_app ids1 ids2 a b s :
  sync_ids sync (ids1 ++ ids2) a b s =
  (let '(a1, b1, s1) := sync_ids sync ids1 a b s in sync_ids sync ids2 a1 b1 s1).
Proof.
  revert a b s. induction ids1 as [|id ids1 IH]; intros a b s; simpl; [done|].
  destruct (sync id s) as [s' []]; apply IH.
Qed.

Lemma sweep_from fuel page : 1 <= page <= MEMBERSHIPS_PAGE_MAX ->
  forall after a b s rest,
  keyed (memberships s) ->
  rest = List.filter (id_after after) (sorted_ids (dom (memberships s))) ->
  (length rest < fuel)%nat ->
  sweep_with memberships sync fuel page after a b s =
  (let '(a', b', s') := sync_ids sync rest a b s in Some (Swept a' b', s')).
Proof.
  intros Hp. induction fuel as [|fuel IH]; intros after a b s rest Hk Er Hf; [lia|].
  simpl. destruct (page_ids (memberships s) after page Hk Hp) as (rows & -> & Ei).
  rewrite Ei, <- Er. destruct (last (take (Z.to_nat page) rest)) as [x|] eqn:El.
  - rewrite Er in El. destruct (after_last _ _ _ _ El) as [Ed Ha]. rewrite <- Er in El, Ed.
    assert (match after with Some c => str_leb x c | None => false end = false) as ->.
    { destruct after as [c|]; [|done]. simpl in Ha. destruct (str_leb x c) eqn:E; [|done].
      apply str_leb_ltb_eq in E as [->|E]; [by rewrite str_ltb_irrefl in Ha|].
      pose proof (str_ltb_trans _ _ _ Ha E) as Hcc. by rewrite str_ltb_irrefl in Hcc. }
    rewrite <- (take_drop (Z.to_nat page) rest) at 2. rewrite sync_ids_app.
    destruct (sync_ids sync (take (Z.to_nat page) rest) a b s) as [[a1 b1] s1] eqn:Es.
    destruct (sync_ids_keeps _ _ _ _ _ _ _ Hk Es) as (Hk1 & Hd1 & _).
    apply IH; [done | by rewrite Hd1 |].
    rewrite length_drop. destruct rest; [by rewrite take_nil in El|]. simpl in *. lia.
  - apply last_None in El. destruct rest as [|y rest]; [done|].
    destruct (Z.to_nat page) eqn:En; [lia | done].
Qed.
End SweepFacts.

(** ** Theorems *)

(** Whatever the order of operations, from an empty collection every row is
    stored under its own user and no two rows share a number, so the row
    found for a number does not depend on how the map is walked. *)
Theorem memberships_numbers_unique (i1 i2 : HashIter string CipherMembership)
    (ms : Memberships) (k : string) (m : CipherMembership) :
  rtc (@step i1) ∅ ms -> ms !! k = Some m ->
  @fetch_cipher_membership_by_number i2 ms (cm_number m) = Ok (Some m) /\ cm_user_id m = k.
Proof.
  intros Hr Hk.
  assert (memberships_wf ms) as [Hkey Hnum]
    by (eapply rtc_invariant; [exact (@membership_step_wf i1) | apply memberships_wf_empty | done]).
  split; [|eauto]. unfold fetch_cipher_membership_by_number. f_equal.
  apply (hm_find_unique _ _ k); [done | apply Z.eqb_refl |].
  intros k' m' Hk' E. to_prop. assert (k' = k) as -> by eauto. congruence.
Qed.

Definition sample_membership (u : string) (n : Z) : CipherMembership :=
  mkMembership u n T99 16500 [u] [] 1000 None None None 0.

Lemma memberships_numbers_unique_witness :
  exists ms, rtc step ∅ ms /\
  fetch_cipher_membership_by_number ms 42 = Ok (Some (sample_membership "u" 42)).
Proof.
  exists (insert_cipher_membership ∅ (sample_membership "u" 42)).1.
  assert (rtc step ∅ (insert_cipher_membership ∅ (sample_membership "u" 42)).1) as Hr
    by (apply rtc_once; constructor).
  split; [exact Hr|].
  apply (memberships_numbers_unique _ _ _ "u" (sample_membership "u" 42) Hr). reflexivity.
Defined.

(** Compare-and-swap: a write that succeeds found the row at the expected
    version and leaves it one higher with the rest as given; any other
    outcome, error or [Ok false], changes nothing.  Two writers that read the
    same version cannot both succeed. *)
Theorem membership_cas `{!HashIter string CipherMembership}
    (ms ms' : Memberships) (m m2 : CipherMembership) (expected : Z) (r : Result bool) :
  update_cipher_membership_if_version ms m expected = (ms', r) ->
  (r = Ok true ->
     (exists row, ms !! cm_user_id m = Some row /\ cm_version row = expected) /\
     expected + 1 <= u64_max /\
     ms' = <[cm_user_id m := set_version m (expected + 1)]> ms /\
     (cm_user_id m2 = cm_user_id m ->
        update_cipher_membership_if_version ms' m2 expected = (ms', Ok false) /\
        delete_cipher_membership_if_version ms' (cm_user_id m) expected = (ms', Ok false))) /\
  (r <> Ok true -> ms' = ms).
Proof.
  unfold update_cipher_membership_if_version, delete_cipher_membership_if_version, version_moved.
  intros H. inv_op H; split; try done; intros _.
  apply checked_add_u64_Some in Heqo as [-> ?].
  to_prop. subst expected. split_and!; eauto. intros ->. rewrite lookup_insert_eq.
  cbn [cm_version set_version].
  by replace (cm_version _ + 1 =? cm_version _) with false by lia.
Qed.

Lemma membership_cas_witness :
  let ms := {[ "u"%string := sample_membership "u" 42 ]} in
  (update_cipher_membership_if_version ms (sample_membership "u" 43) 0).2 = Ok true /\
  (update_cipher_membership_if_version
     (update_cipher_membership_if_version ms (sample_membership "u" 43) 0).1
     (sample_membership "u" 44) 0).2 = Ok false.
Proof.
  cbv zeta. set (ms := {[ "u"%string := sample_membership "u" 42 ]}). split; [reflexivity|].
  destruct (membership_cas ms _ (sample_membership "u" 43) (sample_membership "u" 44) 0 _
              (surjective_pairing _)) as [H _].
  destruct (H eq_refl) as (_ & _ & _ & H2). destruct (H2 eq_refl) as [-> _]. reflexivity.
Defined.

(** C38. The sweep ends, and hands every membership to the sync exactly once, in
    user id order: its result is the run of the sync over the sorted ids, and
    the two counters add up to the number of memberships.  Enough fuel is one
    page more than there are memberships; the sync may change anything but
    which memberships exist. *)
Theorem sweep_visits_every_membership `{!HashIter string CipherMembership}
    {S : Type} (memberships : S -> Memberships) (sync : string -> S -> S * Result unit)
    (page : Z) (s : S) (fuel : nat) :
  (forall u s, keyed (memberships s) -> keyed (memberships (sync u s).1) /\
     dom (memberships (sync u s).1) = dom (memberships s)) ->
  1 <= page <= MEMBERSHIPS_PAGE_MAX ->
  keyed (memberships s) ->
  (size (memberships s) < fuel)%nat ->
  exists synced failed s',
    sweep_with memberships sync fuel page None 0 0 s = Some (Swept synced failed, s') /\
    sync_ids sync (sorted_ids (dom (memberships s))) 0 0 s = (synced, failed, s') /\
    synced + failed = Z.of_nat (size (memberships s)).
Proof.
  intros Hs Hp Hk Hf.
  assert (length (sorted_ids (dom (memberships s))) = size (memberships s)) as El.
  { unfold sorted_ids. rewrite sort_by_perm, <- size_dom. done. }
  assert (List.filter (id_after None) (sorted_ids (dom (memberships s))) =
          sorted_ids (dom (memberships s))) as Ea by by apply filter_bool_all.
  destruct (sync_ids sync (sorted_ids (dom (memberships s))) 0 0 s) as [[a b] s'] eqn:E.
  exists a, b, s'. split_and!; [|done|].
  - rewrite (sweep_from memberships sync Hs fuel page Hp None 0 0 s
      (sorted_ids (dom (memberships s)))); [by rewrite E | done | done | lia].
  - destruct (sync_ids_keeps memberships sync Hs _ _ _ _ _ _ _ Hk E) as (_ & _ & ->). lia.
Qed.

(** A sync that records the users it saw. *)
Definition logging_sync (u : string) (s : Memberships * list string)
    : (Memberships * list string) * Result unit := ((s.1, s.2 ++ [u]), Ok tt).

Lemma sweep_visits_every_membership_witness :
  let ms := insert_cipher_membership
              (insert_cipher_membership ∅ (sample_membership "b" 1)).1
              (sample_membership "a" 2) in
  sweep_with fst logging_sync 3 1 None 0 0 (ms.1, []) =
    Some (Swept 2 0, (ms.1, ["a"; "b"]%string)).
Proof.
  cbv zeta.
  destruct (sweep_visits_every_membership fst logging_sync 1
    ((insert_cipher_membership (insert_cipher_membership ∅ (sample_membership "b" 1)).1
        (sample_membership "a" 2)).1, []) 3) as (a & b & s' & -> & E & _).
  - intros u s Hk. split; [exact Hk | reflexivity].
  - vm_compute. split; discriminate.
  - exact (proj1 (membership_step_wf _ _ (step_insert _ _)
             (membership_step_wf _ _ (step_insert _ _) memberships_wf_empty))).
  - vm_compute. lia.
  - vm_compute in E. injection E as <- <- <-. reflexivity.
Defined.
