(* ===== verification/CipherNumbers.v ===== *)
(** * Cipher numbers (crates/core/database/src/models/cipher_numbers)

    The table of sellable numbers and the operations of the in-memory driver
    on the locked map.  A number is claimed by writing an order id into its
    row, and put back by the release protocol: mark, then release or cancel. *)

From stdpp Require Import base numbers list gmap strings.
From S2P Require Import Prelude Errors.
Open Scope Z_scope.

Record CipherNumber : Type := mkNumber {
  cn_number : Z;
  cn_order_id : option string;
  cn_release_pending_at : option Z;
}.

Abbreviation Numbers := (gmap Z CipherNumber).

Definition is_none {A} (o : option A) : bool := match o with None => true | Some _ => false end.

(** [Iterator::min] *)
Definition min_of (l : list Z) : option Z :=
  foldr (fun x acc => match acc with None => Some x | Some y => Some (Z.min x y) end) None l.

Definition count_to_u32 (count : nat) : Result Z :=
  if Z.of_nat count <=? u32_max then Ok (Z.of_nat count)
  else Err (create_database_error "count" "cipher_numbers").

Section Ops.
Context `{!HashIter Z CipherNumber}.

Definition held_by (order_id : string) (row : CipherNumber) : bool :=
  is_some_str (cn_order_id row) order_id.

Definition claim_cipher_number (ns : Numbers) (order_id : string) (cap : Z)
    : option (Numbers * Result (option Z)) :=
  if cap =? 0 then
    Some (ns, Err (create_database_error "claim (cipher_cap is 0)" "cipher_numbers"))
  else
    match List.find (held_by order_id) (hm_values ns) with
    | Some row => Some (ns, Ok (Some (cn_number row)))
    | None =>
        match min_of (cn_number <$>
                List.filter (fun row => (cn_number row <=? cap) && is_none (cn_order_id row))
                  (hm_values ns)) with
        | None => Some (ns, Ok None)
        | Some number =>
            match ns !! number with
            | None => None        (* expect("claimed number was just read from this map") *)
            | Some row =>
                Some (<[number := mkNumber (cn_number row) (Some order_id)
                                    (cn_release_pending_at row)]> ns, Ok (Some number))
            end
        end
    end.

Definition fetch_cipher_number_by_order (ns : Numbers) (order_id : string) : Result (option Z) :=
  Ok (cn_number <$> List.find (held_by order_id) (hm_values ns)).

Definition fetch_cipher_number_row_by_order (ns : Numbers) (order_id : string)
    : Result (option CipherNumber) :=
  Ok (List.find (held_by order_id) (hm_values ns)).

(** [values_mut().find(..)]: the row found and the key it is written back under *)
Definition find_held (ns : Numbers) (order_id : string) : option (Z * CipherNumber) :=
  List.find (fun kv => held_by order_id kv.2) (hm_iter ns).

Definition mark_cipher_number_release (ns : Numbers) (order_id : string) (at_ : Z)
    : Numbers * Result bool :=
  match find_held ns order_id with
  | Some (k, row) =>
      (<[k := mkNumber (cn_number row) (cn_order_id row)
                (Some (default at_ (cn_release_pending_at row)))]> ns, Ok true)
  | None => (ns, Ok false)
  end.

Definition cancel_cipher_number_release (ns : Numbers) (order_id : string)
    : Numbers * Result bool :=
  match find_held ns order_id with
  | Some (k, row) =>
      (<[k := mkNumber (cn_number row) (cn_order_id row) None]> ns,
       Ok (negb (is_none (cn_release_pending_at row))))
  | None => (ns, Ok false)
  end.

Definition release_cipher_number (ns : Numbers) (order_id : string) : Numbers * Result bool :=
  match find_held ns order_id with
  | Some (k, row) => (<[k := mkNumber (cn_number row) None None]> ns, Ok true)
  | None => (ns, Ok false)
  end.

(** [sort_by_key(|row| (row.release_pending_at, row.number))]; [None] sorts first *)
Definition pending_leb (a b : CipherNumber) : bool :=
  match cn_release_pending_at a, cn_release_pending_at b with
  | None, None => cn_number a <=? cn_number b
  | None, Some _ => true
  | Some _, None => false
  | Some x, Some y => (x <? y) || ((x =? y) && (cn_number a <=? cn_number b))
  end.

Definition fetch_cipher_numbers_release_pending (ns : Numbers) (limit : Z)
    : Result (list CipherNumber) :=
  Ok (take (Z.to_nat (Z.max limit 0))
        (sort_by pending_leb
           (List.filter (fun row => negb (is_none (cn_order_id row))
                                    && negb (is_none (cn_release_pending_at row)))
              (hm_values ns)))).

Definition count_claimed_cipher_numbers (ns : Numbers) : Result Z :=
  count_to_u32 (length (List.filter (fun row => negb (is_none (cn_order_id row))) (hm_values ns))).

Definition count_cipher_numbers (ns : Numbers) : Result Z := count_to_u32 (size ns).

(** [numbers.entry(number).or_insert(..)] *)
Definition seed_one (ns : Numbers) (number : Z) : Numbers :=
  match ns !! number with
  | Some _ => ns
  | None => <[number := mkNumber number None None]> ns
  end.

Definition seed_cipher_numbers (ns : Numbers) (cap : Z) : Numbers * Result unit :=
  (foldl seed_one ns (seqZ 1 cap), Ok tt).

(** One operation of the driver that writes *)
Inductive step : Numbers -> Numbers -> Prop :=
| step_claim ns o cap ns' r : claim_cipher_number ns o cap = Some (ns', r) -> step ns ns'
| step_mark ns o t : step ns (mark_cipher_number_release ns o t).1
| step_cancel ns o : step ns (cancel_cipher_number_release ns o).1
| step_release ns o : step ns (release_cipher_number ns o).1
| step_seed ns cap : step ns (seed_cipher_numbers ns cap).1.
End Ops.

(** Rows are stored under their number, an order holds at most one number,
    and only a claimed row carries a release decision. *)
Record numbers_wf (ns : Numbers) : Prop := {
  wf_key : forall k r, ns !! k = Some r -> cn_number r = k;
  wf_order : forall k1 k2 r1 r2 o, ns !! k1 = Some r1 -> ns !! k2 = Some r2 ->
    cn_order_id r1 = Some o -> cn_order_id r2 = Some o -> k1 = k2;
  wf_pending : forall k r, ns !! k = Some r -> cn_order_id r = None ->
    cn_release_pending_at r = None;
}.

Lemma min_of_Some l x : min_of l = Some x -> x ∈ l /\ forall y, y ∈ l -> x <= y.
Proof.
  revert x. induction l as [|a l IH]; intros x; simpl; [done|].
  destruct (min_of l) as [z|] eqn:E; intros [= <-].
  - destruct (IH _ eq_refl) as [Hz Hmin]. split.
    + destruct (Z.min_spec a z) as [[_ ->]|[_ ->]]; [left | by right].
    + intros y [->|Hy]%elem_of_cons; [lia|]. specialize (Hmin y Hy). lia.
  - split; [left|]. intros y [->|Hy]%elem_of_cons; [lia|].
    destruct l; [by apply not_elem_of_nil in Hy|]. simpl in E. by destruct (min_of l).
Qed.

Lemma min_of_None l : min_of l = None -> l = [].
Proof. destruct l; simpl; [done|]. by destruct (min_of l). Qed.

Lemma held_by_true o row : held_by o row = true <-> cn_order_id row = Some o.
Proof. apply is_some_str_true. Qed.

Lemma is_none_true {A} (x : option A) : is_none x = true <-> x = None.
Proof. by destruct x. Qed.

Lemma numbers_wf_empty : numbers_wf ∅.
Proof. split; intros; simplify_map_eq. Qed.

(** Rewriting one row: the new row keeps its number, holds no order another
    row holds, and carries a decision only when claimed. *)
Lemma numbers_wf_insert ns k row :
  numbers_wf ns -> cn_number row = k ->
  (forall o k' r', cn_order_id row = Some o -> ns !! k' = Some r' -> k' <> k ->
     cn_order_id r' <> Some o) ->
  (cn_order_id row = None -> cn_release_pending_at row = None) ->
  numbers_wf (<[k := row]> ns).
Proof.
  intros [Hk Ho Hp] Hn Hfree Hpend. split.
  - intros i r. rewrite lookup_insert. case_decide; intros; simplify_eq; eauto.
  - intros i j r1 r2 o. rewrite !lookup_insert.
    repeat case_decide; intros; simplify_eq; eauto; exfalso; eapply Hfree; eauto.
  - intros i r. rewrite lookup_insert. case_decide; intros; simplify_eq; eauto.
Qed.

Section Facts.
Context `{!HashIter Z CipherNumber}.

Lemma find_held_Some ns o k row :
  find_held ns o = Some (k, row) -> ns !! k = Some row /\ cn_order_id row = Some o.
Proof. intros [? ?%held_by_true]%hm_find_entry_Some. done. Qed.

Lemma find_held_None ns o :
  find_held ns o = None -> forall k r, ns !! k = Some r -> cn_order_id r <> Some o.
Proof.
  intros E k r Hk Ho. apply (hm_find_entry_None _ _ E) in Hk.
  apply held_by_true in Ho. congruence.
Qed.

Lemma find_held_unique ns o k row :
  numbers_wf ns -> ns !! k = Some row -> cn_order_id row = Some o ->
  find_held ns o = Some (k, row).
Proof.
  intros Hwf Hk Ho. destruct (find_held ns o) as [[k' row']|] eqn:E.
  - apply find_held_Some in E as [Hk' Ho'].
    assert (k' = k) as -> by (eapply wf_order; eauto). congruence.
  - by destruct (find_held_None _ _ E _ _ Hk).
Qed.

Lemma find_values_held ns o : List.find (held_by o) (hm_values ns) = snd <$> find_held ns o.
Proof.
  unfold find_held, hm_values. induction (hm_iter ns) as [|[k r] l IH]; simpl; [done|].
  by destruct (held_by o r).
Qed.

(** What a claim does, on every branch. *)
Lemma claim_cases ns o cap : numbers_wf ns -> cap <> 0 ->
  (exists k row, ns !! k = Some row /\ cn_order_id row = Some o /\
     claim_cipher_number ns o cap = Some (ns, Ok (Some k))) \/
  ((forall k row, ns !! k = Some row -> cn_order_id row <> Some o) /\
   ((exists k row, ns !! k = Some row /\ cn_order_id row = None /\ k <= cap /\
       (forall k' row', ns !! k' = Some row' -> cn_order_id row' = None -> k' <= cap -> k <= k') /\
       claim_cipher_number ns o cap =
         Some (<[k := mkNumber k (Some o) None]> ns, Ok (Some k))) \/
    ((forall k row, ns !! k = Some row -> k <= cap -> cn_order_id row <> None) /\
     claim_cipher_number ns o cap = Some (ns, Ok None)))).
Proof.
  intros Hwf Hcap. unfold claim_cipher_number.
  replace (cap =? 0) with false by lia. rewrite find_values_held.
  destruct (find_held ns o) as [[k row]|] eqn:Ef; simpl.
  { left. apply find_held_Some in Ef as [Hk Ho]. exists k, row.
    by rewrite (wf_key _ Hwf _ _ Hk). }
  right. split; [by apply find_held_None|].
  set (l := _ <$> _).
  assert (forall k, k ∈ l <-> exists row, ns !! k = Some row /\ cn_order_id row = None /\ k <= cap)
    as Hl.
  { intros k. unfold l. rewrite list_elem_of_fmap. setoid_rewrite elem_of_filter_bool.
    setoid_rewrite elem_of_hm_values. setoid_rewrite andb_true_iff.
    setoid_rewrite is_none_true. split.
    - intros (row & -> & [Hle Hn] & [k' Hk']). rewrite (wf_key _ Hwf _ _ Hk') in *.
      exists row. split_and!; [done | done | lia].
    - intros (row & Hk & Hn & Hle). exists row. pose proof (wf_key _ Hwf _ _ Hk).
      split_and!; eauto; lia. }
  destruct (min_of l) as [k|] eqn:Em.
  - left. apply min_of_Some in Em as [Hin Hmin]. apply Hl in Hin as (row & Hk & Hn & Hle).
    exists k, row. rewrite Hk, (wf_key _ Hwf _ _ Hk), (wf_pending _ Hwf _ _ Hk Hn).
    split_and!; try done. intros k' row' ? ? ?. apply Hmin, Hl. eauto.
  - right. apply min_of_None in Em. split; [|done]. intros k row Hk Hle Hn.
    assert (k ∈ l) as Hin by (apply Hl; eauto). rewrite Em in Hin.
    by apply not_elem_of_nil in Hin.
Qed.

Lemma seed_lookup ns cap k :
  (foldl seed_one ns (seqZ 1 cap)) !! k =
  match ns !! k with
  | Some r => Some r
  | None => if (1 <=? k) && (k <=? cap) then Some (mkNumber k None None) else None
  end.
Proof.
  assert (forall l ns, foldl seed_one ns l !! k =
    match ns !! k with Some r => Some r
    | None => if bool_decide (k ∈ l) then Some (mkNumber k None None) else None end) as H.
  { clear ns. induction l as [|x l IH]; intros ns; simpl.
    - by destruct (ns !! k).
    - rewrite IH. unfold seed_one. destruct (decide (x = k)) as [->|Hne].
      + destruct (ns !! k) as [r|] eqn:E; [by rewrite E|]. rewrite lookup_insert_eq.
        by rewrite bool_decide_true by left.
      + destruct (ns !! x) eqn:E; [|rewrite lookup_insert_ne by done];
          destruct (ns !! k); try done;
          by rewrite (bool_decide_ext (k ∈ x :: l) (k ∈ l)) by set_solver. }
  rewrite H. destruct (ns !! k); [done|].
  rewrite (bool_decide_ext _ (1 <= k <= cap)) by (rewrite elem_of_seqZ; lia).
  case_bool_decide; destruct (1 <=? k) eqn:?, (k <=? cap) eqn:?; to_prop; try done; lia.
Qed.

Lemma number_step_wf ns ns' : step ns ns' -> numbers_wf ns -> numbers_wf ns'.
Proof.
  intros Hs Hwf. destruct Hs as [ns o cap ns' r H|ns o t|ns o|ns o|ns cap].
  - destruct (decide (cap = 0)) as [->|Hc]; [unfold claim_cipher_number in H; by simplify_eq/=|].
    destruct (claim_cases ns o cap Hwf Hc)
      as [(k & row & _ & _ & E)|[Hfree [(k & row & Hk & Hn & _ & _ & E)|[_ E]]]];
      rewrite E in H; simplify_eq; try done.
    apply numbers_wf_insert; try done. intros o' k' r' [= <-] Hk' _. eauto.
  - unfold mark_cipher_number_release. destruct (find_held ns o) as [[k row]|] eqn:E; [|done].
    apply find_held_Some in E as [Hk Ho].
    apply numbers_wf_insert; simpl; [done | by eapply wf_key | | congruence].
    intros o' k' r' ? Hk' Hne ?. apply Hne. eapply wf_order; eauto.
  - unfold cancel_cipher_number_release. destruct (find_held ns o) as [[k row]|] eqn:E; [|done].
    apply find_held_Some in E as [Hk Ho].
    apply numbers_wf_insert; simpl; [done | by eapply wf_key | | done].
    intros o' k' r' ? Hk' Hne ?. apply Hne. eapply wf_order; eauto.
  - unfold release_cipher_number. destruct (find_held ns o) as [[k row]|] eqn:E; [|done].
    apply find_held_Some in E as [Hk Ho].
    apply numbers_wf_insert; simpl; [done | by eapply wf_key | done | done].
  - simpl. split.
    + intros k r. rewrite seed_lookup. destruct (ns !! k) eqn:E.
      * intros [= <-]. by eapply wf_key.
      * case_match; naive_solver.
    + intros k1 k2 r1 r2 o. rewrite !seed_lookup.
      destruct (ns !! k1) eqn:E1, (ns !! k2) eqn:E2; repeat case_match; intros; simplify_eq.
      by eapply (wf_order ns).
    + intros k r. rewrite seed_lookup. destruct (ns !! k) eqn:E.
      * intros [= <-]. by eapply wf_pending.
      * case_match; naive_solver.
Qed.
End Facts.

(** ** Theorems *)

(** Whatever came before, a claim never panics and returns the number the
    order already holds, else the lowest unclaimed number up to the cap,
    changing that row only, else nothing when every number up to the cap is
    claimed; and an order that was given a number is given the same one on
    every retry, under any cap, with nothing changed. *)
Theorem claim_lowest_free `{!HashIter Z CipherNumber} (ns : Numbers) (o : string) (cap : Z) :
  rtc step ∅ ns -> cap <> 0 ->
  exists ns' r, claim_cipher_number ns o cap = Some (ns', Ok r) /\
    match r with
    | Some n =>
        ((exists row, ns !! n = Some row /\ cn_order_id row = Some o) /\ ns' = ns \/
         (exists row, ns !! n = Some row /\ cn_order_id row = None) /\ n <= cap /\
         (forall k row, ns !! k = Some row -> cn_order_id row = None -> k <= cap -> n <= k) /\
         ns' = <[n := mkNumber n (Some o) None]> ns) /\
        (forall cap', cap' <> 0 -> claim_cipher_number ns' o cap' = Some (ns', Ok (Some n)))
    | None =>
        ns' = ns /\
        forall k row, ns !! k = Some row -> cn_order_id row <> Some o /\
          (k <= cap -> cn_order_id row <> None)
    end.
Proof.
  intros Hr Hcap.
  assert (numbers_wf ns) as Hwf
    by (eapply rtc_invariant; [apply number_step_wf | apply numbers_wf_empty | done]).
  assert (forall ns' n row cap', numbers_wf ns' -> ns' !! n = Some row ->
            cn_order_id row = Some o -> cap' <> 0 ->
            claim_cipher_number ns' o cap' = Some (ns', Ok (Some n))) as Hres.
  { intros ns' n row cap' Hwf' Hn Ho Hc'. destruct (claim_cases ns' o cap' Hwf' Hc')
      as [(k & row' & Hk & Ho' & ->)|[Hno _]].
    - do 4 f_equal. by eapply (wf_order ns').
    - by destruct (Hno _ _ Hn). }
  destruct (claim_cases ns o cap Hwf Hcap)
    as [(k & row & Hk & Ho & E)|[Hfree [(k & row & Hk & Hn & Hle & Hmin & E)|[Hall E]]]].
  - exists ns, (Some k). eauto 8.
  - assert (numbers_wf (<[k := mkNumber k (Some o) None]> ns)) as Hwf'
      by (eapply number_step_wf; [eapply step_claim; exact E | done]).
    eexists _, (Some k). split; [exact E|]. split; [right; eauto 8|].
    intros cap' Hc'. eapply Hres; [done | apply lookup_insert_eq | done | done].
  - exists ns, None. eauto 8.
Qed.

Lemma claim_lowest_free_witness :
  exists ns r, rtc step ∅ ns /\ claim_cipher_number ns "a" 2 = Some (ns, Ok r) /\ r = Some 1.
Proof.
  set (ns0 := (seed_cipher_numbers ∅ 2).1).
  set (ns1 := <[1 := mkNumber 1 (Some "a"%string) None]> ns0).
  assert (rtc step ∅ ns1) as Hr.
  { eapply rtc_l; [exact (step_seed ∅ 2)|]. apply rtc_once.
    eapply (step_claim _ "a" 2). vm_compute. reflexivity. }
  destruct (claim_lowest_free ns1 "a" 2 Hr ltac:(lia)) as (ns' & r & E & Hm).
  exists ns1, (Some 1). split_and!; [exact Hr | | reflexivity].
  vm_compute in E. injection E as <- <-. destruct Hm as [_ Hm]. exact (Hm 2 ltac:(lia)).
Defined.

(** Releasing puts exactly the order's own row back: the row is free
    afterwards, every other row is as it was, and a second release finds
    nothing.  Marking keeps the time of the first decision and leaves the row
    claimed, and a cancelled decision leaves the row as if never marked. *)
Theorem release_protocol `{!HashIter Z CipherNumber} (ns : Numbers) (o : string) (n : Z)
    (row : CipherNumber) (t1 t2 : Z) :
  rtc step ∅ ns -> ns !! n = Some row -> cn_order_id row = Some o ->
  (let '(ns', r) := release_cipher_number ns o in
   r = Ok true /\ ns' = <[n := mkNumber n None None]> ns /\
   release_cipher_number ns' o = (ns', Ok false)) /\
  (let '(ns1, r) := mark_cipher_number_release ns o t1 in
   r = Ok true /\
   ns1 = <[n := mkNumber n (Some o) (Some (default t1 (cn_release_pending_at row)))]> ns /\
   mark_cipher_number_release ns1 o t2 = (ns1, Ok true) /\
   cancel_cipher_number_release ns1 o = (<[n := mkNumber n (Some o) None]> ns, Ok true)).
Proof.
  intros Hr Hn Ho.
  assert (numbers_wf ns) as Hwf
    by (eapply rtc_invariant; [apply number_step_wf | apply numbers_wf_empty | done]).
  pose proof (find_held_unique ns o n row Hwf Hn Ho) as Ef.
  pose proof (wf_key _ Hwf _ _ Hn) as Ek. split.
  - unfold release_cipher_number. rewrite Ef, Ek. split_and!; [done | done|].
    destruct (find_held (<[n := _]> ns) o) as [[k r]|] eqn:E; [|done].
    apply find_held_Some in E as [Hk Hr']. rewrite lookup_insert in Hk.
    case_decide as Hd; simplify_eq. destruct Hd. by eapply (wf_order ns).
  - pose proof (number_step_wf _ _ (step_mark ns o t1) Hwf) as Hwf1.
    unfold mark_cipher_number_release in *. rewrite Ef, Ek, Ho in *. split_and!; try done.
    + erewrite find_held_unique; [|done | apply lookup_insert_eq | done]. simpl.
      by rewrite insert_insert_eq.
    + unfold cancel_cipher_number_release.
      erewrite find_held_unique; [|done | apply lookup_insert_eq | done]. simpl.
      by rewrite insert_insert_eq.
Qed.

Lemma release_protocol_witness :
  exists ns, rtc step ∅ ns /\ (release_cipher_number ns "a").2 = Ok true.
Proof.
  set (ns0 := (seed_cipher_numbers ∅ 2).1).
  set (ns1 := <[1 := mkNumber 1 (Some "a"%string) None]> ns0).
  assert (rtc step ∅ ns1) as Hr.
  { eapply rtc_l; [exact (step_seed ∅ 2)|]. apply rtc_once.
    eapply (step_claim _ "a" 2). vm_compute. reflexivity. }
  exists ns1. split; [exact Hr|].
  destruct (release_protocol ns1 "a" 1 (mkNumber 1 (Some "a"%string) None) 0 0 Hr
              eq_refl eq_refl) as [H _].
  destruct (release_cipher_number ns1 "a"). apply H.
Defined.

(** *** Selling out *)

(** A run of claims, one order after the other. *)
Fixpoint claim_all `{!HashIter Z CipherNumber} (ns : Numbers) (orders : list string) (cap : Z)
    : option (Numbers * list (Result (option Z))) :=
  match orders with
  | [] => Some (ns, [])
  | o :: rest =>
      match claim_cipher_number ns o cap with
      | None => None
      | Some (ns', r) =>
          match claim_all ns' rest cap with
          | None => None
          | Some (ns'', rs) => Some (ns'', r :: rs)
          end
      end
  end.

(** The table with the first numbers sold to [sold], in order. *)
Definition sold_table (cap : Z) (sold : list string) (ns : Numbers) : Prop :=
  forall k, ns !! k = if (1 <=? k) && (k <=? cap)
                      then Some (mkNumber k (sold !! Z.to_nat (k - 1)) None) else None.

Lemma sold_table_wf cap sold ns : NoDup sold -> sold_table cap sold ns -> numbers_wf ns.
Proof.
  intros Hnd Hs. split.
  - intros k r. rewrite Hs. case_match; naive_solver.
  - intros k1 k2 r1 r2 o. rewrite !Hs.
    destruct ((1 <=? k1) && (k1 <=? cap)) eqn:E1, ((1 <=? k2) && (k2 <=? cap)) eqn:E2;
      intros [= <-] [= <-]; simpl; intros H1 H2.
    pose proof (NoDup_lookup _ _ _ _ Hnd H1 H2). to_prop. lia.
  - intros k r. rewrite Hs. case_match; naive_solver.
Qed.

Lemma sold_table_claim `{!HashIter Z CipherNumber} cap sold ns o :
  0 < cap -> NoDup sold -> o ∉ sold -> sold_table cap sold ns ->
  Z.of_nat (length sold) <= cap ->
  exists ns' r, claim_cipher_number ns o cap = Some (ns', Ok r) /\
    if Z.of_nat (length sold) <? cap
    then r = Some (Z.of_nat (length sold) + 1) /\ sold_table cap (sold ++ [o]) ns'
    else r = None /\ ns' = ns.
Proof.
  intros Hc Hnd Ho Hs Hlen. pose proof (sold_table_wf _ _ _ Hnd Hs) as Hwf.
  assert (forall k row, ns !! k = Some row -> 1 <= k <= cap /\
            cn_order_id row = sold !! Z.to_nat (k - 1)) as Hrow.
  { intros k row. rewrite Hs. case_match eqn:E; intros [= <-]. to_prop. split; [lia | done]. }
  destruct (claim_cases ns o cap Hwf ltac:(lia))
    as [(k & row & Hk & Hko & _)|[_ [(k & row & Hk & Hn & Hle & Hmin & E)|[Hall E]]]].
  - exfalso. apply Ho. destruct (Hrow _ _ Hk) as [_ Hr]. rewrite Hr in Hko.
    by eapply list_elem_of_lookup_2.
  - destruct (Hrow _ _ Hk) as [Hb Hr]. rewrite Hr in Hn. apply lookup_ge_None in Hn.
    assert (Z.of_nat (length sold) < cap) as Hlt by lia.
    assert (k = Z.of_nat (length sold) + 1) as ->.
    { assert (k <= Z.of_nat (length sold) + 1); [|lia].
      eapply (Hmin _ (mkNumber (Z.of_nat (length sold) + 1) None None)); [|done|lia].
      rewrite Hs. replace ((1 <=? _) && _) with true by (symmetry; apply andb_true_iff; lia).
      do 2 f_equal. apply lookup_ge_None. lia. }
    eexists _, _. split; [exact E|]. apply Z.ltb_lt in Hlt as ->. split; [done|].
    intros j. rewrite lookup_insert. case_decide as Hj.
    + subst j. replace ((1 <=? _) && _) with true by (symmetry; apply andb_true_iff; lia).
      do 2 f_equal. symmetry.
      replace (Z.to_nat _) with (length sold) by lia. apply list_lookup_middle. done.
    + rewrite Hs. case_match eqn:Ej; [|done]. to_prop. do 2 f_equal.
      destruct (decide (Z.to_nat (j - 1) < length sold)%nat).
      * by rewrite lookup_app_l.
      * rewrite (proj2 (lookup_ge_None sold _)) by lia. symmetry.
        apply lookup_ge_None. rewrite length_app. simpl. lia.
  - eexists _, _. split; [exact E|].
    assert (Z.of_nat (length sold) <? cap = false) as ->; [|done].
    apply Z.ltb_ge. destruct (Z.le_gt_cases cap (Z.of_nat (length sold))) as [|Hlt]; [done|].
    exfalso. eapply (Hall cap); [rewrite Hs|lia|].
    + by replace ((1 <=? _) && _) with true by (symmetry; apply andb_true_iff; lia).
    + apply lookup_ge_None. lia.
Qed.

(** A sold-out table answers every new order with nothing. *)
Lemma claim_all_full `{!HashIter Z CipherNumber} cap sold ns orders :
  0 < cap -> sold_table cap sold ns -> Z.of_nat (length sold) = cap -> NoDup (sold ++ orders) ->
  claim_all ns orders cap = Some (ns, (fun _ => Ok None) <$> orders).
Proof.
  intros Hc Hs Hlen. induction orders as [|x l IH]; intros Hnd; [done|].
  pose proof Hnd as Hnd'. apply NoDup_app in Hnd' as (Hnd1 & Hdis & _).
  destruct (sold_table_claim cap sold ns x Hc Hnd1) as (ns1 & r & E & Hr); [| done | lia |].
  { intros Hin. apply (Hdis x Hin). left. }
  replace (Z.of_nat (length sold) <? cap) with false in Hr by lia.
  destruct Hr as [-> ->]. simpl. rewrite E, IH; [done|].
  rewrite <- Permutation_middle in Hnd. by apply NoDup_cons in Hnd as [_ ?].
Qed.

Lemma claim_all_sold `{!HashIter Z CipherNumber} cap orders : forall sold ns,
  0 < cap -> NoDup (sold ++ orders) -> sold_table cap sold ns -> Z.of_nat (length sold) <= cap ->
  exists ns', claim_all ns orders cap =
    Some (ns', (fun k => Ok (if k <=? cap then Some k else None)) <$>
                 seqZ (Z.of_nat (length sold) + 1) (Z.of_nat (length orders))) /\
    sold_table cap (take (Z.to_nat cap) (sold ++ orders)) ns'.
Proof.
  induction orders as [|o orders IH]; intros sold ns Hc Hnd Hs Hlen.
  { exists ns. split; [done|]. rewrite app_nil_r, take_ge by lia. done. }
  pose proof Hnd as Hnd'. apply NoDup_app in Hnd' as (Hnd1 & Hdis & Hnd2).
  assert (o ∉ sold) as Ho by (intros Hin; apply (Hdis o Hin); left).
  destruct (sold_table_claim cap sold ns o Hc Hnd1 Ho Hs Hlen) as (ns1 & r & E & Hr).
  cbn [claim_all]. rewrite E.
  rewrite (seqZ_cons (Z.of_nat (length sold) + 1) (Z.of_nat (length (o :: orders)))) by (simpl; lia).
  replace (Z.pred (Z.of_nat (length (o :: orders)))) with (Z.of_nat (length orders)) by (simpl; lia).
  destruct (Z.of_nat (length sold) <? cap) eqn:El; destruct Hr as [-> Hr]; to_prop.
  - destruct (IH (sold ++ [o]) ns1 Hc) as (ns' & -> & Hs'); [by rewrite <- app_assoc | done | |].
    { rewrite length_app. simpl. lia. }
    exists ns'. rewrite <- app_assoc in Hs'. split; [|done]. rewrite fmap_cons.
    do 3 f_equal; [case_match; to_prop; [done | lia]|].
    do 2 f_equal. rewrite length_app. simpl. lia.
  - subst ns1. assert (cap = Z.of_nat (length sold)) as Ecap by lia.
    rewrite (claim_all_full cap sold) by (try done; try lia; rewrite <- Permutation_middle in Hnd; by apply NoDup_cons in Hnd as [_ ?]).
    exists ns. split.
    + rewrite fmap_cons. do 3 f_equal; [case_match; to_prop; [lia|done]|].
      apply list_eq_same_length with (length orders); rewrite ?length_fmap, ?length_seqZ; [lia|lia|].
      intros i x y Hi Hx Hy. rewrite list_lookup_fmap in Hx. rewrite list_lookup_fmap in Hy.
      apply fmap_Some in Hx as (? & _ & ->), Hy as (k & Hk & ->).
      apply lookup_seqZ in Hk as [-> ?]. case_match; to_prop; [lia | done].
    + rewrite Ecap, Nat2Z.id, take_app_length. by rewrite <- Ecap.
Qed.

(** A table seeded with a cap sells each of its numbers exactly once, lowest
    first, and then sells nothing: claims of distinct orders are answered
    [1], [2], ... up to the cap and [None] from then on, and the table ends
    holding the first [cap] orders in order. *)
Theorem seeded_table_sells_out `{!HashIter Z CipherNumber} (cap : Z) (orders : list string) :
  0 < cap -> NoDup orders ->
  exists ns', claim_all (seed_cipher_numbers ∅ cap).1 orders cap =
    Some (ns', (fun k => Ok (if k <=? cap then Some k else None)) <$>
                 seqZ 1 (Z.of_nat (length orders))) /\
    forall k, ns' !! k = if (1 <=? k) && (k <=? cap)
                         then Some (mkNumber k (orders !! Z.to_nat (k - 1)) None) else None.
Proof.
  intros Hc Hnd.
  destruct (claim_all_sold cap orders [] (seed_cipher_numbers ∅ cap).1 Hc Hnd)
    as (ns' & E & Hs); [|simpl; lia|].
  { intros k. cbn [fst seed_cipher_numbers]. rewrite seed_lookup, lookup_empty. done. }
  exists ns'. split; [exact E|]. intros k. rewrite Hs. case_match eqn:Ek; [|done].
  to_prop. do 2 f_equal. apply lookup_take_lt. lia.
Qed.

Lemma seeded_table_sells_out_witness :
  exists ns', claim_all (seed_cipher_numbers ∅ 2).1 ["a"; "b"; "c"] 2 =
    Some (ns', [Ok (Some 1); Ok (Some 2); Ok None]).
Proof.
  destruct (seeded_table_sells_out 2 ["a"; "b"; "c"]%string) as (ns' & E & _).
  - lia.
  - repeat constructor; set_solver.
  - exists ns'. exact E.
Defined.
