(* ===== verification/ProtLedger.v ===== *)
(** * The Prot ledger: rows, postings and their rules

    crates/core/database/src/models/prot/model.rs and the driver-independent
    part of prot/ops.rs: account ids and idempotency keys, the canonical
    payload, validation, what a posting moves, and the plans of the Cipher
    syncs.  The SHA-256 digest (sha2 crate) is a parameter; a fresh ULID is an
    argument of the operation that writes a row.  Log lines have no effect. *)

From stdpp Require Import base numbers list gmap strings pretty.
From S2P Require Import Prelude Errors CipherMemberships.
Open Scope Z_scope.

Module ProtEntryKind.
Inductive t : Type :=
| Purchase | CipherFounding | CipherUpgrade | Contribution | TierUpgrade | PledgeHold
| PledgeCapture | PledgeReturn | PledgeWithdraw | LaunchReturn | Burn | Settlement | WriteOff
| Clawback | ClawbackHold | Forfeit | ForfeitHold | ForfeitTank | AdminAdjust.

#[global] Instance eq_dec : EqDecision t.
Proof. solve_decision. Defined.

Definition as_str (k : t) : string :=
  match k with
  | Purchase => "Purchase"
  | CipherFounding => "CipherFounding"
  | CipherUpgrade => "CipherUpgrade"
  | Contribution => "Contribution"
  | TierUpgrade => "TierUpgrade"
  | PledgeHold => "PledgeHold"
  | PledgeCapture => "PledgeCapture"
  | PledgeReturn => "PledgeReturn"
  | PledgeWithdraw => "PledgeWithdraw"
  | LaunchReturn => "LaunchReturn"
  | Burn => "Burn"
  | Settlement => "Settlement"
  | WriteOff => "WriteOff"
  | Clawback => "Clawback"
  | ClawbackHold => "ClawbackHold"
  | Forfeit => "Forfeit"
  | ForfeitHold => "ForfeitHold"
  | ForfeitTank => "ForfeitTank"
  | AdminAdjust => "AdminAdjust"
  end.
End ProtEntryKind.

Inductive ProtCurrency : Type := Prot.

Record ProtAccount : Type := mkAccount {
  pa_id : string;
  pa_currency : ProtCurrency;
  pa_balance : Z;
  pa_version : Z;
  pa_updated_at : Z;
}.

Record ProtRef : Type := mkRef {
  ref_order_id : option string;
  ref_tank_id : option string;
  ref_goal_id : option string;
  ref_pledge_id : option string;
  ref_day : option string;
  ref_membership_number : option Z;
  ref_membership_order_id : option string;
}.

Definition default_ref : ProtRef := mkRef None None None None None None None.

Record ProtLedgerEntry : Type := mkEntry {
  pe_id : string;
  pe_key : string;
  pe_kind : ProtEntryKind.t;
  pe_currency : ProtCurrency;
  pe_debit : string;
  pe_credit : string;
  pe_amount : Z;
  pe_requested : option Z;
  pe_shortfall : option Z;
  pe_actor : string;
  pe_reference : ProtRef;
  pe_payload_hash : string;
  pe_reason : option string;
  pe_created_at : Z;
}.

Module ProtAmount.
Inductive t : Type :=
| Exact (n : Z)
| UpTo (n : Z)
| All.
End ProtAmount.

Record ProtPosting : Type := mkPosting {
  pp_key : string;
  pp_kind : ProtEntryKind.t;
  pp_debit : string;
  pp_credit : string;
  pp_amount : ProtAmount.t;
  pp_debit_floor : Z;
  pp_actor : string;
  pp_reference : ProtRef;
  pp_reason : option string;
  pp_created_at : Z;
}.

Inductive ProtApplyOutcome : Type :=
| Applied (entry : ProtLedgerEntry)
| AlreadyApplied (entry : ProtLedgerEntry).

Definition outcome_entry (o : ProtApplyOutcome) : ProtLedgerEntry :=
  match o with Applied entry | AlreadyApplied entry => entry end.

Inductive CipherProtSync : Type :=
| Nothing
| Posted (outcome : ProtApplyOutcome)
| OverPosted (posted target : Z).

(** ** Account ids and keys *)

Definition PROT_SYS_ISSUED : string := "sys:issued".
Definition PROT_SYS_BURNED : string := "sys:burned".
Definition PROT_SYS_CLAWED : string := "sys:clawed".
Definition PROT_SYS_FORFEITED : string := "sys:forfeited".
Definition PROT_SYS_WRITEOFF : string := "sys:writeoff".
Definition PROT_SYS_ADJUST : string := "sys:adjust".
Definition PROT_ACTOR_PAYMENTS : string := "sys:payments".
Definition PROT_ACTOR_CIPHER : string := "sys:cipher".
Definition PROT_ACTOR_DELETION : string := "sys:account-deletion".

Definition prot_user_account (user_id : string) : string := "user:" +:+ user_id.
Definition prot_tank_account (tank_id : string) : string := "tank:" +:+ tank_id.
Definition prot_hold_account (goal_id : string) : string := "hold:" +:+ goal_id.
Definition is_prot_system_account (id : string) : bool := starts_with "sys:" id.

Definition prot_key_purchase (order_id : string) : string := "purchase:" +:+ order_id.
Definition prot_key_cipher_founding (user_id : string) (number : Z) (base_order_id : string)
    : string :=
  "cipher-founding:" +:+ user_id +:+ ":" +:+ pretty number +:+ ":" +:+ base_order_id.
Definition prot_key_cipher_upgrade (user_id : string) (number : Z) (base_order_id : string)
    (seq : Z) : string :=
  "cipher-upgrade:" +:+ user_id +:+ ":" +:+ pretty number +:+ ":" +:+ base_order_id
    +:+ ":" +:+ pretty seq.
Definition prot_key_clawback (order_id : string) : string := "clawback:" +:+ order_id.
Definition prot_key_forfeit (user_id : string) (n : Z) : string :=
  "forfeit:" +:+ user_id +:+ ":" +:+ pretty n.
Definition prot_key_admin (admin_id nonce : string) : string :=
  "admin:" +:+ admin_id +:+ ":" +:+ nonce.

(** ** The canonical payload *)

Fixpoint join_lines (lines : list string) : string :=
  match lines with
  | [] => ""
  | [l] => l
  | l :: rest => l +:+ String newline (join_lines rest)
  end.

Definition amount_string (a : ProtAmount.t) : string :=
  match a with
  | ProtAmount.Exact n => "exact:" +:+ pretty n
  | ProtAmount.UpTo n => "upto:" +:+ pretty n
  | ProtAmount.All => "all"
  end.

Definition payload_lines (p : ProtPosting) : list string :=
  let r := pp_reference p in
  [ "prot-posting/v1";
    "kind=" +:+ ProtEntryKind.as_str (pp_kind p);
    "currency=Prot";
    "debit=" +:+ pp_debit p;
    "credit=" +:+ pp_credit p;
    "amount=" +:+ amount_string (pp_amount p);
    "ref.order_id=" +:+ default "" (ref_order_id r);
    "ref.tank_id=" +:+ default "" (ref_tank_id r);
    "ref.goal_id=" +:+ default "" (ref_goal_id r);
    "ref.pledge_id=" +:+ default "" (ref_pledge_id r);
    "ref.day=" +:+ default "" (ref_day r);
    "ref.membership_number=" +:+ default "" (pretty <$> ref_membership_number r);
    "ref.membership_order_id=" +:+ default "" (ref_membership_order_id r) ].

Definition prot_payload (p : ProtPosting) : string := join_lines (payload_lines p).

(** [prot_payload_hash], with the hex digest a parameter *)
Definition prot_payload_hash (sha256_hex : string -> string) (p : ProtPosting) : string :=
  sha256_hex (prot_payload p).

(** ** Cipher accounting *)

Definition cipher_prot_target (m : CipherMembership) : Z :=
  if is_active m then cm_prot_grant m else 0.

(** The closure folded over the rows *)
Definition posted_step (posted : Z) (row : ProtLedgerEntry) : Z :=
  match pe_kind row with
  | ProtEntryKind.CipherFounding | ProtEntryKind.CipherUpgrade =>
      saturating_add_i64 posted (pe_amount row)
  | ProtEntryKind.Clawback =>
      saturating_sub_i64 posted (default (pe_amount row) (pe_requested row))
  | _ => posted
  end.

Definition cipher_prot_posted (rows : list ProtLedgerEntry) : Z := foldl posted_step 0 rows.

Definition is_cipher_grant (row : ProtLedgerEntry) : bool :=
  match pe_kind row with
  | ProtEntryKind.CipherFounding | ProtEntryKind.CipherUpgrade => true
  | _ => false
  end.

Definition cipher_prot_grant_count (rows : list ProtLedgerEntry) : Z :=
  Z.of_nat (length (List.filter is_cipher_grant rows)).

Definition cipher_prot_shortfall (rows : list ProtLedgerEntry) : Z :=
  foldl (fun total row => saturating_add_i64 total (default 0 (pe_shortfall row))) 0
    (List.filter (fun row => bool_decide (pe_kind row = ProtEntryKind.Clawback)) rows).

(** ** Postings (prot/ops.rs) *)

Definition PROT_STATE_RETRIES : nat := 5.
Definition PROT_KEY_MAX_BYTES : nat := 255.

Definition invalid_posting : ErrorType.t := ErrorType.InternalError.

Definition is_valid_prot_side (id : string) : bool :=
  existsb (fun prefix => has_prefix_and_rest prefix id) ["sys:"; "user:"; "tank:"; "hold:"].

(** The values [validate_prot_posting] checks for newlines *)
Definition hashed_fields (p : ProtPosting) : list (option string) :=
  let r := pp_reference p in
  [ Some (pp_debit p); Some (pp_credit p); ref_order_id r; ref_tank_id r; ref_goal_id r;
    ref_pledge_id r; ref_day r; ref_membership_order_id r ].

Definition validate_prot_posting (p : ProtPosting) : Result unit :=
  if str_eqb (pp_key p) "" || (PROT_KEY_MAX_BYTES <? String.length (pp_key p))%nat
  then Err invalid_posting
  else if contains_char newline (pp_key p) then Err invalid_posting
  else if str_eqb (pp_debit p) (pp_credit p) then Err invalid_posting
  else if negb (is_valid_prot_side (pp_debit p)) || negb (is_valid_prot_side (pp_credit p))
  then Err invalid_posting
  else if existsb (contains_char newline) (omap id (hashed_fields p)) then Err invalid_posting
  else
    let? _ :=
      match pp_amount p with
      | ProtAmount.Exact n => if n <=? 0 then Err invalid_posting else Ok tt
      | ProtAmount.UpTo n =>
          if n <=? 0 then Err invalid_posting
          else match pp_kind p with
               | ProtEntryKind.Clawback | ProtEntryKind.ClawbackHold => Ok tt
               | _ => Err invalid_posting
               end
      | ProtAmount.All =>
          match pp_kind p with
          | ProtEntryKind.Forfeit | ProtEntryKind.ForfeitHold | ProtEntryKind.ForfeitTank => Ok tt
          | _ => Err invalid_posting
          end
      end in
    if match pp_amount p with ProtAmount.Exact _ => false | _ => true end
       && is_prot_system_account (pp_debit p)
    then Err invalid_posting
    else Ok tt.

Record ProtResolved : Type := mkResolved {
  rs_amount : Z;
  rs_requested : option Z;
  rs_shortfall : option Z;
  rs_available : Z;
  rs_required : Z;
}.

Definition resolve_prot_amount (p : ProtPosting) (debit_balance : Z) : Result ProtResolved :=
  let system := is_prot_system_account (pp_debit p) in
  let available :=
    if system then 0 else Z.max (saturating_sub_i64 debit_balance (pp_debit_floor p)) 0 in
  let? (amount, requested, shortfall) :=
    match pp_amount p with
    | ProtAmount.Exact n =>
        if negb system && (available <? n)
        then Err (ErrorType.InsufficientProt n available)
        else Ok (n, None, None)
    | ProtAmount.UpTo n =>
        let amount := Z.min n available in Ok (amount, Some n, Some (n - amount))
    | ProtAmount.All => Ok (available, None, None)
    end in
  let? required := ok_or (checked_add_i64 (pp_debit_floor p) amount) invalid_posting in
  Ok (mkResolved amount requested shortfall available required).

Definition build_prot_entry (id : string) (p : ProtPosting) (r : ProtResolved)
    (payload_hash : string) : ProtLedgerEntry :=
  mkEntry id (pp_key p) (pp_kind p) Prot (pp_debit p) (pp_credit p) (rs_amount r)
    (rs_requested r) (rs_shortfall r) (pp_actor p) (pp_reference p) payload_hash
    (pp_reason p) (pp_created_at p).

Definition duplicate_outcome (payload_hash : string) (stored : option ProtLedgerEntry)
    : Result ProtApplyOutcome :=
  match stored with
  | Some stored =>
      if str_eqb (pe_payload_hash stored) payload_hash then Ok (AlreadyApplied stored)
      else Err ErrorType.ProtIdempotencyConflict
  | None => Err (create_database_error "find_one" "prot_ledger")
  end.

Definition state_retries_exhausted (last_error : option ErrorType.t) : ErrorType.t :=
  default (create_database_error "transaction" "prot_ledger") last_error.

Definition cipher_base (m : CipherMembership) : option string := head (cm_orders m).

Definition is_older_incarnation (order_id base : string) : bool := str_ltb order_id base.

(** ** Plans *)

Inductive CipherSyncPlan : Type :=
| Done (sync : CipherProtSync)
| Post (posting : ProtPosting).

Definition plan_cipher_sync (user_id : string) (m : CipherMembership) (base : string)
    (rows : list ProtLedgerEntry) (now : Z) : CipherSyncPlan :=
  let posted := cipher_prot_posted rows in
  let target := cipher_prot_target m in
  if negb (is_active m) || match cm_disputed_orders m with [] => false | _ => true end
     || (target <=? posted)
  then Done (if target <? posted then OverPosted posted target else Nothing)
  else
    let seq := cipher_prot_grant_count rows in
    let '(kind, key) :=
      if seq =? 0
      then (ProtEntryKind.CipherFounding, prot_key_cipher_founding user_id (cm_number m) base)
      else (ProtEntryKind.CipherUpgrade, prot_key_cipher_upgrade user_id (cm_number m) base seq) in
    Post (mkPosting key kind PROT_SYS_ISSUED (prot_user_account user_id)
            (ProtAmount.Exact (target - posted)) 0 PROT_ACTOR_CIPHER
            (mkRef (last (cm_orders m)) None None None None (Some (cm_number m)) (Some base))
            None now).

Definition plan_cipher_clawback (user_id order_id : string) (m : CipherMembership) (base : string)
    (rows : list ProtLedgerEntry) (now : Z) : option ProtPosting :=
  let posted := cipher_prot_posted rows in
  let target := cipher_prot_target m in
  if posted <=? target then None
  else Some (mkPosting (prot_key_clawback order_id) ProtEntryKind.Clawback
               (prot_user_account user_id) PROT_SYS_CLAWED
               (ProtAmount.UpTo (posted - target)) 0 PROT_ACTOR_PAYMENTS
               (mkRef (Some order_id) None None None None (Some (cm_number m)) (Some base))
               None now).

Definition forfeit_posting (user_id : string) (n : Z) (now : Z) : ProtPosting :=
  mkPosting (prot_key_forfeit user_id n) ProtEntryKind.Forfeit (prot_user_account user_id)
    PROT_SYS_FORFEITED ProtAmount.All 0 PROT_ACTOR_DELETION default_ref None now.

(** ** Facts about strings the payload needs *)

Lemma pretty_N_go_empty x s : pretty_N_go x s = "" -> x = 0%N /\ s = "".
Proof.
  revert s. induction (N.lt_wf_0 x) as [x _ IH]. intros s.
  destruct (decide (x = 0)%N) as [->|Hx]; [by rewrite pretty_N_go_0|].
  rewrite pretty_N_go_step by lia. intros H. apply IH in H as [_ ?]; [done|].
  apply N.div_lt; lia.
Qed.

Lemma pretty_Z_nonempty (z : Z) : pretty z <> "".
Proof.
  assert (forall n : N, pretty n <> "") as HN.
  { intros n. unfold pretty, pretty_N. case_decide; [done|].
    intros E. by apply pretty_N_go_empty in E as []. }
  destruct z; [done | apply HN | done].
Qed.

Lemma newline_split a b x y :
  contains_char newline a = false -> contains_char newline b = false ->
  a +:+ String newline x = b +:+ String newline y -> a = b /\ x = y.
Proof.
  revert b. induction a as [|c a IH]; intros [|d b] Ha Hb H; simpl in *.
  - by injection H.
  - injection H as <- _. done.
  - injection H as -> _. done.
  - injection H as -> H. apply orb_false_iff in Ha as [_ Ha], Hb as [_ Hb].
    destruct (IH b Ha Hb H) as [-> ->]. done.
Qed.

(** Lines without newlines can be read back from their join. *)
Lemma join_lines_inj l1 l2 :
  length l1 = length l2 ->
  Forall (fun l => contains_char newline l = false) l1 ->
  Forall (fun l => contains_char newline l = false) l2 ->
  join_lines l1 = join_lines l2 -> l1 = l2.
Proof.
  revert l2. induction l1 as [|a l1 IH]; intros [|b l2] Hlen H1 H2 E; try done.
  apply Forall_cons in H1 as [Ha H1], H2 as [Hb H2].
  destruct l1 as [|a' l1], l2 as [|b' l2]; try done.
  - simpl in E. congruence.
  - apply newline_split in E as [-> E]; [|done|done]. f_equal. apply IH; auto.
Qed.

Lemma as_str_inj k1 k2 : ProtEntryKind.as_str k1 = ProtEntryKind.as_str k2 -> k1 = k2.
Proof. destruct k1, k2; first [reflexivity | discriminate]. Qed.

Lemma as_str_newline k : contains_char newline (ProtEntryKind.as_str k) = false.
Proof. by destruct k. Qed.

Lemma amount_string_inj a b : amount_string a = amount_string b -> a = b.
Proof.
  destruct a, b; unfold amount_string; intros H; try discriminate; try reflexivity;
    apply str_app_inj_l in H; by apply (inj pretty) in H as ->.
Qed.

Lemma amount_string_newline a : contains_char newline (amount_string a) = false.
Proof.
  destruct a; unfold amount_string; [..|done];
    rewrite contains_char_app, pretty_Z_contains by done; done.
Qed.

Lemma number_string_inj (a b : option Z) :
  default "" (pretty <$> a) = default "" (pretty <$> b) -> a = b.
Proof.
  destruct a as [a|], b as [b|]; simpl; intros H; try done.
  - by apply (inj pretty) in H as ->.
  - by apply pretty_Z_nonempty in H.
  - symmetry in H. by apply pretty_Z_nonempty in H.
Qed.

Lemma number_string_newline (a : option Z) :
  contains_char newline (default "" (pretty <$> a)) = false.
Proof. destruct a; simpl; [by apply pretty_Z_contains | done]. Qed.

(** ** Validation *)

Record valid_posting (p : ProtPosting) : Prop := {
  vp_key : pp_key p <> "";
  vp_sides : pp_debit p <> pp_credit p;
  vp_debit : is_valid_prot_side (pp_debit p) = true;
  vp_credit : is_valid_prot_side (pp_credit p) = true;
  vp_newline : Forall (fun o => contains_char newline (default "" o) = false) (hashed_fields p);
  vp_amount : match pp_amount p with
              | ProtAmount.Exact n => 0 < n
              | ProtAmount.UpTo n => 0 < n /\ is_prot_system_account (pp_debit p) = false /\
                  (pp_kind p = ProtEntryKind.Clawback \/ pp_kind p = ProtEntryKind.ClawbackHold)
              | ProtAmount.All => is_prot_system_account (pp_debit p) = false /\
                  (pp_kind p = ProtEntryKind.Forfeit \/ pp_kind p = ProtEntryKind.ForfeitHold \/
                   pp_kind p = ProtEntryKind.ForfeitTank)
              end;
}.

Lemma hashed_newlines (l : list (option string)) :
  existsb (contains_char newline) (omap id l) = false ->
  Forall (fun o => contains_char newline (default "" o) = false) l.
Proof.
  induction l as [|[s|] l IH]; simpl; intros H; [constructor | |].
  - apply orb_false_iff in H as [Hs H]. constructor; auto.
  - constructor; auto.
Qed.

Lemma validate_spec p : validate_prot_posting p = Ok tt -> valid_posting p.
Proof.
  unfold validate_prot_posting. intros H.
  repeat match type of H with (if ?b then Err _ else _) = _ => destruct b eqn:?; [done|] end.
  rewrite ?orb_false_iff, ?negb_false_iff in *. destruct_and!.
  split; [by apply str_eqb_neq | by apply str_eqb_neq | done | done | by apply hashed_newlines |].
  destruct (pp_amount p) as [n|n|].
  - destruct (n <=? 0) eqn:?; [done|]. lia.
  - destruct (n <=? 0) eqn:?; [done|]. destruct (is_prot_system_account (pp_debit p));
      destruct (pp_kind p); try done; (split_and!; [lia | done | tauto]).
  - destruct (is_prot_system_account (pp_debit p)); destruct (pp_kind p); try done; tauto.
Qed.

Lemma payload_lines_newline p :
  valid_posting p -> Forall (fun l => contains_char newline l = false) (payload_lines p).
Proof.
  intros [_ _ _ _ Hn _]. unfold hashed_fields in Hn. rewrite !Forall_cons in Hn.
  destruct Hn as (? & ? & ? & ? & ? & ? & ? & ? & _). simpl in *.
  unfold payload_lines. rewrite !Forall_cons.
  split_and!; rewrite ?contains_char_app, ?as_str_newline, ?amount_string_newline,
    ?number_string_newline; try apply orb_false_iff; try done; by apply Forall_nil_2.
Qed.

(** ** What a posting moves *)

(** Facts of a resolved amount, for a validated posting. *)
Record resolves (p : ProtPosting) (balance : Z) (r : ProtResolved) : Prop := {
  rs_nonneg : 0 <= rs_amount r;
  rs_zero : rs_amount r = 0 -> match pp_amount p with ProtAmount.Exact _ => False | _ => True end;
  rs_bound : is_prot_system_account (pp_debit p) = false -> rs_amount r <= rs_available r;
  rs_avail : is_prot_system_account (pp_debit p) = false -> is_i64 balance ->
    is_i64 (pp_debit_floor p) -> rs_available r <= Z.max (balance - pp_debit_floor p) 0;
  rs_short : match pp_amount p with
             | ProtAmount.Exact n => rs_amount r = n /\ rs_requested r = None /\ rs_shortfall r = None
             | ProtAmount.UpTo n => rs_requested r = Some n /\
                 rs_shortfall r = Some (n - rs_amount r) /\ rs_amount r <= n /\
                 rs_amount r = Z.min n (rs_available r)
             | ProtAmount.All => rs_amount r = rs_available r /\
                 rs_requested r = None /\ rs_shortfall r = None
             end;
}.

Lemma saturating_sub_le a b : is_i64 a -> is_i64 b ->
  Z.max (saturating_sub_i64 a b) 0 <= Z.max (a - b) 0.
Proof. unfold saturating_sub_i64, clamp_i64. int_solve. Qed.

Lemma resolve_spec p balance r :
  valid_posting p -> resolve_prot_amount p balance = Ok r -> resolves p balance r.
Proof.
  intros [_ _ _ _ _ Ha] H. unfold resolve_prot_amount in H.
  pose proof (saturating_sub_le balance (pp_debit_floor p)) as Hs.
  destruct (is_prot_system_account (pp_debit p)) eqn:Esys;
  destruct (pp_amount p) as [n|n|] eqn:Ep; simpl in H;
    try (destruct (_ <? n) eqn:El; [done|]);
    destruct (checked_add_i64 _ _) eqn:Ec; simpl in H; simplify_eq;
    split; rewrite ?Ep, ?Esys; simpl; intros; try done; destruct_and?; try done; auto; try lia;
    split_and!; try done; lia.
Qed.

(** ** Theorems *)

(** Two validated postings with the same canonical payload are the same
    posting up to metadata: same kind, sides, amount mode and membership
    number, and the same references, an absent reference counting as an empty
    one.  This is what makes comparing payload hashes compare postings, as
    long as the digest does not collide. *)
Theorem payload_injective (p q : ProtPosting) :
  validate_prot_posting p = Ok tt -> validate_prot_posting q = Ok tt ->
  prot_payload p = prot_payload q ->
  pp_kind p = pp_kind q /\ pp_debit p = pp_debit q /\ pp_credit p = pp_credit q /\
  pp_amount p = pp_amount q /\
  ref_membership_number (pp_reference p) = ref_membership_number (pp_reference q) /\
  Forall2 (fun a b => default "" a = default "" b) (hashed_fields p) (hashed_fields q).
Proof.
  intros Hp%validate_spec Hq%validate_spec E.
  apply join_lines_inj in E; [|done | by apply payload_lines_newline..].
  unfold payload_lines in E.
  injection E as Hk Hd Hc Ha Ho Ht Hg Hpl Hday Hn Hm.
  apply as_str_inj in Hk. apply amount_string_inj in Ha. apply number_string_inj in Hn.
  split_and!; try done. unfold hashed_fields. repeat constructor; done.
Qed.

Definition sample_posting (key : string) (n : Z) : ProtPosting :=
  mkPosting key ProtEntryKind.Purchase PROT_SYS_ISSUED (prot_user_account "01USER")
    (ProtAmount.Exact n) 0 PROT_ACTOR_PAYMENTS
    (mkRef (Some "01ORDER"%string) None None None None None None) None 1000.

Lemma payload_injective_witness :
  ProtAmount.Exact 2600 = pp_amount (sample_posting "purchase:other" 2600).
Proof.
  destruct (payload_injective (sample_posting "purchase:01ORDER" 2600)
              (sample_posting "purchase:other" 2600) eq_refl eq_refl eq_refl)
    as (_ & _ & _ & H & _). exact H.
Defined.

(** A validated posting never moves a negative amount, and moves nothing only
    as one of the five clawback and forfeit kinds; from an account it never
    moves more than lies above the floor; a clawback records what it was
    asked for and what it fell short by, which add up to the amount moved. *)
Theorem resolve_amount_bounds (p : ProtPosting) (balance : Z) (r : ProtResolved) :
  validate_prot_posting p = Ok tt ->
  is_i64 balance -> is_i64 (pp_debit_floor p) ->
  resolve_prot_amount p balance = Ok r ->
  0 <= rs_amount r /\
  (rs_amount r = 0 -> pp_kind p ∈ [ProtEntryKind.Clawback; ProtEntryKind.ClawbackHold;
     ProtEntryKind.Forfeit; ProtEntryKind.ForfeitHold; ProtEntryKind.ForfeitTank]) /\
  (is_prot_system_account (pp_debit p) = false -> 0 < rs_amount r ->
     pp_debit_floor p <= balance - rs_amount r) /\
  (forall n, pp_amount p = ProtAmount.UpTo n ->
     exists s, rs_requested r = Some n /\ rs_shortfall r = Some s /\ 0 <= s /\
       n = rs_amount r + s).
Proof.
  intros Hv%validate_spec Hb Hf Hr. pose proof (resolve_spec _ _ _ Hv Hr) as [H0 Hz Hle Hav Hs].
  destruct Hv as [_ _ _ _ _ Ha]. split_and!; [done | | |].
  - intros E. specialize (Hz E). destruct (pp_amount p); [done| |]; set_solver.
  - intros Hsys Hpos. specialize (Hle Hsys). specialize (Hav Hsys Hb Hf). lia.
  - intros n En. rewrite En in *. exists (n - rs_amount r).
    destruct Hs as (-> & -> & ? & _). split_and!; [done | done | lia | lia].
Qed.

Definition sample_clawback (n : Z) : ProtPosting :=
  mkPosting "clawback:01ORDER" ProtEntryKind.Clawback (prot_user_account "01USER")
    PROT_SYS_CLAWED (ProtAmount.UpTo n) 0 PROT_ACTOR_PAYMENTS default_ref None 1000.

Lemma resolve_amount_bounds_witness :
  exists s, resolve_prot_amount (sample_clawback 16500) 15500 =
    Ok (mkResolved 15500 (Some 16500) (Some s) 15500 15500) /\ 16500 = 15500 + s.
Proof.
  destruct (resolve_amount_bounds (sample_clawback 16500) 15500
    (mkResolved 15500 (Some 16500) (Some 1000) 15500 15500)) as (_ & _ & _ & H);
    [reflexivity | vm_compute; split; discriminate | vm_compute; split; discriminate
    | reflexivity |].
  destruct (H 16500 eq_refl) as (s & _ & Es & _ & Eq). exists s. simpl in Es.
  split; [by rewrite <- Es | exact Eq].
Defined.

(** ** The posted sum without saturation *)

(** What one row adds to the Prot posted for its membership. *)
Definition posted_delta (row : ProtLedgerEntry) : Z :=
  match pe_kind row with
  | ProtEntryKind.CipherFounding | ProtEntryKind.CipherUpgrade => pe_amount row
  | ProtEntryKind.Clawback => - default (pe_amount row) (pe_requested row)
  | _ => 0
  end.

(** The rows' movements together stay inside an [i64]. *)
Definition posted_fits (rows : list ProtLedgerEntry) : Prop :=
  list_sum (fun row => Z.abs (posted_delta row)) rows <= i64_max.

Lemma posted_step_exact z row :
  is_i64 (z + posted_delta row) -> is_i64 z -> posted_step z row = z + posted_delta row.
Proof.
  unfold posted_step, posted_delta, saturating_add_i64, saturating_sub_i64.
  intros Hr Hz. destruct (pe_kind row); rewrite ?clamp_i64_id; try done; try lia.
Qed.

Lemma posted_exact rows :
  posted_fits rows -> cipher_prot_posted rows = list_sum posted_delta rows.
Proof.
  unfold posted_fits, cipher_prot_posted.
  assert (forall l z, Z.abs z + list_sum (fun row => Z.abs (posted_delta row)) l <= i64_max ->
    foldl posted_step z l = z + list_sum posted_delta l) as H.
  { induction l as [|row l IH]; intros z Hz; simpl in *; [lia|].
    assert (0 <= list_sum (fun row => Z.abs (posted_delta row)) l) as H0
      by (apply list_sum_nonneg; intros; lia).
    rewrite posted_step_exact by int_solve. rewrite IH by lia. lia. }
  intros Hf. rewrite H by lia. lia.
Qed.
