(* ===== verification/ProtStore.v ===== *)
(** * The Prot ledger of the in-memory driver

    crates/core/database/src/models/prot/ops/reference.rs.  Every operation
    takes the locks it needs at its start and holds them to its end, so it is
    one step on the three maps.  The digest is a parameter, and every
    operation that may write a row takes the ULID that row would get. *)

From stdpp Require Import base numbers list gmap strings pretty.
From S2P Require Import Prelude Errors CipherMemberships ProtLedger.
Open Scope Z_scope.

Abbreviation Ledger := (gmap string ProtLedgerEntry).
Abbreviation Accounts := (gmap string ProtAccount).

Record ProtDb : Type := mkProtDb {
  cipher_memberships : Memberships;
  prot_ledger : Ledger;
  prot_accounts : Accounts;
}.

Record PreparedPosting : Type := mkPrepared {
  prep_entry : ProtLedgerEntry;
  prep_debit_balance : option Z;
  prep_credit_balance : option Z;
}.

Inductive Prepared : Type :=
| Duplicate (stored : ProtLedgerEntry)
| New (prepared : PreparedPosting).

Definition balance_of (accounts : Accounts) (id : string) : Z :=
  from_option pa_balance 0 (accounts !! id).

(** The new balance of a side, [None] for a system side *)
Definition side_balance (op : Z -> Z -> option Z) (accounts : Accounts) (id : string) (amount : Z)
    : Result (option Z) :=
  if is_prot_system_account id then Ok None
  else let? balance := ok_or (op (balance_of accounts id) amount) invalid_posting in
       Ok (Some balance).

Definition prepare_locked (new_id : string) (ledger : Ledger) (accounts : Accounts)
    (posting : ProtPosting) (payload_hash : string) : Result Prepared :=
  match ledger !! pp_key posting with
  | Some stored => Ok (Duplicate stored)
  | None =>
      let? resolved := resolve_prot_amount posting (balance_of accounts (pp_debit posting)) in
      let? debit_balance :=
        side_balance checked_sub_i64 accounts (pp_debit posting) (rs_amount resolved) in
      let? credit_balance :=
        side_balance checked_add_i64 accounts (pp_credit posting) (rs_amount resolved) in
      if (0 <? rs_amount resolved)
         && match debit_balance with
            | Some balance => balance <? pp_debit_floor posting
            | None => false
            end
      then Err (ErrorType.InsufficientProt (rs_amount resolved) (rs_available resolved))
      else Ok (New (mkPrepared (build_prot_entry new_id posting resolved payload_hash)
                      debit_balance credit_balance))
  end.

(** One round of the loop of [commit_locked] *)
Definition touch_account (accounts : Accounts) (id : string) (balance : option Z)
    (created_at : Z) : Accounts :=
  match balance with
  | None => accounts
  | Some balance =>
      let account := default (mkAccount id Prot 0 0 created_at) (accounts !! id) in
      <[id := mkAccount (pa_id account) (pa_currency account) balance
                (saturating_add_u64 (pa_version account) 1) created_at]> accounts
  end.

Definition commit_locked (ledger : Ledger) (accounts : Accounts) (prepared : PreparedPosting)
    : Ledger * Accounts * ProtLedgerEntry :=
  let entry := prep_entry prepared in
  let accounts := touch_account accounts (pe_debit entry) (prep_debit_balance prepared)
                    (pe_created_at entry) in
  let accounts := touch_account accounts (pe_credit entry) (prep_credit_balance prepared)
                    (pe_created_at entry) in
  (<[pe_key entry := entry]> ledger, accounts, entry).

Section Ops.
Context `{!HashIter string ProtLedgerEntry}.
Context (sha256_hex : string -> string).

Definition entry_id_leb (a b : ProtLedgerEntry) : bool := str_leb (pe_id a) (pe_id b).

Definition membership_rows (ledger : Ledger) (base_order_id : string) : list ProtLedgerEntry :=
  sort_by entry_id_leb
    (List.filter (fun row => is_some_str (ref_membership_order_id (pe_reference row)) base_order_id)
       (hm_values ledger)).

(** The tail shared by [apply_prot_posting] and [prot_forfeit_pass]:
    validate, prepare, then write or answer for the stored row *)
Definition post (new_id : string) (db : ProtDb) (posting : ProtPosting)
    : ProtDb * Result ProtApplyOutcome :=
  match validate_prot_posting posting with
  | Err e => (db, Err e)
  | Ok _ =>
      let payload_hash := prot_payload_hash sha256_hex posting in
      match prepare_locked new_id (prot_ledger db) (prot_accounts db) posting payload_hash with
      | Err e => (db, Err e)
      | Ok (Duplicate stored) => (db, duplicate_outcome payload_hash (Some stored))
      | Ok (New prepared) =>
          let '(ledger, accounts, entry) :=
            commit_locked (prot_ledger db) (prot_accounts db) prepared in
          (mkProtDb (cipher_memberships db) ledger accounts, Ok (Applied entry))
      end
  end.

Definition apply_prot_posting (new_id : string) (db : ProtDb) (posting : ProtPosting)
    : ProtDb * Result ProtApplyOutcome := post new_id db posting.

(** Forfeit rows already debiting the wallet *)
Definition forfeit_passes (ledger : Ledger) (wallet : string) : Z :=
  Z.of_nat (length (List.filter (fun row => bool_decide (pe_kind row = ProtEntryKind.Forfeit)
                                            && str_eqb (pe_debit row) wallet) (hm_values ledger))).

Definition prot_forfeit_pass (new_id user_id : string) (now : Z) (db : ProtDb)
    : ProtDb * Result ProtApplyOutcome :=
  let passes := forfeit_passes (prot_ledger db) (prot_user_account user_id) in
  post new_id db (forfeit_posting user_id (passes + 1) now).

Definition fetch_prot_account (db : ProtDb) (account_id : string) : Result (option ProtAccount) :=
  Ok (prot_accounts db !! account_id).

Definition fetch_prot_entry_by_key (db : ProtDb) (key : string) : Result (option ProtLedgerEntry) :=
  Ok (prot_ledger db !! key).

Definition fetch_prot_entries_by_account (db : ProtDb) (account_id : string)
    (before_id : option string) (limit : Z) : Result (list ProtLedgerEntry) :=
  let rows := List.filter (fun row => match before_id with
                                      | None => true
                                      | Some before => str_ltb (pe_id row) before
                                      end)
                (List.filter (fun row => str_eqb (pe_debit row) account_id
                                         || str_eqb (pe_credit row) account_id)
                   (hm_values (prot_ledger db))) in
  Ok (take (Z.to_nat (Z.max 1 (Z.min 100 limit)))
        (sort_by (fun a b => entry_id_leb b a) rows)).

Definition fetch_prot_entries_by_order (db : ProtDb) (order_id : string)
    : Result (list ProtLedgerEntry) :=
  Ok (sort_by entry_id_leb
        (List.filter (fun row => is_some_str (ref_order_id (pe_reference row)) order_id)
           (hm_values (prot_ledger db)))).

Definition fetch_prot_entries_by_membership (db : ProtDb) (base_order_id : string)
    : Result (list ProtLedgerEntry) := Ok (membership_rows (prot_ledger db) base_order_id).

Definition sum_prot_credits_since (db : ProtDb) (account_id : string)
    (kinds : list ProtEntryKind.t) (since : Z) : Result Z :=
  Ok (foldl (fun total row => saturating_add_i64 total (pe_amount row)) 0
        (List.filter (fun row => str_eqb (pe_credit row) account_id
                                 && existsb (fun k => bool_decide (k = pe_kind row)) kinds
                                 && (since <=? pe_created_at row))
           (hm_values (prot_ledger db)))).

Definition sync_cipher_prot (new_id user_id : string) (now : Z) (db : ProtDb)
    : ProtDb * Result CipherProtSync :=
  match cipher_memberships db !! user_id with
  | None => (db, Ok Nothing)
  | Some m =>
      match cipher_base m with
      | None => (db, Ok Nothing)
      | Some base =>
          let rows := membership_rows (prot_ledger db) base in
          match plan_cipher_sync user_id m base rows now with
          | Done sync => (db, Ok sync)
          | Post posting =>
              match validate_prot_posting posting with
              | Err e => (db, Err e)
              | Ok _ =>
                  let payload_hash := prot_payload_hash sha256_hex posting in
                  match prepare_locked new_id (prot_ledger db) (prot_accounts db) posting
                          payload_hash with
                  | Err e => (db, Err e)
                  | Ok (Duplicate stored) =>
                      if str_eqb (pe_payload_hash stored) payload_hash
                      then (db, Ok (Posted (AlreadyApplied stored)))
                      else (db, Err (state_retries_exhausted None))
                  | Ok (New prepared) =>
                      match bump_cipher_membership_version_locked (cipher_memberships db) user_id
                              (cm_version m) with
                      | (memberships, false) =>
                          (mkProtDb memberships (prot_ledger db) (prot_accounts db),
                           Err (state_retries_exhausted None))
                      | (memberships, true) =>
                          let '(ledger, accounts, entry) :=
                            commit_locked (prot_ledger db) (prot_accounts db) prepared in
                          (mkProtDb memberships ledger accounts, Ok (Posted (Applied entry)))
                      end
                  end
              end
          end
      end
  end.

Definition clawback_cipher_prot (new_id user_id order_id : string) (now : Z) (db : ProtDb)
    : ProtDb * Result (option ProtApplyOutcome) :=
  match prot_ledger db !! prot_key_clawback order_id with
  | Some stored => (db, Ok (Some (AlreadyApplied stored)))
  | None =>
      match cipher_memberships db !! user_id with
      | None => (db, Ok None)
      | Some m =>
          match cipher_base m with
          | None => (db, Ok None)
          | Some base =>
              if is_older_incarnation order_id base then (db, Ok None)
              else
                let rows := membership_rows (prot_ledger db) base in
                match plan_cipher_clawback user_id order_id m base rows now with
                | None => (db, Ok None)
                | Some posting =>
                    match validate_prot_posting posting with
                    | Err e => (db, Err e)
                    | Ok _ =>
                        let payload_hash := prot_payload_hash sha256_hex posting in
                        match prepare_locked new_id (prot_ledger db) (prot_accounts db) posting
                                payload_hash with
                        | Err e => (db, Err e)
                        | Ok (Duplicate stored) => (db, Ok (Some (AlreadyApplied stored)))
                        | Ok (New prepared) =>
                            match bump_cipher_membership_version_locked (cipher_memberships db)
                                    user_id (cm_version m) with
                            | (memberships, false) =>
                                (mkProtDb memberships (prot_ledger db) (prot_accounts db),
                                 Err (state_retries_exhausted None))
                            | (memberships, true) =>
                                let '(ledger, accounts, entry) :=
                                  commit_locked (prot_ledger db) (prot_accounts db) prepared in
                                (mkProtDb memberships ledger accounts, Ok (Some (Applied entry)))
                            end
                        end
                    end
                end
          end
      end
  end.
End Ops.

(** [run_forfeit_passes] (prot/ops.rs): the pass loop over a store [S]; pass
    number [i] runs with its own fresh id *)
Section Passes.
Context {S : Type} (pass : nat -> S -> S * Result ProtApplyOutcome) (balance : S -> Result Z).

Fixpoint forfeit_loop (i left_ : nat) (s : S) : S * Result (option ProtApplyOutcome) :=
  match left_ with
  | O => (s, Err ErrorType.InternalError)
  | Datatypes.S left' =>
      match pass i s with
      | (s', Err e) => (s', Err e)
      | (s', Ok (Applied entry)) => (s', Ok (Some (Applied entry)))
      | (s', Ok (AlreadyApplied entry)) =>
          match balance s' with
          | Err e => (s', Err e)
          | Ok b =>
              if b <=? 0 then (s', Ok (Some (AlreadyApplied entry)))
              else forfeit_loop (Datatypes.S i) left' s'
          end
      end
  end.

Definition run_forfeit_passes (s : S) : S * Result (option ProtApplyOutcome) :=
  match balance s with
  | Err e => (s, Err e)
  | Ok b => if b <=? 0 then (s, Ok None) else forfeit_loop 0 PROT_STATE_RETRIES s
  end.
End Passes.

Definition forfeit_prot_wallet `{!HashIter string ProtLedgerEntry} (sha256_hex : string -> string)
    (new_ids : nat -> string) (user_id : string) (now : Z) (db : ProtDb)
    : ProtDb * Result (option ProtApplyOutcome) :=
  run_forfeit_passes (fun i => prot_forfeit_pass sha256_hex (new_ids i) user_id now)
    (fun db => let? account := fetch_prot_account db (prot_user_account user_id) in
               Ok (from_option pa_balance 0 account)) db.

(** ** One posting *)

(** What a row adds to an account. *)
Definition entry_delta (id : string) (e : ProtLedgerEntry) : Z :=
  (if str_eqb (pe_credit e) id then pe_amount e else 0)
  - (if str_eqb (pe_debit e) id then pe_amount e else 0).

(** What a row brings into the accounts from the system sides. *)
Definition entry_issue (e : ProtLedgerEntry) : Z :=
  (if is_prot_system_account (pe_debit e) then pe_amount e else 0)
  - (if is_prot_system_account (pe_credit e) then pe_amount e else 0).

Lemma touch_balance a id b t x :
  balance_of (touch_account a id b t) x =
  match b with Some b => if str_eqb x id then b else balance_of a x | None => balance_of a x end.
Proof.
  destruct b as [b|]; [|done]. unfold balance_of, touch_account.
  destruct (str_eqb x id) eqn:E; to_prop.
  - subst. by rewrite lookup_insert_eq.
  - by rewrite lookup_insert_ne.
Qed.

Lemma touch_sum a id b t :
  map_sum pa_balance (touch_account a id b t) =
  map_sum pa_balance a + match b with Some b => b - balance_of a id | None => 0 end.
Proof.
  destruct b as [b|]; simpl; [|lia]. rewrite map_sum_insert. unfold balance_of. simpl. lia.
Qed.

Lemma touch_lookup a id b t k acc :
  touch_account a id b t !! k = Some acc ->
  a !! k = Some acc \/ (k = id /\ b = Some (pa_balance acc) /\
    (pa_id acc = id \/ exists old, a !! id = Some old /\ pa_id acc = pa_id old)).
Proof.
  destruct b as [b|]; [|auto]. unfold touch_account. rewrite lookup_insert. case_decide; [|auto].
  intros [= <-]. right. subst. split_and!; [done | done|]. simpl.
  destruct (a !! k) as [old|]; simpl; [right; eauto | by left].
Qed.

(** A committed posting, read off the maps. *)
Record posting_effect (l l' : Ledger) (a a' : Accounts) (p : ProtPosting) (e : ProtLedgerEntry)
    : Prop := {
  eff_fresh : l !! pp_key p = None;
  eff_ledger : l' = <[pp_key p := e]> l;
  eff_key : pe_key e = pp_key p;
  eff_kind : pe_kind e = pp_kind p;
  eff_debit : pe_debit e = pp_debit p;
  eff_credit : pe_credit e = pp_credit p;
  eff_ref : pe_reference e = pp_reference p;
  eff_resolved : exists r, resolve_prot_amount p (balance_of a (pp_debit p)) = Ok r /\
    resolves p (balance_of a (pp_debit p)) r /\ pe_amount e = rs_amount r /\
    pe_requested e = rs_requested r /\ pe_shortfall e = rs_shortfall r;
  eff_balance : forall x, is_prot_system_account x = false ->
    balance_of a' x = balance_of a x + entry_delta x e;
  eff_total : map_sum pa_balance a' = map_sum pa_balance a + entry_issue e;
  eff_floor : is_prot_system_account (pp_debit p) = false -> 0 < pe_amount e ->
    pp_debit_floor p <= balance_of a' (pp_debit p);
  eff_rows : forall k acc, a' !! k = Some acc ->
    a !! k = Some acc \/ (is_i64 (pa_balance acc) /\ is_prot_system_account k = false);
}.

Lemma side_balance_Some op a id n b :
  side_balance op a id n = Ok (Some b) ->
  is_prot_system_account id = false /\ op (balance_of a id) n = Some b.
Proof.
  unfold side_balance, ok_or. intros H.
  destruct (is_prot_system_account id); [done|].
  destruct (op _ n) eqn:E; simplify_eq. done.
Qed.

Lemma side_balance_None op a id n :
  side_balance op a id n = Ok None -> is_prot_system_account id = true.
Proof.
  unfold side_balance, ok_or. intros H.
  destruct (is_prot_system_account id); [done|]. by destruct (op _ n).
Qed.

Lemma str_eqb_sym a b : str_eqb a b = str_eqb b a.
Proof. apply String.eqb_sym. Qed.

(** A side of a posting with its new balance, both ways. *)
Lemma side_delta op (sign : Z) a id n bal :
  (forall x y z, op x y = Some z -> z = x + sign * y /\ is_i64 z) ->
  side_balance op a id n = Ok bal ->
  match bal with
  | Some b => is_prot_system_account id = false /\ b = balance_of a id + sign * n /\ is_i64 b
  | None => is_prot_system_account id = true
  end.
Proof.
  intros Hop H. destruct bal as [b|].
  - apply side_balance_Some in H as [Hs Ho]. apply Hop in Ho as [-> ?]. done.
  - by apply side_balance_None in H.
Qed.

Lemma commit_effect new_id l a p h pr l' a' e :
  valid_posting p ->
  prepare_locked new_id l a p h = Ok (New pr) ->
  commit_locked l a pr = (l', a', e) ->
  posting_effect l l' a a' p e /\ pe_payload_hash e = h.
Proof.
  intros Hv Hp Hc. unfold prepare_locked in Hp.
  destruct (l !! pp_key p) eqn:El; [done|].
  destruct (resolve_prot_amount p _) as [r|] eqn:Er; [|done].
  pose proof (resolve_spec _ _ _ Hv Er) as Hres.
  destruct (side_balance checked_sub_i64 _ _ _) as [db|] eqn:Ed; [|done].
  destruct (side_balance checked_add_i64 _ _ _) as [cb|] eqn:Ec; [|done].
  destruct (_ && _) eqn:Efl; [done|]. simplify_eq.
  unfold commit_locked in Hc. simplify_eq/=. split; [|done].
  apply (side_delta _ (-1)) in Ed;
    [|intros ? ? ? [-> ?]%checked_sub_i64_Some; split; [lia | done]].
  apply (side_delta _ 1) in Ec;
    [|intros ? ? ? [-> ?]%checked_add_i64_Some; split; [lia | done]].
  pose proof (vp_sides _ Hv) as Hne.
  assert (str_eqb (pp_credit p) (pp_debit p) = false) as Ecd
    by (apply str_eqb_neq; congruence).
  split; simpl; try done.
  - exists r. done.
  - intros x Hx. unfold entry_delta. simpl. rewrite !touch_balance.
    rewrite (str_eqb_sym (pp_credit p) x), (str_eqb_sym (pp_debit p) x).
    destruct (str_eqb x (pp_credit p)) eqn:E1, (str_eqb x (pp_debit p)) eqn:E2;
      apply str_eqb_eq in E1 || apply str_eqb_neq in E1;
      apply str_eqb_eq in E2 || apply str_eqb_neq in E2;
      destruct cb, db; destruct_and?; subst; try congruence; lia.
  - unfold entry_issue. simpl. rewrite !touch_sum, touch_balance, Ecd.
    destruct cb, db; destruct_and?; repeat (case_match; try congruence); lia.
  - intros Hs Hpos. rewrite !touch_balance, (str_eqb_sym (pp_debit p)), Ecd, str_eqb_refl.
    apply andb_false_iff in Efl as [Efl|Efl]; [lia|].
    destruct db; [|congruence]. destruct cb; lia.
  - intros k acc [[?|(-> & -> & _)]%touch_lookup|(-> & -> & _)]%touch_lookup; [by left| |];
      right; tauto.
Qed.

Section Steps.
Context `{!HashIter string ProtLedgerEntry}.
Context (sha256_hex : string -> string).

(** The ledger and accounts are as before, or one posting was written. *)
Definition posts (db db' : ProtDb) (p : ProtPosting) (e : ProtLedgerEntry) : Prop :=
  validate_prot_posting p = Ok tt /\
  posting_effect (prot_ledger db) (prot_ledger db') (prot_accounts db) (prot_accounts db') p e /\
  pe_payload_hash e = prot_payload_hash sha256_hex p.

Definition same_books (db db' : ProtDb) : Prop :=
  prot_ledger db' = prot_ledger db /\ prot_accounts db' = prot_accounts db.

Lemma post_cases new_id db p db' r :
  post sha256_hex new_id db p = (db', r) ->
  db' = db /\ (r = match prot_ledger db !! pp_key p with
                   | Some stored =>
                       match validate_prot_posting p with
                       | Ok _ => duplicate_outcome (prot_payload_hash sha256_hex p) (Some stored)
                       | Err e => Err e
                       end
                   | None => r
                   end) /\ (forall e, r <> Ok (Applied e)) \/
  exists e, r = Ok (Applied e) /\ posts db db' p e /\
    cipher_memberships db' = cipher_memberships db.
Proof.
  unfold post. destruct (validate_prot_posting p) as [[]|] eqn:Ev.
  2: { intros [= <- <-]. left. split_and!; [done | by case_match | done]. }
  destruct (prepare_locked new_id _ _ p _) as [[stored|pr]|] eqn:Ep.
  - intros [= <- <-]. left. unfold prepare_locked in Ep.
    destruct (prot_ledger db !! pp_key p) eqn:El; [simplify_eq|by repeat case_match].
    split_and!; [done | done|]. unfold duplicate_outcome. intros e. by case_match.
  - destruct (commit_locked _ _ pr) as [[l a] e] eqn:Ec. intros [= <- <-]. right. exists e.
    split; [done|]. split; [|done]. split; [done|].
    eapply commit_effect; eauto using validate_spec.
  - intros [= <- <-]. left. unfold prepare_locked in Ep.
    destruct (prot_ledger db !! pp_key p) eqn:El; [done|]. done.
Qed.

Lemma sync_cases new_id u now db db' r :
  sync_cipher_prot sha256_hex new_id u now db = (db', r) ->
  db' = db /\ (forall e, r <> Ok (Posted (Applied e))) \/
  exists m base p e, r = Ok (Posted (Applied e)) /\ posts db db' p e /\
    cipher_memberships db !! u = Some m /\ cipher_base m = Some base /\
    plan_cipher_sync u m base (membership_rows (prot_ledger db) base) now = Post p /\
    cipher_memberships db' = <[u := set_version m (cm_version m + 1)]> (cipher_memberships db).
Proof.
  unfold sync_cipher_prot.
  destruct (cipher_memberships db !! u) as [m|] eqn:Em; [|intros [= <- <-]; by left].
  destruct (cipher_base m) as [base|] eqn:Eb; [|intros [= <- <-]; by left].
  destruct (plan_cipher_sync u m base _ now) as [sync|p] eqn:Epl.
  { intros [= <- <-]. left. split; [done|]. intros e. unfold plan_cipher_sync in Epl.
    repeat case_match; congruence. }
  destruct (validate_prot_posting p) as [[]|] eqn:Ev; [|intros [= <- <-]; by left].
  destruct (prepare_locked new_id _ _ p _) as [[stored|pr]|] eqn:Ep;
    [case_match; intros [= <- <-]; by left | |intros [= <- <-]; by left].
  unfold bump_cipher_membership_version_locked. rewrite Em, Z.eqb_refl.
  destruct (checked_add_u64 (cm_version m) 1) as [v|] eqn:Eadd.
  - apply checked_add_u64_Some in Eadd as [-> _].
    destruct (commit_locked _ _ pr) as [[l a] e] eqn:Ec. intros [= <- <-]. right.
    exists m, base, p, e. split_and!; try done. split; [done|].
    eapply commit_effect; eauto using validate_spec.
  - intros [= <- <-]. left. by destruct db.
Qed.

Lemma clawback_cases new_id u o now db db' r :
  clawback_cipher_prot sha256_hex new_id u o now db = (db', r) ->
  db' = db /\ (forall e, r <> Ok (Some (Applied e))) \/
  exists m base p e, r = Ok (Some (Applied e)) /\ posts db db' p e /\
    cipher_memberships db !! u = Some m /\ cipher_base m = Some base /\
    plan_cipher_clawback u o m base (membership_rows (prot_ledger db) base) now = Some p /\
    cipher_memberships db' = <[u := set_version m (cm_version m + 1)]> (cipher_memberships db).
Proof.
  unfold clawback_cipher_prot.
  destruct (prot_ledger db !! prot_key_clawback o) eqn:El; [intros [= <- <-]; by left|].
  destruct (cipher_memberships db !! u) as [m|] eqn:Em; [|intros [= <- <-]; by left].
  destruct (cipher_base m) as [base|] eqn:Eb; [|intros [= <- <-]; by left].
  destruct (is_older_incarnation o base); [intros [= <- <-]; by left|].
  destruct (plan_cipher_clawback u o m base _ now) as [p|] eqn:Epl; [|intros [= <- <-]; by left].
  destruct (validate_prot_posting p) as [[]|] eqn:Ev; [|intros [= <- <-]; by left].
  destruct (prepare_locked new_id _ _ p _) as [[stored|pr]|] eqn:Ep;
    [intros [= <- <-]; by left | |intros [= <- <-]; by left].
  unfold bump_cipher_membership_version_locked. rewrite Em, Z.eqb_refl.
  destruct (checked_add_u64 (cm_version m) 1) as [v|] eqn:Eadd.
  - apply checked_add_u64_Some in Eadd as [-> _].
    destruct (commit_locked _ _ pr) as [[l a] e] eqn:Ec. intros [= <- <-]. right.
    exists m, base, p, e. split_and!; try done. split; [done|].
    eapply commit_effect; eauto using validate_spec.
  - intros [= <- <-]. left. by destruct db.
Qed.

(** One step of the ledger: a posting allowed by [P], a Cipher sync, a
    clawback, a forfeit pass, or another component writing memberships. *)
Inductive step (P : ProtPosting -> Prop) : ProtDb -> ProtDb -> Prop :=
| step_apply new_id p db : P p -> step P db (apply_prot_posting sha256_hex new_id db p).1
| step_sync new_id u now db : step P db (sync_cipher_prot sha256_hex new_id u now db).1
| step_clawback new_id u o now db :
    step P db (clawback_cipher_prot sha256_hex new_id u o now db).1
| step_forfeit new_id u now db : step P db (prot_forfeit_pass sha256_hex new_id u now db).1
| step_memberships ms db : step P db (mkProtDb ms (prot_ledger db) (prot_accounts db)).

(** Every step leaves the books alone or writes one posting, and the ledger's
    own postings have floor 0. *)
Lemma step_cases P db db' :
  step P db db' ->
  same_books db db' \/ exists p e, posts db db' p e /\ (P p \/ pp_debit_floor p = 0).
Proof.
  intros Hs. destruct Hs.
  - unfold apply_prot_posting. destruct (post _ _ _ _) as [db' r] eqn:E. simpl.
    apply post_cases in E as [(-> & _)|(e & _ & ? & _)]; [by left | right; eauto].
  - destruct (sync_cipher_prot _ _ _ _ _) as [db' r] eqn:E. simpl.
    apply sync_cases in E as [(-> & _)|(m & base & p & e & _ & Hp & _ & _ & Hpl & _)]; [by left|].
    right. exists p, e. split; [done|]. right. unfold plan_cipher_sync in Hpl.
    repeat case_match; by simplify_eq.
  - destruct (clawback_cipher_prot _ _ _ _ _ _) as [db' r] eqn:E. simpl.
    apply clawback_cases in E as [(-> & _)|(m & base & p & e & _ & Hp & _ & _ & Hpl & _)]; [by left|].
    right. exists p, e. split; [done|]. right. unfold plan_cipher_clawback in Hpl.
    repeat case_match; by simplify_eq.
  - unfold prot_forfeit_pass. destruct (post _ _ _ _) as [db' r] eqn:E. simpl.
    apply post_cases in E as [(-> & _)|(e & _ & ? & _)]; [by left | right; eauto].
  - by left.
Qed.
End Steps.

(** ** The books balance *)

Record books_wf (db : ProtDb) : Prop := {
  bw_key : forall k e, prot_ledger db !! k = Some e -> pe_key e = k;
  bw_amount : forall k e, prot_ledger db !! k = Some e -> 0 <= pe_amount e;
  bw_balance : forall x, is_prot_system_account x = false ->
    balance_of (prot_accounts db) x = map_sum (entry_delta x) (prot_ledger db);
  bw_total : map_sum pa_balance (prot_accounts db) = map_sum entry_issue (prot_ledger db);
  bw_accounts : forall k acc, prot_accounts db !! k = Some acc ->
    is_i64 (pa_balance acc) /\ is_prot_system_account k = false;
}.

Definition empty_db : ProtDb := mkProtDb ∅ ∅ ∅.

Lemma books_wf_empty : books_wf empty_db.
Proof. split; simpl; intros; rewrite ?map_sum_empty; simplify_map_eq; done. Qed.

Lemma posts_wf sha db db' p e : books_wf db -> posts sha db db' p e -> books_wf db'.
Proof.
  intros [Hk Ha Hb Ht Hacc] (Hv & Heff & _).
  destruct (eff_resolved _ _ _ _ _ _ Heff) as (r & _ & Hr & Eamt & _).
  pose proof (eff_ledger _ _ _ _ _ _ Heff) as El.
  pose proof (eff_fresh _ _ _ _ _ _ Heff) as Hf.
  split; rewrite ?El.
  - intros k e'. rewrite lookup_insert. case_decide; [|eauto].
    intros [= <-]. subst. apply (eff_key _ _ _ _ _ _ Heff).
  - intros k e'. rewrite lookup_insert. case_decide; [|eauto].
    intros [= <-]. rewrite Eamt. apply (rs_nonneg _ _ _ Hr).
  - intros x Hx. rewrite (eff_balance _ _ _ _ _ _ Heff x Hx), Hb by done.
    rewrite map_sum_insert_new by done. lia.
  - rewrite (eff_total _ _ _ _ _ _ Heff), Ht, map_sum_insert_new by done. lia.
  - intros k acc H. apply (eff_rows _ _ _ _ _ _ Heff) in H as [?|?]; [eauto | done].
Qed.

Lemma same_books_wf db db' : books_wf db -> same_books db db' -> books_wf db'.
Proof. intros [] [El Ea]. split; rewrite ?El, ?Ea; done. Qed.

Lemma ledger_step_wf `{!HashIter string ProtLedgerEntry} sha P db db' :
  step sha P db db' -> books_wf db -> books_wf db'.
Proof.
  intros Hs Hwf. apply step_cases in Hs as [?|(p & e & ? & _)];
    eauto using posts_wf, same_books_wf.
Qed.

(** A posting debiting a user's wallet keeps it at or above zero. *)
Definition wallet_floor (p : ProtPosting) : Prop :=
  starts_with "user:" (pp_debit p) = true -> 0 <= pp_debit_floor p.

Definition wallets_nonneg (db : ProtDb) : Prop :=
  forall x, starts_with "user:" x = true -> 0 <= balance_of (prot_accounts db) x.

Lemma wallets_nonneg_empty : wallets_nonneg empty_db.
Proof. intros x _. unfold balance_of. simpl. rewrite lookup_empty. done. Qed.

Lemma user_account_prefix u : starts_with "user:" (prot_user_account u) = true.
Proof. by destruct u. Qed.

Lemma user_not_system x : starts_with "user:" x = true -> is_prot_system_account x = false.
Proof.
  unfold is_prot_system_account, starts_with.
  destruct x as [|c x]; [done|]. cbn [String.prefix]. intros H.
  destruct (Ascii.ascii_dec _ c) as [<-|]; [reflexivity | discriminate H].
Qed.

Lemma posts_nonneg sha db db' p e :
  wallets_nonneg db -> wallet_floor p -> posts sha db db' p e -> wallets_nonneg db'.
Proof.
  intros Hn Hfl (Hv & Heff & _) x Hx. pose proof (user_not_system x Hx) as Hs.
  destruct (eff_resolved _ _ _ _ _ _ Heff) as (r & _ & Hr & Eamt & _).
  pose proof (rs_nonneg _ _ _ Hr) as H0. rewrite <- Eamt in H0.
  pose proof (eff_balance _ _ _ _ _ _ Heff x Hs) as Eb. specialize (Hn x Hx).
  unfold entry_delta in Eb. rewrite (eff_debit _ _ _ _ _ _ Heff) in Eb.
  destruct (str_eqb (pp_debit p) x) eqn:Ed; [|case_match; lia]. to_prop. subst x.
  destruct (decide (0 < pe_amount e)) as [Hpos|].
  - pose proof (eff_floor _ _ _ _ _ _ Heff Hs Hpos). specialize (Hfl Hx). lia.
  - case_match; lia.
Qed.

Lemma step_nonneg `{!HashIter string ProtLedgerEntry} sha db db' :
  step sha wallet_floor db db' -> wallets_nonneg db -> wallets_nonneg db'.
Proof.
  intros Hs Hn. apply step_cases in Hs as [[_ Ea]|(p & e & Hp & Hor)].
  - intros x Hx. rewrite Ea. auto.
  - eapply posts_nonneg; [done | | done]. destruct Hor as [?|E0]; [done|].
    intros _. rewrite E0. done.
Qed.

(** Rows are only ever added. *)
Lemma step_append_only `{!HashIter string ProtLedgerEntry} sha P db db' :
  step sha P db db' -> prot_ledger db ⊆ prot_ledger db'.
Proof.
  intros Hs. apply step_cases in Hs as [[-> _]|(p & e & (_ & Heff & _) & _)]; [done|].
  rewrite (eff_ledger _ _ _ _ _ _ Heff). apply insert_subseteq, (eff_fresh _ _ _ _ _ _ Heff).
Qed.

(** ** Theorems *)

(** C35. Double entry: in every database the ledger's operations can reach, each
    account's balance is the sum of its credits less the sum of its debits
    over all ledger rows, all balances together are what the system sides
    issued less what they took back, and no row moves a negative amount. *)
Theorem books_balance `{!HashIter string ProtLedgerEntry} (sha256_hex : string -> string)
    (db : ProtDb) :
  rtc (step sha256_hex (fun _ => True)) empty_db db ->
  (forall x, is_prot_system_account x = false ->
     balance_of (prot_accounts db) x = map_sum (entry_delta x) (prot_ledger db)) /\
  map_sum pa_balance (prot_accounts db) = map_sum entry_issue (prot_ledger db) /\
  (forall k e, prot_ledger db !! k = Some e -> pe_key e = k /\ 0 <= pe_amount e) /\
  (forall k acc, prot_accounts db !! k = Some acc -> is_i64 (pa_balance acc)).
Proof.
  intros Hr.
  assert (books_wf db) as [Hk Ha Hb Ht Hacc]
    by (eapply rtc_invariant; [apply ledger_step_wf | apply books_wf_empty | done]).
  split_and!; [done | done | eauto | intros ? ? ?; by eapply Hacc].
Qed.

(** A digest for concrete runs: the payload itself. *)
Definition sample_db : ProtDb :=
  (apply_prot_posting id "01A" empty_db (sample_posting "purchase:01ORDER" 2600)).1.

Lemma books_balance_witness :
  balance_of (prot_accounts sample_db) "user:01USER" = 2600 /\
  map_sum pa_balance (prot_accounts sample_db) = 2600.
Proof.
  destruct (books_balance id sample_db) as (Hb & Ht & _).
  - apply rtc_once. by constructor.
  - rewrite Hb by reflexivity. rewrite Ht. split; vm_compute; reflexivity.
Defined.

(** No wallet is ever overdrawn: as long as the postings applied from outside
    respect the wallets' floor of zero, every user account holds at least
    zero, whatever mixture of postings, syncs, clawbacks and forfeits ran. *)
Theorem wallets_never_negative `{!HashIter string ProtLedgerEntry} (sha256_hex : string -> string)
    (db : ProtDb) (user_id : string) :
  rtc (step sha256_hex wallet_floor) empty_db db ->
  0 <= balance_of (prot_accounts db) (prot_user_account user_id).
Proof.
  intros Hr.
  assert (wallets_nonneg db) as Hn
    by (eapply rtc_invariant; [apply step_nonneg | apply wallets_nonneg_empty | done]).
  apply Hn, user_account_prefix.
Qed.

Lemma wallets_never_negative_witness :
  exists db, rtc (step id wallet_floor) empty_db db /\
    0 <= balance_of (prot_accounts db) (prot_user_account "01USER").
Proof.
  assert (rtc (step id wallet_floor) empty_db
    (apply_prot_posting id "01B" sample_db (sample_clawback 5000)).1) as Hr.
  { eapply rtc_l; [|apply rtc_once].
    - apply (step_apply _ _ "01A" (sample_posting "purchase:01ORDER" 2600)). intros _. vm_compute. discriminate.
    - apply (step_apply _ _ "01B" (sample_clawback 5000)). intros _. done. }
  eexists. split; [exact Hr|]. exact (wallets_never_negative id _ "01USER" Hr).
Defined.

(** C36. A posting that was applied is never applied again: after any further
    steps, replaying it (with any metadata, and whatever the balance is now)
    answers with the row written the first time and changes nothing, and a
    different payload under the same key is refused and changes nothing. *)
Theorem posting_idempotent `{!HashIter string ProtLedgerEntry} (sha256_hex : string -> string)
    (P : ProtPosting -> Prop) (db db1 db2 : ProtDb) (p q : ProtPosting) (e : ProtLedgerEntry)
    (id1 id2 : string) :
  apply_prot_posting sha256_hex id1 db p = (db1, Ok (Applied e)) ->
  rtc (step sha256_hex P) db1 db2 ->
  pp_key q = pp_key p -> validate_prot_posting q = Ok tt ->
  prot_ledger db2 !! pp_key p = Some e /\
  apply_prot_posting sha256_hex id2 db2 q =
    (db2, if str_eqb (prot_payload_hash sha256_hex p) (prot_payload_hash sha256_hex q)
          then Ok (AlreadyApplied e) else Err ErrorType.ProtIdempotencyConflict).
Proof.
  intros H Hr Hkey Hv. apply post_cases in H as [(_ & _ & Hno)|(e' & [= <-] & Hp & _)];
    [by destruct (Hno e)|].
  destruct Hp as (_ & Heff & Eh).
  assert (prot_ledger db1 ⊆ prot_ledger db2) as Hsub.
  { apply (rtc_invariant (step sha256_hex P) (fun d => prot_ledger db1 ⊆ prot_ledger d) db1);
      [|done|done]. intros a b Hs Ha. etrans; [exact Ha|]. by eapply step_append_only. }
  assert (prot_ledger db2 !! pp_key p = Some e) as El.
  { eapply lookup_weaken; [|exact Hsub].
    rewrite (eff_ledger _ _ _ _ _ _ Heff). apply lookup_insert_eq. }
  split; [done|]. unfold apply_prot_posting, post. rewrite Hv.
  unfold prepare_locked. rewrite Hkey, El. simpl. by rewrite Eh.
Qed.

Lemma posting_idempotent_witness :
  apply_prot_posting id "01C"
    (apply_prot_posting id "01B" sample_db (sample_clawback 5000)).1
    (sample_posting "purchase:01ORDER" 2601) =
  ((apply_prot_posting id "01B" sample_db (sample_clawback 5000)).1,
   Err ErrorType.ProtIdempotencyConflict).
Proof.
  assert (exists e, apply_prot_posting id "01A" empty_db (sample_posting "purchase:01ORDER" 2600)
            = (sample_db, Ok (Applied e))) as [e He]
    by (eexists; vm_compute; reflexivity).
  apply (posting_idempotent id (fun _ => True) _ _
    (apply_prot_posting id "01B" sample_db (sample_clawback 5000)).1 _
    (sample_posting "purchase:01ORDER" 2601) e "01A" "01C" He).
  - apply rtc_once. by constructor.
  - reflexivity.
  - vm_compute. reflexivity.
Defined.

(** A call that does not report a new row changed nothing at all, whichever
    operation it was: errors, replays and "nothing to do" leave the three
    maps as they were.  A call that reports a new row added that one row. *)
Theorem refused_changes_nothing `{!HashIter string ProtLedgerEntry}
    (sha256_hex : string -> string) (new_id u o : string) (now : Z) (db : ProtDb)
    (p : ProtPosting) :
  (let '(db', r) := apply_prot_posting sha256_hex new_id db p in
   db' = db \/ exists e, r = Ok (Applied e) /\ prot_ledger db' = <[pe_key e := e]> (prot_ledger db)
     /\ prot_ledger db !! pe_key e = None) /\
  (let '(db', r) := sync_cipher_prot sha256_hex new_id u now db in
   db' = db \/ exists e, r = Ok (Posted (Applied e)) /\
     prot_ledger db' = <[pe_key e := e]> (prot_ledger db) /\ prot_ledger db !! pe_key e = None) /\
  (let '(db', r) := clawback_cipher_prot sha256_hex new_id u o now db in
   db' = db \/ exists e, r = Ok (Some (Applied e)) /\
     prot_ledger db' = <[pe_key e := e]> (prot_ledger db) /\ prot_ledger db !! pe_key e = None).
Proof.
  assert (forall db' p e, posts sha256_hex db db' p e ->
    prot_ledger db' = <[pe_key e := e]> (prot_ledger db) /\
    prot_ledger db !! pe_key e = None) as Hp.
  { intros db' p' e (_ & Heff & _). rewrite (eff_key _ _ _ _ _ _ Heff).
    split; [apply (eff_ledger _ _ _ _ _ _ Heff) | apply (eff_fresh _ _ _ _ _ _ Heff)]. }
  split_and!.
  - destruct (apply_prot_posting _ _ _ _) as [db' r] eqn:E.
    apply post_cases in E as [(-> & _)|(e & -> & ? & _)]; [by left | right; eauto].
  - destruct (sync_cipher_prot _ _ _ _ _) as [db' r] eqn:E.
    apply sync_cases in E as [(-> & _)|(m & b & p' & e & -> & ? & _)]; [by left | right; eauto].
  - destruct (clawback_cipher_prot _ _ _ _ _ _) as [db' r] eqn:E.
    apply clawback_cases in E as [(-> & _)|(m & b & p' & e & -> & ? & _)];
      [by left | right; eauto].
Qed.

(** ** Cipher syncs settle *)

Section Settle.
Context `{!HashIter string ProtLedgerEntry}.

Lemma membership_rows_insert l k e base :
  l !! k = None -> ref_membership_order_id (pe_reference e) = Some base ->
  membership_rows (<[k := e]> l) base ≡ₚ e :: membership_rows l base.
Proof.
  intros Hk Hb. unfold membership_rows. rewrite !sort_by_perm, !hm_values_perm.
  rewrite map_to_list_insert by done. simpl.
  by replace (is_some_str _ base) with true by (symmetry; by apply is_some_str_true).
Qed.

(** Writing a row for a membership moves what is posted for it by that
    row's contribution. *)
Lemma posted_after l k e base :
  l !! k = None -> ref_membership_order_id (pe_reference e) = Some base ->
  posted_fits (membership_rows (<[k := e]> l) base) ->
  cipher_prot_posted (membership_rows (<[k := e]> l) base) =
    cipher_prot_posted (membership_rows l base) + posted_delta e.
Proof.
  intros Hk Hb Hf. pose proof (membership_rows_insert l k e base Hk Hb) as Hp.
  rewrite (posted_exact _ Hf), (posted_exact (membership_rows l base)).
  - rewrite Hp. simpl. lia.
  - unfold posted_fits in *. rewrite Hp in Hf. simpl in Hf. lia.
Qed.
End Settle.

(** After a sync that posted, the membership is settled: what is posted for
    its current incarnation is exactly its target, and syncing again at any
    time finds nothing to do and changes nothing. *)
Theorem sync_settles `{!HashIter string ProtLedgerEntry} (sha256_hex : string -> string)
    (new_id u : string) (now : Z) (db db' : ProtDb) (e : ProtLedgerEntry) :
  sync_cipher_prot sha256_hex new_id u now db = (db', Ok (Posted (Applied e))) ->
  (forall m base, cipher_memberships db !! u = Some m -> cipher_base m = Some base ->
     posted_fits (membership_rows (prot_ledger db') base)) ->
  exists m base, cipher_memberships db !! u = Some m /\ cipher_base m = Some base /\
    is_active m = true /\ cm_disputed_orders m = [] /\
    cipher_prot_posted (membership_rows (prot_ledger db') base) = cm_prot_grant m /\
    balance_of (prot_accounts db') (prot_user_account u) =
      balance_of (prot_accounts db) (prot_user_account u) + pe_amount e /\
    forall id' now', sync_cipher_prot sha256_hex id' u now' db' = (db', Ok Nothing).
Proof.
  intros H Hfit. apply sync_cases in H
    as [(_ & Hno)|(m & base & p & e' & [= <-] & (Hv & Heff & _) & Hm & Hb & Hpl & Hms)];
    [by destruct (Hno e)|].
  unfold plan_cipher_sync in Hpl.
  destruct (negb (is_active m) || _ || _) eqn:Eg; [done|].
  rewrite !orb_false_iff, negb_false_iff in Eg. destruct Eg as [[Eact Edis] Elt].
  assert (cm_disputed_orders m = []) as Hd by (by destruct (cm_disputed_orders m)).
  set (posted := cipher_prot_posted (membership_rows (prot_ledger db) base)) in *.
  assert (pp_amount p = ProtAmount.Exact (cipher_prot_target m - posted) /\
    pp_credit p = prot_user_account u /\ pp_debit p = PROT_SYS_ISSUED /\
    ref_membership_order_id (pp_reference p) = Some base /\
    (pp_kind p = ProtEntryKind.CipherFounding \/ pp_kind p = ProtEntryKind.CipherUpgrade))
    as (Ea & Ec & Edb & Er & Ek) by (destruct (_ =? 0); simplify_eq/=; split_and!; auto).
  destruct (eff_resolved _ _ _ _ _ _ Heff) as (r & _ & Hr & Eamt & _).
  pose proof (rs_short _ _ _ Hr) as Hs. rewrite Ea in Hs. destruct Hs as [Hs _].
  rewrite <- (eff_ref _ _ _ _ _ _ Heff) in Er. rewrite <- (eff_kind _ _ _ _ _ _ Heff) in Ek.
  assert (cipher_prot_posted (membership_rows (prot_ledger db') base) = cipher_prot_target m)
    as Epost.
  { specialize (Hfit m base Hm Hb). rewrite (eff_ledger _ _ _ _ _ _ Heff) in Hfit |- *.
    rewrite posted_after by (done || apply (eff_fresh _ _ _ _ _ _ Heff)).
    unfold posted_delta. fold posted. destruct Ek as [-> | ->]; lia. }
  assert (cipher_prot_target m = cm_prot_grant m) as Et
    by (unfold cipher_prot_target; by rewrite Eact).
  exists m, base. split_and!; try done; [congruence| |].
  - rewrite (eff_balance _ _ _ _ _ _ Heff) by apply user_not_system, user_account_prefix.
    unfold entry_delta. rewrite (eff_credit _ _ _ _ _ _ Heff), (eff_debit _ _ _ _ _ _ Heff).
    rewrite Ec, Edb, str_eqb_refl. cbn [str_eqb]. simpl. lia.
  - intros id' now'. unfold sync_cipher_prot. rewrite Hms, lookup_insert_eq.
    change (cipher_base (set_version m (cm_version m + 1))) with (cipher_base m). rewrite Hb.
    unfold plan_cipher_sync.
    change (cipher_prot_target (set_version m (cm_version m + 1))) with (cipher_prot_target m).
    rewrite Epost, Z.leb_refl, orb_true_r, Z.ltb_irrefl. done.
Qed.

Definition sample_member_db : ProtDb :=
  mkProtDb {[ "01USER"%string := mkMembership "01USER" 42 T149 33000 ["01BASE"%string] [] 1000
                None None None 0 ]} ∅ ∅.

Definition sample_synced_db : ProtDb :=
  (sync_cipher_prot id "01A" "01USER" 2000 sample_member_db).1.

Lemma sync_settles_witness :
  sync_cipher_prot id "01B" "01USER" 3000 sample_synced_db = (sample_synced_db, Ok Nothing).
Proof.
  assert (exists e, sync_cipher_prot id "01A" "01USER" 2000 sample_member_db =
    (sample_synced_db, Ok (Posted (Applied e)))) as [e He] by (eexists; vm_compute; reflexivity).
  destruct (sync_settles id "01A" "01USER" 2000 sample_member_db sample_synced_db e He)
    as (m & base & _ & _ & _ & _ & _ & _ & H); [|exact (H "01B"%string 3000)].
  intros m base Hm Hb. vm_compute in Hm. injection Hm as <-. vm_compute in Hb.
  injection Hb as <-. vm_compute. discriminate.
Defined.

(** A clawback that wrote a row settles the membership down to its target,
    however little the wallet held: the wallet pays what it has, the row
    records the rest as shortfall, what is posted becomes the target, and
    running it again for the same order answers with that row. *)
Theorem clawback_settles `{!HashIter string ProtLedgerEntry} (sha256_hex : string -> string)
    (new_id u o : string) (now : Z) (db db' : ProtDb) (e : ProtLedgerEntry) :
  clawback_cipher_prot sha256_hex new_id u o now db = (db', Ok (Some (Applied e))) ->
  (forall m base, cipher_memberships db !! u = Some m -> cipher_base m = Some base ->
     posted_fits (membership_rows (prot_ledger db') base)) ->
  is_i64 (balance_of (prot_accounts db) (prot_user_account u)) ->
  exists m base n s, cipher_memberships db !! u = Some m /\ cipher_base m = Some base /\
    cipher_prot_posted (membership_rows (prot_ledger db) base) = cipher_prot_target m + n /\
    cipher_prot_posted (membership_rows (prot_ledger db') base) = cipher_prot_target m /\
    pe_requested e = Some n /\ pe_shortfall e = Some s /\ n = pe_amount e + s /\
    pe_amount e = Z.min n (Z.max (balance_of (prot_accounts db) (prot_user_account u)) 0) /\
    forall id' now', clawback_cipher_prot sha256_hex id' u o now' db' =
      (db', Ok (Some (AlreadyApplied e))).
Proof.
  intros H Hfit Hi. apply clawback_cases in H
    as [(_ & Hno)|(m & base & p & e' & [= <-] & (Hv & Heff & _) & Hm & Hb & Hpl & Hms)];
    [by destruct (Hno e)|].
  unfold plan_cipher_clawback in Hpl.
  set (posted := cipher_prot_posted (membership_rows (prot_ledger db) base)) in *.
  destruct (posted <=? cipher_prot_target m) eqn:Ele; [done|]. simplify_eq/=.
  pose proof (user_not_system _ (user_account_prefix u)) as Hsys.
  destruct (eff_resolved _ _ _ _ _ _ Heff) as (r & Hres & Hr & Eamt & Ereq & Esh).
  pose proof (rs_short _ _ _ Hr) as (Hq & Hsh & Hle & Hmin).
  assert (rs_available r = Z.max (balance_of (prot_accounts db) (prot_user_account u)) 0) as Eav.
  { unfold resolve_prot_amount in Hres.
    cbn [pp_debit pp_amount pp_debit_floor] in Hres. rewrite Hsys in Hres. cbv zeta in Hres.
    destruct (checked_add_i64 _ _); simpl in Hres; simplify_eq/=.
    unfold saturating_sub_i64. rewrite Z.sub_0_r, clamp_i64_id by done. done. }
  exists m, base, (posted - cipher_prot_target m), (posted - cipher_prot_target m - pe_amount e).
  split_and!; try done; try lia; try congruence.
  - specialize (Hfit m base Hm Hb). rewrite (eff_ledger _ _ _ _ _ _ Heff) in Hfit |- *.
    rewrite posted_after;
      [|apply (eff_fresh _ _ _ _ _ _ Heff) | by rewrite (eff_ref _ _ _ _ _ _ Heff) | done].
    unfold posted_delta. rewrite (eff_kind _ _ _ _ _ _ Heff), Ereq, Hq. simpl.
    fold posted. lia.
  - intros id' now'. unfold clawback_cipher_prot.
    rewrite (eff_ledger _ _ _ _ _ _ Heff). simpl. by rewrite lookup_insert_eq.
Qed.

(** The membership of [sample_member_db], revoked after its grant was posted
    and 20000 of it spent. *)
Definition sample_revoked_db : ProtDb :=
  mkProtDb {[ "01USER"%string := mkMembership "01USER" 42 T149 33000 ["01BASE"%string] [] 1000
                (Some 5000) (Some Refund) None 1 ]}
    (prot_ledger sample_synced_db)
    {[ "user:01USER"%string := mkAccount "user:01USER" Prot 13000 2 4000 ]}.

Lemma clawback_settles_witness :
  exists db' e s, clawback_cipher_prot id "01C" "01USER" "01BASE" 6000 sample_revoked_db =
    (db', Ok (Some (Applied e))) /\ pe_shortfall e = Some s /\ s = 20000.
Proof.
  set (db' := (clawback_cipher_prot id "01C" "01USER" "01BASE" 6000 sample_revoked_db).1).
  assert (exists e, clawback_cipher_prot id "01C" "01USER" "01BASE" 6000 sample_revoked_db =
    (db', Ok (Some (Applied e))) /\ pe_amount e = 13000 /\ pe_requested e = Some 33000)
    as (e & He & Ea & Er) by (eexists; split_and!; vm_compute; reflexivity).
  destruct (clawback_settles id "01C" "01USER" "01BASE" 6000 sample_revoked_db db' e He)
    as (m & base & n & s & _ & _ & _ & _ & Hn & Hs & Hsum & _).
  - intros m base Hm Hb. vm_compute in Hm. injection Hm as <-. vm_compute in Hb.
    injection Hb as <-. vm_compute. discriminate.
  - vm_compute. split; discriminate.
  - exists db', e, s. split_and!; [exact He | exact Hs|].
    rewrite Er in Hn. injection Hn as <-. lia.
Defined.

(** ** Forfeits *)

Lemma balance_range db x : books_wf db -> is_i64 (balance_of (prot_accounts db) x).
Proof.
  intros Hwf. unfold balance_of. destruct (prot_accounts db !! x) as [acc|] eqn:E; simpl.
  - by apply (bw_accounts _ Hwf) in E as [].
  - int_solve.
Qed.

(** A forfeit posting against a wallet that holds something always goes
    through. *)
Lemma forfeit_prepares new_id l a u n now h :
  l !! prot_key_forfeit u n = None ->
  is_i64 (balance_of a (prot_user_account u)) -> 0 < balance_of a (prot_user_account u) ->
  exists pr, prepare_locked new_id l a (forfeit_posting u n now) h = Ok (New pr) /\
    pe_amount (prep_entry pr) = balance_of a (prot_user_account u).
Proof.
  intros Hk Hi Hpos. unfold prepare_locked, resolve_prot_amount, side_balance.
  cbn [forfeit_posting pp_key pp_debit pp_credit pp_amount pp_debit_floor]. rewrite Hk.
  rewrite (user_not_system _ (user_account_prefix u)).
  replace (is_prot_system_account PROT_SYS_FORFEITED) with true by reflexivity.
  unfold saturating_sub_i64, checked_add_i64, checked_sub_i64.
  rewrite Z.sub_0_r, clamp_i64_id, Z.max_l, Z.add_0_l by (done || lia).
  replace (in_i64 (balance_of a (prot_user_account u))) with true
    by (symmetry; unfold in_i64; int_solve).
  simpl. rewrite Z.sub_diag. simpl. rewrite andb_false_r. eexists. split; reflexivity.
Qed.

Lemma forfeit_loop_applied {S} (pass : nat -> S -> S * Result ProtApplyOutcome) balance i k s s' e :
  pass i s = (s', Ok (Applied e)) ->
  forfeit_loop pass balance i (Datatypes.S k) s = (s', Ok (Some (Applied e))).
Proof. intros H. simpl. by rewrite H. Qed.

(** Forfeiting a wallet that holds something empties it in one pass: the row
    moves the whole balance to the forfeited side, every other account keeps
    its balance, and forfeiting again finds nothing.  The user id makes a
    valid key, and no row holds the next pass's key. *)
Theorem forfeit_empties_wallet `{!HashIter string ProtLedgerEntry}
    (sha256_hex : string -> string) (ids ids' : nat -> string) (u : string) (now now' : Z)
    (db : ProtDb) :
  let wallet := prot_user_account u in
  let posting := forfeit_posting u (forfeit_passes (prot_ledger db) wallet + 1) now in
  rtc (step sha256_hex (fun _ => True)) empty_db db ->
  0 < balance_of (prot_accounts db) wallet ->
  validate_prot_posting posting = Ok tt ->
  prot_ledger db !! pp_key posting = None ->
  exists db' e, forfeit_prot_wallet sha256_hex ids u now db = (db', Ok (Some (Applied e))) /\
    pe_debit e = wallet /\ pe_credit e = PROT_SYS_FORFEITED /\
    pe_amount e = balance_of (prot_accounts db) wallet /\
    balance_of (prot_accounts db') wallet = 0 /\
    (forall x, is_prot_system_account x = false -> x <> wallet ->
       balance_of (prot_accounts db') x = balance_of (prot_accounts db) x) /\
    forfeit_prot_wallet sha256_hex ids' u now' db' = (db', Ok None).
Proof.
  intros wallet posting Hr Hpos Hv Hk.
  assert (books_wf db) as Hwf
    by (eapply rtc_invariant; [apply ledger_step_wf | apply books_wf_empty | done]).
  pose proof (user_not_system _ (user_account_prefix u)) as Hsys.
  destruct (forfeit_prepares (ids 0%nat) (prot_ledger db) (prot_accounts db) u
    (forfeit_passes (prot_ledger db) wallet + 1) now (prot_payload_hash sha256_hex posting))
    as (pr & Hpr & Ea); [done | by apply balance_range | done|]. fold posting in Hpr.
  destruct (commit_locked (prot_ledger db) (prot_accounts db) pr) as [[l a] e] eqn:Ec.
  destruct (commit_effect _ _ _ _ _ _ _ _ _ (validate_spec _ Hv) Hpr Ec) as [Heff _].
  assert (pe_amount e = balance_of (prot_accounts db) wallet) as Eamt
    by (unfold commit_locked in Ec; by simplify_eq).
  assert (pe_debit e = wallet) as Ed by apply (eff_debit _ _ _ _ _ _ Heff).
  assert (pe_credit e = PROT_SYS_FORFEITED) as Ecr by apply (eff_credit _ _ _ _ _ _ Heff).
  assert (balance_of a wallet = 0) as E0.
  { rewrite (eff_balance _ _ _ _ _ _ Heff wallet Hsys). unfold entry_delta.
    rewrite Ed, Ecr, str_eqb_refl, Eamt.
    replace (str_eqb PROT_SYS_FORFEITED wallet) with false by reflexivity. lia. }
  exists (mkProtDb (cipher_memberships db) l a), e. split_and!; try done.
  - unfold forfeit_prot_wallet, run_forfeit_passes, fetch_prot_account.
    change (from_option pa_balance 0 (prot_accounts db !! prot_user_account u))
      with (balance_of (prot_accounts db) wallet).
    replace (balance_of (prot_accounts db) wallet <=? 0) with false by lia.
    apply forfeit_loop_applied. unfold prot_forfeit_pass, post.
    fold wallet. fold posting. rewrite Hv. cbv zeta. rewrite Hpr, Ec. reflexivity.
  - intros x Hx Hne. cbn [prot_accounts]. rewrite (eff_balance _ _ _ _ _ _ Heff x Hx).
    unfold entry_delta. rewrite Ed, Ecr.
    replace (str_eqb wallet x) with false by (symmetry; by apply str_eqb_neq).
    destruct (str_eqb PROT_SYS_FORFEITED x) eqn:E; [|lia].
    apply str_eqb_eq in E. subst x. done.
  - unfold forfeit_prot_wallet, run_forfeit_passes, fetch_prot_account. cbn [prot_accounts].
    change (from_option pa_balance 0 (a !! prot_user_account u)) with (balance_of a wallet).
    by rewrite E0.
Qed.

Lemma forfeit_empties_wallet_witness :
  exists db' e, forfeit_prot_wallet id (fun _ => "01B"%string) "01USER" 2000 sample_db =
    (db', Ok (Some (Applied e))) /\ balance_of (prot_accounts db') "user:01USER" = 0.
Proof.
  destruct (forfeit_empties_wallet id (fun _ => "01B"%string) (fun _ => "01C"%string)
    "01USER" 2000 3000 sample_db) as (db' & e & H & _ & _ & _ & H0 & _).
  - apply rtc_once. by constructor.
  - vm_compute. reflexivity.
  - vm_compute. reflexivity.
  - vm_compute. reflexivity.
  - exists db', e. split; [exact H | exact H0].
Defined.
