(* ===== verification/PaymentOrders.v ===== *)
(** * Payment orders (crates/core/database/src/models/payment_orders)

    The order document and the operations of the in-memory driver.  An order
    is worked on under a lease: [acquire] takes it and moves the version, and
    every later write is fenced on the version, the lease and the buyer the
    writer read.  Each operation is one step under the map's mutex. *)

From stdpp Require Import base numbers list gmap strings sorting.
From S2P Require Import Prelude Errors CipherMemberships.
Open Scope Z_scope.

Inductive Sku : Type :=
| CipherNew (tier : CipherTier)
| CipherUpgrade (from to : CipherTier)
| ProtPack (pack : string) (prot cents : Z)
| ProtExact (prot : Z).

Inductive PaymentProvider : Type := Stripe.

Module OrderState.
Inductive t : Type :=
| Creating | Pending | SessionFailed | Paid | Fulfilled | Expired | Refunded | Voided.
#[global] Instance eq_dec : EqDecision t.
Proof. solve_decision. Defined.
End OrderState.

Module VoidReason.
Inductive t : Type :=
| SoldOut | Stale | SalesClosed | DisputeOpen | AccountDeleted | AmountMismatch | Reversed
| ReleasePending | RegionUnavailable.
End VoidReason.

Module ReversalPending.
Inductive t : Type := Refund | DisputeLost.
End ReversalPending.

Record PaymentOrder : Type := mkOrder {
  po_id : string;
  po_user_id : option string;
  po_provider : PaymentProvider;
  po_sku : Sku;
  po_amount_cents : Z;
  po_currency : string;
  po_checkout_session_id : option string;
  po_checkout_url : option string;
  po_session_expires_at : option Z;
  po_payment_intent_id : option string;
  po_state : OrderState.t;
  po_void_reason : option VoidReason.t;
  po_region_blocked_country : option string;
  po_reversal_pending : option ReversalPending.t;
  po_refund_settling_since : option Z;
  po_open_disputes : list string;
  po_lease_until : option Z;
  po_version : Z;
  po_created_at : Z;
  po_paid_at : option Z;
  po_fulfilled_at : option Z;
  po_reversed_at : option Z;
}.

(** Field updates: lease and version, version, buyer *)
Definition with_meta (o : PaymentOrder) (user : option string) (lease : option Z) (version : Z)
    : PaymentOrder :=
  mkOrder (po_id o) user (po_provider o) (po_sku o) (po_amount_cents o) (po_currency o)
    (po_checkout_session_id o) (po_checkout_url o) (po_session_expires_at o)
    (po_payment_intent_id o) (po_state o) (po_void_reason o) (po_region_blocked_country o)
    (po_reversal_pending o) (po_refund_settling_since o) (po_open_disputes o) lease version
    (po_created_at o) (po_paid_at o) (po_fulfilled_at o) (po_reversed_at o).

Abbreviation Orders := (gmap string PaymentOrder).

Definition is_some {A} (o : option A) : bool := match o with Some _ => true | None => false end.

Definition lease_free (row : PaymentOrder) (now : Z) : bool :=
  match po_lease_until row with None => true | Some until => until <? now end.

Definition apply_limit (rows : list PaymentOrder) (limit : Z) : list PaymentOrder :=
  if limit =? 0 then rows else take (Z.to_nat (Z.abs limit)) rows.

(** By [created_at], then by id *)
Definition oldest_leb (a b : PaymentOrder) : bool :=
  (po_created_at a <? po_created_at b)
  || ((po_created_at a =? po_created_at b) && str_leb (po_id a) (po_id b)).

Definition sort_oldest_first (rows : list PaymentOrder) : list PaymentOrder :=
  sort_by oldest_leb rows.

Definition in_states (states : list OrderState.t) (row : PaymentOrder) : bool :=
  existsb (fun s => bool_decide (s = po_state row)) states.

Section Ops.
Context `{!HashIter string PaymentOrder}.

(** [a.is_some() && row == a] on an optional id *)
Definition id_clash (mine theirs : option string) : bool :=
  is_some mine && bool_decide (theirs = mine).

Definition provider_id_taken (orders : Orders) (o : PaymentOrder) : bool :=
  existsb (fun row =>
    negb (str_eqb (po_id row) (po_id o))
    && (id_clash (po_checkout_session_id o) (po_checkout_session_id row)
        || id_clash (po_payment_intent_id o) (po_payment_intent_id row))) (hm_values orders).

Definition insert_payment_order (orders : Orders) (o : PaymentOrder) : Orders * Result unit :=
  if is_some (orders !! po_id o) || provider_id_taken orders o
  then (orders, Err (create_database_error "insert" "payment_order"))
  else (<[po_id o := o]> orders, Ok tt).

Definition fetch_payment_order (orders : Orders) (id : string) : Result (option PaymentOrder) :=
  Ok (orders !! id).

Definition fetch_payment_order_by_session (orders : Orders) (session_id : string)
    : Result (option PaymentOrder) :=
  Ok (List.find (fun row => is_some_str (po_checkout_session_id row) session_id)
        (hm_values orders)).

Definition fetch_payment_order_by_intent (orders : Orders) (payment_intent_id : string)
    : Result (option PaymentOrder) :=
  Ok (List.find (fun row => is_some_str (po_payment_intent_id row) payment_intent_id)
        (hm_values orders)).

(** The listing every query below shares: filter, oldest first *)
Definition listing (orders : Orders) (p : PaymentOrder -> bool) : list PaymentOrder :=
  sort_oldest_first (List.filter p (hm_values orders)).

Definition fetch_payment_orders_by_user (orders : Orders) (user_id : string)
    (states : list OrderState.t) : Result (list PaymentOrder) :=
  Ok (listing orders (fun row => is_some_str (po_user_id row) user_id && in_states states row)).

Definition fetch_payment_orders_by_state (orders : Orders) (states : list OrderState.t)
    (before limit : Z) : Result (list PaymentOrder) :=
  Ok (apply_limit
        (listing orders (fun row => in_states states row && (po_created_at row <? before))) limit).

Definition fetch_payment_orders_reversal_pending (orders : Orders) (states : list OrderState.t)
    (now limit : Z) : Result (list PaymentOrder) :=
  Ok (apply_limit
        (listing orders (fun row => in_states states row && is_some (po_reversal_pending row)
                                    && lease_free row now)) limit).

Definition fetch_payment_orders_disputed (orders : Orders) (states : list OrderState.t)
    (now limit : Z) : Result (list PaymentOrder) :=
  Ok (apply_limit
        (listing orders (fun row => in_states states row
                                    && match po_open_disputes row with [] => false | _ => true end
                                    && lease_free row now)) limit).

Definition fetch_payment_orders_refund_settling (orders : Orders) (now limit : Z)
    : Result (list PaymentOrder) :=
  Ok (apply_limit
        (listing orders (fun row => is_some (po_refund_settling_since row)
                                    && is_some (po_payment_intent_id row)
                                    && lease_free row now)) limit).

Definition acquire_payment_order_lease (orders : Orders) (id : string) (now until : Z)
    : Orders * Result (option PaymentOrder) :=
  match orders !! id with
  | Some row =>
      if lease_free row now then
        match checked_add_u64 (po_version row) 1 with
        | None => (orders, Err (create_database_error "update" "payment_order"))
        | Some next =>
            let row' := with_meta row (po_user_id row) (Some until) next in
            (<[id := row']> orders, Ok (Some row'))
        end
      else (orders, Ok None)
  | None => (orders, Ok None)
  end.

Definition release_payment_order_lease (orders : Orders) (id : string) (until : Z)
    : Orders * Result unit :=
  match orders !! id with
  | Some row =>
      if bool_decide (po_lease_until row = Some until)
      then (<[id := with_meta row (po_user_id row) None (po_version row)]> orders, Ok tt)
      else (orders, Ok tt)
  | None => (orders, Ok tt)
  end.

(** The filter of the conditional replace *)
Definition update_matches (orders : Orders) (o : PaymentOrder) (expected : OrderState.t) : bool :=
  match orders !! po_id o with
  | Some row =>
      bool_decide (po_state row = expected) && (po_version row =? po_version o)
      && bool_decide (po_lease_until row = po_lease_until o)
      && bool_decide (po_user_id row = po_user_id o)
  | None => false
  end.

Definition update_payment_order_if_state (orders : Orders) (o : PaymentOrder)
    (expected : OrderState.t) : Orders * Result bool :=
  match checked_add_u64 (po_version o) 1 with
  | None => (orders, Err (create_database_error "replace" "payment_order"))
  | Some next =>
      if negb (update_matches orders o expected) then (orders, Ok false)
      else if provider_id_taken orders o
      then (orders, Err (create_database_error "replace" "payment_order"))
      else (<[po_id o := with_meta o (po_user_id o) (po_lease_until o) next]> orders, Ok true)
  end.

(** The [values_mut] loop: a failing row ends it, the rows already visited
    stay changed *)
Fixpoint unlink_loop (keys : list string) (orders : Orders) (user_id : string)
    : Orders * Result unit :=
  match keys with
  | [] => (orders, Ok tt)
  | k :: rest =>
      match orders !! k with
      | None => unlink_loop rest orders user_id
      | Some row =>
          if is_some_str (po_user_id row) user_id then
            match checked_add_u64 (po_version row) 1 with
            | None => (orders, Err (create_database_error "update" "payment_order"))
            | Some next =>
                unlink_loop rest (<[k := with_meta row None (po_lease_until row) next]> orders)
                  user_id
            end
          else unlink_loop rest orders user_id
      end
  end.

Definition unlink_payment_orders_by_user (orders : Orders) (user_id : string)
    : Orders * Result unit := unlink_loop (hm_keys orders) orders user_id.

(** One writing operation of the driver *)
Inductive step : Orders -> Orders -> Prop :=
| step_insert os o : step os (insert_payment_order os o).1
| step_acquire os id now until : step os (acquire_payment_order_lease os id now until).1
| step_release os id until : step os (release_payment_order_lease os id until).1
| step_update os o expected : step os (update_payment_order_if_state os o expected).1
| step_unlink os u : step os (unlink_payment_orders_by_user os u).1.
End Ops.

(** ** How an order evolves *)

(** The lease given up, nothing else touched. *)
Definition released (o : PaymentOrder) : PaymentOrder :=
  with_meta o (po_user_id o) None (po_version o).

(** What any later copy of an order can be: its version never goes down; at
    the same version it is the same order, or that order with its lease
    released; and its buyer is the same or gone. *)
Definition evolves (row row' : PaymentOrder) : Prop :=
  po_version row <= po_version row' /\
  (po_version row' = po_version row -> row' = row \/ row' = released row) /\
  (po_user_id row' = po_user_id row \/ po_user_id row' = None).

Definition orders_evolve (os os' : Orders) : Prop :=
  forall id row, os !! id = Some row -> exists row', os' !! id = Some row' /\ evolves row row'.

Lemma evolves_refl row : evolves row row.
Proof. split_and!; auto. lia. Qed.

Lemma evolves_trans a b c : evolves a b -> evolves b c -> evolves a c.
Proof.
  intros (V1 & S1 & U1) (V2 & S2 & U2). split_and!; [lia | |].
  - intros E. destruct S2 as [-> | ->]; [lia | |]; destruct S1 as [-> | ->]; auto; simpl in *; lia.
  - destruct U2 as [-> | ->]; auto.
Qed.

Lemma evolves_bump row row' :
  po_version row' = po_version row + 1 ->
  po_user_id row' = po_user_id row \/ po_user_id row' = None -> evolves row row'.
Proof. intros E U. split_and!; [lia | lia | done]. Qed.

#[export] Instance orders_evolve_preorder : PreOrder orders_evolve.
Proof.
  split.
  - intros os id row H. eauto using evolves_refl.
  - intros a b c H1 H2 id row Hr. destruct (H1 _ _ Hr) as (r1 & Hr1 & E1).
    destruct (H2 _ _ Hr1) as (r2 & Hr2 & E2). eauto using evolves_trans.
Qed.

Lemma orders_evolve_insert os id row row' :
  os !! id = Some row -> evolves row row' -> orders_evolve os (<[id := row']> os).
Proof.
  intros Hr He k r Hk. rewrite lookup_insert. case_decide; [|eauto using evolves_refl].
  subst. simplify_eq. eauto.
Qed.

Section Facts.
Context `{!HashIter string PaymentOrder}.

Lemma unlink_loop_evolves keys : forall os u, orders_evolve os (unlink_loop keys os u).1.
Proof.
  induction keys as [|k keys IH]; intros os u; simpl; [reflexivity|].
  destruct (os !! k) as [row|] eqn:Ek; [|apply IH].
  destruct (is_some_str _ u); [|apply IH].
  destruct (checked_add_u64 _ 1) as [next|] eqn:Ea; [|simpl; reflexivity].
  apply checked_add_u64_Some in Ea as [-> _].
  etrans; [|apply IH]. eapply orders_evolve_insert; [done|]. apply evolves_bump; simpl; auto.
Qed.

Lemma step_evolves os os' : step os os' -> orders_evolve os os'.
Proof.
  intros Hs. destruct Hs.
  - unfold insert_payment_order. case_match eqn:E; simpl; [reflexivity|].
    intros id row Hr. rewrite lookup_insert_ne; [eauto using evolves_refl|].
    intros <-. rewrite Hr in E. done.
  - unfold acquire_payment_order_lease. destruct (os !! id) as [row|] eqn:Er; [|simpl; reflexivity].
    destruct (lease_free row now); [|simpl; reflexivity].
    destruct (checked_add_u64 _ 1) as [next|] eqn:Ea; [|simpl; reflexivity].
    apply checked_add_u64_Some in Ea as [-> _].
    eapply orders_evolve_insert; [done|]. apply evolves_bump; simpl; auto.
  - unfold release_payment_order_lease. destruct (os !! id) as [row|] eqn:Er; [|simpl; reflexivity].
    case_match; simpl; [|reflexivity]. eapply orders_evolve_insert; [done|].
    split_and!; simpl; auto. lia.
  - unfold update_payment_order_if_state.
    destruct (checked_add_u64 _ 1) as [next|] eqn:Ea; [|simpl; reflexivity].
    apply checked_add_u64_Some in Ea as [-> _].
    destruct (update_matches os o expected) eqn:Em; simpl; [|reflexivity].
    destruct (provider_id_taken os o); simpl; [reflexivity|]. unfold update_matches in Em.
    destruct (os !! po_id o) as [row|] eqn:Er; [|done].
    rewrite !andb_true_iff, !bool_decide_eq_true in Em. destruct_and!.
    eapply orders_evolve_insert; [done|]. apply evolves_bump; simpl; [lia | left; congruence].
  - apply unlink_loop_evolves.
Qed.

Lemma steps_evolve os os' : rtc step os os' -> orders_evolve os os'.
Proof.
  induction 1 as [|a b c Hab _ IH]; [reflexivity|]. etrans; [by apply step_evolves | done].
Qed.

(** A copy older than the stored order cannot write. *)
Lemma stale_update os o expected row :
  os !! po_id o = Some row -> po_version row <> po_version o -> po_version o < u64_max ->
  update_payment_order_if_state os o expected = (os, Ok false).
Proof.
  intros Hr Hv Hm. unfold update_payment_order_if_state, update_matches, checked_add_u64.
  replace (po_version o + 1 <=? u64_max) with true by lia. rewrite Hr.
  replace (po_version row =? po_version o) with false by lia.
  by rewrite andb_false_r.
Qed.
End Facts.

(** ** Well-formedness *)

Record orders_wf (os : Orders) : Prop := {
  ow_key : forall k o, os !! k = Some o -> po_id o = k;
  ow_session : forall k1 k2 o1 o2 s, os !! k1 = Some o1 -> os !! k2 = Some o2 ->
    po_checkout_session_id o1 = Some s -> po_checkout_session_id o2 = Some s -> k1 = k2;
  ow_intent : forall k1 k2 o1 o2 s, os !! k1 = Some o1 -> os !! k2 = Some o2 ->
    po_payment_intent_id o1 = Some s -> po_payment_intent_id o2 = Some s -> k1 = k2;
}.

Lemma orders_wf_empty : orders_wf ∅.
Proof. split; intros; simplify_map_eq. Qed.

(** A rewrite of an order that keeps its provider ids. *)
Lemma orders_wf_meta os k row u l v :
  orders_wf os -> os !! k = Some row -> orders_wf (<[k := with_meta row u l v]> os).
Proof.
  intros [Hk Hs Hi] Hr. split.
  - intros j o. rewrite lookup_insert. case_decide; intros; simplify_eq; simpl; eauto.
  - intros j1 j2 o1 o2 s. rewrite !lookup_insert.
    repeat case_decide; intros; simplify_eq; simpl in *; eauto.
  - intros j1 j2 o1 o2 s. rewrite !lookup_insert.
    repeat case_decide; intros; simplify_eq; simpl in *; eauto.
Qed.

Lemma id_clash_true s t : id_clash (Some s) t = true <-> t = Some s.
Proof. unfold id_clash. simpl. apply bool_decide_eq_true. Qed.

Section WfFacts.
Context `{!HashIter string PaymentOrder}.

Lemma provider_free os o k row :
  provider_id_taken os o = false -> os !! k = Some row -> po_id row <> po_id o ->
  (forall s, po_checkout_session_id o = Some s -> po_checkout_session_id row <> Some s) /\
  (forall s, po_payment_intent_id o = Some s -> po_payment_intent_id row <> Some s).
Proof.
  intros Hf Hr Hne. unfold provider_id_taken in Hf. rewrite hm_any_false in Hf.
  specialize (Hf k row Hr). apply str_eqb_neq in Hne. rewrite Hne in Hf. simpl in Hf.
  apply orb_false_iff in Hf as [H1 H2].
  split; intros s Es Ek; apply id_clash_true in Ek; rewrite Es in *; congruence.
Qed.

Lemma orders_wf_write os o o' :
  orders_wf os -> provider_id_taken os o = false ->
  po_id o' = po_id o -> po_checkout_session_id o' = po_checkout_session_id o ->
  po_payment_intent_id o' = po_payment_intent_id o ->
  orders_wf (<[po_id o := o']> os).
Proof.
  intros [Hk Hs Hi] Hf E1 E2 E3.
  assert (forall k row, os !! k = Some row -> k <> po_id o ->
    (forall s, po_checkout_session_id o' = Some s -> po_checkout_session_id row <> Some s) /\
    (forall s, po_payment_intent_id o' = Some s -> po_payment_intent_id row <> Some s)) as Hfree.
  { intros k row Hr Hne. rewrite E2, E3. eapply provider_free; eauto.
    rewrite (Hk _ _ Hr). done. }
  split.
  - intros j r. rewrite lookup_insert. case_decide; intros; simplify_eq; eauto.
  - intros j1 j2 o1 o2 s. rewrite !lookup_insert. repeat case_decide; intros; simplify_eq; eauto;
      exfalso; [eapply (proj1 (Hfree j2 _ ltac:(done) ltac:(done)))
               | eapply (proj1 (Hfree j1 _ ltac:(done) ltac:(done)))]; done.
  - intros j1 j2 o1 o2 s. rewrite !lookup_insert. repeat case_decide; intros; simplify_eq; eauto;
      exfalso; [eapply (proj2 (Hfree j2 _ ltac:(done) ltac:(done)))
               | eapply (proj2 (Hfree j1 _ ltac:(done) ltac:(done)))]; done.
Qed.

Lemma unlink_loop_wf keys : forall os u, orders_wf os -> orders_wf (unlink_loop keys os u).1.
Proof.
  induction keys as [|k keys IH]; intros os u Hwf; simpl; [done|].
  repeat case_match; eauto using orders_wf_meta.
Qed.

Lemma order_step_wf os os' : step os os' -> orders_wf os -> orders_wf os'.
Proof.
  intros Hs Hwf. destruct Hs.
  - unfold insert_payment_order. case_match eqn:E; simpl; [done|].
    apply orb_false_iff in E as [_ E]. by apply orders_wf_write.
  - unfold acquire_payment_order_lease. repeat case_match; simpl; eauto using orders_wf_meta.
  - unfold release_payment_order_lease. repeat case_match; simpl; eauto using orders_wf_meta.
  - unfold update_payment_order_if_state. repeat case_match; simpl; try done.
    by apply orders_wf_write.
  - by apply unlink_loop_wf.
Qed.
End WfFacts.

(** ** Listings *)

Lemma oldest_total x y : oldest_leb x y = true \/ oldest_leb y x = true.
Proof.
  unfold oldest_leb. destruct (str_leb_total (po_id x) (po_id y)) as [-> | ->];
    rewrite ?andb_true_r, !orb_true_iff, ?andb_true_iff; lia.
Qed.

Lemma oldest_trans x y z : oldest_leb x y = true -> oldest_leb y z = true -> oldest_leb x z = true.
Proof.
  unfold oldest_leb. rewrite !orb_true_iff, !andb_true_iff, !Z.ltb_lt, !Z.eqb_eq.
  intros [?|[? ?]] [?|[? ?]]; [left; lia.. | right].
  split; [lia | by eapply str_leb_trans].
Qed.

(** With orders stored under their ids, a listing is one list however the map
    is walked. *)
Lemma listing_unique (i1 i2 : HashIter string PaymentOrder) os p :
  orders_wf os -> @listing i1 os p = @listing i2 os p.
Proof.
  intros Hwf. unfold listing, sort_oldest_first. apply sort_by_unique;
    [apply oldest_total | apply oldest_trans | by rewrite !hm_values_perm |].
  intros x y [_ [kx Hx]%elem_of_hm_values]%elem_of_filter_bool
    [_ [ky Hy]%elem_of_hm_values]%elem_of_filter_bool H1 H2.
  unfold oldest_leb in *. rewrite !orb_true_iff, !andb_true_iff, !Z.ltb_lt, !Z.eqb_eq in *.
  assert (po_id x = po_id y) as E.
  { destruct H1 as [?|[? ?]], H2 as [?|[? ?]]; try lia. by apply str_leb_antisym. }
  apply (ow_key _ Hwf) in Hx as Ex. apply (ow_key _ Hwf) in Hy as Ey. congruence.
Qed.

(** ** Theorems *)

(** In every collection the driver can reach, a checkout session and a
    payment intent each belong to at most one order, which is the one found
    for it however the map is walked. *)
Theorem provider_ids_unique (i1 i2 : HashIter string PaymentOrder)
    (os : Orders) (k : string) (o : PaymentOrder) :
  rtc (@step i1) ∅ os -> os !! k = Some o ->
  po_id o = k /\
  (forall s, po_checkout_session_id o = Some s ->
     @fetch_payment_order_by_session i2 os s = Ok (Some o)) /\
  (forall s, po_payment_intent_id o = Some s ->
     @fetch_payment_order_by_intent i2 os s = Ok (Some o)).
Proof.
  intros Hr Hk.
  assert (orders_wf os) as Hwf
    by (eapply rtc_invariant; [exact (@order_step_wf i1) | apply orders_wf_empty | done]).
  split_and!; [by eapply ow_key | |]; intros s Hs;
    unfold fetch_payment_order_by_session, fetch_payment_order_by_intent; f_equal;
    (eapply hm_find_unique; [done | by apply is_some_str_true |]);
    intros k' o' Hk' E; apply is_some_str_true in E.
  - assert (k' = k) as -> by (by eapply (ow_session _ Hwf)). congruence.
  - assert (k' = k) as -> by (by eapply (ow_intent _ Hwf)). congruence.
Qed.

Definition sample_order (id : string) (session : option string) (t : Z) : PaymentOrder :=
  mkOrder id (Some "01USER"%string) Stripe (ProtExact 500) 500 "usd" session None None None
    OrderState.Pending None None None None [] None 0 t None None None.

Lemma provider_ids_unique_witness :
  exists os, rtc step ∅ os /\
    fetch_payment_order_by_session os "cs_1" = Ok (Some (sample_order "01A" (Some "cs_1"%string) 5)).
Proof.
  assert (rtc step ∅ (insert_payment_order ∅ (sample_order "01A" (Some "cs_1"%string) 5)).1) as Hr
    by (apply rtc_once; constructor).
  eexists. split; [exact Hr|].
  destruct (provider_ids_unique _ _ _ "01A" (sample_order "01A" (Some "cs_1"%string) 5) Hr eq_refl)
    as (_ & H & _). apply H. reflexivity.
Defined.

(** Fencing: once a second worker has taken over an order's lease, whatever
    else happens in between and after, the first worker's copy can never be
    written: every conditional write carrying its version is refused and
    changes nothing.  Giving its own lease up is a no-op too while the second
    worker holds it. *)
Theorem lease_takeover_fences `{!HashIter string PaymentOrder}
    (os os1 os2 os3 os4 : Orders) (id : string) (now1 until1 now2 until2 : Z)
    (a b o : PaymentOrder) (expected : OrderState.t) :
  acquire_payment_order_lease os id now1 until1 = (os1, Ok (Some a)) ->
  rtc step os1 os2 ->
  acquire_payment_order_lease os2 id now2 until2 = (os3, Ok (Some b)) ->
  rtc step os3 os4 ->
  po_id o = id -> po_version o = po_version a -> po_version a < u64_max ->
  update_payment_order_if_state os4 o expected = (os4, Ok false) /\
  (until1 <> until2 -> release_payment_order_lease os3 id until1 = (os3, Ok tt)).
Proof.
  intros HA H12 HB H34 Hid Hv Hm.
  unfold acquire_payment_order_lease in HA, HB. inv_op HA. inv_op HB.
  match goal with H : checked_add_u64 (po_version ?r) 1 = Some _, H' : os !! _ = Some ?r |- _ =>
    apply checked_add_u64_Some in H as [-> _] end.
  match goal with H : checked_add_u64 (po_version ?r) 1 = Some _, H' : os2 !! _ = Some ?r |- _ =>
    apply checked_add_u64_Some in H as [-> _] end.
  split.
  - destruct (steps_evolve _ _ H12 (po_id o) _ ltac:(apply lookup_insert_eq))
      as (r2 & Hr2 & (V12 & _)). simplify_eq. simpl in *.
    destruct (steps_evolve _ _ H34 (po_id o) _ ltac:(apply lookup_insert_eq))
      as (r4 & Hr4 & (V34 & _)). simpl in *.
    eapply stale_update; [done | lia | lia].
  - intros Hne. unfold release_payment_order_lease. rewrite lookup_insert_eq. simpl.
    rewrite bool_decide_false; [done|]. congruence.
Qed.

Lemma lease_takeover_fences_witness :
  let os := (insert_payment_order ∅ (sample_order "01A" None 5)).1 in
  exists os1 a os3 b,
    acquire_payment_order_lease os "01A" 10 20 = (os1, Ok (Some a)) /\
    acquire_payment_order_lease os1 "01A" 21 31 = (os3, Ok (Some b)) /\
    update_payment_order_if_state os3 a OrderState.Pending = (os3, Ok false).
Proof.
  cbv zeta. set (os := (insert_payment_order ∅ (sample_order "01A" None 5)).1).
  set (os1 := (acquire_payment_order_lease os "01A" 10 20).1).
  set (os3 := (acquire_payment_order_lease os1 "01A" 21 31).1).
  assert (exists a, acquire_payment_order_lease os "01A" 10 20 = (os1, Ok (Some a)) /\
    po_id a = "01A"%string /\ po_version a = 1) as (a & Ha & Hid & Hv)
    by (eexists; split_and!; reflexivity).
  assert (exists b, acquire_payment_order_lease os1 "01A" 21 31 = (os3, Ok (Some b)))
    as (b & Hb) by (eexists; reflexivity).
  exists os1, a, os3, b. split_and!; [exact Ha | exact Hb |].
  apply (lease_takeover_fences os os1 os1 os3 os3 "01A" 10 20 21 31 a b a OrderState.Pending
           Ha (rtc_refl _ _) Hb (rtc_refl _ _) Hid eq_refl).
  rewrite Hv. vm_compute. reflexivity.
Defined.

(** Mutual exclusion: while a lease has not run out, no one else can take
    it and the attempt changes nothing, and its holder's own write goes
    through as long as the order is in the expected state and its provider
    ids are free, keeping the lease. *)
Theorem lease_excludes `{!HashIter string PaymentOrder}
    (os os1 : Orders) (id : string) (now until now' until' : Z) (a o : PaymentOrder) :
  acquire_payment_order_lease os id now until = (os1, Ok (Some a)) ->
  orders_wf os ->
  now' <= until ->
  acquire_payment_order_lease os1 id now' until' = (os1, Ok None) /\
  (po_id o = id -> po_version o = po_version a -> po_lease_until o = po_lease_until a ->
   po_user_id o = po_user_id a -> po_version a < u64_max ->
   provider_id_taken os1 o = false ->
   update_payment_order_if_state os1 o (po_state a) =
     (<[id := with_meta o (po_user_id o) (Some until) (po_version a + 1)]> os1, Ok true)).
Proof.
  intros HA Hwf Hle. unfold acquire_payment_order_lease in HA. inv_op HA.
  match goal with H : checked_add_u64 _ _ = Some _ |- _ =>
    apply checked_add_u64_Some in H as [-> ?] end.
  split.
  - unfold acquire_payment_order_lease. rewrite lookup_insert_eq.
    unfold lease_free. simpl. by replace (until <? now') with false by lia.
  - intros Hid Hv Hl Hu Hm Hp. unfold update_payment_order_if_state, checked_add_u64.
    replace (po_version o + 1 <=? u64_max) with true by lia.
    unfold update_matches. rewrite Hid, lookup_insert_eq, Hv, Hl, Hu, Z.eqb_refl.
    rewrite !bool_decide_true by done. simpl. by rewrite Hp.
Qed.

Lemma lease_excludes_witness :
  let os := (insert_payment_order ∅ (sample_order "01A" None 5)).1 in
  (acquire_payment_order_lease (acquire_payment_order_lease os "01A" 10 20).1 "01A" 20 40).2 =
    Ok None.
Proof.
  cbv zeta. set (os := (insert_payment_order ∅ (sample_order "01A" None 5)).1).
  assert (exists a, acquire_payment_order_lease os "01A" 10 20 =
    ((acquire_payment_order_lease os "01A" 10 20).1, Ok (Some a))) as (a & Ha)
    by (eexists; reflexivity).
  destruct (lease_excludes os _ "01A" 10 20 20 40 a a Ha) as [-> _]; [| lia | reflexivity].
  exact (order_step_wf _ _ (step_insert _ _) orders_wf_empty).
Defined.

Lemma unlink_loop_absent keys id u : forall os os',
  unlink_loop keys os u = (os', Ok tt) -> os !! id = None -> os' !! id = None.
Proof.
  induction keys as [|x keys IH]; intros os os' H Hn; simpl in *; [congruence|].
  destruct (os !! x) eqn:Ex; [|eauto]. destruct (is_some_str _ u); [|eauto].
  destruct (checked_add_u64 _ 1); [|done]. eapply IH; [exact H|].
  rewrite lookup_insert_ne; [done | congruence].
Qed.

(** A row past the loop keeps a missing buyer. *)
Lemma unlink_loop_keeps keys id u os os' r' :
  unlink_loop keys os u = (os', Ok tt) -> os' !! id = Some r' ->
  (forall r, os !! id = Some r -> po_user_id r <> Some u) -> po_user_id r' <> Some u.
Proof.
  intros H Hr' Hno. destruct (os !! id) as [r|] eqn:Er.
  - pose proof (unlink_loop_evolves keys os u) as Hev. rewrite H in Hev.
    destruct (Hev _ _ Er) as (r2 & Hr2 & (_ & _ & U)). simpl in Hr2. simplify_eq.
    specialize (Hno r eq_refl). destruct U as [U|U]; congruence.
  - rewrite (unlink_loop_absent _ _ _ _ _ H Er) in Hr'. done.
Qed.

Lemma unlink_loop_clears keys id u : forall os os' r',
  unlink_loop keys os u = (os', Ok tt) -> os' !! id = Some r' -> id ∈ keys ->
  po_user_id r' <> Some u.
Proof.
  induction keys as [|k keys IH]; intros os os' r' H Hr' Hin; simpl in *;
    [by apply not_elem_of_nil in Hin|].
  apply elem_of_cons in Hin as [<-|Hin].
  - destruct (os !! id) as [r|] eqn:Er.
    + destruct (is_some_str (po_user_id r) u) eqn:Eu.
      * destruct (checked_add_u64 _ 1); [|done]. eapply unlink_loop_keeps; [exact H | done|].
        intros r2. rewrite lookup_insert_eq. by intros [= <-].
      * eapply unlink_loop_keeps; [exact H | done|]. intros r2 Hr2. simplify_eq.
        by apply is_some_str_false.
    + eapply unlink_loop_keeps; [exact H | done|]. congruence.
  - repeat case_match; try done; by eapply IH.
Qed.

(** Account deletion sticks: an unlink that succeeds leaves no order with the
    buyer, and no later sequence of operations puts the buyer of an existing
    order back: an order without a buyer never gets one. *)
Theorem unlink_sticks `{!HashIter string PaymentOrder}
    (os os1 os2 : Orders) (u id : string) (row : PaymentOrder) :
  unlink_payment_orders_by_user os u = (os1, Ok tt) ->
  rtc step os1 os2 ->
  os !! id = Some row ->
  exists row2, os2 !! id = Some row2 /\
    (po_user_id row = Some u -> po_user_id row2 = None) /\
    (po_user_id row2 = po_user_id row \/ po_user_id row2 = None).
Proof.
  intros H Hr Hrow.
  pose proof (unlink_loop_evolves (hm_keys os) os u) as Hev.
  unfold unlink_payment_orders_by_user in H. rewrite H in Hev. simpl in Hev.
  destruct (Hev _ _ Hrow) as (r1 & Hr1 & (_ & _ & U1)).
  destruct (steps_evolve _ _ Hr _ _ Hr1) as (r2 & Hr2 & (_ & _ & U2)).
  exists r2. split; [done|]. split.
  - intros Eu. assert (po_user_id r1 <> Some u) as Hn.
    { eapply unlink_loop_clears; [exact H | exact Hr1 |]. apply elem_of_hm_keys. eauto. }
    destruct U2 as [-> | ->]; [|done]. destruct U1; congruence.
  - destruct U2 as [-> | ->]; auto.
Qed.

Lemma unlink_sticks_witness :
  exists os1 row2, unlink_payment_orders_by_user
      (insert_payment_order ∅ (sample_order "01A" None 5)).1 "01USER" = (os1, Ok tt) /\
    (acquire_payment_order_lease os1 "01A" 10 20).1 !! "01A"%string = Some row2 /\
    po_user_id row2 = None.
Proof.
  set (os := (insert_payment_order ∅ (sample_order "01A" None 5)).1).
  set (os1 := (unlink_payment_orders_by_user os "01USER").1).
  assert (unlink_payment_orders_by_user os "01USER" = (os1, Ok tt)) as H by reflexivity.
  destruct (unlink_sticks os os1 (acquire_payment_order_lease os1 "01A" 10 20).1 "01USER" "01A"
    (sample_order "01A" None 5) H) as (row2 & Hr & Hu & _).
  - apply rtc_once. constructor.
  - reflexivity.
  - exists os1, row2. split_and!; [exact H | exact Hr | apply Hu; reflexivity].
Defined.

(** The sweep queries return the oldest matching orders: the rows by state
    are a prefix of the one sorted list of all matches, of the requested
    length (all of them for a zero limit), whatever order the map is walked
    in, so nothing older is skipped in favour of something newer. *)
Theorem orders_by_state_oldest_first (i1 i2 : HashIter string PaymentOrder)
    (os : Orders) (states : list OrderState.t) (before limit : Z) :
  rtc (@step i1) ∅ os ->
  exists all rows rest,
    @fetch_payment_orders_by_state i1 os states before limit = Ok rows /\
    @fetch_payment_orders_by_state i2 os states before limit = Ok rows /\
    all = rows ++ rest /\
    StronglySorted (fun a b => oldest_leb a b = true) all /\
    (forall o, o ∈ all <-> (exists k, os !! k = Some o) /\ in_states states o = true /\
       po_created_at o < before) /\
    (limit = 0 -> rest = []) /\
    (limit <> 0 -> length rows = Nat.min (Z.to_nat (Z.abs limit)) (length all)).
Proof.
  intros Hr.
  assert (orders_wf os) as Hwf
    by (eapply rtc_invariant; [exact (@order_step_wf i1) | apply orders_wf_empty | done]).
  set (p := fun row => in_states states row && (po_created_at row <? before)).
  exists (@listing i1 os p), (apply_limit (@listing i1 os p) limit),
    (if limit =? 0 then [] else drop (Z.to_nat (Z.abs limit)) (@listing i1 os p)).
  split_and!.
  - done.
  - unfold fetch_payment_orders_by_state. fold p. by rewrite (listing_unique i2 i1).
  - unfold apply_limit. case_match; [by rewrite app_nil_r | by rewrite take_drop].
  - apply sort_by_sorted; [apply oldest_total | apply oldest_trans].
  - intros o. unfold listing, sort_oldest_first.
    rewrite elem_of_sort_by, elem_of_filter_bool, elem_of_hm_values.
    unfold p. rewrite andb_true_iff, Z.ltb_lt. tauto.
  - intros ->. done.
  - intros Hl. unfold apply_limit. replace (limit =? 0) with false by lia. apply length_take.
Qed.

Lemma orders_by_state_oldest_first_witness :
  let os := (insert_payment_order (insert_payment_order ∅ (sample_order "01B" None 7)).1
               (sample_order "01A" None 5)).1 in
  exists rows, fetch_payment_orders_by_state os [OrderState.Pending] 100 1 = Ok rows /\
    length rows = 1%nat.
Proof.
  cbv zeta.
  destruct (orders_by_state_oldest_first (canonical_iter string PaymentOrder) (canonical_iter _ _)
    (insert_payment_order (insert_payment_order ∅ (sample_order "01B" None 7)).1
       (sample_order "01A" None 5)).1 [OrderState.Pending] 100 1)
    as (all & rows & rest & H & _ & _ & _ & _ & _ & Hlen).
  - eapply rtc_l; [|apply rtc_once]; constructor.
  - exists rows. split; [exact H|]. vm_compute in H. by injection H as <-.
Defined.
