(* ===== verification/Catalog.v ===== *)
(** * The price catalog and the Prot sale settings (crates/core/payments)

    catalog.rs: Cipher tiers, their prices and upgrades, Prot packs and
    pay-exact amounts; and the part of settings.rs that checks the Prot
    configuration before anything is sold from it. *)

From Stdlib Require Import Sorted.
From stdpp Require Import base numbers list gmap strings pretty.
From S2P Require Import Prelude Text Errors CipherMemberships PaymentOrders.
Open Scope Z_scope.

(** ** Tiers *)

Definition CIPHER_CAP_MAX : Z := 1000.

Definition tier_cents (t : CipherTier) : Z :=
  match t with T99 => 9900 | T149 => 14900 | T299 => 29900 end.

Definition tier_prot (t : CipherTier) : Z :=
  match t with T99 => 16500 | T149 => 33000 | T299 => 75000 end.

Definition tier_rank (t : CipherTier) : Z := match t with T99 => 1 | T149 => 2 | T299 => 3 end.

Definition tier_label (t : CipherTier) : string :=
  match t with T99 => "$99" | T149 => "$149" | T299 => "$299" end.

Definition prot_cents (cents : Z) : Result Z :=
  if cents <=? 0 then Err ErrorType.ProtPackInvalid else Ok cents.

Definition sku_cents (s : Sku) : Result Z :=
  match s with
  | ProtPack _ _ cents => prot_cents cents
  | ProtExact prot => prot_cents prot
  | CipherNew tier =>
      if tier_cents tier <=? 0 then Err ErrorType.CipherTierInvalid else Ok (tier_cents tier)
  | CipherUpgrade from to =>
      let cents := tier_cents to - tier_cents from in
      if cents <=? 0 then Err ErrorType.CipherTierInvalid else Ok cents
  end.

(** [digits.chars().enumerate()] of [prot_label], [len] the length of the
    whole digit string *)
Fixpoint group_digits (len i : nat) (digits : string) : string :=
  match digits with
  | EmptyString => EmptyString
  | String d rest =>
      let tail := String d (group_digits len (S i) rest) in
      if (0 <? i)%nat && ((len - i) mod 3 =? 0)%nat
      then String (Ascii.ascii_of_nat 44) tail else tail
  end.

Definition prot_label (prot : Z) : string :=
  let digits := pretty (Z.abs prot) in
  (if prot <? 0 then "-" else "") +:+ group_digits (String.length digits) 0 digits.

Definition sku_product_name (s : Sku) : string :=
  match s with
  | CipherNew tier => "Cipher founding supporter (" +:+ tier_label tier +:+ ")"
  | CipherUpgrade from to =>
      "Cipher upgrade (" +:+ tier_label from +:+ " to " +:+ tier_label to +:+ ")"
  | ProtPack _ prot _ | ProtExact prot => prot_label prot +:+ " Prot"
  end.

Definition sku_prot (s : Sku) : option Z :=
  match s with
  | CipherNew _ | CipherUpgrade _ _ => None
  | ProtPack _ prot _ | ProtExact prot => Some prot
  end.

Definition quote (current : option CipherTier) (wanted : CipherTier) : Result Sku :=
  match current with
  | None => Ok (CipherNew wanted)
  | Some from =>
      if tier_rank from <? tier_rank wanted then Ok (CipherUpgrade from wanted)
      else Err ErrorType.CipherTierInvalid
  end.

(** ** What the checkout page shows for a SKU *)

Inductive ProductFamily : Type := FamilyCipher | FamilyProt.
#[global] Instance product_family_eq_dec : EqDecision ProductFamily.
Proof. solve_decision. Defined.

Definition family (s : Sku) : ProductFamily :=
  match s with
  | CipherNew _ | CipherUpgrade _ _ => FamilyCipher
  | ProtPack _ _ _ | ProtExact _ => FamilyProt
  end.

Definition TERMS_ACCEPTANCE_MESSAGE : string :=
  "I agree to the [Terms of Service](https://sloga.gg/legal/terms.html). My Cipher badge is supplied as soon as my payment goes through, and I can ask for a full refund within 14 days.".
Definition CIPHER_TAX_CODE : string := "txcd_10000000".
Definition PROT_TERMS_ACCEPTANCE_MESSAGE : string :=
  "I agree to the [Terms of Service](https://sloga.gg/legal/terms.html). My Prot is supplied as soon as my payment goes through, and it is non-refundable except where the law requires.".
Definition PROT_TAX_CODE : string := "txcd_10000000".

Definition sku_consent_message (s : Sku) : string :=
  match family s with
  | FamilyCipher => TERMS_ACCEPTANCE_MESSAGE
  | FamilyProt => PROT_TERMS_ACCEPTANCE_MESSAGE
  end.

Definition sku_tax_code (s : Sku) : string :=
  match family s with FamilyCipher => CIPHER_TAX_CODE | FamilyProt => PROT_TAX_CODE end.

Definition sku_cipher_tier (s : Sku) : option CipherTier :=
  match s with
  | CipherNew tier => Some tier
  | CipherUpgrade _ to => Some to
  | ProtPack _ _ _ | ProtExact _ => None
  end.

(** ** Prot sale settings *)

Record ProtPackConfig : Type := mkPack { pack_id : string; pack_cents : Z; pack_prot : Z }.

(** The fields of [FeaturePayments] and [ProtectionFeatures] that are read *)
Record FeaturePayments : Type := mkPayments {
  payments_enabled : bool;
  cipher_sales_open : bool;
  cipher_cap : Z;
  cipher_sales_close_at : string;
  cipher_blocked_countries : list string;
  prot_sales_open : bool;
  prot_packs : list ProtPackConfig;
  prot_exact_min_cents : Z;
  prot_exact_max_cents : Z;
  prot_blocked_countries : list string;
  prot_success_url : string;
  prot_cancel_url : string;
  prot_shell_return_url : string;
}.

Record ProtectionFeatures : Type := mkProtection {
  prot_enabled : bool;
  prot_cipher_grants_enabled : bool;
  prot_contribute_hold_hours : Z;
  prot_wallet_cap : Z;
}.

Record ProtSalesSettings : Type := mkSales {
  ps_enabled : bool;
  ps_cipher_grants_enabled : bool;
  ps_wallet_cap : Z;
  ps_contribute_hold_hours : Z;
  ps_sales_open : bool;
  ps_packs : list ProtPackConfig;
  ps_exact_min_cents : Z;
  ps_exact_max_cents : Z;
  ps_blocked_countries : list string;
  ps_success_url : string;
  ps_cancel_url : string;
  ps_shell_return_url : string;
}.

Definition PROT_MIN_CENTS : Z := 50.
Definition PROT_MAX_CENTS : Z := 1000000.

Definition is_country_code (code : string) : bool :=
  (String.length code =? 2)%nat && forallb (byte_between 65 90) (String.list_ascii_of_string code).

Definition is_pack_id (id : string) : bool :=
  match id with
  | String c digits =>
      (Ascii.nat_of_ascii c =? 112)%nat && negb (str_eqb digits "")
      && forallb (byte_between 48 57) (String.list_ascii_of_string digits)
  | EmptyString => false
  end.

Definition unchecked (payments : FeaturePayments) (protection : ProtectionFeatures)
    : ProtSalesSettings :=
  mkSales (prot_enabled protection) (prot_cipher_grants_enabled protection)
    (prot_wallet_cap protection) (prot_contribute_hold_hours protection)
    (prot_sales_open payments) (prot_packs payments) (prot_exact_min_cents payments)
    (prot_exact_max_cents payments) (prot_blocked_countries payments)
    (prot_success_url payments) (prot_cancel_url payments) (prot_shell_return_url payments).

(** [(lo..=hi).contains(&x)] *)
Definition in_range (lo hi x : Z) : bool := (lo <=? x) && (x <=? hi).

(** The loop over the packs; [before] are the packs already checked *)
Fixpoint check_packs (max : Z) (before packs : list ProtPackConfig) : Result unit :=
  match packs with
  | [] => Ok tt
  | pack :: rest =>
      if negb (is_pack_id (pack_id pack)) then Err ErrorType.InternalError
      else if existsb (fun other => str_eqb (pack_id other) (pack_id pack)) before
      then Err ErrorType.InternalError
      else if negb (in_range PROT_MIN_CENTS max (pack_cents pack))
              || (pack_prot pack <? pack_cents pack)
      then Err ErrorType.InternalError
      else check_packs max (before ++ [pack]) rest
  end.

Definition from_parts (payments : FeaturePayments) (protection : ProtectionFeatures)
    : Result ProtSalesSettings :=
  let min := prot_exact_min_cents payments in
  let max := prot_exact_max_cents payments in
  if negb (in_range PROT_MIN_CENTS max min) || (PROT_MAX_CENTS <? max)
  then Err ErrorType.InternalError
  else
    let? _ := check_packs max [] (prot_packs payments) in
    if prot_wallet_cap protection <? 1 then Err ErrorType.InternalError
    else if existsb (fun code => negb (is_country_code code)) (prot_blocked_countries payments)
    then Err ErrorType.InternalError
    else if existsb (fun url => negb (starts_with "https://" url))
              [prot_success_url payments; prot_cancel_url payments; prot_shell_return_url payments]
    then Err ErrorType.InternalError
    else Ok (unchecked payments protection).

Definition pack (ps : ProtSalesSettings) (id : string) : option ProtPackConfig :=
  List.find (fun pack => str_eqb (pack_id pack) id) (ps_packs ps).

Inductive ProtChoice : Type :=
| Pack (id : string)
| ExactCents (cents : Z).

Definition quote_prot (ps : ProtSalesSettings) (choice : ProtChoice) : Result Sku :=
  match choice with
  | Pack id =>
      match pack ps id with
      | Some p => Ok (ProtPack (pack_id p) (pack_prot p) (pack_cents p))
      | None => Err ErrorType.ProtPackInvalid
      end
  | ExactCents cents =>
      if in_range (ps_exact_min_cents ps) (ps_exact_max_cents ps) cents
      then Ok (ProtExact cents) else Err ErrorType.ProtPackInvalid
  end.

(** [grants_active], [hold_ms] *)
Definition grants_active (ps : ProtSalesSettings) : bool :=
  ps_enabled ps && ps_cipher_grants_enabled ps.

Definition hold_ms (ps : ProtSalesSettings) : Z := ps_contribute_hold_hours ps * 3600000.

(** ** Facts *)

Lemma check_packs_spec max packs : forall before,
  check_packs max before packs = Ok tt ->
  Forall (fun p => PROT_MIN_CENTS <= pack_cents p <= max /\ pack_cents p <= pack_prot p) packs /\
  NoDup (pack_id <$> packs) /\
  (forall p q, p ∈ before -> q ∈ packs -> pack_id p <> pack_id q).
Proof.
  induction packs as [|p packs IH]; intros before H; simpl in H.
  { split_and!; [by apply Forall_nil_2 | constructor | set_solver]. }
  destruct (negb (is_pack_id _)); [done|].
  destruct (existsb _ before) eqn:Eb; [done|].
  destruct (_ || _) eqn:Er; [done|].
  apply IH in H as (Hf & Hnd & Hdis). unfold in_range in Er.
  apply orb_false_iff in Er as [E1 E2].
  rewrite negb_false_iff, andb_true_iff, !Z.leb_le in E1. apply Z.ltb_ge in E2.
  split_and!.
  - constructor; [done | done].
  - rewrite fmap_cons. constructor; [|done].
    intros (q & Eq & Hq)%list_elem_of_fmap. eapply (Hdis p q); [set_solver | done | done].
  - intros x y Hx Hy. apply elem_of_cons in Hy as [->|Hy]; [|eapply Hdis; set_solver].
    intros E. assert (existsb (fun other => str_eqb (pack_id other) (pack_id p)) before = true);
      [|congruence].
    apply existsb_exists. exists x. split; [by apply list_elem_of_In | by apply str_eqb_eq].
Qed.

(** What a validated configuration guarantees. *)
Lemma from_parts_spec payments protection ps :
  from_parts payments protection = Ok ps ->
  ps = unchecked payments protection /\
  PROT_MIN_CENTS <= ps_exact_min_cents ps /\ ps_exact_max_cents ps <= PROT_MAX_CENTS /\
  Forall (fun p => PROT_MIN_CENTS <= pack_cents p <= ps_exact_max_cents ps /\
                   pack_cents p <= pack_prot p) (ps_packs ps) /\
  NoDup (pack_id <$> ps_packs ps) /\ 1 <= ps_wallet_cap ps.
Proof.
  unfold from_parts. intros H.
  destruct (_ || _) eqn:E0; [done|].
  destruct (check_packs _ _ _) as [[]|] eqn:Ec; [|done].
  destruct (prot_wallet_cap protection <? 1) eqn:Ew; [done|].
  destruct (existsb _ (prot_blocked_countries _)); [done|].
  destruct (existsb _ [_; _; _]); [done|]. simplify_eq.
  apply check_packs_spec in Ec as (Hf & Hnd & _). unfold in_range in E0.
  apply orb_false_iff in E0 as [E1 E2].
  rewrite negb_false_iff, andb_true_iff, !Z.leb_le in E1. apply Z.ltb_ge in E2.
  apply Z.ltb_ge in Ew. split_and!; simpl; try done; lia.
Qed.

(** ** Theorems *)

(** Buying tiers one after the other: the SKU quoted each time, its price. *)
Fixpoint buy_tiers (current : option CipherTier) (wanted : list CipherTier)
    : Result (option CipherTier * Z) :=
  match wanted with
  | [] => Ok (current, 0)
  | t :: rest =>
      let? sku := quote current t in
      let? cents := sku_cents sku in
      let? (final, total) := buy_tiers (sku_cipher_tier sku) rest in
      Ok (final, cents + total)
  end.

(** What a tier already owned is worth. *)
Definition owned_cents (current : option CipherTier) : Z :=
  match current with Some t => tier_cents t | None => 0 end.

Definition outranks (current : option CipherTier) (t : CipherTier) : Prop :=
  match current with Some from => tier_rank from < tier_rank t | None => True end.

Lemma quote_spec (current : option CipherTier) (t : CipherTier) :
  match quote current t with
  | Ok sku => outranks current t /\ sku_cipher_tier sku = Some t /\
      sku_cents sku = Ok (tier_cents t - owned_cents current) /\ owned_cents current < tier_cents t
  | Err e => ~ outranks current t /\ e = ErrorType.CipherTierInvalid
  end.
Proof. destruct current as [[]|], t; vm_compute; naive_solver discriminate. Qed.

Lemma buy_tiers_spec (wanted : list CipherTier) (current : option CipherTier) :
  match buy_tiers current wanted with
  | Ok (final, total) =>
      Sorted (fun a b => tier_rank a < tier_rank b) wanted /\
      (forall t, head wanted = Some t -> outranks current t) /\
      final = (match last wanted with Some t => Some t | None => current end) /\
      owned_cents current + total = owned_cents final
  | Err e => e = ErrorType.CipherTierInvalid /\
      ~ (Sorted (fun a b => tier_rank a < tier_rank b) wanted /\
         (forall t, head wanted = Some t -> outranks current t))
  end.
Proof.
  revert current. induction wanted as [|t wanted IH]; intros current; simpl.
  { split_and!; [constructor | done | done | lia]. }
  pose proof (quote_spec current t) as Hq. destruct (quote current t) as [sku|e].
  2: { destruct Hq as [Hn ->]. split; [done|]. intros [_ H]. by apply Hn, H. }
  destruct Hq as (Ho & -> & -> & _). specialize (IH (Some t)).
  destruct (buy_tiers (Some t) wanted) as [[final total]|e].
  - destruct IH as (Hs & Hh & -> & Ht). split_and!.
    + constructor; [done|]. destruct wanted as [|t' w]; constructor. by apply (Hh t').
    + by intros ? [= <-].
    + rewrite last_cons. by destruct (last wanted).
    + simpl in Ht. lia.
  - destruct IH as [-> Hn]. split; [done|]. intros [Hs _]. apply Hn.
    apply Sorted_inv in Hs as [Hs Hd]. split; [done|]. intros t' Ht'.
    destruct wanted; simplify_eq/=. by inversion Hd.
Qed.

(** A member can climb the tiers exactly in increasing order, anything else
    being refused as an invalid tier; however many steps are taken, the
    prices add up to the price of the tier reached, so there is no way round
    the price through upgrades; and no single quote is free. *)
Theorem upgrades_cost_the_difference (wanted : list CipherTier) :
  match buy_tiers None wanted with
  | Ok (final, total) =>
      Sorted (fun a b => tier_rank a < tier_rank b) wanted /\ final = last wanted /\
      total = owned_cents (last wanted)
  | Err e => e = ErrorType.CipherTierInvalid /\
      ~ Sorted (fun a b => tier_rank a < tier_rank b) wanted
  end /\
  forall current t,
    match quote current t with
    | Ok sku => exists cents, sku_cents sku = Ok cents /\ 0 < cents
    | Err e => exists from, current = Some from /\ tier_rank t <= tier_rank from
    end.
Proof.
  split.
  - pose proof (buy_tiers_spec wanted None) as H. destruct (buy_tiers None wanted) as [[final total]|e].
    + destruct H as (Hs & _ & -> & Ht). simpl in Ht. split_and!; [done | by destruct (last wanted) |].
      by destruct (last wanted).
    + destruct H as [-> Hn]. split; [done|]. intros Hs. by apply Hn.
  - intros current t. pose proof (quote_spec current t) as H. destruct (quote current t) as [sku|e].
    + destruct H as (_ & _ & Hc & Hlt). eexists. split; [exact Hc | lia].
    + destruct H as [Hn _]. destruct current as [from|]; [|by destruct Hn].
      exists from. split; [done|]. simpl in Hn. lia.
Qed.

(** Climbing three tiers costs what the last one costs. *)
Example climb_three_tiers :
  buy_tiers None [T99; T149; T299] = Ok (Some T299, tier_cents T299).
Proof. reflexivity. Qed.

(** Whatever is quoted from a configuration that validated charges at least
    the provider's minimum and at most a million cents, and credits at least
    as much Prot as it costs; every pack that is configured can be bought, and
    is sold as configured. *)
Theorem quoted_prot_is_sound (payments : FeaturePayments) (protection : ProtectionFeatures)
    (ps : ProtSalesSettings) :
  from_parts payments protection = Ok ps ->
  (forall choice sku, quote_prot ps choice = Ok sku ->
     exists cents prot, sku_cents sku = Ok cents /\ sku_prot sku = Some prot /\
       PROT_MIN_CENTS <= cents <= PROT_MAX_CENTS /\ cents <= prot) /\
  (forall p, p ∈ prot_packs payments ->
     quote_prot ps (Pack (pack_id p)) = Ok (ProtPack (pack_id p) (pack_prot p) (pack_cents p))).
Proof.
  intros H. apply from_parts_spec in H as (-> & Hmin & Hmax & Hf & Hnd & _). split.
  - intros [id|c] sku; simpl.
    + destruct (pack _ id) as [p|] eqn:Ep; [|done]. intros [= <-].
      apply find_some in Ep as [Hin _]. apply list_elem_of_In in Hin.
      rewrite Forall_forall in Hf. specialize (Hf p Hin).
      exists (pack_cents p), (pack_prot p). simpl. unfold prot_cents, PROT_MIN_CENTS in *.
      replace (pack_cents p <=? 0) with false by lia. split_and!; done || lia.
    + destruct (in_range _ _ c) eqn:Er; [|done]. intros [= <-].
      unfold in_range in Er. rewrite andb_true_iff, !Z.leb_le in Er. simpl in *.
      exists c, c. unfold prot_cents, PROT_MIN_CENTS in *.
      replace (c <=? 0) with false by lia. split_and!; done || lia.
  - intros p Hp. simpl in *. assert (pack (unchecked payments protection) (pack_id p) = Some p) as ->;
      [|done]. unfold pack. simpl. clear - Hnd Hp.
    induction (prot_packs payments) as [|q l IH]; [by apply not_elem_of_nil in Hp|]. simpl in *.
    apply NoDup_cons in Hnd as [Hq Hnd]. apply elem_of_cons in Hp as [->|Hp].
    + by rewrite str_eqb_refl.
    + destruct (str_eqb (pack_id q) (pack_id p)) eqn:E; [|by apply IH].
      apply str_eqb_eq in E. exfalso. apply Hq. rewrite E. by apply list_elem_of_fmap_2.
Qed.

Definition sample_payments : FeaturePayments :=
  mkPayments true true 1000 "" [] true [mkPack "p5" 500 500; mkPack "p25" 2500 2600] 100 100000 ["CU"%string]
    "https://a" "https://b" "https://c".

Lemma quoted_prot_is_sound_witness :
  exists ps, from_parts sample_payments (mkProtection true true 24 100) = Ok ps /\
    quote_prot ps (Pack "p25") = Ok (ProtPack "p25" 2600 2500).
Proof.
  eexists. split; [vm_compute; reflexivity|].
  destruct (quoted_prot_is_sound sample_payments (mkProtection true true 24 100) _ eq_refl)
    as [_ H]. apply (H (mkPack "p25" 2500 2600)). set_solver.
Defined.

(** ** Labels *)

(** The text without its grouping commas. *)
Fixpoint strip_commas (s : string) : string :=
  match s with
  | EmptyString => EmptyString
  | String c s' =>
      if Ascii.eqb c (Ascii.ascii_of_nat 44) then strip_commas s' else String c (strip_commas s')
  end.


Lemma strip_commas_none s : contains_char comma s = false -> strip_commas s = s.
Proof.
  induction s as [|c s IH]; [done|]. cbn [contains_char strip_commas]. intros H.
  apply orb_false_iff in H as [Hc H]. rewrite Ascii.eqb_sym in Hc. unfold comma in Hc.
  rewrite Hc, IH by done. done.
Qed.

Lemma strip_commas_app a b : strip_commas (a +:+ b) = strip_commas a +:+ strip_commas b.
Proof. induction a as [|c a IH]; simpl; [done|]. case_match; simpl; by rewrite IH. Qed.

Lemma strip_group len digits : forall i, strip_commas (group_digits len i digits) = strip_commas digits.
Proof.
  induction digits as [|d digits IH]; intros i; cbn [group_digits]; [done|]. cbv zeta.
  destruct (_ && _); cbn [strip_commas]; rewrite ?Ascii.eqb_refl, IH; done.
Qed.

(** The label of an amount is its decimal notation with commas put in: taking
    them out gives the number back, for every amount and sign, so two amounts
    never share a label. *)
Theorem prot_label_reads_back (a b : Z) :
  strip_commas (prot_label a) = pretty a /\ (prot_label a = prot_label b -> a = b).
Proof.
  assert (forall z, strip_commas (prot_label z) = pretty z) as H.
  { intros z. unfold prot_label. cbv zeta. rewrite strip_commas_app, strip_group.
    rewrite (strip_commas_none (pretty _)) by (by apply pretty_Z_contains).
    by destruct z. }
  split; [apply H|]. intros E. apply (inj pretty). by rewrite <- (H a), <- (H b), E.
Qed.
