(* ===== verification/Settings.v ===== *)
(** * The payments settings (crates/core/payments/src/settings.rs)

    The Cipher sale settings, checked once before anything is sold from them,
    and the settings Prot falls back to when its own do not validate.  The
    Prot settings themselves are in Catalog. *)

From stdpp Require Import base numbers list strings.
From S2P Require Import Prelude Text Errors CipherMemberships PaymentOrders Catalog.
Open Scope Z_scope.

(** The fields of [ApiStripe] that are read *)
Record ApiStripe : Type := mkApiStripe {
  as_expect_livemode : bool;
  as_tolerance_secs : Z;
  as_automatic_tax : bool;
  as_secret_key : string;
  as_webhook_secret : string;
  as_success_url_web : string;
  as_cancel_url_web : string;
  as_success_url_shell : string;
  as_cancel_url_shell : string;
}.

Record PaymentsSettings : Type := mkSettings {
  s_enabled : bool;
  s_sales_open : bool;
  s_cap : Z;
  s_close_at_ms : option Z;
  s_expect_livemode : bool;
  s_tolerance_secs : Z;
  s_automatic_tax : bool;
  s_blocked_countries : list string;
  s_secret_key : string;
  s_webhook_secret : string;
  s_success_url_web : string;
  s_cancel_url_web : string;
  s_success_url_shell : string;
  s_cancel_url_shell : string;
}.

(** [eq_ignore_ascii_case] *)
Definition ascii_lower (c : Ascii.ascii) : Ascii.ascii :=
  if byte_between 65 90 c then Ascii.ascii_of_nat (Ascii.nat_of_ascii c + 32) else c.

Fixpoint to_ascii_lower (s : string) : string :=
  match s with
  | EmptyString => EmptyString
  | String c rest => String (ascii_lower c) (to_ascii_lower rest)
  end.

Definition eq_ignore_ascii_case (a b : string) : bool :=
  str_eqb (to_ascii_lower a) (to_ascii_lower b).

(** [list.iter().any(|blocked| blocked.eq_ignore_ascii_case(country))]:
    [region_blocked] of both settings and the engine's [country_blocked] *)
Definition country_blocked (blocked : list string) (country : string) : bool :=
  existsb (fun b => eq_ignore_ascii_case b country) blocked.

Definition region_blocked (s : PaymentsSettings) (country : string) : bool :=
  country_blocked (s_blocked_countries s) country.

Definition prot_region_blocked (ps : ProtSalesSettings) (country : string) : bool :=
  country_blocked (ps_blocked_countries ps) country.

Definition sales_open_at (s : PaymentsSettings) (at_ms : Z) : bool :=
  s_enabled s && s_sales_open s
  && match s_close_at_ms s with None => true | Some close => at_ms <? close end.

Definition checkout_open (ps : ProtSalesSettings) (s : PaymentsSettings) : bool :=
  s_enabled s && ps_enabled ps && ps_sales_open ps.

Section FromParts.
(** [DateTime::parse_from_rfc3339(..).timestamp_millis()] *)
Context (parse_rfc3339 : string -> option Z).

(** [None] is the error, whose text is only logged *)
Definition parse_close_at (raw : string) : option (option Z) :=
  if str_eqb raw "" then Some None
  else if negb (str_eqb (trim raw) raw) then None
  else Some <$> parse_rfc3339 raw.

Definition settings_from_parts (payments : FeaturePayments) (stripe : ApiStripe)
    : Result PaymentsSettings :=
  let cap := cipher_cap payments in
  if (cap =? 0) || (CIPHER_CAP_MAX <? cap) then Err ErrorType.InternalError
  else
    let? close_at_ms := ok_or (parse_close_at (cipher_sales_close_at payments))
                          ErrorType.InternalError in
    if existsb (fun code => negb (is_country_code code)) (cipher_blocked_countries payments)
    then Err ErrorType.InternalError
    else Ok (mkSettings (payments_enabled payments) (cipher_sales_open payments) cap close_at_ms
               (as_expect_livemode stripe) (as_tolerance_secs stripe) (as_automatic_tax stripe)
               (cipher_blocked_countries payments) (as_secret_key stripe)
               (as_webhook_secret stripe) (as_success_url_web stripe) (as_cancel_url_web stripe)
               (as_success_url_shell stripe) (as_cancel_url_shell stripe)).

(** ** The shipped defaults (crates/core/config/src/lib.rs) *)

Definition CIPHER_BLOCKED_COUNTRIES_DEFAULT : list string :=
  ["AT"; "BE"; "BG"; "HR"; "CY"; "CZ"; "DK"; "EE"; "FI"; "FR"; "DE"; "GR"; "HU"; "IE"; "IT"; "LV";
   "LT"; "LU"; "MT"; "NL"; "PL"; "PT"; "RO"; "SK"; "SI"; "ES"; "SE"; "GB"].

Definition PROT_BLOCKED_COUNTRIES_DEFAULT : list string :=
  ["AT"; "BE"; "BG"; "HR"; "CY"; "CZ"; "DK"; "EE"; "FI"; "FR"; "DE"; "GR"; "HU"; "IE"; "IT"; "LV";
   "LT"; "LU"; "MT"; "NL"; "PL"; "PT"; "RO"; "SK"; "SI"; "ES"; "SE"; "GB"; "NO"; "IS"; "LI"].

Definition default_payments : FeaturePayments :=
  mkPayments false false 1000 "" CIPHER_BLOCKED_COUNTRIES_DEFAULT false
    [mkPack "p5" 500 500; mkPack "p10" 1000 1000; mkPack "p25" 2500 2600; mkPack "p50" 5000 5300;
     mkPack "p100" 10000 11000] 50 50000 PROT_BLOCKED_COUNTRIES_DEFAULT
    "https://app.sloga.gg/settings?prot=success" "https://app.sloga.gg/settings?prot=cancel"
    "https://sloga.gg/prot/thanks/".

Definition default_protection : ProtectionFeatures := mkProtection false false 72 100000.

Definition for_settlement (stripe : ApiStripe) : Result PaymentsSettings :=
  settings_from_parts default_payments stripe.
End FromParts.

Definition closed : ProtSalesSettings :=
  let c := unchecked default_payments default_protection in
  mkSales (ps_enabled c) false (ps_wallet_cap c) (ps_contribute_hold_hours c) false (ps_packs c)
    (ps_exact_min_cents c) (ps_exact_max_cents c) (ps_blocked_countries c) (ps_success_url c)
    (ps_cancel_url c) (ps_shell_return_url c).

(** [load_or_closed], on the configuration as it is now *)
Definition load_or_closed (payments : FeaturePayments) (protection : ProtectionFeatures)
    : ProtSalesSettings :=
  match from_parts payments protection with Ok ps => ps | Err _ => closed end.
