(* ===== verification/StripeSignature.v ===== *)
(** * Webhook signatures (crates/core/payments/src/stripe/signature.rs)

    The webhook route takes deliveries from anyone; [verify] is what stands
    between them and the engine.  HMAC-SHA256 is a parameter: a function from
    a key and a message to bytes. *)

From stdpp Require Import base numbers list strings pretty.
From S2P Require Import Prelude Text.
Open Scope Z_scope.

Module SignatureError.
Inductive t : Type := EmptySecret | Malformed | Stale | NoMatch.
End SignatureError.

Record ParsedHeader : Type := mkParsedHeader {
  ph_t_raw : string;
  ph_t : Z;
  ph_v1 : list string;
}.

(** The loop over the parts of the header; [None] is a repeated [t] *)
Fixpoint parse_parts (parts : list string) (t_raw : option string) (v1 : list string)
    : option (option string * list string) :=
  match parts with
  | [] => Some (t_raw, v1)
  | part :: rest =>
      match split_once equals part with
      | None => parse_parts rest t_raw v1
      | Some (key, value) =>
          if str_eqb (trim key) "t" then
            match t_raw with
            | Some _ => None
            | None => parse_parts rest (Some (trim value)) v1
            end
          else if str_eqb (trim key) "v1" then parse_parts rest t_raw (v1 ++ [trim value])
          else parse_parts rest t_raw v1
      end
  end.

Definition parse_header (header : string) : result SignatureError.t ParsedHeader :=
  let '(first, others) := split_on comma header in
  match parse_parts (first :: others) None [] with
  | Some (Some t_raw, v1) =>
      if match v1 with [] => true | _ => false end then Err SignatureError.Malformed
      else if str_eqb t_raw "" || negb (all_digits t_raw) then Err SignatureError.Malformed
      else match parse_i64_digits t_raw with
           | Some t => Ok (mkParsedHeader t_raw t v1)
           | None => Err SignatureError.Malformed
           end
  | _ => Err SignatureError.Malformed
  end.

(** What is signed: [t_raw], a dot, and the body *)
Definition signed_message (t_raw payload : string) : string := t_raw +:+ String dot payload.

Section Verify.
Context (hmac_sha256 : string -> string -> string).

Definition compute_v1 (secret t_raw payload : string) : string :=
  to_lower_hex (hmac_sha256 secret (signed_message t_raw payload)).

(** [now_secs.abs_diff(t)] does not wrap; the comparison of two strings of
    one length is [ct_eq] *)
Definition verify (header payload secret : string) (now_secs tolerance_secs : Z)
    : result SignatureError.t unit :=
  if str_eqb secret "" then Err SignatureError.EmptySecret
  else
    match parse_header header with
    | Err e => Err e
    | Ok parsed =>
        if tolerance_secs <? Z.abs (now_secs - ph_t parsed) then Err SignatureError.Stale
        else
          let expected := compute_v1 secret (ph_t_raw parsed) payload in
          if existsb (fun candidate => (String.length candidate =? String.length expected)%nat
                                       && str_eqb candidate expected) (ph_v1 parsed)
          then Ok tt else Err SignatureError.NoMatch
    end.

Definition sign_for_tests (payload secret : string) (t : Z) : string :=
  let t_raw := pretty t in "t=" +:+ t_raw +:+ ",v1=" +:+ compute_v1 secret t_raw payload.
End Verify.

(** ** Facts *)

Lemma hex_digit_graphic n : byte_between 48 102 (hex_digit n) = true.
Proof. do 16 (destruct n as [|n]; [reflexivity|]). reflexivity. Qed.

Lemma hex_between s : forallb (byte_between 48 102) (String.list_ascii_of_string (to_lower_hex s)) = true.
Proof.
  induction s as [|b s IH]; [done|]. cbn [to_lower_hex String.list_ascii_of_string forallb].
  unfold hex_high, hex_low. by rewrite !hex_digit_graphic, IH.
Qed.

Lemma hex_graphic s : graphic (to_lower_hex s) = true.
Proof.
  pose proof (hex_between s) as H. unfold graphic. rewrite forallb_forall in *. intros x Hx.
  specialize (H x Hx). apply byte_between_true in H. apply byte_between_true. lia.
Qed.

Lemma between_no sep lo hi s :
  byte_between lo hi sep = false ->
  forallb (byte_between lo hi) (String.list_ascii_of_string s) = true -> contains_char sep s = false.
Proof.
  intros Hs. induction s as [|c s IH]; [done|]. cbn. intros [Hc H]%andb_true_iff.
  rewrite (IH H), orb_false_r. apply Ascii.eqb_neq. congruence.
Qed.

Lemma parse_header_ok header p :
  parse_header header = Ok p ->
  all_digits (ph_t_raw p) = true /\ parse_i64_digits (ph_t_raw p) = Some (ph_t p) /\ ph_v1 p <> [].
Proof.
  unfold parse_header. destruct (split_on comma header) as [first others].
  destruct (parse_parts _ _ _) as [[[t_raw|] v1]|]; try done.
  destruct v1 as [|v v1]; [done|]. destruct (str_eqb t_raw "" || negb (all_digits t_raw)) eqn:E; [done|].
  destruct (parse_i64_digits t_raw) as [t|] eqn:Et; [|done]. intros [= <-]. cbn.
  apply orb_false_iff in E as [_ E]. by apply negb_false_iff in E.
Qed.

(** Acceptance, taken apart *)
Lemma verify_ok hmac header payload secret now tolerance :
  verify hmac header payload secret now tolerance = Ok tt <->
  secret <> "" /\ exists p, parse_header header = Ok p /\ Z.abs (now - ph_t p) <= tolerance /\
    In (compute_v1 hmac secret (ph_t_raw p) payload) (ph_v1 p).
Proof.
  unfold verify. destruct (str_eqb secret "") eqn:Es.
  { apply str_eqb_eq in Es. split; [done | naive_solver]. }
  apply str_eqb_neq in Es.
  destruct (parse_header header) as [p|e]; [|split; [done | naive_solver]].
  destruct (Z.ltb_spec tolerance (Z.abs (now - ph_t p))); [split; [done | naive_solver lia]|].
  set (expected := compute_v1 _ _ _ _).
  destruct (existsb _ _) eqn:Ee.
  - apply existsb_exists in Ee as (x & Hx & [_ H1]%andb_true_iff). apply str_eqb_eq in H1 as ->.
    split; [eauto 6 | done].
  - split; [done|]. intros (_ & q & [= <-] & _ & Hin). exfalso.
    assert (existsb (fun candidate => (String.length candidate =? String.length expected)%nat
              && str_eqb candidate expected) (ph_v1 p) = true) as Ht; [|congruence].
    apply existsb_exists. exists expected. by rewrite Nat.eqb_refl, str_eqb_refl.
Qed.

(** ** Theorems *)

(** A delivery signed with the endpoint's secret passes, at any clock within
    the tolerance of its timestamp on either side, whatever bytes its body
    has. *)
Theorem signed_delivery_verifies (hmac : string -> string -> string) (payload secret : string)
    (t now tolerance : Z) :
  secret <> "" -> 0 <= t <= i64_max -> Z.abs (now - t) <= tolerance ->
  verify hmac (sign_for_tests hmac payload secret t) payload secret now tolerance = Ok tt.
Proof.
  intros Hs Ht Hd. apply verify_ok. split; [done|].
  set (v1 := compute_v1 hmac secret (pretty t) payload).
  exists (mkParsedHeader (pretty t) t [v1]). split; [|split; [done | by left]].
  pose proof (all_digits_pretty t ltac:(lia)) as Hdig.
  assert (contains_char comma ("t=" +:+ pretty t) = false) as Hc1.
  { rewrite contains_char_app. by rewrite (all_digits_no comma (pretty t) eq_refl Hdig). }
  assert (contains_char comma ("v1=" +:+ v1) = false) as Hc2.
  { rewrite contains_char_app. by rewrite (between_no comma 48 102 v1 eq_refl (hex_between _)). }
  unfold parse_header, sign_for_tests. fold v1.
  change ("t=" +:+ pretty t +:+ ",v1=" +:+ v1)
    with (("t=" +:+ pretty t) +:+ String comma ("v1=" +:+ v1)).
  rewrite split_on_app by done. rewrite (split_on_none comma) by done. cbn [fst snd].
  change ("t=" +:+ pretty t) with ("t" +:+ String equals (pretty t)).
  change ("v1=" +:+ v1) with ("v1" +:+ String equals v1).
  cbn [parse_parts]. rewrite !split_once_app by done.
  rewrite (trim_graphic (pretty t)) by (by apply all_digits_graphic).
  rewrite (trim_graphic v1) by apply hex_graphic.
  change (trim "t") with "t"%string. change (trim "v1") with "v1"%string.
  change (str_eqb "t" "t") with true. change (str_eqb "v1" "t") with false.
  change (str_eqb "v1" "v1") with true. cbn [app].
  rewrite (proj2 (str_eqb_neq (pretty t) "")) by (apply pretty_not_empty; lia).
  rewrite Hdig. cbn. rewrite parse_i64_pretty by done. done.
Qed.

(** C5. A delivery is accepted only if whoever holds the secret signed this very
    body, at a time within the tolerance of now.  [signed] is everything they
    ever signed, as pairs of a time and a body; that nobody else can make a
    signature is the only assumption about HMAC. *)
Theorem accepted_delivery_was_signed (hmac : string -> string -> string)
    (header payload secret : string) (now tolerance : Z) (signed : list (string * string)) :
  Forall (fun m => all_digits m.1 = true) signed ->
  (forall p message, parse_header header = Ok p ->
     In (to_lower_hex (hmac secret message)) (ph_v1 p) ->
     In message ((fun m => signed_message m.1 m.2) <$> signed)) ->
  verify hmac header payload secret now tolerance = Ok tt ->
  secret <> "" /\ exists t_raw t, In (t_raw, payload) signed /\ parse_i64_digits t_raw = Some t /\
    Z.abs (now - t) <= tolerance.
Proof.
  intros Hdig Hunf (Hs & p & Hp & Hd & Hin)%verify_ok. split; [done|].
  destruct (parse_header_ok _ _ Hp) as (H1 & H2 & _).
  specialize (Hunf p _ Hp Hin). apply in_map_iff in Hunf as ([t_raw body] & E & Hm). cbn in E.
  apply join_inj in E as [-> ->].
  - eauto.
  - apply (all_digits_no dot); [done|]. rewrite Forall_forall in Hdig.
    by apply (Hdig (t_raw, body)), list_elem_of_In.
  - by apply (all_digits_no dot).
Qed.

(** ** Witnesses *)

(** A keyed function that is not an HMAC, but computes *)
Definition toy_hmac (key message : string) : string := key +:+ message.

Lemma signed_delivery_verifies_witness :
  verify toy_hmac (sign_for_tests toy_hmac "{}" "whsec" 1700000000) "{}" "whsec" 1700000100 300 = Ok tt.
Proof. apply (signed_delivery_verifies toy_hmac "{}" "whsec" 1700000000 1700000100 300); [done | |]; vm_compute; intuition discriminate. Defined.

Lemma accepted_delivery_was_signed_witness :
  exists t_raw t, In (t_raw, "{}"%string) [("1700000000"%string, "{}"%string)] /\
    parse_i64_digits t_raw = Some t /\ Z.abs (1700000100 - t) <= 300.
Proof.
  apply (accepted_delivery_was_signed toy_hmac (sign_for_tests toy_hmac "{}" "whsec" 1700000000)
           "{}" "whsec" 1700000100 300 [("1700000000"%string, "{}"%string)]).
  - by repeat constructor.
  - intros p message Hp Hin. assert (p = mkParsedHeader "1700000000" 1700000000
      [to_lower_hex (toy_hmac "whsec" (signed_message "1700000000" "{}"))]) as ->.
    { vm_compute in Hp. by injection Hp as <-. }
    destruct Hin as [E|[]]. apply to_lower_hex_inj in E. left.
    unfold toy_hmac in E. by apply str_app_inj_l in E.
  - vm_compute. reflexivity.
Defined.
