(* ===== verification/StripeApi.v ===== *)
(** * The payment provider (crates/core/payments/src/stripe)

    What the engine sends to Stripe and reads back, the JSON accessors that
    read event payloads, and the operations the engine uses.  Stripe itself
    is not part of this repository: its state and its answers are a
    parameter, and nothing is assumed of them unless a theorem says so. *)

From stdpp Require Import base numbers list strings.
From S2P Require Import Prelude Errors.
Open Scope Z_scope.

Module StripeError.
Inductive t : Type :=
| Transport (message : string)
| Api (status : Z) (code kind : option string) (message : string)
| Decode (message : string).
End StripeError.

Record CheckoutSessionParams : Type := mkParams {
  cp_order_id : string;
  cp_user_id : string;
  cp_amount_cents : Z;
  cp_currency : string;
  cp_product_name : string;
  cp_success_url : string;
  cp_cancel_url : string;
  cp_expires_at_secs : Z;
  cp_automatic_tax : bool;
  cp_consent_message : string;
  cp_tax_code : string;
}.

Record CheckoutSession : Type := mkSession {
  cs_id : string;
  cs_url : option string;
  cs_status : option string;
  cs_payment_status : option string;
  cs_payment_intent : option string;
  cs_amount_total : option Z;
  cs_currency : option string;
  cs_livemode : bool;
  cs_client_reference_id : option string;
  cs_metadata_order_id : option string;
  cs_expires_at : option Z;
  cs_billing_country : option string;
}.

Record PaymentIntent : Type := mkIntent {
  pi_id : string;
  pi_livemode : bool;
  pi_amount : option Z;
  pi_currency : option string;
  pi_status : option string;
  pi_metadata_order_id : option string;
}.

Record PaymentCharge : Type := mkCharge {
  pc_payment_intent : string;
  pc_method : option string;
  pc_card_country : option string;
}.

Module Refund.
Record t : Type := mk {
  id : string;
  status : option string;
  amount : option Z;
  payment_intent : option string;
  created : option Z;
}.
End Refund.

Record Dispute : Type := mkDispute {
  dp_id : string;
  dp_status : option string;
  dp_payment_intent : option string;
}.

(** ** JSON values, as [serde_json] holds them after parsing *)

Module Value.
Inductive t : Type :=
| Null
| Bool (b : bool)
| Integer (z : Z)
| Float
| String (s : string)
| Array (items : list t)
| Object (fields : list (string * t)).

Definition get (v : t) (key : string) : option t :=
  match v with
  | Object fields => snd <$> List.find (fun kv => str_eqb kv.1 key) fields
  | _ => None
  end.

Definition is_object (v : t) : bool := match v with Object _ => true | _ => false end.

Definition as_str (v : t) : option string := match v with String s => Some s | _ => None end.

Definition as_bool (v : t) : option bool := match v with Bool b => Some b | _ => None end.

Definition as_i64 (v : t) : option Z :=
  match v with
  | Integer z => if (i64_min <=? z) && (z <=? i64_max) then Some z else None
  | _ => None
  end.

Definition as_array (v : t) : option (list t) := match v with Array l => Some l | _ => None end.
End Value.

Definition obj_str (o : Value.t) (key : string) : option string := Value.get o key ≫= Value.as_str.

Definition obj_i64 (o : Value.t) (key : string) : option Z := Value.get o key ≫= Value.as_i64.

Definition obj_bool (o : Value.t) (key : string) : option bool := Value.get o key ≫= Value.as_bool.

(** [.filter(|s| !s.is_empty())] *)
Definition non_empty (s : string) : option string := if str_eqb s "" then None else Some s.

Definition obj_expandable_id (o : Value.t) (key : string) : option string :=
  match Value.get o key with
  | Some (Value.String id) => non_empty id
  | Some (Value.Object fields) => obj_str (Value.Object fields) "id" ≫= non_empty
  | _ => None
  end.

Definition obj_metadata_order_id (o : Value.t) : option string :=
  Value.get o "metadata" ≫= fun metadata => obj_str metadata "order_id" ≫= non_empty.

Definition obj_billing_country (o : Value.t) : option string :=
  Value.get o "customer_details" ≫= fun details =>
  Value.get details "address" ≫= fun address => obj_str address "country" ≫= non_empty.

(** ** Events *)

Definition CHECKOUT_SESSION_COMPLETED : string := "checkout.session.completed".
Definition CHECKOUT_SESSION_EXPIRED : string := "checkout.session.expired".
Definition CHECKOUT_SESSION_ASYNC_PAYMENT_SUCCEEDED : string :=
  "checkout.session.async_payment_succeeded".
Definition CHECKOUT_SESSION_ASYNC_PAYMENT_FAILED : string :=
  "checkout.session.async_payment_failed".
Definition CHARGE_REFUNDED : string := "charge.refunded".
Definition CHARGE_REFUND_UPDATED : string := "charge.refund.updated".
Definition CHARGE_DISPUTE_PREFIX : string := "charge.dispute.".

Record StripeEvent : Type := mkStripeEvent {
  se_id : string;
  se_type : string;
  se_livemode : bool;
  se_created : Z;
  se_object : Value.t;
}.

(** ** The operations the engine uses *)

Abbreviation StripeResult A := (result StripeError.t A).

(** The trait: every call answers and may change the provider's state. *)
Class StripeApi (St : Type) := {
  create_checkout_session : CheckoutSessionParams -> string -> St -> St * StripeResult CheckoutSession;
  get_checkout_session : string -> St -> St * StripeResult CheckoutSession;
  get_payment_intent : string -> St -> St * StripeResult PaymentIntent;
  get_payment_charge : string -> St -> St * StripeResult PaymentCharge;
  get_event : string -> St -> St * StripeResult StripeEvent;
  create_refund : string -> string -> St -> St * StripeResult Refund.t;
  get_dispute : string -> St -> St * StripeResult Dispute;
  list_refunds : string -> St -> St * StripeResult (list Refund.t);
}.
