(* ===== verification/StripeClient.v ===== *)
(** * The Stripe client (crates/core/payments/src/stripe/client.rs, event.rs)

    How an object or an event of the provider is read from JSON, what is
    kept of an error it answers, and the requests the client makes.  The
    HTTP library, its answers and the JSON parser are parameters. *)

From stdpp Require Import base numbers list strings pretty sets.
From S2P Require Import Prelude Text Errors StripeApi.
Open Scope Z_scope.

Definition STRIPE_API_VERSION : string := "2026-09-30.endive".
Definition STRIPE_API_BASE : string := "https://api.stripe.com/v1".
Definition MAX_ID_LEN : Z := 255.
Definition MAX_ERROR_MESSAGE_CHARS : nat := 500.
Definition SECRET_PREFIXES : list string :=
  ["sk_live_"; "sk_test_"; "rk_live_"; "rk_test_"; "whsec_"].

(** [impl fmt::Display for StripeError] *)
Definition error_display (error : StripeError.t) : string :=
  match error with
  | StripeError.Transport message => "Stripe transport error: " +:+ message
  | StripeError.Api status (Some code) _ message =>
      "Stripe API error " +:+ pretty status +:+ " (" +:+ code +:+ "): " +:+ message
  | StripeError.Api status None _ message =>
      "Stripe API error " +:+ pretty status +:+ ": " +:+ message
  | StripeError.Decode message => "Stripe decode error: " +:+ message
  end.

(** ** The checkout form *)

Definition checkout_form (p : CheckoutSessionParams) : list (string * string) :=
  [("mode", "payment");
   ("adaptive_pricing[enabled]", "false");
   ("line_items[0][quantity]", "1");
   ("line_items[0][price_data][currency]", cp_currency p);
   ("line_items[0][price_data][unit_amount]", pretty (cp_amount_cents p));
   ("line_items[0][price_data][product_data][name]", cp_product_name p);
   ("client_reference_id", cp_user_id p);
   ("metadata[order_id]", cp_order_id p);
   ("payment_intent_data[metadata][order_id]", cp_order_id p);
   ("success_url", cp_success_url p);
   ("cancel_url", cp_cancel_url p);
   ("expires_at", pretty (cp_expires_at_secs p));
   ("billing_address_collection", "required");
   ("consent_collection[terms_of_service]", "required");
   ("custom_text[terms_of_service_acceptance][message]", cp_consent_message p)]
  ++ if cp_automatic_tax p
     then [("automatic_tax[enabled]", "true");
           ("line_items[0][price_data][tax_behavior]", "inclusive");
           ("line_items[0][price_data][product_data][tax_code]", cp_tax_code p)]
     else [].

(** ** Ids and keys *)

Definition underscore : Ascii.ascii := Ascii.ascii_of_nat 95.
Definition asterisk : Ascii.ascii := Ascii.ascii_of_nat 42.

Definition byte_len (s : string) : Z := Z.of_nat (String.length s).

Definition is_valid_stripe_id (id : string) : bool :=
  negb (str_eqb id "") && (byte_len id <=? MAX_ID_LEN)
  && forallb (fun b => is_ascii_alphanumeric b || Ascii.eqb b underscore)
       (String.list_ascii_of_string id).

Definition is_valid_idempotency_key (key : string) : bool :=
  negb (str_eqb key "") && (byte_len key <=? MAX_ID_LEN) && graphic key.

Definition decode {A} (message : string) : StripeResult A := Err (StripeError.Decode message).

Definition check_id (id : string) : StripeResult unit :=
  if is_valid_stripe_id id then Ok tt else decode "bad id".

Definition check_idempotency_key (key : string) : StripeResult unit :=
  if is_valid_idempotency_key key then Ok tt else decode "bad idempotency key".

Definition api_version_header (version : string) : option string :=
  if str_eqb version "" then None else Some version.

(** ** Reading objects *)

Definition expect_object (value : Value.t) (kind : string) : StripeResult unit :=
  if negb (Value.is_object value) then decode "response is not a JSON object"
  else match Value.get value "object" with
       | None => Ok tt
       | Some object =>
           if is_some_str (Value.as_str object) kind then Ok tt
           else decode ("expected a " +:+ kind +:+ " object")
       end.

Definition required_id (value : Value.t) : StripeResult string :=
  match obj_str value "id" with
  | Some id => if is_valid_stripe_id id then Ok id else decode "object has no valid id"
  | None => decode "object has no valid id"
  end.

Definition required_livemode (value : Value.t) : StripeResult bool :=
  ok_or (obj_bool value "livemode") (StripeError.Decode "object has no livemode").

Definition opt_string (value : Value.t) (key : string) : option string := obj_str value key.

Definition session_from_stripe_json (value : Value.t) : StripeResult CheckoutSession :=
  let? _ := expect_object value "checkout.session" in
  let? id := required_id value in
  let? livemode := required_livemode value in
  Ok (mkSession id (opt_string value "url") (opt_string value "status")
        (opt_string value "payment_status") (obj_expandable_id value "payment_intent")
        (obj_i64 value "amount_total") (opt_string value "currency") livemode
        (opt_string value "client_reference_id") (obj_metadata_order_id value)
        (obj_i64 value "expires_at") (obj_billing_country value)).

Definition intent_from_stripe_json (value : Value.t) : StripeResult PaymentIntent :=
  let? _ := expect_object value "payment_intent" in
  let? id := required_id value in
  let? livemode := required_livemode value in
  Ok (mkIntent id livemode (obj_i64 value "amount") (opt_string value "currency")
        (opt_string value "status") (obj_metadata_order_id value)).

(** The card's country, for a card or Link payment *)
Definition paid_by_country (details : option Value.t) (method : option string) : option string :=
  match method with
  | Some kind =>
      if str_eqb kind "card" || str_eqb kind "link" then
        details ≫= fun d => Value.get d kind
        ≫= fun paid_by => obj_str paid_by "country" ≫= non_empty
      else None
  | None => None
  end.

Definition charge_from_stripe_json (value : Value.t) : StripeResult PaymentCharge :=
  let? _ := expect_object value "payment_intent" in
  let? payment_intent := required_id value in
  match Value.get value "latest_charge" with
  | None | Some Value.Null => Ok (mkCharge payment_intent None None)
  | Some charge =>
      if negb (Value.is_object charge) then decode "latest_charge is not expanded"
      else
        let? _ := expect_object charge "charge" in
        if match obj_expandable_id charge "payment_intent" with
           | Some id => negb (str_eqb id payment_intent) | None => false end
        then decode "latest_charge belongs to another payment intent"
        else
          let details := Value.get charge "payment_method_details" in
          let method := details ≫= fun d => obj_str d "type" in
          Ok (mkCharge payment_intent method (paid_by_country details method))
  end.

Definition refund_from_stripe_json (value : Value.t) : StripeResult Refund.t :=
  let? _ := expect_object value "refund" in
  let? id := required_id value in
  Ok (Refund.mk id (opt_string value "status") (obj_i64 value "amount")
        (obj_expandable_id value "payment_intent") (obj_i64 value "created")).

(** [iter().map(f).collect::<Result<Vec<_>, _>>()] *)
Fixpoint collect_results {E A B} (f : A -> result E B) (l : list A) : result E (list B) :=
  match l with
  | [] => Ok []
  | a :: rest =>
      let? b := f a in
      let? bs := collect_results f rest in
      Ok (b :: bs)
  end.

Definition list_from_stripe_json (value : Value.t) (payment_intent : string)
    : StripeResult (list Refund.t) :=
  let? _ := expect_object value "list" in
  if negb (match obj_bool value "has_more" with Some false => true | _ => false end)
  then decode "refund list does not fit one page"
  else match Value.get value "data" ≫= Value.as_array with
       | None => decode "refund list has no data"
       | Some data =>
           let? refunds := collect_results refund_from_stripe_json data in
           if existsb (fun refund => negb (is_some_str (Refund.payment_intent refund) payment_intent))
                refunds
           then decode "refund list names another payment"
           else Ok refunds
       end.

Definition dispute_from_stripe_json (value : Value.t) : StripeResult Dispute :=
  let? _ := expect_object value "dispute" in
  let? id := required_id value in
  Ok (mkDispute id (opt_string value "status") (obj_expandable_id value "payment_intent")).

(** event.rs *)
Definition event_from_value (value : Value.t) : StripeResult StripeEvent :=
  if negb (Value.is_object value) then decode "event is not a JSON object"
  else if match Value.get value "object" with
          | Some kind => negb (is_some_str (Value.as_str kind) "event") | None => false end
  then decode "not an event object"
  else
    let? id := ok_or (obj_str value "id") (StripeError.Decode "event has no id") in
    if negb (is_valid_stripe_id id) then decode "event id is malformed"
    else
      let? event_type :=
        ok_or (obj_str value "type" ≫= non_empty) (StripeError.Decode "event has no type") in
      let? livemode :=
        ok_or (obj_bool value "livemode") (StripeError.Decode "event has no livemode") in
      let? created :=
        ok_or (obj_i64 value "created") (StripeError.Decode "event has no created time") in
      let object := Value.get value "data" ≫= fun data => Value.get data "object" in
      let? object :=
        ok_or (match object with
               | Some o => if Value.is_object o then Some o else None | None => None end)
          (StripeError.Decode "event has no data.object") in
      Ok (mkStripeEvent id event_type livemode created object).

(** ** Error text *)

(** [SECRET_PREFIXES.iter().filter_map(|p| rest.find(p)).min()] *)
Definition first_secret (rest : string) : option nat :=
  foldr (fun p best => match find_str p rest, best with
                       | Some i, Some j => Some (Nat.min i j)
                       | Some i, None => Some i
                       | None, _ => best
                       end) None SECRET_PREFIXES.

Definition in_token (c : Ascii.ascii) : bool :=
  is_ascii_alphanumeric c || Ascii.eqb c underscore || Ascii.eqb c asterisk.

(** [token.find(|c| !..).unwrap_or(token.len())] *)
Fixpoint token_end (token : string) : nat :=
  match token with
  | String c rest => if in_token c then S (token_end rest) else 0%nat
  | EmptyString => 0%nat
  end.

(** The loop of [redact_key_like]; a round takes at least one byte of the
    rest, so its length is fuel enough ([redact_loop_enough]). *)
Fixpoint redact_loop (fuel : nat) (out rest : string) : string :=
  match first_secret rest with
  | None => out +:+ rest
  | Some start =>
      match fuel with
      | O => out
      | S fuel =>
          let token := drop_bytes start rest in
          redact_loop fuel ((out +:+ take_bytes start rest) +:+ "[redacted]")
            (drop_bytes (token_end token) token)
      end
  end.

Definition redact_key_like (text : string) : string :=
  redact_loop (String.length text) "" text.

Definition flatten_control (c : string) : string := if is_control c then " " else c.

Definition sanitize_message (text secret : string) : string :=
  let text := if str_eqb secret "" then text else replace text secret "[redacted]" in
  let text := concat_chars (flatten_control <$> chars (redact_key_like text)) in
  if (MAX_ERROR_MESSAGE_CHARS <? length (chars text))%nat
  then concat_chars (take MAX_ERROR_MESSAGE_CHARS (chars text)) +:+ "..."
  else text.

(** What [reqwest::Error] tells of itself *)
Record TransportFailure : Type := mkFailure {
  is_timeout : bool;
  is_connect : bool;
  is_builder : bool;
  is_redirect : bool;
  is_body : bool;
  is_decode : bool;
}.

Definition transport_kind (error : TransportFailure) : string :=
  if is_timeout error then "request timed out"
  else if is_connect error then "could not connect"
  else if is_builder error then "could not build the request"
  else if is_redirect error then "unexpected redirect"
  else if is_body error || is_decode error then "could not read the response"
  else "request failed".

(** ** Requests *)

Module Method.
Inductive t : Type := GET | POST.
End Method.

Record Request : Type := mkRequest {
  rq_method : Method.t;
  rq_url : string;
  rq_bearer : string;
  rq_headers : list (string * string);
  rq_form : option (list (string * string));
}.

(** [http] is whether the HTTP client could be built. *)
Record ReqwestStripe : Type := mkReqwest {
  http : bool;
  secret_key : string;
}.

Definition payment_charge_path (payment_intent : string) : StripeResult string :=
  let? _ := check_id payment_intent in
  Ok ("/payment_intents/" +:+ payment_intent +:+ "?expand[]=latest_charge").

Definition check_same_id (requested returned : string) : StripeResult unit :=
  if str_eqb requested returned then Ok tt else decode "response is for a different id".

Section Client.
(** The network, what it answers to a request (the status and the body, each
    of which may fail to arrive), and [serde_json::from_slice] *)
Context {Net : Type}.
Context (send : Request -> Net -> Net * result TransportFailure (Z * result TransportFailure string)).
Context (from_slice : string -> option Value.t).

Definition api_error_from_body (status : Z) (body secret : string) : StripeError.t :=
  let error := from_slice body ≫= fun value => Value.get value "error" in
  let code := error ≫= fun e => obj_str e "code" ≫= non_empty in
  let kind := error ≫= fun e => obj_str e "type" ≫= non_empty in
  let message :=
    error ≫= fun e => match obj_str e "message" with
                      | Some m => Some m | None => obj_str e "type" end ≫= non_empty in
  StripeError.Api status
    ((fun c => sanitize_message c secret) <$> code)
    ((fun k => sanitize_message k secret) <$> kind)
    (match message with
     | Some m => sanitize_message m secret
     | None => "HTTP " +:+ pretty status +:+ " without a Stripe error body"
     end).

(** event.rs *)
Definition parse_event (raw : string) : StripeResult StripeEvent :=
  let? value := ok_or (from_slice raw) (StripeError.Decode "event body is not valid JSON") in
  event_from_value value.

Context (self : ReqwestStripe).

(** [status.is_success()] *)
Definition is_success (status : Z) : bool := (200 <=? status) && (status <? 300).

Definition call (label : string) (method : Method.t) (path : string)
    (form : option (list (string * string))) (idempotency_key : option string) (net : Net)
    : Net * StripeResult Value.t :=
  if str_eqb (secret_key self) "" then
    (net, Err (StripeError.Transport "Stripe secret key is not configured"))
  else if negb (http self) then (net, Err (StripeError.Transport "HTTP client unavailable"))
  else
    let headers :=
      match api_version_header STRIPE_API_VERSION with
      | Some version => [("Stripe-Version", version)] | None => [] end
      ++ match idempotency_key with Some key => [("Idempotency-Key", key)] | None => [] end in
    let '(net, response) :=
      send (mkRequest method (STRIPE_API_BASE +:+ path) (secret_key self) headers form) net in
    (net,
     match response with
     | Err error => Err (StripeError.Transport (transport_kind error))
     | Ok (_, Err error) => Err (StripeError.Transport (transport_kind error))
     | Ok (status, Ok body) =>
         if negb (is_success status) then Err (api_error_from_body status body (secret_key self))
         else ok_or (from_slice body)
                (StripeError.Decode (label +:+ ": response is not valid JSON"))
     end).

(** A check before the request, the request, and what is made of its answer *)
Definition checked {A B} (check : StripeResult A) (k : A -> Net -> Net * StripeResult B) (net : Net)
    : Net * StripeResult B :=
  match check with Err e => (net, Err e) | Ok a => k a net end.

Definition read {A} (answer : Net * StripeResult Value.t) (k : Value.t -> StripeResult A)
    : Net * StripeResult A :=
  (answer.1, let? value := answer.2 in k value).

#[local] Instance reqwest_stripe : StripeApi Net := {
  create_checkout_session p idempotency_key :=
    checked (check_idempotency_key idempotency_key) (fun _ net =>
      read (call "create_checkout_session" Method.POST "/checkout/sessions"
              (Some (checkout_form p)) (Some idempotency_key) net)
        session_from_stripe_json);
  get_checkout_session id :=
    checked (check_id id) (fun _ net =>
      read (call "get_checkout_session" Method.GET ("/checkout/sessions/" +:+ id) None None net)
        (fun value =>
           let? session := session_from_stripe_json value in
           let? _ := check_same_id id (cs_id session) in
           Ok session));
  get_payment_intent id :=
    checked (check_id id) (fun _ net =>
      read (call "get_payment_intent" Method.GET ("/payment_intents/" +:+ id) None None net)
        (fun value =>
           let? intent := intent_from_stripe_json value in
           let? _ := check_same_id id (pi_id intent) in
           Ok intent));
  get_payment_charge payment_intent :=
    checked (payment_charge_path payment_intent) (fun path net =>
      read (call "get_payment_charge" Method.GET path None None net)
        (fun value =>
           let? charge := charge_from_stripe_json value in
           let? _ := check_same_id payment_intent (pc_payment_intent charge) in
           Ok charge));
  get_event id :=
    checked (check_id id) (fun _ net =>
      read (call "get_event" Method.GET ("/events/" +:+ id) None None net)
        (fun value =>
           let? event := event_from_value value in
           let? _ := check_same_id id (se_id event) in
           Ok event));
  create_refund payment_intent idempotency_key :=
    checked (check_id payment_intent) (fun _ =>
    checked (check_idempotency_key idempotency_key) (fun _ net =>
      read (call "create_refund" Method.POST "/refunds"
              (Some [("payment_intent", payment_intent)]) (Some idempotency_key) net)
        refund_from_stripe_json));
  get_dispute id :=
    checked (check_id id) (fun _ net =>
      read (call "get_dispute" Method.GET ("/disputes/" +:+ id) None None net)
        (fun value =>
           let? dispute := dispute_from_stripe_json value in
           let? _ := check_same_id id (dp_id dispute) in
           Ok dispute));
  list_refunds payment_intent :=
    checked (check_id payment_intent) (fun _ net =>
      read (call "list_refunds" Method.GET
              ("/refunds?payment_intent=" +:+ payment_intent +:+ "&limit=100") None None net)
        (fun value => list_from_stripe_json value payment_intent));
}.
End Client.

(** ** Redaction *)

Ltac each_prefix Hp :=
  unfold SECRET_PREFIXES in Hp;
  repeat (apply elem_of_cons in Hp as [->|Hp]); [..|by apply elem_of_nil in Hp].

Lemma first_secret_none rest p : first_secret rest = None -> p ∈ SECRET_PREFIXES -> absent p rest.
Proof.
  unfold first_secret, absent. induction SECRET_PREFIXES as [|q ps IH]; [by intros _ ?%elem_of_nil|].
  cbn [foldr]. rewrite elem_of_cons. destruct (find_str q rest) eqn:E.
  - destruct (foldr _ None ps); discriminate.
  - intros H [->|Hp]; [done|by apply IH].
Qed.

Lemma first_secret_least rest start p i :
  first_secret rest = Some start -> p ∈ SECRET_PREFIXES -> find_str p rest = Some i -> (start <= i)%nat.
Proof.
  unfold first_secret. revert start.
  induction SECRET_PREFIXES as [|q ps IH]; intros start; [by intros _ ?%elem_of_nil|].
  cbn [foldr]. rewrite elem_of_cons. intros H [->|Hp] Hi.
  - rewrite Hi in H. destruct (foldr _ None ps); simplify_eq; lia.
  - destruct (find_str q rest), (foldr _ None ps) as [j|] eqn:Ej; simplify_eq.
    + specialize (IH j eq_refl Hp Hi). lia.
    + exfalso. clear IH. revert Ej. induction ps as [|r ps IHp]; [by apply elem_of_nil in Hp|].
      cbn [foldr]. apply elem_of_cons in Hp as [->|Hp].
      * rewrite Hi. by destruct (foldr _ None ps).
      * destruct (find_str r rest); [by destruct (foldr _ None ps)|]. by apply IHp.
    + by apply IH.
Qed.

(** Where the first secret starts, at least one byte is taken. *)
Lemma first_secret_token rest start :
  first_secret rest = Some start -> (start + token_end (drop_bytes start rest) > start)%nat.
Proof.
  intros H. assert (exists p, p ∈ SECRET_PREFIXES /\ find_str p rest = Some start) as (p & Hp & E).
  { revert H. unfold first_secret. revert start.
    induction SECRET_PREFIXES as [|q ps IH]; intros start; [done|]. cbn [foldr].
    destruct (find_str q rest) as [i|] eqn:Ei.
    - destruct (foldr _ None ps) as [j|] eqn:Ej; intros [= <-].
      + destruct (Nat.min_dec i j) as [->| ->]; [by exists q; split; [left|]|].
        destruct (IH j eq_refl) as (p & ? & ?). exists p. split; [by right|done].
      + by exists q; split; [left|].
    - intros H. destruct (IH start H) as (p & ? & ?). exists p. split; [by right|done]. }
  assert (starts_with p (drop_bytes start rest) = true) as Hs.
  { clear H. revert start E. induction rest as [|c rest IH]; intros start; cbn [find_str].
    - destruct (starts_with p "") eqn:Es; [|done]. intros [= <-]. done.
    - destruct (starts_with p (String c rest)) eqn:Es; [by intros [= <-]|].
      destruct (find_str p rest) eqn:Ef; [|done]. intros [= <-]. by apply IH. }
  destruct (drop_bytes start rest) as [|c token]; [by each_prefix Hp|].
  assert (in_token c = true) as Hc; [|cbn [token_end]; rewrite Hc; lia].
  each_prefix Hp; by apply starts_with_head in Hs as <-.
Qed.

(** What is written so far leaves no prefix that could continue into the
    rest. *)
Definition closed_off (p out : string) : Prop := forall v, absent p v -> absent p (out +:+ v).

Lemma secret_prefix_shape p :
  p ∈ SECRET_PREFIXES ->
  p <> "" /\ contains_char (Ascii.ascii_of_nat 91) p = false
  /\ contains_char (Ascii.ascii_of_nat 93) p = false /\ contains_char (Ascii.ascii_of_nat 32) p = false
  /\ contains_char dot p = false /\ absent p "redacted" /\ absent p "HTTP"
  /\ absent p "without a Stripe error body" /\ absent p ".." /\ absent p "" /\ exists c q,
       p = String c q /\ byte_between 48 57 c = false.
Proof.
  intros Hp. each_prefix Hp; by repeat split; eauto.
Qed.

Lemma redact_loop_closed p fuel out rest :
  p ∈ SECRET_PREFIXES -> closed_off p out -> (String.length rest <= fuel)%nat ->
  absent p (redact_loop fuel out rest).
Proof.
  intros Hp. revert out rest. induction fuel as [|fuel IH]; intros out rest Ho Hl; cbn [redact_loop];
    destruct (first_secret rest) as [start|] eqn:E.
  - destruct rest; [done|cbn in Hl; lia].
  - by apply Ho, first_secret_none.
  - pose proof (first_secret_token _ _ E).
    destruct (secret_prefix_shape p Hp) as (Hne & H1 & H2 & _ & _ & Hr & _). apply IH.
    + intros v Hv. rewrite <- !str_app_assoc. apply Ho.
      change ("[redacted]" +:+ v) with (String (Ascii.ascii_of_nat 91) ("redacted" +:+ String (Ascii.ascii_of_nat 93) v)).
      apply absent_across; [done| |by apply absent_across].
      apply absent_before; [done|]. intros i Hi. by eapply first_secret_least.
    + rewrite !drop_bytes_length. lia.
  - by apply Ho, first_secret_none.
Qed.

Lemma redacted_absent p text : p ∈ SECRET_PREFIXES -> absent p (redact_key_like text).
Proof. intros Hp. by apply redact_loop_closed; [|intros v|]. Qed.

Lemma flatten_absent p u cs :
  p ∈ SECRET_PREFIXES -> absent p (u +:+ concat_chars cs) ->
  absent p (u +:+ concat_chars (flatten_control <$> cs)).
Proof.
  intros Hp. destruct (secret_prefix_shape p Hp) as (_ & _ & _ & Hs & _).
  revert u. induction cs as [|c cs IH]; intros u; [done|].
  rewrite fmap_cons, !concat_chars_cons, !str_app_assoc. unfold flatten_control at 1.
  destruct (is_control c); [|apply IH]. intros H. rewrite <- str_app_assoc.
  apply (absent_across p u (Ascii.ascii_of_nat 32)); [done| |].
  - rewrite <- str_app_assoc in H. by eapply absent_left.
  - apply (IH ""). by eapply absent_right.
Qed.

Lemma sanitized_absent p text secret :
  p ∈ SECRET_PREFIXES -> absent p (sanitize_message text secret).
Proof.
  intros Hp. unfold sanitize_message. set (t := if str_eqb secret "" then _ else _).
  assert (absent p (concat_chars (flatten_control <$> chars (redact_key_like t)))) as H.
  { apply (flatten_absent p ""); [done|]. rewrite concat_chars_chars. by apply redacted_absent. }
  revert H. generalize (concat_chars (flatten_control <$> chars (redact_key_like t))). clear t.
  intros t H. destruct (_ <? _)%nat; [|done].
  destruct (secret_prefix_shape p Hp) as (_ & _ & _ & _ & Hd & _ & _ & _ & H2 & _).
  apply (absent_across p _ dot); [done| |done].
  rewrite <- (concat_chars_chars t), <- (take_drop MAX_ERROR_MESSAGE_CHARS (chars t)),
    concat_chars_app in H.
  by eapply absent_left.
Qed.

Lemma http_status_absent p status :
  p ∈ SECRET_PREFIXES -> 0 <= status ->
  absent p ("HTTP " +:+ pretty status +:+ " without a Stripe error body").
Proof.
  intros Hp Hs.
  destruct (secret_prefix_shape p Hp)
    as (_ & _ & _ & Hsp & _ & _ & Hh & Hw & _ & _ & c & q & -> & Hc).
  apply (absent_across _ "HTTP" (Ascii.ascii_of_nat 32)); [done..|].
  apply (absent_across _ (pretty status) (Ascii.ascii_of_nat 32)); [done| |done].
  apply absent_first, all_digits_no; [done|]. by apply all_digits_pretty.
Qed.

(** What is kept of a failed request: nothing of it looks like a key of the
    provider, whatever the answer said, and so it does not name ours. *)
Definition texts_of (error : StripeError.t) : list string :=
  match error with
  | StripeError.Api _ code kind message => message :: option_list code ++ option_list kind
  | StripeError.Transport message | StripeError.Decode message => [message]
  end.

(** The text kept of an error answer of the provider (its message, its code
    and its type) holds no string that starts like a secret of the provider,
    and so never the key the client sends, whatever the body of the answer
    is, even when it quotes the key. *)
Theorem error_text_names_no_key (from_slice : string -> option Value.t) (status : Z)
    (body secret p : string) :
  p ∈ SECRET_PREFIXES -> 0 <= status -> starts_with p secret = true ->
  Forall (fun text => (forall q, q ∈ SECRET_PREFIXES -> absent q text) /\ absent secret text)
    (texts_of (api_error_from_body from_slice status body secret)).
Proof.
  intros Hp Hs Hk.
  assert (forall text, (forall q, q ∈ SECRET_PREFIXES -> absent q text) ->
    (forall q, q ∈ SECRET_PREFIXES -> absent q text) /\ absent secret text) as Hall.
  { intros text H. split; [done|]. eapply absent_longer; [done|by apply H]. }
  unfold api_error_from_body, texts_of. apply Forall_cons. split; [|apply Forall_app; split].
  - apply Hall. intros q Hq. destruct (_ ≫= _); [by apply sanitized_absent|by apply http_status_absent].
  - destruct (_ ≫= _); [|by constructor]. apply Forall_singleton, Hall. intros q Hq.
    by apply sanitized_absent.
  - destruct (_ ≫= _); [|by constructor]. apply Forall_singleton, Hall. intros q Hq.
    by apply sanitized_absent.
Qed.

(** An answer that quotes the key *)
Definition sample_refusal (_ : string) : option Value.t :=
  Some (Value.Object
    [("error", Value.Object
        [("type", Value.String "invalid_request_error");
         ("message", Value.String "Invalid API Key provided: sk_live_51Habc (of acct)")])]).

Lemma error_text_names_no_key_witness :
  api_error_from_body sample_refusal 401 "" "sk_live_51Habc"
  = StripeError.Api 401 None (Some "invalid_request_error")
      "Invalid API Key provided: [redacted] (of acct)"
  /\ Forall (fun text => (forall q, q ∈ SECRET_PREFIXES -> absent q text)
                          /\ absent "sk_live_51Habc" text)
       (texts_of (api_error_from_body sample_refusal 401 "" "sk_live_51Habc")).
Proof.
  split; [vm_compute; reflexivity|].
  apply (error_text_names_no_key sample_refusal 401 "" "sk_live_51Habc" "sk_live_");
    [left|lia|vm_compute; reflexivity].
Defined.

(** ** What the client promises of its answers *)

(** An answer is about the object that was asked for, and a list of refunds
    is the refunds of one payment. *)
Class LawfulStripe (St : Type) `{!StripeApi St} : Prop := {
  session_asked id s s' session :
    get_checkout_session id s = (s', Ok session) -> cs_id session = id;
  intent_asked id s s' intent : get_payment_intent id s = (s', Ok intent) -> pi_id intent = id;
  charge_asked id s s' charge :
    get_payment_charge id s = (s', Ok charge) -> pc_payment_intent charge = id;
  event_asked id s s' event : get_event id s = (s', Ok event) -> se_id event = id;
  dispute_asked id s s' dispute : get_dispute id s = (s', Ok dispute) -> dp_id dispute = id;
  refunds_asked id s s' refunds :
    list_refunds id s = (s', Ok refunds) ->
    Forall (fun refund => Refund.payment_intent refund = Some id) refunds;
}.

Section Promises.
Context {Net : Type}.
Context (send : Request -> Net -> Net * result TransportFailure (Z * result TransportFailure string)).
Context (from_slice : string -> option Value.t) (self : ReqwestStripe).

Lemma checked_ok {A B} (check : StripeResult A) (k : A -> Net -> Net * StripeResult B) net net' b :
  checked check k net = (net', Ok b) -> exists a, check = Ok a /\ k a net = (net', Ok b).
Proof. unfold checked. destruct check; naive_solver. Qed.

Lemma read_ok {A} (answer : Net * StripeResult Value.t) (k : Value.t -> StripeResult A) net' a :
  read answer k = (net', Ok a) -> exists value, answer = (net', Ok value) /\ k value = Ok a.
Proof. unfold read. destruct answer as [n []]; cbn; naive_solver. Qed.

Lemma same_id_ok {A B} (f : Value.t -> StripeResult A) (key : A -> string) id value (k : A -> B) b :
  (let? a := f value in let? _ := check_same_id id (key a) in Ok (k a)) = Ok b ->
  exists a, b = k a /\ key a = id.
Proof.
  destruct (f value) as [a|]; [|done]. unfold check_same_id.
  destruct (str_eqb id (key a)) eqn:E; [|done]. intros [= <-]. exists a. to_prop. done.
Qed.

Ltac asked H :=
  apply checked_ok in H as (? & _ & H); apply read_ok in H as (? & _ & H).

(** Whatever the network answers, the client answers for what was asked: a
    session, payment, charge, event or dispute has the id that was asked
    for, and every refund of a list is a refund of the payment that was
    asked about. *)
Theorem answers_are_what_was_asked : @LawfulStripe Net (reqwest_stripe send from_slice self).
Proof.
  split; intros id s s' a H; asked H.
  - by apply (same_id_ok _ cs_id _ _ (fun x => x)) in H as (? & -> & <-).
  - by apply (same_id_ok _ pi_id _ _ (fun x => x)) in H as (? & -> & <-).
  - by apply (same_id_ok _ pc_payment_intent _ _ (fun x => x)) in H as (? & -> & <-).
  - by apply (same_id_ok _ se_id _ _ (fun x => x)) in H as (? & -> & <-).
  - by apply (same_id_ok _ dp_id _ _ (fun x => x)) in H as (? & -> & <-).
  - unfold list_from_stripe_json in H. destruct (expect_object _ _); [|done].
    destruct (negb _); [done|]. destruct (_ ≫= _); [|done].
    destruct (collect_results _ _) as [rs|]; [|done].
    destruct (existsb _ rs) eqn:E; [done|]. injection H as <-.
    apply Forall_forall. intros r Hr. apply is_some_str_true. apply negb_false_iff.
    apply not_true_iff_false. intros Hx.
    assert (existsb (fun refund => negb (is_some_str (Refund.payment_intent refund) id)) rs = true);
      [|congruence].
    apply existsb_exists. exists r. split; [by apply list_elem_of_In|done].
Qed.

(** ** What the client sends *)

(** A network that records the requests *)
Definition logging (request : Request) (net : list Request * Net)
    : (list Request * Net) * result TransportFailure (Z * result TransportFailure string) :=
  let '(net', answer) := send request net.2 in ((request :: net.1, net'), answer).

(** The reads, as what precedes the id and what follows it *)
Definition READS : list (string * string) :=
  [("/checkout/sessions/", ""); ("/payment_intents/", "");
   ("/payment_intents/", "?expand[]=latest_charge"); ("/events/", ""); ("/disputes/", "");
   ("/refunds?payment_intent=", "&limit=100")].

Definition WRITES : list string := ["/checkout/sessions"; "/refunds"].

Definition proper (request : Request) : Prop :=
  rq_bearer request = secret_key self /\ secret_key self <> ""
  /\ ("Stripe-Version", STRIPE_API_VERSION) ∈ rq_headers request
  /\ match rq_method request with
     | Method.GET => exists before id after,
         rq_url request = STRIPE_API_BASE +:+ before +:+ id +:+ after
         /\ is_valid_stripe_id id = true /\ (before, after) ∈ READS /\ rq_form request = None
     | Method.POST => exists path key,
         rq_url request = STRIPE_API_BASE +:+ path /\ path ∈ WRITES
         /\ is_valid_idempotency_key key = true /\ ("Idempotency-Key", key) ∈ rq_headers request
     end.

(** At most one request, and a proper one *)
Definition asks_properly {A} (op : list Request * Net -> (list Request * Net) * A) : Prop :=
  forall log net, (op (log, net)).1.1 = log
                  \/ exists request, proper request /\ (op (log, net)).1.1 = request :: log.

Lemma checked_properly {A B} (check : StripeResult A) (k : A -> _ -> _ * StripeResult B) :
  (forall a, check = Ok a -> asks_properly (k a)) -> asks_properly (checked check k).
Proof. intros H log net. unfold checked. destruct check; [by apply H|by left]. Qed.

Lemma read_properly {A} (op : list Request * Net -> _ * StripeResult Value.t)
    (k : Value.t -> StripeResult A) :
  asks_properly op -> asks_properly (fun net => read (op net) k).
Proof. intros H log net. apply H. Qed.

Lemma get_properly label before id after :
  is_valid_stripe_id id = true -> (before, after) ∈ READS ->
  asks_properly (call logging from_slice self label Method.GET (before +:+ id +:+ after) None None).
Proof.
  intros Hid Hin log net. unfold call. destruct (str_eqb _ "") eqn:E; [by left|].
  destruct (http self); [|by left]. right. unfold logging. destruct (send _ _) as [net' answer].
  eexists. split; [|done]. to_prop. split; [done|]. split; [done|]. split; [by left|].
  by exists before, id, after.
Qed.

Lemma post_properly label path form key :
  path ∈ WRITES -> is_valid_idempotency_key key = true ->
  asks_properly (call logging from_slice self label Method.POST path (Some form) (Some key)).
Proof.
  intros Hp Hk log net. unfold call. destruct (str_eqb _ "") eqn:E; [by left|].
  destruct (http self); [|by left]. right. unfold logging. destruct (send _ _) as [net' answer].
  eexists. split; [|done]. to_prop. split; [done|]. split; [done|]. split; [by left|].
  exists path, key. do 3 (split; [done|]). by right; left.
Qed.

Lemma check_id_ok id u : check_id id = Ok u -> is_valid_stripe_id id = true.
Proof. unfold check_id. by destruct (is_valid_stripe_id id). Qed.

Lemma check_key_ok key u : check_idempotency_key key = Ok u -> is_valid_idempotency_key key = true.
Proof. unfold check_idempotency_key. by destruct (is_valid_idempotency_key key). Qed.

Lemma plain_get_properly {A} label before id (k : Value.t -> StripeResult A) :
  (before, "") ∈ READS ->
  asks_properly (checked (check_id id) (fun _ net =>
    read (call logging from_slice self label Method.GET (before +:+ id) None None net) k)).
Proof.
  intros Hin. apply checked_properly. intros u Hid%check_id_ok. apply read_properly.
  rewrite <- (str_app_nil id). by apply get_properly; rewrite ?str_app_nil.
Qed.

(** Every operation of the client sends at most one request, only with a key
    configured, and that request is proper: a read places one well-formed id
    in a fixed path and nothing else; a write goes to a fixed path and
    carries a well-formed idempotency key.  An id or a key that is not well
    formed sends nothing. *)
Theorem requests_are_proper :
  let api := reqwest_stripe logging from_slice self in
  (forall p key, asks_properly (@create_checkout_session _ api p key))
  /\ (forall id, asks_properly (@get_checkout_session _ api id))
  /\ (forall id, asks_properly (@get_payment_intent _ api id))
  /\ (forall id, asks_properly (@get_payment_charge _ api id))
  /\ (forall id, asks_properly (@get_event _ api id))
  /\ (forall id key, asks_properly (@create_refund _ api id key))
  /\ (forall id, asks_properly (@get_dispute _ api id))
  /\ (forall id, asks_properly (@list_refunds _ api id)).
Proof.
  cbn -[checked read call]. repeat split; intros; try (apply plain_get_properly; set_solver).
  - apply checked_properly. intros u Hk%check_key_ok. apply read_properly, post_properly; [|done].
    by left.
  - apply checked_properly. intros path. unfold payment_charge_path.
    destruct (check_id id) eqn:E; [|done]. intros [= <-]. apply check_id_ok in E.
    apply read_properly, get_properly; [done|set_solver].
  - apply checked_properly. intros u Hid. apply checked_properly. intros u' Hk%check_key_ok.
    apply read_properly, post_properly; [set_solver|done].
  - apply checked_properly. intros u Hid%check_id_ok. apply read_properly, get_properly; [done|].
    set_solver.
Qed.
End Promises.
