(* ===== verification/PaymentEvents.v ===== *)
(** * Payment events (crates/core/database/src/models/payment_events)

    The record kept of every provider event, by its id, and the operations
    of the in-memory driver. *)

From stdpp Require Import base numbers list gmap strings sorting.
From S2P Require Import Prelude Errors.
Open Scope Z_scope.

Module PaymentEventState.
Inductive t : Type := Received | Processed | Ignored | Failed.
#[global] Instance eq_dec : EqDecision t.
Proof. solve_decision. Defined.
End PaymentEventState.

Record PaymentEvent : Type := mkEvent {
  ev_id : string;
  ev_event_type : string;
  ev_livemode : bool;
  ev_received_at : Z;
  ev_state : PaymentEventState.t;
  ev_attempts : Z;
  ev_last_error : option string;
}.

Abbreviation Events := (gmap string PaymentEvent).

Definition insert_payment_event_if_absent (es : Events) (e : PaymentEvent) : Events * Result bool :=
  match es !! ev_id e with
  | Some _ => (es, Ok false)
  | None => (<[ev_id e := e]> es, Ok true)
  end.

Definition fetch_payment_event (es : Events) (id : string) : Result (option PaymentEvent) :=
  Ok (es !! id).

Definition saturating_add_u32 (a b : Z) : Z := Z.min (a + b) u32_max.

Definition set_payment_event_state (es : Events) (id : string) (state : PaymentEventState.t)
    (last_error : option string) : Events * Result unit :=
  match es !! id with
  | Some row =>
      (<[id := mkEvent (ev_id row) (ev_event_type row) (ev_livemode row) (ev_received_at row) state
                 (saturating_add_u32 (ev_attempts row) 1) last_error]> es, Ok tt)
  | None => (es, Err ErrorType.NotFound)
  end.

(** By [received_at], then by id *)
Definition event_oldest_leb (a b : PaymentEvent) : bool :=
  (ev_received_at a <? ev_received_at b)
  || ((ev_received_at a =? ev_received_at b) && str_leb (ev_id a) (ev_id b)).

Definition oldest_first (rows : list PaymentEvent) (limit : Z) : list PaymentEvent :=
  let rows := sort_by event_oldest_leb rows in
  if limit =? 0 then rows else take (Z.to_nat (Z.abs limit)) rows.

Section Ops.
Context `{!HashIter string PaymentEvent}.

Definition fetch_failed_payment_events (es : Events) (max_attempts limit : Z)
    : Result (list PaymentEvent) :=
  Ok (oldest_first
        (List.filter (fun row => bool_decide (ev_state row = PaymentEventState.Failed)
                                 && (ev_attempts row <? max_attempts)) (hm_values es)) limit).

Definition fetch_payment_events_by_state (es : Events) (state : PaymentEventState.t)
    (before limit : Z) : Result (list PaymentEvent) :=
  Ok (oldest_first
        (List.filter (fun row => bool_decide (ev_state row = state)
                                 && (ev_received_at row <? before)) (hm_values es)) limit).
End Ops.
