(* ===== verification/PaymentsWorld.v ===== *)
(** * The world of the payments engine

    The shared state the engine works on (the collections of the in-memory
    database it uses, the Prot configuration, the payment provider) and each
    database or provider call as one atomic operation on it.  The operations
    are those of PaymentOrders, CipherNumbers, CipherMemberships, ProtStore
    and PaymentEvents; nothing here decides anything. *)

From stdpp Require Import base numbers list gmap strings.
From S2P Require Import Prelude Errors Program CipherMemberships CipherNumbers ProtLedger.
From S2P Require Import ProtStore PaymentOrders Catalog Settings StripeApi PaymentEvents.
Open Scope Z_scope.

(** The fields of a user document the engine reads: flags, whether it is a
    bot, and the public Cipher badge *)
Record UserDoc : Type := mkUserDoc {
  ud_flags : option Z;
  ud_bot : bool;
  ud_cipher : option (Z * CipherTier);
}.

(** What the engine runs on: the provider, the SHA-256 hex digest, fresh
    ULIDs, and the iteration order of every hash map it walks *)
Class Env : Type := {
  St : Type;
  env_stripe :: StripeApi St;
  sha256_hex : string -> string;
  ulid : nat -> string;
  iter_orders :: HashIter string PaymentOrder;
  iter_numbers :: HashIter Z CipherNumber;
  iter_memberships :: HashIter string CipherMembership;
  iter_ledger :: HashIter string ProtLedgerEntry;
  iter_events :: HashIter string PaymentEvent;
}.

(** [w_ids] counts the ULIDs handed out, [w_refunds] the refunds asked for
    (payment intent and idempotency key, newest first), [w_balance_events]
    the wallet balances published to their owners *)
Record World `{!Env} : Type := mkWorld {
  w_orders : Orders;
  w_numbers : Numbers;
  w_prot : ProtDb;
  w_users : gmap string UserDoc;
  w_events : Events;
  w_config : FeaturePayments * ProtectionFeatures;
  w_stripe : St;
  w_refunds : list (string * string);
  w_balance_events : list (string * Z * Z);
  w_ids : nat;
}.

Section World.
Context `{!Env}.

Definition set_orders (w : World) (os : Orders) : World :=
  mkWorld _ os (w_numbers w) (w_prot w) (w_users w) (w_events w) (w_config w) (w_stripe w)
    (w_refunds w) (w_balance_events w) (w_ids w).
Definition set_numbers (w : World) (ns : Numbers) : World :=
  mkWorld _ (w_orders w) ns (w_prot w) (w_users w) (w_events w) (w_config w) (w_stripe w)
    (w_refunds w) (w_balance_events w) (w_ids w).
Definition set_prot (w : World) (p : ProtDb) : World :=
  mkWorld _ (w_orders w) (w_numbers w) p (w_users w) (w_events w) (w_config w) (w_stripe w)
    (w_refunds w) (w_balance_events w) (w_ids w).
Definition set_users (w : World) (us : gmap string UserDoc) : World :=
  mkWorld _ (w_orders w) (w_numbers w) (w_prot w) us (w_events w) (w_config w) (w_stripe w)
    (w_refunds w) (w_balance_events w) (w_ids w).
Definition set_events (w : World) (es : Events) : World :=
  mkWorld _ (w_orders w) (w_numbers w) (w_prot w) (w_users w) es (w_config w) (w_stripe w)
    (w_refunds w) (w_balance_events w) (w_ids w).
Definition set_stripe (w : World) (st : St) : World :=
  mkWorld _ (w_orders w) (w_numbers w) (w_prot w) (w_users w) (w_events w) (w_config w) st
    (w_refunds w) (w_balance_events w) (w_ids w).
Definition set_refunds (w : World) (rs : list (string * string)) : World :=
  mkWorld _ (w_orders w) (w_numbers w) (w_prot w) (w_users w) (w_events w) (w_config w)
    (w_stripe w) rs (w_balance_events w) (w_ids w).
Definition set_balance_events (w : World) (bs : list (string * Z * Z)) : World :=
  mkWorld _ (w_orders w) (w_numbers w) (w_prot w) (w_users w) (w_events w) (w_config w)
    (w_stripe w) (w_refunds w) bs (w_ids w).
Definition set_ids (w : World) (n : nat) : World :=
  mkWorld _ (w_orders w) (w_numbers w) (w_prot w) (w_users w) (w_events w) (w_config w)
    (w_stripe w) (w_refunds w) (w_balance_events w) n.

Definition memberships (w : World) : Memberships := cipher_memberships (w_prot w).
Definition set_memberships (w : World) (ms : Memberships) : World :=
  set_prot w (mkProtDb ms (prot_ledger (w_prot w)) (prot_accounts (w_prot w))).

Abbreviation P A := (prog World A).
Abbreviation M A := (Eff World A).

(** ** Operations *)

Definition reading {A} (f : World -> A) : P A := atom (fun w => (w, f w)).

Definition on_orders {A} (f : Orders -> Orders * A) : P A :=
  atom (fun w => let '(os, a) := f (w_orders w) in (set_orders w os, a)).
Definition on_numbers {A} (f : Numbers -> Numbers * A) : P A :=
  atom (fun w => let '(ns, a) := f (w_numbers w) in (set_numbers w ns, a)).
Definition on_memberships {A} (f : Memberships -> Memberships * A) : P A :=
  atom (fun w => let '(ms, a) := f (memberships w) in (set_memberships w ms, a)).
Definition on_events {A} (f : Events -> Events * A) : P A :=
  atom (fun w => let '(es, a) := f (w_events w) in (set_events w es, a)).
(** A ledger operation, with the ULID it may use *)
Definition on_prot {A} (f : string -> ProtDb -> ProtDb * A) : P A :=
  atom (fun w => let '(p, a) := f (ulid (w_ids w)) (w_prot w) in
                 (set_ids (set_prot w p) (S (w_ids w)), a)).
Definition on_stripe {A} (f : St -> St * A) : P A :=
  atom (fun w => let '(st, a) := f (w_stripe w) in (set_stripe w st, a)).

(** [Ulid::new().to_string()] *)
Definition new_ulid : P string := atom (fun w => (set_ids w (S (w_ids w)), ulid (w_ids w))).

Definition db_insert_payment_order (o : PaymentOrder) : M unit :=
  on_orders (fun os => insert_payment_order os o).
Definition db_fetch_payment_order (id : string) : M (option PaymentOrder) :=
  reading (fun w => fetch_payment_order (w_orders w) id).
Definition db_fetch_payment_order_by_session (id : string) : M (option PaymentOrder) :=
  reading (fun w => fetch_payment_order_by_session (w_orders w) id).
Definition db_fetch_payment_order_by_intent (id : string) : M (option PaymentOrder) :=
  reading (fun w => fetch_payment_order_by_intent (w_orders w) id).
Definition db_fetch_payment_orders_by_user (user_id : string) (states : list OrderState.t)
    : M (list PaymentOrder) :=
  reading (fun w => fetch_payment_orders_by_user (w_orders w) user_id states).
Definition db_fetch_payment_orders_by_state (states : list OrderState.t) (before limit : Z)
    : M (list PaymentOrder) :=
  reading (fun w => fetch_payment_orders_by_state (w_orders w) states before limit).
Definition db_fetch_payment_orders_reversal_pending (states : list OrderState.t) (now limit : Z)
    : M (list PaymentOrder) :=
  reading (fun w => fetch_payment_orders_reversal_pending (w_orders w) states now limit).
Definition db_fetch_payment_orders_disputed (states : list OrderState.t) (now limit : Z)
    : M (list PaymentOrder) :=
  reading (fun w => fetch_payment_orders_disputed (w_orders w) states now limit).
Definition db_fetch_payment_orders_refund_settling (now limit : Z) : M (list PaymentOrder) :=
  reading (fun w => fetch_payment_orders_refund_settling (w_orders w) now limit).
Definition db_acquire_payment_order_lease (id : string) (now until : Z) : M (option PaymentOrder) :=
  on_orders (fun os => acquire_payment_order_lease os id now until).
Definition db_release_payment_order_lease (id : string) (until : Z) : M unit :=
  on_orders (fun os => release_payment_order_lease os id until).
Definition db_update_payment_order_if_state (o : PaymentOrder) (expected : OrderState.t) : M bool :=
  on_orders (fun os => update_payment_order_if_state os o expected).
Definition db_unlink_payment_orders_by_user (user_id : string) : M unit :=
  on_orders (fun os => unlink_payment_orders_by_user os user_id).

(** The driver's [expect] on the row it has just read is the [Panic] *)
Definition db_claim_cipher_number (order_id : string) (cap : Z) : M (option Z) :=
  bind (atom (fun w => match claim_cipher_number (w_numbers w) order_id cap with
                       | Some (ns, r) => (set_numbers w ns, Some r)
                       | None => (w, None)
                       end))
    (fun r => match r with Some r => Ret r | None => Panic end).
Definition db_fetch_cipher_number_by_order (order_id : string) : M (option Z) :=
  reading (fun w => fetch_cipher_number_by_order (w_numbers w) order_id).
Definition db_fetch_cipher_number_row_by_order (order_id : string) : M (option CipherNumber) :=
  reading (fun w => fetch_cipher_number_row_by_order (w_numbers w) order_id).
Definition db_mark_cipher_number_release (order_id : string) (at_ : Z) : M bool :=
  on_numbers (fun ns => mark_cipher_number_release ns order_id at_).
Definition db_cancel_cipher_number_release (order_id : string) : M bool :=
  on_numbers (fun ns => cancel_cipher_number_release ns order_id).
Definition db_release_cipher_number (order_id : string) : M bool :=
  on_numbers (fun ns => release_cipher_number ns order_id).
Definition db_fetch_cipher_numbers_release_pending (limit : Z) : M (list CipherNumber) :=
  reading (fun w => fetch_cipher_numbers_release_pending (w_numbers w) limit).
Definition db_count_claimed_cipher_numbers : M Z :=
  reading (fun w => count_claimed_cipher_numbers (w_numbers w)).
Definition db_count_cipher_numbers : M Z := reading (fun w => count_cipher_numbers (w_numbers w)).

Definition db_fetch_cipher_membership (user_id : string) : M (option CipherMembership) :=
  reading (fun w => fetch_cipher_membership (memberships w) user_id).
Definition db_fetch_cipher_membership_by_number (number : Z) : M (option CipherMembership) :=
  reading (fun w => fetch_cipher_membership_by_number (memberships w) number).
Definition db_insert_cipher_membership (m : CipherMembership) : M bool :=
  on_memberships (fun ms => insert_cipher_membership ms m).
Definition db_update_cipher_membership_if_version (m : CipherMembership) (expected : Z) : M bool :=
  on_memberships (fun ms => update_cipher_membership_if_version ms m expected).
Definition db_delete_cipher_membership (user_id : string) : M unit :=
  on_memberships (fun ms => delete_cipher_membership ms user_id).
Definition db_delete_cipher_membership_if_version (user_id : string) (expected : Z) : M bool :=
  on_memberships (fun ms => delete_cipher_membership_if_version ms user_id expected).

Definition db_fetch_prot_account (id : string) : M (option ProtAccount) :=
  reading (fun w => fetch_prot_account (w_prot w) id).
Definition db_fetch_prot_entry_by_key (key : string) : M (option ProtLedgerEntry) :=
  reading (fun w => fetch_prot_entry_by_key (w_prot w) key).
Definition db_fetch_prot_entries_by_account (id : string) (before : option string) (limit : Z)
    : M (list ProtLedgerEntry) :=
  reading (fun w => fetch_prot_entries_by_account (w_prot w) id before limit).
Definition db_fetch_prot_entries_by_order (order_id : string) : M (list ProtLedgerEntry) :=
  reading (fun w => fetch_prot_entries_by_order (w_prot w) order_id).
Definition db_fetch_prot_entries_by_membership (base : string) : M (list ProtLedgerEntry) :=
  reading (fun w => fetch_prot_entries_by_membership (w_prot w) base).
Definition db_sum_prot_credits_since (id : string) (kinds : list ProtEntryKind.t) (since : Z) : M Z :=
  reading (fun w => sum_prot_credits_since (w_prot w) id kinds since).
Definition db_apply_prot_posting (p : ProtPosting) : M ProtApplyOutcome :=
  on_prot (fun new_id db => apply_prot_posting sha256_hex new_id db p).
Definition db_sync_cipher_prot (user_id : string) (now : Z) : M CipherProtSync :=
  on_prot (fun new_id db => sync_cipher_prot sha256_hex new_id user_id now db).
Definition db_clawback_cipher_prot (user_id order_id : string) (now : Z)
    : M (option ProtApplyOutcome) :=
  on_prot (fun new_id db => clawback_cipher_prot sha256_hex new_id user_id order_id now db).

(** [forfeit_prot_wallet]: each pass and each balance read takes the locks on
    its own *)
Definition wallet_balance (user_id : string) : M Z :=
  let! account := db_fetch_prot_account (prot_user_account user_id) in
  ok (from_option pa_balance 0 account).

Fixpoint forfeit_passes_loop (left_ : nat) (user_id : string) (now : Z)
    : M (option ProtApplyOutcome) :=
  match left_ with
  | O => fail ErrorType.InternalError
  | S left' =>
      let! outcome := on_prot (fun new_id => prot_forfeit_pass sha256_hex new_id user_id now) in
      match outcome with
      | Applied entry => ok (Some (Applied entry))
      | AlreadyApplied entry =>
          let! b := wallet_balance user_id in
          if b <=? 0 then ok (Some (AlreadyApplied entry))
          else forfeit_passes_loop left' user_id now
      end
  end.

Definition db_forfeit_prot_wallet (user_id : string) (now : Z) : M (option ProtApplyOutcome) :=
  let! b := wallet_balance user_id in
  if b <=? 0 then ok None else forfeit_passes_loop PROT_STATE_RETRIES user_id now.

Definition db_fetch_user (user_id : string) : M UserDoc :=
  reading (fun w => ok_or (w_users w !! user_id) ErrorType.NotFound).

(** [update_user] with only the Cipher badge set or removed *)
Definition db_update_user_cipher (user_id : string) (cipher : option (Z * CipherTier)) : M unit :=
  atom (fun w => match w_users w !! user_id with
                 | Some u => (set_users w (<[user_id := mkUserDoc (ud_flags u) (ud_bot u) cipher]>
                                             (w_users w)), Ok tt)
                 | None => (w, Err ErrorType.NotFound)
                 end).

Definition db_insert_payment_event_if_absent (e : PaymentEvent) : M bool :=
  on_events (fun es => insert_payment_event_if_absent es e).
Definition db_fetch_payment_event (id : string) : M (option PaymentEvent) :=
  reading (fun w => fetch_payment_event (w_events w) id).
Definition db_set_payment_event_state (id : string) (state : PaymentEventState.t)
    (last_error : option string) : M unit :=
  on_events (fun es => set_payment_event_state es id state last_error).
Definition db_fetch_failed_payment_events (max_attempts limit : Z) : M (list PaymentEvent) :=
  reading (fun w => fetch_failed_payment_events (w_events w) max_attempts limit).
Definition db_fetch_payment_events_by_state (state : PaymentEventState.t) (before limit : Z)
    : M (list PaymentEvent) :=
  reading (fun w => fetch_payment_events_by_state (w_events w) state before limit).

(** [ProtSalesSettings::load_or_closed()] *)
Definition load_prot_or_closed : P ProtSalesSettings :=
  reading (fun w => load_or_closed (w_config w).1 (w_config w).2).

(** [EventV1::ProtBalanceUpdate { .. }.private(user_id)] *)
Definition publish_prot_balance (user_id : string) (balance version : Z) : P unit :=
  atom (fun w => (set_balance_events w ((user_id, balance, version) :: w_balance_events w), tt)).

(** The refund call, kept in the log *)
Definition stripe_create_refund (payment_intent key : string) : P (StripeResult Refund.t) :=
  atom (fun w => let '(st, r) := create_refund payment_intent key (w_stripe w) in
                 (set_refunds (set_stripe w st) ((payment_intent, key) :: w_refunds w), r)).
End World.
