(* ===== verification/EngineCore.v ===== *)
(** * The payments engine: leases, refunds and shared steps
    (crates/core/payments/src/engine.rs)

    What every engine function is built from: an order held under its lease
    and written through [write], the refund calls, the checks of a session
    against its order, the badge and the dispute listing.

    A function that takes [&mut Leased] is an [L]: it threads the leased copy
    of the order also through its errors, because its caller releases the
    lease (or goes on) with whatever copy is left. *)

From stdpp Require Import base numbers list gmap strings.
From S2P Require Import Prelude Errors Program CipherMemberships CipherNumbers ProtLedger.
From S2P Require Import ProtStore PaymentOrders Catalog Settings StripeApi PaymentEvents.
From S2P Require Import PaymentsWorld.
Open Scope Z_scope.

(** ** Constants *)

Definition LEASE_MS : Z := 120000.
Definition SESSION_TTL_SECS : Z := 35 * 60.
Definition REFUND_RELEASE_WINDOW_MS : Z := 14 * 24 * 3600 * 1000.
Definition REFUND_GRACE_MS : Z := 3 * 24 * 3600 * 1000.
Definition MEMBERSHIP_RETRIES : nat := 5.
Definition BADGE_SYNC_RETRIES : nat := 5.
Definition CREATING_BLOCKS_MS : Z := 2 * 60 * 1000.
Definition CHARGE_ALREADY_REFUNDED : string := "charge_already_refunded".
Definition CARD_COUNTRY_WAIT_MS : Z := 30 * 60 * 1000.
Definition REGION_REFUSAL_MS : Z := 30 * 24 * 3600 * 1000.

(** ** Outcomes *)

Module RefundStatus.
Inductive t : Type := Succeeded | Pending | Failed.
#[global] Instance eq_dec : EqDecision t.
Proof. solve_decision. Defined.
End RefundStatus.

Record RefundFacts : Type := mkFacts {
  rf_refunded_at_ms : Z;
  rf_full : bool;
  rf_status : RefundStatus.t;
}.

Module FulfilOutcome.
Inductive t : Type :=
| Fulfilled | AlreadyFulfilled | LeaseHeld | Voided (reason : VoidReason.t)
| VoidDeferred (reason : VoidReason.t) | NotPaid | Ignored.
End FulfilOutcome.

Module ReverseKind.
Inductive t : Type := Refund | DisputeOpened | DisputeWon | DisputeLost.
#[global] Instance eq_dec : EqDecision t.
Proof. solve_decision. Defined.
End ReverseKind.

Module ReverseOutcome.
Inductive t : Type := Applied | RecordedPending | NoOp | Busy.
End ReverseOutcome.

#[global] Instance void_reason_eq_dec : EqDecision VoidReason.t.
Proof. solve_decision. Defined.
#[global] Instance reversal_pending_eq_dec : EqDecision ReversalPending.t.
Proof. solve_decision. Defined.
#[global] Instance cipher_tier_eq_dec : EqDecision CipherTier.
Proof. solve_decision. Defined.
#[global] Instance sku_eq_dec : EqDecision Sku.
Proof. solve_decision. Defined.
#[global] Instance revoke_reason_eq_dec : EqDecision CipherRevokeReason.
Proof. solve_decision. Defined.
#[global] Instance membership_eq_dec : EqDecision CipherMembership.
Proof. solve_decision. Defined.

(** ** Field writes of an order *)

Definition set_state (x : OrderState.t) (o : PaymentOrder) : PaymentOrder :=
  mkOrder (po_id o) (po_user_id o) (po_provider o) (po_sku o) (po_amount_cents o) (po_currency o)
    (po_checkout_session_id o) (po_checkout_url o) (po_session_expires_at o)
    (po_payment_intent_id o) x (po_void_reason o) (po_region_blocked_country o)
    (po_reversal_pending o) (po_refund_settling_since o) (po_open_disputes o) (po_lease_until o)
    (po_version o) (po_created_at o) (po_paid_at o) (po_fulfilled_at o) (po_reversed_at o).
Definition set_session (id url : option string) (expires : option Z) (o : PaymentOrder)
    : PaymentOrder :=
  mkOrder (po_id o) (po_user_id o) (po_provider o) (po_sku o) (po_amount_cents o) (po_currency o)
    id url expires (po_payment_intent_id o) (po_state o) (po_void_reason o)
    (po_region_blocked_country o) (po_reversal_pending o) (po_refund_settling_since o)
    (po_open_disputes o) (po_lease_until o) (po_version o) (po_created_at o) (po_paid_at o)
    (po_fulfilled_at o) (po_reversed_at o).
(** [payment_intent_id], [paid_at] *)
Definition set_paid (intent : option string) (at_ : option Z) (o : PaymentOrder) : PaymentOrder :=
  mkOrder (po_id o) (po_user_id o) (po_provider o) (po_sku o) (po_amount_cents o) (po_currency o)
    (po_checkout_session_id o) (po_checkout_url o) (po_session_expires_at o) intent (po_state o)
    (po_void_reason o) (po_region_blocked_country o) (po_reversal_pending o)
    (po_refund_settling_since o) (po_open_disputes o) (po_lease_until o) (po_version o)
    (po_created_at o) at_ (po_fulfilled_at o) (po_reversed_at o).
Definition set_void_reason (x : option VoidReason.t) (o : PaymentOrder) : PaymentOrder :=
  mkOrder (po_id o) (po_user_id o) (po_provider o) (po_sku o) (po_amount_cents o) (po_currency o)
    (po_checkout_session_id o) (po_checkout_url o) (po_session_expires_at o)
    (po_payment_intent_id o) (po_state o) x (po_region_blocked_country o) (po_reversal_pending o)
    (po_refund_settling_since o) (po_open_disputes o) (po_lease_until o) (po_version o)
    (po_created_at o) (po_paid_at o) (po_fulfilled_at o) (po_reversed_at o).
Definition set_region (x : option string) (o : PaymentOrder) : PaymentOrder :=
  mkOrder (po_id o) (po_user_id o) (po_provider o) (po_sku o) (po_amount_cents o) (po_currency o)
    (po_checkout_session_id o) (po_checkout_url o) (po_session_expires_at o)
    (po_payment_intent_id o) (po_state o) (po_void_reason o) x (po_reversal_pending o)
    (po_refund_settling_since o) (po_open_disputes o) (po_lease_until o) (po_version o)
    (po_created_at o) (po_paid_at o) (po_fulfilled_at o) (po_reversed_at o).
(** [reversal_pending], [open_disputes] *)
Definition set_reversal (x : option ReversalPending.t) (o : PaymentOrder) : PaymentOrder :=
  mkOrder (po_id o) (po_user_id o) (po_provider o) (po_sku o) (po_amount_cents o) (po_currency o)
    (po_checkout_session_id o) (po_checkout_url o) (po_session_expires_at o)
    (po_payment_intent_id o) (po_state o) (po_void_reason o) (po_region_blocked_country o) x
    (po_refund_settling_since o) (po_open_disputes o) (po_lease_until o) (po_version o)
    (po_created_at o) (po_paid_at o) (po_fulfilled_at o) (po_reversed_at o).
Definition set_disputes (x : list string) (o : PaymentOrder) : PaymentOrder :=
  mkOrder (po_id o) (po_user_id o) (po_provider o) (po_sku o) (po_amount_cents o) (po_currency o)
    (po_checkout_session_id o) (po_checkout_url o) (po_session_expires_at o)
    (po_payment_intent_id o) (po_state o) (po_void_reason o) (po_region_blocked_country o)
    (po_reversal_pending o) (po_refund_settling_since o) x (po_lease_until o) (po_version o)
    (po_created_at o) (po_paid_at o) (po_fulfilled_at o) (po_reversed_at o).
Definition set_settling (x : option Z) (o : PaymentOrder) : PaymentOrder :=
  mkOrder (po_id o) (po_user_id o) (po_provider o) (po_sku o) (po_amount_cents o) (po_currency o)
    (po_checkout_session_id o) (po_checkout_url o) (po_session_expires_at o)
    (po_payment_intent_id o) (po_state o) (po_void_reason o) (po_region_blocked_country o)
    (po_reversal_pending o) x (po_open_disputes o) (po_lease_until o) (po_version o)
    (po_created_at o) (po_paid_at o) (po_fulfilled_at o) (po_reversed_at o).
(** [fulfilled_at], [reversed_at] *)
Definition set_fulfilled_at (x : option Z) (o : PaymentOrder) : PaymentOrder :=
  mkOrder (po_id o) (po_user_id o) (po_provider o) (po_sku o) (po_amount_cents o) (po_currency o)
    (po_checkout_session_id o) (po_checkout_url o) (po_session_expires_at o)
    (po_payment_intent_id o) (po_state o) (po_void_reason o) (po_region_blocked_country o)
    (po_reversal_pending o) (po_refund_settling_since o) (po_open_disputes o) (po_lease_until o)
    (po_version o) (po_created_at o) (po_paid_at o) x (po_reversed_at o).
Definition set_reversed_at (x : option Z) (o : PaymentOrder) : PaymentOrder :=
  mkOrder (po_id o) (po_user_id o) (po_provider o) (po_sku o) (po_amount_cents o) (po_currency o)
    (po_checkout_session_id o) (po_checkout_url o) (po_session_expires_at o)
    (po_payment_intent_id o) (po_state o) (po_void_reason o) (po_region_blocked_country o)
    (po_reversal_pending o) (po_refund_settling_since o) (po_open_disputes o) (po_lease_until o)
    (po_version o) (po_created_at o) (po_paid_at o) (po_fulfilled_at o) x.

(** The writes more than one function makes *)

(** [if o.checkout_session_id.is_none() { o.checkout_session_id = Some(id) }] *)
Definition keep_session (id : string) (o : PaymentOrder) : PaymentOrder :=
  match po_checkout_session_id o with
  | None => set_session (Some id) (po_checkout_url o) (po_session_expires_at o) o
  | Some _ => o
  end.

Definition to_refunded (now : Z) (o : PaymentOrder) : PaymentOrder :=
  set_reversal None (set_reversed_at (Some now) (set_state OrderState.Refunded o)).

(** ** The lease monad *)

Record Leased : Type := mkLeased { l_order : PaymentOrder; l_until : Z }.

Section Core.
Context `{!Env}.

Definition L (A : Type) : Type := Leased -> prog World (Leased * Result A).

Definition lret {A} (a : A) : L A := fun l => Ret (l, Ok a).
Definition lfail {A} (e : ErrorType.t) : L A := fun l => Ret (l, Err e).
Definition lbind {A B} (c : L A) (k : A -> L B) : L B := fun l =>
  bind (c l) (fun '(l', r) => match r with Ok a => k a l' | Err e => Ret (l', Err e) end).
(** A call that does not see the lease *)
Definition lift {A} (c : Eff World A) : L A := fun l => bind c (fun r => Ret (l, r)).
(** [match c.await { Ok(..) => .., Err(..) => .. }]: the error is a value *)
Definition try {A} (c : L A) : L (Result A) := fun l => bind (c l) (fun '(l', r) => Ret (l', Ok r)).
Definition this_order : L PaymentOrder := fun l => Ret (l, Ok (l_order l)).
Definition set_order (o : PaymentOrder) : L unit := fun l => Ret (mkLeased o (l_until l), Ok tt).
End Core.

Notation "'let~' x ':=' c 'in' k" := (lbind c (fun x => k))
  (at level 10, x pattern, c at level 100, k at level 200) : sloga_scope.

Section Engine.
Context `{!Env}.

Abbreviation M A := (Eff World A).

(** ** Leases *)

Definition acquire (order_id : string) (now_ms : Z) : M (option Leased) :=
  let until := saturating_add_i64 now_ms LEASE_MS in
  let! row := db_acquire_payment_order_lease order_id now_ms until in
  match row with
  | Some order => ok (Some (mkLeased order until))
  | None =>
      let! stored := db_fetch_payment_order order_id in
      match stored with Some _ => ok None | None => fail ErrorType.NotFound end
  end.

(** A failed release is only logged *)
Definition release (l : Leased) : prog World unit :=
  do! _ <- db_release_payment_order_lease (po_id (l_order l)) (l_until l); Ret tt.

(** Run under a lease taken now; [held] is the answer when it is not free *)
Definition with_lease {A} (order_id : string) (now_ms : Z) (held : M A) (body : L A) : M A :=
  let! leased := acquire order_id now_ms in
  match leased with
  | None => held
  | Some l => do! (l', r) <- body l; do! _ <- release l'; Ret r
  end.

Definition write (change : PaymentOrder -> PaymentOrder) : L unit := fun l =>
  let expected := po_state (l_order l) in
  let next := change (l_order l) in
  do! r <- db_update_payment_order_if_state next expected;
  match r with
  | Err e => Ret (l, Err e)
  | Ok true =>
      Ret (mkLeased (with_meta next (po_user_id next) (po_lease_until next) (po_version next + 1))
             (l_until l), Ok tt)
  | Ok false =>
      do! _ <- db_fetch_payment_order (po_id next);   (* for the log *)
      Ret (l, Err ErrorType.InternalError)
  end.

(** ** Refunds *)

Definition void_key (order_id : string) : string := "void-" +:+ order_id.
Definition release_upgrade_key (order_id : string) : string := "release-upgrade-" +:+ order_id.

Inductive RefundAsked : Type := Done | AlreadyRefunded | Unsettled | Refused.

Definition ask_refund (payment_intent key : string) : M RefundAsked :=
  do! r <- stripe_create_refund payment_intent key;
  match r with
  | Ok refund =>
      ok (if is_some_str (Refund.status refund) "failed"
             || is_some_str (Refund.status refund) "canceled" then Refused
          else if is_some_str (Refund.status refund) "succeeded" then Done else Unsettled)
  | Err (StripeError.Api _ (Some code) _ _) =>
      if str_eqb code CHARGE_ALREADY_REFUNDED then ok AlreadyRefunded
      else fail ErrorType.PaymentProviderError
  | Err _ => fail ErrorType.PaymentProviderError
  end.

Definition refund_for_void (payment_intent order_id : string) : M bool :=
  let! asked := ask_refund payment_intent (void_key order_id) in
  match asked with
  | Refused => ok false
  | Done | AlreadyRefunded | Unsettled => ok true
  end.

(** [.map_err(provider_error)] on a provider call *)
Definition ask_stripe {A} (f : St -> St * StripeResult A) : M A :=
  do! r <- on_stripe f;
  match r with Ok a => ok a | Err _ => fail ErrorType.PaymentProviderError end.

Definition card_country_unreadable (err : StripeError.t) : bool :=
  match err with
  | StripeError.Api status _ kind _ =>
      ((status =? 400) || (status =? 403) || (status =? 404))
      && (is_some_str kind "permission_error" || is_some_str kind "invalid_request_error")
  | StripeError.Decode _ => true
  | StripeError.Transport _ => false
  end.

(** ** Buyers, disputes and sessions *)

Definition FLAG_DELETED : Z := 2.

Definition is_deleted (u : UserDoc) : bool :=
  negb (Z.land (default 0 (ud_flags u)) FLAG_DELETED =? 0).

Definition buyer_is_live (user_id : string) : M bool :=
  do! r <- db_fetch_user user_id;
  match r with
  | Ok user => ok (negb (is_deleted user))
  | Err ErrorType.NotFound => ok false
  | Err e => fail e
  end.

Definition pending_kind (p : ReversalPending.t) : ReverseKind.t :=
  match p with
  | ReversalPending.Refund => ReverseKind.Refund
  | ReversalPending.DisputeLost => ReverseKind.DisputeLost
  end.

Definition is_empty {A} (l : list A) : bool := match l with [] => true | _ => false end.

Definition is_disputed (o : PaymentOrder) : bool :=
  negb (is_empty (po_open_disputes o))
  || eqb (po_reversal_pending o) (Some ReversalPending.DisputeLost).

Definition contains (l : list string) (x : string) : bool := existsb (str_eqb x) l.

Definition without (l : list string) (x : string) : list string :=
  List.filter (fun y => negb (str_eqb y x)) l.

Definition disputes_after (o : PaymentOrder) (kind : ReverseKind.t) (dispute : option string)
    : list string :=
  let open := po_open_disputes o in
  match kind, dispute with
  | ReverseKind.DisputeOpened, Some id => if contains open id then open else open ++ [id]
  | ReverseKind.DisputeWon, Some id | ReverseKind.DisputeLost, Some id => without open id
  | _, _ => open
  end.

Inductive SessionMismatch : Type := NotOurs | WrongTerms.

Definition session_mismatch (o : PaymentOrder) (session : CheckoutSession) (s : PaymentsSettings)
    : option SessionMismatch :=
  let names_order := is_some_str (cs_metadata_order_id session) (po_id o) in
  if match po_checkout_session_id o with
     | Some id => negb (str_eqb id (cs_id session))
     | None => negb names_order
     end then Some NotOurs
  else if match cs_metadata_order_id session with
          | Some named => negb (str_eqb named (po_id o)) | None => false end then Some NotOurs
  else if negb (Bool.eqb (cs_livemode session) (s_expect_livemode s)) then Some NotOurs
  else if match po_payment_intent_id o, cs_payment_intent session with
          | Some stored, Some reported => negb (str_eqb stored reported) | _, _ => false end
  then Some NotOurs
  else if match po_user_id o, cs_client_reference_id session with
          | Some user_id, Some reference => negb (str_eqb user_id reference) | _, _ => false end
  then Some NotOurs
  else if negb (eqb (cs_amount_total session) (Some (po_amount_cents o)))
          || (negb (str_eqb (po_currency o) "usd")
              || negb (is_some_str (cs_currency session) (po_currency o)))
  then Some (if names_order then WrongTerms else NotOurs)
  else None.

(** [session.payment_status.as_deref() == Some("paid")] *)
Definition is_paid (session : CheckoutSession) : bool :=
  is_some_str (cs_payment_status session) "paid".

(** ** Checkout sessions *)

(** [created_at.div_euclid(1000)] *)
Definition session_expiry (order : PaymentOrder) : Z :=
  po_created_at order / 1000 + SESSION_TTL_SECS.

Definition checkout_params (s : PaymentsSettings) (order : PaymentOrder)
    (user_id success_url cancel_url : string) : CheckoutSessionParams :=
  mkParams (po_id order) user_id (po_amount_cents order) (po_currency order)
    (sku_product_name (po_sku order)) success_url cancel_url (session_expiry order)
    (s_automatic_tax s) (sku_consent_message (po_sku order)) (sku_tax_code (po_sku order)).

Definition start_session_with_urls (s : PaymentsSettings) (success_url cancel_url : string)
    : L string :=
  let~ order := this_order in
  match po_user_id order with
  | None => lfail ErrorType.InternalError
  | Some user_id =>
      let params := checkout_params s order user_id success_url cancel_url in
      let failed : L string :=
        let~ _ := try (write (set_state OrderState.SessionFailed)) in
        lfail ErrorType.PaymentProviderError in
      let~ answer := lift (do! r <- on_stripe (create_checkout_session params (po_id order));
                           Ret (Ok r)) in
      match answer with
      | Ok session =>
          match cs_url session with
          | Some url =>
              if negb (Bool.eqb (cs_livemode session) (s_expect_livemode s)) then failed
              else if match cs_amount_total session with
                      | Some a => negb (a =? po_amount_cents order) | None => false end then failed
              else
                let expires_ms := saturating_mul_i64
                                    (default (session_expiry order) (cs_expires_at session)) 1000 in
                let~ _ := write (fun o =>
                  set_session (Some (cs_id session)) (Some url) (Some expires_ms)
                    (set_state OrderState.Pending o)) in
                lret url
          | None => failed
          end
      | Err _ => failed
      end
  end.

(** ** The public badge *)

Fixpoint sync_user_badge_loop (rounds : nat) (user_id : string) : M unit :=
  match rounds with
  | O => fail ErrorType.InternalError
  | S rounds' =>
      let! m := db_fetch_cipher_membership user_id in
      do! r <- db_fetch_user user_id;
      match r with
      | Err ErrorType.NotFound => ok tt
      | Err e => fail e
      | Ok user =>
          let badge := if is_deleted user then None else m ≫= public_badge in
          if bool_decide (ud_cipher user = badge) then ok tt
          else
            let! _ := db_update_user_cipher user_id badge in
            sync_user_badge_loop rounds' user_id
      end
  end.

Definition sync_user_badge (user_id : string) : M unit :=
  sync_user_badge_loop BADGE_SYNC_RETRIES user_id.

(** ** Disputes listed on a membership *)

Definition with_disputed (m : CipherMembership) (disputed : list string) : CipherMembership :=
  mkMembership (cm_user_id m) (cm_number m) (cm_tier m) (cm_prot_grant m) (cm_orders m) disputed
    (cm_granted_at m) (cm_revoked_at m) (cm_revoke_reason m) (cm_prot_posted_at m) (cm_version m).

Definition with_revoked (m : CipherMembership) (at_ : option Z) (reason : option CipherRevokeReason)
    : CipherMembership :=
  mkMembership (cm_user_id m) (cm_number m) (cm_tier m) (cm_prot_grant m) (cm_orders m)
    (cm_disputed_orders m) (cm_granted_at m) at_ reason (cm_prot_posted_at m) (cm_version m).

Fixpoint set_dispute_listing_loop (tries : nat) (user_id order_id : string) (open : bool)
    : M bool :=
  match tries with
  | O => fail ErrorType.InternalError
  | S tries' =>
      let! row := db_fetch_cipher_membership user_id in
      match row with
      | None => ok false
      | Some m =>
          if negb (contains (cm_orders m) order_id) then ok false
          else if Bool.eqb (contains (cm_disputed_orders m) order_id) open then ok true
          else
            let next := with_disputed m
              (if open then cm_disputed_orders m ++ [order_id]
               else without (cm_disputed_orders m) order_id) in
            let! done := db_update_cipher_membership_if_version next (cm_version m) in
            if done then ok true else set_dispute_listing_loop tries' user_id order_id open
      end
  end.

Definition set_dispute_listing (user_id order_id : string) (open : bool) : M bool :=
  set_dispute_listing_loop MEMBERSHIP_RETRIES user_id order_id open.

(** Fulfil step 6: after a refused write the stored order decides what is
    listed, and the write's error is returned *)
Definition publish_badge (user_id : string) : L unit :=
  let~ written := try (write (fun o => o)) in
  match written with
  | Ok _ => lift (sync_user_badge user_id)
  | Err e =>
      let~ order := this_order in
      let~ stored := lift (do! r <- db_fetch_payment_order (po_id order); ok r) in
      match stored with
      | Ok (Some stored) =>
          if is_disputed stored then
            let~ _ := lift (do! r <- set_dispute_listing user_id (po_id order) true; ok r) in
            lfail e
          else lfail e
      | _ => lfail e
      end
  end.

(** A reading of every order of the release: has the release of the number
    of [m] been decided and not finished? *)
Fixpoint release_pending_loop (order_ids : list string) (number : Z) : M bool :=
  match order_ids with
  | [] => ok false
  | order_id :: rest =>
      let! row := db_fetch_cipher_number_row_by_order order_id in
      match row with
      | Some row =>
          if (cn_number row =? number) && PaymentOrders.is_some (cn_release_pending_at row) then ok true
          else release_pending_loop rest number
      | None => release_pending_loop rest number
      end
  end.

Definition number_release_pending (m : CipherMembership) : M bool :=
  release_pending_loop (cm_orders m) (cm_number m).

(** Record the leased order Refunded, with no refund left settling *)
Definition mark_refunded (now_ms : Z) : L unit :=
  write (fun o => set_settling None (to_refunded now_ms o)).
End Engine.

(** ** What the dispatcher reads off refunds and disputes (dispatch.rs) *)

Definition dispute_kind (status : option string) : ReverseKind.t :=
  if is_some_str status "lost" then ReverseKind.DisputeLost
  else if is_some_str status "won" || is_some_str status "warning_closed"
          || is_some_str status "prevented" then ReverseKind.DisputeWon
  else ReverseKind.DisputeOpened.

(** [matches!(status, Some("succeeded" | "failed" | "canceled"))] *)
Definition refund_settled (r : Refund.t) : bool :=
  is_some_str (Refund.status r) "succeeded" || is_some_str (Refund.status r) "failed"
  || is_some_str (Refund.status r) "canceled".

Definition refund_succeeded (r : Refund.t) : bool := is_some_str (Refund.status r) "succeeded".

(** [try_fold] over the amounts: one without an amount ends it *)
Fixpoint sum_refunds (sum : Z) (refunds : list Refund.t) : option Z :=
  match refunds with
  | [] => Some sum
  | r :: rest =>
      match Refund.amount r with
      | Some a => sum_refunds (saturating_add_i64 sum a) rest
      | None => None
      end
  end.

(** [Iterator::max] *)
Definition max_of (l : list Z) : option Z :=
  foldr (fun x acc => match acc with None => Some x | Some y => Some (Z.max x y) end) None l.

Definition refund_facts (refunds : list Refund.t) (amount_cents event_created now_ms : Z)
    : option RefundFacts :=
  match refunds with
  | [] => None
  | _ =>
      let succeeded := List.filter refund_succeeded refunds in
      let unsettled := existsb (fun r => negb (refund_settled r)) refunds in
      let status := if unsettled then RefundStatus.Pending
                    else if is_empty succeeded then RefundStatus.Failed
                    else RefundStatus.Succeeded in
      let full := (0 <? amount_cents)
                  && match sum_refunds 0 succeeded with
                     | Some sum => amount_cents <=? sum | None => false end in
      let made_at := default event_created
        (max_of ((fun r => default event_created (Refund.created r)) <$> succeeded)) in
      Some (mkFacts (Z.min (saturating_mul_i64 made_at 1000) now_ms) full status)
  end.
