(* ===== verification/EngineProt.v ===== *)
(** * The payments engine: Prot (crates/core/payments/src/engine/prot.rs)

    The ledger side of checkout, fulfilment and reversal: the credit of a
    paid Prot order, its clawback, the founding Prot of a Cipher membership,
    the wallet read and the admin tools. *)

From stdpp Require Import base numbers list gmap strings.
From S2P Require Import Prelude Text Errors Program CipherMemberships CipherNumbers ProtLedger.
From S2P Require Import ProtStore PaymentOrders Catalog Settings StripeApi PaymentEvents.
From S2P Require Import PaymentsWorld EngineCore.
Open Scope Z_scope.

Definition PROT_RECENT_LIMIT : Z := 20.
Definition PROT_ADJUST_MAX : Z := 1000000.
Definition PROT_ADJUST_NONCE_MAX : nat := 64.

Inductive CipherReturnTo : Type := Web | Shell.

Record ProtLedgerView : Type := mkLedgerView {
  lv_id : string;
  lv_kind : ProtEntryKind.t;
  lv_amount : Z;
  lv_created_at : Z;
  lv_order_id : option string;
}.

(** [CipherPendingView] and [ProtPendingView] have the same fields *)
Record PendingView : Type := mkPendingView {
  pv_order_id : string;
  pv_sku : Sku;
  pv_expires_at : Z;
}.

Record ProtMe : Type := mkProtMe {
  me_balance : Z;
  me_held : Z;
  me_version : Z;
  me_pending_order : option PendingView;
  me_recent : list ProtLedgerView;
}.

Record ProtAdminOrder : Type := mkProtAdminOrder {
  ao_order_id : string;
  ao_user_id : option string;
  ao_sku : Sku;
  ao_credited : Z;
  ao_clawed_back : Z;
  ao_shortfall : Z;
  ao_unspent : option Z;
  ao_membership_posted : option Z;
  ao_membership_target : option Z;
  ao_membership_shortfall : option Z;
}.

Record DataProtAdjust : Type := mkAdjust { da_user : string; da_amount : Z; da_nonce : string }.

Record ProtAdjustResponse : Type := mkAdjustResponse {
  ar_entry_id : string;
  ar_balance : Z;
  ar_already_applied : bool;
}.

(** [(expires_at > now && checkout_url.is_some()).then_some(..)] of an order
    of one family *)
Definition pending_view (fam : ProductFamily) (now_ms : Z) (o : PaymentOrder) : option PendingView :=
  if eqb (family (po_sku o)) fam then
    match po_session_expires_at o with
    | Some expires_at =>
        if (now_ms <? expires_at) && PaymentOrders.is_some (po_checkout_url o)
        then Some (mkPendingView (po_id o) (po_sku o) expires_at) else None
    | None => None
    end
  else None.

(** [.filter_map(..).next_back()] *)
Definition newest_pending (fam : ProductFamily) (now_ms : Z) (orders : list PaymentOrder)
    : option PendingView := last (omap (pending_view fam now_ms) orders).

Definition ledger_view (wallet : string) (row : ProtLedgerEntry) : ProtLedgerView :=
  mkLedgerView (pe_id row) (pe_kind row)
    (if str_eqb (pe_credit row) wallet then pe_amount row else saturating_neg_i64 (pe_amount row))
    (pe_created_at row) (ref_order_id (pe_reference row)).

(** [order.reversed_at.or(order.paid_at).is_some_and(|at| now - at < REGION_REFUSAL_MS)] *)
Definition recently_voided (o : PaymentOrder) (now_ms : Z) : bool :=
  match (match po_reversed_at o with Some at_ => Some at_ | None => po_paid_at o end) with
  | Some at_ => saturating_sub_i64 now_ms at_ <? REGION_REFUSAL_MS
  | None => false
  end.

Definition prot_region_refusal_holds (ps : ProtSalesSettings) (o : PaymentOrder) (now_ms : Z)
    : bool :=
  eqb (family (po_sku o)) FamilyProt
  && in_states [OrderState.Voided; OrderState.Paid] o
  && eqb (po_void_reason o) (Some VoidReason.RegionUnavailable)
  && match po_region_blocked_country o with
     | Some country => prot_region_blocked ps country | None => false end
  && recently_voided o now_ms.

(** What a live order of the buyer's means for a new checkout of [sku]: its
    URL, a refusal, or nothing.  Both checkouts walk the newest first. *)
Fixpoint live_order (fam : ProductFamily) (sku : Sku) (now_ms : Z) (orders : list PaymentOrder)
    : option (Result string) :=
  match orders with
  | [] => None
  | o :: rest =>
      if negb (eqb (family (po_sku o)) fam) then live_order fam sku now_ms rest
      else match po_state o with
           | OrderState.Pending =>
               if match po_session_expires_at o with Some at_ => now_ms <? at_ | None => false end
               then Some (match po_checkout_url o with
                          | Some url => if eqb (po_sku o) sku then Ok url
                                        else Err ErrorType.PaymentPending
                          | None => Err ErrorType.PaymentPending
                          end)
               else live_order fam sku now_ms rest
           | OrderState.Creating =>
               if saturating_sub_i64 now_ms (po_created_at o) <? CREATING_BLOCKS_MS
               then Some (Err ErrorType.PaymentPending) else live_order fam sku now_ms rest
           | _ => live_order fam sku now_ms rest
           end
  end.

(** The order a checkout stores *)
Definition new_order (id user_id : string) (sku : Sku) (amount_cents now_ms : Z) : PaymentOrder :=
  mkOrder id (Some user_id) Stripe sku amount_cents "usd" None None None None OrderState.Creating
    None None None None [] None 0 now_ms None None None.

Section Prot.
Context `{!Env}.
Abbreviation M A := (Eff World A).

(** ** Shared helpers *)

Definition publish_balance (user_id : string) : prog World unit :=
  do! r <- db_fetch_prot_account (prot_user_account user_id);
  match r with
  | Ok (Some account) => publish_prot_balance user_id (pa_balance account) (pa_version account)
  | _ => Ret tt
  end.

(** The second pass: a credit that raced an account deletion is forfeited *)
Definition forfeit_if_deleted (user_id : string) (now_ms : Z) : M unit :=
  let! live := buyer_is_live user_id in
  if live then ok tt
  else let! _ := db_forfeit_prot_wallet user_id now_ms in ok tt.

(** ** Fulfilment and reversal of Prot orders *)

Definition purchase_applied (order_id : string) : M bool :=
  let! row := db_fetch_prot_entry_by_key (prot_key_purchase order_id) in
  ok (PaymentOrders.is_some row).

Definition order_ref (order_id : string) : ProtRef :=
  mkRef (Some order_id) None None None None None None.

Definition purchase_posting (order_id user_id : string) (prot now_ms : Z) : ProtPosting :=
  mkPosting (prot_key_purchase order_id) ProtEntryKind.Purchase PROT_SYS_ISSUED
    (prot_user_account user_id) (ProtAmount.Exact prot) 0 PROT_ACTOR_PAYMENTS (order_ref order_id)
    None now_ms.

Definition apply_purchase (o : PaymentOrder) (user_id : string) (now_ms : Z) : M unit :=
  match sku_prot (po_sku o) with
  | None => fail ErrorType.InternalError
  | Some prot =>
      let! outcome := db_apply_prot_posting (purchase_posting (po_id o) user_id prot now_ms) in
      do! _ <- match outcome with Applied _ => publish_balance user_id | AlreadyApplied _ => Ret tt end;
      forfeit_if_deleted user_id now_ms
  end.

Definition clawback_posting (order_id user_id : string) (credited now_ms : Z) : ProtPosting :=
  mkPosting (prot_key_clawback order_id) ProtEntryKind.Clawback (prot_user_account user_id)
    PROT_SYS_CLAWED (ProtAmount.UpTo credited) 0 PROT_ACTOR_PAYMENTS (order_ref order_id)
    None now_ms.

Definition clawback_purchase (order_id user_id : string) (now_ms : Z) : M unit :=
  let! purchase := db_fetch_prot_entry_by_key (prot_key_purchase order_id) in
  match purchase with
  | None => ok tt
  | Some purchase =>
      let! stored := db_fetch_prot_entry_by_key (prot_key_clawback order_id) in
      match stored with
      | Some _ => ok tt
      | None =>
          let! outcome := db_apply_prot_posting
                            (clawback_posting order_id user_id (pe_amount purchase) now_ms) in
          do! _ <- match outcome with
                   | Applied _ => publish_balance user_id | AlreadyApplied _ => Ret tt end;
          ok tt
      end
  end.

Definition reverse_prot_fulfilled (kind : ReverseKind.t) (now_ms : Z) : L ReverseOutcome.t :=
  match kind with
  | ReverseKind.DisputeOpened | ReverseKind.DisputeWon => lret ReverseOutcome.NoOp
  | ReverseKind.Refund | ReverseKind.DisputeLost =>
      let~ order := this_order in
      let~ _ := match po_user_id order with
                | None => lret tt
                | Some user_id => lift (clawback_purchase (po_id order) user_id now_ms)
                end in
      let~ _ := write (to_refunded now_ms) in
      lret ReverseOutcome.Applied
  end.

(** ** Cipher founding Prot *)

Definition engine_sync_cipher_prot (ps : ProtSalesSettings) (user_id : string) (now_ms : Z)
    : M unit :=
  if negb (grants_active ps) then ok tt
  else
    let! sync := db_sync_cipher_prot user_id now_ms in
    match sync with
    | Nothing => ok tt
    | Posted outcome =>
        do! _ <- match outcome with
                 | Applied _ => publish_balance user_id | AlreadyApplied _ => Ret tt end;
        forfeit_if_deleted user_id now_ms
    | OverPosted _ _ => ok tt
    end.

(** Never fails the caller *)
Definition sync_after_cipher_fulfil (user_id : string) (now_ms : Z) : prog World unit :=
  do! ps <- load_prot_or_closed;
  do! _ <- engine_sync_cipher_prot ps user_id now_ms; Ret tt.

Definition clawback_cipher_order (user_id order_id : string) (now_ms : Z) : M bool :=
  let! outcome := db_clawback_cipher_prot user_id order_id now_ms in
  match outcome with
  | Some (Applied entry) =>
      do! _ <- (if 0 <? pe_amount entry then publish_balance user_id else Ret tt); ok true
  | _ => ok false
  end.

Definition incarnation_rows (m : CipherMembership) : M (list ProtLedgerEntry) :=
  match head (cm_orders m) with
  | Some base => db_fetch_prot_entries_by_membership base
  | None => ok []
  end.

Definition membership_shortfall (m : CipherMembership) : M Z :=
  let! rows := incarnation_rows m in ok (cipher_prot_shortfall rows).

Definition window_clawback_covered (m : CipherMembership) (target_after : Z) : M bool :=
  let! rows := incarnation_rows m in
  if 0 <? cipher_prot_shortfall rows then ok false
  else
    let needed := Z.max (saturating_sub_i64 (cipher_prot_posted rows) target_after) 0 in
    if needed =? 0 then ok true
    else let! balance := wallet_balance (cm_user_id m) in ok (needed <=? balance).

(** ** Checkout and standing *)

(** The Prot of the buyer's Paid Prot orders not credited yet *)
Fixpoint uncredited_prot (acc : Z) (orders : list PaymentOrder) : M Z :=
  match orders with
  | [] => ok acc
  | o :: rest =>
      if in_states [OrderState.Paid] o && eqb (family (po_sku o)) FamilyProt then
        let! applied := purchase_applied (po_id o) in
        uncredited_prot
          (if applied then acc else saturating_add_i64 acc (default 0 (sku_prot (po_sku o)))) rest
      else uncredited_prot acc rest
  end.

(** Store a new order and start its session under its lease *)
Definition open_order (sku : Sku) (user_id : string) (now_ms : Z) (start : L string) : M string :=
  do! id <- new_ulid;
  let! cents := Ret (sku_cents sku) in
  let! _ := db_insert_payment_order (new_order id user_id sku cents now_ms) in
  with_lease id now_ms (fail ErrorType.InternalError) start.

Definition create_prot_checkout (s : PaymentsSettings) (ps : ProtSalesSettings) (user_id : string)
    (choice : ProtChoice) (return_to : CipherReturnTo) (now_ms : Z) : M string :=
  if negb (s_enabled s) then fail ErrorType.PaymentsDisabled
  else if negb (ps_enabled ps) then fail ErrorType.ProtDisabled
  else if negb (ps_sales_open ps) then fail ErrorType.ProtSalesClosed
  else
    let! user := db_fetch_user user_id in
    if ud_bot user then fail ErrorType.IsBot
    else
      let! orders := db_fetch_payment_orders_by_user user_id
        [OrderState.Creating; OrderState.Pending; OrderState.Paid; OrderState.Fulfilled;
         OrderState.Voided] in
      if existsb (fun o => prot_region_refusal_holds ps o now_ms) orders
      then fail ErrorType.ProtRegionUnavailable
      else if existsb (fun o =>
                in_states [OrderState.Creating; OrderState.Pending; OrderState.Paid;
                           OrderState.Fulfilled] o
                && negb (is_empty (po_open_disputes o))) orders
      then fail ErrorType.ProtNotEligible
      else
        let! sku := Ret (quote_prot ps choice) in
        match sku_prot sku with
        | None => fail ErrorType.InternalError
        | Some prot =>
            let! uncredited := uncredited_prot 0 orders in
            let! balance := wallet_balance user_id in
            if ps_wallet_cap ps <? saturating_add_i64 (saturating_add_i64 balance uncredited) prot
            then fail (ErrorType.ProtWalletCap (ps_wallet_cap ps))
            else
              match live_order FamilyProt sku now_ms (rev orders) with
              | Some answer => Ret answer
              | None =>
                  let '(success_url, cancel_url) :=
                    match return_to with
                    | Web => (ps_success_url ps, ps_cancel_url ps)
                    | Shell => (ps_shell_return_url ps, ps_shell_return_url ps)
                    end in
                  open_order sku user_id now_ms (start_session_with_urls s success_url cancel_url)
              end
        end.

Definition prot_me (ps : ProtSalesSettings) (user_id : string) (now_ms : Z) : M ProtMe :=
  if negb (ps_enabled ps) then fail ErrorType.ProtDisabled
  else
    let wallet := prot_user_account user_id in
    let! account := db_fetch_prot_account wallet in
    let balance := from_option pa_balance 0 account in
    let version := from_option pa_version 0 account in
    let! held :=
      (if (0 <? hold_ms ps) && (0 <? balance) then
         let! sum := db_sum_prot_credits_since wallet [ProtEntryKind.Purchase]
                       (saturating_sub_i64 now_ms (hold_ms ps)) in
         ok (Z.max 0 (Z.min sum balance))
       else ok 0) in
    let! orders := db_fetch_payment_orders_by_user user_id [OrderState.Pending] in
    let! rows := db_fetch_prot_entries_by_account wallet None PROT_RECENT_LIMIT in
    ok (mkProtMe balance held version (newest_pending FamilyProt now_ms orders)
          (ledger_view wallet <$> rows)).

(** ** Admin and account deletion *)

Definition order_totals (rows : list ProtLedgerEntry) : Z * Z * Z :=
  foldl (fun '(credited, clawed_back, shortfall) row =>
    match pe_kind row with
    | ProtEntryKind.Purchase | ProtEntryKind.CipherFounding | ProtEntryKind.CipherUpgrade =>
        (saturating_add_i64 credited (pe_amount row), clawed_back, shortfall)
    | ProtEntryKind.Clawback =>
        (credited, saturating_add_i64 clawed_back (pe_amount row),
         saturating_add_i64 shortfall (default 0 (pe_shortfall row)))
    | _ => (credited, clawed_back, shortfall)
    end) (0, 0, 0) rows.

Definition admin_prot_order (order_id : string) : M ProtAdminOrder :=
  let! stored := db_fetch_payment_order order_id in
  match stored with
  | None => fail ErrorType.NotFound
  | Some order =>
      let! rows := db_fetch_prot_entries_by_order order_id in
      let '(credited, clawed_back, shortfall) := order_totals rows in
      let! unspent := match po_user_id order with
                      | Some user_id => let! b := wallet_balance user_id in ok (Some b)
                      | None => ok None
                      end in
      let! standing :=
        match family (po_sku order), po_user_id order with
        | FamilyCipher, Some user_id =>
            let! m := db_fetch_cipher_membership user_id in
            match m with
            | None => ok None
            | Some m =>
                match head (cm_orders m) with
                | Some base =>
                    if str_leb base order_id then
                      let! rows := db_fetch_prot_entries_by_membership base in
                      ok (Some (cipher_prot_posted rows, cipher_prot_target m,
                                cipher_prot_shortfall rows))
                    else ok None
                | None => ok None
                end
            end
        | _, _ => ok None
        end in
      ok (mkProtAdminOrder (po_id order) (po_user_id order) (po_sku order) credited clawed_back
            shortfall unspent ((fun t => t.1.1) <$> standing) ((fun t => t.1.2) <$> standing)
            (snd <$> standing))
  end.

(** [chars().any(char::is_control)] on UTF-8 bytes: the ASCII controls, and
    U+0080 to U+009F, which are the byte 194 and one of 128 to 159 *)
Fixpoint has_control (s : string) : bool :=
  match s with
  | EmptyString => false
  | String c rest =>
      byte_between 0 31 c || byte_between 127 127 c
      || (byte_between 194 194 c
          && match rest with String d _ => byte_between 128 159 d | EmptyString => false end)
      || has_control rest
  end.

Definition admin_prot_adjust (admin_id : string) (data : DataProtAdjust) (reason : string)
    (now_ms : Z) : M ProtAdjustResponse :=
  if (da_amount data =? 0) || (PROT_ADJUST_MAX <? Z.abs (da_amount data))
  then fail (ErrorType.FailedValidation
               "amount must be non-zero and at most 1000000 either way")
  else if str_eqb (da_nonce data) "" || (PROT_ADJUST_NONCE_MAX <? String.length (da_nonce data))%nat
          || has_control (da_nonce data)
  then fail (ErrorType.FailedValidation "nonce must be 1 to 64 printable bytes")
  else
    let wallet := prot_user_account (da_user data) in
    let '(debit, credit, amount) :=
      if 0 <? da_amount data then (PROT_SYS_ADJUST, wallet, da_amount data)
      else (wallet, PROT_SYS_ADJUST, - da_amount data) in
    let posting := mkPosting (prot_key_admin admin_id (da_nonce data)) ProtEntryKind.AdminAdjust
      debit credit (ProtAmount.Exact amount) 0 admin_id default_ref (Some reason) now_ms in
    let! outcome := db_apply_prot_posting posting in
    do! _ <- match outcome with
             | Applied _ => publish_balance (da_user data) | AlreadyApplied _ => Ret tt end;
    let! _ := (if 0 <? da_amount data then forfeit_if_deleted (da_user data) now_ms else ok tt) in
    let! balance := wallet_balance (da_user data) in
    ok (mkAdjustResponse (pe_id (outcome_entry outcome)) balance
          match outcome with Applied _ => false | AlreadyApplied _ => true end).

Definition forfeit_wallet_on_deletion (user_id : string) (now_ms : Z) : M unit :=
  let! _ := db_forfeit_prot_wallet user_id now_ms in ok tt.
End Prot.
