(* ===== verification/EngineReverse.v ===== *)
(** * The payments engine: reversals (crates/core/payments/src/engine.rs)

    Refunds and disputes applied to an order under its lease: recorded before
    fulfilment, or reversed after it, with the refund window, the rollback of
    an upgrade and the release of a number. *)

From stdpp Require Import base numbers list gmap strings.
From S2P Require Import Prelude Errors Program CipherMemberships CipherNumbers ProtLedger.
From S2P Require Import ProtStore PaymentOrders Catalog Settings StripeApi PaymentEvents.
From S2P Require Import PaymentsWorld EngineCore EngineProt.
Open Scope Z_scope.

(** [order.state == s] *)
Definition state_is (o : PaymentOrder) (s : OrderState.t) : bool := bool_decide (po_state o = s).

Definition is_reversal (kind : ReverseKind.t) : bool :=
  match kind with ReverseKind.Refund | ReverseKind.DisputeLost => true | _ => false end.

Section Engine.
Context `{!Env}.
Abbreviation M A := (Eff World A).

(** ** Reverse *)

(** [dispute_lost_after_refund] *)
Fixpoint lost_after_refund_loop (tries : nat) (user_id order_id : string) : M ReverseOutcome.t :=
  match tries with
  | O => fail ErrorType.InternalError
  | S tries' =>
      let! row := db_fetch_cipher_membership user_id in
      match row with
      | None => ok ReverseOutcome.NoOp
      | Some m =>
          if negb (contains (cm_orders m) order_id)
             || negb (eqb (cm_revoke_reason m) (Some Refund)) then ok ReverseOutcome.NoOp
          else
            let next := with_revoked m (cm_revoked_at m) (Some DisputeLost) in
            let! done := db_update_cipher_membership_if_version next (cm_version m) in
            if done then ok ReverseOutcome.Applied
            else lost_after_refund_loop tries' user_id order_id
      end
  end.

Definition dispute_lost_after_refund : L ReverseOutcome.t :=
  let~ order := this_order in
  match po_user_id order with
  | None => lret ReverseOutcome.NoOp
  | Some user_id => lift (lost_after_refund_loop MEMBERSHIP_RETRIES user_id (po_id order))
  end.

Definition pending_after (order : PaymentOrder) (kind : ReverseKind.t) : option ReversalPending.t :=
  match kind with
  | ReverseKind.Refund =>
      match po_reversal_pending order with
      | Some p => Some p | None => Some ReversalPending.Refund end
  | ReverseKind.DisputeLost => Some ReversalPending.DisputeLost
  | ReverseKind.DisputeOpened | ReverseKind.DisputeWon => po_reversal_pending order
  end.

Definition record_before_fulfilment (kind : ReverseKind.t) (dispute : option string)
    : L ReverseOutcome.t :=
  let~ order := this_order in
  let pending := pending_after order kind in
  let open := disputes_after order kind dispute in
  let~ _ := if negb (eqb pending (po_reversal_pending order))
               || negb (eqb open (po_open_disputes order))
            then write (fun o => set_disputes open (set_reversal pending o)) else lret tt in
  let~ order := this_order in
  let~ _ := match po_user_id order with
            | Some user_id =>
                let~ listed := lift (set_dispute_listing user_id (po_id order) (is_disputed order)) in
                if (listed : bool) then lift (sync_user_badge user_id) else lret tt
            | None => lret tt
            end in
  lret ReverseOutcome.RecordedPending.

Definition no_membership_to_reverse : L ReverseOutcome.t :=
  let~ order := this_order in
  let~ _ := if PaymentOrders.is_some (po_reversal_pending order) then write (set_reversal None)
            else lret tt in
  lret ReverseOutcome.NoOp.

Definition unlisted_reversal (kind : ReverseKind.t) (user_id : string) (now_ms : Z)
    : L ReverseOutcome.t :=
  if negb (is_reversal kind) then no_membership_to_reverse
  else
    let~ order := this_order in
    let~ _ := lift (clawback_cipher_order user_id (po_id order) now_ms) in
    let~ _ := lift (sync_user_badge user_id) in
    let~ _ := write (to_refunded now_ms) in
    lret ReverseOutcome.NoOp.

(** ** The refund window *)

Inductive WindowRefund : Type :=
| Downgrade (from : CipherTier)
| Release
| RefundOnly.

Definition window_refund_plan_cipher (order : PaymentOrder) (m : CipherMembership)
    (refund : option RefundFacts) : M (option WindowRefund) :=
  if negb (contains (cm_orders m) (po_id order)) then ok None
  else
    match refund with
    | None => ok None
    | Some refund =>
        if negb (rf_full refund) then ok None
        else if PaymentOrders.is_some (cm_prot_posted_at m) then ok None
        else if is_disputed order then ok None
        else
          match po_paid_at order with
          | None => ok None
          | Some paid_at =>
              if REFUND_RELEASE_WINDOW_MS + REFUND_GRACE_MS
                 <? saturating_sub_i64 (rf_refunded_at_ms refund) paid_at then ok None
              else
                match po_sku order with
                | CipherUpgrade from to =>
                    if negb (is_active m) then ok None
                    else if negb (eqb (cm_tier m) to)
                            || negb (is_some_str (last (cm_orders m)) (po_id order))
                    then ok (Some RefundOnly)
                    else ok (Some (Downgrade from))
                | CipherNew _ =>
                    if negb (is_empty (cm_disputed_orders m))
                       || (negb (is_active m)
                           && negb (eqb (cm_revoke_reason m) (Some Refund)))
                    then ok None
                    else
                      let! held := db_fetch_cipher_number_by_order (po_id order) in
                      match held with
                      | Some number => ok (if number =? cm_number m then Some Release else None)
                      | None => ok None
                      end
                | ProtPack _ _ _ | ProtExact _ => ok None
                end
          end
    end.

Definition window_refund_plan (order : PaymentOrder) (m : CipherMembership)
    (refund : option RefundFacts) : M (option WindowRefund) :=
  let! plan := window_refund_plan_cipher order m refund in
  let covered target :=
    let! c := window_clawback_covered m target in ok (if c : bool then plan else None) in
  match plan with
  | Some (Downgrade from) => covered (tier_prot from)
  | Some Release => covered 0
  | Some RefundOnly | None => ok plan
  end.

(** ** Number releases *)

(** Only logs: the upgrades of a replaced row, to be refunded by hand *)
Definition log_upgrades_left_unrefunded (released : PaymentOrder) : M unit :=
  match po_user_id released with
  | None => ok tt
  | Some user_id =>
      let! _ := db_fetch_payment_orders_by_user user_id [OrderState.Paid; OrderState.Fulfilled] in
      ok tt
  end.

Definition keep_number_retired (now_ms : Z) : L ReverseOutcome.t :=
  let~ order := this_order in
  let~ _ := if state_is order OrderState.Fulfilled then mark_refunded now_ms else lret tt in
  let~ _ := lift (db_cancel_cipher_number_release (po_id order)) in
  lret ReverseOutcome.Applied.

Definition refunded_in_full (payment_intent : string) (amount_cents : Z) : prog World bool :=
  do! r <- on_stripe (list_refunds payment_intent);
  Ret (match r with
       | Ok refunds => match refund_facts refunds amount_cents 0 0 with
                       | Some facts => rf_full facts | None => false end
       | Err _ => false
       end).

Definition record_upgrade_refunded (order_id : string) (now_ms : Z) : M bool :=
  with_lease order_id now_ms (ok false)
    (let~ order := this_order in
     match po_state order with
     | OrderState.Refunded | OrderState.Voided => lret true
     | _ => let~ _ := mark_refunded now_ms in lret true
     end).

(** One order of the loop of [refund_release_upgrades]: is it settled? *)
Definition refund_release_upgrade (id : string) (now_ms : Z) : M bool :=
  let! stored := db_fetch_payment_order id in
  match stored with
  | None => ok true
  | Some upgrade =>
      if state_is upgrade OrderState.Refunded || state_is upgrade OrderState.Voided then ok true
      else
        match po_payment_intent_id upgrade with
        | None => ok false
        | Some payment_intent =>
            if is_disputed upgrade then ok false
            else
              do! asked <- ask_refund payment_intent (release_upgrade_key id);
              match asked with
              | Ok Done => record_upgrade_refunded id now_ms
              | Ok AlreadyRefunded =>
                  do! full <- refunded_in_full payment_intent (po_amount_cents upgrade);
                  if full then record_upgrade_refunded id now_ms else ok false
              | Ok Unsettled | Ok Refused | Err _ => ok false
              end
        end
  end.

Fixpoint refund_release_upgrades_loop (ids : list string) (waiting : bool) (now_ms : Z) : M bool :=
  match ids with
  | [] => ok (negb waiting)
  | id :: rest =>
      let! settled := refund_release_upgrade id now_ms in
      refund_release_upgrades_loop rest (waiting || negb settled) now_ms
  end.

Definition refund_release_upgrades (m : CipherMembership) (released_by : string) (now_ms : Z)
    : M bool :=
  refund_release_upgrades_loop (without (cm_orders m) released_by) false now_ms.

(** The membership part of a release: [Ok None] once the row is gone,
    [Ok (Some outcome)] when the release stops here *)
Fixpoint release_membership_loop (tries : nat) (user_id order_id : string) (now_ms : Z)
    : L (option ReverseOutcome.t) :=
  match tries with
  | O => lfail ErrorType.InternalError
  | S tries' =>
      let again := release_membership_loop tries' user_id order_id now_ms in
      let~ row := lift (db_fetch_cipher_membership user_id) in
      match row with
      | None => lret None
      | Some m =>
          if negb (contains (cm_orders m) order_id) then
            let~ order := this_order in
            let~ _ := lift (log_upgrades_left_unrefunded order) in
            lret None
          else if is_active m then
            let next := with_revoked m (Some now_ms) (Some Refund) in
            let~ done := lift (db_update_cipher_membership_if_version next (cm_version m)) in
            let~ _ := if (done : bool) then lift (sync_user_badge user_id) else lret tt in
            again
          else
            let~ clawed := lift (clawback_cipher_order user_id order_id now_ms) in
            if (clawed : bool) then again
            else
              let~ retired :=
                (if PaymentOrders.is_some (cm_prot_posted_at m) then lret true
                 else
                   let~ shortfall := lift (membership_shortfall m) in
                   let~ order := this_order in
                   lret ((0 <? shortfall) || negb (eqb (cm_revoke_reason m) (Some Refund))
                         || negb (is_empty (cm_disputed_orders m)) || is_disputed order)) in
              if (retired : bool) then
                let~ outcome := keep_number_retired now_ms in lret (Some outcome)
              else
                let~ _ := write (fun o => o) in
                let~ refunded := lift (refund_release_upgrades m order_id now_ms) in
                if negb refunded then lret (Some ReverseOutcome.RecordedPending)
                else
                  let~ _ := write (fun o => o) in
                  let~ deleted := lift (db_delete_cipher_membership_if_version user_id
                                          (cm_version m)) in
                  if (deleted : bool) then lret None else again
      end
  end.

Definition finish_number_release_locked (now_ms : Z) : L (option ReverseOutcome.t) :=
  let~ order := this_order in
  match po_sku order with
  | CipherNew _ =>
      let order_id := po_id order in
      let~ found := lift (db_fetch_cipher_number_row_by_order order_id) in
      match found with
      | None => lret None
      | Some row =>
          if negb (PaymentOrders.is_some (cn_release_pending_at row)) then lret None
          else
            let~ stopped :=
              match po_user_id order with
              | None => lret None
              | Some user_id =>
                  let~ stopped := release_membership_loop MEMBERSHIP_RETRIES user_id order_id now_ms in
                  match stopped with
                  | Some outcome => lret (Some outcome)
                  | None => let~ _ := lift (sync_user_badge user_id) in lret None
                  end
              end in
            match stopped with
            | Some outcome => lret (Some outcome)
            | None =>
                let~ order := this_order in
                let~ _ := if state_is order OrderState.Fulfilled then mark_refunded now_ms
                          else lret tt in
                let~ holder := lift (db_fetch_cipher_membership_by_number (cn_number row)) in
                match holder with
                | Some _ => lfail ErrorType.InternalError
                | None =>
                    let~ _ := lift (db_release_cipher_number order_id) in
                    lret (Some ReverseOutcome.Applied)
                end
            end
      end
  | _ => lret None
  end.

Definition drop_release_for_lost_dispute : L unit :=
  let~ order := this_order in
  let~ row := lift (db_fetch_cipher_number_row_by_order (po_id order)) in
  if match row with Some row => PaymentOrders.is_some (cn_release_pending_at row) | None => false end
  then
    let~ _ := write (fun o => o) in
    let~ _ := lift (db_cancel_cipher_number_release (po_id order)) in
    lret tt
  else lret tt.

(** The membership of a rolled-back upgrade *)
Definition downgraded (m : CipherMembership) (from : CipherTier) (order_id : string)
    : CipherMembership :=
  mkMembership (cm_user_id m) (cm_number m) from (tier_prot from) (without (cm_orders m) order_id)
    (without (cm_disputed_orders m) order_id) (cm_granted_at m) (cm_revoked_at m)
    (cm_revoke_reason m) (cm_prot_posted_at m) (cm_version m).

Fixpoint refund_within_window_loop (tries : nat) (user_id : string) (refund : option RefundFacts)
    (now_ms : Z) : L (option ReverseOutcome.t) :=
  match tries with
  | O => lfail ErrorType.InternalError
  | S tries' =>
      let~ row := lift (db_fetch_cipher_membership user_id) in
      match row with
      | None => lret None
      | Some m =>
          let~ order := this_order in
          let order_id := po_id order in
          let~ plan := lift (window_refund_plan order m refund) in
          match plan with
          | None => lret None
          | Some RefundOnly =>
              let~ _ := mark_refunded now_ms in lret (Some ReverseOutcome.NoOp)
          | Some Release =>
              let~ _ := write (fun o => o) in
              let~ marked := lift (db_mark_cipher_number_release order_id now_ms) in
              if negb marked then lret None else finish_number_release_locked now_ms
          | Some (Downgrade from) =>
              let~ done := lift (db_update_cipher_membership_if_version
                                   (downgraded m from order_id) (cm_version m)) in
              if negb done then refund_within_window_loop tries' user_id refund now_ms
              else
                let~ _ := lift (clawback_cipher_order user_id order_id now_ms) in
                let~ _ := lift (sync_user_badge user_id) in
                let~ _ := mark_refunded now_ms in
                lret (Some ReverseOutcome.Applied)
          end
      end
  end.

Definition refund_within_window (user_id : string) (refund : option RefundFacts) (now_ms : Z)
    : L (option ReverseOutcome.t) :=
  refund_within_window_loop MEMBERSHIP_RETRIES user_id refund now_ms.

(** ** Reversals of a Fulfilled order *)

(** The membership a reversal leaves *)
Definition reversed_membership (m : CipherMembership) (kind : ReverseKind.t) (order_id : string)
    (listed : bool) (now_ms : Z) : CipherMembership :=
  let next := if is_reversal kind && is_active m
              then with_revoked m (Some now_ms)
                     (Some match kind with ReverseKind.Refund => Refund | _ => DisputeLost end)
              else m in
  let next := if eqb kind ReverseKind.DisputeLost && eqb (cm_revoke_reason next) (Some Refund)
              then with_revoked next (cm_revoked_at next) (Some DisputeLost) else next in
  if eqb kind ReverseKind.Refund then next
  else
    let was_listed := contains (cm_disputed_orders next) order_id in
    if listed && negb was_listed
    then with_disputed next (cm_disputed_orders next ++ [order_id])
    else if negb listed && was_listed
    then with_disputed next (without (cm_disputed_orders next) order_id)
    else next.

(** [Ok true] once the membership is settled, [Ok false] when it does not
    list the order *)
Fixpoint reverse_membership_loop (tries : nat) (user_id order_id : string) (kind : ReverseKind.t)
    (listed : bool) (now_ms : Z) : M bool :=
  match tries with
  | O => fail ErrorType.InternalError
  | S tries' =>
      let! row := db_fetch_cipher_membership user_id in
      match row with
      | None => ok false
      | Some m =>
          if negb (contains (cm_orders m) order_id) then ok false
          else
            let next := reversed_membership m kind order_id listed now_ms in
            if eqb next m then ok true
            else
              let! done := db_update_cipher_membership_if_version next (cm_version m) in
              if done then ok true
              else reverse_membership_loop tries' user_id order_id kind listed now_ms
      end
  end.

Definition reverse_fulfilled (kind : ReverseKind.t) (dispute : option string)
    (refund : option RefundFacts) (now_ms : Z) : L ReverseOutcome.t :=
  let~ order := this_order in
  let open := disputes_after order kind dispute in
  let~ _ := if negb (eqb open (po_open_disputes order)) then write (set_disputes open)
            else lret tt in
  match family (po_sku order) with
  | FamilyProt => reverse_prot_fulfilled kind now_ms
  | FamilyCipher =>
      let~ _ := if eqb kind ReverseKind.DisputeLost then drop_release_for_lost_dispute
                else lret tt in
      let~ finished := finish_number_release_locked now_ms in
      match finished with
      | Some outcome => lret outcome
      | None =>
          let~ order := this_order in
          match po_user_id order with
          | None => no_membership_to_reverse
          | Some user_id =>
              let order_id := po_id order in
              let~ undone := if eqb kind ReverseKind.Refund
                             then refund_within_window user_id refund now_ms else lret None in
              match undone with
              | Some outcome => lret outcome
              | None =>
                  let~ order := this_order in
                  let listed := match kind with
                                | ReverseKind.DisputeLost => negb (is_empty (po_open_disputes order))
                                | _ => is_disputed order
                                end in
                  let~ settled := lift (reverse_membership_loop MEMBERSHIP_RETRIES user_id order_id
                                          kind listed now_ms) in
                  if negb settled then unlisted_reversal kind user_id now_ms
                  else
                    let~ _ := if is_reversal kind
                              then let~ _ := lift (clawback_cipher_order user_id order_id now_ms) in
                                   lret tt
                              else lret tt in
                    let~ _ := lift (sync_user_badge user_id) in
                    let~ _ := if is_reversal kind then write (to_refunded now_ms) else lret tt in
                    lret ReverseOutcome.Applied
              end
          end
      end
  end.

Definition reverse_locked (kind : ReverseKind.t) (dispute : option string)
    (refund : option RefundFacts) (now_ms : Z) : L ReverseOutcome.t :=
  if negb (PaymentOrders.is_some dispute)
     && (eqb kind ReverseKind.DisputeOpened || eqb kind ReverseKind.DisputeWon)
  then lfail ErrorType.InternalError
  else
    let~ order := this_order in
    match po_state order with
    | OrderState.Refunded =>
        if eqb kind ReverseKind.DisputeLost then dispute_lost_after_refund
        else lret ReverseOutcome.NoOp
    | OrderState.Voided => lret ReverseOutcome.NoOp
    | OrderState.Creating | OrderState.Pending | OrderState.SessionFailed | OrderState.Expired
    | OrderState.Paid => record_before_fulfilment kind dispute
    | OrderState.Fulfilled => reverse_fulfilled kind dispute refund now_ms
    end.
End Engine.
