(* ===== verification/Engine.v ===== *)
(** * The payments engine (crates/core/payments/src/engine.rs)

    Checkout, fulfilment, voids, the public reversal functions, expiry, the
    views and account deletion, as programs over the world that call what
    EngineCore, EngineProt and EngineReverse define. *)

From stdpp Require Import base numbers list gmap strings.
From S2P Require Import Prelude Errors Program CipherMemberships CipherNumbers ProtLedger.
From S2P Require Import ProtStore PaymentOrders Catalog Settings StripeApi PaymentEvents.
From S2P Require Import PaymentsWorld EngineCore EngineProt EngineReverse.
Open Scope Z_scope.

Record CipherMembershipView : Type := mkMembershipView {
  mv_number : Z;
  mv_tier : CipherTier;
  mv_disputed : bool;
  mv_prot_grant : Z;
}.

Record CipherMe : Type := mkCipherMe {
  me_membership : option CipherMembershipView;
  me_pending : option PendingView;
}.

Record CipherStats : Type := mkCipherStats {
  st_claimed : Z;
  st_cap : Z;
  st_open : bool;
  st_closes_at : option Z;
}.

Definition region_refusal_holds (s : PaymentsSettings) (o : PaymentOrder) (now_ms : Z) : bool :=
  eqb (po_void_reason o) (Some VoidReason.RegionUnavailable)
  && match po_region_blocked_country o with
     | Some country => region_blocked s country | None => false end
  && recently_voided o now_ms.

(** Why a paid order no longer applies *)
Definition precondition_failure (s : PaymentsSettings) (o : PaymentOrder)
    (membership : option CipherMembership) : option VoidReason.t :=
  if eqb (family (po_sku o)) FamilyCipher
     && match s_close_at_ms s with Some close => close <=? po_created_at o | None => false end
  then Some VoidReason.SalesClosed
  else
    match po_sku o with
    | CipherNew _ =>
        match membership with
        | Some m => if is_active m then Some VoidReason.Stale else None
        | None => None
        end
    | CipherUpgrade from _ =>
        match membership with
        | Some m =>
            if is_active m && eqb (cm_tier m) from
            then if is_empty (cm_disputed_orders m) then None else Some VoidReason.DisputeOpen
            else Some VoidReason.Stale
        | None => Some VoidReason.Stale
        end
    | ProtPack _ _ _ | ProtExact _ =>
        if is_empty (po_open_disputes o) then None else Some VoidReason.DisputeOpen
    end.

Inductive ApplyOutcome : Type := ApplyDone | ApplyVoid (reason : VoidReason.t).

Section Engine.
Context `{!Env}.
Abbreviation M A := (Eff World A).

(** ** Checkout *)

Definition start_session (s : PaymentsSettings) (return_to : CipherReturnTo) : L string :=
  match return_to with
  | Web => start_session_with_urls s (s_success_url_web s) (s_cancel_url_web s)
  | Shell => start_session_with_urls s (s_success_url_shell s) (s_cancel_url_shell s)
  end.

(** The checks of [create_cipher_checkout] on the quoted SKU *)
Definition cipher_sku_refused (s : PaymentsSettings) (sku : Sku)
    (membership : option CipherMembership) : M unit :=
  match sku with
  | CipherUpgrade _ _ =>
      if match membership with Some m => negb (is_empty (cm_disputed_orders m)) | None => false end
      then fail ErrorType.CipherTierInvalid else ok tt
  | CipherNew _ =>
      let! claimed := db_count_claimed_cipher_numbers in
      if s_cap s <=? claimed then fail ErrorType.CipherSoldOut else ok tt
  | ProtPack _ _ _ | ProtExact _ => fail ErrorType.InternalError
  end.

Definition create_cipher_checkout (s : PaymentsSettings) (user_id : string) (tier : CipherTier)
    (return_to : CipherReturnTo) (now_ms : Z) : M string :=
  if negb (s_enabled s) then fail ErrorType.PaymentsDisabled
  else if negb (sales_open_at s now_ms) then fail ErrorType.CipherSalesClosed
  else
    let! refused :=
      (if is_empty (s_blocked_countries s) then ok false
       else
         let! orders := db_fetch_payment_orders_by_user user_id
                          [OrderState.Voided; OrderState.Paid] in
         ok (existsb (fun o => eqb (family (po_sku o)) FamilyCipher
                               && region_refusal_holds s o now_ms) orders)) in
    if (refused : bool) then fail ErrorType.CipherRegionUnavailable
    else
      let! row := db_fetch_cipher_membership user_id in
      let! releasing := match row with Some m => number_release_pending m | None => ok false end in
      if (releasing : bool) then fail ErrorType.PaymentPending
      else
        let membership := match row with
                          | Some m => if is_active m then Some m else None | None => None end in
        let! sku := Ret (quote (cm_tier <$> membership) tier) in
        let! _ := cipher_sku_refused s sku membership in
        let! live := db_fetch_payment_orders_by_user user_id
                       [OrderState.Creating; OrderState.Pending] in
        match live_order FamilyCipher sku now_ms (rev live) with
        | Some answer => Ret answer
        | None => open_order sku user_id now_ms (start_session s return_to)
        end.

(** ** Voids *)

Definition void_paid (reason : VoidReason.t) (now_ms : Z) : L FulfilOutcome.t :=
  let~ order := this_order in
  let lost := eqb (po_reversal_pending order) (Some ReversalPending.DisputeLost) in
  if negb lost && negb (is_empty (po_open_disputes order))
  then lret (FulfilOutcome.VoidDeferred reason)
  else
    let~ _ :=
      (if lost then lret tt
       else
         match po_payment_intent_id order with
         | None => lfail ErrorType.InternalError
         | Some payment_intent =>
             let previous := po_void_reason order in
             let marked_now := negb (eqb previous (Some reason)) in
             let~ _ := if marked_now then write (set_void_reason (Some reason)) else lret tt in
             let~ order := this_order in
             let~ refunded := lift (refund_for_void payment_intent (po_id order)) in
             if (refunded : bool) then lret tt
             else
               let~ _ := if marked_now
                         then write (fun o => set_region None (set_void_reason previous o))
                         else lret tt in
               lfail ErrorType.PaymentProviderError
         end) in
    let~ _ := write (fun o =>
      set_reversal None (set_reversed_at (Some now_ms)
        (set_void_reason (Some reason) (set_state OrderState.Voided o)))) in
    lret (FulfilOutcome.Voided reason).

Definition void_for_deleted_account (buyer : option string) (now_ms : Z) : L FulfilOutcome.t :=
  let~ order := this_order in
  let~ _ :=
    match buyer with
    | None => lret tt
    | Some user_id =>
        let~ credited := (if eqb (family (po_sku order)) FamilyProt
                          then lift (purchase_applied (po_id order)) else lret false) in
        let~ _ := if (credited : bool) then lift (clawback_purchase (po_id order) user_id now_ms)
                  else lret tt in
        let~ row := lift (db_fetch_cipher_membership user_id) in
        if match row with Some m => contains (cm_orders m) (po_id order) | None => false end
        then lift (db_delete_cipher_membership user_id) else lret tt
    end in
  void_paid VoidReason.AccountDeleted now_ms.

Definition void_for_region (country : string) (now_ms : Z) : L FulfilOutcome.t :=
  let~ order := this_order in
  let~ _ := set_order (set_region (Some country) order) in
  void_paid VoidReason.RegionUnavailable now_ms.

(** ** Disputes as Stripe reports them now *)

Definition current_dispute_kind (s : PaymentsSettings) (order : PaymentOrder) (dispute_id : string)
    : M ReverseKind.t :=
  let! dispute := ask_stripe (get_dispute dispute_id) in
  if negb (str_eqb (dp_id dispute) dispute_id) then fail ErrorType.PaymentProviderError
  else
    match dp_payment_intent dispute with
    | None => fail ErrorType.PaymentProviderError
    | Some disputed =>
        let! _ :=
          match po_payment_intent_id order with
          | Some paid_by =>
              if str_eqb paid_by disputed then ok tt else fail ErrorType.PaymentProviderError
          | None =>
              let! intent := ask_stripe (get_payment_intent disputed) in
              if negb (str_eqb (pi_id intent) disputed)
                 || negb (Bool.eqb (pi_livemode intent) (s_expect_livemode s))
                 || negb (is_some_str (pi_metadata_order_id intent) (po_id order))
              then fail ErrorType.PaymentProviderError else ok tt
          end in
        ok (dispute_kind (dp_status dispute))
    end.

Fixpoint recheck_loop (ids : list string) (s : PaymentsSettings) (now_ms : Z) : L unit :=
  match ids with
  | [] => lret tt
  | id :: rest =>
      let~ order := this_order in
      if state_is order OrderState.Voided || state_is order OrderState.Refunded then lret tt
      else
        let~ kind := lift (current_dispute_kind s order id) in
        let~ _ := reverse_locked kind (Some id) None now_ms in
        recheck_loop rest s now_ms
  end.

Definition recheck_open_disputes (s : PaymentsSettings) (now_ms : Z) : L unit :=
  let~ order := this_order in recheck_loop (po_open_disputes order) s now_ms.

(** ** Fulfil *)

(** A reversal recorded before fulfilment names no dispute and no refund *)
Definition apply_recorded_reversal (now_ms : Z) : L unit :=
  let~ order := this_order in
  match po_reversal_pending order with
  | Some pending =>
      let~ _ := reverse_locked (pending_kind pending) None None now_ms in lret tt
  | None => lret tt
  end.

Definition finish_fulfilled (now_ms : Z) : L unit :=
  let~ order := this_order in
  let~ _ :=
    match po_user_id order with
    | Some user_id =>
        let~ _ := if is_disputed order
                  then let~ _ := lift (set_dispute_listing user_id (po_id order) true) in lret tt
                  else lret tt in
        lift (sync_user_badge user_id)
    | None => lret tt
    end in
  apply_recorded_reversal now_ms.

(** [payment_intent_id], [paid_at] and a missing session id *)
Definition record_payment (payment_intent session_id : string) (now_ms : Z) (o : PaymentOrder)
    : PaymentOrder :=
  keep_session session_id (set_paid (Some payment_intent) (Some now_ms) o).

Definition void_late_payment (s : PaymentsSettings) (session : CheckoutSession) (now_ms : Z)
    : L FulfilOutcome.t :=
  let~ order := this_order in
  let reason := default VoidReason.Stale (po_void_reason order) in
  if PaymentOrders.is_some (po_payment_intent_id order) then lret (FulfilOutcome.Voided reason)
  else
    match session_mismatch order session s with
    | Some NotOurs => lret FulfilOutcome.Ignored
    | _ =>
        if negb (is_paid session) then lret (FulfilOutcome.Voided reason)
        else
          match cs_payment_intent session with
          | None => lfail ErrorType.PaymentProviderError
          | Some payment_intent =>
              if is_disputed order then
                let~ _ := write (fun o => record_payment payment_intent (cs_id session) now_ms
                                            (set_state OrderState.Paid o)) in
                let~ _ := try (recheck_open_disputes s now_ms) in
                void_paid reason now_ms
              else
                let~ refunded := lift (refund_for_void payment_intent (po_id order)) in
                if negb refunded then lfail ErrorType.PaymentProviderError
                else
                  let~ _ := write (record_payment payment_intent (cs_id session) now_ms) in
                  lret (FulfilOutcome.Voided reason)
          end
    end.

Definition fresh_membership (o : PaymentOrder) (user_id : string) (number : Z) (tier : CipherTier)
    (now_ms : Z) : CipherMembership :=
  mkMembership user_id number tier (tier_prot tier) [po_id o]
    (if is_disputed o then [po_id o] else []) now_ms None None None 0.

Fixpoint join_loop (tries : nat) (order_id user_id : string) (fresh : CipherMembership)
    : M ApplyOutcome :=
  match tries with
  | O => fail ErrorType.InternalError
  | S tries' =>
      let! inserted := db_insert_cipher_membership fresh in
      if (inserted : bool) then ok ApplyDone
      else
        let! row := db_fetch_cipher_membership user_id in
        match row with
        | None => join_loop tries' order_id user_id fresh
        | Some m =>
            if contains (cm_orders m) order_id then ok ApplyDone
            else if is_active m then ok (ApplyVoid VoidReason.Stale)
            else
              let! done := db_update_cipher_membership_if_version fresh (cm_version m) in
              if (done : bool) then ok ApplyDone else join_loop tries' order_id user_id fresh
        end
  end.

Definition upgraded (m : CipherMembership) (o : PaymentOrder) (to : CipherTier) : CipherMembership :=
  mkMembership (cm_user_id m) (cm_number m) to (tier_prot to) (cm_orders m ++ [po_id o])
    (if is_disputed o then cm_disputed_orders m ++ [po_id o] else cm_disputed_orders m)
    (cm_granted_at m) (cm_revoked_at m) (cm_revoke_reason m) (cm_prot_posted_at m) (cm_version m).

Fixpoint upgrade_loop (tries : nat) (o : PaymentOrder) (user_id : string) (from to : CipherTier)
    : M ApplyOutcome :=
  match tries with
  | O => fail ErrorType.InternalError
  | S tries' =>
      let! row := db_fetch_cipher_membership user_id in
      match row with
      | None => ok (ApplyVoid VoidReason.Stale)
      | Some m =>
          if contains (cm_orders m) (po_id o) then ok ApplyDone
          else if negb (is_active m) || negb (eqb (cm_tier m) from)
          then ok (ApplyVoid VoidReason.Stale)
          else if negb (is_empty (cm_disputed_orders m)) then ok (ApplyVoid VoidReason.DisputeOpen)
          else
            let! done := db_update_cipher_membership_if_version (upgraded m o to) (cm_version m) in
            if (done : bool) then ok ApplyDone else upgrade_loop tries' o user_id from to
      end
  end.

(** The number of a new purchase: its own, or one claimed now *)
Definition claim_number (s : PaymentsSettings) (o : PaymentOrder) (user_id : string)
    : M (Z + VoidReason.t) :=
  let! held := db_fetch_cipher_number_by_order (po_id o) in
  match held with
  | Some number => ok (inl number)
  | None =>
      let! row := db_fetch_cipher_membership user_id in
      if match row with
         | Some m => is_active m && negb (contains (cm_orders m) (po_id o)) | None => false end
      then ok (inr VoidReason.Stale)
      else
        let! claimed := db_claim_cipher_number (po_id o) (s_cap s) in
        match claimed with
        | Some number => ok (inl number)
        | None =>
            let! seeded := db_count_cipher_numbers in
            if seeded <? s_cap s then fail ErrorType.InternalError
            else ok (inr VoidReason.SoldOut)
        end
  end.

Definition apply_membership (s : PaymentsSettings) (o : PaymentOrder) (user_id : string)
    (now_ms : Z) : M ApplyOutcome :=
  match po_sku o with
  | CipherNew tier =>
      let! number := claim_number s o user_id in
      match number with
      | inr reason => ok (ApplyVoid reason)
      | inl number =>
          join_loop MEMBERSHIP_RETRIES (po_id o) user_id
            (fresh_membership o user_id number tier now_ms)
      end
  | CipherUpgrade from to => upgrade_loop MEMBERSHIP_RETRIES o user_id from to
  | ProtPack _ _ _ | ProtExact _ => fail ErrorType.InternalError
  end.

(** The country a payment may not come from: the billing country, then the
    card's issuing country, when either is blocked *)
Definition blocked_country (blocked : list string) (session : CheckoutSession)
    (payment_intent : string) (paid_at : option Z) (now_ms : Z) : M (option string) :=
  if match cs_billing_country session with
     | Some country => country_blocked blocked country | None => false end
  then ok (cs_billing_country session)
  else if is_empty blocked then ok None
  else
    do! r <- on_stripe (get_payment_charge payment_intent);
    match r with
    | Ok charge =>
        ok (match pc_card_country charge with
            | Some country => if country_blocked blocked country then Some country else None
            | None => None end)
    | Err err =>
        if card_country_unreadable err && PaymentOrders.is_some (cs_billing_country session)
           && match paid_at with
              | Some at_ => CARD_COUNTRY_WAIT_MS <? saturating_sub_i64 now_ms at_
              | None => false end
        then ok None else fail ErrorType.PaymentProviderError
    end.

(** Steps 3 to 5 for an order not applied yet: [None] once it is applied,
    the outcome of the void when it is not *)
Definition apply_order (s : PaymentsSettings) (session : CheckoutSession)
    (payment_intent user_id : string) (membership : option CipherMembership) (now_ms : Z)
    : L (option FulfilOutcome.t) :=
  let void (v : L FulfilOutcome.t) : L (option FulfilOutcome.t) :=
    let~ outcome := v in lret (Some outcome) in
  let~ order := this_order in
  let fam := family (po_sku order) in
  let~ blocked := match fam with
                  | FamilyCipher => lret (s_blocked_countries s)
                  | FamilyProt => lift (do! ps <- load_prot_or_closed; ok (ps_blocked_countries ps))
                  end in
  let~ country := lift (blocked_country blocked session payment_intent (po_paid_at order) now_ms) in
  match country with
  | Some country => void (void_for_region country now_ms)
  | None =>
      let~ releasing := match po_sku order, membership with
                        | CipherNew _, Some m => lift (number_release_pending m)
                        | _, _ => lret false
                        end in
      if (releasing : bool) then void (void_paid VoidReason.ReleasePending now_ms)
      else
        match precondition_failure s order membership with
        | Some reason => void (void_paid reason now_ms)
        | None =>
            if PaymentOrders.is_some (po_reversal_pending order)
            then void (void_paid VoidReason.Reversed now_ms)
            else
              match fam with
              | FamilyCipher =>
                  let~ applied := lift (apply_membership s order user_id now_ms) in
                  match applied with
                  | ApplyDone => lret None
                  | ApplyVoid reason => void (void_paid reason now_ms)
                  end
              | FamilyProt =>
                  let~ _ := lift (apply_purchase order user_id now_ms) in lret None
              end
        end
  end.

(** Steps 6 and 7 of an applied order *)
Definition complete_order (user_id : string) (now_ms : Z) : L FulfilOutcome.t :=
  let~ order := this_order in
  let fam := family (po_sku order) in
  let~ _ := match fam with FamilyCipher => publish_badge user_id | FamilyProt => lret tt end in
  let~ _ := write (fun o => set_fulfilled_at (Some now_ms) (set_state OrderState.Fulfilled o)) in
  let~ _ := apply_recorded_reversal now_ms in
  let~ _ := match fam with
            | FamilyCipher => lift (do! _ <- sync_after_cipher_fulfil user_id now_ms; ok tt)
            | FamilyProt => lret tt
            end in
  lret FulfilOutcome.Fulfilled.

(** From the buyer on: an order Paid by [payment_intent] with its own terms *)
Definition fulfil_paid (s : PaymentsSettings) (session : CheckoutSession) (payment_intent : string)
    (now_ms : Z) : L FulfilOutcome.t :=
  let~ order := this_order in
  match po_void_reason order with
  | Some reason => void_paid reason now_ms
  | None =>
      match po_user_id order with
      | None => void_for_deleted_account (cs_client_reference_id session) now_ms
      | Some user_id =>
          let~ live := lift (buyer_is_live user_id) in
          if negb live then void_for_deleted_account (Some user_id) now_ms
          else
            let fam := family (po_sku order) in
            let~ membership := match fam with
                               | FamilyCipher => lift (db_fetch_cipher_membership user_id)
                               | FamilyProt => lret None
                               end in
            let~ applied := match fam with
                            | FamilyCipher =>
                                lret match membership with
                                     | Some m => contains (cm_orders m) (po_id order)
                                     | None => false end
                            | FamilyProt => lift (purchase_applied (po_id order))
                            end in
            let~ voided :=
              if (applied : bool) then
                match fam with
                | FamilyCipher =>
                    let~ _ := lift (set_dispute_listing user_id (po_id order) (is_disputed order)) in
                    lret None
                | FamilyProt => lret None
                end
              else apply_order s session payment_intent user_id membership now_ms in
            match voided with
            | Some outcome => lret outcome
            | None => complete_order user_id now_ms
            end
      end
  end.

(** An order not fulfilled, voided or refunded: the session is checked
    against it, its payment recorded, and the order fulfilled or voided *)
Definition pay_and_fulfil (s : PaymentsSettings) (session : CheckoutSession) (now_ms : Z)
    (order : PaymentOrder) : L FulfilOutcome.t :=
  match session_mismatch order session s with
  | Some NotOurs => lret FulfilOutcome.Ignored
  | mismatch =>
      let wrong_terms := match mismatch with Some _ => true | None => false end in
      if negb (is_paid session)
      then lret (if wrong_terms then FulfilOutcome.Ignored else FulfilOutcome.NotPaid)
      else
        match cs_payment_intent session with
        | None => lfail ErrorType.PaymentProviderError
        | Some payment_intent =>
            let~ _ := if state_is order OrderState.Paid then lret tt
                      else write (fun o => record_payment payment_intent (cs_id session) now_ms
                                             (set_state OrderState.Paid o)) in
            if wrong_terms then void_paid VoidReason.AmountMismatch now_ms
            else fulfil_paid s session payment_intent now_ms
        end
  end.

Definition fulfil_locked (s : PaymentsSettings) (session : CheckoutSession) (now_ms : Z)
    : L FulfilOutcome.t :=
  let~ order := this_order in
  match po_state order with
  | OrderState.Fulfilled =>
      let~ _ := finish_fulfilled now_ms in lret FulfilOutcome.AlreadyFulfilled
  | OrderState.Refunded => lret FulfilOutcome.AlreadyFulfilled
  | OrderState.Voided => void_late_payment s session now_ms
  | OrderState.Creating | OrderState.Pending | OrderState.SessionFailed | OrderState.Expired
  | OrderState.Paid => pay_and_fulfil s session now_ms order
  end.

Definition fulfil_order (s : PaymentsSettings) (order_id : string) (session : CheckoutSession)
    (now_ms : Z) : M FulfilOutcome.t :=
  with_lease order_id now_ms (ok FulfilOutcome.LeaseHeld) (fulfil_locked s session now_ms).

Definition resume_locked (s : PaymentsSettings) (session : CheckoutSession) (now_ms : Z)
    : L FulfilOutcome.t :=
  let~ order := this_order in
  let~ _ := if state_is order OrderState.Paid && negb (is_empty (po_open_disputes order))
            then let~ _ := try (recheck_open_disputes s now_ms) in lret tt else lret tt in
  fulfil_locked s session now_ms.

Definition resume_order (s : PaymentsSettings) (order_id : string) (now_ms : Z)
    : M FulfilOutcome.t :=
  let! stored := db_fetch_payment_order order_id in
  match stored with
  | None => fail ErrorType.NotFound
  | Some order =>
      match po_checkout_session_id order with
      | None => fail ErrorType.InternalError
      | Some session_id =>
          let! session := ask_stripe (get_checkout_session session_id) in
          with_lease order_id now_ms (ok FulfilOutcome.LeaseHeld) (resume_locked s session now_ms)
      end
  end.

(** ** Reverse *)

Definition reverse_order (order_id : string) (kind : ReverseKind.t) (refund : option RefundFacts)
    (now_ms : Z) : M ReverseOutcome.t :=
  if match refund with
     | Some facts => negb (eqb (rf_status facts) RefundStatus.Succeeded) | None => false end
  then ok ReverseOutcome.NoOp
  else
    with_lease order_id now_ms (ok ReverseOutcome.Busy)
      (let~ outcome := reverse_locked kind None refund now_ms in
       let~ order := this_order in
       if eqb kind ReverseKind.Refund && PaymentOrders.is_some (po_refund_settling_since order)
       then let~ _ := write (set_settling None) in lret outcome
       else lret outcome).

Definition mark_refund_settling (order_id : string) (now_ms : Z) : M ReverseOutcome.t :=
  with_lease order_id now_ms (ok ReverseOutcome.Busy)
    (let~ order := this_order in
     if state_is order OrderState.Voided || state_is order OrderState.Refunded
     then lret ReverseOutcome.NoOp
     else if PaymentOrders.is_some (po_refund_settling_since order)
     then lret ReverseOutcome.RecordedPending
     else let~ _ := write (set_settling (Some now_ms)) in lret ReverseOutcome.RecordedPending).

Definition clear_refund_settling (order_id : string) (now_ms : Z) : M ReverseOutcome.t :=
  with_lease order_id now_ms (ok ReverseOutcome.Busy)
    (let~ order := this_order in
     let~ _ := if PaymentOrders.is_some (po_refund_settling_since order)
               then write (set_settling None) else lret tt in
     lret ReverseOutcome.NoOp).

Definition reverse_dispute (s : PaymentsSettings) (order_id dispute_id : string) (now_ms : Z)
    : M ReverseOutcome.t :=
  with_lease order_id now_ms (ok ReverseOutcome.Busy)
    (let~ order := this_order in
     let~ kind := lift (current_dispute_kind s order dispute_id) in
     reverse_locked kind (Some dispute_id) None now_ms).

Definition recheck_disputes (s : PaymentsSettings) (order_id : string) (now_ms : Z)
    : M ReverseOutcome.t :=
  with_lease order_id now_ms (ok ReverseOutcome.Busy)
    (let~ before := this_order in
     let~ _ := recheck_open_disputes s now_ms in
     let~ after := this_order in
     lret (if negb (bool_decide (po_state after = po_state before))
              || negb (eqb (po_open_disputes after) (po_open_disputes before))
           then ReverseOutcome.Applied else ReverseOutcome.NoOp)).

Definition finish_number_release (order_id : string) (now_ms : Z) : M ReverseOutcome.t :=
  with_lease order_id now_ms (ok ReverseOutcome.Busy)
    (let~ outcome := finish_number_release_locked now_ms in
     lret (default ReverseOutcome.NoOp outcome)).

(** ** Expiry and views *)

Definition expire_order (order_id : string) (now_ms : Z) : M bool :=
  with_lease order_id now_ms (ok false)
    (let~ order := this_order in
     let~ _ := match po_state order with
               | OrderState.Creating | OrderState.Pending | OrderState.SessionFailed =>
                   write (set_state OrderState.Expired)
               | _ => lret tt
               end in
     lret true).

Definition cipher_me (user_id : string) (now_ms : Z) : M CipherMe :=
  let! row := db_fetch_cipher_membership user_id in
  let membership :=
    match row with
    | Some m => if is_active m
                then Some (mkMembershipView (cm_number m) (cm_tier m)
                             (negb (is_empty (cm_disputed_orders m))) (cm_prot_grant m)) else None
    | None => None
    end in
  let! orders := db_fetch_payment_orders_by_user user_id [OrderState.Pending] in
  ok (mkCipherMe membership (newest_pending FamilyCipher now_ms orders)).

Definition cipher_stats (s : PaymentsSettings) (now_ms : Z) : M CipherStats :=
  let! claimed := db_count_claimed_cipher_numbers in
  ok (mkCipherStats claimed (s_cap s) (sales_open_at s now_ms) (s_close_at_ms s)).

(** ** Account deletion *)

Definition void_for_deletion (now_ms : Z) : L unit :=
  let~ order := this_order in
  match po_state order with
  | OrderState.Paid =>
      let~ _ := void_for_deleted_account (po_user_id order) now_ms in lret tt
  | OrderState.Creating | OrderState.Pending | OrderState.SessionFailed =>
      write (fun o => set_reversed_at (Some now_ms)
               (set_void_reason (Some VoidReason.AccountDeleted)
                  (set_state OrderState.Voided o)))
  | _ => lret tt
  end.

Definition unlink_account_payments (user_id : string) : M unit :=
  let! _ := db_unlink_payment_orders_by_user user_id in
  db_delete_cipher_membership user_id.

(** The voids are best-effort: an order whose lease is held, or that fails,
    is skipped *)
Fixpoint void_all (orders : list PaymentOrder) (now_ms : Z) : prog World unit :=
  match orders with
  | [] => Ret tt
  | o :: rest =>
      do! _ <- with_lease (po_id o) now_ms (ok tt) (void_for_deletion now_ms);
      void_all rest now_ms
  end.

Definition on_account_deleted (user_id : string) (now_ms : Z) : M unit :=
  do! r <- db_fetch_payment_orders_by_user user_id
             [OrderState.Creating; OrderState.Pending; OrderState.SessionFailed; OrderState.Paid];
  do! _ <- void_all (match r with Ok open => open | Err _ => [] end) now_ms;
  unlink_account_payments user_id.
End Engine.
