(* ===== verification/Dispatch.v ===== *)
(** * Webhook events and the reconcile sweep (crates/core/payments/src/dispatch.rs)

    [handle_event] records an event, works out which order it is about and
    hands the order to the engine; [reconcile] expires, resumes, reverses and
    re-drives whatever was left behind. *)

From stdpp Require Import base numbers list gmap strings pretty.
From S2P Require Import Prelude Text Errors Program CipherMemberships CipherNumbers ProtLedger.
From S2P Require Import ProtStore PaymentOrders Catalog Settings StripeApi PaymentEvents.
From S2P Require Import PaymentsWorld EngineCore EngineProt EngineReverse Engine.
Open Scope Z_scope.

Definition EXPIRE_UNPAID_AFTER_MS : Z := 10 * 60 * 1000.
Definition CHECK_PENDING_AFTER_MS : Z := 40 * 60 * 1000.
Definition STRANDED_EVENT_AFTER_MS : Z := 10 * 60 * 1000.
Definition MAX_EVENT_ATTEMPTS : Z := 10.
Definition SWEEP_BATCH : Z := 200.
Definition ERROR_TEXT_MAX : nat := 160.

Module EventOutcome.
Inductive t : Type := Processed | Ignored | Duplicate | Retry.
End EventOutcome.

Module Action.
Inductive t : Type :=
| Fulfil | Expire | Reverse (kind : ReverseKind.t) | Dispute | Ignore.
End Action.

Definition action_for (event : StripeEvent) : Action.t :=
  let ty := se_type event in
  if str_eqb ty CHECKOUT_SESSION_COMPLETED || str_eqb ty CHECKOUT_SESSION_ASYNC_PAYMENT_SUCCEEDED
  then Action.Fulfil
  else if str_eqb ty CHECKOUT_SESSION_EXPIRED || str_eqb ty CHECKOUT_SESSION_ASYNC_PAYMENT_FAILED
  then Action.Expire
  else if str_eqb ty CHARGE_REFUNDED || str_eqb ty CHARGE_REFUND_UPDATED
  then Action.Reverse ReverseKind.Refund
  else if starts_with CHARGE_DISPUTE_PREFIX ty then Action.Dispute
  else Action.Ignore.

Module Step.
Inductive t : Type := Processed | Ignored | Retry (reason : string).
End Step.

(** ** Storable error texts *)

Definition is_alnum_or_underscore (c : Ascii.ascii) : bool :=
  byte_between 48 57 c || byte_between 65 90 c || byte_between 97 122 c || byte_between 95 95 c.

(** [chars().filter(..).take(n)]: only ASCII is kept, so bytes do *)
Fixpoint take_filtered (n : nat) (s : string) : string :=
  match n, s with
  | O, _ | _, EmptyString => EmptyString
  | S n', String c rest =>
      if is_alnum_or_underscore c then String c (take_filtered n' rest) else take_filtered n rest
  end.

Definition stripe_text (call : string) (error : StripeError.t) : string :=
  "stripe " +:+ call +:+ ": " +:+
  match error with
  | StripeError.Transport _ => "transport error"
  | StripeError.Api status (Some code) _ _ =>
      "HTTP " +:+ pretty status +:+ " (" +:+ take_filtered 40 code +:+ ")"
  | StripeError.Api status None _ _ => "HTTP " +:+ pretty status
  | StripeError.Decode _ => "unexpected response"
  end.

(** [is_char_boundary]: no continuation byte (128 to 191) starts there *)
Definition is_char_boundary (s : string) (i : nat) : bool :=
  match String.get i s with Some c => negb (byte_between 128 191 c) | None => true end.

Fixpoint boundary_at_most (s : string) (end_ : nat) : nat :=
  if is_char_boundary s end_ then end_
  else match end_ with O => O | S e => boundary_at_most s e end.

Definition truncate (text : string) : string :=
  if (ERROR_TEXT_MAX <? String.length text)%nat
  then String.substring 0 (boundary_at_most text ERROR_TEXT_MAX) text else text.

(** ** Refund and payment checks *)

Module RefundCheck.
Inductive t : Type :=
| Succeeded (facts : RefundFacts) | Settling (update_ahead : bool) | Failed (marked : bool).
End RefundCheck.

Definition awaits_async_payment (event : StripeEvent) (session : CheckoutSession) : bool :=
  str_eqb (se_type event) CHECKOUT_SESSION_COMPLETED
  && is_some_str (obj_str (se_object event) "payment_status") "unpaid"
  && is_some_str (cs_status session) "complete"
  && is_some_str (cs_payment_status session) "unpaid".

Definition update_ahead_of_list (event : StripeEvent) (refunds : list Refund.t) : bool :=
  if negb (str_eqb (se_type event) CHARGE_REFUND_UPDATED)
     || negb (is_some_str (obj_str (se_object event) "status") "succeeded") then false
  else
    match obj_str (se_object event) "id" with
    | None => false
    | Some refund_id =>
        negb (existsb (fun r => str_eqb (Refund.id r) refund_id && refund_settled r) refunds)
    end.

Definition fulfil_step (outcome : FulfilOutcome.t) : Step.t :=
  match outcome with
  | FulfilOutcome.Fulfilled | FulfilOutcome.AlreadyFulfilled | FulfilOutcome.Voided _ =>
      Step.Processed
  | FulfilOutcome.Ignored => Step.Ignored
  | FulfilOutcome.NotPaid => Step.Retry "session not reported paid yet"
  | FulfilOutcome.LeaseHeld => Step.Retry "order lease held"
  | FulfilOutcome.VoidDeferred _ => Step.Processed
  end.

Definition reverse_step (outcome : ReverseOutcome.t) : Step.t :=
  match outcome with
  | ReverseOutcome.Applied | ReverseOutcome.RecordedPending | ReverseOutcome.NoOp => Step.Processed
  | ReverseOutcome.Busy => Step.Retry "order busy"
  end.

Definition delayed_payment_failed (intent : PaymentIntent) : bool :=
  is_some_str (pi_status intent) "requires_payment_method"
  || is_some_str (pi_status intent) "canceled".

(** ** Tallies of a sweep *)

Record Tally : Type := mkTally {
  t_expired : Z; t_resumed : Z; t_reversed : Z; t_redriven : Z; t_errors : Z }.

Definition tally_default : Tally := mkTally 0 0 0 0 0.
Definition tally_expired (t : Tally) : Tally :=
  mkTally (t_expired t + 1) (t_resumed t) (t_reversed t) (t_redriven t) (t_errors t).
Definition tally_resumed (t : Tally) : Tally :=
  mkTally (t_expired t) (t_resumed t + 1) (t_reversed t) (t_redriven t) (t_errors t).
Definition tally_reversed (t : Tally) : Tally :=
  mkTally (t_expired t) (t_resumed t) (t_reversed t + 1) (t_redriven t) (t_errors t).
Definition tally_redriven (t : Tally) : Tally :=
  mkTally (t_expired t) (t_resumed t) (t_reversed t) (t_redriven t + 1) (t_errors t).
Definition tally_error (t : Tally) : Tally :=
  mkTally (t_expired t) (t_resumed t) (t_reversed t) (t_redriven t) (t_errors t + 1).

Definition summary (t : Tally) : string :=
  "expired=" +:+ pretty (t_expired t) +:+ ", resumed=" +:+ pretty (t_resumed t) +:+ ", reversed="
  +:+ pretty (t_reversed t) +:+ ", redriven=" +:+ pretty (t_redriven t) +:+ ", errors="
  +:+ pretty (t_errors t).

Definition count_fulfil (t : Tally) (outcome : FulfilOutcome.t) : Tally :=
  match outcome with
  | FulfilOutcome.Fulfilled | FulfilOutcome.AlreadyFulfilled | FulfilOutcome.Voided _ =>
      tally_resumed t
  | FulfilOutcome.LeaseHeld | FulfilOutcome.NotPaid | FulfilOutcome.Ignored
  | FulfilOutcome.VoidDeferred _ => t
  end.

(** The [match] on a reversal's outcome the sweep's parts share *)
Definition count_reverse (t : Tally) (outcome : Result ReverseOutcome.t) : Tally :=
  match outcome with
  | Ok ReverseOutcome.Applied => tally_reversed t
  | Ok _ => t
  | Err _ => tally_error t
  end.

(** The [match] on [expire_order] *)
Definition count_expire (t : Tally) (outcome : Result bool) : Tally :=
  match outcome with
  | Ok true => tally_expired t
  | Ok false => t
  | Err _ => tally_error t
  end.

Section Dispatch.
Context `{!Env}.
(** [format!("{:?}", error.error_type)] *)
Context (debug_error : ErrorType.t -> string).
Abbreviation M A := (Eff World A).

Definition engine_text (step : string) (error : ErrorType.t) : string :=
  truncate (step +:+ ": " +:+ debug_error error).

(** ** Events *)

Definition is_settled_state (s : PaymentEventState.t) : bool :=
  match s with PaymentEventState.Processed | PaymentEventState.Ignored => true | _ => false end.

Definition is_settled (id : string) : M bool :=
  let! row := db_fetch_payment_event id in
  ok (match row with Some row => is_settled_state (ev_state row) | None => false end).

Definition record_livemode_mismatch (event : StripeEvent) (now_ms : Z) : M unit :=
  let row := mkEvent (se_id event) (se_type event) (se_livemode event) now_ms
               PaymentEventState.Ignored 1 None in
  let! inserted := db_insert_payment_event_if_absent row in
  if (inserted : bool) then ok tt
  else
    let! settled := is_settled (se_id event) in
    if (settled : bool) then ok tt
    else db_set_payment_event_state (se_id event) PaymentEventState.Ignored None.

(** [Ok None]: not ours; [Err]: a reason to retry with *)
Definition order_for_intent (s : PaymentsSettings) (payment_intent : string)
    : prog World (result string (option string)) :=
  do! found <- db_fetch_payment_order_by_intent payment_intent;
  match found with
  | Ok (Some order) => Ret (Ok (Some (po_id order)))
  | Err e => Ret (Err (engine_text "find order" e))
  | Ok None =>
      do! r <- on_stripe (get_payment_intent payment_intent);
      match r with
      | Err e =>
          Ret (match e with
               | StripeError.Api 404 _ _ _ => Ok None
               | _ => Err (stripe_text "get_payment_intent" e) end)
      | Ok intent =>
          if negb (str_eqb (pi_id intent) payment_intent)
          then Ret (Err "stripe returned a different payment intent"%string)
          else if negb (Bool.eqb (pi_livemode intent) (s_expect_livemode s)) then Ret (Ok None)
          else
            match pi_metadata_order_id intent with
            | None => Ret (Ok None)
            | Some order_id =>
                do! stored <- db_fetch_payment_order order_id;
                Ret (match stored with
                     | Ok (Some order) =>
                         match po_payment_intent_id order with
                         | None => Ok (Some (po_id order))
                         | Some stored => if str_eqb stored payment_intent
                                          then Ok (Some (po_id order)) else Ok None
                         end
                     | Ok None => Ok None
                     | Err e => Err (engine_text "find order" e)
                     end)
            end
      end
  end.

Definition settled_refund (event : StripeEvent) (order_id payment_intent : string) (now_ms : Z)
    : prog World (result string RefundCheck.t) :=
  do! stored <- db_fetch_payment_order order_id;
  match stored with
  | Err e => Ret (Err (engine_text "find order" e))
  | Ok None => Ret (Err "order not found"%string)
  | Ok (Some order) =>
      do! r <- on_stripe (list_refunds payment_intent);
      Ret (match r with
           | Err e => Err (stripe_text "list_refunds" e)
           | Ok refunds =>
               match refund_facts refunds (po_amount_cents order) (se_created event) now_ms with
               | None => Err "stripe lists no refund of the payment yet"%string
               | Some facts =>
                   Ok (match rf_status facts with
                       | RefundStatus.Succeeded => RefundCheck.Succeeded facts
                       | RefundStatus.Pending =>
                           RefundCheck.Settling (update_ahead_of_list event refunds)
                       | RefundStatus.Failed =>
                           RefundCheck.Failed (PaymentOrders.is_some (po_refund_settling_since order))
                       end)
               end
           end)
  end.

(** The order an event's session belongs to, or the step the event ends in *)
Definition order_of_session (event : StripeEvent) (k : string -> string -> prog World Step.t)
    : prog World Step.t :=
  match obj_str (se_object event) "id" with
  | None => Ret Step.Ignored
  | Some session_id =>
      do! found <- db_fetch_payment_order_by_session session_id;
      match found with
      | Ok (Some order) => k session_id (po_id order)
      | Ok None => Ret Step.Ignored
      | Err e => Ret (Step.Retry (engine_text "find order" e))
      end
  end.

(** The same for the payment intent of a charge, a refund or a dispute *)
Definition order_of_intent (s : PaymentsSettings) (event : StripeEvent)
    (k : string -> string -> prog World Step.t) : prog World Step.t :=
  match obj_expandable_id (se_object event) "payment_intent" with
  | None => Ret Step.Ignored
  | Some payment_intent =>
      do! found <- order_for_intent s payment_intent;
      match found with
      | Ok (Some order_id) => k payment_intent order_id
      | Ok None => Ret Step.Ignored
      | Err reason => Ret (Step.Retry reason)
      end
  end.

Definition reverse_event (order_id : string) (kind : ReverseKind.t) (refund : option RefundFacts)
    (now_ms : Z) : prog World Step.t :=
  do! outcome <- reverse_order order_id kind refund now_ms;
  Ret (match outcome with
       | Ok outcome => reverse_step outcome
       | Err e => Step.Retry (engine_text "reverse" e) end).

Definition process (s : PaymentsSettings) (event : StripeEvent) (now_ms : Z) : prog World Step.t :=
  match action_for event with
  | Action.Ignore => Ret Step.Ignored
  | Action.Fulfil =>
      order_of_session event (fun session_id order_id =>
        do! r <- on_stripe (get_checkout_session session_id);
        match r with
        | Err e => Ret (Step.Retry (stripe_text "get_checkout_session" e))
        | Ok session =>
            if negb (str_eqb (cs_id session) session_id)
            then Ret (Step.Retry "stripe returned a different checkout session")
            else
              do! outcome <- fulfil_order s order_id session now_ms;
              Ret (match outcome with
                   | Ok FulfilOutcome.NotPaid =>
                       if awaits_async_payment event session then Step.Processed
                       else fulfil_step FulfilOutcome.NotPaid
                   | Ok outcome => fulfil_step outcome
                   | Err e => Step.Retry (engine_text "fulfil" e)
                   end)
        end)
  | Action.Expire =>
      order_of_session event (fun _ order_id =>
        do! r <- expire_order order_id now_ms;
        Ret (match r with
             | Ok true => Step.Processed
             | Ok false => Step.Retry "order lease held"
             | Err e => Step.Retry (engine_text "expire" e)
             end))
  | Action.Reverse kind =>
      order_of_intent s event (fun payment_intent order_id =>
        if eqb kind ReverseKind.Refund then
          do! check <- settled_refund event order_id payment_intent now_ms;
          match check with
          | Ok (RefundCheck.Succeeded facts) => reverse_event order_id kind (Some facts) now_ms
          | Ok (RefundCheck.Settling update_ahead) =>
              do! r <- mark_refund_settling order_id now_ms;
              Ret (match r with
                   | Ok ReverseOutcome.Busy => Step.Retry "order busy"
                   | Ok _ => if update_ahead
                             then Step.Retry "the update says succeeded, but stripe lists the refund unsettled"
                             else Step.Processed
                   | Err e => Step.Retry (engine_text "mark refund" e)
                   end)
          | Ok (RefundCheck.Failed marked) =>
              if negb marked then Ret Step.Processed
              else
                do! r <- clear_refund_settling order_id now_ms;
                Ret (match r with
                     | Ok ReverseOutcome.Busy => Step.Retry "order busy"
                     | Ok _ => Step.Processed
                     | Err e => Step.Retry (engine_text "clear refund" e)
                     end)
          | Err reason => Ret (Step.Retry reason)
          end
        else reverse_event order_id kind None now_ms)
  | Action.Dispute =>
      order_of_intent s event (fun _ order_id =>
        match obj_str (se_object event) "id" with
        | None => Ret (Step.Retry "dispute event has no dispute id")
        | Some dispute_id =>
            do! outcome <- reverse_dispute s order_id dispute_id now_ms;
            Ret (match outcome with
                 | Ok outcome => reverse_step outcome
                 | Err e => Step.Retry (engine_text "dispute" e) end)
        end)
  end.

Definition handle_event (s : PaymentsSettings) (event : StripeEvent) (now_ms : Z)
    : M EventOutcome.t :=
  if negb (Bool.eqb (se_livemode event) (s_expect_livemode s)) then
    let! _ := record_livemode_mismatch event now_ms in ok EventOutcome.Ignored
  else
    let row := mkEvent (se_id event) (se_type event) (se_livemode event) now_ms
                 PaymentEventState.Received 0 None in
    let! inserted := db_insert_payment_event_if_absent row in
    let! seen := (if (inserted : bool) then ok false else is_settled (se_id event)) in
    if (seen : bool) then ok EventOutcome.Duplicate
    else
      do! step <- process s event now_ms;
      match step with
      | Step.Processed =>
          let! _ := db_set_payment_event_state (se_id event) PaymentEventState.Processed None in
          ok EventOutcome.Processed
      | Step.Ignored =>
          let! _ := db_set_payment_event_state (se_id event) PaymentEventState.Ignored None in
          ok EventOutcome.Ignored
      | Step.Retry reason =>
          let! settled := is_settled (se_id event) in
          if (settled : bool) then ok EventOutcome.Duplicate
          else
            let! _ := db_set_payment_event_state (se_id event) PaymentEventState.Failed
                        (Some reason) in
            ok EventOutcome.Retry
      end.

(** ** The sweep *)

(** [for x in rows { .. }], the tally threaded through *)
Fixpoint sweep {A} (body : A -> Tally -> prog World Tally) (rows : list A) (t : Tally)
    : prog World Tally :=
  match rows with
  | [] => Ret t
  | x :: rest => do! t' <- body x t; sweep body rest t'
  end.

(** A part of the sweep: a failing query is one error *)
Definition sweep_part {A} (query : M (list A)) (body : A -> Tally -> prog World Tally) (t : Tally)
    : prog World Tally :=
  do! r <- query;
  match r with Ok rows => sweep body rows t | Err _ => Ret (tally_error t) end.

Definition expire_one (now_ms : Z) (o : PaymentOrder) (t : Tally) : prog World Tally :=
  do! r <- expire_order (po_id o) now_ms; Ret (count_expire t r).

Definition expire_unpaid (now_ms : Z) : Tally -> prog World Tally :=
  sweep_part (db_fetch_payment_orders_by_state [OrderState.Creating; OrderState.SessionFailed]
                (now_ms - EXPIRE_UNPAID_AFTER_MS) SWEEP_BATCH) (expire_one now_ms).

Definition check_one_pending (s : PaymentsSettings) (now_ms : Z) (o : PaymentOrder) (t : Tally)
    : prog World Tally :=
  match po_checkout_session_id o with
  | None => expire_one now_ms o t
  | Some session_id =>
      do! r <- on_stripe (get_checkout_session session_id);
      match r with
      | Err _ => Ret (tally_error t)
      | Ok session =>
          if negb (str_eqb (cs_id session) session_id) then Ret (tally_error t)
          else if is_some_str (cs_status session) "complete" && is_paid session then
            do! outcome <- fulfil_order s (po_id o) session now_ms;
            Ret (match outcome with Ok outcome => count_fulfil t outcome | Err _ => tally_error t end)
          else if is_some_str (cs_status session) "expired" then expire_one now_ms o t
          else if is_some_str (cs_status session) "complete"
                  && is_some_str (cs_payment_status session) "unpaid" then
            match cs_payment_intent session with
            | None => Ret t
            | Some payment_intent =>
                do! r <- on_stripe (get_payment_intent payment_intent);
                match r with
                | Ok intent => if delayed_payment_failed intent then expire_one now_ms o t else Ret t
                | Err _ => Ret (tally_error t)
                end
            end
          else Ret t
      end
  end.

Definition check_pending (s : PaymentsSettings) (now_ms : Z) : Tally -> prog World Tally :=
  sweep_part (db_fetch_payment_orders_by_state [OrderState.Pending]
                (now_ms - CHECK_PENDING_AFTER_MS) SWEEP_BATCH) (check_one_pending s now_ms).

Definition resume_one (s : PaymentsSettings) (now_ms : Z) (o : PaymentOrder) (t : Tally)
    : prog World Tally :=
  if match po_lease_until o with Some until => now_ms <=? until | None => false end then Ret t
  else
    do! outcome <- resume_order s (po_id o) now_ms;
    Ret (match outcome with Ok outcome => count_fulfil t outcome | Err _ => tally_error t end).

Definition resume_paid (s : PaymentsSettings) (now_ms : Z) : Tally -> prog World Tally :=
  sweep_part (db_fetch_payment_orders_by_state [OrderState.Paid] now_ms SWEEP_BATCH)
    (resume_one s now_ms).

Definition reverse_one_pending (now_ms : Z) (o : PaymentOrder) (t : Tally) : prog World Tally :=
  match po_reversal_pending o with
  | None => Ret t
  | Some pending =>
      do! outcome <- reverse_order (po_id o) (pending_kind pending) None now_ms;
      Ret (count_reverse t outcome)
  end.

Definition apply_pending_reversals (now_ms : Z) : Tally -> prog World Tally :=
  sweep_part (db_fetch_payment_orders_reversal_pending [OrderState.Fulfilled] now_ms SWEEP_BATCH)
    (reverse_one_pending now_ms).

Definition settle_one (now_ms : Z) (o : PaymentOrder) (t : Tally) : prog World Tally :=
  match po_refund_settling_since o, po_payment_intent_id o with
  | Some since, Some payment_intent =>
      do! r <- on_stripe (list_refunds payment_intent);
      match r with
      | Err _ => Ret (tally_error t)
      | Ok refunds =>
          match refund_facts refunds (po_amount_cents o) (Z.quot since 1000) now_ms with
          | None => Ret (tally_error t)
          | Some facts =>
              match rf_status facts with
              | RefundStatus.Pending => Ret t
              | RefundStatus.Failed =>
                  do! outcome <- clear_refund_settling (po_id o) now_ms; Ret (count_reverse t outcome)
              | RefundStatus.Succeeded =>
                  do! outcome <- reverse_order (po_id o) ReverseKind.Refund (Some facts) now_ms;
                  Ret (count_reverse t outcome)
              end
          end
      end
  | _, _ => Ret (tally_error t)
  end.

Definition settle_refunds (now_ms : Z) : Tally -> prog World Tally :=
  sweep_part (db_fetch_payment_orders_refund_settling now_ms SWEEP_BATCH) (settle_one now_ms).

Definition finish_one_release (now_ms : Z) (row : CipherNumber) (t : Tally) : prog World Tally :=
  match cn_order_id row with
  | None => Ret t
  | Some order_id =>
      do! outcome <- finish_number_release order_id now_ms; Ret (count_reverse t outcome)
  end.

Definition finish_number_releases (now_ms : Z) : Tally -> prog World Tally :=
  sweep_part (db_fetch_cipher_numbers_release_pending SWEEP_BATCH) (finish_one_release now_ms).

Definition recheck_one (s : PaymentsSettings) (now_ms : Z) (o : PaymentOrder) (t : Tally)
    : prog World Tally :=
  do! outcome <- recheck_disputes s (po_id o) now_ms; Ret (count_reverse t outcome).

Definition sweep_open_disputes (s : PaymentsSettings) (now_ms : Z) : Tally -> prog World Tally :=
  sweep_part (db_fetch_payment_orders_disputed [OrderState.Fulfilled] now_ms SWEEP_BATCH)
    (recheck_one s now_ms).

Definition redrive_one (s : PaymentsSettings) (now_ms : Z) (row : PaymentEvent) (t : Tally)
    : prog World Tally :=
  let failed reason :=
    do! r <- db_set_payment_event_state (ev_id row) PaymentEventState.Failed (Some reason);
    Ret (match r with Ok _ => tally_error t | Err _ => tally_error (tally_error t) end) in
  do! r <- on_stripe (get_event (ev_id row));
  match r with
  | Ok event =>
      if str_eqb (se_id event) (ev_id row) then
        do! outcome <- handle_event s event now_ms;
        Ret (match outcome with
             | Ok EventOutcome.Retry | Err _ => tally_error t
             | Ok _ => tally_redriven t end)
      else failed "stripe returned a different event"%string
  | Err e => failed (stripe_text "get_event" e)
  end.

Definition redrive_events (s : PaymentsSettings) (now_ms : Z) (t : Tally) : prog World Tally :=
  do! failed <- db_fetch_failed_payment_events MAX_EVENT_ATTEMPTS SWEEP_BATCH;
  do! stranded <- db_fetch_payment_events_by_state PaymentEventState.Received
                    (now_ms - STRANDED_EVENT_AFTER_MS) SWEEP_BATCH;
  let t := match failed with Ok _ => t | Err _ => tally_error t end in
  let t := match stranded with Ok _ => t | Err _ => tally_error t end in
  sweep (redrive_one s now_ms)
    (match failed with Ok rows => rows | Err _ => [] end
     ++ match stranded with Ok rows => rows | Err _ => [] end) t.

Definition reconcile (s : PaymentsSettings) (now_ms : Z) : M string :=
  do! t <- expire_unpaid now_ms tally_default;
  do! t <- check_pending s now_ms t;
  do! t <- resume_paid s now_ms t;
  do! t <- apply_pending_reversals now_ms t;
  do! t <- settle_refunds now_ms t;
  do! t <- finish_number_releases now_ms t;
  do! t <- sweep_open_disputes s now_ms t;
  do! t <- redrive_events s now_ms t;
  ok (summary t).
End Dispatch.
