(* ===== verification/EngineCalls.v ===== *)
(** * Calls that leave the orders alone

    Most of the engine's helpers read or write memberships, numbers, the
    ledger, users and the provider, and neither touch an order nor ask for a
    refund.  They are collected here once; what is proved of the orders and
    of the refunds uses them as single steps. *)

From stdpp Require Import base numbers list gmap strings.
From S2P Require Import Prelude Errors Program CipherMemberships CipherNumbers ProtLedger.
From S2P Require Import ProtStore PaymentOrders Catalog Settings StripeApi PaymentEvents.
From S2P Require Import PaymentsWorld EngineCore EngineProt EngineReverse Engine Dispatch.
Open Scope Z_scope.

Section Calls.
Context {env : Env}.
Abbreviation M A := (Eff World A).

(** Orders and refunds asked for stay as they are *)
Definition aside (w w' : World) : Prop :=
  w_orders w' = w_orders w /\ w_refunds w' = w_refunds w.

Definition calls {A} (p : prog World A) : Prop := holds (fun _ => True) aside p (fun _ => True).

Lemma calls_ret {A} (a : A) : calls (Ret a).
Proof. done. Qed.

Lemma calls_panic {A} : calls (@Panic World A).
Proof. done. Qed.

Lemma calls_bind {A B} (p : prog World A) (f : A -> prog World B) :
  calls p -> (forall a, calls (f a)) -> calls (bind p f).
Proof. intros Hp Hf. apply holds_bind. eapply holds_mono; [exact Hp|]. intros a _. apply Hf. Qed.

Lemma calls_ebind {A B} (p : M A) (f : A -> M B) :
  calls p -> (forall a, calls (f a)) -> calls (ebind p f).
Proof. intros Hp Hf. apply calls_bind; [done|]. intros [a|e]; [apply Hf | done]. Qed.

Lemma calls_atom {A} (op : World -> World * A) : (forall w, aside w (op w).1) -> calls (atom op).
Proof. intros H w _. by split_and!. Qed.

Lemma calls_reading {A} (f : World -> A) : calls (reading f).
Proof. by apply calls_atom. Qed.
Lemma calls_on_numbers {A} (f : Numbers -> Numbers * A) : calls (on_numbers f).
Proof. apply calls_atom. intros w. by destruct (f _). Qed.
Lemma calls_on_memberships {A} (f : Memberships -> Memberships * A) : calls (on_memberships f).
Proof. apply calls_atom. intros w. by destruct (f _). Qed.
Lemma calls_on_events {A} (f : Events -> Events * A) : calls (on_events f).
Proof. apply calls_atom. intros w. by destruct (f _). Qed.
Lemma calls_on_prot {A} (f : string -> ProtDb -> ProtDb * A) : calls (on_prot f).
Proof. apply calls_atom. intros w. by destruct (f _ _). Qed.
Lemma calls_on_stripe {A} (f : St -> St * A) : calls (on_stripe f).
Proof. apply calls_atom. intros w. by destruct (f _). Qed.
Lemma calls_publish u b v : calls (publish_prot_balance u b v).
Proof. by apply calls_atom. Qed.
Lemma calls_update_user u c : calls (db_update_user_cipher u c).
Proof. apply calls_atom. intros w. by case_match. Qed.
Lemma calls_new_ulid : calls new_ulid.
Proof. by apply calls_atom. Qed.
Lemma calls_claim o cap : calls (db_claim_cipher_number o cap).
Proof.
  apply calls_bind; [|by intros [r|]]. apply calls_atom. intros w.
  by destruct (claim_cipher_number _ _ _) as [[]|].
Qed.
End Calls.

Create HintDb calls.
#[export] Hint Resolve calls_ret calls_panic calls_reading calls_on_numbers calls_on_memberships
  calls_on_events calls_on_prot calls_on_stripe calls_publish calls_update_user calls_new_ulid
  calls_claim : calls.
#[export] Hint Opaque bind ebind atom : calls.

(** Walk a program made of such calls *)
Ltac calls_walk :=
  repeat first
    [ progress intros
    | lazymatch goal with
      | |- calls (ebind _ _) => apply calls_ebind
      | |- calls (bind _ _) => apply calls_bind
      | |- calls (Ret _) => apply calls_ret
      | |- calls (ok _) => apply calls_ret
      | |- calls (fail _) => apply calls_ret
      | |- calls (match ?x with _ => _ end) => destruct x eqn:?
      end
    | solve [eauto 1 with calls] ].

Section Functions2.
Context {env : Env}.
Abbreviation M A := (Eff World A).

Lemma calls_ask_stripe {A} (f : St -> St * StripeResult A) : calls (ask_stripe f).
Proof. unfold ask_stripe. calls_walk. Qed.
Lemma calls_buyer_is_live u : calls (buyer_is_live u).
Proof. unfold buyer_is_live. calls_walk. Qed.
Lemma calls_sync_badge u : calls (sync_user_badge u).
Proof.
  unfold sync_user_badge. generalize BADGE_SYNC_RETRIES as n. induction n; simpl; calls_walk.
Qed.
Lemma calls_listing u o b : calls (set_dispute_listing u o b).
Proof.
  unfold set_dispute_listing. generalize MEMBERSHIP_RETRIES as n. induction n; simpl; calls_walk.
Qed.
Lemma calls_number_release_pending m : calls (number_release_pending m).
Proof. unfold number_release_pending. induction (cm_orders m); simpl; calls_walk. Qed.
Lemma calls_wallet_balance u : calls (wallet_balance u).
Proof. unfold wallet_balance. calls_walk. Qed.
End Functions2.
#[export] Hint Resolve calls_ask_stripe calls_buyer_is_live
  calls_sync_badge calls_listing calls_number_release_pending calls_wallet_balance : calls.

Section Functions3.
Context {env : Env}.
Abbreviation M A := (Eff World A).

Lemma calls_forfeit u now : calls (forfeit_if_deleted u now).
Proof.
  unfold forfeit_if_deleted, db_forfeit_prot_wallet. calls_walk.
  generalize PROT_STATE_RETRIES as n. induction n; simpl; calls_walk.
Qed.
Lemma calls_publish_balance u : calls (publish_balance u).
Proof. unfold publish_balance. calls_walk. Qed.
#[local] Hint Resolve calls_forfeit calls_publish_balance : calls.
Lemma calls_purchase_applied o : calls (purchase_applied o).
Proof. unfold purchase_applied. calls_walk. Qed.
#[local] Hint Resolve calls_purchase_applied : calls.
Lemma calls_apply_purchase o u now : calls (apply_purchase o u now).
Proof. unfold apply_purchase. calls_walk. Qed.
Lemma calls_clawback_purchase o u now : calls (clawback_purchase o u now).
Proof. unfold clawback_purchase. calls_walk. Qed.
Lemma calls_sync_cipher_prot ps u now : calls (engine_sync_cipher_prot ps u now).
Proof. unfold engine_sync_cipher_prot. calls_walk. Qed.
#[local] Hint Resolve calls_sync_cipher_prot : calls.
Lemma calls_sync_after u now : calls (sync_after_cipher_fulfil u now).
Proof. unfold sync_after_cipher_fulfil. calls_walk. Qed.
Lemma calls_clawback_cipher u o now : calls (clawback_cipher_order u o now).
Proof. unfold clawback_cipher_order. calls_walk. Qed.
Lemma calls_shortfall m : calls (membership_shortfall m).
Proof. unfold membership_shortfall, incarnation_rows. calls_walk. Qed.
Lemma calls_covered m t : calls (window_clawback_covered m t).
Proof. unfold window_clawback_covered, incarnation_rows. calls_walk. Qed.
Lemma calls_uncredited orders : forall acc, calls (uncredited_prot acc orders).
Proof. induction orders; intros acc; simpl; calls_walk. Qed.
Lemma calls_lost_loop n u o : calls (lost_after_refund_loop n u o).
Proof. induction n; simpl; calls_walk. Qed.
Lemma calls_plan_cipher o m r : calls (window_refund_plan_cipher o m r).
Proof. unfold window_refund_plan_cipher. calls_walk. Qed.
Lemma calls_log o : calls (log_upgrades_left_unrefunded o).
Proof. unfold log_upgrades_left_unrefunded. calls_walk. Qed.
Lemma calls_refunded_in_full pi c : calls (refunded_in_full pi c).
Proof. unfold refunded_in_full. calls_walk. Qed.
Lemma calls_reverse_membership n u o k b now : calls (reverse_membership_loop n u o k b now).
Proof. induction n; simpl; calls_walk. Qed.
Lemma calls_dispute_kind s o d : calls (current_dispute_kind s o d).
Proof. unfold current_dispute_kind. calls_walk. Qed.
Lemma calls_join n o u f : calls (join_loop n o u f).
Proof. induction n; simpl; calls_walk. Qed.
Lemma calls_upgrade n o u a b : calls (upgrade_loop n o u a b).
Proof. induction n; simpl; calls_walk. Qed.
Lemma calls_claim_number s o u : calls (claim_number s o u).
Proof. unfold claim_number. calls_walk. Qed.
#[local] Hint Resolve calls_join calls_upgrade calls_claim_number calls_plan_cipher calls_covered : calls.
Lemma calls_plan o m r : calls (window_refund_plan o m r).
Proof. unfold window_refund_plan. calls_walk. Qed.
Lemma calls_apply_membership s o u now : calls (apply_membership s o u now).
Proof. unfold apply_membership. calls_walk. Qed.
Lemma calls_blocked b ss pi t now : calls (blocked_country b ss pi t now).
Proof. unfold blocked_country. calls_walk. Qed.
Lemma calls_sku_refused s k m : calls (cipher_sku_refused s k m).
Proof. unfold cipher_sku_refused. calls_walk. Qed.
End Functions3.
#[export] Hint Resolve calls_forfeit calls_publish_balance calls_purchase_applied calls_apply_purchase
  calls_clawback_purchase calls_sync_cipher_prot calls_sync_after calls_clawback_cipher calls_shortfall
  calls_uncredited calls_lost_loop calls_log calls_refunded_in_full calls_reverse_membership
  calls_dispute_kind calls_plan calls_apply_membership calls_blocked calls_sku_refused : calls.

Section Others.
Context {env : Env}.

Lemma calls_admin_adjust a d r now : calls (admin_prot_adjust a d r now).
Proof. unfold admin_prot_adjust. calls_walk. Qed.
Lemma calls_forfeit_wallet u now : calls (forfeit_wallet_on_deletion u now).
Proof.
  unfold forfeit_wallet_on_deletion, db_forfeit_prot_wallet. calls_walk.
  generalize PROT_STATE_RETRIES as n. induction n; simpl; calls_walk.
Qed.
End Others.
