(* ===== verification/EngineRefunds.v ===== *)
(** * When money is given back

    A refund cannot be taken back, so the engine asks for one only from an
    order it holds the lease of.  Here other handlers may do anything to any
    order that is not leased, and to a leased one only what an account
    deletion does (its owner); under that rely every handler asks for refunds
    by the rules of [may_refund].  The rules speak of the order as it is
    stored when the refund is asked for, and of what the handler was answered
    before: the worlds its earlier operations ran in. *)

From stdpp Require Import base numbers list gmap strings.
From S2P Require Import Prelude Errors Program CipherMemberships CipherNumbers ProtLedger.
From S2P Require Import ProtStore PaymentOrders Catalog Settings StripeApi PaymentEvents.
From S2P Require Import PaymentsWorld EngineCore EngineProt EngineReverse Engine Dispatch.
From S2P Require Import EngineCalls.
Open Scope Z_scope.

(** [f] was asked in one of the worlds of [h], and the answer was [a]. *)
Definition told {W A} (f : W -> A) (a : A) (h : list W) : Prop := exists w, w ∈ h /\ f w = a.

(** Facts that stay true while the history grows *)
Class Grows {W} (H : list W -> Prop) : Prop := grows : forall x h, H h -> H (x :: h).

#[global] Instance grows_told {W A} (f : W -> A) a : Grows (told f a).
Proof. intros x h (w & Hw & E). exists w. split; [by right | done]. Qed.
#[global] Instance grows_const {W} (P : Prop) : Grows (fun _ : list W => P).
Proof. by intros x h. Qed.
#[global] Instance grows_and {W} (H H' : list W -> Prop) :
  Grows H -> Grows H' -> Grows (fun h => H h /\ H' h).
Proof. intros G G' x h []. split; [by apply G | by apply G']. Qed.
#[global] Instance grows_or {W} (H H' : list W -> Prop) :
  Grows H -> Grows H' -> Grows (fun h => H h \/ H' h).
Proof. intros G G' x h []; [left; by apply G | right; by apply G']. Qed.
#[global] Instance grows_exists {W A} (H : A -> list W -> Prop) :
  (forall a, Grows (H a)) -> Grows (fun h => exists a, H a h).
Proof. intros G x h [a Ha]. exists a. by apply G. Qed.

Section Rules.
Context {env : Env}.
(** The sessions the handler was called with *)
Context (given : CheckoutSession -> Prop).

Definition keyed (os : Orders) : Prop := forall k row, os !! k = Some row -> po_id row = k.

(** What a lease protects *)
Definition terms (o : PaymentOrder)
    : OrderState.t * option VoidReason.t * option string * option ReversalPending.t * list string
      * Sku * option string * option Z :=
  (po_state o, po_void_reason o, po_payment_intent_id o, po_reversal_pending o, po_open_disputes o,
   po_sku o, po_checkout_session_id o, po_lease_until o).

(** What the other handlers may do between two operations of this one *)
Definition lease_rely (w w' : World) : Prop :=
  (keyed (w_orders w) -> keyed (w_orders w')) /\
  forall id row, w_orders w !! id = Some row -> exists row', w_orders w' !! id = Some row' /\
    (forall pi, po_payment_intent_id row = Some pi -> po_payment_intent_id row' = Some pi) /\
    (is_Some (po_lease_until row) -> terms row' = terms row).

(** A session the handler was given, or was told by the provider *)
Definition known (ss : CheckoutSession) (h : list World) : Prop :=
  given ss \/ exists id, told (fun w => (get_checkout_session id (w_stripe w)).2) (Ok ss) h.

(** The session of this order (by the id it has stored, or by the order the
    session names; never one that names another) is paid, by [pi]. *)
Definition pays_for (o : PaymentOrder) (ss : CheckoutSession) (pi : string) : Prop :=
  is_paid ss = true /\ cs_payment_intent ss = Some pi /\
  (po_checkout_session_id o = Some (cs_id ss) \/
   po_checkout_session_id o = None /\ cs_metadata_order_id ss = Some (po_id o)) /\
  (forall named, cs_metadata_order_id ss = Some named -> named = po_id o).

(** The order was found Paid by [pi], or is by a known session of its own. *)
Definition sourced (h : list World) (o : PaymentOrder) (pi : string) : Prop :=
  (exists row, told (fun w => w_orders w !! po_id o) (Some row) h /\
     po_state row = OrderState.Paid /\ po_payment_intent_id row = Some pi) \/
  (exists ss, known ss h /\ pays_for o ss pi).

(** A void refund, of the order [o] as it is stored now: no dispute is open
    or lost, and either the order is Paid by [pi] with its void on record, or
    it is Voided, has no payment yet, and a known session of its own is paid
    by [pi]. *)
Definition void_refund (h : list World) (o : PaymentOrder) (pi : string) : Prop :=
  po_open_disputes o = [] /\ po_reversal_pending o <> Some ReversalPending.DisputeLost /\
  (po_state o = OrderState.Paid /\ po_payment_intent_id o = Some pi /\ is_Some (po_void_reason o) /\
     sourced h o pi \/
   po_state o = OrderState.Voided /\ po_payment_intent_id o = None /\
     exists ss, known ss h /\ pays_for o ss pi).

(** The release of the number bought by the order [id] was found pending *)
Definition release_pending (id : string) (h : list World) : Prop :=
  exists n, told (fun w => fetch_cipher_number_row_by_order (w_numbers w) id) (Ok (Some n)) h /\
    is_Some (cn_release_pending_at n).

(** A membership given back: it lists the released order, was ended by a
    refund, has no open dispute and its Prot is neither posted nor short. *)
Definition given_back (id : string) (m : CipherMembership) (h : list World) : Prop :=
  (exists u, told (fun w => memberships w !! u) (Some m) h) /\ id ∈ cm_orders m /\
  is_active m = false /\ cm_revoke_reason m = Some Refund /\ cm_disputed_orders m = [] /\
  cm_prot_posted_at m = None /\
  exists base rows, head (cm_orders m) = Some base /\
    told (fun w => fetch_prot_entries_by_membership (w_prot w) base) (Ok rows) h /\
    cipher_prot_shortfall rows <= 0.

(** The number of [id], an undisputed purchase under lease, is being released,
    and [x] is another order of the membership that is given back with it. *)
Definition releasing (x : string) (h : list World) (w : World) : Prop :=
  exists id row m, w_orders w !! id = Some row /\ is_Some (po_lease_until row) /\
    (exists tier, po_sku row = CipherNew tier) /\ is_disputed row = false /\
    release_pending id h /\ given_back id m h /\ x ∈ cm_orders m /\ x <> id.

(** The order [x] was found paid by [pi], neither given back nor disputed. *)
Definition upgrade_paid (x pi : string) (h : list World) : Prop :=
  exists up, told (fun w => w_orders w !! x) (Some up) h /\
    po_state up <> OrderState.Refunded /\ po_state up <> OrderState.Voided /\
    po_payment_intent_id up = Some pi /\ is_disputed up = false.

Definition may_refund (h : list World) (w : World) (pi key : string) : Prop :=
  (exists id row, w_orders w !! id = Some row /\ key = void_key id /\ void_refund h row pi) \/
  (exists x row, w_orders w !! x = Some row /\ key = release_upgrade_key x /\
     po_payment_intent_id row = Some pi /\ upgrade_paid x pi h /\ releasing x h w).

Definition refund_rule (h : list World) (w w' : World) : Prop :=
  w_refunds w' = w_refunds w \/
  exists pi key, w_refunds w' = (pi, key) :: w_refunds w /\ may_refund h w pi key.

(** The leased copy agrees with the stored order. *)
Definition synced (l : Leased) (w : World) : Prop :=
  keyed (w_orders w) /\ exists row, w_orders w !! po_id (l_order l) = Some row /\
    terms row = terms (l_order l) /\ po_lease_until row = Some (l_until l).

(** Assertions about the history and the world that survive the others'
    steps and this handler's calls *)
Definition stable (F : list World -> World -> Prop) : Prop :=
  (forall h w w', lease_rely w w' -> F h w -> F h w') /\
  (forall x h w w', aside w w' -> F h w -> F (x :: h) w').

(** An assertion that no change of the order [id] can break *)
Definition ignores (id : string) (F : list World -> World -> Prop) : Prop :=
  forall x h w w', (forall k, k <> id -> w_orders w' !! k = w_orders w !! k) ->
    keyed (w_orders w') -> F h w -> F (x :: h) w'.

(** Of the history alone *)
Definition hist (H : list World -> Prop) : list World -> World -> Prop := fun h _ => H h.

Abbreviation wps p Q := (wph lease_rely refund_rule p Q).

Lemma lease_rely_refl w : lease_rely w w.
Proof. split; [done|]. intros id row H. exists row. auto. Qed.

Lemma lease_rely_trans w1 w2 w3 : lease_rely w1 w2 -> lease_rely w2 w3 -> lease_rely w1 w3.
Proof.
  intros [K1 H1] [K2 H2]. split; [auto|]. intros id row Hr.
  destruct (H1 _ _ Hr) as (row2 & Hr2 & Hp2 & Ht2).
  destruct (H2 _ _ Hr2) as (row3 & Hr3 & Hp3 & Ht3). exists row3. split_and!; [done | eauto|].
  intros Hl. specialize (Ht2 Hl). rewrite <- Ht2. apply Ht3.
  unfold terms in Ht2. injection Ht2 as _ _ _ _ _ _ _ ->. done.
Qed.

Lemma stable_keyed : stable (fun _ w => keyed (w_orders w)).
Proof. split; [intros h w w' [H _]; exact H | by intros x h w w' [-> _]]. Qed.

Lemma stable_synced l : stable (fun _ => synced l).
Proof.
  split; [|intros x h w w' [E _]; unfold synced; by rewrite E].
  intros h w w' [Hk Hr] [H1 (row & H2 & H3 & H4)].
  split; [by apply Hk|]. destruct (Hr _ _ H2) as (row' & H5 & _ & H6).
  exists row'. rewrite H4 in H6. specialize (H6 (ex_intro _ _ eq_refl)).
  split_and!; [done | congruence|]. rewrite <- H4. by injection H6.
Qed.

Lemma stable_and F F' : stable F -> stable F' -> stable (fun h w => F h w /\ F' h w).
Proof. intros [H1 H2] [H3 H4]. split; intros; destruct_and!; split; eauto. Qed.

Lemma stable_hist H `{HG : !Grows H} : stable (hist H).
Proof. split; [done|]. intros x h w w' _. apply HG. Qed.

Lemma ignores_hist id H `{HG : !Grows H} : ignores id (hist H).
Proof. intros x h w w' _ _. apply HG. Qed.

Lemma ignores_and id F F' : ignores id F -> ignores id F' -> ignores id (fun h w => F h w /\ F' h w).
Proof. intros H1 H2 x h w w' Hs Hk []. split; eauto. Qed.

Lemma ignores_synced id l : po_id (l_order l) <> id -> ignores id (fun _ => synced l).
Proof.
  intros Hne x h w w' Hs Hk [_ (row & H2 & H3)]. split; [done|]. exists row. by rewrite Hs.
Qed.

(** What the answer of a call says of the history *)
Definition learns {A} (p : prog World A) (K : A -> list World -> Prop) : Prop :=
  forall h w, wph (fun _ _ => True) (fun _ _ _ => True) p (fun a h' _ => K a h') h w.

(** Calls keep every stable assertion, and their answers are facts. *)
Lemma wps_learn {A} (p : prog World A) K F : calls p -> learns p K -> stable F ->
  forall h w, F h w -> wps p (fun a h' w' => F h' w' /\ K a h') h w.
Proof.
  intros Hp HK [Hs1 Hs2] h w Hf. specialize (HK h w). unfold calls in Hp. revert h w HK Hf.
  induction p as [a| |X op k IH]; intros h w HK Hf; simpl in *; [done | done|].
  intros w1 He. destruct (Hp w1 I) as (_ & Ha & Hk). split; [left; apply Ha|].
  apply IH; [done | by apply HK | eauto].
Qed.

Lemma wps_calls {A} (p : prog World A) F : calls p -> stable F -> forall h w, F h w ->
  wps p (fun _ => F) h w.
Proof.
  intros Hp HF h w Hf. eapply wph_mono; [apply (wps_learn p (fun _ _ => True)); try done|].
  - intros h' w'. clear. revert h' w'. induction p as [| |X op k IH]; simpl; auto.
  - by intros a h' w' [].
Qed.

(** One operation on the orders *)
Lemma wps_on_orders {A} (f : Orders -> Orders * A) (Q : A -> list World -> World -> Prop) h w :
  (forall w1, lease_rely w w1 ->
     Q (f (w_orders w1)).2 (w1 :: h) (set_orders w1 (f (w_orders w1)).1)) ->
  wps (on_orders f) Q h w.
Proof.
  intros H w1 He. specialize (H w1 He). destruct (f _) as [os a]. split; [by left | done].
Qed.

Lemma set_orders_id (w : World) : set_orders w (w_orders w) = w.
Proof. by destruct w. Qed.

Lemma keyed_insert os k row : keyed os -> po_id row = k -> keyed (<[k := row]> os).
Proof. intros H Hr j r. rewrite lookup_insert. case_decide; [intros [= <-]; congruence | apply H]. Qed.
End Rules.

(** ** What the engine's reads tell *)

Section Learning.
Context {env : Env}.

Lemma learns_reading {A} (f : World -> A) : learns (reading f) (fun a => told f a).
Proof. intros h w w1 _. split; [done|]. exists w1. split; [by left | done]. Qed.

Lemma learns_stripe {A} (f : St -> St * A) :
  learns (on_stripe f) (fun a => told (fun w => (f (w_stripe w)).2) a).
Proof.
  intros h w w1 _. split; [done|]. simpl. destruct (f (w_stripe w1)) as [st a] eqn:E.
  exists w1. split; [by left | by rewrite E].
Qed.

Lemma learns_ask {A} (f : St -> St * StripeResult A) :
  learns (ask_stripe f) (fun r h => match r with
    | Ok a => told (fun w => (f (w_stripe w)).2) (Ok a) h | Err _ => True end).
Proof.
  intros h w. apply wph_bind. eapply wph_mono; [apply learns_stripe|]. by intros [a|e] h' w' Ht.
Qed.

(** What the ledger says of a membership *)
Definition shortfall_read (m : CipherMembership) (r : Result Z) (h : list World) : Prop :=
  forall v base, r = Ok v -> head (cm_orders m) = Some base -> exists rows,
    told (fun w => fetch_prot_entries_by_membership (w_prot w) base) (Ok rows) h /\
    cipher_prot_shortfall rows = v.

Lemma learns_shortfall m : learns (membership_shortfall m) (shortfall_read m).
Proof.
  intros h w. unfold membership_shortfall, incarnation_rows, shortfall_read.
  destruct (head _) as [base|]; [|by intros v b].
  apply wph_bind. eapply wph_mono; [apply learns_reading|].
  intros [rows|e] h' w' Ht v b; [intros [= <-] [= <-]; by exists rows | done].
Qed.

#[global] Instance grows_shortfall m r : Grows (shortfall_read m r).
Proof. intros x h Hs v base Hv Hb. destruct (Hs v base Hv Hb) as (rows & Ht & E). exists rows. split; [by apply grows|done]. Qed.
#[global] Instance grows_known given ss : Grows (known given ss).
Proof. unfold known. apply _. Qed.
#[global] Instance grows_pending id : Grows (release_pending id).
Proof. unfold release_pending. apply _. Qed.
#[global] Instance grows_given_back id m : Grows (given_back id m).
Proof. unfold given_back. apply _. Qed.
#[global] Instance grows_upgrade_paid x pi : Grows (upgrade_paid x pi).
Proof. unfold upgrade_paid. apply _. Qed.
End Learning.

(** ** Programs under a lease

    [F] is what a caller wants kept meanwhile, for instance that its own
    leased copy stays synced. *)

Section Leased.
Context {env : Env} (given : CheckoutSession -> Prop) (id : string) (F : list World -> World -> Prop).
Context (HF : stable F) (HI : ignores id F).
Abbreviation wps p Q := (wph lease_rely (refund_rule given) p Q).

Definition at_lease (l : Leased) (h : list World) (w : World) : Prop :=
  po_id (l_order l) = id /\ synced l w /\ F h w.

Definition lt {A} (P : PaymentOrder -> Prop) (c : L A) (Q : Result A -> PaymentOrder -> Prop) : Prop :=
  forall l h w, at_lease l h w -> P (l_order l) ->
    wps (c l) (fun p h' w' => at_lease p.1 h' w' /\ Q p.2 (l_order p.1)) h w.

(** Nothing more than the lease itself is followed *)
Definition by_rules {A} (c : L A) : Prop := lt (fun _ => True) c (fun _ _ => True).

Lemma stable_at_lease l : stable (at_lease l).
Proof.
  destruct (stable_synced l) as [H1 H2], HF as [H3 H4].
  split; [intros h w w' H (? & ? & ?) | intros x h w w' H (? & ? & ?)]; split_and!; eauto.
Qed.

Lemma lt_conseq {A} (c : L A) P P' Q Q' :
  lt P c Q -> (forall o, P' o -> P o) -> (forall r o, Q r o -> Q' r o) -> lt P' c Q'.
Proof.
  intros Hc HP HQ l h w Hl Hp. eapply wph_mono; [by apply Hc; [|apply HP]|].
  intros p h' w' []. eauto.
Qed.

Lemma lt_bind {A B} (c : L A) (k : A -> L B) P Q R :
  lt P c R -> (forall a, lt (R (Ok a)) (k a) Q) -> (forall e o, R (Err e) o -> Q (Err e) o) ->
  lt P (lbind c k) Q.
Proof.
  intros Hc Hk He l h w Hl Hp. apply wph_bind. eapply wph_mono; [by apply Hc|].
  intros [l' [a|e]] h' w' [Hl' Hr]; [by apply Hk | split; [done | by apply He]].
Qed.

Lemma lt_ret {A} (r : Result A) P (Q : Result A -> PaymentOrder -> Prop) :
  (forall o, P o -> Q r o) -> lt P (fun l => Ret (l, r)) Q.
Proof. intros H l h w Hl Hp. split; [done | by apply H]. Qed.

Lemma lt_lift {A} (c : Eff World A) P :
  (forall l h w, at_lease l h w -> P (l_order l) -> wps c (fun _ => at_lease l) h w) ->
  lt P (lift c) (fun _ => P).
Proof. intros Hc l h w Hl Hp. apply wph_bind. eapply wph_mono; [by apply Hc|]. by intros r h' w' Hl'. Qed.

Lemma lt_calls {A} (c : Eff World A) P : calls c -> lt P (lift c) (fun _ => P).
Proof. intros Hc. apply lt_lift. intros l h w Hl _. apply wps_calls; [done | apply stable_at_lease | done]. Qed.

Lemma lt_try {A} (c : L A) P R Q :
  lt P c R -> (forall r o, R r o -> Q (Ok r) o) -> lt P (try c) Q.
Proof.
  intros Hc HQ l h w Hl Hp. apply wph_bind. eapply wph_mono; [by apply Hc|].
  intros [l' r] h' w' [Hl' Hr]. split; [done | by apply HQ].
Qed.

Lemma lt_order {B} (k : PaymentOrder -> L B) P Q :
  (forall o, P o -> po_id o = id -> lt (eq o) (k o) Q) -> lt P (lbind this_order k) Q.
Proof. intros Hk l h w Hl Hp. exact (Hk (l_order l) Hp (proj1 Hl) l h w Hl eq_refl). Qed.

Lemma lt_set_order o P (Q : Result unit -> PaymentOrder -> Prop) :
  Q (Ok tt) o -> po_id o = id -> (forall o', P o' -> terms o = terms o') -> lt P (set_order o) Q.
Proof.
  intros HQ Ho Ht l h w (H1 & [Hk (row & Hr & H2 & H3)] & Hf) Hp. split; [|done].
  split_and!; [done| |done]. split; [done|]. exists row. simpl.
  rewrite Ho, <- H1, (Ht _ Hp). done.
Qed.

(** A conditional write that keeps the id and the lease *)
Lemma lt_write change P (Q : Result unit -> PaymentOrder -> Prop) :
  (forall o, P o -> po_id (change o) = po_id o /\ po_lease_until (change o) = po_lease_until o /\
     (forall e, Q (Err e) o) /\
     forall v, Q (Ok tt) (with_meta (change o) (po_user_id (change o)) (po_lease_until (change o)) v)) ->
  lt P (write change) Q.
Proof.
  intros Hch l h w Hl Hp. destruct (Hch _ Hp) as (Hid & Hle & He & Hq).
  apply wph_bind, wps_on_orders. intros w1 Hr.
  pose proof (proj1 (stable_at_lease l) _ _ _ Hr Hl) as Hl1. clear w Hr Hl.
  pose proof Hl1 as (H1 & [Hk (row & Hrow & Ht & Hu)] & Hf).
  assert (at_lease l (w1 :: h) w1) as Hl2 by (by apply (proj2 (stable_at_lease l) _ _ w1)).
  unfold update_payment_order_if_state.
  destruct (checked_add_u64 _ 1) as [next|] eqn:En; simpl; rewrite ?set_orders_id; [|by split].
  destruct (update_matches _ _ _); simpl; rewrite ?set_orders_id.
  2: { intros w2 H2. split; [by left|]. split; [|done]. apply (proj2 (stable_at_lease l) _ _ w2); [done|].
       by apply (proj1 (stable_at_lease l) _ w1). }
  destruct (provider_id_taken _ _); simpl; rewrite ?set_orders_id; [by split|].
  assert (next = po_version (change (l_order l)) + 1) as ->.
  { unfold checked_add_u64 in En. by case_match; simplify_eq. }
  split; [|apply Hq]. simpl. rewrite Hid.
  set (row' := with_meta _ _ _ _). split_and!; simpl; [congruence| |].
  - split; simpl; [apply keyed_insert; [done | simpl; congruence]|]. exists row'.
    rewrite Hid, lookup_insert_eq. split_and!; [done | done|]. simpl. rewrite Hle.
    unfold terms in Ht. congruence.
  - eapply HI; [|apply keyed_insert; [exact Hk|]|exact Hf]; simpl; [|congruence].
    intros k Hne. rewrite lookup_insert_ne; [done|]. congruence.
Qed.
End Leased.

(** What a call answers is known from then on. *)
Lemma lt_learn {env : Env} given id F {A B} (c : Eff World A) (k : A -> L B) K P Q :
  stable F -> calls c -> learns c K -> (forall e o, P o -> Q (Err e) o) ->
  (forall a, lt given id (fun h w => F h w /\ K (Ok a) h) P (k a) Q) ->
  lt given id F P (lbind (lift c) k) Q.
Proof.
  intros HF Hc HK He Hk l h w Hl Hp. do 2 apply wph_bind.
  eapply wph_mono; [eapply (wps_learn given c K); [done | done | by apply stable_at_lease | done]|].
  intros [a|e] h' w' [Hl' Hka]; [|split; [done | by apply He]].
  simpl. eapply wph_mono; [apply Hk; [|done]|].
  - destruct Hl' as (? & ? & ?). by split_and!.
  - intros p h2 w2 [(? & ? & ? & ?) ?]. by split_and!.
Qed.

(** ** Programs that take a lease *)

Section Taking.
Context {env : Env} (given : CheckoutSession -> Prop).
Abbreviation wps p Q := (wph lease_rely (refund_rule given) p Q).
Implicit Types F : list World -> World -> Prop.

(** [p] asks for refunds by the rules and keeps [F] *)
Definition fair F {A} (p : prog World A) : Prop :=
  forall h w, keyed (w_orders w) -> F h w -> wps p (fun _ h' w' => keyed (w_orders w') /\ F h' w') h w.

Lemma fair_bind F {A B} (p : prog World A) (k : A -> prog World B) :
  fair F p -> (forall a, fair F (k a)) -> fair F (bind p k).
Proof.
  intros Hp Hk h w Hw Hf. apply wph_bind. eapply wph_mono; [by apply Hp|].
  intros a h' w' []. by apply Hk.
Qed.

Lemma fair_ret F {A} (a : A) : fair F (Ret a).
Proof. by intros h w Hw Hf. Qed.

Lemma fair_ebind F {A B} (p : Eff World A) (k : A -> Eff World B) :
  fair F p -> (forall a, fair F (k a)) -> fair F (ebind p k).
Proof. intros Hp Hk. apply fair_bind; [done|]. intros [a|e]; [apply Hk | apply fair_ret]. Qed.

Lemma fair_calls F {A} (p : prog World A) : stable F -> calls p -> fair F p.
Proof.
  intros HF Hp h w Hw Hf. apply (wps_calls given p (fun h w => keyed (w_orders w) /\ F h w)); [done| |done].
  apply stable_and; [apply stable_keyed | done].
Qed.

(** What a call answers is known from then on. *)
Lemma fair_learn F {A B} (p : prog World A) (k : A -> prog World B) K :
  stable F -> calls p -> learns p K -> (forall a, fair (fun h w => F h w /\ K a h) (k a)) ->
  fair F (bind p k).
Proof.
  intros HF Hp HK Hk h w Hw Hf. apply wph_bind.
  eapply wph_mono; [apply (wps_learn given p K (fun h w => keyed (w_orders w) /\ F h w)); try done|].
  - apply stable_and; [apply stable_keyed | done].
  - intros a h' w' [[] ?]. eapply wph_mono; [by apply Hk|]. by intros b h2 w2 (? & ? & ?).
Qed.

Lemma fair_release F l :
  stable F -> ignores (po_id (l_order l)) F -> fair F (release l).
Proof.
  intros HF HI h w Hw Hf. apply wph_bind, wps_on_orders. intros w1 Hr.
  pose proof (proj1 stable_keyed h _ _ Hr Hw) as Hk. pose proof (proj1 HF _ _ _ Hr Hf) as Hf1.
  assert (F (w1 :: h) w1) as Hf2 by (by apply (proj2 HF _ _ w1)).
  simpl. unfold release_payment_order_lease.
  destruct (w_orders w1 !! _) as [row|] eqn:Er; simpl; [|by rewrite set_orders_id].
  destruct (bool_decide _); simpl; [|by rewrite set_orders_id].
  assert (keyed (<[po_id (l_order l) := with_meta row (po_user_id row) None (po_version row)]>
                   (w_orders w1))) as Hk1 by (apply keyed_insert; [done | simpl; eauto]).
  split; [done|]. eapply HI; [|done|exact Hf1]. intros k Hne. simpl. by rewrite lookup_insert_ne.
Qed.

(** The order as it was found when its lease was taken *)
Definition had (id : string) (o : PaymentOrder) (h : list World) : Prop :=
  exists row, told (fun w => w_orders w !! id) (Some row) h /\
    po_state row = po_state o /\ po_payment_intent_id row = po_payment_intent_id o.

#[global] Instance grows_had id o : Grows (had id o).
Proof. unfold had. apply _. Qed.

Lemma acquire_synced F id now h w :
  stable F -> ignores id F -> keyed (w_orders w) -> F h w ->
  wps (acquire id now) (fun r h' w' => keyed (w_orders w') /\ F h' w' /\
    match r with
    | Ok (Some l) => at_lease id (fun h w => F h w /\ had id (l_order l) h) l h' w' | _ => True end) h w.
Proof.
  intros HF HI Hw Hf. apply wph_bind, wps_on_orders. intros w1 Hr.
  pose proof (proj1 stable_keyed h _ _ Hr Hw) as Hk. pose proof (proj1 HF _ _ _ Hr Hf) as Hf1.
  assert (F (w1 :: h) w1) as Hf0 by (by apply (proj2 HF _ _ w1)).
  unfold acquire_payment_order_lease. simpl.
  assert (wps (let! stored := db_fetch_payment_order id in
               match stored with Some _ => ok (@None Leased) | None => fail ErrorType.NotFound end)
            (fun r h' w' => keyed (w_orders w') /\ F h' w' /\
               match r with
               | Ok (Some l) => at_lease id (fun h w => F h w /\ had id (l_order l) h) l h' w'
               | _ => True end) (w1 :: h) w1) as Hn.
  { apply wph_bind. intros w2 H2. split; [by left|]. simpl.
    pose proof (proj1 stable_keyed h _ _ H2 Hk). pose proof (proj1 HF _ _ _ H2 Hf0).
    assert (F (w2 :: w1 :: h) w2) by (by apply (proj2 HF _ _ w2)).
    unfold fetch_payment_order. by destruct (w_orders w2 !! id). }
  destruct (w_orders w1 !! id) as [row|] eqn:Er; simpl; [|by rewrite set_orders_id].
  destruct (lease_free row now); simpl; [|by rewrite set_orders_id].
  destruct (checked_add_u64 _ 1) as [next|]; simpl; [|by rewrite set_orders_id].
  set (row' := with_meta _ _ _ _).
  assert (keyed (<[id := row']> (w_orders w1))) as Hk1.
  { apply keyed_insert; [done|]. simpl. by apply Hk. }
  assert (F (w1 :: h) (set_orders w1 (<[id := row']> (w_orders w1)))) as Hf2.
  { eapply HI; [|done|exact Hf1]. intros k Hne. simpl. by rewrite lookup_insert_ne. }
  assert (po_id row' = id) as Hid by (simpl; by apply Hk).
  split_and!; [done | done|]. split_and!; [done| |done|].
  - split; [done|]. exists row'. change (l_order _) with row'. rewrite Hid. simpl. by rewrite lookup_insert_eq.
  - exists row. split_and!; [|done|done]. exists w1. split; [by left | done].
Qed.

Lemma fair_with_lease F id now {A} (held : Eff World A) (body : L A) Q :
  stable F -> ignores id F -> fair F held ->
  (forall o, lt given id (fun h w => F h w /\ had id o h) (eq o) body Q) ->
  fair F (with_lease id now held body).
Proof.
  intros HF HI Hh Hb h w Hw Hf. apply wph_bind. eapply wph_mono; [by apply acquire_synced|].
  intros [[l|]|e] h' w' (H1 & H2 & H3); [|by apply Hh | done].
  apply wph_bind. eapply wph_mono; [by apply (Hb (l_order l))|].
  intros [l' r] h2 w2 [(Hid & [Hk _] & Hf2 & _) _].
  cbn [fst snd] in *. apply wph_bind. eapply wph_mono; [apply (fair_release F); [done | by rewrite Hid | done | done]|].
  by intros _ h3 w3 [].
Qed.

(** A refund: the world it is asked in allows it *)
Lemma wps_ask_refund pi key (K : list World -> World -> Prop) h w :
  (forall w1, lease_rely w w1 -> K h w1 /\ may_refund given h w1 pi key) ->
  (forall x h w1 w2, w_orders w2 = w_orders w1 -> K h w1 -> K (x :: h) w2) ->
  wps (ask_refund pi key) (fun _ => K) h w.
Proof.
  intros H HK. apply wph_bind. intros w1 Hr. destruct (H w1 Hr) as [Hk Hm]. simpl.
  destruct (create_refund _ _ _) as [st r]. simpl. split.
  - right. by exists pi, key.
  - assert (K (w1 :: h) (set_refunds (set_stripe w1 st) ((pi, key) :: w_refunds w1))) by (by apply (HK _ _ w1)).
    destruct r as [rf|[]]; simpl; repeat case_match; done.
Qed.

Lemma fair_record_upgrade F id now :
  stable F -> ignores id F -> fair F (record_upgrade_refunded id now).
Proof.
  intros HF HI. eapply fair_with_lease with (Q := fun _ _ => True); [done | done | apply fair_ret|].
  intros o. set (F' := fun h w => _ /\ _).
  assert (stable F') as HF' by (apply stable_and; [done | apply stable_hist, _]).
  assert (ignores id F') as HI' by (apply ignores_and; [done | apply ignores_hist, _]).
  apply lt_order. intros o' _ _.
  assert (lt given id F' (eq o') (let~ _ := mark_refunded now in lret true) (fun _ _ => True)) as Hm.
  { eapply (lt_bind _ _ _ _ _ _ _ (fun _ _ => True)); [|intros; by apply lt_ret | done].
    by apply lt_write; [done..|]. }
  destruct (po_state o'); first [exact Hm | by apply lt_ret].
Qed.

(** An order of a membership that is given back *)
Lemma fair_refund_upgrade F x now :
  stable F -> ignores x F -> (forall y h w1 w2, w_orders w2 = w_orders w1 -> F h w1 -> F (y :: h) w2) ->
  (forall h w, F h w -> releasing x h w) ->
  fair F (refund_release_upgrade x now).
Proof.
  intros HF HI HO HR h w Hw Hf. pose proof (fair_record_upgrade F x now HF HI) as Hrec.
  apply wph_bind. intros w1 H1. split; [by left|]. simpl.
  pose proof (proj1 stable_keyed h _ _ H1 Hw) as Hk. pose proof (proj1 HF _ _ _ H1 Hf) as Hf1.
  assert (F (w1 :: h) w1) as Hf2 by (by apply (proj2 HF _ _ w1)).
  unfold fetch_payment_order. destruct (w_orders w1 !! x) as [up|] eqn:Eu; [|done].
  destruct (_ || _) eqn:Es; [done|]. destruct (po_payment_intent_id up) as [pi|] eqn:Ep; [|done].
  destruct (is_disputed up) eqn:Ed; [done|]. apply wph_bind.
  eapply wph_mono; [apply (wps_ask_refund _ _ (fun h w => keyed (w_orders w) /\ F h w))|].
  - intros w2 H2. pose proof (proj1 HF _ _ _ H2 Hf2). split; [by split; [apply (proj1 stable_keyed h w1)|]|].
    right. destruct (proj2 H2 _ _ Eu) as (row & Hr & Hpi & _). exists x, row. split_and!; auto.
    unfold state_is in Es. apply orb_false_iff in Es as [Es1%bool_decide_eq_false Es2%bool_decide_eq_false].
    exists up. split_and!; try done. exists w1. split; [by left | done].
  - intros y h2 w2 w3 E []. rewrite E. eauto.
  - intros asked h2 w2 []. destruct asked as [[]|e]; try done; [by apply Hrec|].
    eapply (fair_bind F); [apply fair_calls; [done|]; calls_walk| |done|done].
    intros []; [done | apply fair_ret].
Qed.

Lemma fair_refund_upgrades F m id now :
  stable F -> (forall x, x <> id -> ignores x F) ->
  (forall y h w1 w2, w_orders w2 = w_orders w1 -> F h w1 -> F (y :: h) w2) ->
  (forall x h w, x ∈ cm_orders m -> x <> id -> F h w -> releasing x h w) ->
  fair F (refund_release_upgrades m id now).
Proof.
  intros HF HI HO HR. unfold refund_release_upgrades. generalize false as b.
  assert (forall x, In x (without (cm_orders m) id) -> x ∈ cm_orders m /\ x <> id) as Hin.
  { intros x [Hx1 Hx2]%filter_In. split; [by apply list_elem_of_In|]. intros ->. by rewrite str_eqb_refl in Hx2. }
  induction (without (cm_orders m) id) as [|x l IH]; intros b; simpl; [apply fair_ret|].
  destruct (Hin x (or_introl eq_refl)).
  apply fair_ebind; [apply fair_refund_upgrade; eauto|].
  intros s. apply IH. intros y Hy. apply Hin. by right.
Qed.
End Taking.

(** ** The engine's functions

    From here on what is kept is a fact [H] of the history. *)

Section Functions.
Context {env : Env} (given : CheckoutSession -> Prop) (id : string) (H : list World -> Prop).
Context {HG : Grows H}.
Abbreviation lt := (lt given id (hist H)).
Abbreviation by_rules := (by_rules given id (hist H)).

(** Programs that need to know nothing of the order *)
Lemma rules_conseq {A} (c : L A) P : by_rules c -> lt P c (fun _ _ => True).
Proof. intros Hc. by eapply lt_conseq. Qed.
Lemma rules_bind {A B} (c : L A) (k : A -> L B) :
  by_rules c -> (forall a, by_rules (k a)) -> by_rules (lbind c k).
Proof. intros Hc Hk. by eapply lt_bind. Qed.
Lemma rules_ret {A} (r : Result A) : by_rules (fun l => Ret (l, r)).
Proof. by apply lt_ret. Qed.
Lemma rules_try {A} (c : L A) : by_rules c -> by_rules (try c).
Proof. intros Hc. by eapply lt_try. Qed.
Lemma held_calls {A} (c : Eff World A) P : calls c -> lt P (lift c) (fun _ => P).
Proof. intros Hc. apply lt_calls; [by apply stable_hist | done]. Qed.
Lemma rules_calls {A} (c : Eff World A) : calls c -> by_rules (lift c).
Proof. intros Hc. by apply held_calls. Qed.
Lemma rules_order {B} (k : PaymentOrder -> L B) :
  (forall o, po_id o = id -> by_rules (k o)) -> by_rules (lbind this_order k).
Proof. intros Hk. apply lt_order. intros o _ Ho. by apply rules_conseq, Hk. Qed.
Lemma held_write change P (Q : Result unit -> PaymentOrder -> Prop) :
  (forall o, P o -> po_id (change o) = po_id o /\ po_lease_until (change o) = po_lease_until o /\
     (forall e, Q (Err e) o) /\
     forall v, Q (Ok tt) (with_meta (change o) (po_user_id (change o)) (po_lease_until (change o)) v)) ->
  lt P (write change) Q.
Proof. apply lt_write; [by apply stable_hist | by apply ignores_hist]. Qed.
Lemma rules_write change :
  (forall o, po_id (change o) = po_id o /\ po_lease_until (change o) = po_lease_until o) ->
  by_rules (write change).
Proof. intros Hw. apply held_write. intros o _. destruct (Hw o). by split_and!. Qed.

(** Where nothing is followed after *)
Abbreviation from P c := (lt P c (fun _ _ => True)).

Lemma from_bind {A B} (c : L A) (k : A -> L B) P (R : PaymentOrder -> Prop) :
  lt P c (fun r o => match r with Ok _ => R o | Err _ => True end) ->
  (forall a, from R (k a)) -> from P (lbind c k).
Proof. intros Hc Hk. by eapply lt_bind. Qed.

Lemma from_ret {A} (r : Result A) P : from P (fun l => Ret (l, r)).
Proof. by apply lt_ret. Qed.

(** Calls before the part that matters *)
Lemma from_calls {A B} (c : Eff World A) (k : A -> L B) P :
  calls c -> (forall a, from P (k a)) -> from P (lbind (lift c) k).
Proof. intros Hc Hk. eapply lt_bind; [by apply held_calls | apply Hk | done]. Qed.

(** The same when the answer matters *)
Lemma from_learn {A B} (c : Eff World A) (k : A -> L B) K P :
  calls c -> learns c K ->
  (forall a, EngineRefunds.lt given id (hist (fun h => H h /\ K (Ok a) h)) P (k a) (fun _ _ => True)) ->
  from P (lbind (lift c) k).
Proof. intros Hc HK Hk. by eapply (lt_learn given id (hist H) c k K); [apply stable_hist|..]. Qed.

Lemma from_order {B} (k : PaymentOrder -> L B) (P : PaymentOrder -> Prop) :
  (forall o, P o -> po_id o = id -> from P (k o)) -> from P (lbind this_order k).
Proof.
  intros Hk. apply lt_order. intros o Hp Ho. eapply lt_conseq; [by apply Hk | by intros ? <- | done].
Qed.

Lemma from_lret {A B} (a : A) (k : A -> L B) P : from P (k a) -> from P (lbind (lret a) k).
Proof. intros Hk. exact Hk. Qed.

Lemma lt_assoc {A B C} (c : L A) (f : A -> L B) (k : B -> L C) P Q :
  lt P (lbind c (fun a => lbind (f a) k)) Q -> lt P (lbind (lbind c f) k) Q.
Proof.
  intros Hc l h w Hl Hp. apply wph_bind_assoc. eapply wph_bind_mono; [by apply Hc|].
  by intros [l' [a|e]].
Qed.

(** A step whose answer is used, and whose order is not *)
Lemma from_then {A B} (c : L A) (k : A -> L B) P :
  from P c -> (forall a, by_rules (k a)) -> from P (lbind c k).
Proof.
  intros Hc Hk. eapply (from_bind _ _ _ (fun _ => True)); [|intros; apply Hk].
  by eapply lt_conseq; [exact Hc | | intros []].
Qed.

Lemma from_void (c : L FulfilOutcome.t) P :
  from P c -> from P (let~ outcome := c in lret (Some outcome)).
Proof. intros Hc. apply from_then; [done|]. intros a. apply from_ret. Qed.
End Functions.

Create HintDb rules.
#[export] Hint Extern 0 (Grows _) => apply _ : rules.
#[export] Hint Opaque lbind lret lfail lift try write mark_refunded keep_number_retired
  release_membership_loop finish_number_release_locked reverse_locked refund_within_window_loop
  reverse_fulfilled unlisted_reversal reverse_prot_fulfilled no_membership_to_reverse
  drop_release_for_lost_dispute : rules.

Ltac rules_walk :=
  repeat first
    [ progress intros
    | lazymatch goal with
      | |- by_rules _ _ _ (let _ := _ in _) => cbv zeta
      | |- by_rules _ _ _ (lbind this_order _) => apply rules_order
      | |- by_rules _ _ _ (lbind _ _) => apply rules_bind
      | |- by_rules _ _ _ (lret _) => apply rules_ret
      | |- by_rules _ _ _ (lfail _) => apply rules_ret
      | |- by_rules _ _ _ (try _) => apply rules_try
      | |- by_rules _ _ _ (write _) => apply rules_write; solve [done | apply _]
      | |- by_rules _ _ _ (mark_refunded _) => apply rules_write; solve [done | apply _]
      | |- by_rules _ _ _ (match ?x with _ => _ end) => destruct x eqn:?
      end
    | assumption
    | solve [eauto 2 with rules]
    | apply rules_calls; solve [apply _ | calls_walk] ].

Section Reversals.
Context {env : Env} (given : CheckoutSession -> Prop) (id : string).
Abbreviation lt H := (lt given id (hist H)).
Abbreviation by_rules H := (by_rules given id (hist H)).
Abbreviation from H P c := (lt H P c (fun _ _ => True)).
Implicit Types H : list World -> Prop.

Lemma rules_record H `{!Grows H} k d : by_rules H (record_before_fulfilment k d).
Proof. unfold record_before_fulfilment. rules_walk. Qed.
Lemma rules_no_membership H `{!Grows H} : by_rules H no_membership_to_reverse.
Proof. unfold no_membership_to_reverse. rules_walk. Qed.
Lemma rules_lost_after H `{!Grows H} : by_rules H dispute_lost_after_refund.
Proof. unfold dispute_lost_after_refund. rules_walk. Qed.
Lemma rules_drop_release H `{!Grows H} : by_rules H drop_release_for_lost_dispute.
Proof. unfold drop_release_for_lost_dispute. rules_walk. Qed.
Lemma rules_retired H `{!Grows H} now : by_rules H (keep_number_retired now).
Proof. unfold keep_number_retired. rules_walk. Qed.
#[local] Hint Resolve rules_record rules_no_membership rules_lost_after rules_drop_release
  rules_retired : rules.

(** A new purchase, and one without a dispute *)
Definition is_new (o : PaymentOrder) : Prop := exists tier, po_sku o = CipherNew tier.
Definition undisputed (o : PaymentOrder) : Prop := is_new o /\ is_disputed o = false.

(** The refunds of a release: what the rules ask for is known by then. *)
Lemma from_refund_upgrades H `{!Grows H} m now :
  (forall h, H h -> release_pending id h /\ given_back id m h) ->
  lt H undisputed (lift (refund_release_upgrades m id now)) (fun _ => undisputed).
Proof.
  intros HH. apply lt_lift. intros l h w Hl Hp.
  assert (forall y h w1 w2, w_orders w2 = w_orders w1 ->
            at_lease id (hist H) l h w1 -> at_lease id (hist H) l (y :: h) w2) as HO.
  { intros y h1 w1 w2 E (H1 & H2 & H3). split_and!; [done| |by apply (grows (H:=H))]. unfold synced. by rewrite E. }
  eapply wph_mono; [apply (fair_refund_upgrades given (at_lease id (hist H) l)); try done|].
  - by apply stable_at_lease, stable_hist.
  - intros x Hx y h1 w1 w2 Hs Hk (H1 & H2 & H3). split_and!; [done| |by apply (grows (H:=H))].
    assert (po_id (l_order l) <> x) as Hlx by congruence. by apply (ignores_synced x l Hlx y h1 w1).
  - intros x h1 w1 Hx Hne (Hid & [Hk (row & Hr & Ht & Hu)] & Hh). destruct (HH _ Hh).
    exists id, row, m. rewrite <- Hid at 1. destruct Hp as [[tier Hsku] Hd]. unfold terms in Ht.
    injection Ht as _ _ _ E1 E2 E3 _ _. split_and!; [done | by rewrite Hu | exists tier; congruence | | done..].
    unfold is_disputed in *. by rewrite E1, E2.
  - apply Hl.
  - by intros _ h' w' [_ ?].
Qed.

Lemma contains_elem l x : contains l x = true -> x ∈ l.
Proof. intros (y & Hy & ->%str_eqb_eq)%existsb_exists. by apply list_elem_of_In. Qed.

(** What the checks of a release have found out *)
Lemma release_checked m u h :
  told (fun w => fetch_cipher_membership (memberships w) u) (Ok (Some m)) h ->
  contains (cm_orders m) id = true -> is_active m = false -> cm_prot_posted_at m = None ->
  cm_revoke_reason m = Some Refund -> cm_disputed_orders m = [] ->
  (exists v, shortfall_read m (Ok v) h /\ v <= 0) -> given_back id m h.
Proof.
  intros (w1 & Hw1 & E1) Hc%contains_elem Ha Hpo Hr Hd (v & Hs & Hv).
  destruct (cm_orders m) as [|base os] eqn:Eo; [by apply elem_of_nil in Hc|].
  destruct (Hs v base eq_refl) as (rows & Ht & E); [by rewrite Eo|].
  unfold given_back. rewrite Eo. split_and!; try done.
  - exists u, w1. split; [done | by injection E1].
  - exists base, rows. split_and!; [done..|]. by rewrite E.
Qed.

Lemma from_release_membership n u now : forall H `{!Grows H},
  (forall h, H h -> release_pending id h) -> from H is_new (release_membership_loop n u id now).
Proof.
  induction n as [|n IH]; intros H HG HH; simpl; [by apply from_ret|].
  eapply from_learn; [done | apply calls_reading | apply learns_reading|]. intros [m|]; [|by apply from_ret].
  set (H1 := fun h => _ /\ _). assert (Grows H1) as HG1 by apply _.
  assert (forall h, H1 h -> release_pending id h) as HH1 by (intros h []; auto).
  destruct (contains (cm_orders m) id) eqn:Ec; simpl; [|apply rules_conseq; rules_walk].
  destruct (is_active m) eqn:Ea.
  { apply from_calls; [done | calls_walk|]. intros done_. eapply (from_bind _ _ _ _ _ _ is_new); [|intros _; by apply IH].
    eapply lt_conseq with (Q := fun _ => is_new); [|done | by intros []].
    destruct done_; [apply held_calls; [done | calls_walk] | by apply lt_ret]. }
  apply from_calls; [done | calls_walk|]. intros [|]; [by apply IH|].
  destruct (cm_prot_posted_at m) as [|] eqn:Epo; simpl.
  { apply from_lret, rules_conseq. rules_walk. }
  apply lt_assoc. eapply from_learn; [done | calls_walk | apply learns_shortfall|]. intros v.
  set (H2 := fun h => _ /\ _). assert (Grows H2) as HG2 by apply _.
  apply lt_assoc, lt_order. intros o Hnew Ho. apply from_lret.
  destruct (_ || _) eqn:Er; simpl; [apply rules_conseq; rules_walk|].
  apply orb_false_iff in Er as [Er Ed]. apply orb_false_iff in Er as [Er Edm].
  apply orb_false_iff in Er as [Ev Err]. apply negb_false_iff in Edm, Err. apply (proj1 (eqb_eq _ _)) in Err.
  assert (forall h, H2 h -> release_pending id h /\ given_back id m h) as HH2.
  { intros h [Hh Hs]. split; [by apply HH1|]. apply (release_checked m u); try done; [apply Hh | |].
    - by destruct (cm_disputed_orders m).
    - exists v. split; [done | lia]. }
  eapply (from_bind _ _ _ _ _ _ undisputed).
  { apply held_write; [done|]. intros ? <-. by split_and!. }
  intros _. eapply (from_bind _ _ _ _ _ _ undisputed).
  { eapply lt_conseq; [by apply from_refund_upgrades | done | by intros []]. }
  intros [|]; simpl; [|apply from_ret]. eapply (from_bind _ _ _ _ _ _ is_new).
  { apply held_write; [done|]. intros ? []. by split_and!. }
  intros _. apply from_calls; [done | calls_walk|]. intros [|]; [apply from_ret|].
  apply IH; [done|]. intros h Hh. by apply HH2.
Qed.

Lemma rules_finish_release H `{!Grows H} now : by_rules H (finish_number_release_locked now).
Proof.
  apply lt_order. intros o _ Ho. destruct (po_sku o) eqn:Es; try apply from_ret. cbv zeta.
  eapply from_learn; [done | apply calls_reading | apply learns_reading|]. intros [row|]; [|apply from_ret].
  rewrite Ho. set (H1 := fun h => _ /\ _). assert (Grows H1) as HG1 by apply _.
  destruct (cn_release_pending_at row) eqn:Er; cbn [PaymentOrders.is_some negb]; [|apply from_ret].
  apply from_then; [|rules_walk]. destruct (po_user_id o) as [u|]; [|apply from_ret].
  apply from_then; [|rules_walk].
  eapply lt_conseq; [apply (from_release_membership _ _ _ H1) | intros ? <-; by eexists | done].
  intros h [_ Ht]. exists row. by rewrite Er.
Qed.
#[local] Hint Resolve rules_finish_release : rules.

Lemma rules_window H `{!Grows H} n u r now : by_rules H (refund_within_window_loop n u r now).
Proof. induction n; simpl; rules_walk. Qed.
Lemma rules_unlisted H `{!Grows H} k u now : by_rules H (unlisted_reversal k u now).
Proof. unfold unlisted_reversal. rules_walk. Qed.
Lemma rules_reverse_prot H `{!Grows H} k now : by_rules H (reverse_prot_fulfilled k now).
Proof. unfold reverse_prot_fulfilled. rules_walk. Qed.
#[local] Hint Resolve rules_window rules_unlisted rules_reverse_prot : rules.

Lemma rules_reverse_fulfilled H `{!Grows H} k d r now : by_rules H (reverse_fulfilled k d r now).
Proof. unfold reverse_fulfilled, refund_within_window. rules_walk. Qed.
#[local] Hint Resolve rules_reverse_fulfilled : rules.

Lemma rules_reverse H `{!Grows H} k d r now : by_rules H (reverse_locked k d r now).
Proof. unfold reverse_locked. rules_walk. Qed.
#[local] Hint Resolve rules_reverse : rules.

Lemma rules_recheck H `{!Grows H} s now : by_rules H (recheck_open_disputes s now).
Proof.
  apply rules_order. intros o _. induction (po_open_disputes o); simpl; rules_walk.
Qed.
Lemma rules_recorded H `{!Grows H} now : by_rules H (apply_recorded_reversal now).
Proof. unfold apply_recorded_reversal. rules_walk. Qed.
#[local] Hint Resolve rules_recorded : rules.
Lemma rules_finish_fulfilled H `{!Grows H} now : by_rules H (finish_fulfilled now).
Proof. unfold finish_fulfilled. rules_walk. Qed.
Lemma rules_publish H `{!Grows H} u : by_rules H (publish_badge u).
Proof. unfold publish_badge. rules_walk. Qed.
#[local] Hint Resolve rules_publish : rules.
Lemma rules_complete H `{!Grows H} u now : by_rules H (complete_order u now).
Proof. unfold complete_order. rules_walk. Qed.
Lemma rules_start H `{!Grows H} s a b : by_rules H (start_session_with_urls s a b).
Proof. unfold start_session_with_urls. rules_walk. Qed.
End Reversals.
#[export] Hint Resolve rules_reverse rules_recheck rules_finish_fulfilled rules_complete rules_start
  rules_finish_release : rules.

Section Voids.
Context {env : Env} (given : CheckoutSession -> Prop) (id : string) (H : list World -> Prop).
Context {HG : Grows H}.
Abbreviation lt := (lt given id (hist H)).
Abbreviation by_rules := (by_rules given id (hist H)).
Abbreviation from P c := (lt P c (fun _ _ => True)).

(** Of the session ids and payments [Src] allows, each payment is sourced. *)
Definition backed (Src : option string -> option string -> Prop) : Prop :=
  forall h o pi, H h -> po_id o = id -> Src (po_checkout_session_id o) (Some pi) -> sourced given h o pi.

(** A Paid order whose payment is one of [Src] *)
Definition paid_in (Src : option string -> option string -> Prop) (o : PaymentOrder) : Prop :=
  po_state o = OrderState.Paid /\ Src (po_checkout_session_id o) (po_payment_intent_id o).

(** What the order must be for its payment to go back *)
Definition refundable (pi : string) (o : PaymentOrder) : Prop :=
  forall h, H h -> void_refund given h o pi.

Lemma pays_for_same o o' ss pi :
  po_id o' = po_id o -> po_checkout_session_id o' = po_checkout_session_id o ->
  pays_for o ss pi -> pays_for o' ss pi.
Proof. unfold pays_for. by intros -> ->. Qed.

Lemma void_refund_same h o o' pi :
  po_id o' = po_id o -> terms o' = terms o -> void_refund given h o pi -> void_refund given h o' pi.
Proof.
  unfold terms. intros Hi [= E1 E2 E3 E4 E5 E6 E7 E8] (Hd & Hr & Hv). unfold void_refund.
  rewrite E1, E2, E3, E4, E5. split_and!; [done..|].
  destruct Hv as [(? & ? & ? & Hs)|(? & ? & ss & ? & ?)].
  - left. split_and!; [done..|]. destruct Hs as [Hs|(ss & ? & ?)]; [left; by rewrite Hi | right].
    exists ss. split; [done | by eapply pays_for_same].
  - right. split_and!; [done..|]. exists ss. split; [done | by eapply pays_for_same].
Qed.

Lemma lt_refund_void pi : from (refundable pi) (lift (refund_for_void pi id)).
Proof.
  eapply lt_conseq; [apply (lt_lift _ _ _ _ (refundable pi)) | done | done].
  intros l h w Hl Hp. unfold refund_for_void. apply wph_bind.
  eapply wph_mono; [apply (wps_ask_refund _ _ _ (at_lease id (hist H) l))|].
  - intros w1 Hr. pose proof (proj1 (stable_at_lease id _ (stable_hist H) l) _ _ _ Hr Hl) as Hl1.
    split; [done|]. destruct Hl1 as (Hid & [Hk (row & Hrow & Ht & _)] & Hh). left. exists id, row.
    rewrite Hid in Hrow. split_and!; [done..|]. eapply void_refund_same; [|exact Ht|by apply Hp].
    by rewrite Hid, (Hk _ _ Hrow).
  - intros x h1 w1 w2 E (Hid & Hs & Hh). split_and!; [done| |by apply HG]. unfold synced. by rewrite E.
  - intros r h' w' Hl'. by destruct r as [[]|].
Qed.

Lemma from_void_paid Src reason now : backed Src -> from (paid_in Src) (void_paid reason now).
Proof.
  intros Hb. apply lt_order. intros o [Hs Hsrc] Ho. cbv zeta.
  destruct (negb _ && negb _) eqn:Ed; [apply from_ret|].
  eapply (from_bind _ _ _ _ _ _ (fun _ => True)); [|intros; apply rules_conseq; rules_walk].
  eapply lt_conseq with (Q := fun _ _ => True); [|done|by intros []].
  destruct (eqb (po_reversal_pending o) _) eqn:El; [apply from_ret|].
  destruct (po_payment_intent_id o) as [pi|] eqn:Ep; [|apply from_ret].
  apply eqb_neq in El. assert (po_open_disputes o = []) as Hd by (by destruct (po_open_disputes o)).
  eapply (from_bind _ _ _ _ _ _ (refundable pi)).
  - destruct (eqb (po_void_reason o) (Some reason)) eqn:Er; simpl.
    + apply (proj1 (eqb_eq _ _)) in Er. apply lt_ret. intros ? <- h Hh. split_and!; [done..|]. left.
      rewrite Er. split_and!; [done..|by apply Hb].
    + apply held_write; [done|]. intros ? <-. split_and!; try done. intros v h Hh.
      split_and!; [done..|]. left. split_and!; [done..|by apply Hb].
  - intros _. apply lt_order. intros o' Hr Ho'. rewrite Ho'.
    eapply (from_bind _ _ _ _ _ _ (fun _ => True)); [|intros; apply rules_conseq; rules_walk].
    eapply lt_conseq; [apply lt_refund_void | by intros ? <- | by intros []].
Qed.

Lemma from_void_deleted Src buyer now :
  backed Src -> from (paid_in Src) (void_for_deleted_account buyer now).
Proof.
  intros Hb. apply lt_order. intros o Hs Ho. eapply (from_bind _ _ _ _ _ _ (paid_in Src)).
  2: intros; by apply from_void_paid.
  eapply lt_conseq with (Q := fun _ => eq o); [|done|by intros [a|e] o' <-].
  assert (forall A (c : Eff World A), calls c -> lt (eq o) (lift c) (fun _ => eq o)) as Hc
    by (intros; by apply held_calls).
  assert (forall A (r : Result A), lt (eq o) (fun l => Ret (l, r)) (fun _ => eq o)) as Hr
    by (intros; by apply lt_ret).
  destruct buyer as [u|]; [|apply Hr].
  eapply (lt_bind _ _ _ _ _ _ _ (fun _ => eq o)); [destruct (eqb _ _); [apply Hc; calls_walk | apply Hr] | intros credited | done].
  eapply (lt_bind _ _ _ _ _ _ _ (fun _ => eq o)); [destruct credited; [apply Hc; calls_walk | apply Hr] | intros _ | done].
  eapply (lt_bind _ _ _ _ _ _ _ (fun _ => eq o)); [apply Hc; calls_walk | intros row | done].
  destruct (match row with Some _ => _ | None => _ end); [apply Hc; calls_walk | apply Hr].
Qed.

Lemma from_void_region Src c now : backed Src -> from (paid_in Src) (void_for_region c now).
Proof.
  intros Hb. apply lt_order. intros o Hs Ho. eapply (from_bind _ _ _ _ _ _ (paid_in Src)).
  2: intros; by apply from_void_paid.
  by apply lt_set_order; [| |intros ? <-].
Qed.

(** Disputes are recorded on a Paid order, which stays Paid. *)
Lemma paid_reverse Src k d r now : lt (paid_in Src) (reverse_locked k d r now) (fun _ => paid_in Src).
Proof.
  unfold reverse_locked. destruct (negb (PaymentOrders.is_some d) && _); [by apply lt_ret|].
  apply lt_order. intros o Hs Ho. rewrite (proj1 Hs). unfold record_before_fulfilment. apply lt_order.
  intros ? <- _. eapply (lt_bind _ _ _ _ _ _ _ (fun _ => paid_in Src)); [| |done].
  { destruct (negb (eqb (pending_after _ _) _) || _); [|by apply lt_ret; intros ? <-].
    apply held_write; [done|]. by intros ? <-. }
  intros _. apply lt_order. intros o' Ho' _.
  eapply (lt_bind _ _ _ _ _ _ _ (fun _ => eq o')); [|by intros; apply lt_ret; intros ? <-|by intros ? ? <-].
  destruct (po_user_id o') as [u|]; [|by apply lt_ret].
  eapply lt_bind; [apply held_calls; [done|calls_walk] | intros [|] | done].
  - apply held_calls; [done|calls_walk].
  - by apply lt_ret.
Qed.

Lemma paid_recheck Src s now :
  lt (paid_in Src) (recheck_open_disputes s now) (fun _ => paid_in Src).
Proof.
  apply lt_order. intros o Hs _. eapply lt_conseq with (P := paid_in Src)
    (Q := fun _ => paid_in Src); [|by intros ? <-|done].
  induction (po_open_disputes o) as [|x l IH]; simpl; [by apply lt_ret|].
  apply lt_order. intros o' Hs' _. destruct (_ || _); [by apply lt_ret; intros ? <-|].
  eapply lt_bind; [apply held_calls; [done|calls_walk]| intros k | by intros ? ? <-].
  eapply lt_conseq with (P := paid_in Src) (Q := fun _ => paid_in Src); [|by intros ? <-|done].
  eapply lt_bind; [apply paid_reverse | by intros | done].
Qed.

(** What the order was found paid by *)
Lemma backed_had o :
  (forall h, H h -> had id o h) ->
  backed (fun _ pi => po_state o = OrderState.Paid /\ pi = po_payment_intent_id o).
Proof.
  intros Hh h o' pi Hp Ho' [Hs E]. destruct (Hh h Hp) as (row & Ht & E1 & E2).
  left. exists row. rewrite Ho'. split_and!; [done | congruence..].
Qed.

(** A session that is the order's own and paid *)
Lemma mismatch_pays o ss s pi :
  session_mismatch o ss s <> Some NotOurs -> is_paid ss = true -> cs_payment_intent ss = Some pi ->
  pays_for o ss pi.
Proof.
  unfold session_mismatch, pays_for. intros Hm Hp Hpi.
  destruct (match po_checkout_session_id o with Some _ => _ | None => _ end) eqn:E1; [done|].
  destruct (match cs_metadata_order_id ss with Some _ => _ | None => false end) eqn:E2; [done|].
  assert (forall named, cs_metadata_order_id ss = Some named -> named = po_id o) as Hn.
  { intros named En. rewrite En in E2. by apply negb_false_iff, str_eqb_eq in E2. }
  split_and!; [done..| |done].
  destruct (po_checkout_session_id o) as [sid|]; apply negb_false_iff in E1.
  - left. by apply str_eqb_eq in E1 as ->.
  - right. split; [done|]. unfold is_some_str in E1.
    destruct (cs_metadata_order_id ss) as [named|]; [|done]. by rewrite (Hn named).
Qed.

Abbreviation by_session ss pi := (fun sid p => sid = Some (cs_id ss) /\ p = Some pi).

Lemma backed_session o ss pi :
  (forall h, H h -> known given ss h) -> po_id o = id -> pays_for o ss pi -> backed (by_session ss pi).
Proof.
  intros Hk Ho (H1 & H2 & H3 & H4) h o' pi' Hh Ho' [Hs [= ->]]. right. exists ss.
  split; [by apply Hk|]. split_and!; [done..|by left|]. intros named Hn. rewrite Ho', <- Ho. by apply H4.
Qed.

(** The write that records a payment *)
Lemma paid_recorded o ss pi now v :
  pays_for o ss pi ->
  let o' := record_payment pi (cs_id ss) now (set_state OrderState.Paid o) in
  paid_in (by_session ss pi) (with_meta o' (po_user_id o') (po_lease_until o') v).
Proof.
  intros (_ & _ & Hs & _). unfold record_payment, keep_session, paid_in. simpl.
  destruct (po_checkout_session_id o) as [sid|] eqn:E; simpl; [|done].
  rewrite E. by destruct Hs as [|[]].
Qed.

Lemma record_keeps pi sid now o :
  po_id (record_payment pi sid now o) = po_id o /\
  po_lease_until (record_payment pi sid now o) = po_lease_until o.
Proof. unfold record_payment, keep_session. simpl. by destruct (po_checkout_session_id o). Qed.

Lemma from_write_paid o ss pi now :
  pays_for o ss pi ->
  lt (eq o) (write (fun o => record_payment pi (cs_id ss) now (set_state OrderState.Paid o)))
    (fun r o' => match r with Ok _ => paid_in (by_session ss pi) o' | Err _ => True end).
Proof.
  intros Hp. apply held_write; [done|]. intros ? <-.
  destruct (record_keeps pi (cs_id ss) now (set_state OrderState.Paid o)).
  split_and!; [done..|]. intros v. by apply (paid_recorded o ss pi now v).
Qed.

Lemma from_void_late s ss now :
  (forall h, H h -> known given ss h) ->
  from (fun o => po_state o = OrderState.Voided) (void_late_payment s ss now).
Proof.
  intros Hkn. apply lt_order. intros o Hs Ho. cbv zeta.
  destruct (po_payment_intent_id o) eqn:Ep; [apply from_ret|]. simpl.
  assert (forall (c d : L FulfilOutcome.t), from (eq o) c ->
    (session_mismatch o ss s <> Some NotOurs -> from (eq o) d) ->
    from (eq o) (match session_mismatch o ss s with Some NotOurs => c | _ => d end)) as Hmatch.
  { intros c d Hc Hd. by destruct (session_mismatch o ss s) as [[]|]; [|apply Hd..]. }
  apply Hmatch; [apply from_ret|]. intros Hm. destruct (is_paid ss) eqn:Epd; simpl; [|apply from_ret].
  destruct (cs_payment_intent ss) as [pi|] eqn:Epi; [|apply from_ret].
  pose proof (mismatch_pays o ss s pi Hm Epd Epi) as Hpay.
  destruct (is_disputed o) eqn:Ed.
  - eapply from_bind; [by apply from_write_paid|]. intros _.
    eapply (from_bind _ _ _ _ _ _ (paid_in (by_session ss pi))).
    + eapply lt_try; [apply paid_recheck | done].
    + intros _. apply from_void_paid. by eapply backed_session.
  - rewrite Ho. eapply (from_bind _ _ _ _ _ _ (fun _ => True)).
    + eapply lt_conseq; [apply lt_refund_void | intros ? <- | by intros []]. intros h Hh.
      apply orb_false_iff in Ed as [Ed1 Ed2]. apply eqb_neq in Ed2.
      split_and!; [by destruct (po_open_disputes o) | done | right]. split_and!; [done..|].
      exists ss. split; [by apply Hkn | done].
    + intros b. apply rules_conseq. destruct b; simpl; rules_walk.
      apply rules_write; [done|]. intros x. apply record_keeps.
Qed.
End Voids.

Ltac from_walk :=
  repeat (cbv beta zeta; lazymatch goal with
    | |- lt _ _ _ _ (lbind this_order _) _ => apply from_order; intros
    | |- lt _ _ _ _ (lbind (lret _) _) _ => apply from_lret
    | |- lt _ _ _ _ (lbind (lift _) _) _ => apply from_calls; [apply _ | solve [calls_walk]|intros]
    | |- lt _ _ _ _ (lbind (match ?x with _ => _ end) _) _ => destruct x eqn:?
    | |- lt _ _ _ _ (lbind (void_paid _ _) _) _ => apply from_void; by apply from_void_paid
    | |- lt _ _ _ _ (lbind (void_for_region _ _) _) _ => apply from_void; by apply from_void_region
    | |- lt _ _ _ _ (match ?x with _ => _ end) _ => destruct x eqn:?
    | |- lt _ _ _ _ (lret _) _ => apply from_ret
    | |- lt _ _ _ _ (lfail _) _ => apply from_ret
    end).

Section Fulfilment.
Context {env : Env} (given : CheckoutSession -> Prop) (id : string) (H : list World -> Prop).
Context {HG : Grows H}.
Context (Src : option string -> option string -> Prop) (Hb : backed given id H Src).
Abbreviation by_rules := (by_rules given id (hist H)).
Abbreviation from P c := (lt given id (hist H) P c (fun _ _ => True)).

Lemma from_apply s ss pi u m now : from (paid_in Src) (apply_order s ss pi u m now).
Proof. unfold apply_order. from_walk. Qed.

Lemma from_fulfil_paid s ss pi now : from (paid_in Src) (fulfil_paid s ss pi now).
Proof.
  apply from_order. intros o Hs Ho. destruct (po_void_reason o); [by apply from_void_paid|].
  destruct (po_user_id o) as [u|]; [|by apply from_void_deleted].
  apply from_calls; [done | calls_walk|]. intros [|]; [|by apply from_void_deleted]. cbv zeta.
  assert (forall m (a : bool), from (paid_in Src)
    (let~ voided := if a then
        match family (po_sku o) with
        | FamilyCipher => let~ _ := lift (set_dispute_listing u (po_id o) (is_disputed o)) in lret None
        | FamilyProt => lret None end
      else apply_order s ss pi u m now in
     match voided with Some outcome => lret outcome | None => complete_order u now end)) as Hd.
  { intros m a. apply from_then; [|rules_walk]. destruct a; [from_walk | apply from_apply]. }
  destruct (family (po_sku o)).
  - apply from_calls; [done | calls_walk|]. intros m. apply Hd.
  - apply from_lret, from_calls; [done | calls_walk|]. intros a. apply Hd.
Qed.
End Fulfilment.

Section Fulfilment2.
Context {env : Env} (given : CheckoutSession -> Prop) (id : string) (H : list World -> Prop).
Context {HG : Grows H}.
Abbreviation by_rules := (by_rules given id (hist H)).
Abbreviation from P c := (lt given id (hist H) P c (fun _ _ => True)).
(** What is kept of the payments, and whether the order begins with one *)
Context (Src : option string -> option string -> Prop) (Hb : backed given id H Src).
Definition if_paid (o : PaymentOrder) : Prop :=
  po_state o = OrderState.Paid -> Src (po_checkout_session_id o) (po_payment_intent_id o).

Lemma from_pay_and_fulfil s ss now o :
  (forall h, H h -> known given ss h) -> if_paid o -> po_id o = id ->
  from (eq o) (pay_and_fulfil s ss now o).
Proof.
  intros Hkn Hp Ho. unfold pay_and_fulfil.
  assert (forall pi (k : L FulfilOutcome.t), session_mismatch o ss s <> Some NotOurs ->
    is_paid ss = true -> cs_payment_intent ss = Some pi ->
    (forall Src', backed given id H Src' -> from (paid_in Src') k) ->
    from (eq o) (let~ _ := if state_is o OrderState.Paid then lret tt
                 else write (fun o => record_payment pi (cs_id ss) now
                                        (set_state OrderState.Paid o)) in k)) as Hk.
  { intros pi k Hm Hpd Hpi Hk. unfold state_is. case_bool_decide.
    - apply from_lret. eapply lt_conseq; [by apply (Hk Src) | | done]. intros ? <-. by split; [|apply Hp].
    - pose proof (mismatch_pays o ss s pi Hm Hpd Hpi). eapply from_bind; [by apply from_write_paid|].
      intros _. apply Hk. by eapply backed_session. }
  destruct (session_mismatch o ss s) as [[]|] eqn:Em; [apply from_ret | |]; cbv zeta.
  all: destruct (is_paid ss) eqn:Epd; simpl; [|apply from_ret].
  all: destruct (cs_payment_intent ss); [|apply from_ret].
  all: apply Hk; [done..|]; intros; first [by apply from_void_paid | by apply from_fulfil_paid].
Qed.

Lemma from_fulfil s ss now : (forall h, H h -> known given ss h) -> from if_paid (fulfil_locked s ss now).
Proof.
  intros Hkn. apply lt_order. intros o Hp Ho.
  pose proof (from_pay_and_fulfil s ss now o Hkn Hp Ho) as Hpay. destruct (po_state o) eqn:E; try exact Hpay.
  - apply rules_conseq. rules_walk.
  - apply from_ret.
  - eapply lt_conseq; [by apply from_void_late | by intros ? <- | done].
Qed.

Lemma from_resume s ss now : (forall h, H h -> known given ss h) -> from if_paid (resume_locked s ss now).
Proof.
  intros Hkn. apply lt_order. intros o Hp Ho. eapply (from_bind _ _ _ _ _ _ if_paid); [|intros; by apply from_fulfil].
  destruct (state_is o OrderState.Paid && _) eqn:Es; [|by apply lt_ret; intros ? <-].
  apply andb_true_iff in Es as [Es%bool_decide_eq_true _].
  eapply lt_conseq with (P := paid_in Src) (Q := fun _ => paid_in Src); [|intros ? <-|].
  - eapply (lt_bind _ _ _ _ _ _ _ (fun _ => paid_in Src)); [|by intros; apply lt_ret | done].
    by eapply lt_try; [apply paid_recheck|].
  - by split; [|apply Hp].
  - intros [a|e] o' [Hs Hsrc]; [|done]. by intros _.
Qed.

Lemma from_void_deletion now : from if_paid (void_for_deletion now).
Proof.
  apply lt_order. intros o Hp Ho. destruct (po_state o) eqn:E.
  4: { apply from_then; [|rules_walk]. eapply lt_conseq; [by apply from_void_deleted | | done].
       intros ? <-. by split; [|apply Hp]. }
  all: apply rules_conseq; rules_walk.
Qed.
End Fulfilment2.

(** ** The public functions, the events and the sweep *)

Section Handlers.
Context {env : Env} (given : CheckoutSession -> Prop) (H : list World -> Prop) {HG : Grows H}.
Abbreviation fair p := (fair given (hist H) p).

Lemma fair_lease id now {A} (held : Eff World A) (body : L A) :
  fair held -> (forall o, by_rules given id (hist (fun h => H h /\ had id o h)) body) ->
  fair (with_lease id now held body).
Proof.
  intros Hh Hb. eapply (fair_with_lease given (hist H)); [by apply stable_hist | by apply ignores_hist | done|].
  intros o. exact (rules_conseq given id _ body (eq o) (Hb o)).
Qed.

(** The same for a body that starts from the order as it was found *)
Lemma fair_lease_found id now {A} (held : Eff World A) (body : L A) :
  fair held ->
  (forall H' Src, Grows H' -> (forall h, H' h -> H h) -> backed given id H' Src ->
     lt given id (hist H') (if_paid Src) body (fun _ _ => True)) ->
  fair (with_lease id now held body).
Proof.
  intros Hh Hb. eapply (fair_with_lease given (hist H)); [by apply stable_hist | by apply ignores_hist | done|].
  intros o. eapply lt_conseq;
    [apply (Hb (fun h => H h /\ had id o h) _ _ (fun h => proj1 (A:=_) (B:=_)) (backed_had given id _ o (fun h => proj2 (A:=_) (B:=_)))) | | done].
  by intros ? <-.
Qed.

Lemma fair_hear {A B} (p : prog World A) (k : A -> prog World B) K :
  calls p -> learns p K ->
  (forall a, EngineRefunds.fair given (hist (fun h => H h /\ K a h)) (k a)) -> fair (bind p k).
Proof. intros Hp HK Hk. eapply (fair_learn given (hist H)); [by apply stable_hist | done | done | exact Hk]. Qed.

Lemma unlink_keyed keys : forall os u, keyed os -> keyed (unlink_loop keys os u).1.
Proof.
  induction keys as [|k keys IH]; intros os u Hk; simpl; [done|].
  destruct (os !! k) as [row|] eqn:Er; [|by apply IH].
  destruct (is_some_str _ u); [|by apply IH].
  destruct (checked_add_u64 _ 1) as [next|]; [|done].
  apply IH, keyed_insert; [done|]. simpl. by apply Hk.
Qed.

Lemma fair_unlink u : fair (db_unlink_payment_orders_by_user u).
Proof.
  intros h w Hw Hh. apply wps_on_orders. intros w1 Hr. simpl. split; [|by apply HG].
  pose proof (unlink_keyed (hm_keys (w_orders w1)) (w_orders w1) u
                (proj1 stable_keyed h _ _ Hr Hw)) as Hu.
  unfold unlink_payment_orders_by_user. by destruct (unlink_loop _ _ _).
Qed.

Lemma fair_insert o : fair (db_insert_payment_order o).
Proof.
  intros h w Hw Hh. apply wps_on_orders. intros w1 Hr. simpl. split; [|by apply HG].
  pose proof (proj1 stable_keyed h _ _ Hr Hw). unfold insert_payment_order.
  destruct (is_some _); [done|]. destruct (provider_id_taken _ _); [done|]. by apply keyed_insert.
Qed.

Lemma fair_quiet {A} (p : prog World A) : calls p -> fair p.
Proof. apply fair_calls. by apply stable_hist. Qed.
End Handlers.

Create HintDb fair.
#[export] Hint Resolve fair_unlink fair_insert : fair.
#[export] Hint Extern 0 (Grows _) => apply _ : fair.
#[export] Hint Opaque bind ebind atom with_lease : fair.

Ltac fair_walk :=
  repeat first
    [ progress intros
    | lazymatch goal with
      | |- fair _ _ (with_lease _ _ _ _) => apply fair_lease; [apply _| |solve [rules_walk]]
      | |- fair _ _ (bind (on_stripe (get_checkout_session _)) _) =>
          eapply fair_hear; [apply _ | apply calls_on_stripe | apply learns_stripe|]
      | |- fair _ _ (ebind (ask_stripe (get_checkout_session _)) _) =>
          eapply fair_hear; [apply _ | apply calls_ask_stripe | apply learns_ask|]
      | |- fair _ _ (ebind _ _) => apply fair_ebind
      | |- fair _ _ (bind _ _) => apply fair_bind
      | |- fair _ _ (Ret _) => apply fair_ret
      | |- fair _ _ (ok _) => apply fair_ret
      | |- fair _ _ (fail _) => apply fair_ret
      | |- fair _ _ (match ?x with _ => _ end) => destruct x eqn:?
      end
    | assumption
    | solve [eauto 2 with fair]
    | apply fair_quiet; solve [apply _ | eauto 1 with calls] ].

Section Public.
Context {env : Env} (given : CheckoutSession -> Prop) (debug_error : ErrorType.t -> string).
Abbreviation fair H p := (fair given (hist H) p).
Implicit Types H : list World -> Prop.

Lemma fair_fulfil H `{!Grows H} s id ss now :
  (forall h, H h -> known given ss h) -> fair H (fulfil_order s id ss now).
Proof.
  intros Hk. apply fair_lease_found; [done | apply fair_ret|]. intros H' Src HG' HH Hb.
  apply from_fulfil; [done..|]. intros h Hh. by apply Hk, HH.
Qed.

(** A session just read *)
Lemma fair_fulfil_told H `{!Grows H} s id sid ss now :
  fair (fun h => H h /\ told (fun w => (get_checkout_session sid (w_stripe w)).2) (Ok ss) h)
    (fulfil_order s id ss now).
Proof. apply fair_fulfil; [apply _|]. intros h [_ Ht]. right. by exists sid. Qed.

Lemma fair_resume H `{!Grows H} s id now : fair H (resume_order s id now).
Proof.
  unfold resume_order. fair_walk. apply fair_lease_found; [apply _ | apply fair_ret|].
  intros H' Src HG' HH Hb. apply from_resume; [done..|]. intros h Hh. destruct (HH h Hh) as [_ Ht].
  right. by eexists.
Qed.
Lemma fair_reverse H `{!Grows H} id k r now : fair H (reverse_order id k r now).
Proof. unfold reverse_order. fair_walk. Qed.
Lemma fair_mark_settling H `{!Grows H} id now : fair H (mark_refund_settling id now).
Proof. unfold mark_refund_settling. fair_walk. Qed.
Lemma fair_clear_settling H `{!Grows H} id now : fair H (clear_refund_settling id now).
Proof. unfold clear_refund_settling. fair_walk. Qed.
Lemma fair_reverse_dispute H `{!Grows H} s id d now : fair H (reverse_dispute s id d now).
Proof. unfold reverse_dispute. fair_walk. Qed.
Lemma fair_recheck H `{!Grows H} s id now : fair H (recheck_disputes s id now).
Proof. unfold recheck_disputes. fair_walk. Qed.
Lemma fair_finish_release H `{!Grows H} id now : fair H (finish_number_release id now).
Proof. unfold finish_number_release. fair_walk. Qed.
Lemma fair_expire H `{!Grows H} id now : fair H (expire_order id now).
Proof. unfold expire_order. fair_walk. Qed.
Lemma fair_deleted H `{!Grows H} u now : fair H (on_account_deleted u now).
Proof.
  unfold on_account_deleted, unlink_account_payments. fair_walk.
  induction (match a with Ok open => open | Err _ => [] end) as [|o l IH]; simpl; [apply fair_ret|].
  apply fair_bind; [|by intros]. apply fair_lease_found; [done | apply fair_ret|].
  intros H' Src HG' HH Hb. by apply from_void_deletion.
Qed.
Lemma fair_open H `{!Grows H} sku u now start :
  (forall id H', Grows H' -> by_rules given id (hist H') start) -> fair H (open_order sku u now start).
Proof. intros Hs. unfold open_order. fair_walk. Qed.
Lemma fair_cipher_checkout H `{!Grows H} s u t r now : fair H (create_cipher_checkout s u t r now).
Proof.
  unfold create_cipher_checkout, start_session. fair_walk.
  all: apply fair_open; [done|]; intros; destruct r; rules_walk.
Qed.
Lemma fair_prot_checkout H `{!Grows H} s ps u c r now : fair H (create_prot_checkout s ps u c r now).
Proof. unfold create_prot_checkout. fair_walk. all: apply fair_open; [done|]; intros; rules_walk. Qed.
#[local] Hint Resolve fair_fulfil_told fair_resume fair_reverse fair_mark_settling fair_clear_settling
  fair_reverse_dispute fair_recheck fair_finish_release fair_expire : fair.

Lemma fair_process H `{!Grows H} s e now : fair H (process debug_error s e now).
Proof.
  unfold process, order_of_session, order_of_intent, order_for_intent, settled_refund, reverse_event.
  fair_walk.
Qed.
#[local] Hint Resolve fair_process : fair.

Lemma fair_handle_event H `{!Grows H} s e now : fair H (handle_event debug_error s e now).
Proof. unfold handle_event, record_livemode_mismatch, is_settled. fair_walk. Qed.
#[local] Hint Resolve fair_handle_event : fair.

Lemma fair_sweep H `{!Grows H} {A} (body : A -> Tally -> prog World Tally) rows :
  (forall x t, fair H (body x t)) -> forall t, fair H (sweep body rows t).
Proof. intros Hb. induction rows; intros t; simpl; fair_walk. Qed.

Lemma fair_sweep_part H `{!Grows H} {A} (query : Eff World (list A)) body t :
  calls query -> (forall x t, fair H (body x t)) -> fair H (sweep_part query body t).
Proof.
  intros Hq Hb. unfold sweep_part. apply fair_bind; [by apply fair_quiet|].
  intros [rows|e]; [by apply fair_sweep | apply fair_ret].
Qed.

Lemma fair_reconcile H `{!Grows H} s now : fair H (reconcile debug_error s now).
Proof.
  unfold reconcile.
  repeat lazymatch goal with
    | |- EngineRefunds.fair _ _ (bind _ _) => apply fair_bind; [|intros]
    end; try (apply fair_ret).
  8: unfold redrive_events; fair_walk; apply fair_sweep; [done|]; intros; unfold redrive_one; fair_walk.
  all: apply fair_sweep_part; [done | apply calls_reading|]; intros.
  - unfold expire_one. fair_walk.
  - unfold check_one_pending, expire_one. fair_walk.
  - unfold resume_one. fair_walk.
  - unfold reverse_one_pending. fair_walk.
  - unfold settle_one. fair_walk.
  - unfold finish_one_release. fair_walk.
  - unfold recheck_one. fair_walk.
Qed.
End Public.
