(* ===== verification/EngineSample.v ===== *)
(** * A small provider and database, for the examples

    A provider that answers from tables and refunds at once, and a database
    with one buyer; every theorem about the engine that has hypotheses is
    applied to them. *)

From stdpp Require Import base numbers list gmap strings pretty.
From S2P Require Import Prelude Errors Program CipherMemberships CipherNumbers ProtLedger.
From S2P Require Import ProtStore PaymentOrders Catalog Settings StripeApi PaymentEvents.
From S2P Require Import PaymentsWorld EngineCore EngineProt.
Open Scope Z_scope.

Record SampleStripe : Type := mkSample {
  sm_sessions : list CheckoutSession;
  sm_disputes : list Dispute;
  sm_refunds : list (string * Refund.t);
}.

Definition sample_missing : StripeError.t := StripeError.Api 404 (Some "resource_missing"%string) None "".

#[export] Instance sample_stripe : StripeApi SampleStripe := {|
  create_checkout_session p key st :=
    let session := mkSession ("cs_" +:+ cp_order_id p) (Some ("https://pay/" +:+ cp_order_id p))
      (Some "open"%string) (Some "unpaid"%string) None (Some (cp_amount_cents p)) (Some (cp_currency p))
      false (Some (cp_user_id p)) (Some (cp_order_id p)) (Some (cp_expires_at_secs p)) None in
    (mkSample (session :: sm_sessions st) (sm_disputes st) (sm_refunds st), Ok session);
  get_checkout_session id st :=
    (st, ok_or (List.find (fun s => str_eqb (cs_id s) id) (sm_sessions st)) sample_missing);
  get_payment_intent id st := (st, Ok (mkIntent id false None None None None));
  get_payment_charge id st := (st, Ok (mkCharge id (Some "card"%string) (Some "US"%string)));
  get_event id st := (st, Err sample_missing);
  create_refund pi key st :=
    let refund := Refund.mk ("re_" +:+ pi) (Some "succeeded"%string) None (Some pi) (Some 0) in
    (mkSample (sm_sessions st) (sm_disputes st) ((pi, refund) :: sm_refunds st), Ok refund);
  get_dispute id st :=
    (st, ok_or (List.find (fun d => str_eqb (dp_id d) id) (sm_disputes st)) sample_missing);
  list_refunds pi st := (st, Ok (List.filter (fun kv => str_eqb kv.1 pi) (sm_refunds st)).*2);
|}.

(** Fresh ids in byte order *)
Definition sample_ulid (n : nat) : string := "01ID" +:+ pretty (1000 + Z.of_nat n).

#[export] Instance sample_env : Env := {|
  St := SampleStripe;
  sha256_hex := fun s => s;
  ulid := sample_ulid;
|}.

Definition sample_settings : PaymentsSettings :=
  mkSettings true true 1000 None false 300 false ["DE"%string] "" "" "https://w/ok" "https://w/no"
    "https://s/ok" "https://s/no".

Definition sample_order (state : OrderState.t) : PaymentOrder :=
  mkOrder "01ORDER" (Some "01USER"%string) Stripe (CipherNew T99) 9900 "usd" (Some "cs_1"%string)
    (Some "https://pay/1"%string) (Some 9000000) None state None None None None [] None 1 1000 None
    None None.

Definition sample_session : CheckoutSession :=
  mkSession "cs_1" None (Some "complete"%string) (Some "paid"%string) (Some "pi_1"%string) (Some 9900)
    (Some "usd"%string) false (Some "01USER"%string) (Some "01ORDER"%string) None (Some "US"%string).

Definition sample_numbers : Numbers := (seed_cipher_numbers ∅ 3).1.

Definition sample_world (orders : list PaymentOrder) : World :=
  mkWorld _ (list_to_map ((fun o => (po_id o, o)) <$> orders)) sample_numbers empty_db
    {[ "01USER"%string := mkUserDoc None false None ]} ∅ (default_payments, default_protection)
    (mkSample [sample_session] [] []) [] [] 0.
