(* ===== verification/PaymentsRoutes.v ===== *)
(** * The payments routes (crates/delta/src/routes/payments)

    The handlers that take a request, load the settings and hand over to the
    engine: the two checkouts, the two [@me] reads, the sale counter, and the
    webhook, which is the only route anyone may call.  What Rocket gives a
    handler (the caller, headers, the body read up to its limit) are
    arguments; HMAC-SHA256, the JSON parser and the date parser are
    parameters. *)

From stdpp Require Import base numbers list gmap strings.
From S2P Require Import Prelude Text Errors Program CipherMemberships CipherNumbers ProtLedger.
From S2P Require Import ProtStore PaymentOrders Catalog Settings StripeSignature StripeApi.
From S2P Require Import StripeClient PaymentEvents PaymentsWorld EngineCore EngineProt.
From S2P Require Import EngineReverse Engine Dispatch EngineSample.
Open Scope Z_scope.

(** The session user: the id, and whether [bot] is set *)
Record Caller : Type := mkCaller { caller_id : string; caller_bot : bool }.

Definition request_country (trust_cloudflare : bool) (header : option string) : option string :=
  if negb trust_cloudflare then None
  else match header with
       | Some code =>
           if (String.length code =? 2)%nat
              && forallb is_ascii_alphanumeric (String.list_ascii_of_string code)
           then Some (to_ascii_uppercase code) else None
       | None => None
       end.

Definition refuse_blocked_region (settings : PaymentsSettings) (country : option string)
    : Result unit :=
  match country with
  | Some country => if region_blocked settings country then Err ErrorType.CipherRegionUnavailable
                    else Ok tt
  | None => Ok tt
  end.

Definition refuse_blocked_prot_region (ps : ProtSalesSettings) (country : option string)
    : Result unit :=
  match country with
  | Some country => if prot_region_blocked ps country then Err ErrorType.ProtRegionUnavailable
                    else Ok tt
  | None => Ok tt
  end.

Record DataProtCheckout : Type := mkDataProtCheckout {
  dpc_pack : option string;
  dpc_exact_cents : option Z;
  dpc_return_to : CipherReturnTo;
}.

(** [#[validate(length(min = 1, max = 16))]] of [pack], in characters *)
Definition prot_checkout_valid (data : DataProtCheckout) : bool :=
  match dpc_pack data with
  | Some pack => ((1 <=? length (chars pack)) && (length (chars pack) <=? 16))%nat
  | None => true
  end.

Definition prot_choice (data : DataProtCheckout) : Result ProtChoice :=
  match dpc_pack data, dpc_exact_cents data with
  | Some pack, None => Ok (Pack pack)
  | None, Some cents => Ok (ExactCents cents)
  | _, _ => Err ErrorType.ProtPackInvalid
  end.

Inductive SaleConfig : Type := SaleValid | SaleInvalid.

Definition CHECKOUT_SESSION_PREFIX : string := "checkout.session.".

Section Routes.
Context `{!Env}.
Abbreviation M A := (Eff World A).
Context (hmac_sha256 : string -> string -> string).
Context (from_slice : string -> option Value.t).
Context (parse_rfc3339 : string -> option Z).
(** [{:?}] of an error, the text of the [validator] crate, and [api.stripe]
    of the configuration *)
Context (debug_text : ErrorType.t -> string) (validation_text : string) (api_stripe : ApiStripe).

(** ** Settings, from the configuration as it is now *)

Definition load_settings : M PaymentsSettings :=
  reading (fun w => settings_from_parts parse_rfc3339 (w_config w).1 api_stripe).

Definition load_prot_settings : M ProtSalesSettings :=
  reading (fun w => from_parts (w_config w).1 (w_config w).2).

(** ** Checkouts and reads *)

Definition checkout (user : Caller) (country : option string) (tier : CipherTier)
    (return_to : CipherReturnTo) (now_ms : Z) : M string :=
  if caller_bot user then fail ErrorType.IsBot
  else
    let! settings := load_settings in
    let! _ := Ret (refuse_blocked_region settings country) in
    create_cipher_checkout settings (caller_id user) tier return_to now_ms.

Definition prot_checkout (user : Caller) (country : option string) (data : DataProtCheckout)
    (now_ms : Z) : M string :=
  if caller_bot user then fail ErrorType.IsBot
  else if negb (prot_checkout_valid data) then fail (ErrorType.FailedValidation validation_text)
  else
    let! settings := load_settings in
    let! ps := load_prot_settings in
    let! _ := Ret (refuse_blocked_prot_region ps country) in
    let! choice := Ret (prot_choice data) in
    create_prot_checkout settings ps (caller_id user) choice (dpc_return_to data) now_ms.

Definition prot_me_route (user : Caller) (now_ms : Z) : M ProtMe :=
  if caller_bot user then fail ErrorType.IsBot
  else let! ps := load_prot_settings in prot_me ps (caller_id user) now_ms.

Definition me (user : Caller) (now_ms : Z) : M CipherMe :=
  if caller_bot user then fail ErrorType.IsBot else cipher_me (caller_id user) now_ms.

Definition stats (now_ms : Z) : M CipherStats :=
  let! settings := load_settings in cipher_stats settings now_ms.

(** ** The webhook *)

Definition webhook_settings (loaded : Result PaymentsSettings)
    : Result (PaymentsSettings * SaleConfig) :=
  match loaded with
  | Ok settings => Ok (settings, SaleValid)
  | Err _ =>
      match for_settlement parse_rfc3339 api_stripe with
      | Ok settings => Ok (settings, SaleInvalid)
      | Err _ => Err ErrorType.InternalError
      end
  end.

(** [Ok tt] is [Status::Ok]. *)
Definition handle_delivery (settings : PaymentsSettings) (sale : SaleConfig) (header body : string)
    (now_ms : Z) : M unit :=
  if str_eqb (s_webhook_secret settings) "" then fail ErrorType.InternalError
  else
    match verify hmac_sha256 header body (s_webhook_secret settings) (now_ms / 1000)
            (s_tolerance_secs settings) with
    | Err SignatureError.EmptySecret => fail ErrorType.InternalError
    | Err (SignatureError.Malformed | SignatureError.Stale | SignatureError.NoMatch) =>
        fail ErrorType.InvalidOperation
    | Ok _ =>
        match parse_event from_slice body with
        | Err _ => fail ErrorType.InvalidOperation
        | Ok event =>
            if match sale with
               | SaleInvalid => starts_with CHECKOUT_SESSION_PREFIX (se_type event)
               | SaleValid => false end
            then fail ErrorType.InternalError
            else
              do! r <- handle_event debug_text settings event now_ms;
              match r with
              | Ok (EventOutcome.Processed | EventOutcome.Ignored | EventOutcome.Duplicate) => ok tt
              | Ok EventOutcome.Retry => fail ErrorType.InternalError
              | Err _ => fail ErrorType.InternalError
              end
        end
    end.

(** [webhook_settings(PaymentsSettings::from_config(&config), ..)] *)
Definition delivery_settings : M (PaymentsSettings * SaleConfig) :=
  do! loaded <- load_settings; Ret (webhook_settings loaded).

(** [signature] is the [Stripe-Signature] header, which the request guard
    requires; [body] what was read of the body, and whether that was all of
    it: [None] when reading failed. *)
Definition webhook (signature : option string) (body : option (string * bool)) (now_ms : Z)
    : M unit :=
  match signature with
  | None => fail ErrorType.InvalidOperation
  | Some header =>
      match body with
      | None => fail ErrorType.InvalidOperation
      | Some (_, false) => fail ErrorType.InvalidOperation
      | Some (body, true) =>
          let! p := delivery_settings in
          handle_delivery p.1 p.2 header body now_ms
      end
  end.
End Routes.

#[global] Arguments webhook_settings : simpl never.
#[global] Arguments handle_delivery : simpl never.
#[global] Arguments settings_from_parts : simpl never.

(** ** Settings a delivery is handled with *)

(** The shipped defaults validate, so there are always settings to settle
    with. *)
Lemma for_settlement_ok parse_rfc3339 api :
  exists s, for_settlement parse_rfc3339 api = Ok s
            /\ s_webhook_secret s = as_webhook_secret api
            /\ s_tolerance_secs s = as_tolerance_secs api.
Proof. unfold for_settlement, settings_from_parts. cbn. by eexists. Qed.

Lemma from_parts_secret parse_rfc3339 payments api s :
  settings_from_parts parse_rfc3339 payments api = Ok s ->
  s_webhook_secret s = as_webhook_secret api /\ s_tolerance_secs s = as_tolerance_secs api.
Proof.
  unfold settings_from_parts. destruct (_ || _); [done|]. destruct (ok_or _ _); [|done].
  destruct (existsb _ _); [done|]. by intros [= <-].
Qed.

Lemma webhook_settings_ok parse_rfc3339 api payments :
  exists s sale,
    webhook_settings parse_rfc3339 api (settings_from_parts parse_rfc3339 payments api)
    = Ok (s, sale)
    /\ s_webhook_secret s = as_webhook_secret api /\ s_tolerance_secs s = as_tolerance_secs api.
Proof.
  unfold webhook_settings. destruct (settings_from_parts _ _ _) as [s|e] eqn:E.
  - exists s, SaleValid. split; [done|]. by eapply from_parts_secret.
  - destruct (for_settlement_ok parse_rfc3339 api) as (s & -> & ?). by exists s, SaleInvalid.
Qed.

(** ** Events *)

Definition settled_row `{!Env} (w : World) (id : string) : Prop :=
  exists row, w_events w !! id = Some row /\ is_settled_state (ev_state row) = true.

Section Facts.
Context `{!Env} (debug_text : ErrorType.t -> string).

Lemma run_insert_event e w :
  run (db_insert_payment_event_if_absent e) w
  = Some match w_events w !! ev_id e with
         | Some _ => (Ok false, w)
         | None => (Ok true, set_events w (<[ev_id e := e]> (w_events w)))
         end.
Proof.
  unfold db_insert_payment_event_if_absent, on_events, insert_payment_event_if_absent. simpl.
  destruct (w_events w !! ev_id e); [by destruct w|done].
Qed.

Lemma run_is_settled id w :
  run (is_settled id) w
  = Some (Ok match w_events w !! id with
             | Some row => is_settled_state (ev_state row) | None => false end, w).
Proof. done. Qed.

Lemma run_set_event_state id state err w r w' :
  run (db_set_payment_event_state id state err) w = Some (Ok r, w') ->
  exists row, w_events w' !! id = Some row /\ ev_state row = state.
Proof.
  unfold db_set_payment_event_state, on_events, set_payment_event_state. simpl.
  destruct (w_events w !! id) as [row|] eqn:E; [|done]. intros [= _ <-]. simpl.
  eexists. by rewrite lookup_insert_eq.
Qed.

Lemma settled_id id w row :
  w_events w !! id = Some row -> is_settled_state (ev_state row) = true -> settled_row w id.
Proof. by exists row. Qed.

Lemma run_mismatch_settled event now w u w' :
  run (record_livemode_mismatch event now) w = Some (Ok u, w') -> settled_row w' (se_id event).
Proof.
  unfold record_livemode_mismatch. rewrite run_ebind, run_insert_event. cbn [ev_id].
  destruct (w_events w !! se_id event) as [row|] eqn:E.
  - rewrite run_ebind, run_is_settled, E. destruct (is_settled_state (ev_state row)) eqn:Es.
    + intros [= _ <-]. by eapply settled_id.
    + intros (row' & ? & Hs)%run_set_event_state. exists row'. by rewrite Hs.
  - intros [= _ <-]. eexists. cbn. by rewrite lookup_insert_eq.
Qed.

Lemma run_set_settled {A} id state err (a : A) w r w' :
  is_settled_state state = true ->
  run (ebind (db_set_payment_event_state id state err) (fun _ => ok a)) w = Some (Ok r, w') ->
  settled_row w' id.
Proof.
  intros Hs. rewrite run_ebind.
  destruct (run (db_set_payment_event_state id state err) w) as [[[u|] w1]|] eqn:E; [|done..].
  intros [= _ <-]. apply run_set_event_state in E as (row & ? & Hr). exists row. by rewrite Hr.
Qed.

(** An event that was taken care of stands in the record as such. *)
Lemma run_handle_event_settled s event now w outcome w' :
  run (handle_event debug_text s event now) w = Some (Ok outcome, w') ->
  outcome <> EventOutcome.Retry -> settled_row w' (se_id event).
Proof.
  unfold handle_event. destruct (negb _).
  { rewrite run_ebind. destruct (run _ w) as [[[u|] w1]|] eqn:E; [|done..].
    intros [= _ <-] _. by eapply run_mismatch_settled. }
  rewrite run_ebind. destruct (run (db_insert_payment_event_if_absent _) w) as [[[ins|] w1]|]; [|done..].
  rewrite run_ebind.
  match goal with |- context [run ?p w1] => destruct (run p w1) as [[[seen|] w2]|] eqn:Eseen end;
    [|done..].
  destruct seen.
  { destruct ins; [done|]. rewrite run_is_settled in Eseen. injection Eseen as Er <-.
    intros [= _ <-] _. destruct (w_events w1 !! se_id event) eqn:E; [|done]. by eapply settled_id. }
  rewrite run_bind. destruct (run (process debug_text s event now) w2) as [[step w3]|]; [|done].
  destruct step as [| |reason].
  - intros Hr _. by eapply run_set_settled in Hr.
  - intros Hr _. by eapply run_set_settled in Hr.
  - rewrite run_ebind, run_is_settled.
    destruct (w_events w3 !! se_id event) as [row|] eqn:E;
      [destruct (is_settled_state (ev_state row)) eqn:Es|].
    + intros [= _ <-] _. by eapply settled_id.
    + rewrite run_ebind. destruct (run _ w3) as [[[u|] w4]|]; [|done..]. by intros [= <- _].
    + rewrite run_ebind. destruct (run _ w3) as [[[u|] w4]|]; [|done..]. by intros [= <- _].
Qed.

(** One that stands in the record as taken care of is not acted on again. *)
Lemma run_handle_event_again s event now w :
  settled_row w (se_id event) ->
  exists outcome, run (handle_event debug_text s event now) w = Some (Ok outcome, w)
                  /\ outcome <> EventOutcome.Retry.
Proof.
  intros (row & E & Hs). unfold handle_event. destruct (negb _).
  - exists EventOutcome.Ignored. split; [|done]. unfold record_livemode_mismatch.
    rewrite !run_ebind, run_insert_event. cbn [ev_id]. rewrite E.
    by rewrite run_ebind, run_is_settled, E, Hs.
  - exists EventOutcome.Duplicate. split; [|done]. rewrite run_ebind, run_insert_event. cbn [ev_id].
    by rewrite E, run_ebind, run_is_settled, E, Hs.
Qed.
End Facts.

(** ** Deliveries *)

Section Deliveries.
Context `{!Env}.
Context (hmac_sha256 : string -> string -> string) (from_slice : string -> option Value.t).
Context (parse_rfc3339 : string -> option Z) (debug_text : ErrorType.t -> string).
Context (api_stripe : ApiStripe).

(** Signed with the configured secret, not longer ago than the tolerance *)
Definition authentic (header bytes : string) (now_ms : Z) : Prop :=
  verify hmac_sha256 header bytes (as_webhook_secret api_stripe) (now_ms / 1000)
    (as_tolerance_secs api_stripe) = Ok tt.

Abbreviation delivery :=
  (webhook hmac_sha256 from_slice parse_rfc3339 debug_text api_stripe).

(** A program none of whose operations changes anything, whatever runs in
    between, and which ends in [Q] *)
Definition still {A} (p : prog World A) (Q : A -> Prop) : Prop :=
  holds (fun _ => True) (fun w w' => w' = w) p Q.

Lemma run_settings w :
  run (delivery_settings parse_rfc3339 api_stripe) w
  = Some (webhook_settings parse_rfc3339 api_stripe
            (settings_from_parts parse_rfc3339 (w_config w).1 api_stripe), w).
Proof. done. Qed.

Lemma still_settings :
  still (delivery_settings parse_rfc3339 api_stripe)
    (fun r => match r with
              | Ok (s, _) => s_webhook_secret s = as_webhook_secret api_stripe
                             /\ s_tolerance_secs s = as_tolerance_secs api_stripe
              | Err _ => False end).
Proof.
  intros w _. do 2 (split; [done|]).
  destruct (webhook_settings_ok parse_rfc3339 api_stripe (w_config w).1) as (s & sale & E & Hs).
  cbv [bind]. cbn. by rewrite E.
Qed.

(** C4. The webhook is open to anyone, and acts only on what the provider signed:
    a delivery without a signature header, with a body that could not be read
    or is longer than the limit, or whose signature does not verify against
    the configured secret, is answered with an error, and no operation of the
    handler changes anything, whatever else runs at the same time. *)
Theorem unsigned_delivery_changes_nothing (signature : option string)
    (body : option (string * bool)) (now_ms : Z) :
  (forall header bytes, signature = Some header -> body = Some (bytes, true) ->
     ~ authentic header bytes now_ms) ->
  still (delivery signature body now_ms)
    (fun r => r = Err ErrorType.InvalidOperation \/ r = Err ErrorType.InternalError).
Proof.
  intros Hno. unfold webhook. destruct signature as [header|]; [|by left].
  destruct body as [[bytes []]|]; [|by left..]. specialize (Hno header bytes eq_refl eq_refl).
  apply holds_ebind. eapply holds_mono; [apply still_settings|].
  intros [[s sale]|e]; [|done]. intros [Hs Ht]. unfold handle_delivery. cbn [fst snd].
  destruct (str_eqb _ ""); [by right|]. unfold authentic in Hno. rewrite Hs, Ht.
  destruct (verify _ _ _ _ _ _) as [[]|[]]; [done|..]; (by left) || (by right).
Qed.

Lemma acknowledged_inv signature body now_ms w w' :
  run (delivery signature body now_ms) w = Some (Ok tt, w') ->
  exists header bytes event s outcome,
    signature = Some header /\ body = Some (bytes, true) /\ authentic header bytes now_ms
    /\ parse_event from_slice bytes = Ok event
    /\ run (handle_event debug_text s event now_ms) w = Some (Ok outcome, w')
    /\ outcome <> EventOutcome.Retry.
Proof.
  unfold webhook. destruct signature as [header|]; [|done]. destruct body as [[bytes []]|]; [|done..].
  rewrite run_ebind, run_settings.
  destruct (webhook_settings_ok parse_rfc3339 api_stripe (w_config w).1) as (s & sale & -> & Hs & Ht).
  unfold handle_delivery, authentic. cbn [fst snd]. rewrite Hs, Ht. destruct (str_eqb _ ""); [done|].
  destruct (verify _ _ _ _ _ _) as [[]|[]] eqn:Ev; [|done..].
  destruct (parse_event from_slice bytes) as [event|] eqn:Ep; [|done].
  destruct (match sale with SaleValid => false | _ => _ end); [done|].
  rewrite run_bind. destruct (run _ w) as [[[outcome|] w1]|] eqn:Er; [|done..].
  destruct outcome; intros [= <-]; by eexists header, bytes, event, s, _.
Qed.

(** C6. Answering 200 tells the provider not to deliver the event again.  It is
    only answered for a delivery the provider signed, and by then the event
    is in the record as processed or ignored; so neither the provider nor the
    sweep is needed for it any more. *)
Theorem acknowledged_delivery_is_settled (signature : option string)
    (body : option (string * bool)) (now_ms : Z) (w w' : World) :
  run (delivery signature body now_ms) w = Some (Ok tt, w') ->
  exists header bytes event,
    signature = Some header /\ body = Some (bytes, true) /\ authentic header bytes now_ms
    /\ parse_event from_slice bytes = Ok event /\ settled_row w' (se_id event).
Proof.
  intros (header & bytes & event & s & outcome & ? & ? & ? & ? & Hr & Ho)%acknowledged_inv.
  exists header, bytes, event. do 4 (split; [done|]). by eapply run_handle_event_settled.
Qed.

(** A signed delivery of an event that the record has as processed or ignored
    is not acted on again: nothing changes (no order, no number, no wallet,
    no refund, not even the record of the event), and it is answered 200, or
    500 when it is a checkout event and the sale configuration is invalid. *)
Theorem settled_delivery_is_idempotent (header bytes : string) (event : StripeEvent) (now_ms : Z)
    (w : World) :
  authentic header bytes now_ms -> parse_event from_slice bytes = Ok event ->
  settled_row w (se_id event) ->
  run (delivery (Some header) (Some (bytes, true)) now_ms) w
  = Some (if negb (is_ok (settings_from_parts parse_rfc3339 (w_config w).1 api_stripe))
             && starts_with CHECKOUT_SESSION_PREFIX (se_type event)
          then Err ErrorType.InternalError else Ok tt, w).
Proof.
  intros Ha Hp Hrow. unfold webhook. rewrite run_ebind, run_settings.
  destruct (webhook_settings_ok parse_rfc3339 api_stripe (w_config w).1)
    as (s & sale & Ews & Hs & Ht).
  rewrite Ews. unfold handle_delivery. cbn [fst snd]. unfold authentic in Ha. rewrite Hs, Ht.
  destruct (str_eqb (as_webhook_secret api_stripe) "") eqn:Es.
  { unfold verify in Ha. by rewrite Es in Ha. }
  rewrite Ha, Hp. destruct (run_handle_event_again debug_text s event now_ms w Hrow) as (o & Hr & Ho).
  unfold webhook_settings in Ews. destruct (settings_from_parts _ _ _); simpl.
  - injection Ews as <- <-. simpl. rewrite run_bind, Hr. by destruct o.
  - destruct (for_settlement _ _); [|done]. injection Ews as <- <-.
    destruct (starts_with _ _); [done|]. rewrite run_bind, Hr. by destruct o.
Qed.
End Deliveries.


(** ** Who may buy *)

Lemma lower_of_upper c : ascii_lower (ascii_upper c) = ascii_lower c.
Proof. by destruct c as [[] [] [] [] [] [] [] []]. Qed.

Lemma country_blocked_upper blocked code :
  country_blocked blocked (to_ascii_uppercase code) = country_blocked blocked code.
Proof.
  unfold country_blocked, eq_ignore_ascii_case.
  assert (to_ascii_lower (to_ascii_uppercase code) = to_ascii_lower code) as ->; [|done].
  induction code as [|c code IH]; [done|]. cbn. by rewrite lower_of_upper, IH.
Qed.

(** The country header as Cloudflare sends it *)
Definition country_header (code : string) : Prop :=
  String.length code = 2%nat
  /\ forallb is_ascii_alphanumeric (String.list_ascii_of_string code) = true.

Lemma trusted_country code :
  country_header code -> request_country true (Some code) = Some (to_ascii_uppercase code).
Proof. intros [Hl Ha]. unfold request_country. cbn. by rewrite Hl, Ha. Qed.

Section Buying.
Context `{!Env} (parse_rfc3339 : string -> option Z) (validation_text : string).
Context (api_stripe : ApiStripe) (payments : FeaturePayments) (protection : ProtectionFeatures).

(** A program that changes nothing as long as the configuration stands *)
Definition refused {A} (p : Eff World A) (Q : ErrorType.t -> Prop) : Prop :=
  holds (fun w => w_config w = (payments, protection)) (fun w w' => w' = w) p
    (fun r => match r with Ok _ => False | Err e => Q e end).

Lemma refused_settings {A} (k : PaymentsSettings -> Eff World A) (Q : ErrorType.t -> Prop) :
  Q ErrorType.InternalError ->
  (forall s, s_blocked_countries s = cipher_blocked_countries payments -> refused (k s) Q) ->
  refused (ebind (load_settings parse_rfc3339 api_stripe) k) Q.
Proof.
  intros Hq Hk. apply holds_ebind. intros w Hw. rewrite Hw. do 2 (split; [done|]). simpl.
  unfold settings_from_parts. destruct (_ || _); [done|]. unfold ok_or.
  destruct (parse_close_at _ _); [|done]. destruct (existsb _ _); [done|]. by apply Hk.
Qed.

Lemma check_packs_err max ids packs e :
  check_packs max ids packs = Err e -> e = ErrorType.InternalError.
Proof.
  revert ids. induction packs as [|p packs IH]; intros ids; [done|]. cbn.
  do 3 (case_match; [by intros [= <-]|]). apply IH.
Qed.

Lemma refused_prot_settings {A} (k : ProtSalesSettings -> Eff World A) (Q : ErrorType.t -> Prop) :
  Q ErrorType.InternalError ->
  (forall ps, ps_blocked_countries ps = prot_blocked_countries payments -> refused (k ps) Q) ->
  refused (ebind load_prot_settings k) Q.
Proof.
  intros Hq Hk. apply holds_ebind. intros w Hw. rewrite Hw. do 2 (split; [done|]). simpl.
  unfold from_parts. destruct (_ || _); [done|]. destruct (check_packs _ _ _) eqn:E.
  - destruct (_ <? _); [done|]. destruct (existsb _ (prot_blocked_countries _)); [done|].
    destruct (existsb _ _); [done|]. by apply Hk.
  - by apply check_packs_err in E as ->.
Qed.

(** A country the configuration does not sell to, which Cloudflare vouches
    for, is refused before anything is stored or asked of the provider, in
    either checkout and whatever else runs at the same time: the answer is
    that the region is not available, or an error of the configuration or of
    the request itself. *)
Theorem blocked_country_cannot_buy (user : Caller) (code : string) (tier : CipherTier)
    (return_to : CipherReturnTo) (data : DataProtCheckout) (now_ms : Z) :
  country_header code ->
  country_blocked (cipher_blocked_countries payments) code = true ->
  country_blocked (prot_blocked_countries payments) code = true ->
  let country := request_country true (Some code) in
  refused (checkout parse_rfc3339 api_stripe user country tier return_to now_ms)
    (fun e => e ∈ [ErrorType.IsBot; ErrorType.InternalError; ErrorType.CipherRegionUnavailable])
  /\ refused (prot_checkout parse_rfc3339 validation_text api_stripe user country data now_ms)
       (fun e => e ∈ [ErrorType.IsBot; ErrorType.FailedValidation validation_text;
                      ErrorType.InternalError; ErrorType.ProtRegionUnavailable]).
Proof.
  intros Hh Hc Hp country. unfold country. rewrite trusted_country by done. split.
  - unfold checkout. destruct (caller_bot user); [by left|].
    apply refused_settings; [set_solver|]. intros s Hs. unfold refuse_blocked_region, region_blocked.
    rewrite Hs, country_blocked_upper, Hc. unfold refused. simpl. set_solver.
  - unfold prot_checkout. destruct (caller_bot user); [by left|].
    destruct (negb _); [right; by left|].
    apply refused_settings; [set_solver|]. intros s _.
    apply refused_prot_settings; [set_solver|]. intros ps Hps.
    unfold refuse_blocked_prot_region, prot_region_blocked.
    rewrite Hps, country_blocked_upper, Hp. unfold refused. simpl. set_solver.
Qed.
End Buying.

(** ** Witnesses *)

Definition toy_api : ApiStripe :=
  mkApiStripe false 300 false "sk_test_1" "whsec_1" "https://w/ok" "https://w/no" "https://s/ok"
    "https://s/no".

(** A parser that knows one text *)
Definition toy_from_slice (text : string) : option Value.t :=
  if str_eqb text "paid" then
    Some (Value.Object
      [("id", Value.String "evt_1"); ("type", Value.String CHECKOUT_SESSION_COMPLETED);
       ("livemode", Value.Bool false); ("created", Value.Integer 1);
       ("data", Value.Object [("object", Value.Object
          [("id", Value.String "cs_1"); ("metadata", Value.Object
             [("order_id", Value.String "01ORDER")])])])])
  else None.

Definition toy_header : string := sign_for_tests toy_hmac "paid" "whsec_1" 2.

Definition toy_world : World := sample_world [sample_order OrderState.Pending].

Definition toy_delivery (header : string) : Eff World unit :=
  webhook toy_hmac toy_from_slice (fun _ => None) (fun _ => "") toy_api (Some header)
    (Some ("paid"%string, true)) 2000.

Definition toy_after : World := default toy_world (snd <$> run (toy_delivery toy_header) toy_world).

Lemma unsigned_delivery_changes_nothing_witness :
  still (toy_delivery "t=2,v1=00")
    (fun r => r = Err ErrorType.InvalidOperation \/ r = Err ErrorType.InternalError).
Proof.
  apply (unsigned_delivery_changes_nothing toy_hmac toy_from_slice (fun _ => None) (fun _ => "")
           toy_api (Some "t=2,v1=00"%string) (Some ("paid"%string, true)) 2000).
  intros header bytes [= <-] [= <-] H. vm_compute in H. discriminate H.
Defined.

(** The delivery fulfils the order. *)
Lemma acknowledged_delivery_is_settled_witness :
  (po_state <$> (w_orders toy_after !! "01ORDER"%string)) = Some OrderState.Fulfilled
  /\ exists header bytes event,
    Some toy_header = Some header /\ Some ("paid"%string, true) = Some (bytes, true)
    /\ authentic toy_hmac toy_api header bytes 2000
    /\ parse_event toy_from_slice bytes = Ok event /\ settled_row toy_after (se_id event).
Proof.
  split; [vm_compute; reflexivity|].
  apply (acknowledged_delivery_is_settled toy_hmac toy_from_slice (fun _ => None) (fun _ => "")
           toy_api (Some toy_header) (Some ("paid"%string, true)) 2000 toy_world toy_after).
  vm_compute. reflexivity.
Defined.

Lemma settled_delivery_is_idempotent_witness :
  exists event, run (toy_delivery toy_header) toy_after
    = Some (if negb (is_ok (settings_from_parts (fun _ => None) (w_config toy_after).1 toy_api))
               && starts_with CHECKOUT_SESSION_PREFIX (se_type event)
            then Err ErrorType.InternalError else Ok tt, toy_after).
Proof.
  eexists.
  apply (settled_delivery_is_idempotent toy_hmac toy_from_slice (fun _ => None) (fun _ => "")
           toy_api toy_header "paid").
  - vm_compute. reflexivity.
  - vm_compute. reflexivity.
  - eexists. split; vm_compute; reflexivity.
Defined.

Lemma blocked_country_cannot_buy_witness :
  let country := request_country true (Some "gb"%string) in
  refused default_payments default_protection
    (checkout (fun _ => None) toy_api (mkCaller "01USER" false) country T99 Web 2000)
    (fun e => e ∈ [ErrorType.IsBot; ErrorType.InternalError; ErrorType.CipherRegionUnavailable])
  /\ refused default_payments default_protection
       (prot_checkout (fun _ => None) "" toy_api (mkCaller "01USER" false) country
          (mkDataProtCheckout (Some "p5"%string) None Web) 2000)
       (fun e => e ∈ [ErrorType.IsBot; ErrorType.FailedValidation "";
                      ErrorType.InternalError; ErrorType.ProtRegionUnavailable]).
Proof.
  apply (blocked_country_cannot_buy (fun _ => None) "" toy_api default_payments default_protection
           (mkCaller "01USER" false) "gb" T99 Web (mkDataProtCheckout (Some "p5"%string) None Web) 2000);
    [split|..]; vm_compute; reflexivity.
Defined.
