(* ===== verification/CheckoutForm.v ===== *)
(** * From the checkout form to the paid session

    The parameters of a session are read from the stored order, sent as a
    form (StripeClient), and come back, some time later, as the session of an
    event, which fulfilment compares with the order (EngineCore).  What the
    provider does in between is a hypothesis: it keeps the fields of the form
    it is given. *)

From stdpp Require Import base numbers list strings pretty.
From S2P Require Import Prelude Text Errors PaymentOrders Catalog Settings StripeApi StripeClient.
From S2P Require Import EngineCore EngineSample.
Open Scope Z_scope.

Definition form_value (form : list (string * string)) (key : string) : option string :=
  snd <$> List.find (fun kv => str_eqb kv.1 key) form.

(** A session object that carries what the form said: one line item, its
    price the total (taxes are included in it), the buyer and the order *)
Record keeps_form (form : list (string * string)) (session : Value.t) : Prop := {
  keeps_object : expect_object session "checkout.session" = Ok tt;
  keeps_currency :
    obj_str session "currency" = form_value form "line_items[0][price_data][currency]";
  keeps_amount z :
    form_value form "line_items[0][quantity]" = Some "1"%string ->
    form_value form "line_items[0][price_data][unit_amount]" = Some (pretty z) ->
    form_value form "automatic_tax[enabled]" = None
    \/ form_value form "line_items[0][price_data][tax_behavior]" = Some "inclusive"%string ->
    obj_i64 session "amount_total" = Some z;
  keeps_reference :
    obj_str session "client_reference_id" = form_value form "client_reference_id";
  keeps_order :
    (Value.get session "metadata" ≫= fun m => obj_str m "order_id")
    = form_value form "metadata[order_id]";
}.

Lemma metadata_kept session id :
  id <> "" -> (Value.get session "metadata" ≫= fun m => obj_str m "order_id") = Some id ->
  obj_metadata_order_id session = Some id.
Proof.
  intros Hid. unfold obj_metadata_order_id. destruct (Value.get session "metadata") as [m|]; [|done].
  cbn. intros ->. cbn. unfold non_empty. apply str_eqb_neq in Hid. by rewrite Hid.
Qed.

Lemma form_amount p z :
  cp_amount_cents p = z ->
  form_value (checkout_form p) "line_items[0][price_data][unit_amount]" = Some (pretty z).
Proof. by intros <-. Qed.

Lemma form_tax_inclusive p :
  form_value (checkout_form p) "automatic_tax[enabled]" = None
  \/ form_value (checkout_form p) "line_items[0][price_data][tax_behavior]"
     = Some "inclusive"%string.
Proof. destruct (cp_automatic_tax p) eqn:E; unfold form_value, checkout_form; rewrite E; auto. Qed.

(** C8. Everything fulfilment compares with the order is in the form: a session
    that keeps the form of an order, in the configured mode, is read, and is
    neither of another order nor on other terms, with Stripe Tax on or off;
    so a buyer who pays what was asked is never refunded for a mismatch. *)
Theorem session_of_the_form_matches (s : PaymentsSettings) (order : PaymentOrder)
    (user_id success_url cancel_url id : string) (session : Value.t) :
  keeps_form (checkout_form (checkout_params s order user_id success_url cancel_url)) session ->
  obj_str session "id" = Some id -> is_valid_stripe_id id = true ->
  obj_bool session "livemode" = Some (s_expect_livemode s) ->
  po_id order <> "" -> po_user_id order = Some user_id -> po_currency order = "usd"%string ->
  po_payment_intent_id order = None ->
  po_checkout_session_id order = Some id \/ po_checkout_session_id order = None ->
  exists read, session_from_stripe_json session = Ok read /\ cs_id read = id
               /\ session_mismatch order read s = None.
Proof.
  intros [Ho Hc Ha Hr Hm] Hid Hv Hl Hne Hu Husd Hpi Hcs.
  specialize (Ha (po_amount_cents order) eq_refl eq_refl (form_tax_inclusive _)).
  apply metadata_kept in Hm; [|done]. cbn in Hm, Hc, Hr. unfold session_from_stripe_json.
  rewrite Ho. unfold required_id. rewrite Hid, Hv. unfold required_livemode. rewrite Hl. cbn.
  eexists. split; [done|]. split; [done|]. unfold session_mismatch. cbn.
  rewrite Hm, Hpi, Hu, Ha. unfold opt_string. rewrite Hr, Hc. cbn. rewrite Husd. cbn.
  rewrite !str_eqb_refl. cbn. rewrite Bool.eqb_reflx. unfold eqb.
  rewrite bool_decide_eq_true_2 by done. by destruct Hcs as [->| ->]; rewrite ?str_eqb_refl.
Qed.

Definition kept_session : Value.t :=
  Value.Object
    [("id", Value.String "cs_1"); ("object", Value.String "checkout.session");
     ("amount_total", Value.Integer 9900); ("currency", Value.String "usd");
     ("client_reference_id", Value.String "01USER"); ("livemode", Value.Bool false);
     ("metadata", Value.Object [("order_id", Value.String "01ORDER")])].

Lemma session_of_the_form_matches_witness :
  exists read, session_from_stripe_json kept_session = Ok read /\ cs_id read = "cs_1"%string
               /\ session_mismatch (sample_order OrderState.Pending) read sample_settings = None.
Proof.
  apply (session_of_the_form_matches sample_settings (sample_order OrderState.Pending) "01USER"
           "https://w/ok" "https://w/no"); try (vm_compute; reflexivity || discriminate).
  - split; try (vm_compute; reflexivity). intros z _ Hz _.
    assert (pretty 9900 = pretty z) as E by (vm_compute; vm_compute in Hz; by injection Hz).
    apply (inj pretty) in E. by subst z.
  - left. reflexivity.
Defined.
