(* ===== verification/EngineResume.v ===== *)
(** * A fulfilment that is interrupted

    A new Cipher purchase that is paid and sellable is fulfilled, and a
    fulfilment that stops after any of its operations, or that the provider
    fails, leaves a world from which a later delivery fulfils it: the order
    ends Fulfilled, the membership lists it, and no refund is asked for. *)

From stdpp Require Import base numbers list gmap strings.
From S2P Require Import Prelude Errors Program CipherMemberships CipherNumbers ProtLedger.
From S2P Require Import ProtStore PaymentOrders Catalog Settings StripeApi PaymentEvents.
From S2P Require Import PaymentsWorld EngineCore EngineProt EngineReverse Engine EngineSample.
Open Scope Z_scope.

Section Purchase.
Context {env : Env}.
Context (s : PaymentsSettings) (id u pi : string) (ss : CheckoutSession) (tier : CipherTier)
        (refunds0 : list (string * string)).

(** The order is the one the session pays, and nothing stands against it *)
Record payable (o : PaymentOrder) : Prop := {
  py_id : po_id o = id;
  py_user : po_user_id o = Some u;
  py_sku : po_sku o = CipherNew tier;
  py_session : po_checkout_session_id o = Some (cs_id ss);
  py_match : session_mismatch o ss s = None;
  py_void : po_void_reason o = None;
  py_reversal : po_reversal_pending o = None;
  py_disputes : po_open_disputes o = [];
  py_open : forall close, s_close_at_ms s = Some close -> po_created_at o < close;
  py_intent : po_payment_intent_id o = None \/ po_payment_intent_id o = Some pi;
  py_state : po_state o <> OrderState.Voided /\ po_state o <> OrderState.Refunded;
}.

(** A membership the order is part of *)
Definition listed (m : CipherMembership) : Prop :=
  contains (cm_orders m) id = true /\ cm_disputed_orders m = [] /\ is_active m = true.

(** A number for the order: its own, or a free one on sale, none of them
    anybody's yet *)
Definition number_ready (w : World) : Prop :=
  numbers_wf (w_numbers w) /\
  (exists k row, w_numbers w !! k = Some row /\
     (cn_order_id row = Some id \/ cn_order_id row = None /\ k <= s_cap s)) /\
  (forall k row u' m, w_numbers w !! k = Some row ->
     cn_order_id row = Some id \/ cn_order_id row = None ->
     memberships w !! u' = Some m -> cm_number m <> k).

(** No other order has the session or the payment *)
Definition ids_free (w : World) : Prop :=
  forall k row, w_orders w !! k = Some row -> po_id row <> id ->
    po_checkout_session_id row <> Some (cs_id ss) /\ po_payment_intent_id row <> Some pi.

(** The world a fulfilment of the order can start or go on from.  [version]
    bounds the order's version, [until] the lease a crash may have left. *)
Record view (version until : Z) (w : World) (o : PaymentOrder) (mem : option CipherMembership)
    : Prop := {
  v_order : w_orders w !! id = Some o;
  v_payable : payable o;
  v_version : po_version o <= version;
  v_lease : forall x, po_lease_until o = Some x -> x <= until;
  v_ids : ids_free w;
  v_member : memberships w !! u = mem;
  v_grant : match mem with
            | Some m => listed m
            | None => number_ready w /\ po_state o <> OrderState.Fulfilled end;
  v_user : exists d, w_users w !! u = Some d /\ is_deleted d = false;
  v_refunds : w_refunds w = refunds0;
}.

Definition resumable (version until : Z) (w : World) : Prop :=
  exists o mem, view version until w o mem.

(** In some state the provider does not tell of the payment's charge. *)
Definition lookup_fails : Prop := exists (st : St) err, (get_payment_charge pi st).2 = Err err.

Lemma view_mono v v' t t' w o mem : v <= v' -> t <= t' -> view v t w o mem -> view v' t' w o mem.
Proof. intros Hv Ht []. split; try done; [lia|]. intros x Hx. specialize (v_lease0 x Hx). lia. Qed.

Lemma view_resumable v t w o mem : view v t w o mem -> resumable v t w.
Proof. by exists o, mem. Qed.
End Purchase.

Section Steps.
Context {env : Env}.
Context (s : PaymentsSettings) (id u pi : string) (ss : CheckoutSession) (tier : CipherTier)
        (refunds0 : list (string * string)) (top until : Z).
Abbreviation payable := (payable s id u pi ss tier).
Abbreviation seen v := (view s id u pi ss tier refunds0 v until).
Abbreviation I := (resumable s id u pi ss tier refunds0 top until).
Abbreviation runs p Q := (ends_in I p Q).

Lemma view_I v w o mem : seen v w o mem -> v <= top -> I w.
Proof. intros Hv Hle. eapply view_resumable, view_mono; [exact Hle | reflexivity | exact Hv]. Qed.

Lemma runs_reading {A} (f : World -> A) Q w v o mem :
  seen v w o mem -> v <= top -> Q (f w) w -> runs (reading f) Q w.
Proof. intros Hv Hle HQ. split; [by eapply view_I | done]. Qed.

Lemma runs_lbind {A B} (c : L A) (k : A -> L B) Q l w :
  runs (c l) (fun p w' => match p.2 with
    | Ok a => runs (k a p.1) Q w' | Err e => Q (p.1, Err e) w' end) w ->
  runs (lbind c k l) Q w.
Proof. intros H. apply ends_in_bind. eapply ends_in_mono; [exact H|]. by intros [l' [a|e]]. Qed.

Lemma runs_order {B} (k : PaymentOrder -> L B) Q l w :
  runs (k (l_order l) l) Q w -> runs (lbind this_order k l) Q w.
Proof. intros H. exact H. Qed.

Lemma runs_lret {A B} (a : A) (k : A -> L B) Q l w :
  runs (k a l) Q w -> runs (lbind (lret a) k l) Q w.
Proof. intros H. exact H. Qed.

Lemma runs_lift {A} (c : Eff World A) Q l w :
  runs c (fun r w' => Q (l, r) w') w -> runs (lift c l) Q w.
Proof. intros H. apply ends_in_bind. eapply ends_in_mono; [exact H|]. done. Qed.

(** A change of the order and of nothing else *)
Lemma view_set_order v w o o' mem :
  seen v w o mem -> payable o' -> po_version o' <= v + 1 ->
  (forall x, po_lease_until o' = Some x -> x <= until) ->
  (po_state o' = OrderState.Fulfilled -> is_Some mem) ->
  seen (v + 1) (set_orders w (<[id := o']> (w_orders w))) o' mem.
Proof.
  intros [] Hp Hv Hl Hf. split; simpl; try done.
  - by rewrite lookup_insert_eq.
  - intros k row. simpl. rewrite lookup_insert. case_decide; [|apply v_ids0].
    intros [= <-] Hne. by destruct Hne, Hp.
  - destruct mem; [done|]. destruct v_grant0 as [[H1 [H2 H3]] _]. split; [done|].
    intros E. by destruct (Hf E).
Qed.

(** The same, when the version stays *)
Lemma view_same_version v w o o' mem :
  seen v w o mem -> payable o' -> po_version o' <= v ->
  (forall x, po_lease_until o' = Some x -> x <= until) ->
  (po_state o' = OrderState.Fulfilled -> is_Some mem) ->
  seen v (set_orders w (<[id := o']> (w_orders w))) o' mem.
Proof.
  intros Hw Hp Hv Hl Hf.
  destruct (view_set_order v w o o' mem Hw Hp ltac:(lia) Hl Hf). by split.
Qed.

Lemma payable_meta o x y : payable o -> payable (with_meta o (po_user_id o) x y).
Proof. intros []. by split. Qed.

Lemma ids_not_taken v w o o' mem :
  seen v w o mem -> payable o' -> provider_id_taken (w_orders w) o' = false.
Proof.
  intros [] []. apply hm_any_false. intros k row Hk. apply andb_false_iff.
  destruct (str_eqb (po_id row) (po_id o')) eqn:E; [by left|]. right. apply str_eqb_neq in E.
  destruct (v_ids0 _ _ Hk) as [H1 H2]; [congruence|]. rewrite py_session0. apply orb_false_iff.
  assert (forall x y : string, y <> x -> id_clash (Some x) (Some y) = false) as Hc.
  { intros x y Hne. unfold id_clash. simpl. apply bool_decide_eq_false_2. congruence. }
  split.
  - destruct (po_checkout_session_id row); [|done]. apply Hc. congruence.
  - destruct py_intent0 as [-> | ->]; [done|]. destruct (po_payment_intent_id row); [|done].
    apply Hc. congruence.
Qed.

(** ** The operations of a fulfilment *)

Lemma runs_write change l w v mem :
  seen v w (l_order l) mem -> v + 1 <= top -> top <= u64_max ->
  payable (change (l_order l)) -> po_version (change (l_order l)) = po_version (l_order l) ->
  po_lease_until (change (l_order l)) = po_lease_until (l_order l) ->
  (po_state (change (l_order l)) = OrderState.Fulfilled -> is_Some mem) ->
  let o' := change (l_order l) in
  let o'' := with_meta o' (po_user_id o') (po_lease_until o') (po_version o' + 1) in
  runs (write change l)
    (fun p w' => exists o2, o2 = o'' /\ p = (mkLeased o2 (l_until l), Ok tt) /\
                            seen (v + 1) w' o2 mem) w.
Proof.
  intros Hv Hle Hu Hp Hver Hlease Hf o' o''. fold o' in Hp, Hver, Hlease, Hf.
  pose proof Hv as Hv0. destruct Hv.
  assert (update_payment_order_if_state (w_orders w) o' (po_state (l_order l)) =
          (<[id := o'']> (w_orders w), Ok true)) as Eu.
  { unfold update_payment_order_if_state, checked_add_u64.
    replace (po_version o' + 1 <=? u64_max) with true by lia.
    unfold update_matches. rewrite (py_id _ _ _ _ _ _ _ Hp), v_order0.
    rewrite (ids_not_taken v w _ _ _ Hv0 Hp).
    rewrite bool_decide_eq_true_2 by done.
    replace (po_version (l_order l) =? po_version o') with true by lia.
    rewrite bool_decide_eq_true_2 by done.
    rewrite bool_decide_eq_true_2; [done|]. by destruct v_payable0, Hp; congruence. }
  assert (seen (v + 1) (set_orders w (<[id := o'']> (w_orders w))) o'' mem) as Hv1.
  { apply (view_set_order v w (l_order l)); [done | by apply payable_meta | | |done].
    - simpl. lia.
    - simpl. by rewrite Hlease. }
  apply ends_in_bind. unfold db_update_payment_order_if_state. fold o'.
  split; simpl; rewrite Eu; [by eapply view_I|]. by exists o''.
Qed.

(** A lease that is free, or that an earlier attempt left behind *)
Lemma runs_acquire now w v o mem t :
  view s id u pi ss tier refunds0 v t w o mem -> t < now -> t <= until ->
  until = saturating_add_i64 now LEASE_MS -> v + 1 <= top -> top <= u64_max ->
  runs (acquire id now) (fun r w' => exists o', r = Ok (Some (mkLeased o' until)) /\
    seen (v + 1) w' o' mem /\ po_state o' = po_state o /\ po_lease_until o' = Some until) w.
Proof.
  intros Hv Ht Htu Hu Hle Hmax. 
  assert (seen v w o mem) as Hv1 by (eapply view_mono; [reflexivity | exact Htu | exact Hv]).
  destruct Hv. set (o' := with_meta o (po_user_id o) (Some until) (po_version o + 1)).
  assert (acquire_payment_order_lease (w_orders w) id now until =
          (<[id := o']> (w_orders w), Ok (Some o'))) as Ea.
  { unfold acquire_payment_order_lease, checked_add_u64. rewrite v_order0.
    replace (lease_free o now) with true.
    - by replace (po_version o + 1 <=? u64_max) with true by lia.
    - unfold lease_free. destruct (po_lease_until o) as [x|]; [|done].
      specialize (v_lease0 x eq_refl). lia. }
  assert (seen (v + 1) (set_orders w (<[id := o']> (w_orders w))) o' mem) as Hv2.
  { apply (view_set_order v w o); [done | by apply payable_meta | simpl; lia | |].
    - intros x [= <-]. lia.
    - simpl. intros E. destruct mem; [eauto | by destruct v_grant0]. }
  apply ends_in_ebind. unfold db_acquire_payment_order_lease. rewrite <- Hu.
  split; simpl; rewrite Ea; [by eapply view_I|]. exists o'. by split_and!.
Qed.

Lemma runs_release l w v mem :
  seen v w (l_order l) mem -> v <= top -> po_lease_until (l_order l) = Some (l_until l) ->
  runs (release l) (fun _ w' => exists o', seen v w' o' mem /\
    po_state o' = po_state (l_order l) /\ po_lease_until o' = None) w.
Proof.
  intros Hv Hle Hl. pose proof Hv as Hv1. destruct Hv.
  set (o' := with_meta (l_order l) (po_user_id (l_order l)) None (po_version (l_order l))).
  assert (release_payment_order_lease (w_orders w) (po_id (l_order l)) (l_until l) =
          (<[id := o']> (w_orders w), Ok tt)) as Er.
  { unfold release_payment_order_lease. rewrite (py_id _ _ _ _ _ _ _ v_payable0), v_order0.
    by rewrite bool_decide_eq_true_2. }
  assert (seen v (set_orders w (<[id := o']> (w_orders w))) o' mem) as Hv2.
  { apply (view_same_version v w (l_order l)); [done | by apply payable_meta | done | done|].
    simpl. intros E. destruct mem; [eauto | by destruct v_grant0]. }
  apply ends_in_bind. split; simpl; rewrite Er; [by eapply view_I|]. exists o'. by split_and!.
Qed.

(** The badge settles in two rounds at most *)
Lemma badge_done n w v o mem d :
  seen v w o mem -> v <= top -> w_users w !! u = Some d -> is_deleted d = false ->
  ud_cipher d = (mem ≫= public_badge) ->
  runs (sync_user_badge_loop (S n) u) (fun r w' => r = Ok tt /\ seen v w' o mem) w.
Proof.
  intros Hv Hle Hd Hdel Hb. simpl. apply ends_in_ebind. eapply runs_reading; [exact Hv | done|].
  simpl. rewrite (v_member _ _ _ _ _ _ _ _ _ _ _ _ Hv).
  apply ends_in_bind. eapply runs_reading; [exact Hv | done|].
  rewrite Hd. simpl. rewrite Hdel, bool_decide_eq_true_2 by done. by split.
Qed.

Lemma view_set_user v w o mem d d' :
  seen v w o mem -> w_users w !! u = Some d -> is_deleted d' = false ->
  seen v (set_users w (<[u := d']> (w_users w))) o mem.
Proof. intros [] Hd Hd'. split; try done. exists d'. simpl. by rewrite lookup_insert_eq. Qed.

Lemma runs_badge w v o mem :
  seen v w o mem -> v <= top ->
  runs (sync_user_badge u) (fun r w' => r = Ok tt /\ seen v w' o mem) w.
Proof.
  intros Hv Hle. destruct (v_user _ _ _ _ _ _ _ _ _ _ _ _ Hv) as (d & Hd & Hdel).
  destruct (decide (ud_cipher d = (mem ≫= public_badge))) as [Hb|Hb]; [by eapply badge_done|].
  unfold sync_user_badge, BADGE_SYNC_RETRIES. cbn [sync_user_badge_loop].
  apply ends_in_ebind. eapply runs_reading; [exact Hv | done|].
  simpl. rewrite (v_member _ _ _ _ _ _ _ _ _ _ _ _ Hv).
  apply ends_in_bind. eapply runs_reading; [exact Hv | done|].
  rewrite Hd. cbn [ok_or]. rewrite Hdel, bool_decide_eq_false_2 by done.
  set (d' := mkUserDoc (ud_flags d) (ud_bot d) (mem ≫= public_badge)).
  assert (seen v (set_users w (<[u := d']> (w_users w))) o mem) as Hv2
    by (by apply (view_set_user v w o mem d)).
  apply ends_in_ebind. split; simpl; rewrite Hd; simpl; [by eapply view_I|].
  apply (badge_done 3 _ v o mem d'); [done | done | simpl; by rewrite lookup_insert_eq | done | done].
Qed.

(** The number: the order's own, or one claimed now *)
Lemma runs_claim w v o :
  seen v w o None -> v <= top -> s_cap s <> 0 ->
  runs (claim_number s o u) (fun r w' => exists k row, r = Ok (inl k) /\ seen v w' o None /\
    w_numbers w' !! k = Some row /\ cn_order_id row = Some id) w.
Proof.
  intros Hv Hle Hcap. pose proof Hv as Hv1.
  destruct Hv as [Ho Hp ? ? ? Hm [(Hwf & Hex & Hfree) Hnf] ? ?].
  unfold claim_number. apply ends_in_ebind. eapply runs_reading; [exact Hv1 | done|].
  simpl. rewrite (py_id _ _ _ _ _ _ _ Hp), find_values_held.
  destruct (find_held (w_numbers w) id) as [[k row]|] eqn:Ef; simpl.
  { apply find_held_Some in Ef as [Hk Hr]. exists k, row. by rewrite (wf_key _ Hwf _ _ Hk). }
  apply ends_in_ebind. eapply runs_reading; [exact Hv1 | done|]. simpl. rewrite Hm.
  apply ends_in_ebind, ends_in_bind. unfold db_claim_cipher_number.
  pose proof (find_held_None _ _ Ef) as Hno.
  destruct (claim_cases (w_numbers w) id (s_cap s) Hwf Hcap)
    as [(k & row & Hk & Hr & _)|[_ [(k & row & Hk & Hn & Hkc & _ & Ec)|[Hfull _]]]].
  { by destruct (Hno k row). }
  2: { destruct Hex as (k & row & Hk & [Hr|[Hr Hkc]]); [by destruct (Hno k row)|].
       by destruct (Hfull k row). }
  set (w' := set_numbers w (<[k := mkNumber k (Some id) None]> (w_numbers w))).
  assert (seen v w' o None) as Hv2.
  { destruct Hv1. split; try done. split; [|done].
    split_and!; simpl.
    - eapply number_step_wf; [eapply step_claim, Ec | done].
    - exists k. rewrite lookup_insert_eq. eauto.
    - intros k' row' u' m'. rewrite lookup_insert. case_decide; [|by eapply Hfree].
      subst k'. intros _ _ Hm'. eapply Hfree; eauto. }
  split; rewrite Ec; simpl; [by eapply view_I|]. exists k, (mkNumber k (Some id) None).
  split_and!; [done | done | | done]. simpl. by rewrite lookup_insert_eq.
Qed.

(** A change of the ledger and of the buyer's own membership *)
Lemma view_set_prot v w o mem p n m :
  seen v w o mem -> cipher_memberships p !! u = Some m -> listed id m ->
  seen v (set_ids (set_prot w p) n) o (Some m).
Proof. intros [] Hm Hl. by split. Qed.

Lemma runs_apply_membership w v o now :
  seen v w o None -> v <= top -> s_cap s <> 0 ->
  runs (apply_membership s o u now)
    (fun r w' => exists m, r = Ok ApplyDone /\ seen v w' o (Some m)) w.
Proof.
  intros Hv Hle Hcap. pose proof (v_payable _ _ _ _ _ _ _ _ _ _ _ _ Hv) as Hp.
  unfold apply_membership. rewrite (py_sku _ _ _ _ _ _ _ Hp).
  apply ends_in_ebind. eapply ends_in_mono; [by apply (runs_claim w v o)|].
  intros r w1 (k & row & -> & Hv1 & Hk & Hr).
  set (m := fresh_membership o u k tier now).
  assert (insert_cipher_membership (memberships w1) m = (<[u := m]> (memberships w1), Ok true)) as Ei.
  { destruct Hv1 as [? ? ? ? ? Hm [(_ & _ & Hfree) _] ? ?].
    unfold insert_cipher_membership. cbn. rewrite Hm.
    rewrite (proj2 (hm_any_false _ _)); [done|]. intros u' m' Hm'.
    apply Z.eqb_neq. eapply Hfree; eauto. }
  assert (listed id m) as Hl.
  { unfold listed, m, fresh_membership, is_disputed, is_active. cbn.
    rewrite (py_disputes _ _ _ _ _ _ _ Hp), (py_reversal _ _ _ _ _ _ _ Hp),
      (py_id _ _ _ _ _ _ _ Hp). cbn. by rewrite str_eqb_refl. }
  assert (seen v (set_memberships w1 (<[u := m]> (memberships w1))) o (Some m)) as Hv2.
  { destruct Hv1. split; try done. unfold memberships, set_memberships. simpl.
    by rewrite lookup_insert_eq. }
  unfold MEMBERSHIP_RETRIES. cbn [join_loop]. apply ends_in_ebind.
  split; simpl; rewrite Ei; [by eapply view_I|]. by exists m.
Qed.

(** Reading whether the buyer is live *)
Lemma runs_live w v o mem :
  seen v w o mem -> v <= top -> runs (buyer_is_live u) (fun r w' => r = Ok true /\ w' = w) w.
Proof.
  intros Hv Hle. destruct (v_user _ _ _ _ _ _ _ _ _ _ _ _ Hv) as (d & Hd & Hdel).
  apply ends_in_bind. eapply runs_reading; [exact Hv | done|]. rewrite Hd. simpl. by rewrite Hdel.
Qed.

(** The founding Prot, whatever the configuration *)
Lemma runs_sync_after w v o m now :
  seen v w o (Some m) -> v <= top ->
  runs (sync_after_cipher_fulfil u now) (fun _ w' => exists m', seen v w' o (Some m')) w.
Proof.
  intros Hv Hle. apply ends_in_bind. eapply runs_reading; [exact Hv | done|].
  set (ps := load_or_closed _ _). clearbody ps.
  apply ends_in_bind. eapply ends_in_mono with (Q := fun _ w' => exists m', seen v w' o (Some m'));
    [|by intros]. unfold engine_sync_cipher_prot.
  destruct (negb (grants_active ps)); [by exists m|]. apply ends_in_ebind.
  pose proof (v_grant _ _ _ _ _ _ _ _ _ _ _ _ Hv) as Hl. simpl in Hl.
  pose proof (v_member _ _ _ _ _ _ _ _ _ _ _ _ Hv) as Hm. unfold memberships in Hm.
  assert (forall p r, sync_cipher_prot sha256_hex (ulid (w_ids w)) u now (w_prot w) = (p, r) ->
    exists m', seen v (set_ids (set_prot w p) (S (w_ids w))) o (Some m')) as Hs.
  { intros p r Es. destruct (sync_cases _ _ _ _ _ _ _ Es) as [[-> _]|(m1 & b & q & e & _ & _ & H1 & _ & _ & H2)].
    - exists m. by apply (view_set_prot v w o (Some m)).
    - rewrite Hm in H1. injection H1 as <-. exists (set_version m (cm_version m + 1)).
      apply (view_set_prot v w o (Some m)); [done | | done]. by rewrite H2, lookup_insert_eq. }
  unfold db_sync_cipher_prot. split; simpl;
    destruct (sync_cipher_prot _ _ _ _ _) as [p r] eqn:Es; destruct (Hs p r eq_refl) as [m' Hm'];
    simpl; [by eapply view_I|].
  set (w1 := set_ids _ _) in *. clearbody w1. clear Hs Es.
  destruct r as [[|outcome|]|e]; simpl; [by exists m'| |by exists m'|by exists m'].
  apply ends_in_bind.
  eapply ends_in_mono with (Q := fun _ w' => seen v w' o (Some m')).
  - destruct outcome; [|done]. apply ends_in_bind. eapply runs_reading; [exact Hm' | done|].
    unfold fetch_prot_account. destruct (prot_accounts _ !! _); simpl; [|done].
    assert (forall bs, seen v (set_balance_events w1 bs) o (Some m')) as Hb
      by (intros bs; by destruct Hm').
    split; simpl; [eapply view_I; [apply Hb | done] | apply Hb].
  - intros _ w2 Hw2. apply ends_in_ebind. eapply ends_in_mono; [by apply (runs_live w2 v o (Some m'))|].
    intros r w3 [-> ->]. by exists m'.
Qed.

(** ** The functions *)

Context (Hpaid : is_paid ss = true) (Hpi : cs_payment_intent ss = Some pi).

Lemma payable_to_paid o now :
  payable o -> payable (record_payment pi (cs_id ss) now (set_state OrderState.Paid o)).
Proof.
  intros []. unfold record_payment, keep_session. cbn. rewrite py_session0. split; cbn; auto.
  revert py_match0. unfold session_mismatch. cbn. rewrite py_session0, Hpi, str_eqb_refl. cbn.
  by destruct py_intent0 as [-> | ->]; rewrite ?str_eqb_refl.
Qed.

Lemma payable_fulfilled o at_ :
  payable o -> payable (set_fulfilled_at at_ (set_state OrderState.Fulfilled o)).
Proof. intros []. by split. Qed.

(** A leased order, and where the lease ends *)
Definition held (v : Z) (l : Leased) (w : World) (mem : option CipherMembership) : Prop :=
  seen v w (l_order l) mem /\ po_lease_until (l_order l) = Some (l_until l).

Lemma runs_recorded now l (Q : Leased * Result unit -> World -> Prop) w :
  po_reversal_pending (l_order l) = None -> Q (l, Ok tt) w -> runs (apply_recorded_reversal now l) Q w.
Proof. intros H HQ. apply runs_order. rewrite H. exact HQ. Qed.

Lemma runs_complete l w v m now :
  held v l w (Some m) -> po_state (l_order l) <> OrderState.Fulfilled -> v + 2 <= top ->
  top <= u64_max ->
  runs (complete_order u now l) (fun p w' => exists m',
    p.2 = Ok FulfilOutcome.Fulfilled /\ held (v + 2) p.1 w' (Some m') /\
    po_state (l_order p.1) = OrderState.Fulfilled) w.
Proof.
  intros [Hv Hl] Hs Hle Hmax. pose proof (v_payable _ _ _ _ _ _ _ _ _ _ _ _ Hv) as Hp.
  unfold complete_order. apply runs_order. cbv zeta. rewrite (py_sku _ _ _ _ _ _ _ Hp). cbn [family].
  apply runs_lbind. unfold publish_badge. apply runs_lbind. apply ends_in_bind.
  eapply ends_in_mono; [apply (runs_write (fun o => o) l w v (Some m)); eauto; lia|].
  intros p w1 (o1 & E1 & -> & Hv1). cbn [fst snd]. apply runs_lift.
  eapply ends_in_mono; [apply (runs_badge w1 (v + 1) o1 (Some m)); [done | lia]|].
  intros r w2 [-> Hv2]. cbn [fst snd]. apply runs_lbind. set (l1 := mkLeased o1 (l_until l)).
  eapply ends_in_mono; [apply (runs_write _ l1 w2 (v + 1) (Some m)); eauto; [lia|]|].
  { apply payable_fulfilled, (v_payable _ _ _ _ _ _ _ _ _ _ _ _ Hv2). }
  intros p w3 (o2 & E2 & -> & Hv3). cbn [fst snd]. replace (v + 1 + 1) with (v + 2) in * by lia.
  pose proof (v_payable _ _ _ _ _ _ _ _ _ _ _ _ Hv3) as Hp3.
  apply runs_lbind, runs_recorded; [exact (py_reversal _ _ _ _ _ _ _ Hp3)|]. cbn [fst snd].
  apply runs_lbind, runs_lift, ends_in_bind.
  eapply ends_in_mono; [apply (runs_sync_after w3 (v + 2) o2 m now); [done | lia]|].
  intros _ w4 [m' Hv4]. exists m'. subst o2. split_and!; [done | | done].
  split; [done|]. cbn. by subst o1.
Qed.

Context (Hcap : s_cap s <> 0).
Context (Hbilling : forall c, cs_billing_country ss = Some c ->
           country_blocked (s_blocked_countries s) c = false).
Context (Hcard : forall (st : St) charge c, (get_payment_charge pi st).2 = Ok charge ->
           pc_card_country charge = Some c -> country_blocked (s_blocked_countries s) c = false).

(** The answer of a delivery that could not look the charge up *)
Definition unanswered {A} (r : Result A) : Prop :=
  r = Err ErrorType.PaymentProviderError /\ lookup_fails pi.

Lemma runs_blocked_country w v o mem at_ now :
  seen v w o mem -> v <= top ->
  runs (blocked_country (s_blocked_countries s) ss pi at_ now)
    (fun r w' => (r = Ok None \/ unanswered r) /\ seen v w' o mem) w.
Proof.
  intros Hv Hle. unfold blocked_country.
  replace (match cs_billing_country ss with Some c => _ | None => false end) with false
    by (destruct (cs_billing_country ss) as [c|]; [by rewrite (Hbilling c)|done]).
  destruct (is_empty _); [split; [by left | done]|]. apply ends_in_bind.
  pose proof (Hcard (w_stripe w)) as Hc. destruct (get_payment_charge pi (w_stripe w)) as [st' r] eqn:Ec.
  assert (seen v (set_stripe w st') o mem) as Hv1 by (by destruct Hv).
  split; simpl; rewrite Ec; simpl; [by eapply view_I|]. destruct r as [charge|err].
  - split; [left|done]. destruct (pc_card_country charge) as [c|] eqn:Ep; [by rewrite (Hc charge c)|done].
  - assert (forall b : bool, runs (if b then ok None else fail ErrorType.PaymentProviderError)
      (fun (r : Result (option string)) w' => (r = Ok None \/ unanswered r) /\ seen v w' o mem) (set_stripe w st')) as Hb;
      [|apply Hb].
    intros []; (split; [|done]); [by left|]. right. split; [done|]. exists (w_stripe w), err. by rewrite Ec.
Qed.

Lemma runs_apply_order l w v now :
  held v l w None -> v <= top ->
  runs (apply_order s ss pi u None now l)
    (fun p w' => (exists m, p = (l, Ok None) /\ seen v w' (l_order l) (Some m)) \/
                 p.1 = l /\ unanswered p.2 /\ seen v w' (l_order l) None) w.
Proof.
  intros [Hv Hl] Hle. pose proof (v_payable _ _ _ _ _ _ _ _ _ _ _ _ Hv) as Hp.
  unfold apply_order. apply runs_order. cbv zeta. rewrite (py_sku _ _ _ _ _ _ _ Hp). cbn [family].
  apply runs_lret, runs_lbind, runs_lift.
  eapply ends_in_mono; [by apply (runs_blocked_country w v (l_order l) None)|].
  intros r w1 [[->|[-> Hf]] Hv1]; cbn; [|by right].
  apply runs_lret.
  replace (precondition_failure s (l_order l) None) with (@None VoidReason.t).
  2: { unfold precondition_failure. rewrite (py_sku _ _ _ _ _ _ _ Hp). cbn.
       destruct (s_close_at_ms s) as [close|] eqn:Ec; [|done].
       pose proof (py_open _ _ _ _ _ _ _ Hp _ Ec). by replace (close <=? _) with false by lia. }
  rewrite (py_reversal _ _ _ _ _ _ _ Hp). cbn. apply runs_lbind, runs_lift.
  eapply ends_in_mono; [by apply (runs_apply_membership w1 v (l_order l) now)|].
  intros r w2 (m & -> & Hv2). cbn. left. by exists m.
Qed.

(** The end of a fulfilment: the order is Fulfilled and granted *)
Definition granted (v : Z) (p : Leased * Result FulfilOutcome.t) (w : World) : Prop :=
  (p.2 = Ok FulfilOutcome.Fulfilled \/ p.2 = Ok FulfilOutcome.AlreadyFulfilled) /\
  po_state (l_order p.1) = OrderState.Fulfilled /\ exists m, held v p.1 w (Some m).

(** It is that, or the charge was not looked up and all is as before. *)
Definition ended (v : Z) (p : Leased * Result FulfilOutcome.t) (w : World) : Prop :=
  granted v p w \/ unanswered p.2 /\ exists mem, held v p.1 w mem.

Lemma held_mono v v' l w mem : v <= v' -> held v l w mem -> held v' l w mem.
Proof. intros Hv [H1 H2]. split; [|done]. by eapply view_mono; [exact Hv | reflexivity |]. Qed.

Lemma runs_fulfil_paid l w v mem now :
  held v l w mem -> po_state (l_order l) = OrderState.Paid -> v + 2 <= top -> top <= u64_max ->
  runs (fulfil_paid s ss pi now l) (ended (v + 2)) w.
Proof.
  intros [Hv Hl] Hs Hle Hmax. pose proof (v_payable _ _ _ _ _ _ _ _ _ _ _ _ Hv) as Hp.
  unfold fulfil_paid. apply runs_order. rewrite (py_void _ _ _ _ _ _ _ Hp), (py_user _ _ _ _ _ _ _ Hp).
  apply runs_lbind, runs_lift. eapply ends_in_mono; [apply (runs_live w v (l_order l) mem); [done | lia]|].
  intros r w1 [-> ->]. cbn [fst snd negb]. cbv zeta. rewrite (py_sku _ _ _ _ _ _ _ Hp). cbn [family].
  apply runs_lbind, runs_lift. eapply runs_reading; [exact Hv | lia|].
  cbn [fst snd fetch_cipher_membership]. rewrite (v_member _ _ _ _ _ _ _ _ _ _ _ _ Hv).
  apply runs_lret.
  assert (forall m w1, seen v w1 (l_order l) (Some m) ->
    runs (complete_order u now l) (ended (v + 2)) w1) as Hdone.
  { intros m w1 Hv1. eapply ends_in_mono; [apply (runs_complete l w1 v m now); [done | congruence | lia | done]|].
    intros p w2 (m' & H1 & H2 & H3). left. unfold granted. eauto. }
  destruct mem as [m|].
  - pose proof (v_grant _ _ _ _ _ _ _ _ _ _ _ _ Hv) as (H1 & H2 & H3). cbn in H1, H2, H3.
    rewrite (py_id _ _ _ _ _ _ _ Hp), H1.
    apply runs_lbind, runs_lbind, runs_lift. unfold set_dispute_listing, MEMBERSHIP_RETRIES.
    cbn [set_dispute_listing_loop]. apply ends_in_ebind. eapply runs_reading; [exact Hv | lia|].
    cbn [fetch_cipher_membership]. rewrite (v_member _ _ _ _ _ _ _ _ _ _ _ _ Hv), H1, H2.
    unfold is_disputed. rewrite (py_disputes _ _ _ _ _ _ _ Hp), (py_reversal _ _ _ _ _ _ _ Hp).
    cbn. by apply (Hdone m).
  - apply runs_lbind. eapply ends_in_mono; [apply (runs_apply_order l w v now); [done | lia]|].
    intros [l1 r1] w1 [(m & [= -> ->] & Hv1)|(<- & [E Hf] & Hv1)]; cbn [fst snd] in *; [by apply (Hdone m)|].
    rewrite E. right. split; [done|]. exists None. apply (held_mono v); [lia | done].
Qed.

Lemma runs_fulfil_locked l w v mem now :
  held v l w mem -> v + 3 <= top -> top <= u64_max ->
  runs (fulfil_locked s ss now l) (fun p w' => exists v', v' <= top /\ ended v' p w') w.
Proof.
  intros Hh Hle Hmax. pose proof Hh as [Hv Hl].
  pose proof (v_payable _ _ _ _ _ _ _ _ _ _ _ _ Hv) as Hp.
  apply runs_order.
  assert (po_state (l_order l) <> OrderState.Fulfilled -> runs (pay_and_fulfil s ss now (l_order l) l)
    (fun p w' => exists v', v' <= top /\ ended v' p w') w) as Hpay.
  { intros Hf. unfold pay_and_fulfil. rewrite (py_match _ _ _ _ _ _ _ Hp), Hpaid, Hpi. cbn [negb].
    unfold state_is. case_bool_decide as Hs; [apply runs_lret | apply runs_lbind].
    - eapply ends_in_mono; [apply (runs_fulfil_paid l w v mem now); [done | done | lia | done]|].
      intros p w1 H1. exists (v + 2). split; [lia | done].
    - eapply ends_in_mono; [apply (runs_write _ l w v mem); try done; [lia | | | |]|].
      + by apply payable_to_paid.
      + unfold record_payment, keep_session. cbn. by rewrite (py_session _ _ _ _ _ _ _ Hp).
      + unfold record_payment, keep_session. cbn. by rewrite (py_session _ _ _ _ _ _ _ Hp).
      + unfold record_payment, keep_session. cbn. by rewrite (py_session _ _ _ _ _ _ _ Hp).
      + intros p w1 (o2 & E2 & -> & Hv2). cbn [fst snd].
        assert (po_state o2 = OrderState.Paid /\ po_lease_until o2 = Some (l_until l)) as [H1 H2].
        { subst o2. unfold record_payment, keep_session. cbn.
          by rewrite (py_session _ _ _ _ _ _ _ Hp). }
        eapply ends_in_mono; [apply (runs_fulfil_paid (mkLeased o2 (l_until l)) w1 (v + 1) mem now);
          [done | done | lia | done]|].
        intros p w2 H3. exists (v + 3). replace (v + 3) with (v + 1 + 2) by lia. split; [lia | done]. }
  destruct (po_state (l_order l)) eqn:Es; try (by apply Hpay).
  - assert (exists m, mem = Some m) as [m ->].
    { pose proof (v_grant _ _ _ _ _ _ _ _ _ _ _ _ Hv) as Hg. destruct mem; [eauto | by destruct Hg]. }
    apply runs_lbind. apply runs_order. unfold is_disputed.
    rewrite (py_user _ _ _ _ _ _ _ Hp), (py_disputes _ _ _ _ _ _ _ Hp), (py_reversal _ _ _ _ _ _ _ Hp).
    cbn [is_empty negb orb].
    change (eqb None (Some ReversalPending.DisputeLost)) with false.
    apply runs_lbind, runs_lret, runs_lift.
    eapply ends_in_mono; [apply (runs_badge w v (l_order l) (Some m)); [done | lia]|].
    intros r w1 [-> Hv1]. cbn [fst snd]. apply runs_recorded; [exact (py_reversal _ _ _ _ _ _ _ Hp)|].
    exists v. split; [lia|]. left. split_and!; [by right | done|]. by exists m.
  - by destruct (py_state _ _ _ _ _ _ _ Hp).
  - by destruct (py_state _ _ _ _ _ _ _ Hp).
Qed.

(** The delivery of a paid session, whatever an earlier one left *)
Lemma runs_fulfil_order now w v t :
  resumable s id u pi ss tier refunds0 v t w -> t < now -> t <= until ->
  until = saturating_add_i64 now LEASE_MS -> v + 4 <= top -> top <= u64_max ->
  runs (fulfil_order s id ss now) (fun r w' =>
    (r = Ok FulfilOutcome.Fulfilled \/ r = Ok FulfilOutcome.AlreadyFulfilled) /\
    (exists o m, seen top w' o (Some m) /\ po_state o = OrderState.Fulfilled /\
                 po_lease_until o = None) \/
    unanswered r /\ exists o mem, seen top w' o mem) w.
Proof.
  intros (o & mem & Hv) Ht Htu Hu Hle Hmax. apply ends_in_ebind.
  eapply ends_in_mono; [apply (runs_acquire now w v o mem t); [done | done | done | done | lia | done]|].
  intros r w1 (o' & -> & Hv1 & Hs & Hl). apply ends_in_bind.
  eapply ends_in_mono; [apply (runs_fulfil_locked (mkLeased o' until) w1 (v + 1) mem now);
    [done | lia | done]|].
  intros [l2 r] w2 (v' & Hv' & [(Hr & Hs2 & m & Hv2 & Hl2)|(Hr & mem2 & Hv2 & Hl2)]);
    cbn [fst snd] in *; apply ends_in_bind.
  - eapply ends_in_mono; [apply (runs_release l2 w2 v' (Some m)); [done | done | done]|].
    intros _ w3 (o3 & Hv3 & Hs3 & Hl3). left. split; [done|]. exists o3, m.
    split_and!; [| congruence | done]. eapply view_mono; [exact Hv' | reflexivity | exact Hv3].
  - eapply ends_in_mono; [apply (runs_release l2 w2 v' mem2); [done | done | done]|].
    intros _ w3 (o3 & Hv3 & _). right. split; [done|]. exists o3, mem2.
    eapply view_mono; [exact Hv' | reflexivity | exact Hv3].
Qed.
End Steps.

(** ** Attempts *)

Section Attempts.
Context {env : Env} (s : PaymentsSettings) (id : string) (ss : CheckoutSession).

(** Deliveries at the given times, each stopped somewhere *)
Inductive interrupted : list Z -> World -> World -> Prop :=
| interrupted_none w : interrupted [] w w
| interrupted_at now rest w w1 w2 :
    stops (fulfil_order s id ss now) w w1 -> interrupted rest w1 w2 ->
    interrupted (now :: rest) w w2.
End Attempts.

(** Each delivery comes after the lease of the one before has run out. *)
Fixpoint spaced (until : Z) (times : list Z) (last : Z) : Prop :=
  match times with
  | [] => until < last <= i64_max
  | now :: rest => until < now <= i64_max /\ spaced (saturating_add_i64 now LEASE_MS) rest last
  end.

Lemma lease_end now t : t < now <= i64_max -> t <= saturating_add_i64 now LEASE_MS.
Proof. unfold saturating_add_i64, LEASE_MS, clamp_i64, i64_max, i64_min. lia. Qed.

(** ** Theorems *)


(** ** Witnesses *)

Definition sample_resume_world : World := sample_world [sample_order OrderState.Pending].

Lemma sample_resumable :
  resumable sample_settings "01ORDER" "01USER" "pi_1" sample_session T99
    (w_refunds sample_resume_world) 1 0 sample_resume_world.
Proof.
  exists (sample_order OrderState.Pending), None. split; try done.
  - split; try done. by left.
  - intros k row Hk. unfold sample_resume_world in Hk. simpl in Hk.
    apply lookup_insert_Some in Hk as [[<- <-]|[_ Hk]]; [by intros []|].
    by rewrite lookup_empty in Hk.
  - split; [|done]. split_and!.
    + eapply number_step_wf; [apply (step_seed ∅ 3) | apply numbers_wf_empty].
    + exists 1, (mkNumber 1 None None). split; [reflexivity|]. right. split; [done|]. cbn. lia.
    + intros k row u' m _ _ Hm. unfold memberships in Hm. simpl in Hm. by rewrite lookup_empty in Hm.
  - exists (mkUserDoc None false None). split; reflexivity.
Qed.

(** Cut after its 6th call, and the redelivery after its 9th *)
Definition sample_cut_once : World :=
  (drive 6 (fulfil_order sample_settings "01ORDER" sample_session 5000) sample_resume_world).2.
Definition sample_cut_twice : World :=
  (drive 9 (fulfil_order sample_settings "01ORDER" sample_session 200000) sample_cut_once).2.

