(* ===== verification/EngineLifecycle.v ===== *)
(** * The life of an order, in every interleaving

    What holds of the orders however many engine functions, webhook events
    and sweeps run at once, and wherever any of them stops: every order stays
    well formed, its terms never change, and its state moves only along the
    edges of [may_move].  Nothing is assumed of the provider, of the clock or
    of the leases. *)

From stdpp Require Import base numbers list gmap strings.
From S2P Require Import Prelude Errors Program CipherMemberships CipherNumbers ProtLedger.
From S2P Require Import ProtStore PaymentOrders Catalog Settings StripeApi PaymentEvents.
From S2P Require Import PaymentsWorld EngineCore EngineProt EngineReverse Engine Dispatch.
From S2P Require Import EngineCalls.
Open Scope Z_scope.

(** ** What is kept *)

(** What every stored order satisfies: the price of its SKU in dollars, and
    the fields its state promises. *)
Record order_wf (o : PaymentOrder) : Prop := {
  wf_terms : sku_cents (po_sku o) = Ok (po_amount_cents o) /\ po_currency o = "usd"%string;
  wf_pending : po_state o = OrderState.Pending ->
    is_Some (po_checkout_session_id o) /\ is_Some (po_checkout_url o) /\
    is_Some (po_session_expires_at o);
  wf_paid : po_state o = OrderState.Paid \/ po_state o = OrderState.Fulfilled ->
    is_Some (po_payment_intent_id o) /\ is_Some (po_paid_at o);
  wf_fulfilled : po_state o = OrderState.Fulfilled -> is_Some (po_fulfilled_at o);
  wf_voided : po_state o = OrderState.Voided ->
    is_Some (po_void_reason o) /\ is_Some (po_reversed_at o);
  wf_refunded : po_state o = OrderState.Refunded -> is_Some (po_reversed_at o);
}.

(** The moves of an order once its checkout has handed it out *)
Definition may_move (a b : OrderState.t) : bool :=
  match a, b with
  | OrderState.Creating, OrderState.Creating | OrderState.Pending, OrderState.Pending
  | OrderState.SessionFailed, OrderState.SessionFailed | OrderState.Expired, OrderState.Expired
  | OrderState.Paid, OrderState.Paid | OrderState.Fulfilled, OrderState.Fulfilled
  | OrderState.Voided, OrderState.Voided | OrderState.Refunded, OrderState.Refunded => true
  | (OrderState.Creating | OrderState.Pending | OrderState.SessionFailed),
    (OrderState.Expired | OrderState.Voided | OrderState.Paid | OrderState.Refunded) => true
  | OrderState.Expired, (OrderState.Paid | OrderState.Refunded) => true
  | OrderState.Paid, (OrderState.Fulfilled | OrderState.Voided | OrderState.Refunded) => true
  | OrderState.Fulfilled, OrderState.Refunded => true
  | OrderState.Voided, OrderState.Paid => true
  | _, _ => false
  end.

Lemma may_move_refl a : may_move a a = true.
Proof. by destruct a. Qed.

Section Lifecycle.
Context {env : Env}.
(** The order whose moves are followed, if one is, and its terms *)
Context (id0 : option string) (sku0 : Sku) (created0 : Z).
Abbreviation M A := (Eff World A).

Definition good (o : PaymentOrder) : Prop :=
  order_wf o /\ (id0 = Some (po_id o) -> po_sku o = sku0 /\ po_created_at o = created0).

Definition orders_good (os : Orders) : Prop :=
  forall k row, os !! k = Some row -> po_id row = k /\ good row.

(** The order followed is where it was, or still missing. *)
Definition moves (os os' : Orders) : Prop :=
  forall id, id0 = Some id ->
    match os !! id, os' !! id with
    | Some row, Some row' => may_move (po_state row) (po_state row') = true
    | None, None => True
    | _, _ => False
    end.

Definition Inv (w : World) : Prop := orders_good (w_orders w).
Definition Guar (w w' : World) : Prop := moves (w_orders w) (w_orders w').

Definition safe {A} (p : prog World A) : Prop := holds Inv Guar p (fun _ => True).

(** ** Order operations *)

Lemma moves_same os os' : (forall id, id0 = Some id -> os' !! id = os !! id) -> moves os os'.
Proof. intros H id Hid. rewrite (H _ Hid). destruct (os !! id); [apply may_move_refl | done]. Qed.

Lemma moves_refl os : moves os os.
Proof. by apply moves_same. Qed.

Lemma orders_put os k row' : orders_good os -> po_id row' = k -> good row' -> orders_good (<[k := row']> os).
Proof.
  intros Hg Hk Hn j r. rewrite lookup_insert. case_decide; [intros [= <-]; by subst | apply Hg].
Qed.

Lemma orders_step os k row row' :
  orders_good os -> os !! k = Some row -> po_id row' = k -> good row' ->
  (id0 = Some k -> may_move (po_state row) (po_state row') = true) ->
  orders_good (<[k := row']> os) /\ moves os (<[k := row']> os).
Proof.
  intros Hg Hr Hk Hn Hm. split; [by apply orders_put|]. intros id Hid. rewrite lookup_insert.
  case_decide as E; [|destruct (os !! id); [apply may_move_refl | done]]. subst id. rewrite Hr. by apply Hm.
Qed.

Lemma good_meta o user lease version :
  good o -> good (with_meta o user lease version).
Proof. intros [[] Hf]. split; [split|]; done. Qed.

Lemma lease_step os id now until :
  orders_good os ->
  let r := acquire_payment_order_lease os id now until in
  orders_good r.1 /\ moves os r.1 /\
  (forall o, r.2 = Ok (Some o) -> good o /\ po_id o = id).
Proof.
  intros Hg. unfold acquire_payment_order_lease.
  destruct (os !! id) as [row|] eqn:Er; [|split_and!; eauto using moves_refl; done].
  destruct (lease_free row now); [|split_and!; eauto using moves_refl; done].
  destruct (checked_add_u64 _ 1) as [next|]; [|split_and!; eauto using moves_refl; done].
  destruct (Hg _ _ Er) as [Hk Hr].
  destruct (orders_step os id row (with_meta row (po_user_id row) (Some until) next))
    as [H1 H2]; eauto using good_meta.
  { intros _. apply may_move_refl. }
  split_and!; simpl; [done | done|]. intros o [= <-]. eauto using good_meta.
Qed.

Lemma release_step os id until :
  orders_good os -> let r := release_payment_order_lease os id until in
  orders_good r.1 /\ moves os r.1.
Proof.
  intros Hg. unfold release_payment_order_lease.
  destruct (os !! id) as [row|] eqn:Er; [|split; eauto using moves_refl].
  case_match; [|split; eauto using moves_refl]. destruct (Hg _ _ Er) as [Hk Hr].
  eapply orders_step; eauto using good_meta. intros _. apply may_move_refl.
Qed.

Lemma update_step os o expected :
  orders_good os -> good o -> (id0 = Some (po_id o) -> may_move expected (po_state o) = true) ->
  let r := update_payment_order_if_state os o expected in
  orders_good r.1 /\ moves os r.1.
Proof.
  intros Hg Ho Hm. unfold update_payment_order_if_state.
  destruct (checked_add_u64 _ 1) as [next|]; [|split; eauto using moves_refl].
  destruct (update_matches os o expected) eqn:Em; simpl; [|split; eauto using moves_refl].
  destruct (provider_id_taken os o); simpl; [split; eauto using moves_refl|].
  unfold update_matches in Em. destruct (os !! po_id o) as [row|] eqn:Er; [|done].
  rewrite !andb_true_iff, !bool_decide_eq_true in Em. destruct Em as [[[Hs _] _] _].
  eapply orders_step; eauto using good_meta. intros E. simpl. rewrite Hs. auto.
Qed.

Lemma insert_step os o :
  orders_good os -> order_wf o -> id0 <> Some (po_id o) ->
  let r := insert_payment_order os o in orders_good r.1 /\ moves os r.1.
Proof.
  intros Hg Ho Hne. unfold insert_payment_order.
  destruct (is_some (os !! po_id o)) eqn:Es; [split; eauto using moves_refl|].
  destruct (provider_id_taken os o); simpl; [split; eauto using moves_refl|].
  split; [apply orders_put; [done | done | by split]|].
  apply moves_same. intros id Hid. rewrite lookup_insert_ne by congruence. done.
Qed.

Lemma unlink_step keys : forall os u,
  orders_good os -> let r := unlink_loop keys os u in orders_good r.1 /\ moves os r.1.
Proof.
  induction keys as [|k keys IH]; intros os u Hg; simpl; [split; eauto using moves_refl|].
  destruct (os !! k) as [row|] eqn:Er; [|by apply IH].
  destruct (is_some_str _ u); [|by apply IH].
  destruct (checked_add_u64 _ 1) as [next|]; [|split; eauto using moves_refl].
  destruct (Hg _ _ Er) as [Hk Hr].
  destruct (orders_step os k row (with_meta row None (po_lease_until row) next)) as [H1 H2];
    eauto using good_meta; [intros _; apply may_move_refl|].
  destruct (IH _ u H1) as [H3 H4]. split; [done|]. intros id Hid. specialize (H4 id Hid).
  revert H4. rewrite lookup_insert. case_decide as E; [|done]. subst id. by rewrite Er.
Qed.

(** ** Programs *)

Lemma safe_ret {A} (a : A) : safe (Ret a).
Proof. done. Qed.

Lemma safe_panic {A} : safe (@Panic World A).
Proof. done. Qed.

Lemma safe_bind {A B} (p : prog World A) (f : A -> prog World B) :
  safe p -> (forall a, safe (f a)) -> safe (bind p f).
Proof. intros Hp Hf. apply holds_bind. eapply holds_mono; [exact Hp|]. intros a _. apply Hf. Qed.

Lemma safe_ebind {A B} (p : M A) (f : A -> M B) :
  safe p -> (forall a, safe (f a)) -> safe (ebind p f).
Proof. intros Hp Hf. apply safe_bind; [done|]. intros [a|e]; [apply Hf | done]. Qed.

(** An operation that leaves the orders alone *)
Lemma safe_frame {A} (op : World -> World * A) :
  (forall w, w_orders (op w).1 = w_orders w) -> safe (atom op).
Proof.
  intros H w Hi. unfold Inv, Guar. rewrite H. split_and!; [done | apply moves_refl | done].
Qed.

Lemma calls_safe {A} (p : prog World A) : calls p -> safe p.
Proof.
  unfold calls, safe. induction p as [a| |X op k IH]; simpl; [done | done|].
  intros H w Hi. destruct (H w I) as (_ & [Ho _] & Hk). unfold Inv, Guar. rewrite Ho.
  split_and!; [done | apply moves_refl | by apply IH].
Qed.
Lemma safe_create_refund pi key : safe (stripe_create_refund pi key).
Proof. apply safe_frame. intros w. by destruct (create_refund _ _ _). Qed.
Lemma safe_release l : safe (release l).
Proof.
  apply safe_bind; [|done]. intros w Hi. unfold Inv, Guar.
  destruct (release_step (w_orders w) (po_id (l_order l)) (l_until l) Hi) as [H1 H2].
  by destruct (release_payment_order_lease _ _ _).
Qed.
Lemma safe_unlink u : safe (db_unlink_payment_orders_by_user u).
Proof.
  intros w Hi. unfold Inv, Guar.
  destruct (unlink_step (hm_keys (w_orders w)) (w_orders w) u Hi) as [H1 H2].
  unfold unlink_payment_orders_by_user. by destruct (unlink_loop _ _ _).
Qed.
(** ** Programs under a lease *)

(** A triple on the leased copy of the order; errors end in [P'] too, since
    the caller goes on with the copy. *)
Definition ltr {A} (P : PaymentOrder -> Prop) (c : L A) (P' : PaymentOrder -> Prop) : Prop :=
  forall l, good (l_order l) -> P (l_order l) ->
    holds Inv Guar (c l) (fun p => good (l_order p.1) /\ P' (l_order p.1)).

(** A program that keeps a set of states *)
Definition keeps {A} (T : OrderState.t -> Prop) (c : L A) : Prop :=
  ltr (fun o => T (po_state o)) c (fun o => T (po_state o)).

Lemma ltr_conseq {A} (c : L A) (P P' Q Q' : PaymentOrder -> Prop) :
  ltr P c P' -> (forall o, Q o -> P o) -> (forall o, P' o -> Q' o) -> ltr Q c Q'.
Proof.
  intros Hc HP HQ l Hl Hq. eapply holds_mono; [apply Hc; auto|]. intros p []; eauto.
Qed.

Lemma ltr_bind {A B} (c : L A) (k : A -> L B) P P' P'' :
  ltr P c P' -> (forall a, ltr P' (k a) P'') -> (forall o, P' o -> P'' o) ->
  ltr P (lbind c k) P''.
Proof.
  intros Hc Hk HP l Hl Hp. apply holds_bind. eapply holds_mono; [by apply Hc|].
  intros [l' [a|e]] [Hg Hp']; [by apply Hk | by split; [|apply HP]].
Qed.

Lemma ltr_ret {A} (r : Result A) P : ltr P (fun l => Ret (l, r)) P.
Proof. by intros l. Qed.

Lemma ltr_lift {A} (c : M A) P : safe c -> ltr P (lift c) P.
Proof.
  intros Hc l Hl Hp. apply holds_bind. eapply holds_mono; [exact Hc|]. by intros r _.
Qed.

Lemma ltr_try {A} (c : L A) P P' : ltr P c P' -> ltr P (try c) P'.
Proof.
  intros Hc l Hl Hp. apply holds_bind. eapply holds_mono; [by apply Hc|]. by intros [l' r].
Qed.

Lemma ltr_order {B} (k : PaymentOrder -> L B) P P'' :
  (forall o, good o -> P o -> ltr (eq o) (k o) P'') -> ltr P (lbind this_order k) P''.
Proof. intros Hk l Hl Hp. by apply (Hk (l_order l)). Qed.

Lemma ltr_set_order o P P' : good o -> P' o -> ltr P (set_order o) P'.
Proof. by intros Ho Hp l. Qed.

Lemma ltr_write change (P P' : PaymentOrder -> Prop) :
  (forall o, good o -> P o -> good (change o) /\ po_id (change o) = po_id o /\
     (id0 = Some (po_id o) -> may_move (po_state o) (po_state (change o)) = true) /\ P' o /\
     forall v, P' (with_meta (change o) (po_user_id (change o)) (po_lease_until (change o)) v)) ->
  ltr P (write change) P'.
Proof.
  intros Hch l Hl Hp. destruct (Hch _ Hl Hp) as (Hg & Hid & Hm & Hp1 & Hp2).
  apply holds_bind. intros w Hi. unfold Inv, Guar in *.
  destruct (update_step (w_orders w) (change (l_order l)) (po_state (l_order l)) Hi Hg)
    as [H1 H2]; [by rewrite Hid|].
  destruct (update_payment_order_if_state _ _ _) as [os [[]|e]]; simpl in *; split_and!; try done.
  - apply good_meta; done.
  - intros w' Hi'. split_and!; [done | apply moves_refl | done | done].
Qed.

Lemma acquire_holds id now :
  holds Inv Guar (acquire id now) (fun r => match r with
    | Ok (Some l) => good (l_order l) /\ po_id (l_order l) = id | _ => True end).
Proof.
  apply holds_bind. intros w Hi. unfold Inv, Guar in *.
  destruct (lease_step (w_orders w) id now (saturating_add_i64 now LEASE_MS) Hi) as (H1 & H2 & H3).
  destruct (acquire_payment_order_lease _ _ _ _) as [os [[o|]|e]]; simpl in *; split_and!; try done.
  - by apply H3.
  - by apply H3.
  - intros w' Hi'. split_and!; [done | apply moves_refl|]. unfold bind, fetch_payment_order. by destruct (w_orders w' !! id).
Qed.

Lemma safe_with_lease {A} id now (held : M A) (body : L A) P' :
  safe held -> ltr (fun o => po_id o = id) body P' -> safe (with_lease id now held body).
Proof.
  intros Hh Hb. apply holds_bind. eapply holds_mono; [apply acquire_holds|].
  intros [[l|]|e]; [|by intros _ | done]. intros [Hg Hid].
  apply holds_bind. eapply holds_mono; [by apply Hb|]. intros [l' r] _.
  by apply safe_bind; [apply safe_release|].
Qed.

End Lifecycle.

Create HintDb safe.
#[export] Hint Resolve safe_ret safe_panic safe_create_refund safe_release safe_unlink : safe.

#[export] Hint Opaque bind ebind atom : safe.

(** Walk a program of calls that are known to be safe *)
Ltac safe_walk :=
  repeat first
    [ progress intros
    | lazymatch goal with
      | |- safe _ _ _ (ebind _ _) => apply safe_ebind
      | |- safe _ _ _ (bind _ _) => apply safe_bind
      | |- safe _ _ _ (Ret _) => apply safe_ret
      | |- safe _ _ _ (ok _) => apply safe_ret
      | |- safe _ _ _ (fail _) => apply safe_ret
      | |- safe _ _ _ (match ?x with _ => _ end) => destruct x eqn:?
      end
    | solve [eauto 1 with safe]
    | apply calls_safe; solve [eauto 1 with calls] ].

(** ** The engine's functions *)

Section Functions.
Context {env : Env}.
Context (id0 : option string) (sku0 : Sku) (created0 : Z).
Abbreviation M A := (Eff World A).
Abbreviation safe := (safe id0 sku0 created0).
Abbreviation ltr := (ltr id0 sku0 created0).
Abbreviation good := (good id0 sku0 created0).
Abbreviation keeps := (keeps id0 sku0 created0).
Implicit Types (T : OrderState.t -> Prop).

Lemma ltr_done {A} (r : Result A) (P P' : PaymentOrder -> Prop) :
  (forall o, P o -> P' o) -> ltr P (fun l => Ret (l, r)) P'.
Proof. intros HP l Hl Hp. split; [done | by apply HP]. Qed.

Lemma keeps_lift {A} T (c : M A) : safe c -> keeps T (lift c).
Proof. intros Hc. by apply ltr_lift. Qed.

Lemma keeps_ret {A} T (r : Result A) : keeps T (fun l => Ret (l, r)).
Proof. by apply ltr_done. Qed.

Lemma keeps_bind {A B} T (c : L A) (k : A -> L B) :
  keeps T c -> (forall a, keeps T (k a)) -> keeps T (lbind c k).
Proof. intros Hc Hk. by eapply ltr_bind. Qed.

Lemma keeps_order {B} T (k : PaymentOrder -> L B) :
  (forall o, good o -> T (po_state o) -> keeps T (k o)) -> keeps T (lbind this_order k).
Proof.
  intros Hk. apply ltr_order. intros o Ho Hs. eapply ltr_conseq; [by apply Hk | by intros ? <- | done].
Qed.

Lemma keeps_try {A} T (c : L A) : keeps T c -> keeps T (try c).
Proof. intros Hc. by apply ltr_try. Qed.

(** A write that keeps the terms and what the state promises *)
Lemma keeps_write T change :
  (forall o, good o -> T (po_state o) -> good (change o) /\ po_id (change o) = po_id o /\
     T (po_state (change o)) /\ may_move (po_state o) (po_state (change o)) = true) ->
  keeps T (write change).
Proof.
  intros Hch. apply ltr_write. intros o Ho Hs. destruct (Hch o Ho Hs) as (H1 & H2 & H3 & H4). eauto 6.
Qed.

(** One state is enough to look at *)
Lemma keeps_split {A} T (c : L A) :
  (forall s, T s -> ltr (fun o => po_state o = s) c (fun o => T (po_state o))) -> keeps T c.
Proof. intros Hc l Hl Ht. by apply (Hc _ Ht). Qed.

(** The two ends of a reversal *)
Definition FR (s : OrderState.t) : Prop := s = OrderState.Fulfilled \/ s = OrderState.Refunded.

Lemma FR_closed : FR OrderState.Fulfilled -> FR OrderState.Refunded.
Proof. by right. Qed.
End Functions.

#[export] Hint Resolve FR_closed : calm.
#[export] Hint Opaque lbind lret lfail lift try write mark_refunded keep_number_retired
  release_membership_loop finish_number_release_locked reverse_locked refund_within_window_loop
  reverse_fulfilled unlisted_reversal reverse_prot_fulfilled no_membership_to_reverse
  drop_release_for_lost_dispute : calm.

(** The invariant of an order with some fields written *)
Ltac good_tac :=
  intros;
  repeat match goal with H : good _ _ _ _ |- _ => destruct H as [[] ?] end;
  repeat split; simpl in *; intros; try discriminate; try done;
  try solve [apply may_move_refl | naive_solver].

Ltac calm_walk :=
  repeat first
    [ progress intros
    | lazymatch goal with
      | |- keeps _ _ _ _ (lbind this_order _) => apply keeps_order
      | |- keeps _ _ _ _ (lbind _ _) => apply keeps_bind
      | |- keeps _ _ _ _ (lret _) => apply keeps_ret
      | |- keeps _ _ _ _ (lfail _) => apply keeps_ret
      | |- keeps _ _ _ _ (try _) => apply keeps_try
      | |- keeps _ _ _ _ (lift _) => apply keeps_lift; solve [safe_walk]
      | |- keeps _ _ _ _ (match ?x with _ => _ end) => destruct x eqn:?
      end
    | assumption
    | lazymatch goal with
      | |- keeps _ _ _ _ (write _) =>
          first [solve [eauto 4 with calm] | apply keeps_write; solve [good_tac]]
      end
    | solve [eauto 4 with calm] ].

Section Functions2.
Context {env : Env}.
Context (id0 : option string) (sku0 : Sku) (created0 : Z).
Abbreviation safe := (safe id0 sku0 created0).

Lemma safe_ask_refund pi key : safe (ask_refund pi key).
Proof. unfold ask_refund. safe_walk. Qed.
#[local] Hint Resolve safe_ask_refund : safe.
Lemma safe_refund_for_void pi id : safe (refund_for_void pi id).
Proof. unfold refund_for_void. safe_walk. Qed.
End Functions2.
#[export] Hint Resolve safe_ask_refund safe_refund_for_void : safe.

Section Reverse.
Context {env : Env}.
Context (id0 : option string) (sku0 : Sku) (created0 : Z).
Abbreviation safe := (safe id0 sku0 created0).
Abbreviation ltr := (ltr id0 sku0 created0).
Abbreviation keeps := (keeps id0 sku0 created0).
Implicit Types (T : OrderState.t -> Prop).

Lemma keeps_record T k d : keeps T (record_before_fulfilment k d).
Proof. unfold record_before_fulfilment. calm_walk. Qed.
Lemma keeps_no_membership T : keeps T no_membership_to_reverse.
Proof. unfold no_membership_to_reverse. calm_walk. Qed.
Lemma keeps_lost_after T : keeps T dispute_lost_after_refund.
Proof. unfold dispute_lost_after_refund. calm_walk. Qed.
Lemma keeps_drop_release T : keeps T drop_release_for_lost_dispute.
Proof. unfold drop_release_for_lost_dispute. calm_walk. Qed.

(** Into Refunded, from wherever that is a move *)
Lemma to_refunded_ok T change :
  (forall o, po_state (change o) = OrderState.Refunded) ->
  (forall s, T s -> T OrderState.Refunded /\ may_move s OrderState.Refunded = true) ->
  (forall o, good id0 sku0 created0 o -> good id0 sku0 created0 (change o) /\ po_id (change o) = po_id o) ->
  keeps T (write change).
Proof.
  intros Hc HT Hg. apply keeps_write. intros o Ho Ht. rewrite Hc. destruct (HT _ Ht), (Hg o Ho). done.
Qed.

Lemma FR_refund s : FR s -> FR OrderState.Refunded /\ may_move s OrderState.Refunded = true.
Proof. intros [-> | ->]; split; auto with calm; by right. Qed.

Lemma keeps_to_refunded now : keeps FR (write (to_refunded now)).
Proof. apply to_refunded_ok; [done | apply FR_refund | good_tac]. Qed.

Lemma keeps_mark_refunded T now :
  (forall s, T s -> T OrderState.Refunded /\ may_move s OrderState.Refunded = true) ->
  keeps T (mark_refunded now).
Proof. intros HT. apply to_refunded_ok; [done | done | good_tac]. Qed.

(** The mark made only of a Fulfilled order *)
Lemma keeps_mark_if_fulfilled T now {B} (k : PaymentOrder -> L B) :
  (T OrderState.Fulfilled -> T OrderState.Refunded) -> (forall o, keeps T (k o)) ->
  keeps T (let~ order := this_order in
           let~ _ := if state_is order OrderState.Fulfilled then mark_refunded now else lret tt in
           k order).
Proof.
  intros HT Hk. apply ltr_order. intros o Ho Ht. unfold state_is. case_bool_decide as Hs.
  - rewrite Hs in Ht. eapply ltr_bind; [|intros _; apply Hk | done].
    eapply ltr_conseq; [apply (keeps_mark_refunded FR now FR_refund) | intros ? <-; by left|].
    intros x [-> | ->]; auto.
  - eapply ltr_bind; [by apply ltr_ret | intros _; eapply ltr_conseq; [apply Hk | by intros ? <- | done] |].
    by intros ? <-.
Qed.

Lemma safe_record_upgrade id now : safe (record_upgrade_refunded id now).
Proof.
  apply (safe_with_lease _ _ _ _ _ _ _ (fun _ => True)); [done|].
  apply ltr_order. intros o Ho _.
  assert (forall r, ltr (eq o) (fun l => Ret (l, r : Result bool)) (fun _ => True)) as Hr
    by (intros r; by apply ltr_done).
  assert (po_state o <> OrderState.Voided -> ltr (eq o) (let~ _ := mark_refunded now in lret true)
            (fun _ => True)) as Hm.
  { intros Hs. eapply ltr_bind; [|intros; by apply ltr_done | done].
    eapply (ltr_conseq _ _ _ _ _ _ (eq o)); [| done | by intros].
    apply ltr_write with (P' := fun _ => True). intros x Hx <-. split_and!; [good_tac | done | | done | done].
    intros _. by destruct (po_state o). }
  destruct (po_state o) eqn:E; try apply Hr; by apply Hm.
Qed.

Lemma safe_refund_upgrade id now : safe (refund_release_upgrade id now).
Proof.
  pose proof (safe_record_upgrade id now) as Hr. unfold refund_release_upgrade. safe_walk.
Qed.

#[local] Hint Resolve safe_refund_upgrade : safe.

Lemma safe_refund_upgrades m id now : safe (refund_release_upgrades m id now).
Proof.
  unfold refund_release_upgrades. generalize false as b.
  induction (without (cm_orders m) id) as [|x l IH]; intros b; simpl; safe_walk.
Qed.
#[local] Hint Resolve safe_refund_upgrades : safe.

Lemma keeps_retired T now :
  (T OrderState.Fulfilled -> T OrderState.Refunded) -> keeps T (keep_number_retired now).
Proof. intros HT. apply keeps_mark_if_fulfilled; [done|]. calm_walk. Qed.
#[local] Hint Resolve keeps_retired : calm.

Lemma keeps_release_membership T n u o now :
  (T OrderState.Fulfilled -> T OrderState.Refunded) -> keeps T (release_membership_loop n u o now).
Proof. intros HT. induction n; simpl; calm_walk. Qed.
#[local] Hint Resolve keeps_release_membership : calm.

Lemma keeps_finish_release T now :
  (T OrderState.Fulfilled -> T OrderState.Refunded) -> keeps T (finish_number_release_locked now).
Proof.
  intros HT. apply keeps_order. intros o Ho Ht. destruct (po_sku o); try apply keeps_ret.
  apply keeps_bind; [calm_walk|]. intros [row|]; [|apply keeps_ret].
  destruct (negb _); [apply keeps_ret|]. apply keeps_bind; [calm_walk|].
  intros [outcome|]; [apply keeps_ret|]. apply keeps_mark_if_fulfilled; [done|]. calm_walk.
Qed.
#[local] Hint Resolve keeps_finish_release keeps_no_membership keeps_drop_release
  keeps_to_refunded : calm.

Lemma keeps_window n u r now : keeps FR (refund_within_window_loop n u r now).
Proof.
  assert (keeps FR (mark_refunded now)) as Hm by (apply keeps_mark_refunded, FR_refund).
  induction n; simpl; calm_walk.
Qed.
#[local] Hint Resolve keeps_window : calm.

Lemma keeps_unlisted k u now : keeps FR (unlisted_reversal k u now).
Proof. unfold unlisted_reversal. calm_walk. Qed.
#[local] Hint Resolve keeps_unlisted : calm.

Lemma keeps_reverse_prot k now : keeps FR (reverse_prot_fulfilled k now).
Proof. unfold reverse_prot_fulfilled. calm_walk. Qed.
#[local] Hint Resolve keeps_reverse_prot : calm.

Lemma keeps_reverse_fulfilled k d r now : keeps FR (reverse_fulfilled k d r now).
Proof. unfold reverse_fulfilled, refund_within_window. calm_walk. Qed.

Lemma keeps_reverse T k d r now :
  (T OrderState.Fulfilled -> T OrderState.Refunded) -> keeps T (reverse_locked k d r now).
Proof.
  intros HT. unfold reverse_locked. case_match; [apply keeps_ret|].
  apply ltr_order. intros o Ho Ht.
  assert (forall (c : L ReverseOutcome.t), keeps T c -> ltr (eq o) c (fun o => T (po_state o))) as Hk.
  { intros c Hc. eapply ltr_conseq; [exact Hc | by intros ? <- | done]. }
  destruct (po_state o) eqn:E; try (apply Hk; first [apply keeps_record | apply keeps_ret]).
  - eapply ltr_conseq; [apply keeps_reverse_fulfilled | intros ? <-; by left|].
    intros x [-> | ->]; auto.
  - apply Hk. case_match; [apply keeps_lost_after | apply keeps_ret].
Qed.
End Reverse.
#[export] Hint Resolve keeps_reverse keeps_finish_release : calm.

(** Case analysis on the test a program starts with *)
Ltac top_match :=
  cbv zeta; lazymatch goal with |- ltr _ _ _ _ (match ?x with _ => _ end) _ => destruct x eqn:? end.

Section Fulfil.
Context {env : Env}.
Context (id0 : option string) (sku0 : Sku) (created0 : Z).
Abbreviation safe := (safe id0 sku0 created0).
Abbreviation ltr := (ltr id0 sku0 created0).
Abbreviation good := (good id0 sku0 created0).
Abbreviation keeps := (keeps id0 sku0 created0).
(** Where nothing is promised of the state left *)
Abbreviation ends P c := (ltr P c (fun _ => True)).

Definition is_st (s : OrderState.t) (o : PaymentOrder) : Prop := po_state o = s.
Definition paid (s : OrderState.t) : Prop := s = OrderState.Paid.

Lemma ends_bind {A B} (c : L A) (k : A -> L B) P P' :
  ltr P c P' -> (forall a, ends P' (k a)) -> ends P (lbind c k).
Proof. intros Hc Hk. by eapply ltr_bind. Qed.

Lemma ends_order {B} (k : PaymentOrder -> L B) s :
  (forall o, good o -> po_state o = s -> ends (is_st s) (k o)) -> ends (is_st s) (lbind this_order k).
Proof.
  intros Hk. apply ltr_order. intros o Ho Hs. eapply ltr_conseq; [by apply Hk | by intros ? <- | done].
Qed.

(** A write whose refusal ends the function *)
Lemma ends_write {B} change (k : unit -> L B) (P P' : PaymentOrder -> Prop) :
  (forall o, good o -> P o -> good (change o) /\ po_id (change o) = po_id o /\
     (id0 = Some (po_id o) -> may_move (po_state o) (po_state (change o)) = true) /\
     forall v, P' (with_meta (change o) (po_user_id (change o)) (po_lease_until (change o)) v)) ->
  ends P' (k tt) -> ends P (lbind (write change) k).
Proof.
  intros Hch Hk l Hl Hp. destruct (Hch _ Hl Hp) as (Hg & Hid & Hm & Hp2).
  apply holds_bind, holds_bind. intros w Hi. unfold Inv, Guar in *.
  destruct (update_step id0 sku0 created0 (w_orders w) (change (l_order l)) (po_state (l_order l))
              Hi Hg) as [H1 H2]; [by rewrite Hid|].
  destruct (update_payment_order_if_state _ _ _) as [os [[]|e]]; simpl in *; split_and!; try done.
  - apply Hk; [by apply good_meta | apply Hp2].
  - intros w' Hi'. split_and!; [done | apply moves_refl | done | done].
Qed.

Lemma ends_keeps {A} (c : L A) s : keeps (fun t => t = s) c -> ends (is_st s) c.
Proof. intros Hc. by eapply ltr_conseq. Qed.

Lemma keeps_paid {A} (c : L A) :
  keeps paid c -> ltr (is_st OrderState.Paid) c (is_st OrderState.Paid).
Proof. done. Qed.

Lemma good_payment o pi sid now :
  good o -> po_state o <> OrderState.Pending ->
  good (record_payment pi sid now o) /\ po_id (record_payment pi sid now o) = po_id o /\
  po_state (record_payment pi sid now o) = po_state o.
Proof.
  intros [[] Hf] Hp. unfold record_payment, keep_session. simpl.
  destruct (po_checkout_session_id o); (split_and!; [split; [split|] | |]); simpl; eauto; naive_solver.
Qed.

Lemma good_to_paid o pi sid now :
  good o ->
  let o' := record_payment pi sid now (set_state OrderState.Paid o) in
  good o' /\ po_id o' = po_id o /\ po_state o' = OrderState.Paid.
Proof.
  intros [[] Hf]. unfold record_payment, keep_session. simpl.
  destruct (po_checkout_session_id o); (split_and!; [split; [split|] | |]); simpl; eauto; naive_solver.
Qed.

Lemma paid_write ch :
  (forall o, po_state (ch o) = po_state o /\ po_id (ch o) = po_id o) ->
  (forall o, good o -> po_state o = OrderState.Paid -> good (ch o)) -> keeps paid (write ch).
Proof.
  intros H1 H2. apply keeps_write. intros x Hx Hp. destruct (H1 x) as [-> ->].
  split_and!; [by apply H2 | done | done | apply may_move_refl].
Qed.

Lemma paid_reason r : keeps paid (write (set_void_reason r)).
Proof.
  apply paid_write; [done|]. intros o [[] Hf] Hs.
  split; [split|]; simpl; rewrite ?Hs in *; done.
Qed.
Lemma paid_unmark r : keeps paid (write (fun o => set_region None (set_void_reason r o))).
Proof.
  apply paid_write; [done|]. intros o [[] Hf] Hs.
  split; [split|]; simpl; rewrite ?Hs in *; done.
Qed.
#[local] Hint Resolve paid_reason paid_unmark : calm.

Lemma ends_void_paid reason now : ends (is_st OrderState.Paid) (void_paid reason now).
Proof.
  apply ends_order. intros o Ho Hs. top_match; [by apply ltr_done|].
  eapply (ends_bind _ _ _ (is_st OrderState.Paid)).
  { apply keeps_paid. calm_walk. }
  intros _. eapply (ends_bind _ _ _ (fun _ => True)); [|intros; by apply ltr_done].
  apply ltr_write. intros x Hx Hp. split_and!; [good_tac | done | | done | done].
  unfold is_st in Hp. by rewrite Hp.
Qed.

Lemma ends_void_deleted buyer now : ends (is_st OrderState.Paid) (void_for_deleted_account buyer now).
Proof.
  apply ends_order. intros o Ho Hs. eapply ends_bind; [|intros; apply ends_void_paid].
  apply keeps_paid. calm_walk.
Qed.

Lemma ends_void_region c now : ends (is_st OrderState.Paid) (void_for_region c now).
Proof.
  apply ends_order. intros o Ho Hs.
  eapply (ends_bind _ _ _ (is_st OrderState.Paid)); [|intros; apply ends_void_paid].
  apply ltr_set_order; [good_tac | done].
Qed.

Lemma keeps_recheck_loop T s now ids :
  (T OrderState.Fulfilled -> T OrderState.Refunded) -> keeps T (recheck_loop ids s now).
Proof. intros HT. induction ids; simpl; calm_walk. Qed.
Lemma keeps_recheck T s now :
  (T OrderState.Fulfilled -> T OrderState.Refunded) -> keeps T (recheck_open_disputes s now).
Proof. intros HT. apply keeps_order. intros. by apply keeps_recheck_loop. Qed.
Lemma keeps_recorded T now :
  (T OrderState.Fulfilled -> T OrderState.Refunded) -> keeps T (apply_recorded_reversal now).
Proof. intros HT. unfold apply_recorded_reversal. calm_walk. Qed.
Lemma keeps_finish_fulfilled T now :
  (T OrderState.Fulfilled -> T OrderState.Refunded) -> keeps T (finish_fulfilled now).
Proof.
  intros HT. pose proof (keeps_recorded T now HT). unfold finish_fulfilled. calm_walk.
Qed.
Lemma keeps_publish T u : keeps T (publish_badge u).
Proof. unfold publish_badge. calm_walk. Qed.

(** The move to Paid, in fulfilment and for a late payment *)
Lemma ends_pay {B} s pi sid now (k : unit -> L B) :
  may_move s OrderState.Paid = true -> ends (is_st OrderState.Paid) (k tt) ->
  ends (is_st s)
    (let~ x := write (fun o => record_payment pi sid now (set_state OrderState.Paid o)) in k x).
Proof.
  intros Hm Hk. apply ends_write with (P' := is_st OrderState.Paid); [|done].
  intros x Hx Hp. unfold is_st in *. destruct (good_to_paid x pi sid now Hx) as (H1 & H2 & H3).
  simpl. rewrite H3, Hp. done.
Qed.

Lemma ends_recheck_void s reason now :
  ends (is_st OrderState.Paid)
    (let~ _ := try (recheck_open_disputes s now) in void_paid reason now).
Proof.
  eapply ends_bind; [|intros; apply ends_void_paid].
  apply keeps_paid, keeps_try. by apply keeps_recheck.
Qed.

Lemma ends_late pi id sid reason now :
  ends (is_st OrderState.Voided)
    (let~ refunded := lift (refund_for_void pi id) in
     if negb refunded then lfail ErrorType.PaymentProviderError
     else
       let~ _ := write (record_payment pi sid now) in lret (FulfilOutcome.Voided reason)).
Proof.
  eapply ends_bind; [apply ltr_lift; safe_walk|].
  intros [|]; simpl; [|by apply ltr_done].
  apply ends_write with (P' := fun _ => True); [|by apply ltr_done].
  intros x Hx Hp. unfold is_st in *. destruct (good_payment x pi sid now Hx) as (H1 & H2 & H3);
    [congruence|]. rewrite H3. split_and!; try done. intros. apply may_move_refl.
Qed.

Lemma ends_void_late s ss now : ends (is_st OrderState.Voided) (void_late_payment s ss now).
Proof.
  apply ends_order. intros o Ho Hs. top_match; [by apply ltr_done|].
  top_match; [top_match; [by apply ltr_done|]|].
  all: top_match; [by apply ltr_done|].
  all: destruct (cs_payment_intent ss) as [pi|]; [|by apply ltr_done].
  all: top_match.
  all: first [by apply ends_pay, ends_recheck_void | by apply ends_late].
Qed.

Lemma ends_done {A} (r : Result A) P : ends P (fun l => Ret (l, r)).
Proof. by apply ltr_done. Qed.

Lemma ends_void {P} (c : L FulfilOutcome.t) :
  ends P c -> ends P (let~ outcome := c in lret (Some outcome)).
Proof. intros Hc. eapply ends_bind; [exact Hc | intros; apply ends_done]. Qed.

Lemma ends_complete u now : ends (is_st OrderState.Paid) (complete_order u now).
Proof.
  apply ends_order. intros o Ho Hs. cbv zeta.
  eapply ends_bind; [apply keeps_paid; destruct (family _); [apply keeps_publish | apply keeps_ret]|]. intros _.
  apply ends_write with (P' := is_st OrderState.Fulfilled).
  { intros x Hx Hp. unfold is_st in *. rewrite Hp. split_and!; try done.
    destruct Hx as [[] Hf]. split; [split|]; simpl; intros; try done; eauto. }
  eapply (ends_bind _ _ _ (fun o => FR (po_state o))).
  { eapply ltr_conseq; [apply (keeps_recorded FR); by right | intros x Hx; by left | done]. }
  intros _. eapply ends_bind; [|intros; apply ends_done].
  instantiate (1 := fun o => FR (po_state o)). destruct (family _); [|apply keeps_ret].
  apply keeps_lift. safe_walk.
Qed.

(** A step of fulfilment that voids the order, or leaves it Paid to go on *)
Definition pif (c : L (option FulfilOutcome.t)) : Prop :=
  forall l, good (l_order l) -> is_st OrderState.Paid (l_order l) ->
    holds (Inv id0 sku0 created0) (Guar id0) (c l) (fun p => good (l_order p.1) /\
      (p.2 = Ok None -> is_st OrderState.Paid (l_order p.1))).

Lemma pif_none : pif (lret None).
Proof. by intros l. Qed.

Lemma pif_lift {A} (c : Eff World A) k :
  safe c -> (forall a, pif (k a)) -> pif (lbind (lift c) k).
Proof.
  intros Hc Hk l Hl Hp. apply holds_bind, holds_bind. eapply holds_mono; [exact Hc|].
  intros [a|e] _; [by apply Hk | done].
Qed.

Lemma pif_void (c : L FulfilOutcome.t) :
  ends (is_st OrderState.Paid) c -> pif (let~ outcome := c in lret (Some outcome)).
Proof.
  intros Hc l Hl Hp. apply holds_bind. eapply holds_mono; [by apply Hc|].
  by intros [l' [a|e]] [Hg _].
Qed.

Lemma ends_pif (c : L (option FulfilOutcome.t)) (k : L FulfilOutcome.t) :
  pif c -> ends (is_st OrderState.Paid) k ->
  ends (is_st OrderState.Paid)
    (let~ voided := c in match voided with Some outcome => lret outcome | None => k end).
Proof.
  intros Hc Hk l Hl Hp. apply holds_bind. eapply holds_mono; [by apply Hc|].
  intros [l' [[a|]|e]] [Hg Hn]; simpl in *; [done | by apply Hk; [|apply Hn] | done].
Qed.

Lemma pif_order k : (forall o, good o -> pif (k o)) -> pif (lbind this_order k).
Proof. intros Hk l Hl Hp. by apply (Hk (l_order l)). Qed.

Lemma pif_ret {A} (a : A) k : pif (k a) -> pif (lbind (lret a) k).
Proof. intros Hk. exact Hk. Qed.
End Fulfil.

Ltac pif_walk :=
  repeat (cbv beta zeta; lazymatch goal with
    | |- pif _ _ _ (lbind this_order _) => apply pif_order; intros
    | |- pif _ _ _ (lbind (lret _) _) => apply pif_ret
    | |- pif _ _ _ (lbind (lift _) _) => apply pif_lift; [solve [safe_walk]|intros]
    | |- pif _ _ _ (lbind (match ?x with _ => _ end) _) => destruct x eqn:?
    | |- pif _ _ _ (lbind (void_paid _ _) _) => apply pif_void, ends_void_paid
    | |- pif _ _ _ (lbind (void_for_region _ _) _) => apply pif_void, ends_void_region
    | |- pif _ _ _ (match ?x with _ => _ end) => destruct x eqn:?
    | |- pif _ _ _ (lret None) => apply pif_none
    end).

Section Public.
Context {env : Env}.
Context (id0 : option string) (sku0 : Sku) (created0 : Z).
Abbreviation safe := (safe id0 sku0 created0).
Abbreviation ltr := (ltr id0 sku0 created0).
Abbreviation good := (good id0 sku0 created0).
Abbreviation keeps := (keeps id0 sku0 created0).
Abbreviation ends P c := (ltr P c (fun _ => True)).

Lemma pif_apply s ss pi u m now : pif id0 sku0 created0 (apply_order s ss pi u m now).
Proof. unfold apply_order. pif_walk. Qed.

Lemma ends_fulfil_paid s ss pi now : ends (is_st OrderState.Paid) (fulfil_paid s ss pi now).
Proof.
  apply ends_order. intros o Ho Hs. destruct (po_void_reason o); [apply ends_void_paid|].
  destruct (po_user_id o) as [u|]; [|apply ends_void_deleted].
  eapply ends_bind; [apply ltr_lift; safe_walk|]. intros [|]; [|apply ends_void_deleted].
  cbv zeta. eapply (ends_bind _ _ _ _ _ _ (is_st OrderState.Paid)).
  { apply keeps_paid. destruct (family _); [apply keeps_lift; safe_walk | apply keeps_ret]. }
  intros m. eapply (ends_bind _ _ _ _ _ _ (is_st OrderState.Paid)).
  { apply keeps_paid. destruct (family _); [apply keeps_ret | apply keeps_lift; safe_walk]. }
  intros applied. apply ends_pif; [|apply ends_complete].
  destruct applied; [|apply pif_apply]. pif_walk.
Qed.

Lemma ends_pay_and_fulfil s ss now o :
  may_move (po_state o) OrderState.Paid = true ->
  ends (is_st (po_state o)) (pay_and_fulfil s ss now o).
Proof.
  intros Hm. unfold pay_and_fulfil.
  assert (forall pi (k : L FulfilOutcome.t), ends (is_st OrderState.Paid) k ->
    ends (is_st (po_state o))
      (let~ _ := if state_is o OrderState.Paid then lret tt
                 else write (fun o => record_payment pi (cs_id ss) now
                                        (set_state OrderState.Paid o)) in k)) as Hk.
  { intros pi k Hk. unfold state_is. case_bool_decide as Hs; [by rewrite Hs|].
    by apply ends_pay. }
  destruct (session_mismatch o ss s) as [[]|]; [apply ends_done | |]; cbv zeta.
  all: destruct (negb _); [apply ends_done|].
  all: destruct (cs_payment_intent ss); [|apply ends_done].
  all: apply Hk; first [apply ends_void_paid | apply ends_fulfil_paid].
Qed.

Lemma ends_fulfil s ss now P : ends P (fulfil_locked s ss now).
Proof.
  apply ltr_order. intros o Ho _.
  assert (forall (c : L FulfilOutcome.t), ends (is_st (po_state o)) c -> ends (eq o) c) as Hc.
  { intros c Hc. by eapply ltr_conseq; [exact Hc | intros ? <- |]. }
  pose proof (ends_pay_and_fulfil s ss now o) as Hpay.
  destruct (po_state o) eqn:E; try (by apply Hc, Hpay).
  - apply Hc. eapply (ends_bind _ _ _ _ _ _ (fun o => FR (po_state o))); [|intros; apply ends_done].
    eapply ltr_conseq; [apply (keeps_finish_fulfilled _ _ _ FR); by right | by left | done].
  - apply ends_done.
  - apply Hc, ends_void_late.
Qed.

Lemma ends_resume s ss now P : ends P (resume_locked s ss now).
Proof.
  apply ltr_order. intros o Ho _.
  eapply (ends_bind _ _ _ _ _ _ (fun _ => True)); [|intros; apply ends_fulfil].
  top_match; [|by apply ltr_done]. eapply ends_bind; [|intros; apply ends_done].
  eapply ltr_conseq; [apply keeps_try, (keeps_recheck _ _ _ (fun _ => True)); done | done | done].
Qed.

Lemma ends_keeps_any {A} (c : L A) P : keeps (fun _ => True) c -> ends P c.
Proof. intros Hc. by eapply ltr_conseq. Qed.

(** ** The public functions *)

Lemma safe_fulfil s id ss now : safe (fulfil_order s id ss now).
Proof. eapply safe_with_lease; [done | apply ends_fulfil]. Qed.

Lemma safe_resume s id now : safe (resume_order s id now).
Proof.
  unfold resume_order. safe_walk. eapply safe_with_lease; [done | apply ends_resume].
Qed.

Lemma safe_reverse id k r now : safe (reverse_order id k r now).
Proof.
  unfold reverse_order. safe_walk. eapply safe_with_lease; [done|].
  apply ends_keeps_any. calm_walk.
Qed.

Lemma safe_mark_settling id now : safe (mark_refund_settling id now).
Proof. eapply safe_with_lease; [done|]. apply ends_keeps_any. calm_walk. Qed.

Lemma safe_clear_settling id now : safe (clear_refund_settling id now).
Proof. eapply safe_with_lease; [done|]. apply ends_keeps_any. calm_walk. Qed.

Lemma safe_reverse_dispute s id d now : safe (reverse_dispute s id d now).
Proof. eapply safe_with_lease; [done|]. apply ends_keeps_any. calm_walk. Qed.

Lemma safe_recheck s id now : safe (recheck_disputes s id now).
Proof.
  eapply safe_with_lease; [done|]. apply ends_keeps_any.
  apply keeps_order. intros o _ _. apply keeps_bind; [by apply keeps_recheck|]. calm_walk.
Qed.

Lemma safe_finish_release id now : safe (finish_number_release id now).
Proof. eapply safe_with_lease; [done|]. apply ends_keeps_any. calm_walk. Qed.

Lemma safe_expire id now : safe (expire_order id now).
Proof.
  eapply safe_with_lease; [done|]. apply ltr_order. intros o Ho _.
  eapply (ends_bind _ _ _ _ _ _ (fun _ => True)); [|intros; apply ends_done].
  destruct (po_state o) eqn:E; try apply ends_done.
  all: apply ltr_write; intros x Hx <-; split_and!; [good_tac | done | | done | done].
  all: intros _; simpl; by rewrite E.
Qed.

Lemma ends_void_deletion now P : ends P (void_for_deletion now).
Proof.
  apply ltr_order. intros o Ho _.
  destruct (po_state o) eqn:E; try apply ends_done.
  4: { eapply ends_bind; [|intros; apply ends_done].
       eapply ltr_conseq; [apply ends_void_deleted | by intros ? <- | done]. }
  all: apply ltr_write; intros x Hx <-; split_and!; [good_tac | done | | done | done].
  all: intros _; simpl; by rewrite E.
Qed.

Lemma safe_deleted u now : safe (on_account_deleted u now).
Proof.
  unfold on_account_deleted, unlink_account_payments. safe_walk.
  induction (match a with Ok open => open | Err _ => [] end) as [|o l IH]; simpl; safe_walk.
  eapply safe_with_lease; [done | apply ends_void_deletion].
Qed.

(** ** Checkouts *)

(** The order a checkout made is not the one followed; when none is, no order
    is (OrderLife.v follows an order from its own checkout on) *)
Definition other (o : PaymentOrder) : Prop := id0 <> Some (po_id o).

Lemma ends_start s a b : ends other (start_session_with_urls s a b).
Proof.
  assert (ends other (let~ _ := try (write (set_state OrderState.SessionFailed)) in
                      lfail (A := string) ErrorType.PaymentProviderError)) as Hf.
  { eapply (ends_bind _ _ _ _ _ _ (fun _ => True)); [|intros; apply ends_done].
    apply ltr_try, ltr_write. intros o Ho Hp. split_and!; [good_tac | done | by intros ?%Hp | done | done]. }
  apply ltr_order. intros o Ho Hp. destruct (po_user_id o) as [u|]; [|apply ends_done]. cbv zeta.
  eapply ends_bind; [apply ltr_lift; safe_walk|].
  assert (forall c : L string, ends other c -> ends (eq o) c) as Hc.
  { intros c Hc. by eapply ltr_conseq; [exact Hc | intros ? <- |]. }
  intros [ss|e]; [|by apply Hc]. destruct (cs_url ss) as [url|]; [|by apply Hc].
  top_match; [by apply Hc|]. top_match; [by apply Hc|].
  eapply (ends_bind _ _ _ _ _ _ (fun _ => True)); [|intros; apply ends_done].
  apply ltr_write. intros x Hx <-. split_and!; [|done|by intros ?%Hp | done | done].
  destruct Hx as [[] Hf']. split; [split|]; simpl; intros; try done; naive_solver.
Qed.

End Public.

Section Checkouts.
Context {env : Env} (sku0 : Sku) (created0 : Z).
Abbreviation safe := (safe None sku0 created0).

Lemma safe_open_order sku u now (start : L string) :
  ltr None sku0 created0 (fun _ => True) start (fun _ => True) -> safe (open_order sku u now start).
Proof.
  intros Hs. apply safe_bind; [apply calls_safe, calls_new_ulid|]. intros id.
  destruct (sku_cents sku) as [cents|e] eqn:Ec; [|done].
  apply holds_bind. intros w Hi. unfold Inv, Guar in *.
  set (o := new_order id u sku cents now).
  assert (order_wf o) as Hw by (split; simpl; try done; naive_solver).
  destruct (insert_step None sku0 created0 (w_orders w) o Hi Hw) as (H1 & H2); [done|].
  destruct (insert_payment_order _ _) as [os [[]|e]]; simpl in *; split_and!; try done.
  eapply safe_with_lease; [done|]. by eapply ltr_conseq.
Qed.

Lemma start_any s a b : ltr None sku0 created0 (fun _ => True) (start_session_with_urls s a b) (fun _ => True).
Proof. by eapply ltr_conseq; [apply ends_start | |]. Qed.

Lemma safe_cipher_checkout s u t r now : safe (create_cipher_checkout s u t r now).
Proof.
  unfold create_cipher_checkout. safe_walk.
  all: try (apply safe_open_order; unfold start_session; destruct r; apply start_any).
Qed.

Lemma safe_prot_checkout s ps u c r now : safe (create_prot_checkout s ps u c r now).
Proof.
  unfold create_prot_checkout. safe_walk.
  all: apply safe_open_order; apply start_any.
Qed.
End Checkouts.

#[export] Hint Resolve safe_fulfil safe_resume safe_reverse safe_mark_settling safe_clear_settling
  safe_reverse_dispute safe_recheck safe_finish_release safe_expire safe_deleted
  safe_cipher_checkout safe_prot_checkout : safe.

(** ** Events and the sweep *)

Section Events.
Context {env : Env} (debug_error : ErrorType.t -> string).
Context (id0 : option string) (sku0 : Sku) (created0 : Z).
Abbreviation safe := (safe id0 sku0 created0).

Lemma safe_is_settled id : safe (is_settled id).
Proof. unfold is_settled. safe_walk. Qed.
#[local] Hint Resolve safe_is_settled : safe.

Lemma safe_order_for_intent s pi : safe (order_for_intent debug_error s pi).
Proof. unfold order_for_intent. safe_walk. Qed.
Lemma safe_settled_refund e id pi now : safe (settled_refund debug_error e id pi now).
Proof. unfold settled_refund. safe_walk. Qed.
#[local] Hint Resolve safe_order_for_intent safe_settled_refund : safe.

Lemma safe_order_of_session e k :
  (forall a b, safe (k a b)) -> safe (order_of_session debug_error e k).
Proof. intros Hk. unfold order_of_session. safe_walk. Qed.
Lemma safe_order_of_intent s e k :
  (forall a b, safe (k a b)) -> safe (order_of_intent debug_error s e k).
Proof. intros Hk. unfold order_of_intent. safe_walk. Qed.

Lemma safe_process s e now : safe (process debug_error s e now).
Proof.
  unfold process, reverse_event.
  destruct (action_for e); first [done | apply safe_order_of_session | apply safe_order_of_intent].
  all: intros; safe_walk.
Qed.
#[local] Hint Resolve safe_process : safe.

Lemma safe_handle_event s e now : safe (handle_event debug_error s e now).
Proof. unfold handle_event, record_livemode_mismatch. safe_walk. Qed.
#[local] Hint Resolve safe_handle_event : safe.

Lemma safe_sweep {A} (body : A -> Tally -> prog World Tally) rows :
  (forall x t, safe (body x t)) -> forall t, safe (sweep body rows t).
Proof. intros Hb. induction rows; intros t; simpl; safe_walk. Qed.

Lemma safe_sweep_part {A} (query : Eff World (list A)) body t :
  safe query -> (forall x t, safe (body x t)) -> safe (sweep_part query body t).
Proof. intros Hq Hb. unfold sweep_part. safe_walk. by apply safe_sweep. Qed.

Lemma safe_reconcile s now : safe (reconcile debug_error s now).
Proof.
  unfold reconcile.
  repeat lazymatch goal with
    | |- EngineLifecycle.safe _ _ _ (bind _ _) => apply safe_bind; [|intros]
    end; try done.
  8: unfold redrive_events; safe_walk; apply safe_sweep; intros; unfold redrive_one; safe_walk.
  all: apply safe_sweep_part; [apply calls_safe, calls_reading|]; intros.
  - unfold expire_one. safe_walk.
  - unfold check_one_pending, expire_one. safe_walk.
  - unfold resume_one. safe_walk.
  - unfold reverse_one_pending. safe_walk.
  - unfold settle_one. safe_walk.
  - unfold finish_one_release. safe_walk.
  - unfold recheck_one. safe_walk.
Qed.
End Events.
