(* ===== verification/OrderLife.v ===== *)
(** * An order and its own checkout

    EngineLifecycle follows an order that is stored.  Here an order is
    followed from before it is stored: the checkout that makes it stores it
    as Creating and, once it has a lease, moves it a single time, to Pending
    or to SessionFailed, whatever others made of the order meanwhile.  Every
    other handler moves it along [may_move] only, and none of them stores
    it. *)

From stdpp Require Import base numbers list gmap strings relations.
From S2P Require Import Prelude Errors Program CipherMemberships CipherNumbers ProtLedger.
From S2P Require Import ProtStore PaymentOrders Catalog Settings StripeApi PaymentEvents.
From S2P Require Import PaymentsWorld EngineCore EngineProt EngineReverse Engine Dispatch.
From S2P Require Import EngineCalls EngineLifecycle.
Open Scope Z_scope.

(** Every order is stored under its id and well formed. *)
Definition orders_wf (os : Orders) : Prop :=
  forall k row, os !! k = Some row -> po_id row = k /\ order_wf row.

(** ** The life of an order *)

(** What its checkout makes of an order *)
Definition opened (s : OrderState.t) : Prop := s = OrderState.Pending \/ s = OrderState.SessionFailed.

Abbreviation travels := (rtc (fun a b => may_move a b = true)).

(** From [a] to [b] along the edges, with the one move of its checkout in
    between if that was still [due] *)
Definition lived (due : Prop) (a b : OrderState.t) : Prop :=
  travels a b \/ due /\ exists x y, travels a x /\ opened y /\ travels y b.

Lemma lived_refl due a : lived due a a.
Proof. left. constructor. Qed.

Lemma lived_r due a b c : lived due a b -> may_move b c = true -> lived due a c.
Proof.
  intros [Hab|[Hd (x & y & H1 & H2 & H3)]] Hbc; [left | right; split; [done|]; exists x, y; split_and!; try done];
    by eapply rtc_r.
Qed.

(** ** Programs and one order *)

Section Followed.
Context {env : Env} (id : string).

Definition is_stored (w : World) : Prop := is_Some (w_orders w !! id).

Section Terms.
Context (sku : Sku) (created : Z).

Definition Here (w : World) : Prop := Inv (Some id) sku created w /\ is_stored w.

(** A program that moves the stored order along the edges *)
Definition calm {A} (p : prog World A) : Prop := holds Here (Guar (Some id)) p (fun _ => True).

(** The checkout of the order, before its one move *)
Fixpoint opening {A} (p : prog World A) : Prop :=
  match p with
  | Ret _ | Panic => True
  | Atom op k => forall w, Here w -> Here (op w).1 /\
      (Guar (Some id) w (op w).1 /\ opening (k (op w).2) \/
       (exists row, w_orders (op w).1 !! id = Some row /\ opened (po_state row)) /\ calm (k (op w).2))
  end.

Lemma guar_stored w w' : Guar (Some id) w w' -> is_stored w -> is_stored w'.
Proof.
  intros Hg [row Hr]. specialize (Hg id eq_refl). rewrite Hr in Hg.
  unfold is_stored. by destruct (w_orders w' !! id).
Qed.

Lemma holds_here {A} (p : prog World A) Q :
  holds (Inv (Some id) sku created) (Guar (Some id)) p Q -> holds Here (Guar (Some id)) p Q.
Proof.
  induction p as [a| |X op k IH]; simpl; [done | done|]. intros H w [Hi Hs].
  destruct (H w Hi) as (H1 & H2 & H3). split_and!; [split; [done | by eapply guar_stored] | done | by apply IH].
Qed.

Lemma opening_calm {A} (p : prog World A) : calm p -> opening p.
Proof.
  induction p as [a| |X op k IH]; [done | done|]. intros H w Hw. destruct (H w Hw) as (H1 & H2 & H3).
  split; [done|]. left. split; [done | by apply IH].
Qed.

Lemma opening_after {A B} (p : prog World A) (k : A -> prog World B) Q :
  holds Here (Guar (Some id)) p Q -> (forall a, Q a -> opening (k a)) -> opening (bind p k).
Proof.
  intros Hp Hk. induction p as [a| |X op f IH]; simpl in *; [by apply Hk | done|].
  intros w Hw. destruct (Hp w Hw) as (H1 & H2 & H3). split; [done|]. left. split; [done | by apply IH].
Qed.

Lemma opening_then {A B} (p : prog World A) (k : A -> prog World B) :
  opening p -> (forall a, calm (k a)) -> opening (bind p k).
Proof.
  intros Hp Hk. induction p as [a| |X op f IH]; simpl in *; [apply opening_calm, Hk | done|].
  intros w Hw. destruct (Hp w Hw) as (H1 & [[H2 H3]|[H2 H3]]); (split; [done|]); [left | right]; (split; [done|]).
  - by apply IH.
  - apply holds_bind. eapply holds_mono; [exact H3|]. intros a _. apply Hk.
Qed.

Lemma calm_ret {A} (a : A) : calm (Ret a).
Proof. done. Qed.

(** *** The checkout after the order is stored *)

Lemma opening_write change l :
  good (Some id) sku created (change (l_order l)) -> po_id (change (l_order l)) = id ->
  opened (po_state (change (l_order l))) -> opening (write change l).
Proof.
  intros Hg Hid Ho. apply opening_then.
  2: { intros [[]|e]; [done | | done]. apply holds_bind. intros w Hw. split_and!; [done | apply moves_refl | done]. }
  intros w [Hi Hs]. unfold db_update_payment_order_if_state, update_payment_order_if_state in *. cbn.
  assert (Here w /\ Guar (Some id) w w) as [Hh Hr] by (split; [done | apply moves_refl]).
  assert (forall r : Result bool, Here (set_orders w (w_orders w)) /\
            (Guar (Some id) w (set_orders w (w_orders w)) /\ opening (Ret r) \/
             (exists row, w_orders w !! id = Some row /\ opened (po_state row)) /\ calm (Ret r))) as Hsame.
  { intros r. split; [done|]. left. split; [apply moves_refl | done]. }
  destruct (checked_add_u64 _ 1) as [next|]; cbn; [|apply (Hsame (Err ErrorType.InternalError))].
  destruct (update_matches _ _ _); cbn; [|apply (Hsame (Ok false))].
  destruct (provider_id_taken _ _); cbn; [apply (Hsame (Err ErrorType.InternalError))|]. rewrite Hid.
  set (row := with_meta _ _ _ _). split.
  - split; [|unfold is_stored; cbn; by rewrite lookup_insert_eq].
    apply orders_put; [done | done | by apply good_meta].
  - right. split; [|done]. exists row. by rewrite lookup_insert_eq.
Qed.

Lemma opening_lift {A} (p : Eff World A) {B} (k : A -> L B) l :
  calls p -> (forall a, opening (k a l)) -> opening (lbind (lift p) k l).
Proof.
  intros Hp Hk. unfold lbind, lift. eapply (opening_after _ _ (fun r => r.1 = l)).
  - apply holds_bind. eapply holds_mono; [by apply holds_here, calls_safe|]. done.
  - intros [l' [a|e]] E; cbn in E; subst l'; [apply Hk | done].
Qed.

Lemma opening_order {B} (k : PaymentOrder -> L B) l : opening (k (l_order l) l) -> opening (lbind this_order k l).
Proof. intros H. exact H. Qed.

Lemma opening_start s a b l :
  good (Some id) sku created (l_order l) -> po_id (l_order l) = id -> opening (start_session_with_urls s a b l).
Proof.
  intros Hg Hid. unfold start_session_with_urls.
  assert (opening ((let~ _ := try (write (set_state OrderState.SessionFailed)) in
                    lfail (A := string) ErrorType.PaymentProviderError) l)) as Hf.
  { apply opening_then; [|by intros [l' []]]. apply opening_then; [|by intros []].
    apply opening_write; [|done | by right].
    destruct Hg as [[] Ht]. split; [split|]; simpl; intros; try done; naive_solver. }
  apply opening_order.
  destruct (po_user_id (l_order l)) as [u|]; [|done]. cbv zeta. apply opening_lift; [calls_walk|].
  intros [ss|e]; [|exact Hf]. destruct (cs_url ss) as [url|]; [|exact Hf].
  destruct (negb _); [exact Hf|]. destruct (match cs_amount_total ss with Some _ => _ | None => _ end); [exact Hf|].
  apply opening_then; [|by intros [l' []]]. apply opening_write; [|done | by left].
  destruct Hg as [[] Ht]. split; [split|]; simpl; intros; try done; naive_solver.
Qed.

Lemma opening_lease now (held : Eff World string) (body : L string) :
  calm held -> (forall l, good (Some id) sku created (l_order l) -> po_id (l_order l) = id -> opening (body l)) ->
  opening (with_lease id now held body).
Proof.
  intros Hh Hb. eapply opening_after; [apply holds_here, acquire_holds|].
  intros [[l|]|e] Hl; [|by apply opening_calm | done]. destruct Hl as [Hg Hid].
  apply opening_then; [by apply Hb|]. intros [l' r].
  apply holds_bind. eapply holds_mono; [apply holds_here, safe_release|]. done.
Qed.
End Terms.

(** *** A checkout before it stores an order *)

(** The program stores the order at most once, and goes on as its checkout
    then; otherwise it leaves it alone. *)
Fixpoint fresh {A} (p : prog World A) : Prop :=
  match p with
  | Ret _ | Panic => True
  | Atom op k => forall w, orders_wf (w_orders w) -> orders_wf (w_orders (op w).1) /\
      (w_orders (op w).1 !! id = w_orders w !! id /\
         (fresh (k (op w).2) \/ forall sku created, safe (Some id) sku created (k (op w).2)) \/
       w_orders w !! id = None /\
         exists row, w_orders (op w).1 !! id = Some row /\ po_state row = OrderState.Creating /\
           opening (po_sku row) (po_created_at row) (k (op w).2))
  end.

Lemma fresh_calls {A B} (p : prog World A) (k : A -> prog World B) :
  calls p -> (forall a, fresh (k a)) -> fresh (bind p k).
Proof.
  intros Hp Hk. unfold calls in Hp. induction p as [a| |X op f IH]; simpl in *; [apply Hk | done|].
  intros w Hw. destruct (Hp w I) as (_ & [Ho _] & Hf). rewrite Ho. split; [done|]. left. split; [done|].
  left. by apply IH.
Qed.

Lemma fresh_ecalls {A B} (p : Eff World A) (k : A -> Eff World B) :
  calls p -> (forall a, fresh (k a)) -> fresh (ebind p k).
Proof. intros Hp Hk. apply fresh_calls; [done|]. intros [a|e]; [apply Hk | done]. Qed.

Lemma fresh_spawn {A} (p : prog World A) : fresh p -> fresh (spawn p).
Proof.
  unfold spawn. induction p as [a| |X op k IH]; [done | done|]. intros H w Hw. destruct (H w Hw) as [H1 H2].
  split; [done|]. cbn. destruct H2 as [[Hs [Hf|Hf]]|(Hn & row & Hr & Hc & Ho)]; [left | left | right].
  - split; [done|]. left. by apply IH.
  - split; [done|]. right. intros sku created. by apply safe_bind.
  - split; [done|]. exists row. split_and!; [done..|]. by apply opening_then.
Qed.

Lemma insert_fresh os o :
  orders_wf os -> order_wf o -> id <> po_id o ->
  orders_wf (insert_payment_order os o).1 /\ (insert_payment_order os o).1 !! id = os !! id.
Proof.
  intros Hw Ho Hne. unfold insert_payment_order. destruct (is_some _); [done|].
  destruct (provider_id_taken _ _); [done|]. cbn. split; [|by rewrite lookup_insert_ne].
  intros k row. rewrite lookup_insert. case_decide; [intros [= <-]; by subst | apply Hw].
Qed.

Lemma fresh_open sku u now start :
  (forall sku' created l, good (Some id) sku' created (l_order l) -> po_id (l_order l) = id ->
     opening sku' created (start l)) ->
  (forall sku' created, ltr (Some id) sku' created (other (Some id)) start (fun _ => True)) ->
  fresh (open_order sku u now start).
Proof.
  intros Hs Hother. apply fresh_calls; [apply calls_new_ulid|]. intros x.
  destruct (sku_cents sku) as [cents|e] eqn:Ec; [|done].
  intros w Hw. cbn. set (o := new_order x u sku cents now).
  assert (order_wf o) as Ho by (split; simpl; try done; naive_solver).
  destruct (insert_payment_order (w_orders w) o) as [os r] eqn:Ei. cbn.
  destruct (decide (id = x)) as [<-|Hne].
  - unfold insert_payment_order in Ei. change (po_id o) with id in Ei.
    destruct (w_orders w !! id) as [row|] eqn:Er; cbn in Ei.
    { simplify_eq. split; [done|]. left. split; [by rewrite Er | by left]. }
    destruct (provider_id_taken _ _); simplify_eq; [split; [done|]; left; split; [by rewrite Er | by left]|].
    split.
    { intros k row. rewrite lookup_insert. case_decide; [intros [= <-]; by subst | apply Hw]. }
    right. split; [done|]. exists o. rewrite lookup_insert_eq. split_and!; [done..|].
    apply opening_lease; [done | by apply Hs].
  - destruct (insert_fresh (w_orders w) o Hw Ho Hne) as [H1 H2]. rewrite Ei in H1, H2. split; [done|]. left.
    split; [done|]. destruct r as [[]|e]; [|by left]. right. intros sku' created.
    eapply safe_with_lease; [done|]. eapply ltr_conseq; [apply Hother | | done].
    intros y Hy. unfold other. rewrite Hy. congruence.
Qed.

Lemma fresh_start sku u now s a b : fresh (open_order sku u now (start_session_with_urls s a b)).
Proof. apply fresh_open; intros; [by apply opening_start | apply ends_start]. Qed.
End Followed.

Ltac fresh_walk :=
  repeat first
    [ progress intros
    | lazymatch goal with
      | |- fresh _ (open_order _ _ _ (match ?x with _ => _ end)) => destruct x
      | |- fresh _ (open_order _ _ _ _) => apply fresh_start
      | |- fresh _ (ebind _ _) => apply fresh_ecalls; [solve [calls_walk]|]
      | |- fresh _ (Ret _) => done
      | |- fresh _ (ok _) => done
      | |- fresh _ (fail _) => done
      | |- fresh _ (match ?x with _ => _ end) => destruct x eqn:?
      end ].

Section Checkouts.
Context {env : Env} (id : string).

Lemma fresh_cipher_checkout s u t r now : fresh id (create_cipher_checkout s u t r now).
Proof. unfold create_cipher_checkout, start_session. fresh_walk. Qed.

Lemma fresh_prot_checkout s ps u c r now : fresh id (create_prot_checkout s ps u c r now).
Proof. unfold create_prot_checkout. fresh_walk. Qed.
End Checkouts.

(** ** The whole system *)

Section System.
Context {env : Env} (id : string) (handler : prog World unit -> Prop).

(** A handler that has done nothing yet to the order *)
Definition ready (p : prog World unit) : Prop := fresh id p \/ forall sku created, safe (Some id) sku created p.

Context (Hready : forall p, handler p -> ready p).

Lemma wf_good sku created os :
  orders_wf os -> (forall row, os !! id = Some row -> po_sku row = sku /\ po_created_at row = created) ->
  orders_good (Some id) sku created os.
Proof.
  intros Hw Ht k row Hk. destruct (Hw _ _ Hk) as [Hid Ho]. split; [done|]. split; [done|].
  intros [= E]. apply Ht. congruence.
Qed.

Lemma good_wf sku created os : orders_good (Some id) sku created os -> orders_wf os.
Proof. intros Hg k row Hk. by destruct (Hg _ _ Hk) as [? [? _]]. Qed.

Lemma fresh_calm {A} sku created (p : prog World A) : fresh id p -> calm id sku created p.
Proof.
  induction p as [a| |X op k IH]; [done | done|]. intros H w [Hg [row Hr]].
  destruct (H w (good_wf _ _ _ Hg)) as [Hw [[Hs Hk]|[Hn _]]]; [|congruence]. split_and!.
  - split; [|unfold is_stored; by rewrite Hs, Hr]. apply wf_good; [done|]. intros row' Hr'.
    rewrite Hs, Hr in Hr'. simplify_eq. destruct (Hg _ _ Hr) as [Hid [_ Ht]]. apply Ht. congruence.
  - apply moves_same. by intros ? [= <-].
  - destruct Hk as [Hk|Hk]; [by apply IH | apply holds_here, Hk].
Qed.

Lemma ready_calm sku created p : ready p -> calm id sku created p.
Proof. intros [Hp|Hp]; [by apply fresh_calm | apply holds_here, Hp]. Qed.

(** Before the order is stored *)
Definition before (s : Sys World) : Prop :=
  orders_wf (w_orders (sys_world s)) /\ w_orders (sys_world s) !! id = None /\ Forall ready (sys_threads s).

(** Once it is: the threads are calm, but for its checkout if that has its
    move still to make *)
Definition after (sku : Sku) (created : Z) (due : bool) (s : Sys World) : Prop :=
  Here id sku created (sys_world s) /\
  (Forall (calm id sku created) (sys_threads s) \/
   due = true /\ exists p ts, sys_threads s ≡ₚ p :: ts /\ opening id sku created p /\
     Forall (calm id sku created) ts).

Definition state_of (s : Sys World) : option OrderState.t := po_state <$> w_orders (sys_world s) !! id.

(** A calm thread's operation *)
Lemma calm_op sku created {X} (op : World -> World * X) (k : X -> prog World unit) w a :
  Here id sku created w -> calm id sku created (Atom op k) -> po_state <$> w_orders w !! id = Some a ->
  Here id sku created (op w).1 /\ calm id sku created (k (op w).2) /\
  exists b, po_state <$> w_orders (op w).1 !! id = Some b /\ may_move a b = true.
Proof.
  intros Hw Hp Ha. destruct (Hp w Hw) as (H1 & H2 & H3). split_and!; [done..|].
  specialize (H2 id eq_refl). destruct (w_orders w !! id) as [row|]; [|done]. injection Ha as <-.
  destruct (w_orders (op w).1 !! id) as [row'|]; [|done]. by exists (po_state row').
Qed.

(** One element of two lists that are the same *)
Lemma perm_cons_cases {A} (x y : A) l k :
  x :: l ≡ₚ y :: k -> x = y /\ l ≡ₚ k \/ exists r, l ≡ₚ y :: r /\ k ≡ₚ x :: r.
Proof.
  intros Hp. assert (y ∈ x :: l) as Hy by (rewrite Hp; left). apply elem_of_cons in Hy as [->|Hy].
  - left. split; [done | by eapply Permutation_cons_inv].
  - right. apply elem_of_Permutation in Hy as [r Hr]. exists r. split; [done|].
    rewrite Hr in Hp. rewrite Permutation_swap in Hp. by apply Permutation_cons_inv in Hp.
Qed.

Lemma after_step sku created due s s' a :
  after sku created due s -> sys_step handler s s' -> state_of s = Some a ->
  exists due' b, state_of s' = Some b /\ after sku created due' s' /\
    (may_move a b = true /\ due' = due \/ due = true /\ due' = false /\ opened b).
Proof.
  intros [Hw Ht] Hs Ha. unfold state_of, after in *. destruct Hs as [w ts p Hp|X w ts1 ts2 op k|w ts1 ts2 p]; cbn in *.
  - exists due, a. split_and!; [done | done | | left; split; [apply may_move_refl | done]].
    pose proof (ready_calm sku created p (Hready p Hp)) as Hc.
    destruct Ht as [Ht|(-> & q & ts' & Hq & Ho & Ht)]; [left; by constructor | right].
    split; [done|]. exists q, (p :: ts'). rewrite Hq. split_and!; [apply Permutation_swap | done | by constructor].
  - destruct Ht as [Ht|(-> & q & ts' & Hq & Ho & Ht)];
      [rewrite <- Permutation_middle in Ht | rewrite <- Permutation_middle in Hq].
    + apply Forall_cons in Ht as [Hp Ht]. destruct (calm_op _ _ _ _ _ _ Hw Hp Ha) as (H1 & H2 & b & Hb & Hm).
      exists due, b. split_and!; [done | done | | by left]. left. rewrite <- Permutation_middle. by constructor.
    + symmetry in Hq. apply perm_cons_cases in Hq as [[-> Hq]|(r & Hr & Hq)].
      * rewrite Hq in Ht. destruct (Ho w Hw) as [H1 [[Hg Hk]|[(row & Hrow & Hopen) Hk]]].
        -- specialize (Hg id eq_refl). destruct (w_orders w !! id) as [row|]; [|done]. injection Ha as <-.
           destruct (w_orders (op w).1 !! id) as [row'|]; [|done].
           exists true, (po_state row'). split_and!; [done | done | | by left].
           right. split; [done|]. exists (k (op w).2), (ts1 ++ ts2). by rewrite <- Permutation_middle.
        -- exists false, (po_state row). rewrite Hrow. split_and!; [done | done | | by right].
           left. rewrite <- Permutation_middle. by constructor.
      * rewrite Hr in Ht. apply Forall_cons in Ht as [Hp Ht].
        destruct (calm_op _ _ _ _ _ _ Hw Hp Ha) as (H1 & H2 & b & Hb & Hm).
        exists true, b. split_and!; [done | done | | by left]. right. split; [done|].
        exists q, (k (op w).2 :: r). rewrite <- Permutation_middle, Hq.
        split_and!; [apply Permutation_swap | done | by constructor].
  - exists due, a. split_and!; [done | done | | left; split; [apply may_move_refl | done]].
    destruct Ht as [Ht|(-> & q & ts' & Hq & Ho & Ht)].
    { left. rewrite <- Permutation_middle in Ht. by apply Forall_cons in Ht as [_ Ht]. }
    rewrite <- Permutation_middle in Hq. symmetry in Hq. apply perm_cons_cases in Hq as [[-> Hq]|(r & Hr & Hq)]; [left; by rewrite <- Hq|].
    right. split; [done|]. exists q, r. split_and!; [done | done|]. rewrite Hr in Ht. by apply Forall_cons in Ht as [_ Ht].
Qed.

Lemma before_step s s' :
  before s -> sys_step handler s s' ->
  before s' \/ exists sku created, after sku created true s' /\ state_of s' = Some OrderState.Creating.
Proof.
  intros (Hw & Hn & Ht) Hs. unfold before, after, state_of in *.
  destruct Hs as [w ts p Hp|X w ts1 ts2 op k|w ts1 ts2 p]; cbn in *.
  - left. split_and!; [done | done|]. constructor; [by apply Hready | done].
  - rewrite <- Permutation_middle in Ht. apply Forall_cons in Ht as [[Hp|Hp] Ht].
    + destruct (Hp w Hw) as [Hw' [[Hs Hk]|(_ & row & Hrow & Hc & Ho)]].
      * left. split_and!; [done | by rewrite Hs|]. rewrite <- Permutation_middle. by constructor.
      * right. exists (po_sku row), (po_created_at row). rewrite Hrow. cbn. split; [|by f_equal].
        split; [split; [|by exists row]|right; split; [done|]].
        -- apply wf_good; [done|]. intros row' Hr. rewrite Hrow in Hr. by simplify_eq.
        -- exists (k (op w).2), (ts1 ++ ts2). split_and!; [by rewrite <- Permutation_middle | done|].
           eapply Forall_impl; [exact Ht|]. intros q. apply ready_calm.
    + assert (forall sku created, Inv (Some id) sku created w) as Hi.
      { intros sku created. apply wf_good; [done|]. intros row Hr. congruence. }
      left. destruct (Hp (ProtExact 0) 0 w (Hi _ _)) as (H1 & H2 & _). specialize (H2 id eq_refl).
      rewrite Hn in H2. split_and!; [by eapply good_wf | by destruct (w_orders (op w).1 !! id)|].
      rewrite <- Permutation_middle. constructor; [|done]. right. intros sku created.
      by destruct (Hp sku created w (Hi _ _)) as (_ & _ & H3).
  - left. split_and!; [done | done|]. rewrite <- Permutation_middle in Ht. by apply Forall_cons in Ht as [_ Ht].
Qed.

Lemma lived_l due a b c : may_move a b = true -> lived due b c -> lived due a c.
Proof.
  intros Hab [Hbc|[Hd (x & y & H1 & H2 & H3)]]; [left | right; split; [done|]; exists x, y; split_and!; try done];
    by eapply rtc_l.
Qed.

Lemma after_run sku created s s' : rtc (sys_step handler) s s' -> forall due a,
  after sku created due s -> state_of s = Some a ->
  exists due' b, state_of s' = Some b /\ after sku created due' s' /\ lived (due = true) a b /\
    (due' = true -> due = true).
Proof.
  induction 1 as [s|s1 s2 s3 H12 _ IH]; intros due a Hs Ha.
  { exists due, a. split_and!; [done..| |done]. apply lived_refl. }
  destruct (after_step _ _ _ _ _ _ Hs H12 Ha) as (due2 & b & Hb & H2 & Hm).
  destruct (IH _ _ H2 Hb) as (due3 & c & Hc & H3 & Hl & Hd). exists due3, c.
  destruct Hm as [[Hm ->]|(-> & -> & Ho)]; (split_and!; [done..| |done]); [by eapply lived_l|].
  right. split; [done|]. exists a, b. destruct Hl as [Hl|[? _]]; [|done]. split_and!; [constructor | done | done].
Qed.

Lemma before_run s s' : rtc (sys_step handler) s s' -> before s ->
  before s' \/ exists sku created due b, after sku created due s' /\ state_of s' = Some b /\
    lived True OrderState.Creating b.
Proof.
  intros Hr Hs. induction Hr as [s|s1 s2 s3 H12 H23 IH]; [by left|].
  destruct (before_step _ _ Hs H12) as [H2|(sku & created & H2 & Hc)]; [by apply IH|]. right.
  destruct (after_run _ _ _ _ H23 _ _ H2 Hc) as (due & b & Hb & H3 & Hl & _). exists sku, created, due, b.
  split_and!; [done..|]. destruct Hl as [Hl|[_ Hl]]; [by left | by right].
Qed.
End System.
