(* ===== verification/PaymentsSystem.v ===== *)
(** * The payments system: any number of handlers at once

    The functions the routes, the webhook and the sweep call, run in any
    interleaving; what EngineLifecycle shows of each is true of the whole. *)

From stdpp Require Import base numbers list gmap strings pretty.
From S2P Require Import Prelude Errors Program CipherMemberships CipherNumbers ProtLedger.
From S2P Require Import ProtStore PaymentOrders Catalog Settings StripeApi PaymentEvents.
From S2P Require Import PaymentsWorld EngineCore EngineProt EngineReverse Engine Dispatch.
From S2P Require Import EngineCalls EngineLifecycle OrderLife EngineRefunds EngineSample.
Open Scope Z_scope.

Inductive payment_handler `{!Env} (debug_error : ErrorType.t -> string) : prog World unit -> Prop :=
| h_cipher_checkout s u t r now :
    payment_handler debug_error (spawn (create_cipher_checkout s u t r now))
| h_prot_checkout s ps u c r now :
    payment_handler debug_error (spawn (create_prot_checkout s ps u c r now))
| h_fulfil s id ss now : payment_handler debug_error (spawn (fulfil_order s id ss now))
| h_resume s id now : payment_handler debug_error (spawn (resume_order s id now))
| h_reverse id k r now : payment_handler debug_error (spawn (reverse_order id k r now))
| h_reverse_dispute s id d now : payment_handler debug_error (spawn (reverse_dispute s id d now))
| h_recheck s id now : payment_handler debug_error (spawn (recheck_disputes s id now))
| h_mark_settling id now : payment_handler debug_error (spawn (mark_refund_settling id now))
| h_clear_settling id now : payment_handler debug_error (spawn (clear_refund_settling id now))
| h_finish_release id now : payment_handler debug_error (spawn (finish_number_release id now))
| h_expire id now : payment_handler debug_error (spawn (expire_order id now))
| h_deleted u now : payment_handler debug_error (spawn (on_account_deleted u now))
| h_event s e now : payment_handler debug_error (spawn (handle_event debug_error s e now))
| h_reconcile s now : payment_handler debug_error (spawn (reconcile debug_error s now))
| h_adjust a d r now : payment_handler debug_error (spawn (admin_prot_adjust a d r now))
| h_forfeit u now : payment_handler debug_error (spawn (forfeit_wallet_on_deletion u now)).

Section System.
Context {env : Env} (debug_error : ErrorType.t -> string).

(** When no order is followed *)
Lemma handler_safe sku0 created0 p : payment_handler debug_error p -> safe None sku0 created0 p.
Proof.
  intros Hp. destruct Hp; apply safe_bind; try done; auto with safe.
  - apply safe_handle_event.
  - apply safe_reconcile.
  - apply calls_safe, calls_admin_adjust.
  - apply calls_safe, calls_forfeit_wallet.
Qed.

(** When one is: a checkout may be the one that makes it *)
Lemma handler_ready id p : payment_handler debug_error p -> ready id p.
Proof.
  intros Hp. destruct Hp; first [left; apply fresh_spawn; first [apply fresh_cipher_checkout | apply fresh_prot_checkout]
                                |right; intros; apply safe_bind; [|done]]; auto with safe.
  - apply safe_handle_event.
  - apply safe_reconcile.
  - apply calls_safe, calls_admin_adjust.
  - apply calls_safe, calls_forfeit_wallet.
Qed.

(** The session a handler is called with *)
Definition called_with (p : prog World unit) (ss : CheckoutSession) : Prop :=
  exists s id now, p = spawn (fulfil_order s id ss now).

Lemma handler_fair p : payment_handler debug_error p -> fair (called_with p) (hist (fun _ => True)) p.
Proof.
  intros Hp. destruct Hp; apply fair_bind; try (intros; apply fair_ret).
  - by apply fair_cipher_checkout, _.
  - by apply fair_prot_checkout, _.
  - apply fair_fulfil; [apply _|]. intros h _. left. by exists s, id, now.
  - by apply fair_resume, _.
  - by apply fair_reverse, _.
  - by apply fair_reverse_dispute, _.
  - by apply fair_recheck, _.
  - by apply fair_mark_settling, _.
  - by apply fair_clear_settling, _.
  - by apply fair_finish_release, _.
  - by apply fair_expire, _.
  - by apply fair_deleted, _.
  - by apply fair_handle_event, _.
  - by apply fair_reconcile, _.
  - apply fair_quiet; [apply _ | apply calls_admin_adjust].
  - apply fair_quiet; [apply _ | apply calls_forfeit_wallet].
Qed.

End System.

(** ** Theorems *)

Section Theorems.
Context {env : Env} (debug_error : ErrorType.t -> string).

(** C7. However many checkouts, webhook deliveries, sweeps, reversals and account
    deletions run at once, in whatever order, and wherever any of them stops,
    every order stays stored under its id and well formed: its amount is the
    catalog price of its SKU in dollars, and it has what its state promises
    (a Pending order its session, URL and expiry, a Paid or Fulfilled one its
    payment and when it was paid, a Voided one its reason). *)
Theorem orders_stay_well_formed (w : World) (s' : Sys World) :
  orders_wf (w_orders w) ->
  rtc (sys_step (payment_handler debug_error)) (mkSys w []) s' ->
  orders_wf (w_orders (sys_world s')).
Proof.
  intros Hw Hs.
  destruct (guarded_steps (payment_handler debug_error) (Inv None (ProtExact 0) 0) (Guar None)
              (mkSys w []) s') as [[Hi _] _]; [intros; by apply (handler_safe debug_error) | split; [|constructor] | done|].
  - intros k row Hr. destruct (Hw k row Hr). by split_and!.
  - intros k row Hr. by destruct (Hi k row Hr) as [H1 [H2 _]].
Qed.

(** What an order sells, costs and when it was made *)
Definition order_terms (o : PaymentOrder) : Sku * Z * Z := (po_sku o, po_amount_cents o, po_created_at o).


End Theorems.

(** ** Witnesses and races *)

Definition sample_debug (e : ErrorType.t) : string := "error".

Definition sample_pending : World := sample_world [sample_order OrderState.Pending].

Lemma sample_pending_wf : orders_wf (w_orders sample_pending).
Proof.
  intros k row Hr. unfold sample_pending in Hr. simpl in Hr. apply lookup_insert_Some in Hr as [[<- <-]|[_ Hr]]; [|by rewrite lookup_empty in Hr].
  split; [done|]. split; simpl; try done; naive_solver.
Qed.

Definition sample_fulfil : Eff World FulfilOutcome.t :=
  fulfil_order sample_settings "01ORDER" sample_session 5000.

(** The world that fulfilment leaves *)
Definition sample_fulfilled : World :=
  match run sample_fulfil sample_pending with Some (_, w) => w | None => sample_pending end.

Lemma sample_fulfil_run :
  run sample_fulfil sample_pending = Some (Ok FulfilOutcome.Fulfilled, sample_fulfilled).
Proof. vm_compute. reflexivity. Qed.

Lemma sample_fulfil_steps :
  rtc (sys_step (payment_handler sample_debug)) (mkSys sample_pending [])
    (mkSys sample_fulfilled [Ret tt]).
Proof.
  eapply rtc_l; [apply (sys_start _ _ _ (spawn sample_fulfil)); constructor|].
  eapply sys_run, sample_fulfil_run.
Qed.

Lemma orders_stay_well_formed_witness :
  orders_wf (w_orders sample_pending) /\ orders_wf (w_orders sample_fulfilled).
Proof.
  split; [apply sample_pending_wf|].
  apply (orders_stay_well_formed sample_debug sample_pending (mkSys sample_fulfilled [Ret tt]));
    [apply sample_pending_wf | apply sample_fulfil_steps].
Defined.


(** The same payment from a country Cipher is not sold to *)
Definition blocked_session : CheckoutSession :=
  mkSession "cs_1" None (Some "complete"%string) (Some "paid"%string) (Some "pi_1"%string) (Some 9900)
    (Some "usd"%string) false (Some "01USER"%string) (Some "01ORDER"%string) None (Some "DE"%string).

Definition blocked_fulfil : prog World unit :=
  spawn (fulfil_order sample_settings "01ORDER" blocked_session 5000).

(** A release that was cut short: the membership of the refunded purchase is
    ended, and the upgrade it lists is not given back yet. *)
Definition released_order : PaymentOrder :=
  set_paid (Some "pi_1"%string) (Some 2000) (sample_order OrderState.Fulfilled).
Definition upgrade_order : PaymentOrder :=
  mkOrder "01UPGRADE" (Some "01USER"%string) Stripe (CipherUpgrade T99 T149) 5000 "usd"
    (Some "cs_2"%string) (Some "https://pay/2"%string) (Some 9000000) (Some "pi_2"%string)
    OrderState.Fulfilled None None None None [] None 1 3000 (Some 3000) (Some 3000) None.
Definition ended_membership : CipherMembership :=
  mkMembership "01USER" 1 T149 0 ["01ORDER"; "01UPGRADE"]%string [] 2000 (Some 4000) (Some Refund) None 3.
Definition releasing_world : World :=
  set_numbers
    (set_memberships (sample_world [released_order; upgrade_order]) {["01USER"%string := ended_membership]})
    {[1 := mkNumber 1 (Some "01ORDER"%string) (Some 4000)]}.

Definition finish_release : prog World unit := spawn (finish_number_release "01ORDER" 5000).

(** After [n] operations the next one asks for [refund], by the rules. *)
Definition asks_next (n : nat) (p : prog World unit) (w : World) (refund : string * string) : Prop :=
  match drive_seen n p [] w with
  | (Atom op _, h, w') =>
      w_refunds (op w').1 = [refund] /\ refund_rule (called_with p) h w' (op w').1
  | _ => False
  end.


(** ** Two races

    The handlers as the code composes them, with a schedule that shows what
    can happen between two of their operations. *)

(** A checkout and the deletion of the same account *)
Definition race_checkout : list (prog World unit) :=
  [spawn (create_cipher_checkout sample_settings "01USER" T99 Web 1000);
   spawn (on_account_deleted "01USER" 1000)].

Definition race_event : StripeEvent :=
  mkStripeEvent "evt_1" CHECKOUT_SESSION_COMPLETED false 5
    (Value.Object [("id"%string, Value.String "cs_1")]).

(** Two deliveries of one event *)
Definition race_deliveries : list (prog World unit) :=
  [spawn (handle_event sample_debug sample_settings race_event 5000);
   spawn (handle_event sample_debug sample_settings race_event 5000)].

Definition order_state_in (id : string) (s : Sys World) : option OrderState.t :=
  po_state <$> w_orders (sys_world s) !! id.

Definition event_state_in (id : string) (s : Sys World) : option PaymentEventState.t :=
  ev_state <$> w_events (sys_world s) !! id.

(** The account deletion voids the order a checkout has just stored, and the
    checkout then takes the lease that the void gave back and moves the
    Voided order to Pending, with a payable session: a new order's id is
    known to others before its first lease is taken. *)
Theorem checkout_reopens_a_voided_order :
  exists s1 s2,
    rtc (sys_step (payment_handler sample_debug)) (mkSys (sample_world []) []) s1 /\
    rtc (sys_step (payment_handler sample_debug)) s1 s2 /\
    order_state_in (sample_ulid 0) s1 = Some OrderState.Voided /\
    order_state_in (sample_ulid 0) s2 = Some OrderState.Pending.
Proof.
  apply (sys_sched_observe _ _ _ (mkSys (sample_world []) race_checkout)
           (replicate 6 0%nat ++ replicate 4 1%nat) (replicate 3 0%nat)).
  - apply two_start; constructor.
  - vm_compute. reflexivity.
  - vm_compute. reflexivity.
Qed.

(** Two deliveries of one event: the second finds the order's lease held,
    reads that the event is not settled, and marks it Failed after the first
    has settled it, so a settled event is back in the queue the sweep
    re-drives. *)
Theorem settled_event_back_to_failed :
  exists s1 s2,
    rtc (sys_step (payment_handler sample_debug)) (mkSys sample_pending []) s1 /\
    rtc (sys_step (payment_handler sample_debug)) s1 s2 /\
    event_state_in "evt_1" s1 = Some PaymentEventState.Processed /\
    event_state_in "evt_1" s2 = Some PaymentEventState.Failed.
Proof.
  apply (sys_sched_observe _ _ _ (mkSys sample_pending race_deliveries)
           (replicate 4 0%nat ++ replicate 7 1%nat ++ replicate 18 0%nat) [1%nat]).
  - apply two_start; constructor.
  - vm_compute. reflexivity.
  - vm_compute. reflexivity.
Qed.
