(* ===== verification/SeatLists.v ===== *)
(** * Seat lists (crates/core/database/src/models/protected_channels/model.rs)

    The texts the owner of a protected channel signs: the list of who has a
    seat, and the statement that hands the channel over.  Each has one
    canonical form, read by a strict parser; [commit_ad] is the encoding of a
    signed list that every commit of the channel's group is bound to.  The
    base64 decoder and SHA-256 are parameters. *)

From stdpp Require Import base numbers list strings pretty sorting.
From S2P Require Import Prelude Text Errors.
Open Scope Z_scope.

Definition MAX_SEAT_LIST_SEATS : nat := 100.
Definition MAX_SEAT_LIST_HANDOVERS : nat := 16.
Definition MAX_SEAT_LIST_BODY_LEN : nat := 4096.
Definition MAX_HANDOVER_BODY_LEN : nat := 1024.
Definition MAX_COMMIT_AD_LEN : Z := 16383.
Definition MAX_CANONICAL_INT : Z := 9007199254740991.
Definition CONTEXT_SEAT_LIST : string := "sloga-seat-list-v1".
Definition CONTEXT_HANDOVER : string := "sloga-owner-handover-v1".
Definition CONTEXT_COMMIT_AD : string := "sloga-text-commit-ad-v1".
Definition SIGNATURE_B64_LEN : nat := 86.
Definition IDENTITY_KEY_B64_LEN : nat := 43.

Record SignedHandover : Type := mkSignedHandover { ho_body : string; ho_signature : string }.

Record SeatList : Type := mkSeatList {
  sl_id : string;
  sl_version : Z;
  sl_body : string;
  sl_signer_user_id : string;
  sl_signer_device_id : string;
  sl_signature : string;
  sl_handovers : list SignedHandover;
  sl_updated_at : Z;
}.

Record SeatListBody : Type := mkBody {
  sb_channel_id : string;
  sb_version : Z;
  sb_device_cap : Z;
  sb_issued_at : Z;
  sb_signer_user_id : string;
  sb_signer_device_id : string;
  sb_seats : list string;
}.

Record HandoverBody : Type := mkHandover {
  hb_channel_id : string;
  hb_from_user_id : string;
  hb_from_device_id : string;
  hb_from_identity_key : string;
  hb_to_user_id : string;
  hb_to_device_id : string;
  hb_to_identity_key : string;
  hb_issued_at : Z;
}.

Definition invalid {A} (error : string) : Result A := Err (ErrorType.FailedValidation error).

(** ** Fields *)

(** Crockford base 32 without I, L, O and U *)
Definition ulid_byte (b : Ascii.ascii) : bool :=
  byte_between 48 57 b || byte_between 65 72 b || byte_between 74 75 b || byte_between 77 78 b
  || byte_between 80 84 b || byte_between 86 90 b.

Definition is_valid_ulid_id (value : string) : bool :=
  (String.length value =? 26)%nat && forallb ulid_byte (String.list_ascii_of_string value).

Definition is_valid_device_id_hex (value : string) : bool :=
  (String.length value =? 32)%nat
  && forallb (fun b => byte_between 48 57 b || byte_between 97 102 b)
       (String.list_ascii_of_string value).

Definition starts_with_zero (value : string) : bool :=
  match value with String c _ => (Ascii.nat_of_ascii c =? 48)%nat | EmptyString => false end.

Definition parse_canonical_decimal (value : string) : option Z :=
  if str_eqb value "" || negb (all_digits value) then None
  else if (1 <? String.length value)%nat && starts_with_zero value then None
  else match parse_digits 0 value with
       | Some n => if n <=? u64_max then Some n else None
       | None => None
       end.

(** [strip_prefix] *)
Definition strip_prefix (p s : string) : option string :=
  if starts_with p s then Some (drop_bytes (String.length p) s) else None.

Definition labeled (line label : string) : option string :=
  strip_prefix label line ≫= strip_prefix ":".

Definition field (error : string) (line label : string) : Result string :=
  ok_or (labeled line label) (ErrorType.FailedValidation error).

(** [body.split(..)] as one list *)
Definition split_list (sep : Ascii.ascii) (s : string) : list string :=
  (split_on sep s).1 :: (split_on sep s).2.

Definition cr : Ascii.ascii := Ascii.ascii_of_nat 13.

(** [seats.windows(2).all(|pair| pair[0] < pair[1])] *)
Fixpoint ascending (seats : list string) : bool :=
  match seats with
  | a :: rest => match rest with b :: _ => str_ltb a b | [] => true end && ascending rest
  | [] => true
  end.

(** ** The seat-list body *)

Definition check {A} (ok : bool) (error : string) (k : Result A) : Result A :=
  if ok then k else invalid error.

Definition seat_list_parse (body : string) : Result SeatListBody :=
  check (String.length body <=? MAX_SEAT_LIST_BODY_LEN)%nat "seat list body too long" (
  check (negb (contains_char cr body)) "seat list body contains CR" (
  match split_list newline body with
  | [l0; l1; l2; l3; l4; l5; l6; l7; l8] =>
      check (str_eqb l0 CONTEXT_SEAT_LIST && str_eqb l1 "v:1")
        "seat list context or format version" (
      let field := field "seat list label" in
      let? channel_id := field l2 "channel_id" in
      check (is_valid_ulid_id channel_id) "seat list channel_id" (
      let? version_text := field l3 "version" in
      let? version :=
        ok_or (match parse_canonical_decimal version_text with
               | Some v => if (1 <=? v) && (v <=? MAX_CANONICAL_INT) then Some v else None
               | None => None end) (ErrorType.FailedValidation "seat list version") in
      let? cap_text := field l4 "device_cap" in
      let? device_cap :=
        ok_or (match parse_canonical_decimal cap_text with
               | Some c => if c <=? u32_max then Some c else None
               | None => None end) (ErrorType.FailedValidation "seat list device_cap") in
      let? issued_text := field l5 "issued_at" in
      let? issued_at :=
        ok_or (match parse_canonical_decimal issued_text with
               | Some a => if a <=? MAX_CANONICAL_INT then Some a else None
               | None => None end) (ErrorType.FailedValidation "seat list issued_at") in
      let? signer_user_id := field l6 "signer_user_id" in
      check (is_valid_ulid_id signer_user_id) "seat list signer_user_id" (
      let? signer_device_id := field l7 "signer_device_id" in
      check (is_valid_device_id_hex signer_device_id) "seat list signer_device_id" (
      let? seats_line := field l8 "seats" in
      check (negb (str_eqb seats_line "")) "seat list has no seats" (
      let seats := split_list comma seats_line in
      check (length seats <=? MAX_SEAT_LIST_SEATS)%nat "seat list has too many seats" (
      check (forallb is_valid_ulid_id seats) "seat list seat id" (
      check (ascending seats) "seat list seats not sorted and unique" (
      check (existsb (fun seat => str_eqb seat signer_user_id) seats)
        "seat list signer is not seated" (
      Ok (mkBody channel_id version device_cap issued_at signer_user_id signer_device_id
            seats))))))))))
  | _ => invalid "seat list body must have exactly 9 lines"
  end)).

(** [[..].join(sep)] *)
Fixpoint join (sep : string) (parts : list string) : string :=
  match parts with
  | [] => ""
  | p :: rest => match rest with [] => p | _ => p +:+ sep +:+ join sep rest end
  end.

(** [Vec::dedup] *)
Fixpoint dedup (l : list string) : list string :=
  match l with
  | a :: rest => match rest with
                 | b :: _ => if str_eqb a b then dedup rest else a :: dedup rest
                 | [] => [a]
                 end
  | [] => []
  end.

Lemma elem_of_dedup l u : u ∈ dedup l <-> u ∈ l.
Proof.
  induction l as [|a [|b rest] IH]; [done..|]. cbn [dedup]. destruct (str_eqb a b) eqn:E.
  - apply str_eqb_eq in E as ->. rewrite IH, (elem_of_cons (b :: rest)), elem_of_cons. naive_solver.
  - rewrite elem_of_cons, IH, (elem_of_cons (b :: rest)). done.
Qed.

Definition nl : string := String newline "".

(** The text [build] formats *)
Definition seat_list_text (v : SeatListBody) : string :=
  join nl
    [CONTEXT_SEAT_LIST; "v:1"; "channel_id:" +:+ sb_channel_id v;
     "version:" +:+ pretty (sb_version v); "device_cap:" +:+ pretty (sb_device_cap v);
     "issued_at:" +:+ pretty (sb_issued_at v); "signer_user_id:" +:+ sb_signer_user_id v;
     "signer_device_id:" +:+ sb_signer_device_id v;
     "seats:" +:+ join "," (dedup (sort_by str_leb (sb_seats v)))].

Definition seat_list_build (v : SeatListBody) : Result string :=
  let body := seat_list_text v in
  let? _ := seat_list_parse body in Ok body.

(** ** Signed texts *)

Section Signed.
(** [STANDARD_NO_PAD.decode] and the SHA-256 digest, on bytes *)
Context (b64_decode : string -> option string) (sha256 : string -> string).

Definition is_valid_identity_key_b64 (value : string) : bool :=
  (String.length value =? IDENTITY_KEY_B64_LEN)%nat
  && match b64_decode value with
     | Some raw => (String.length raw =? 32)%nat | None => false end.

Definition handover_parse (body : string) : Result HandoverBody :=
  check (String.length body <=? MAX_HANDOVER_BODY_LEN)%nat "handover body too long" (
  check (negb (contains_char cr body)) "handover body contains CR" (
  match split_list newline body with
  | [l0; l1; l2; l3; l4; l5; l6; l7; l8; l9] =>
      check (str_eqb l0 CONTEXT_HANDOVER && str_eqb l1 "v:1")
        "handover context or format version" (
      let field := field "handover label" in
      let ulid line label :=
        let? value := field line label in
        check (is_valid_ulid_id value) "handover user or channel id" (Ok value) in
      let device line label :=
        let? value := field line label in
        check (is_valid_device_id_hex value) "handover device id" (Ok value) in
      let key line label :=
        let? value := field line label in
        check (is_valid_identity_key_b64 value) "handover identity key" (Ok value) in
      let? channel_id := ulid l2 "channel_id" in
      let? from_user_id := ulid l3 "from_user_id" in
      let? from_device_id := device l4 "from_device_id" in
      let? from_identity_key := key l5 "from_identity_key" in
      let? to_user_id := ulid l6 "to_user_id" in
      let? to_device_id := device l7 "to_device_id" in
      let? to_identity_key := key l8 "to_identity_key" in
      let? issued_text := field l9 "issued_at" in
      let? issued_at :=
        ok_or (match parse_canonical_decimal issued_text with
               | Some a => if a <=? MAX_CANONICAL_INT then Some a else None
               | None => None end) (ErrorType.FailedValidation "handover issued_at") in
      Ok (mkHandover channel_id from_user_id from_device_id from_identity_key to_user_id
            to_device_id to_identity_key issued_at))
  | _ => invalid "handover body must have exactly 10 lines"
  end)).

Definition decode_signature_b64 (signature : string) : Result string :=
  check (String.length signature =? SIGNATURE_B64_LEN)%nat "signature length" (
  match b64_decode signature with
  | None => invalid "signature encoding"
  | Some raw => check (String.length raw =? 64)%nat "signature length" (Ok raw)
  end).

(** [(n as u16).to_be_bytes()] *)
Definition u16_be (n : nat) : string :=
  String (Ascii.ascii_of_nat (n / 256)) (String (Ascii.ascii_of_nat (n mod 256)) "").

(** The bytes pushed; [u16::try_from] refuses the rest *)
Definition ad_field (bytes : string) : Result string :=
  check (Z.of_nat (String.length bytes) <=? 65535) "commit ad field too long"
    (Ok (u16_be (String.length bytes) +:+ bytes)).

Fixpoint ad_handovers (handovers : list SignedHandover) : Result string :=
  match handovers with
  | [] => Ok ""
  | h :: rest =>
      check (String.length (ho_body h) <=? MAX_HANDOVER_BODY_LEN)%nat "handover body too long" (
      let? body := ad_field (ho_body h) in
      let? raw := decode_signature_b64 (ho_signature h) in
      let? signature := ad_field raw in
      let? others := ad_handovers rest in
      Ok (body +:+ signature +:+ others))
  end.

Definition commit_ad (l : SeatList) : Result string :=
  check (String.length (sl_body l) <=? MAX_SEAT_LIST_BODY_LEN)%nat "seat list body too long" (
  check (length (sl_handovers l) <=? MAX_SEAT_LIST_HANDOVERS)%nat "handover chain too long" (
  let? context := ad_field CONTEXT_COMMIT_AD in
  let? body := ad_field (sl_body l) in
  let? raw := decode_signature_b64 (sl_signature l) in
  let? signature := ad_field raw in
  let? handovers := ad_handovers (sl_handovers l) in
  let out := context +:+ body +:+ signature +:+ u16_be (length (sl_handovers l)) +:+ handovers in
  check (Z.of_nat (String.length out) <=? MAX_COMMIT_AD_LEN) "commit ad too long" (Ok out))).

Definition commit_ad_sha256 (l : SeatList) : Result string :=
  let? ad := commit_ad l in Ok (to_lower_hex (sha256 ad)).
End Signed.

(** ** Facts *)

Lemma foldl_join sep first rest :
  foldl (fun acc part => acc +:+ String sep part) first rest
  = join (String sep "") (first :: rest).
Proof.
  revert first. induction rest as [|p rest IH]; intros first; [done|]. cbn [foldl].
  rewrite IH. destruct rest as [|q rest].
  - done.
  - cbn [join]. rewrite <- !str_app_assoc. done.
Qed.

Lemma join_split sep s : join (String sep "") (split_list sep s) = s.
Proof. unfold split_list. rewrite <- foldl_join. symmetry. apply split_on_join. Qed.

Lemma drop_app p s : drop_bytes (String.length p) (p +:+ s) = s.
Proof. induction p as [|c p IH]; [by destruct s|]. rewrite str_cons_app. exact IH. Qed.

Lemma strip_prefix_Some p s t : strip_prefix p s = Some t <-> s = p +:+ t.
Proof.
  unfold strip_prefix. split.
  - destruct (starts_with p s) eqn:E; [|done]. intros [= <-]. revert s E.
    induction p as [|c p IH]; intros s E; [by destruct s|]. destruct s as [|d s]; [done|].
    pose proof (starts_with_head _ _ _ _ E) as ->. rewrite str_cons_app. cbn [drop_bytes String.length].
    f_equal. apply IH. revert E. unfold starts_with. cbn. by destruct (Ascii.ascii_dec d d).
  - intros ->. by rewrite starts_with_self, drop_app.
Qed.

Lemma field_ok error line label value :
  field error line label = Ok value -> line = label +:+ ":" +:+ value.
Proof.
  unfold field, labeled. destruct (strip_prefix label line) as [rest|] eqn:E; [|done]. cbn.
  destruct (strip_prefix ":" rest) as [v|] eqn:E2; [|done]. cbn. intros [= <-].
  apply strip_prefix_Some in E as ->. by apply strip_prefix_Some in E2 as ->.
Qed.

Lemma labeled_app line label value : line = label +:+ ":" +:+ value -> labeled line label = Some value.
Proof.
  intros ->. unfold labeled.
  rewrite (proj2 (strip_prefix_Some label (label +:+ ":" +:+ value) (":" +:+ value)) eq_refl). cbn.
  by apply strip_prefix_Some.
Qed.

(** A decimal that was accepted is the one that would be printed. *)
Lemma canonical_pretty text z : parse_canonical_decimal text = Some z -> pretty z = text /\ 0 <= z <= u64_max.
Proof.
  unfold parse_canonical_decimal. destruct (str_eqb text "") eqn:E0; [done|].
  destruct (all_digits text) eqn:Ed; [|done]. cbn [orb negb].
  destruct ((1 <? String.length text)%nat && starts_with_zero text) eqn:Ez; [done|].
  destruct (parse_digits 0 text) as [n|] eqn:Ep; [|done].
  destruct (n <=? u64_max) eqn:En; [|done]. intros [= <-]. apply Z.leb_le in En.
  destruct text as [|c text]; [done|].
  destruct (decide (digit_value c = Some 0)) as [E|E].
  - apply andb_false_iff in Ez. pose proof (digit_value_char _ _ E) as [_ ->].
    destruct Ez as [Ez|Ez]; [|done]. destruct text; [|done]. cbn in Ep. injection Ep as <-. by split.
  - pose proof (pretty_parsed _ _ _ E Ep) as Hp. split; [done|]. split; [|done].
    destruct (Z.le_gt_cases 0 n) as [|Hn]; [done|]. exfalso.
    destruct n as [|p|p]; [lia|lia|]. change (pretty (Z.neg p)) with ("-" +:+ pretty (Z.pos p)) in Hp.
    injection Hp as <- _. by cbn in Ed.
Qed.

Lemma parse_canonical_pretty z : 0 <= z <= u64_max -> parse_canonical_decimal (pretty z) = Some z.
Proof.
  intros Hz. unfold parse_canonical_decimal.
  rewrite (proj2 (str_eqb_neq _ _) (pretty_not_empty z ltac:(lia))), all_digits_pretty by lia.
  cbn [orb negb]. rewrite parse_digits_pretty by lia.
  assert (((1 <? String.length (pretty z))%nat && starts_with_zero (pretty z)) = false) as ->;
    [|by replace (z <=? u64_max) with true by lia].
  destruct (decide (z = 0)) as [->|Hne]; [done|]. apply andb_false_iff. right.
  destruct (pretty_head z ltac:(lia)) as (n & t & Hn & ->). cbn [starts_with_zero].
  apply Nat.eqb_neq. intros E.
  assert (digit_value (pretty_N_char n) = Some (Z.of_N n)) as Hd by (apply digit_value_pretty; lia).
  unfold digit_value in Hd. rewrite E in Hd. injection Hd. lia.
Qed.

(** *** Joined lines *)

Lemma join_cons2 sep p q rest : join sep (p :: q :: rest) = p +:+ sep +:+ join sep (q :: rest).
Proof. done. Qed.

Lemma split_list_app sep u v :
  contains_char sep u = false -> split_list sep (u +:+ String sep v) = u :: split_list sep v.
Proof. intros Hu. unfold split_list. by rewrite split_on_app. Qed.

Lemma split_join sep p rest :
  Forall (fun x => contains_char sep x = false) (p :: rest) ->
  split_list sep (join (String sep "") (p :: rest)) = p :: rest.
Proof.
  revert p. induction rest as [|q rest IH]; intros p H; inversion H; subst.
  - unfold split_list. cbn [join]. by rewrite split_on_none.
  - rewrite join_cons2. change (String sep "" +:+ join (String sep "") (q :: rest))
      with (String sep (join (String sep "") (q :: rest))).
    rewrite split_list_app by done. f_equal. by apply IH.
Qed.

Lemma join_no c sep parts :
  contains_char c sep = false -> Forall (fun x => contains_char c x = false) parts ->
  contains_char c (join sep parts) = false.
Proof.
  intros Hs H. induction H as [|p parts Hp H IH]; [done|]. destruct parts as [|q parts]; [done|].
  rewrite join_cons2, !contains_char_app, Hp, Hs. done.
Qed.

Lemma forallb_no (f : Ascii.ascii -> bool) c s :
  f c = false -> forallb f (String.list_ascii_of_string s) = true -> contains_char c s = false.
Proof.
  intros Hc. induction s as [|d s IH]; [done|]. cbn. intros [Hd Hs]%andb_true_iff.
  rewrite (IH Hs), orb_false_r. apply Ascii.eqb_neq. congruence.
Qed.

Lemma ulid_no c v : ulid_byte c = false -> is_valid_ulid_id v = true -> contains_char c v = false.
Proof. intros Hc [_ H]%andb_true_iff. by eapply forallb_no. Qed.

Lemma device_no c v :
  byte_between 48 57 c || byte_between 97 102 c = false -> is_valid_device_id_hex v = true ->
  contains_char c v = false.
Proof.
  intros Hc [_ H]%andb_true_iff. revert H. by apply (forallb_no
    (fun b => byte_between 48 57 b || byte_between 97 102 b)).
Qed.

Lemma join_length sep n parts :
  Forall (fun x => (String.length x <= n)%nat) parts ->
  (String.length (join sep parts) <= length parts * (n + String.length sep))%nat.
Proof.
  intros H. induction H as [|p parts Hp H IH]; [done|]. destruct parts as [|q parts].
  - cbn. lia.
  - rewrite join_cons2, !str_app_length. cbn [length] in *. lia.
Qed.

(** *** Sorted seats *)

Lemma ascending_sorted seats : ascending seats = true -> StronglySorted (fun a b => str_ltb a b = true) seats.
Proof.
  intros H. apply Sorted_StronglySorted; [intros a b c; apply str_ltb_trans|].
  induction seats as [|a [|b rest] IH]; [constructor | by repeat constructor|].
  cbn [ascending] in H. apply andb_true_iff in H as [Hab H]. constructor; [by apply IH|by constructor].
Qed.

Lemma ascending_normal seats : ascending seats = true -> dedup (sort_by str_leb seats) = seats.
Proof.
  intros H. pose proof (ascending_sorted _ H) as Hs. assert (sort_by str_leb seats = seats) as ->.
  { clear H. induction Hs as [|a rest Hs IH Ha]; [done|]. cbn. fold (sort_by str_leb rest).
    rewrite IH. destruct rest as [|b rest]; [done|]. cbn. inversion Ha; subst.
    by rewrite str_ltb_leb. }
  clear Hs. induction seats as [|a [|b rest] IH]; [done..|]. cbn [dedup ascending] in *.
  apply andb_true_iff in H as [Hab H]. destruct (str_eqb a b) eqn:E.
  - apply str_eqb_eq in E as ->. by rewrite str_ltb_irrefl in Hab.
  - f_equal. by apply IH.
Qed.

(** *** Which texts are accepted *)

Record valid_body (v : SeatListBody) : Prop := {
  vb_channel : is_valid_ulid_id (sb_channel_id v) = true;
  vb_version : 1 <= sb_version v <= MAX_CANONICAL_INT;
  vb_device_cap : 0 <= sb_device_cap v <= u32_max;
  vb_issued : 0 <= sb_issued_at v <= MAX_CANONICAL_INT;
  vb_signer : is_valid_ulid_id (sb_signer_user_id v) = true;
  vb_device : is_valid_device_id_hex (sb_signer_device_id v) = true;
  vb_size : (length (sb_seats v) <= MAX_SEAT_LIST_SEATS)%nat;
  vb_seats : Forall (fun seat => is_valid_ulid_id seat = true) (sb_seats v);
  vb_ascending : ascending (sb_seats v) = true;
  vb_signer_seated : sb_signer_user_id v ∈ sb_seats v;
}.

Lemma check_ok {A} b e (k : Result A) a : check b e k = Ok a -> b = true /\ k = Ok a.
Proof. unfold check. by destruct b. Qed.

Lemma ok_inj {E A} (a b : A) : @Ok E A a = Ok b -> a = b.
Proof. by intros [= ->]. Qed.

Lemma ok_or_ok {E A} (o : option A) (e : E) a : ok_or o e = Ok a -> o = Some a.
Proof. by destruct o; intros [= ->]. Qed.

(** One step of a parser that answered [Ok] *)
Ltac parse_step H :=
  match type of H with
  | check _ _ _ = Ok _ => apply check_ok in H as [? H]
  | match ?c with Ok _ => _ | Err _ => _ end = Ok _ =>
      let E := fresh "E" in destruct c eqn:E; [|discriminate H]
  end.

Lemma decimal_field text (ok : Z -> bool) z :
  match parse_canonical_decimal text with
  | Some v => if ok v then Some v else None | None => None end = Some z ->
  pretty z = text /\ ok z = true /\ 0 <= z <= u64_max.
Proof.
  destruct (parse_canonical_decimal text) as [v|] eqn:E; [|done].
  apply canonical_pretty in E as [<- Hr]. destruct (ok v) eqn:Eo; [|done]. intros [= <-]. done.
Qed.

Lemma seat_list_parse_ok body v :
  seat_list_parse body = Ok v -> valid_body v /\ body = seat_list_text v.
Proof.
  unfold seat_list_parse. intros H. do 2 parse_step H. rewrite <- (join_split newline body).
  destruct (split_list newline body)
    as [|l0 [|l1 [|l2 [|l3 [|l4 [|l5 [|l6 [|l7 [|l8 [|]]]]]]]]]]; try discriminate H.
  repeat parse_step H. injection H as <-.
  repeat match goal with
         | E : field _ _ _ = Ok _ |- _ => apply field_ok in E; subst
         | E : ok_or _ _ = Ok _ |- _ =>
             apply ok_or_ok, decimal_field in E as (<- & E & ?)
         | E : _ && _ = true |- _ => apply andb_true_iff in E as [? E]
         end.
  to_prop. subst. unfold seat_list_text. cbn [sb_channel_id sb_version sb_device_cap sb_issued_at
    sb_signer_user_id sb_signer_device_id sb_seats].
  split.
  - split; cbn; try done; try lia; [by apply Nat.leb_le| |].
    + apply Forall_forall. intros x Hx. rewrite forallb_forall in H8. by apply H8, list_elem_of_In.
    + apply existsb_exists in H10 as (x & Hx & ->%str_eqb_eq). by apply list_elem_of_In.
  - rewrite ascending_normal, (join_split comma) by done. done.
Qed.

(** The lines of a valid list, and that no field breaks one *)
Definition seat_list_fields (v : SeatListBody) : list string :=
  [CONTEXT_SEAT_LIST; "v:1"; "channel_id" +:+ ":" +:+ sb_channel_id v;
   "version" +:+ ":" +:+ pretty (sb_version v); "device_cap" +:+ ":" +:+ pretty (sb_device_cap v);
   "issued_at" +:+ ":" +:+ pretty (sb_issued_at v);
   "signer_user_id" +:+ ":" +:+ sb_signer_user_id v;
   "signer_device_id" +:+ ":" +:+ sb_signer_device_id v;
   "seats" +:+ ":" +:+ join "," (sb_seats v)].

Lemma seat_list_text_fields v : valid_body v -> seat_list_text v = join nl (seat_list_fields v).
Proof. intros [_ _ _ _ _ _ _ _ Ha _]. unfold seat_list_text. by rewrite ascending_normal. Qed.

Lemma fields_no c v :
  c = newline \/ c = cr -> valid_body v ->
  Forall (fun x => contains_char c x = false) (seat_list_fields v).
Proof.
  intros Hnl [Hc Hv Hd Hi Hs Hdev _ Hseats _ _].
  assert (ulid_byte c = false /\ not_digit c = true
          /\ byte_between 48 57 c || byte_between 97 102 c = false) as (H1 & H2 & H3)
    by by destruct Hnl as [->| ->].
  assert (Forall (fun x => contains_char c x = false) (sb_seats v)) as Hseats'.
  { eapply Forall_impl; [exact Hseats|]. intros x Hx. by apply ulid_no. }
  repeat (apply Forall_cons; split); try apply Forall_nil_2;
    rewrite ?contains_char_app, ?(ulid_no c _ H1 Hc), ?(ulid_no c _ H1 Hs),
      ?(device_no c _ H3 Hdev), ?(pretty_Z_contains c _ H2), ?(join_no c "," (sb_seats v));
    try done; by destruct Hnl as [->| ->].
Qed.

Lemma fields_length v :
  valid_body v -> (String.length (join nl (seat_list_fields v)) <= MAX_SEAT_LIST_BODY_LEN)%nat.
Proof.
  intros [Hc Hv Hd Hi Hs Hdev Hn Hseats _ _].
  assert (forall x, is_valid_ulid_id x = true -> String.length x = 26%nat) as Hu.
  { intros x [E _]%andb_true_iff. by apply Nat.eqb_eq in E. }
  pose proof (Hu _ Hc). pose proof (Hu _ Hs).
  assert (String.length (sb_signer_device_id v) = 32%nat)
    by (apply andb_true_iff in Hdev as [E _]; by apply Nat.eqb_eq in E).
  pose proof (pretty_length 16 (sb_version v) ltac:(lia) ltac:(unfold MAX_CANONICAL_INT in *; lia) ltac:(lia)).
  pose proof (pretty_length 10 (sb_device_cap v) ltac:(lia) ltac:(unfold u32_max in *; lia) ltac:(lia)).
  pose proof (pretty_length 16 (sb_issued_at v) ltac:(lia) ltac:(unfold MAX_CANONICAL_INT in *; lia) ltac:(lia)).
  pose proof (join_length "," 26 (sb_seats v)) as Hj.
  assert (String.length (join "," (sb_seats v)) <= length (sb_seats v) * (26 + 1))%nat as Hj'.
  { apply Hj. eapply Forall_impl; [exact Hseats|]. intros x Hx. rewrite (Hu x Hx). done. }
  unfold MAX_SEAT_LIST_SEATS, MAX_SEAT_LIST_BODY_LEN in *.
  unfold seat_list_fields. cbn [join]. rewrite !str_app_length. cbn -[Nat.le Nat.mul]. lia.
Qed.

Lemma decimal_field_pretty (ok : Z -> bool) z :
  ok z = true -> 0 <= z <= u64_max ->
  match parse_canonical_decimal (pretty z) with
  | Some v => if ok v then Some v else None | None => None end = Some z.
Proof. intros Ho Hz. by rewrite parse_canonical_pretty, Ho. Qed.

Lemma field_labeled error label value : field error (label +:+ ":" +:+ value) label = Ok value.
Proof. unfold field. by rewrite (labeled_app _ label value eq_refl). Qed.

Lemma seat_list_parse_text v : valid_body v -> seat_list_parse (seat_list_text v) = Ok v.
Proof.
  intros Hvb. pose proof (fields_length v Hvb) as Hlen. rewrite seat_list_text_fields by done.
  unfold seat_list_parse. rewrite (proj2 (Nat.leb_le _ _) Hlen). cbn [check].
  rewrite (join_no cr nl) by (done || by apply fields_no; [right|]). cbn [check negb].
  pose proof (fields_no newline v (or_introl eq_refl) Hvb) as Hnl.
  unfold seat_list_fields, nl in *. rewrite split_join by exact Hnl.
  destruct Hvb as [Hc Hv Hd Hi Hs Hdev Hn Hseats Ha Hin].
  cbn [check str_eqb]. rewrite !str_eqb_refl. cbn [check andb].
  rewrite !field_labeled, Hc. cbn [check].
  rewrite (decimal_field_pretty (fun v => (1 <=? v) && (v <=? MAX_CANONICAL_INT)) (sb_version v))
    by (unfold MAX_CANONICAL_INT, u64_max in *; try apply andb_true_iff; lia).
  cbn [ok_or].
  rewrite (decimal_field_pretty (fun v => v <=? u32_max) (sb_device_cap v))
    by (unfold u32_max, u64_max in *; lia). cbn [ok_or].
  rewrite (decimal_field_pretty (fun v => v <=? MAX_CANONICAL_INT) (sb_issued_at v))
    by (unfold MAX_CANONICAL_INT, u64_max in *; lia). cbn [ok_or].
  rewrite Hs, Hdev. cbn [check].
  destruct (sb_seats v) as [|first rest] eqn:Eseats; [by apply elem_of_nil in Hin|].
  assert (Forall (fun x => contains_char comma x = false) (first :: rest)) as Hcomma.
  { eapply Forall_impl; [exact Hseats|]. intros x Hx. by apply ulid_no. }
  rewrite (proj2 (str_eqb_neq _ "")). 2:{
    inversion Hseats; subst. destruct first as [|c first]; [done|]. by destruct rest. }
  cbn [check negb].
  change (join "," (first :: rest)) with (join (String comma "") (first :: rest)).
  rewrite (split_join comma first rest Hcomma).
  rewrite (proj2 (Nat.leb_le _ _) Hn). cbn [check].
  assert (forallb is_valid_ulid_id (first :: rest) = true) as ->.
  { apply forallb_forall. intros x Hx. rewrite Forall_forall in Hseats. by apply Hseats, list_elem_of_In. }
  rewrite Ha. cbn [check].
  assert (existsb (fun seat => str_eqb seat (sb_signer_user_id v)) (first :: rest) = true) as ->.
  { apply existsb_exists. exists (sb_signer_user_id v). split; [by apply list_elem_of_In|].
    apply str_eqb_refl. }
  cbn [check]. rewrite <- Eseats. by destruct v.
Qed.

(** ** Theorems *)

(** C12. The parser accepts exactly the canonical texts of valid lists.  A valid
    list can be built and is read back as it is; and what is read from a text
    is rebuilt into that same text, so that one list has one text, and two
    devices that agree on what was signed agree on the list. *)
Theorem seat_list_text_canonical :
  (forall v, valid_body v ->
     exists body, seat_list_build v = Ok body /\ seat_list_parse body = Ok v)
  /\ (forall body v, seat_list_parse body = Ok v -> valid_body v /\ seat_list_build v = Ok body).
Proof.
  split.
  - intros v Hv. exists (seat_list_text v). unfold seat_list_build.
    by rewrite (seat_list_parse_text v Hv).
  - intros body v H. pose proof (seat_list_parse_ok _ _ H) as [Hv ->]. split; [done|].
    unfold seat_list_build. by rewrite H.
Qed.

(** *** The encoding commits are bound to *)

Lemma app_inj_len (a b x y : string) :
  String.length a = String.length b -> a +:+ x = b +:+ y -> a = b /\ x = y.
Proof.
  revert b. induction a as [|c a IH]; intros [|d b] Hl E; try done.
  rewrite !str_cons_app in E. injection E as -> E. injection Hl as Hl.
  destruct (IH b Hl E) as [-> ->]. done.
Qed.

Lemma u16_be_inj m n :
  Z.of_nat m <= 65535 -> Z.of_nat n <= 65535 -> u16_be m = u16_be n -> m = n.
Proof.
  intros Hm Hn E. unfold u16_be in E. remember (m / 256)%nat as a eqn:Ea.
  remember (n / 256)%nat as b eqn:Eb. remember (m mod 256)%nat as r eqn:Er.
  remember (n mod 256)%nat as q eqn:Eq. injection E as E1 E2.
  apply (f_equal Ascii.nat_of_ascii) in E1, E2.
  assert (a < 256 /\ b < 256)%nat by (subst; split; apply Nat.Div0.div_lt_upper_bound; lia).
  assert (r < 256 /\ q < 256)%nat by (subst; split; apply Nat.mod_upper_bound; lia).
  rewrite !Ascii.nat_ascii_embedding in E1, E2 by lia.
  rewrite (Nat.div_mod_eq m 256), (Nat.div_mod_eq n 256). congruence.
Qed.

Lemma ad_field_inj a b fa fb x y :
  ad_field a = Ok fa -> ad_field b = Ok fb -> fa +:+ x = fb +:+ y -> a = b /\ x = y.
Proof.
  unfold ad_field. intros [Ha Hfa]%check_ok [Hb Hfb]%check_ok. apply Z.leb_le in Ha, Hb.
  assert (fa = u16_be (String.length a) +:+ a) as -> by congruence.
  assert (fb = u16_be (String.length b) +:+ b) as -> by congruence.
  rewrite <- !str_app_assoc. intros E. apply app_inj_len in E as [E1 E2]; [|done].
  apply u16_be_inj in E1; [|done..]. by apply app_inj_len in E2.
Qed.

Section Binding.
Context (b64_decode : string -> option string).
Abbreviation raw := (decode_signature_b64 b64_decode).

(** Two handovers that say the same under the same signature *)
Definition same_handover (a b : SignedHandover) : Prop :=
  ho_body a = ho_body b /\ raw (ho_signature a) = raw (ho_signature b).

Lemma ad_handovers_inj h1 : forall h2 a x y b,
  length h1 = length h2 -> ad_handovers b64_decode h1 = Ok a -> ad_handovers b64_decode h2 = Ok b ->
  a +:+ x = b +:+ y -> Forall2 same_handover h1 h2 /\ x = y.
Proof.
  induction h1 as [|g h1 IH]; intros [|h h2] a x y b Hl; cbn [ad_handovers]; try done.
  { intros [= <-] [= <-] E. split; [constructor|done]. }
  intros Ha Hb E. repeat parse_step Ha. repeat parse_step Hb. injection Ha as <-. injection Hb as <-.
  rewrite <- !str_app_assoc in E.
  repeat match goal with
         | H1 : ad_field ?p = Ok ?f, H2 : ad_field ?q = Ok ?g, H : ?f +:+ _ = ?g +:+ _ |- _ =>
             destruct (ad_field_inj _ _ _ _ _ _ H1 H2 H) as [? ?]; clear H
         end.
  injection Hl as Hl. destruct (IH h2 a3 x y a7 Hl eq_refl E7 ltac:(done)) as [Hf ->].
  split; [|done]. constructor; [|done]. split; [done|]. rewrite E1, E5. congruence.
Qed.

(** What a commit is bound to determines the signed list: if the encodings of
    two stored lists are the same, so are the texts that were signed, the
    signatures (as the bytes they stand for), and the chain of handovers.  So
    nobody can present one list for another that was committed to. *)
Theorem commit_ad_binds_the_list (l1 l2 : SeatList) (ad : string) :
  commit_ad b64_decode l1 = Ok ad -> commit_ad b64_decode l2 = Ok ad ->
  sl_body l1 = sl_body l2 /\ raw (sl_signature l1) = raw (sl_signature l2)
  /\ Forall2 same_handover (sl_handovers l1) (sl_handovers l2).
Proof.
  unfold commit_ad. intros H1 H2. repeat parse_step H1. repeat parse_step H2.
  pose proof (ok_inj _ _ (eq_trans H1 (eq_sym H2))) as E'.
  clear H1 H2. apply str_app_inj_l in E'.
  destruct (ad_field_inj _ _ _ _ _ _ E0 E4 E') as [Hb E''].
  destruct (ad_field_inj _ _ _ _ _ _ E2 E6 E'') as [-> En].
  apply app_inj_len in En as [En Eh]; [|done]. apply Nat.leb_le in H0, H5.
  unfold MAX_SEAT_LIST_HANDOVERS in H0, H5. apply u16_be_inj in En; [|lia..].
  split; [done|]. split; [done|].
  apply (ad_handovers_inj _ _ _ "" "" _ En E3 E7). by rewrite !str_app_nil.
Qed.
End Binding.

(** Two lists stored at different times, under texts of one signature that
    differ only in the bits the decoder drops *)
Lemma commit_ad_binds_the_list_witness :
  let decode s := Some (take_bytes 64 s) in
  let sign c := String.string_of_list_ascii (repeat (Ascii.ascii_of_nat 65) 85 ++ [c]) in
  let l1 := mkSeatList "c" 1 "body" "u" "d" (sign (Ascii.ascii_of_nat 65)) [] 0 in
  let l2 := mkSeatList "c" 1 "body" "u" "d" (sign (Ascii.ascii_of_nat 66)) [] 7 in
  commit_ad decode l1 = commit_ad decode l2
  /\ decode_signature_b64 decode (sl_signature l1) = decode_signature_b64 decode (sl_signature l2).
Proof.
  intros decode sign l1 l2. split; [vm_compute; reflexivity|].
  edestruct (commit_ad_binds_the_list decode l1 l2) as (_ & H & _);
    [vm_compute; reflexivity|vm_compute; reflexivity|exact H].
Defined.
