(* ===== verification/Boosts.v ===== *)
(** * Server boosts
      (crates/core/database/src/models/server_boosts, crates/core/config/src/lib.rs,
       crates/delta/src/routes/servers/boost_*.rs, routes/users/boost_*.rs and fetch_user_boosts.rs,
       crates/delta/src/util/boosts.rs, crates/daemons/crond/src/tasks/prune_expired_boosts.rs)

    A slot is owned by a user and may be applied to a server, whose document
    keeps the number of its slots and the tier that number reaches.  Slots
    and counts are written by separate operations: after a change the server
    is counted again, and an hourly pass counts every server that has slots
    or a stored count.  Handlers are [prog]s over the slots, the servers and
    the members.  A handler is given one reading of the clock. *)

From stdpp Require Import base numbers list gmap strings sorting.
From S2P Require Import Prelude Text Errors Program Permissions Store SeatLists.
Open Scope Z_scope.
Open Scope sloga_scope.

Module BoostSource.
Inductive t : Type := AdminGrant | Purchase | Subscription.
End BoostSource.

Record ServerBoost : Type := mkBoost {
  bo_id : string;
  bo_user_id : string;
  bo_server_id : option string;
  bo_source : BoostSource.t;
  bo_expires_at : option Z;
  bo_allocated_at : option Z;
}.

(** The fields of a server read and written here *)
Record BoostedServer : Type := mkBoosted {
  sv_id : string;
  sv_boost_count : option Z;
  sv_boost_tier : option Z;
}.

Record World : Type := mkWorld {
  w_users : gmap string User;
  w_members : gset (string * string);            (* server, user *)
  w_servers : gmap string BoostedServer;
  w_boosts : gmap string ServerBoost;
}.

Definition set_boosts (w : World) (boosts : gmap string ServerBoost) : World :=
  mkWorld (w_users w) (w_members w) (w_servers w) boosts.
Definition set_servers (w : World) (servers : gmap string BoostedServer) : World :=
  mkWorld (w_users w) (w_members w) servers (w_boosts w).

(** ** Configuration *)

Record BoostTierPerks : Type := mkPerks {
  bp_server_emoji : option Z;
  bp_server_sounds : option Z;
}.

Record BoostFeatures : Type := mkFeatures {
  bf_enabled : bool;
  bf_tier_thresholds : list Z;                   (* three of them *)
  bf_max_per_user_per_server : Z;
  bf_tier1 : BoostTierPerks;
  bf_tier2 : BoostTierPerks;
  bf_tier3 : BoostTierPerks;
}.

Definition default_tier_thresholds : list Z := [2; 7; 14].

Definition tier_for (f : BoostFeatures) (count : Z) : Z :=
  (foldl (fun '(index, tier) threshold =>
            (index + 1, if threshold <=? count then index + 1 else tier)) (0, 0) (bf_tier_thresholds f)).2.

Definition next_tier_at (f : BoostFeatures) (tier : Z) : option Z := bf_tier_thresholds f !! Z.to_nat tier.

Definition perks_up_to (f : BoostFeatures) (tier : Z) : list BoostTierPerks :=
  take (Z.to_nat (Z.min tier 3)) [bf_tier1 f; bf_tier2 f; bf_tier3 f].

Definition effective_server_emoji (f : BoostFeatures) (global tier : Z) : Z :=
  if negb (bf_enabled f) then global else foldl Z.max global (omap bp_server_emoji (perks_up_to f tier)).

Definition effective_server_sounds (f : BoostFeatures) (global tier : Z) : Z :=
  if negb (bf_enabled f) then global else foldl Z.max global (omap bp_server_sounds (perks_up_to f tier)).

(** [as u32], [as i32] *)
Definition two32 : Z := 4294967296.
Definition as_u32 (z : Z) : Z := z mod two32.
Definition as_i32 (z : Z) : Z := let u := as_u32 z in if u <? 2147483648 then u else u - two32.

(** ** Slots *)

Definition is_expired (b : ServerBoost) (now_ms : Z) : bool :=
  match bo_expires_at b with Some at_ => at_ <=? now_ms | None => false end.

Definition is_unexpired (b : ServerBoost) (now_ms : Z) : bool := negb (is_expired b now_ms).

Definition applied_to (b : ServerBoost) (server_id : string) : bool := is_some_str (bo_server_id b) server_id.

Definition is_free (b : ServerBoost) : bool := match bo_server_id b with Some _ => false | None => true end.

Definition applied (server_id : string) (now_ms : Z) (b : ServerBoost) : ServerBoost :=
  mkBoost (bo_id b) (bo_user_id b) (Some server_id) (bo_source b) (bo_expires_at b) (Some now_ms).

Definition freed (b : ServerBoost) : ServerBoost :=
  mkBoost (bo_id b) (bo_user_id b) None (bo_source b) (bo_expires_at b) None.

(** [for id in ids { if let Some(boost) = boosts.get_mut(&id) { .. } }] *)
Definition update_all (f : ServerBoost -> ServerBoost) (ids : list string) (boosts : gmap string ServerBoost)
    : gmap string ServerBoost :=
  foldl (fun boosts id => alter f id boosts) boosts ids.

Section Boosts.
Context `{!HashIter string ServerBoost, !HashIter string BoostedServer}.
Context `{!HashIter string (Z * Z), !HashIter string Z, !HashIter string unit}.

(** ** The collection *)

Definition insert_server_boost (boost : ServerBoost) (w : World) : World * Result unit :=
  match w_boosts w !! bo_id boost with
  | Some _ => (w, Err (create_database_error "insert" "server_boost"))
  | None => (set_boosts w (<[bo_id boost := boost]> (w_boosts w)), Ok tt)
  end.

Definition fetch_server_boost (id : string) (w : World) : World * Result ServerBoost :=
  (w, ok_or (w_boosts w !! id) ErrorType.NotFound).

Definition fetch_server_boosts_by_user (user_id : string) (w : World) : World * Result (list ServerBoost) :=
  (w, Ok (List.filter (fun b => str_eqb (bo_user_id b) user_id) (hm_values (w_boosts w)))).

Definition fetch_server_boosts_by_server (server_id : string) (w : World) : World * Result (list ServerBoost) :=
  (w, Ok (List.filter (fun b => applied_to b server_id) (hm_values (w_boosts w)))).

Definition count_server_boosts_by_server (server_id : string) (now_ms : Z) (w : World) : World * Result Z :=
  (w, Ok (Z.of_nat (length (List.filter (fun b => applied_to b server_id && is_unexpired b now_ms)
                              (hm_values (w_boosts w)))))).

(** A slot its owner can spend *)
Definition spendable (user_id : string) (now_ms : Z) (b : ServerBoost) : bool :=
  str_eqb (bo_user_id b) user_id && is_free b && is_unexpired b now_ms.

Definition count_unallocated_server_boosts (user_id : string) (now_ms : Z) (w : World) : World * Result Z :=
  (w, Ok (Z.of_nat (length (List.filter (spendable user_id now_ms) (hm_values (w_boosts w)))))).

Definition allocate_server_boosts (user_id server_id : string) (count now_ms : Z) (w : World)
    : World * Result (list string) :=
  let candidates := bo_id <$> List.filter (spendable user_id now_ms) (hm_values (w_boosts w)) in
  let chosen := take (Z.to_nat count) (sort_by str_leb candidates) in
  (set_boosts w (update_all (applied server_id now_ms) chosen (w_boosts w)),
   Ok (List.filter (fun id => bool_decide (is_Some (w_boosts w !! id))) chosen)).

Definition deallocate_server_boosts (user_id server_id : string) (count : option Z) (w : World)
    : World * Result Z :=
  let targets := sort_by str_leb (bo_id <$> List.filter (fun b => str_eqb (bo_user_id b) user_id
                                                    && applied_to b server_id) (hm_values (w_boosts w))) in
  let targets := match count with Some count => take (Z.to_nat count) targets | None => targets end in
  (set_boosts w (update_all freed targets (w_boosts w)),
   Ok (Z.of_nat (length (List.filter (fun id => bool_decide (is_Some (w_boosts w !! id))) targets)))).

Definition deallocate_server_boosts_by_ids (ids : list string) (w : World) : World * Result unit :=
  (set_boosts w (update_all freed ids (w_boosts w)), Ok tt).

Definition deallocate_all_server_boosts_for_server (server_id : string) (w : World) : World * Result Z :=
  (set_boosts w ((fun b => if applied_to b server_id then freed b else b) <$> w_boosts w),
   Ok (Z.of_nat (length (List.filter (fun b => applied_to b server_id) (hm_values (w_boosts w)))))).

Definition delete_server_boosts_by_user (user_id : string) (w : World) : World * Result (list string) :=
  let affected := omap bo_server_id (List.filter (fun b => str_eqb (bo_user_id b) user_id)
                                       (hm_values (w_boosts w))) in
  (set_boosts w (filter (fun kv => str_eqb (bo_user_id kv.2) user_id = false) (w_boosts w)),
   Ok (dedup (sort_by str_leb affected))).

Definition delete_server_boost (id : string) (w : World) : World * Result unit :=
  match w_boosts w !! id with
  | Some _ => (set_boosts w (delete id (w_boosts w)), Ok tt)
  | None => (w, Err ErrorType.NotFound)
  end.

Definition delete_expired_server_boosts (now_ms : Z) (w : World) : World * Result (list ServerBoost) :=
  let expired := List.filter (fun b => is_expired b now_ms) (hm_values (w_boosts w)) in
  (set_boosts w (foldl (fun boosts b => delete (bo_id b) boosts) (w_boosts w) expired), Ok expired).

Definition fetch_boosted_server_ids (w : World) : World * Result (list string) :=
  (w, Ok (dedup (sort_by str_leb (omap bo_server_id (hm_values (w_boosts w)))))).

(** *** Servers, members and users *)

Definition fetch_server (id : string) (w : World) : World * Result BoostedServer :=
  (w, ok_or (w_servers w !! id) ErrorType.NotFound).

(** [update_server], of the two fields *)
Definition update_server (id : string) (boost_count boost_tier : Z) (w : World) : World * Result unit :=
  match w_servers w !! id with
  | Some server =>
      (set_servers w (<[id := mkBoosted (sv_id server) (Some boost_count) (Some boost_tier)]> (w_servers w)), Ok tt)
  | None => (w, Err ErrorType.NotFound)
  end.

Definition delete_server (id : string) (w : World) : World * Result unit :=
  match w_servers w !! id with
  | Some _ => (set_servers w (delete id (w_servers w)), Ok tt)
  | None => (w, Err ErrorType.NotFound)
  end.

Definition fetch_server_ids_with_boost_counts (w : World) : World * Result (list string) :=
  (w, Ok (sort_by str_leb (sv_id <$> List.filter (fun s => 0 <? default 0 (sv_boost_count s))
                                        (hm_values (w_servers w))))).

Definition fetch_member (server user : string) (w : World) : World * Result unit :=
  (w, if bool_decide ((server, user) ∈ w_members w) then Ok tt else Err ErrorType.NotFound).

Definition fetch_user (id : string) (w : World) : World * Result User :=
  (w, ok_or (w_users w !! id) ErrorType.NotFound).

(** ** Counting *)

Context (config : BoostFeatures).
(** The text of a failed validation *)
Context (validation_error : string).

(** [boost_now_ms()] is read after the server. *)
Definition recount_for_server (server_id : string) (now_ms : Z) : Eff World unit :=
  do! server <- atom (fetch_server server_id);
  match server with
  | Err ErrorType.NotFound => ok tt
  | Err error => fail error
  | Ok server =>
      let! count := atom (count_server_boosts_by_server server_id now_ms) in
      let count := as_u32 count in
      let tier := tier_for config count in
      if (default 0 (sv_boost_count server) =? as_i32 count) && (default 0 (sv_boost_tier server) =? as_i32 tier)
      then ok tt
      else atom (update_server (sv_id server) (as_i32 count) (as_i32 tier))
  end.

(** One slot for each id drawn *)
Fixpoint create_granted (user_id : string) (ids : list string) (expires_at : option Z)
    : Eff World (list ServerBoost) :=
  match ids with
  | [] => ok []
  | id :: ids =>
      let boost := mkBoost id user_id None BoostSource.AdminGrant expires_at None in
      let! _ := atom (insert_server_boost boost) in
      let! minted := create_granted user_id ids expires_at in
      ok (boost :: minted)
  end.

(** ** The standing of a server *)

Record BoosterEntry : Type := mkBooster { be_user_id : string; be_boosts : Z; be_since : Z }.

Record BoostStatus : Type := mkStatus {
  bs_count : Z;
  bs_tier : Z;
  bs_next_tier_at : option Z;
  bs_boosters : list BoosterEntry;
}.

(** [entry(..).or_insert((0, since))], then the count and the earliest time *)
Definition add_booster (now : Z) (per_user : gmap string (Z * Z)) (b : ServerBoost) : gmap string (Z * Z) :=
  if is_expired b now then per_user
  else
    let since := default now (bo_allocated_at b) in
    let entry := default (0, since) (per_user !! bo_user_id b) in
    <[bo_user_id b := (entry.1 + 1, Z.min entry.2 since)]> per_user.

Definition earlier (a b : BoosterEntry) : bool :=
  (be_since a <? be_since b) || ((be_since a =? be_since b) && str_leb (be_user_id a) (be_user_id b)).

Definition boost_status (server_id : string) (now : Z) : Eff World BoostStatus :=
  let! boosts := atom (fetch_server_boosts_by_server server_id) in
  let per_user := foldl (add_booster now) ∅ boosts in
  let count := list_sum fst (hm_values per_user) in
  let tier := tier_for config count in
  let boosters := (fun e : string * (Z * Z) => mkBooster e.1 e.2.1 e.2.2) <$> hm_iter per_user in
  ok (mkStatus count tier (next_tier_at config tier) (sort_by earlier boosters)).

(** ** Routes *)

Definition enabled : Eff World unit :=
  if bf_enabled config then ok tt else fail (ErrorType.FeatureDisabled "boosts").

Definition is_bot (user : User) : bool := bool_decide (is_Some (user_bot_owner user)).

(** A checked build panics when the sum of two [u32]s overflows. *)
Definition boost_add (user : User) (target : string) (count now : Z) : Eff World BoostStatus :=
  let! _ := enabled in
  if is_bot user then fail ErrorType.IsBot
  else if negb ((1 <=? count) && (count <=? 16)) then fail (ErrorType.FailedValidation validation_error)
  else
    let! server := atom (fetch_server target) in
    let! _ := atom (fetch_member (sv_id server) (user_id user)) in
    let! here := atom (fetch_server_boosts_by_server (sv_id server)) in
    let mine_here := as_u32 (Z.of_nat (length (List.filter (fun b =>
                       str_eqb (bo_user_id b) (user_id user) && negb (is_expired b now)) here))) in
    if u32_max <? mine_here + count then Panic
    else if bf_max_per_user_per_server config <? mine_here + count
    then fail (ErrorType.TooManyBoosts (bf_max_per_user_per_server config))
    else
      let! available := atom (count_unallocated_server_boosts (user_id user) now) in
      if available <? count then fail (ErrorType.NotEnoughBoosts available)
      else
        let! claimed := atom (allocate_server_boosts (user_id user) (sv_id server) count now) in
        if as_u32 (Z.of_nat (length claimed)) <? count then
          let! _ := atom (deallocate_server_boosts_by_ids claimed) in
          fail (ErrorType.NotEnoughBoosts (Z.of_nat (length claimed)))
        else
          let! _ := recount_for_server (sv_id server) now in
          boost_status (sv_id server) now.

Definition boost_fetch (user : User) (target : string) (now : Z) : Eff World BoostStatus :=
  let! _ := enabled in
  let! server := atom (fetch_server target) in
  let! _ := atom (fetch_member (sv_id server) (user_id user)) in
  boost_status (sv_id server) now.

(** The number removed; a failed recount is logged. *)
Definition boost_remove (user : User) (target : string) (count : option Z) (now : Z) : Eff World Z :=
  let! _ := enabled in
  let count := Z.min (Z.max (default 1 count) 1) (Z.max (bf_max_per_user_per_server config) 1) in
  let! removed := atom (deallocate_server_boosts (user_id user) target (Some count)) in
  if removed =? 0 then fail ErrorType.NoEffect
  else
    do! _ <- recount_for_server target now;
    ok (as_u32 removed).

Definition boost_grant (user : User) (target : string) (ids : list string) (expires_in_days : option Z) (now : Z)
    : Eff World (list ServerBoost) :=
  let count := Z.of_nat (length ids) in
  let! _ := enabled in
  if negb (user_privileged user) then fail ErrorType.NotPrivileged
  else if negb ((1 <=? count) && (count <=? 100)
                && match expires_in_days with Some days => (1 <=? days) && (days <=? 3650) | None => true end)
  then fail (ErrorType.FailedValidation validation_error)
  else
    let! target_user := atom (fetch_user target) in
    if is_bot target_user then fail ErrorType.IsBot
    else create_granted (user_id target_user) ids ((fun days => now + days * 86400000) <$> expires_in_days).

Definition boost_revoke (user : User) (target boost_id : string) (now : Z) : Eff World unit :=
  let! _ := enabled in
  if negb (user_privileged user) then fail ErrorType.NotPrivileged
  else
    let! boost := atom (fetch_server_boost boost_id) in
    let target_id := if str_eqb target "@me" then user_id user else target in
    if negb (str_eqb (bo_user_id boost) target_id) then fail ErrorType.NotFound
    else
      let! _ := atom (delete_server_boost (bo_id boost)) in
      match bo_server_id boost with
      | Some server_id => do! _ <- recount_for_server server_id now; ok tt
      | None => ok tt
      end.

Record UserBoosts : Type := mkUserBoosts {
  ub_total : Z;
  ub_available : Z;
  ub_allocations : list (string * Z);
  ub_slots : list ServerBoost;
}.

(** [*allocations.entry(server_id).or_default() += 1] *)
Definition add_allocation (allocations : gmap string Z) (b : ServerBoost) : gmap string Z :=
  match bo_server_id b with
  | Some server_id => <[server_id := default 0 (allocations !! server_id) + 1]> allocations
  | None => allocations
  end.

Definition fetch_user_boosts (user : User) (target : string) (now : Z) : Eff World UserBoosts :=
  let! _ := enabled in
  let target_id := if str_eqb target "@me" then user_id user else target in
  if negb (str_eqb target_id (user_id user)) && negb (user_privileged user) then fail ErrorType.NotPrivileged
  else
    let! slots := atom (fetch_server_boosts_by_user target_id) in
    let live := List.filter (fun b => is_unexpired b now) slots in
    let allocations := foldl add_allocation ∅ live in
    ok (mkUserBoosts (Z.of_nat (length live)) (Z.of_nat (length (List.filter is_free live)))
          (sort_by (fun a b : string * Z => str_leb a.1 b.1) (hm_iter allocations)) slots).

(** ** Cascades *)

(** Of a removal of a member: errors are dropped. *)
Definition leave_cascade (user_id server_id : string) (now : Z) : prog World unit :=
  do! freed <- atom (deallocate_server_boosts user_id server_id None);
  match freed with
  | Ok freed => if 0 <? freed then do! _ <- recount_for_server server_id now; Ret tt else Ret tt
  | Err _ => Ret tt
  end.

(** Of a deletion of a server *)
Definition server_delete (server_id : string) : Eff World unit :=
  let! _ := atom (deallocate_all_server_boosts_for_server server_id) in
  atom (delete_server server_id).

(** Of a deletion of an account *)
Fixpoint recount_each (ids : list string) (now : Z) : Eff World unit :=
  match ids with
  | [] => ok tt
  | id :: ids => do! _ <- recount_for_server id now; recount_each ids now
  end.

Definition account_cascade (user_id : string) (now : Z) : Eff World unit :=
  let! affected := atom (delete_server_boosts_by_user user_id) in
  recount_each affected now.

(** ** The hourly pass *)

Fixpoint recount_all (ids : list string) (now : Z) : Eff World unit :=
  match ids with
  | [] => ok tt
  | id :: ids => let! _ := recount_for_server id now in recount_all ids now
  end.

(** [HashSet::insert] *)
Definition add_id (ids : gmap string unit) (id : string) : gmap string unit := <[id := tt]> ids.

Definition prune_pass (now : Z) : Eff World unit :=
  if negb (bf_enabled config) then ok tt
  else
    let! removed := atom (delete_expired_server_boosts now) in
    let affected := foldl add_id ∅ (omap bo_server_id removed) in
    let! boosted := atom fetch_boosted_server_ids in
    let affected := foldl add_id affected boosted in
    let! counted := atom fetch_server_ids_with_boost_counts in
    let affected := foldl add_id affected counted in
    recount_all (hm_keys affected) now.
End Boosts.
