(* ===== verification/BoostsSystem.v ===== *)
(** * Boosts: what holds however the handlers interleave

    A slot is touched only for its owner, boosting never lowers a limit, and
    whatever counts the handlers leave behind, the next pass puts them right. *)

From stdpp Require Import base numbers list gmap strings sorting.
From S2P Require Import Prelude Text Errors Program Permissions Store SeatLists Boosts.
Open Scope Z_scope.
Open Scope sloga_scope.

(** ** Slots in bulk *)

Lemma update_all_lookup f ids : forall m id,
  (forall b, f (f b) = f b) ->
  update_all f ids m !! id = (if bool_decide (id ∈ ids) then f <$> m !! id else m !! id).
Proof.
  induction ids as [|x ids IH]; intros m id Hf; [done|]. unfold update_all in *. cbn [foldl]. rewrite IH by done.
  destruct (decide (x = id)) as [->|Hne].
  - rewrite lookup_alter_eq. rewrite (bool_decide_true (id ∈ id :: ids)) by left.
    destruct (bool_decide (id ∈ ids)); [|done]. rewrite <- option_fmap_compose.
    apply option_fmap_ext. intros b. apply Hf.
  - rewrite lookup_alter_ne by done. assert (id ∈ x :: ids <-> id ∈ ids) as E by set_solver.
    destruct (decide (id ∈ ids)) as [H|H].
    + rewrite !bool_decide_true; [done|by apply E|done].
    + rewrite !bool_decide_false; [done|by rewrite E|done].
Qed.

Lemma delete_all_lookup l : forall (m : gmap string ServerBoost) id b,
  foldl (fun boosts b => delete (bo_id b) boosts) m l !! id = Some b
  <-> m !! id = Some b /\ forall x, x ∈ l -> bo_id x <> id.
Proof.
  induction l as [|x l IH]; intros m id b; cbn [foldl].
  - split; [intros H; split; [done|by intros y ?%elem_of_nil]|by intros []].
  - rewrite IH, lookup_delete_Some. split.
    + intros [[Hne Hm] Hl]. split; [done|]. intros y Hy. apply elem_of_cons in Hy as [->|Hy]; [done|by apply Hl].
    + intros [Hm Hl]. split; [split; [|done]; apply Hl; left|]. intros y Hy. apply Hl. by right.
Qed.

Lemma filter_values_size {V} `{!HashIter string V} (p : V -> bool) (m : gmap string V) :
  length (List.filter p (hm_values m)) = size (filter (fun kv => p kv.2 = true) m).
Proof.
  rewrite hm_values_perm. induction m as [|k v m Hk IH] using map_ind; [done|].
  rewrite map_to_list_insert by done. cbn [fmap list_fmap List.filter snd].
  destruct (p v) eqn:E.
  - rewrite map_filter_insert_True by done. rewrite map_size_insert_None; [by rewrite <- IH|].
    apply map_lookup_filter_None. by left.
  - rewrite map_filter_insert_False by (cbn; congruence). by rewrite delete_id.
Qed.

Lemma add_ids_lookup l : forall m k, is_Some (foldl add_id m l !! k) <-> k ∈ l \/ is_Some (m !! k).
Proof.
  induction l as [|x l IH]; intros m k; cbn [foldl]; [split; [by right|by intros [?%elem_of_nil|]]|].
  rewrite IH, elem_of_cons. unfold add_id. destruct (decide (x = k)) as [->|Hne].
  - rewrite lookup_insert_eq. split; intros _; [by left; left|by right].
  - rewrite lookup_insert_ne by done. naive_solver.
Qed.

(** ** Tiers *)

Lemma tier_loop count l : forall index tier,
  tier <= index -> 0 <= tier ->
  0 <= (foldl (fun '(index, tier) threshold =>
            (index + 1, if threshold <=? count then index + 1 else tier)) (index, tier) l).2
    <= index + Z.of_nat (length l).
Proof.
  induction l as [|t l IH]; intros index tier Hi Ht; cbn [foldl length snd]; [lia|].
  specialize (IH (index + 1) (if t <=? count then index + 1 else tier)).
  destruct (t <=? count); lia.
Qed.

Lemma tier_range f count : 0 <= tier_for f count <= Z.of_nat (length (bf_tier_thresholds f)).
Proof. unfold tier_for. pose proof (tier_loop count (bf_tier_thresholds f) 0 0). lia. Qed.

Lemma tier_loop_mono c c' l : c <= c' -> forall index tier tier',
  tier <= tier' <= index ->
  (foldl (fun '(index, tier) threshold =>
            (index + 1, if threshold <=? c then index + 1 else tier)) (index, tier) l).2
  <= (foldl (fun '(index, tier) threshold =>
            (index + 1, if threshold <=? c' then index + 1 else tier)) (index, tier') l).2.
Proof.
  intros Hc. induction l as [|t l IH]; intros index tier tier' Ht; cbn [foldl snd]; [lia|].
  apply IH. destruct (Z.leb_spec t c), (Z.leb_spec t c'); lia.
Qed.

Lemma tier_mono f c c' : c <= c' -> tier_for f c <= tier_for f c'.
Proof. intros Hc. by apply (tier_loop_mono c c'). Qed.

Lemma max_fold_ge l : forall z, z <= foldl Z.max z l.
Proof. induction l as [|x l IH]; intros z; cbn; [lia|]. specialize (IH (Z.max z x)). lia. Qed.

Lemma perks_prefix f t t' : 0 <= t <= t' -> exists rest, perks_up_to f t' = perks_up_to f t ++ rest.
Proof.
  intros Ht. unfold perks_up_to. set (l := [_; _; _]). exists (drop (Z.to_nat (Z.min t 3)) (take (Z.to_nat (Z.min t' 3)) l)).
  rewrite <- (take_drop (Z.to_nat (Z.min t 3)) (take (Z.to_nat (Z.min t' 3)) l)) at 1. f_equal.
  rewrite take_take. f_equal. lia.
Qed.

(** A server with more boosts has at least the limits it had, and never less
    than the limits of a server without any. *)
Theorem boosting_never_lowers f global c c' :
  c <= c' ->
  global <= effective_server_emoji f global (tier_for f c) <= effective_server_emoji f global (tier_for f c')
  /\ global <= effective_server_sounds f global (tier_for f c) <= effective_server_sounds f global (tier_for f c').
Proof.
  intros Hc. unfold effective_server_emoji, effective_server_sounds. destruct (negb (bf_enabled f)); [lia|].
  destruct (perks_prefix f (tier_for f c) (tier_for f c')) as [rest ->].
  { pose proof (tier_range f c). pose proof (tier_mono f c c' Hc). lia. }
  rewrite !omap_app, !foldl_app. split; (split; [apply max_fold_ge|apply max_fold_ge]).
Qed.

(** ** The system *)

Definition i32_max : Z := 2147483647.

Lemma as_i32_small z : 0 <= z <= i32_max -> as_i32 z = z.
Proof.
  intros Hz. unfold i32_max in Hz. unfold as_i32, as_u32, two32. rewrite Z.mod_small by lia.
  destruct (Z.ltb_spec z 2147483648); lia.
Qed.

Lemma as_u32_small z : 0 <= z <= i32_max -> as_u32 z = z.
Proof. intros Hz. unfold i32_max in Hz. unfold as_u32, two32. apply Z.mod_small. lia. Qed.

Section System.
Context `{!HashIter string ServerBoost, !HashIter string BoostedServer}.
Context `{!HashIter string (Z * Z), !HashIter string Z, !HashIter string unit}.
Context (config : BoostFeatures) (validation_error : string).
(** The ids ever drawn for slots, each for one user *)
Context (Ids : gset string) (owner : string -> string).
Context (few_ids : Z.of_nat (size Ids) <= i32_max).

(** The slots of a server, the expired ones left out *)
Definition slots_at (k : string) (now : Z) (w : World) : Z :=
  Z.of_nat (size (filter (fun kv => applied_to kv.2 k && is_unexpired kv.2 now = true) (w_boosts w))).

(** What a server shows for a number of slots *)
Definition shows (s : BoostedServer) (n : Z) : Prop :=
  default 0 (sv_boost_count s) = n /\ default 0 (sv_boost_tier s) = as_i32 (tier_for config n).

Record orderly (w : World) : Prop := {
  o_boosts id b : w_boosts w !! id = Some b -> bo_id b = id /\ owner id = bo_user_id b /\ id ∈ Ids;
  o_servers k s : w_servers w !! k = Some s -> sv_id s = k /\ exists n, 0 <= n /\ shows s n;
  o_users k u : w_users w !! k = Some u -> user_id u = k;
}.

Lemma slots_few k now w : orderly w -> 0 <= slots_at k now w <= i32_max.
Proof.
  intros [Hb _ _]. unfold slots_at. split; [lia|]. etrans; [|exact few_ids]. apply inj_le.
  rewrite <- size_dom. apply subseteq_size. intros id H. apply elem_of_dom in H as [b H].
  apply map_lookup_filter_Some in H as [H _]. by apply (Hb id b).
Qed.

(** Who may act for themselves or be acted on by staff, when passes run, and
    which servers are deleted *)
Context (acts : string -> Prop) (passes : Z -> Prop) (deletes : string -> Prop).

Inductive boost_handler : prog World unit -> Prop :=
| h_add user target count now :
    acts (user_id user) -> boost_handler (spawn (boost_add config validation_error user target count now))
| h_fetch user target now : boost_handler (spawn (boost_fetch config user target now))
| h_remove user target count now :
    acts (user_id user) -> boost_handler (spawn (boost_remove config user target count now))
| h_grant user target ids days now :
    (forall id, id ∈ ids -> id ∈ Ids /\ owner id = target) ->
    boost_handler (spawn (boost_grant config validation_error user target ids days now))
| h_revoke user target boost_id now :
    acts (owner boost_id) -> boost_handler (spawn (boost_revoke config user target boost_id now))
| h_inventory user target now : boost_handler (spawn (fetch_user_boosts config user target now))
| h_leave uid server_id now : acts uid -> boost_handler (spawn (leave_cascade config uid server_id now))
| h_account uid now : acts uid -> boost_handler (spawn (account_cascade config uid now))
| h_server server_id : deletes server_id -> boost_handler (spawn (server_delete server_id))
| h_pass now : passes now -> boost_handler (spawn (prune_pass config now)).

(** A slot nobody may touch *)
Definition spared (b : ServerBoost) : Prop :=
  ~ acts (bo_user_id b) /\ (forall now, passes now -> is_expired b now = false)
  /\ forall k, bo_server_id b = Some k -> ~ deletes k.

Definition leaves_alone (w w' : World) : Prop :=
  forall id b, w_boosts w !! id = Some b -> spared b -> w_boosts w' !! id = Some b.

Abbreviation good p := (holds orderly leaves_alone p (fun _ => True)).

Lemma good_read {X} (op : World -> World * X) (Q : X -> Prop) :
  (forall w, (op w).1 = w) -> (forall w, orderly w -> Q (op w).2) -> holds orderly leaves_alone (atom op) Q.
Proof.
  intros Hr HQ w Hw. rewrite Hr. split_and!; [done|by intros id b|by apply HQ].
Qed.

Lemma good_ebind {A B} (c : Eff World A) (k : A -> Eff World B) (Q : A -> Prop) :
  holds orderly leaves_alone c (fun r => match r with Ok a => Q a | Err _ => True end) ->
  (forall a, Q a -> good (k a)) -> good (ebind c k).
Proof. intros Hc Hk. apply holds_ebind. eapply holds_mono; [exact Hc|]. intros [a|e]; [apply Hk|done]. Qed.

Lemma good_bind {A B} (c : prog World A) (k : A -> prog World B) :
  good c -> (forall a, good (k a)) -> good (bind c k).
Proof. intros Hc Hk. apply holds_bind. eapply holds_mono; [exact Hc|]. intros a _. apply Hk. Qed.

(** A write of the slots that keeps who owns them *)
Lemma orderly_boosts w boosts :
  orderly w -> (forall id b, boosts !! id = Some b ->
    exists b0, w_boosts w !! id = Some b0 /\ bo_id b = bo_id b0 /\ bo_user_id b = bo_user_id b0) ->
  orderly (set_boosts w boosts).
Proof.
  intros [Hb Hs Hu] Hback. split; [|done..]. intros id b H. destruct (Hback id b H) as (b0 & H0 & -> & ->). by apply Hb.
Qed.

(** Slots of those who act, updated in place *)
Lemma update_ok f ids w :
  (forall b, f (f b) = f b) -> (forall b, bo_id (f b) = bo_id b /\ bo_user_id (f b) = bo_user_id b) ->
  orderly w -> (forall id, id ∈ ids -> acts (owner id)) ->
  orderly (set_boosts w (update_all f ids (w_boosts w)))
  /\ leaves_alone w (set_boosts w (update_all f ids (w_boosts w))).
Proof.
  intros Hf Hk Hw Ha. split.
  - apply orderly_boosts; [done|]. intros id b. rewrite update_all_lookup by done. case_bool_decide.
    + intros (b0 & H0 & ->)%fmap_Some. exists b0. split; [done|]. by apply Hk.
    + intros H0. by exists b.
  - intros id b Hb (Hn & _). cbn. rewrite update_all_lookup by done. rewrite bool_decide_false; [done|].
    intros Hin. apply Hn. destruct (o_boosts _ Hw id b Hb) as (_ & <- & _). by apply Ha.
Qed.

(** The ids picked from the stored slots *)
Lemma picked (p : ServerBoost -> bool) w id :
  orderly w -> id ∈ sort_by str_leb (bo_id <$> List.filter p (hm_values (w_boosts w))) ->
  exists b, w_boosts w !! id = Some b /\ p b = true /\ owner id = bo_user_id b.
Proof.
  intros Hw H. apply elem_of_sort_by, list_elem_of_fmap in H as (b & -> & [Hp Hb]%elem_of_filter_bool).
  apply elem_of_hm_values in Hb as [k Hk]. destruct (o_boosts _ Hw k b Hk) as (-> & Ho & _). by exists b.
Qed.

(** *** The operations *)

Lemma taken {A} (x : A) n l : x ∈ take n l -> x ∈ l.
Proof. intros (i & H & _)%elem_of_take. by eapply list_elem_of_lookup_2. Qed.

Lemma counted k now w :
  count_server_boosts_by_server k now w = (w, Ok (slots_at k now w)).
Proof. unfold count_server_boosts_by_server, slots_at. by rewrite filter_values_size. Qed.

Lemma good_recount k now : good (recount_for_server config k now).
Proof.
  unfold recount_for_server. apply holds_bind. eapply holds_mono.
  { apply (good_read (fetch_server k) (fun _ => True)); done. }
  intros [s|e] _; [|by destruct e].
  apply (good_ebind _ _ (fun n => 0 <= n <= i32_max)).
  { apply good_read; [done|]. intros w Hw. rewrite counted. by apply slots_few. }
  intros n Hn. rewrite (as_u32_small n Hn). destruct (_ && _); [done|]. rewrite (as_i32_small n Hn).
  intros w Hw. unfold update_server. destruct (w_servers w !! sv_id s) as [s0|] eqn:E; [|split_and!; [done|by intros id b|done]].
  split_and!; [|by intros id b|done]. destruct Hw as [Hb Hs Hu]. split; [done| |done]. cbn. intros j t H.
  apply lookup_insert_Some in H as [[<- <-]|[_ H]]; [|by apply Hs]. split; [exact (proj1 (Hs _ _ E))|].
  exists n. split; [lia|done].
Qed.

Lemma freed_twice b : freed (freed b) = freed b.
Proof. done. Qed.

Lemma good_deallocate uid k count :
  acts uid -> good (atom (deallocate_server_boosts uid k count)).
Proof.
  intros Ha w Hw. unfold deallocate_server_boosts. cbn [fst snd].
  set (targets := sort_by str_leb _). set (chosen := match count with Some _ => _ | None => _ end).
  destruct (update_ok freed chosen w) as [H1 H2]; [done|done|done| |by split_and!]. intros id Hid.
  assert (id ∈ targets) as Ht.
  { subst chosen. destruct count; [by eapply taken|done]. }
  apply picked in Ht as (b & _ & Hp & ->); [|done]. to_prop. by destruct Hp as [-> _].
Qed.

Lemma good_allocate uid k count now :
  acts uid ->
  holds orderly leaves_alone (atom (allocate_server_boosts uid k count now))
    (fun r => match r with Ok ids => forall id, id ∈ ids -> acts (owner id) | Err _ => True end).
Proof.
  intros Ha w Hw. unfold allocate_server_boosts. cbn [fst snd]. set (all := sort_by str_leb _).
  assert (forall id, id ∈ take (Z.to_nat count) all -> acts (owner id)) as Hall.
  { intros id Hid. assert (id ∈ all) as Ht by (by eapply taken).
    apply picked in Ht as (b & _ & Hp & ->); [|done]. unfold spendable in Hp. to_prop. by destruct Hp as [[-> _] _]. }
  destruct (update_ok (applied k now) (take (Z.to_nat count) all) w) as [H1 H2]; [done..|].
  split_and!; [done..|]. intros id [_ Hid]%elem_of_filter_bool. by apply Hall.
Qed.

Lemma good_rollback ids :
  (forall id, id ∈ ids -> acts (owner id)) -> good (atom (deallocate_server_boosts_by_ids ids)).
Proof. intros Ha w Hw. destruct (update_ok freed ids w) as [H1 H2]; [done..|]. by split_and!. Qed.

Lemma good_mint boost :
  bo_id boost ∈ Ids -> owner (bo_id boost) = bo_user_id boost -> good (atom (insert_server_boost boost)).
Proof.
  intros Hi Ho w Hw. unfold insert_server_boost.
  destruct (w_boosts w !! bo_id boost) as [b0|] eqn:E; [split_and!; [done|by intros id b|done]|].
  split_and!; [|intros id b Hb _; cbn; rewrite lookup_insert_ne; [done|intros <-; congruence]|done].
  destruct Hw as [Hb Hs Hu]. split; [|done..]. cbn. intros id b H.
  apply lookup_insert_Some in H as [[<- <-]|[_ H]]; [done|by apply Hb].
Qed.

Lemma good_granted uid ids expires_at :
  (forall id, id ∈ ids -> id ∈ Ids /\ owner id = uid) -> good (create_granted uid ids expires_at).
Proof.
  induction ids as [|id ids IH]; intros Hids; [done|]. cbn [create_granted].
  destruct (Hids id) as [Hi Ho]; [left|].
  apply (good_ebind _ _ (fun _ => True)); [|intros _ _].
  { eapply holds_mono; [by apply good_mint|]. by intros []. }
  apply (good_ebind _ _ (fun _ => True)); [|done].
  eapply holds_mono; [apply IH; intros x Hx; apply Hids; by right|]. by intros [].
Qed.

(** A write that only takes slots away *)
Lemma fewer_ok w boosts :
  orderly w -> (forall id b, boosts !! id = Some b -> w_boosts w !! id = Some b) ->
  orderly (set_boosts w boosts).
Proof. intros Hw Hf. apply orderly_boosts; [done|]. intros id b H. exists b. split; [by apply Hf|done]. Qed.

Lemma good_delete id : acts (owner id) -> good (atom (delete_server_boost id)).
Proof.
  intros Ha w Hw. unfold delete_server_boost.
  destruct (w_boosts w !! id) as [b0|] eqn:E; [|split_and!; [done|by intros x b|done]].
  split_and!; [|intros x b Hb (Hn & _)|done].
  - apply fewer_ok; [done|]. by intros x b [_ H]%lookup_delete_Some.
  - cbn. rewrite lookup_delete_ne; [done|]. intros ->. apply Hn. by destruct (o_boosts _ Hw x b Hb) as (_ & <- & _).
Qed.

Lemma good_delete_user uid : acts uid -> good (atom (delete_server_boosts_by_user uid)).
Proof.
  intros Ha w Hw. split_and!; [|intros x b Hb (Hn & _)|done].
  - apply fewer_ok; [done|]. by intros x b [H _]%map_lookup_filter_Some.
  - cbn. apply map_lookup_filter_Some. split; [done|]. cbn. apply str_eqb_neq. intros E. apply Hn. by rewrite E.
Qed.

Lemma good_expire now : passes now -> good (atom (delete_expired_server_boosts now)).
Proof.
  intros Hp w Hw. split_and!; [|intros x b Hb (_ & He & _)|done]; cbn [fst delete_expired_server_boosts].
  - apply fewer_ok; [done|]. by intros x b [H _]%delete_all_lookup.
  - cbn. apply delete_all_lookup. split; [done|]. intros y [Hy Hin]%elem_of_filter_bool <-.
    apply elem_of_hm_values in Hin as [k Hk]. destruct (o_boosts _ Hw k y Hk) as (<- & _).
    rewrite Hk in Hb. injection Hb as <-. specialize (He now Hp). congruence.
Qed.

Lemma good_deallocate_all k : deletes k -> good (atom (deallocate_all_server_boosts_for_server k)).
Proof.
  intros Hd w Hw. split_and!; [|intros x b Hb (_ & _ & Hk)|done]; cbn [fst deallocate_all_server_boosts_for_server].
  - apply orderly_boosts; [done|]. intros id b. rewrite lookup_fmap. intros (b0 & H0 & ->)%fmap_Some.
    exists b0. by destruct (applied_to b0 k).
  - cbn. rewrite lookup_fmap, Hb. cbn. destruct (applied_to b k) eqn:E; [|done].
    apply is_some_str_true in E. by destruct (Hk k E).
Qed.

Lemma good_delete_server k : good (atom (delete_server k)).
Proof.
  intros w Hw. unfold delete_server. destruct (w_servers w !! k) as [s|] eqn:E; [|split_and!; [done|by intros x b|done]].
  split_and!; [|by intros x b|done]. destruct Hw as [Hb Hs Hu]. split; [done| |done]. cbn.
  intros j t [_ H]%lookup_delete_Some. by apply Hs.
Qed.

(** *** The handlers *)

Lemma good_then {A B} (c : Eff World A) (k : A -> Eff World B) :
  good c -> (forall a, good (k a)) -> good (ebind c k).
Proof.
  intros Hc Hk. apply (good_ebind _ _ (fun _ => True)); [|intros a _; apply Hk].
  eapply holds_mono; [exact Hc|]. by intros [].
Qed.

Lemma good_look {X} (op : World -> World * X) : (forall w, (op w).1 = w) -> good (atom op).
Proof. intros Hr. by apply good_read. Qed.

Lemma good_enabled {A} (c : Eff World A) : good c -> good (let! _ := enabled config in c).
Proof. intros Hc. apply good_then; [|done]. unfold enabled. by destruct (bf_enabled config). Qed.

Lemma good_status k now : good (boost_status config k now).
Proof. apply good_then; [by apply good_look|done]. Qed.

Lemma good_add user target count now :
  acts (user_id user) -> good (boost_add config validation_error user target count now).
Proof.
  intros Ha. apply good_enabled. destruct (is_bot user); [done|]. destruct (negb _); [done|].
  apply good_then; [by apply good_look|]. intros server. apply good_then; [by apply good_look|]. intros _.
  apply good_then; [by apply good_look|]. intros here. cbv zeta. destruct (_ <? _); [done|]. destruct (_ <? _); [done|].
  apply good_then; [by apply good_look|]. intros available. destruct (_ <? _); [done|].
  apply (good_ebind _ _ (fun ids => forall id, id ∈ ids -> acts (owner id))); [by apply good_allocate|].
  intros claimed Hc. destruct (_ <? _).
  - apply good_then; [by apply good_rollback|done].
  - apply good_then; [apply good_recount|]. intros _. apply good_status.
Qed.

Lemma good_recount_each ids now : good (recount_each config ids now).
Proof.
  induction ids as [|id ids IH]; [done|]. cbn [recount_each]. apply good_bind; [apply good_recount|done].
Qed.

Lemma good_recount_all ids now : good (recount_all config ids now).
Proof.
  induction ids as [|id ids IH]; [done|]. cbn [recount_all]. apply good_then; [apply good_recount|done].
Qed.

Lemma good_pass now : passes now -> good (prune_pass config now).
Proof.
  intros Hp. unfold prune_pass. destruct (negb _); [done|]. apply good_then; [by apply good_expire|]. intros removed.
  apply good_then; [by apply good_look|]. intros boosted. apply good_then; [by apply good_look|]. intros counted_ids.
  apply good_recount_all.
Qed.

Lemma boost_handlers_good p : boost_handler p -> good p.
Proof.
  intros Hh. destruct Hh as [user target count now Ha|user target now|user target count now Ha
    |user target ids days now Hids|user target boost_id now Ha|user target now|uid k now Ha|uid now Ha|k Hd|now Hp];
    apply holds_spawn with (Q := fun _ => True).
  - by apply good_add.
  - apply good_enabled. do 2 (apply good_then; [by apply good_look|]; intros ?). apply good_status.
  - apply good_enabled. apply good_then; [by apply good_deallocate|]. intros removed. destruct (_ =? _); [done|].
    apply good_bind; [apply good_recount|done].
  - apply good_enabled. destruct (negb _); [done|]. destruct (negb _); [done|].
    apply (good_ebind _ _ (fun u => user_id u = target)).
    { apply good_read; [done|]. intros w Hw. cbn. unfold ok_or. destruct (w_users w !! target) eqn:E; [|done].
      by apply (o_users _ Hw). }
    intros u Hu. destruct (is_bot u); [done|]. rewrite Hu. by apply good_granted.
  - apply good_enabled. destruct (negb _); [done|].
    apply (good_ebind _ _ (fun b => bo_id b = boost_id)).
    { apply good_read; [done|]. intros w Hw. cbn. unfold ok_or. destruct (w_boosts w !! boost_id) eqn:E; [|done].
      by apply (o_boosts _ Hw). }
    intros b Hb. cbv zeta. destruct (negb _); [done|]. rewrite Hb. apply good_then; [by apply good_delete|]. intros _.
    destruct (bo_server_id b); [apply good_bind; [apply good_recount|done]|done].
  - apply good_enabled. cbv zeta. destruct (_ && _); [done|]. apply good_then; [by apply good_look|done].
  - apply good_bind; [by apply good_deallocate|]. intros [n|e]; [|done]. destruct (_ <? _); [|done].
    apply good_bind; [apply good_recount|done].
  - apply good_then; [by apply good_delete_user|]. intros affected. apply good_recount_each.
  - apply good_then; [by apply good_deallocate_all|]. intros _. apply good_delete_server.
  - by apply good_pass.
Qed.

Lemma reached_orderly w s :
  orderly w -> rtc (sys_step boost_handler) (mkSys w []) s ->
  orderly (sys_world s) /\ rtc (fun w w' => orderly w /\ orderly w' /\ leaves_alone w w') w (sys_world s).
Proof.
  intros Hw Hs. destruct (guarded_steps boost_handler orderly leaves_alone (mkSys w []) s) as [[Ho _] Hr].
  - apply boost_handlers_good.
  - by split.
  - done.
  - by split.
Qed.

(** C28. However the requests of members, staff and the server's own passes
    interleave and wherever one is lost, a slot changes only for its owner:
    unless its owner acts (or staff act on its owner), the slot expires or the
    server it is applied to is deleted, it stays exactly as it is. *)
Theorem slots_follow_their_owners w s id b :
  orderly w -> rtc (sys_step boost_handler) (mkSys w []) s ->
  w_boosts w !! id = Some b -> spared b -> w_boosts (sys_world s) !! id = Some b.
Proof.
  intros Hw Hs Hb Hsp. destruct (reached_orderly w s Hw Hs) as [_ Hr]. revert Hb.
  clear Hw Hs. induction Hr as [|w1 w2 w3 (_ & _ & Hl) _ IH]; intros Hb; [done|]. by apply IH, Hl.
Qed.

(** *** The pass *)

Record recounted (k : string) (now : Z) (w w' : World) : Prop := {
  rc_boosts : w_boosts w' = w_boosts w;
  rc_other j : j <> k -> w_servers w' !! j = w_servers w !! j;
  rc_there : is_Some (w_servers w' !! k) <-> is_Some (w_servers w !! k);
  rc_shows s : w_servers w' !! k = Some s -> shows s (slots_at k now w);
}.

Lemma recounted_absent k now w : w_servers w !! k = None -> recounted k now w w.
Proof. intros E. split; [done..|]. intros s Hs. congruence. Qed.

Lemma recount_run k now w :
  orderly w -> exists w', run (recount_for_server config k now) w = Some (Ok tt, w') /\ orderly w'
                         /\ recounted k now w w'.
Proof.
  intros Hw. assert (exists w', run (recount_for_server config k now) w = Some (Ok tt, w') /\ recounted k now w w')
    as (w' & Hr & Hc).
  { unfold recount_for_server. rewrite run_bind, run_atom. cbn [fetch_server fst snd]. unfold ok_or.
    destruct (w_servers w !! k) as [s|] eqn:E; [|exists w; split; [done|by apply recounted_absent]].
    rewrite run_ebind, run_atom, counted. cbn [fst snd].
    pose proof (slots_few k now w Hw) as Hn. rewrite (as_u32_small _ Hn), (as_i32_small _ Hn).
    destruct (o_servers _ Hw k s E) as [Hk _].
    destruct ((_ =? _) && (_ =? _)) eqn:Eq.
    - exists w. split; [done|]. split; [done..|]. rewrite E. intros s' [= <-]. by to_prop.
    - eexists. rewrite run_atom. unfold update_server. rewrite Hk, E. split; [done|]. split; cbn.
      + done.
      + intros j Hj. by rewrite lookup_insert_ne.
      + by rewrite lookup_insert_eq, E.
      + rewrite lookup_insert_eq. by intros s' [= <-]. }
  exists w'. split; [done|]. split; [|done]. by eapply (holds_run _ _ _ _ _ _ _ (good_recount k now)).
Qed.

Lemma recount_all_run ids now : forall w,
  orderly w -> exists w', run (recount_all config ids now) w = Some (Ok tt, w')
    /\ w_boosts w' = w_boosts w
    /\ (forall j, j ∉ ids -> w_servers w' !! j = w_servers w !! j)
    /\ (forall j, is_Some (w_servers w' !! j) <-> is_Some (w_servers w !! j))
    /\ forall j s, j ∈ ids -> w_servers w' !! j = Some s -> shows s (slots_at j now w).
Proof.
  induction ids as [|k ids IH]; intros w Hw; cbn [recount_all].
  { exists w. split_and!; [done..|]. by intros j s ?%elem_of_nil. }
  destruct (recount_run k now w Hw) as (w1 & H1 & Hw1 & [B1 O1 T1 S1]).
  destruct (IH w1 Hw1) as (w2 & H2 & B2 & O2 & T2 & S2).
  exists w2. rewrite run_ebind, H1. split_and!; [done|congruence|..].
  - intros j Hj. rewrite O2, O1; [done|set_solver..].
  - intros j. rewrite T2. destruct (decide (j = k)) as [->|Hne]; [done|]. by rewrite O1.
  - intros j s Hj Hs. assert (slots_at j now w1 = slots_at j now w) as E by (unfold slots_at; by rewrite B1).
    destruct (decide (j ∈ ids)) as [Hin|Hout]; [rewrite <- E; by apply S2|].
    assert (j = k) as -> by set_solver. apply S1. by rewrite <- O2.
Qed.

(** C27. Whatever the handlers did, and wherever they were lost, one pass that runs
    by itself puts everything right: it ends without an error, only the
    expired slots are gone, and every server shows the number of slots
    applied to it and the tier that number reaches. *)
Theorem next_pass_heals w s now :
  bf_enabled config = true -> orderly w -> rtc (sys_step boost_handler) (mkSys w []) s ->
  exists w', run (prune_pass config now) (sys_world s) = Some (Ok tt, w')
    /\ (forall id b, w_boosts w' !! id = Some b <-> w_boosts (sys_world s) !! id = Some b /\ is_expired b now = false)
    /\ (forall k, is_Some (w_servers w' !! k) <-> is_Some (w_servers (sys_world s) !! k))
    /\ forall k sv, w_servers w' !! k = Some sv ->
         shows sv (Z.of_nat (size (filter (fun kv => bo_server_id kv.2 = Some k) (w_boosts w')))).
Proof.
  intros Hon Hw Hs. destruct (reached_orderly w s Hw Hs) as [Ho _]. clear Hw Hs w.
  generalize dependent (sys_world s). clear s. intros w Ho. unfold prune_pass. rewrite Hon. cbn [negb].
  rewrite run_ebind, run_atom. cbn [fst snd delete_expired_server_boosts].
  set (removed := List.filter _ _). set (w1 := set_boosts w _).
  assert (forall id b, w_boosts w1 !! id = Some b <-> w_boosts w !! id = Some b /\ is_expired b now = false) as Hleft.
  { intros id b. cbn. rewrite delete_all_lookup. split.
    - intros [Hb Hx]. split; [done|]. destruct (is_expired b now) eqn:E; [|done].
      destruct (Hx b); [|by apply (o_boosts _ Ho)]. apply elem_of_filter_bool. split; [done|].
      apply elem_of_hm_values. by exists id.
    - intros [Hb Hx]. split; [done|]. intros y [Hy Hin]%elem_of_filter_bool <-.
      apply elem_of_hm_values in Hin as [k Hk]. destruct (o_boosts _ Ho k y Hk) as (<- & _). congruence. }
  assert (orderly w1) as Ho1 by (apply fewer_ok; [done|]; by intros id b [H _]%Hleft).
  rewrite run_ebind, run_atom. cbn [fst snd fetch_boosted_server_ids]. rewrite run_ebind, run_atom.
  cbn [fst snd fetch_server_ids_with_boost_counts]. set (affected := foldl add_id _ _).
  destruct (recount_all_run (hm_keys affected) now w1 Ho1) as (w2 & H2 & B2 & O2 & T2 & S2).
  exists w2. split; [exact H2|]. rewrite B2. split; [done|]. split; [done|]. intros k sv Hsv.
  assert (Z.of_nat (size (filter (fun kv => bo_server_id kv.2 = Some k) (w_boosts w1))) = slots_at k now w1) as ->.
  { unfold slots_at. do 2 f_equal. apply map_filter_ext. intros id b Hb. cbn.
    apply Hleft in Hb as [_ Hx]. unfold is_unexpired. rewrite Hx, andb_true_r. symmetry. apply is_some_str_true. }
  destruct (decide (k ∈ hm_keys affected)) as [Hin|Hout]; [by apply S2|].
  rewrite O2 in Hsv by done. destruct (o_servers _ Ho1 k sv Hsv) as (Hk & n & Hn & Hsh).
  assert (slots_at k now w1 = 0) as ->.
  { unfold slots_at. replace (filter _ _) with (∅ : gmap string ServerBoost); [done|]. symmetry.
    apply map_empty. intros id. apply map_lookup_filter_None. right. intros b Hb E. cbn in E.
    apply andb_true_iff in E as [E%is_some_str_true _]. apply Hout, elem_of_hm_keys. subst affected.
    apply add_ids_lookup. right. apply add_ids_lookup. left. apply elem_of_dedup, elem_of_sort_by.
    apply list_elem_of_omap. exists b. split; [|done]. apply elem_of_hm_values. by exists id. }
  assert (n = 0) as <-; [|done]. destruct Hsh as [Hc _].
  destruct (Z.lt_ge_cases 0 n) as [Hpos|]; [|lia]. exfalso. apply Hout, elem_of_hm_keys. subst affected.
  apply add_ids_lookup. left. apply elem_of_sort_by, list_elem_of_fmap. exists sv. split; [done|].
  apply elem_of_filter_bool. split; [apply Z.ltb_lt; lia|]. apply elem_of_hm_values. by exists k.
Qed.
End System.

(** ** Examples *)

Module BoostsDemo.
Definition features : BoostFeatures :=
  mkFeatures true default_tier_thresholds 100 (mkPerks (Some 200) (Some 48)) (mkPerks (Some 300) (Some 72))
    (mkPerks (Some 500) (Some 96)).
Definition person (id : string) : User := mkUser id false None None.
Definition slot (id user : string) (server : option string) (expires : option Z) : ServerBoost :=
  mkBoost id user server BoostSource.AdminGrant expires ((fun _ => 5) <$> server).
Definition server (id : string) : BoostedServer := mkBoosted id None None.
Definition boosts : gmap string ServerBoost :=
  <["1" := slot "1" "u" None None]> (<["2" := slot "2" "u" None (Some 900)]>
    {["3" := slot "3" "v" (Some "a") None]}).
Definition world : World :=
  mkWorld (<["u" := person "u"]> {["v" := person "v"]}) {[("a", "u"); ("b", "u"); ("c", "u"); ("a", "v")]}
    (<["a" := server "a"]> (<["b" := server "b"]> {["c" := server "c"]})) boosts.
Definition Ids : gset string := {["1"; "2"; "3"; "4"]}.
Definition owner (id : string) : string := if str_eqb id "3" then "v" else "u".
Definition everyone (_ : string) : Prop := True.

Definition add (target : string) (count : Z) : prog World unit :=
  spawn (boost_add features "" (person "u") target count 10).
Definition take_back (target : string) : prog World unit :=
  spawn (boost_remove features (person "u") target None 10).

Definition shown (w : World) : list (string * option Z * option Z) :=
  (fun s => (sv_id s, sv_boost_count s, sv_boost_tier s)) <$> hm_values (w_servers w).
Definition places (w : World) : list (option string) :=
  (fun id => w_boosts w !! id ≫= bo_server_id) <$> ["1"; "2"; "3"].

Lemma few : Z.of_nat (size Ids) <= i32_max.
Proof. vm_compute. discriminate. Qed.

Lemma boosts_orderly : orderly features Ids owner world.
Proof.
  split; cbn.
  - intros id b H. unfold boosts in H.
    repeat (apply lookup_insert_Some in H as [[<- <-]|[_ H]]; [split_and!; [done|done|unfold Ids; set_solver]|]).
    apply lookup_singleton_Some in H as [<- <-]. split_and!; [done|done|unfold Ids; set_solver].
  - intros k s H.
    repeat (apply lookup_insert_Some in H as [[<- <-]|[_ H]]; [split; [done|by exists 0]|]).
    apply lookup_singleton_Some in H as [<- <-]. split; [done|by exists 0].
  - intros k u H. apply lookup_insert_Some in H as [[<- <-]|[_ H]]; [done|].
    by apply lookup_singleton_Some in H as [<- <-].
Qed.

(** A request that is short of a slot gives the others back while they are
    taken back and applied elsewhere. *)
Definition race : option (Sys World) :=
  sys_sched ([0; 0; 0; 0] ++ [1; 1; 1; 1; 1; 1; 1; 1; 1] ++ [0] ++ [2; 2; 2] ++ [3; 3; 3; 3; 3; 3; 3; 3; 3] ++ [0])%nat
    (mkSys world [add "a" 2; add "c" 1; take_back "a"; add "b" 1]).

Lemma race_steps acts passes deletes s :
  acts "u" -> race = Some s ->
  rtc (sys_step (boost_handler features "" Ids owner acts passes deletes)) (mkSys world []) s.
Proof.
  intros Ha Hr.
  eapply rtc_l; [apply sys_start, (h_add features "" Ids owner acts passes deletes (person "u") "b" 1 10), Ha|].
  eapply rtc_l; [apply sys_start, (h_remove features "" Ids owner acts passes deletes (person "u") "a" None 10), Ha|].
  eapply rtc_l; [apply sys_start, (h_add features "" Ids owner acts passes deletes (person "u") "c" 1 10), Ha|].
  eapply rtc_l; [apply sys_start, (h_add features "" Ids owner acts passes deletes (person "u") "a" 2 10), Ha|].
  by eapply sys_sched_steps.
Qed.
End BoostsDemo.

(** A request that cannot claim all it asks for gives back the slots it did
    claim, by their ids and whatever they are applied to by then: a slot its
    owner took back and applied to another server in between is freed there,
    and that server keeps showing it. *)
Theorem rollback_frees_another_allocation :
  exists s, BoostsDemo.race = Some s
    /\ BoostsDemo.places (sys_world s) = [Some "c"; None; Some "a"]
    /\ w_servers (sys_world s) !! "b" = Some (mkBoosted "b" (Some 1) (Some 0)).
Proof. eexists. split; [vm_compute; reflexivity|]. split; vm_compute; reflexivity. Qed.

Lemma boosting_never_lowers_witness :
  100 <= effective_server_emoji BoostsDemo.features 100 (tier_for BoostsDemo.features 3)
  /\ effective_server_emoji BoostsDemo.features 100 (tier_for BoostsDemo.features 3) = 200
  /\ 200 <= effective_server_emoji BoostsDemo.features 100 (tier_for BoostsDemo.features 14).
Proof.
  destruct (boosting_never_lowers BoostsDemo.features 100 3 14) as [[H1 H2] _]; [lia|].
  split; [exact H1|]. split; [vm_compute; reflexivity|exact H2].
Defined.

(** The slot of someone else sits through the race. *)
Lemma slots_follow_their_owners_witness :
  exists s, BoostsDemo.race = Some s
    /\ w_boosts (sys_world s) !! "3" = Some (BoostsDemo.slot "3" "v" (Some "a") None).
Proof.
  eexists. split; [vm_compute; reflexivity|].
  apply (slots_follow_their_owners BoostsDemo.features "" BoostsDemo.Ids BoostsDemo.owner BoostsDemo.few
           (fun u => u = "u") (fun _ => True) (fun _ => False) BoostsDemo.world).
  - apply BoostsDemo.boosts_orderly.
  - apply BoostsDemo.race_steps; [done|vm_compute; reflexivity].
  - vm_compute. reflexivity.
  - split; [done|]. split; [done|]. by intros k _ [].
Defined.

(** After the race, and once the second slot has expired, a pass leaves every
    server with the number of its slots. *)
Lemma next_pass_heals_witness :
  exists s w', BoostsDemo.race = Some s
    /\ run (prune_pass BoostsDemo.features 1000) (sys_world s) = Some (Ok tt, w')
    /\ BoostsDemo.shown w' = [("c", Some 1, Some 0); ("a", Some 1, Some 0); ("b", Some 0, Some 0)]
    /\ forall k sv, w_servers w' !! k = Some sv ->
         shows BoostsDemo.features sv (Z.of_nat (size (filter (fun kv => bo_server_id kv.2 = Some k) (w_boosts w')))).
Proof.
  destruct BoostsDemo.race as [s|] eqn:Er; [|by vm_compute in Er].
  destruct (next_pass_heals BoostsDemo.features "" BoostsDemo.Ids BoostsDemo.owner BoostsDemo.few
              BoostsDemo.everyone (fun _ => True) BoostsDemo.everyone BoostsDemo.world s 1000)
    as (w' & H1 & _ & _ & H4).
  - reflexivity.
  - apply BoostsDemo.boosts_orderly.
  - by apply BoostsDemo.race_steps.
  - exists s, w'. split; [reflexivity|]. split; [exact H1|]. split; [|exact H4].
    assert (BoostsDemo.shown <$> (snd <$> (BoostsDemo.race ≫= fun s =>
              run (prune_pass BoostsDemo.features 1000) (sys_world s)))
            = Some [("c", Some 1, Some 0); ("a", Some 1, Some 0); ("b", Some 0, Some 0)]) as E
      by (vm_compute; reflexivity).
    rewrite Er in E. cbn [mbind option_bind fmap option_fmap option_map] in E. rewrite H1 in E. by injection E.
Defined.
