(* ===== verification/MlsModel.v ===== *)
(** * Protected channels and MLS groups: documents and decisions
      (crates/core/database/src/models/mls, protected_channels/model.rs)

    A protected channel has seats, given out by a list its owner signs, and
    an MLS group that encrypts for the devices of the seated.  The server
    orders the commits of the group, one for each epoch, and refuses those
    that would let in anyone without a seat.  Here are the documents and the
    pure functions that take the decisions; MlsDb has the operations on the
    database.  A [Timestamp] is its nanoseconds; its range is a parameter. *)

From stdpp Require Import base numbers list gmap strings pretty sorting.
From S2P Require Import Prelude Text Errors SeatLists.
Open Scope Z_scope.

Definition MAX_MLS_GROUP_MEMBERS : Z := 100.
Definition MAX_MLS_TEXT_GROUP_MEMBERS : Z := 100.
Definition MLS_REJOIN_OUTSTANDING_WINDOW_SECONDS : Z := 30.
Definition SEAT_COOLDOWN_DAYS : Z := 14.
Definition MAX_CHANNEL_SLOT_CAP : Z := 100.
Definition MAX_TEXT_GROUP_GENERATION : Z := 63.

(** ** Documents of the MLS groups *)

Record MlsMemberDevice : Type := mkDevice { md_user_id : string; md_device_id : string }.
#[global] Instance device_eq_dec : EqDecision MlsMemberDevice.
Proof. solve_decision. Defined.

Record MlsKeyPackage : Type := mkPackage {
  kp_id : string;
  kp_user_id : string;
  kp_device_id : string;
  kp_key_package_ref : string;
  kp_key_package : string;
  kp_mls_signature_key : string;
  kp_binding_signature : string;
  kp_last_resort : bool;
  kp_expires_at : Z;
  kp_created_at : Z;
}.

Module MlsGroupKind.
Inductive t : Type := Call | Text.
#[global] Instance eq_dec : EqDecision t.
Proof. solve_decision. Defined.
End MlsGroupKind.

Record MlsPendingRemoval : Type := mkPendingRemoval { pr_user_id : string; pr_created_at : Z }.

Record MlsMemberAdded : Type := mkMemberAdded {
  ma_user_id : string;
  ma_device_id : string;
  ma_epoch : Z;
  ma_at : Z;
}.

Module MlsRemovalReason.
Inductive t : Type := OwnUser | PendingRemoval | OffList | Revoked | Rejoin.
End MlsRemovalReason.

Record MlsRemovedReason : Type := mkRemovedReason {
  rr_user_id : string;
  rr_device_id : string;
  rr_reason : MlsRemovalReason.t;
}.

Record MlsGroup : Type := mkGroup {
  g_id : string;
  g_channel_id : string;
  g_open : bool;
  g_created_by : MlsMemberDevice;
  g_created_at : Z;
  g_current_epoch : Z;
  g_members : list MlsMemberDevice;
  g_closed_at : option Z;
  g_superseded_by : option string;
  g_kind : MlsGroupKind.t;
  g_generation : option Z;
  g_seat_list_ad_sha256 : option string;
  g_pending_removals : list MlsPendingRemoval;
  g_member_added : list MlsMemberAdded;
}.

Record MlsJoinIntent : Type := mkIntentRow {
  ji_id : string;
  ji_group_id : string;
  ji_user_id : string;
  ji_device_id : string;
  ji_key_package_ref : string;
  ji_signature : string;
  ji_created_at : Z;
}.

Record MlsCommit : Type := mkCommit {
  cm_id : string;
  cm_group_id : string;
  cm_epoch : Z;
  cm_committer : MlsMemberDevice;
  cm_commit : string;
  cm_size : Z;
  cm_added : list MlsMemberDevice;
  cm_removed : list MlsMemberDevice;
  cm_created_at : Z;
  cm_rejoin_intents : list MlsJoinIntent;
  cm_removed_reasons : list MlsRemovedReason;
}.

Inductive MlsGroupCreateOutcome : Type :=
| Created
| Conflict (open_group_id channel_id : string).

Inductive MlsCommitOutcome : Type :=
| Won
| Lost (winning : MlsCommit).

(** [MlsCommit::composite_id], [MlsJoinIntent::composite_id],
    [ChannelSeat::composite_id] and [E2EEIdentity::composite_id] *)
Definition commit_id (group_id : string) (epoch : Z) : string := group_id +:+ ":" +:+ pretty epoch.
Definition intent_id (group_id user_id device_id : string) : string :=
  group_id +:+ ":" +:+ user_id +:+ ":" +:+ device_id.
Definition seat_id (channel_id user_id : string) : string := channel_id +:+ ":" +:+ user_id.
Definition identity_id (user_id device_id : string) : string := user_id +:+ ":" +:+ device_id.

Definition is_device (user_id device_id : string) (d : MlsMemberDevice) : bool :=
  str_eqb (md_user_id d) user_id && str_eqb (md_device_id d) device_id.

Definition has_member (g : MlsGroup) (user_id device_id : string) : bool :=
  existsb (is_device user_id device_id) (g_members g).

Definition member_device_of (g : MlsGroup) (user_id : string) : option MlsMemberDevice :=
  List.find (fun member => str_eqb (md_user_id member) user_id) (g_members g).

Definition has_pending_removal (g : MlsGroup) (user_id : string) : bool :=
  existsb (fun pending => str_eqb (pr_user_id pending) user_id) (g_pending_removals g).

Definition mls_text_enforced_device_cap (signed entitlement : Z) : Z :=
  if signed =? 0 then entitlement else if entitlement =? 0 then signed else Z.min signed entitlement.

Definition is_valid_group_id (group_id : string) : bool :=
  (String.length group_id =? 64)%nat
  && forallb (fun b => byte_between 48 57 b || byte_between 97 102 b)
       (String.list_ascii_of_string group_id).

(** ** Documents of the seats *)

Module EntitlementSource.
Inductive t : Type := AdminGrant | Prot | Crowdfund.
End EntitlementSource.

Module EntitlementState.
Inductive t : Type := Active | Grace | Frozen | Deleted.
#[global] Instance eq_dec : EqDecision t.
Proof. solve_decision. Defined.
End EntitlementState.

Record ChannelEntitlement : Type := mkEntitlement {
  en_id : string;
  en_channel_id : string;
  en_server_id : string;
  en_source : EntitlementSource.t;
  en_slot_cap : Z;
  en_device_cap : option Z;
  en_state : EntitlementState.t;
  en_granted_by : string;
  en_created_at : Z;
}.

Definition entitlement_is_active (e : ChannelEntitlement) : bool :=
  eqb (en_state e) EntitlementState.Active.

Record ChannelSeat : Type := mkSeat {
  st_id : string;
  st_channel_id : string;
  st_user_id : string;
  st_seated_at : Z;
  st_released_at : option Z;
  st_cooldown_until : option Z;
}.

Definition seat_is_active (s : ChannelSeat) : bool :=
  match st_released_at s with None => true | Some _ => false end.

Definition is_cooling (s : ChannelSeat) (now : Z) : bool :=
  match st_released_at s with Some _ => true | None => false end
  && match st_cooldown_until s with Some until => now <? until | None => false end.

Definition counts_against_cap (s : ChannelSeat) (now : Z) : bool :=
  seat_is_active s || is_cooling s now.

Definition reactivate (s : ChannelSeat) (now : Z) : ChannelSeat :=
  mkSeat (st_id s) (st_channel_id s) (st_user_id s) now None None.

Definition channel_seats_used (seats : list ChannelSeat) (now : Z) : nat :=
  length (List.filter (fun seat => counts_against_cap seat now) seats).

Record SeatListSubmission : Type := mkSubmission {
  sub_body : string;
  sub_signature : string;
  sub_signer_device_id : string;
  sub_handover : option SignedHandover;
}.

Record SeatListWriteOutcome : Type := mkOutcome {
  so_list : SeatList;
  so_unchanged : bool;
  so_claimed : list string;
  so_released : list string;
  so_pending_removals_added : list string;
}.

Inductive SeatListWriteKind : Type := Protect | Put.

Record SeatListWritePlan : Type := mkPlan {
  pl_row : SeatList;
  pl_seat_rows : list ChannelSeat;
  pl_claimed : list string;
  pl_released : list string;
  pl_pending_added : list MlsPendingRemoval;
  pl_seat_list_ad_sha256 : string;
}.

Inductive SeatListWriteDecision : Type :=
| Unchanged (list : SeatList)
| Apply (plan : SeatListWritePlan).

Definition decision_outcome (d : SeatListWriteDecision) : SeatListWriteOutcome :=
  match d with
  | Unchanged list => mkOutcome list true [] [] []
  | Apply plan => mkOutcome (pl_row plan) false (pl_claimed plan) (pl_released plan)
                    (pr_user_id <$> pl_pending_added plan)
  end.

(** What is read of a channel: a text channel, a thread, or another kind *)
Inductive PChannel : Type :=
| TextChannel (server : string) (protected : bool) (last_message_id : option string)
    (voice : bool) (announcement : option bool)
| Thread (parent_channel : string)
| OtherChannel.

Definition seat_list_channel_server (channel : PChannel) : option string :=
  match channel with TextChannel server _ _ _ _ => Some server | _ => None end.

Definition check_channel_protectable (channel : option PChannel) : Result unit :=
  match channel with
  | None => Err ErrorType.NotFound
  | Some (TextChannel _ false None false announcement) =>
      if eqb announcement (Some true) then Err ErrorType.InvalidOperation else Ok tt
  | Some _ => Err ErrorType.InvalidOperation
  end.

Definition is_genesis_reprotect (submission : SeatListSubmission) (stored : SeatList) : bool :=
  (sl_version stored =? 1) && str_eqb (sub_body submission) (sl_body stored)
  && str_eqb (sub_signature submission) (sl_signature stored)
  && str_eqb (sub_signer_device_id submission) (sl_signer_device_id stored)
  && match sub_handover submission with None => true | Some _ => false end.

Definition check_text_first_generation (g : MlsGroup) : Result unit :=
  if eqb (g_generation g) (Some 0) then Ok tt
  else invalid "first text group must be generation 0".

(** [generation.checked_add(1)] of a [u32] *)
Definition checked_succ_u32 (n : Z) : option Z := if n <? u32_max then Some (n + 1) else None.

Definition check_text_successor (superseded successor : MlsGroup) : Result unit :=
  if negb (str_eqb (g_channel_id superseded) (g_channel_id successor))
  then invalid "superseded group belongs to another channel"
  else if negb (eqb (g_kind superseded) MlsGroupKind.Text)
  then invalid "superseded group is not a text group"
  else
    let expected := g_generation superseded ≫= checked_succ_u32 in
    if match expected with None => true | Some _ => false end
       || negb (eqb expected (g_generation successor))
    then invalid "successor generation must be superseded generation + 1"
    else Ok tt.

Definition contains_user (users : list string) (u : string) : bool := existsb (str_eqb u) users.

Definition seat_list_removed_users (body : SeatListBody) (stored : option SeatList)
    (seats : list ChannelSeat) : Result (list string) :=
  match stored with
  | None => Ok []
  | Some stored =>
      let? before := seat_list_parse (sl_body stored) in
      Ok (List.filter (fun u =>
            negb (str_eqb u (sb_signer_user_id body)) && contains_user (sb_seats before) u
            && negb (existsb (fun seat => str_eqb (st_user_id seat) u && seat_is_active seat) seats))
            (sb_seats body))
  end.

(** [BTreeSet]: its elements in order *)
Definition btree_set (l : list string) : list string := dedup (sort_by str_leb l).

(** ** Decisions *)

Section Decisions.
Context (b64_decode : string -> option string) (sha256 : string -> string).
(** The first and last [Timestamp], in nanoseconds *)
Context (ts_min ts_max : Z).

Definition checked_ts (t : Z) : option Z :=
  if (ts_min <=? t) && (t <=? ts_max) then Some t else None.

Definition NANOS : Z := 1000000000.

Definition seat_cooldown_until (now : Z) : Result Z :=
  ok_or (checked_ts (now + SEAT_COOLDOWN_DAYS * 24 * 3600 * NANOS)) ErrorType.InternalError.

Definition seat_release (s : ChannelSeat) (now : Z) : Result ChannelSeat :=
  let? until := seat_cooldown_until now in
  Ok (mkSeat (st_id s) (st_channel_id s) (st_user_id s) (st_seated_at s) (Some now) (Some until)).

(** The loop over the listed users: the rows to write, the users who get a
    seat, and how many new slots that takes *)
Fixpoint claim_seats (channel_id : string) (seats : list ChannelSeat) (now : Z)
    (desired : list string) : list ChannelSeat * list string * nat :=
  match desired with
  | [] => ([], [], 0%nat)
  | user_id :: rest =>
      let '(rows, claimed, new_slots) := claim_seats channel_id seats now rest in
      match List.find (fun seat => str_eqb (st_user_id seat) user_id) seats with
      | Some seat =>
          if seat_is_active seat then (rows, claimed, new_slots)
          else (reactivate seat now :: rows, user_id :: claimed,
                if is_cooling seat now then new_slots else S new_slots)
      | None =>
          (mkSeat (seat_id channel_id user_id) channel_id user_id now None None :: rows,
           user_id :: claimed, S new_slots)
      end
  end.

(** The loop over the seats no longer listed *)
Fixpoint release_seats (desired : list string) (now : Z) (seats : list ChannelSeat)
    : Result (list ChannelSeat * list string) :=
  match seats with
  | [] => Ok ([], [])
  | seat :: rest =>
      if seat_is_active seat && negb (contains_user desired (st_user_id seat)) then
        let? row := seat_release seat now in
        let? p := release_seats desired now rest in
        Ok (row :: p.1, st_user_id seat :: p.2)
      else release_seats desired now rest
  end.

(** The users dropped by a list who still have a device in the group *)
Definition pending_for (group : MlsGroup) (desired dropped : list string) (now : Z)
    : list MlsPendingRemoval :=
  (fun u => mkPendingRemoval u now) <$>
  List.filter (fun u =>
    negb (contains_user desired u)
    && (existsb (fun member => str_eqb (md_user_id member) u) (g_members group)
        && negb (has_pending_removal group u))) dropped.

Record SeatListWriteInput : Type := mkInput {
  in_kind : SeatListWriteKind;
  in_channel_id : string;
  in_submission : SeatListSubmission;
  in_stored : option SeatList;
  in_entitlement : option ChannelEntitlement;
  in_seats : list ChannelSeat;
  in_text_group : option MlsGroup;
  in_allow_claims : bool;
  in_now : Z;
}.

(** Step 4, the version rule: [Some list] is the stored list, unchanged *)
Definition version_rule (input : SeatListWriteInput) (body : SeatListBody) : Result (option SeatList) :=
  let submission := in_submission input in
  match in_kind input, in_stored input with
  | Protect, Some _ => invalid "channel already has a seat list"
  | Protect, None =>
      if negb (sb_version body =? 1) then invalid "genesis seat list must be version 1" else Ok None
  | Put, None => invalid "channel has no seat list"
  | Put, Some stored =>
      if (sb_version body =? sl_version stored) && str_eqb (sub_body submission) (sl_body stored)
         && str_eqb (sub_signature submission) (sl_signature stored)
      then Ok (Some stored)
      else if negb (eqb (Some (sb_version body)) (checked_add_i64 (sl_version stored) 1))
      then invalid "seat list version must be stored version + 1"
      else Ok None
  end.

(** The checks on claims: the growth flag, the entitlement, the slot cap *)
Definition check_claims (input : SeatListWriteInput) (claimed : list string) (new_slots : nat)
    : Result unit :=
  let nobody := match claimed with [] => true | _ => false end in
  if negb (in_allow_claims input) && negb nobody
  then Err (ErrorType.FeatureDisabled "protected_channels")
  else if negb nobody then
    match in_entitlement input with
    | Some e =>
        if negb (entitlement_is_active e) then Err ErrorType.InvalidOperation
        else if (0 <? new_slots)%nat
                && (en_slot_cap e
                    <? Z.of_nat (channel_seats_used (in_seats input) (in_now input) + new_slots))
        then Err (ErrorType.SeatCapReached (en_slot_cap e))
        else Ok tt
    | None => Err ErrorType.InvalidOperation
    end
  else match in_kind input with Protect => Err ErrorType.InvalidOperation | Put => Ok tt end.

Definition pending_added_for (input : SeatListWriteInput) (desired : list string)
    : Result (list MlsPendingRemoval) :=
  match in_text_group input with
  | None => Ok []
  | Some group =>
      let active := st_user_id <$> List.filter seat_is_active (in_seats input) in
      let? listed := match in_stored input with
                     | Some stored => let? b := seat_list_parse (sl_body stored) in Ok (sb_seats b)
                     | None => Ok [] end in
      Ok (pending_for group desired (btree_set (active ++ listed)) (in_now input))
  end.

(** Step 8: the chain of handovers *)
Definition handovers_after (input : SeatListWriteInput) : Result (list SignedHandover) :=
  let stored := from_option sl_handovers [] (in_stored input) in
  let? handovers :=
    match sub_handover (in_submission input) with
    | Some h =>
        check (String.length (ho_body h) <=? MAX_HANDOVER_BODY_LEN)%nat "handover body too long" (
        let? _ := decode_signature_b64 b64_decode (ho_signature h) in Ok (stored ++ [h]))
    | None => Ok stored
    end in
  check (length handovers <=? MAX_SEAT_LIST_HANDOVERS)%nat "handover chain too long" (Ok handovers).

Definition seat_leb (a b : ChannelSeat) : bool := str_leb (st_id a) (st_id b).

Definition plan_seat_list_write (input : SeatListWriteInput) : Result SeatListWriteDecision :=
  let submission := in_submission input in
  let now := in_now input in
  let? body := seat_list_parse (sub_body submission) in
  if negb (str_eqb (sb_channel_id body) (in_channel_id input))
  then invalid "seat list channel_id does not match the channel"
  else if negb (str_eqb (sb_signer_device_id body) (sub_signer_device_id submission))
  then invalid "signer_device_id does not match the seat list body"
  else
    let? _ := decode_signature_b64 b64_decode (sub_signature submission) in
    let? retry := version_rule input body in
    match retry with
    | Some stored => Ok (Unchanged stored)
    | None =>
        let? removed := seat_list_removed_users body (in_stored input) (in_seats input) in
        if match removed with [] => false | _ => true end
        then Err (ErrorType.SeatListNamesRemovedUsers removed)
        else if match in_kind input, in_text_group input with
                | Put, Some group =>
                    negb (has_member group (sb_signer_user_id body) (sb_signer_device_id body))
                | _, _ => false end
        then invalid "seat list signer device holds no leaf"
        else
          let desired := btree_set (sb_seats body) in
          let '(claim_rows, claimed, new_slots) :=
            claim_seats (in_channel_id input) (in_seats input) now desired in
          let? released := release_seats desired now (in_seats input) in
          let? _ := check_claims input claimed new_slots in
          let? pending_added := pending_added_for input desired in
          let? handovers := handovers_after input in
          let row := mkSeatList (in_channel_id input) (sb_version body) (sub_body submission)
                       (sb_signer_user_id body) (sb_signer_device_id body)
                       (sub_signature submission) handovers now in
          let? ad := commit_ad_sha256 b64_decode sha256 row in
          Ok (Apply (mkPlan row (sort_by seat_leb (claim_rows ++ released.1))
                       (sort_by str_leb claimed) (sort_by str_leb released.2) pending_added ad))
    end.

Definition prepare_text_group (group : MlsGroup) (l : SeatList) : Result MlsGroup :=
  if match g_generation group with
     | Some generation => negb (generation <=? MAX_TEXT_GROUP_GENERATION) | None => true end
  then invalid "text group generation"
  else if negb (g_open group) || negb (g_current_epoch group =? 0)
          || match g_closed_at group with Some _ => true | None => false end
          || match g_superseded_by group with Some _ => true | None => false end
  then invalid "text group must be created open at epoch 0"
  else if negb (bool_decide (g_members group = [g_created_by group]))
  then invalid "text group must start with its creator only"
  else if negb (str_eqb (md_user_id (g_created_by group)) (sl_signer_user_id l))
          || negb (str_eqb (md_device_id (g_created_by group)) (sl_signer_device_id l))
  then invalid "only the current seat list signer device may create"
  else
    let? ad := commit_ad_sha256 b64_decode sha256 l in
    Ok (mkGroup (g_id group) (g_channel_id group) (g_open group) (g_created_by group)
          (g_created_at group) (g_current_epoch group) (g_members group) (g_closed_at group)
          (g_superseded_by group) MlsGroupKind.Text (g_generation group) (Some ad) []
          [mkMemberAdded (md_user_id (g_created_by group)) (md_device_id (g_created_by group)) 0
             (g_created_at group)]).
End Decisions.

(** ** Commits to a text group *)

Record MlsTextCommitPlan : Type := mkTextPlan {
  tp_stored : MlsCommit;
  tp_members : list MlsMemberDevice;
  tp_member_added : list MlsMemberAdded;
  tp_cleared_pending : list string;
  tp_consumed_intent_ids : list string;
}.

Definition resecuring {A} (reason : string) : Result A :=
  Err (ErrorType.ProtectedChannelResecuring reason).

Definition contains_device (l : list MlsMemberDevice) (d : MlsMemberDevice) : bool :=
  bool_decide (d ∈ l).

(** No device twice among the added and the removed *)
Fixpoint check_declared (added removed seen devices : list MlsMemberDevice) : Result unit :=
  match devices with
  | [] => Ok tt
  | d :: rest =>
      if contains_device seen d then
        invalid (if contains_device added d && contains_device removed d
                 then "device is both added and removed" else "duplicate device in fan-out lists")
      else check_declared added removed (d :: seen) rest
  end.

Section TextCommits.
Context (ts_min ts_max : Z).

(** The Remove rule, for each removed device; the intents it consumes *)
Fixpoint check_removed (group : MlsGroup) (signed : SeatListBody) (committer : MlsMemberDevice)
    (window_start : Z) (stored_intents : list MlsJoinIntent) (revoked : list string)
    (removed : list MlsMemberDevice) : Result (list MlsJoinIntent) :=
  match removed with
  | [] => Ok []
  | d :: rest =>
      let u := md_user_id d in
      let dev := md_device_id d in
      let continue := check_removed group signed committer window_start stored_intents revoked rest in
      if negb (has_member group u dev) then invalid "removed device is not a member"
      else if str_eqb u (md_user_id committer) && str_eqb dev (md_device_id committer)
      then invalid "a device cannot remove itself"
      else
        let committer_is_signer :=
          str_eqb (md_user_id committer) (sb_signer_user_id signed)
          && str_eqb (md_device_id committer) (sb_signer_device_id signed) in
        let is_signer_device :=
          str_eqb u (sb_signer_user_id signed) && str_eqb dev (sb_signer_device_id signed) in
        if negb is_signer_device
           && (str_eqb u (md_user_id committer) || has_pending_removal group u
               || contains_user revoked (identity_id u dev)
               || committer_is_signer && negb (contains_user (sb_seats signed) u))
        then continue
        else
          let added_at :=
            ma_at <$> List.find (fun e => str_eqb (ma_user_id e) u && str_eqb (ma_device_id e) dev)
                        (g_member_added group) in
          let intent :=
            List.find (fun i => str_eqb (ji_id i) (intent_id (g_id group) u dev)
                                && str_eqb (ji_group_id i) (g_id group)
                                && str_eqb (ji_user_id i) u && str_eqb (ji_device_id i) dev)
              stored_intents in
          match intent, added_at with
          | Some intent, Some added_at =>
              if (window_start <=? ji_created_at intent) && (added_at <? ji_created_at intent)
              then let? others := continue in Ok (intent :: others)
              else invalid "removal not permitted"
          | _, _ => invalid "removal not permitted"
          end
  end.

Fixpoint check_added (group : MlsGroup) (signed : SeatListBody) (active_seat_users : list string)
    (added : list MlsMemberDevice) : Result unit :=
  match added with
  | [] => Ok tt
  | d :: rest =>
      if has_member group (md_user_id d) (md_device_id d)
      then invalid "added device is already a member"
      else if negb (contains_user active_seat_users (md_user_id d)) then Err ErrorType.NotSeated
      else if negb (contains_user (sb_seats signed) (md_user_id d))
      then invalid "added user is not seated"
      else check_added group signed active_seat_users rest
  end.

Definition devices_of (members : list MlsMemberDevice) (u : string) : Z :=
  Z.of_nat (length (List.filter (fun m => str_eqb (md_user_id m) u) members)).

Fixpoint check_device_cap (members : list MlsMemberDevice) (cap : Z) (added : list MlsMemberDevice)
    : Result unit :=
  match added with
  | [] => Ok tt
  | d :: rest =>
      if cap <? devices_of members (md_user_id d) then Err (ErrorType.DeviceCapReached cap)
      else check_device_cap members cap rest
  end.

Definition is_empty_list {A} (l : list A) : bool := match l with [] => true | _ => false end.

Definition plan_mls_text_commit (group : MlsGroup) (commit : MlsCommit) (ad_sha256 : string)
    (seat_list : option SeatList) (entitlement_device_cap : Z) (stored_intents : list MlsJoinIntent)
    (revoked_identities active_seat_users : list string) : Result MlsTextCommitPlan :=
  let committer := cm_committer commit in
  if negb (eqb (g_kind group) MlsGroupKind.Text) then Err ErrorType.InvalidOperation
  else if negb (str_eqb (cm_group_id commit) (g_id group)) then invalid "commit targets another group"
  else if negb (g_open group) then invalid "group is closed"
  else if negb (has_member group (md_user_id committer) (md_device_id committer))
  then resecuring "not_member"
  else if cm_epoch commit <=? g_current_epoch group then Err ErrorType.NotFound
  else if negb (cm_epoch commit =? g_current_epoch group + 1)
  then invalid "commit epoch must be exactly current_epoch + 1"
  else if negb (is_some_str (g_seat_list_ad_sha256 group) ad_sha256)
  then resecuring "stale_seat_list"
  else
    let? seat_list :=
      ok_or seat_list (ErrorType.FailedValidation "channel has no seat list") in
    let? signed := match seat_list_parse (sl_body seat_list) with
                   | Ok b => Ok b | Err _ => invalid "stored seat list is malformed" end in
    if negb (str_eqb (sb_channel_id signed) (g_channel_id group))
       || negb (str_eqb (sl_id seat_list) (g_channel_id group))
       || negb (str_eqb (sb_signer_user_id signed) (sl_signer_user_id seat_list))
       || negb (str_eqb (sb_signer_device_id signed) (sl_signer_device_id seat_list))
    then invalid "stored seat list does not match its channel or signer"
    else
      let? _ := check_declared (cm_added commit) (cm_removed commit) []
                  (cm_added commit ++ cm_removed commit) in
      if negb (is_empty_list (cm_added commit)) && negb (is_empty_list (g_pending_removals group))
      then resecuring "pending_removal"
      else
        let? window_start :=
          ok_or (checked_ts ts_min ts_max
                   (cm_created_at commit - MLS_REJOIN_OUTSTANDING_WINDOW_SECONDS * NANOS))
            (ErrorType.FailedValidation "invalid commit time") in
        let? rejoin_intents :=
          check_removed group signed committer window_start stored_intents revoked_identities
            (cm_removed commit) in
        let? _ := check_added group signed active_seat_users (cm_added commit) in
        let members :=
          List.filter (fun m => negb (contains_device (cm_removed commit) m)) (g_members group)
          ++ cm_added commit in
        if MAX_MLS_TEXT_GROUP_MEMBERS <? Z.of_nat (length members)
        then Err (ErrorType.MlsCallFull MAX_MLS_TEXT_GROUP_MEMBERS)
        else
          let cap := mls_text_enforced_device_cap (sb_device_cap signed) entitlement_device_cap in
          let? _ := (if cap =? 0 then Ok tt else check_device_cap members cap (cm_added commit)) in
          let member_added :=
            List.filter (fun e => negb (existsb (is_device (ma_user_id e) (ma_device_id e))
                                          (cm_removed commit))) (g_member_added group)
            ++ ((fun d => mkMemberAdded (md_user_id d) (md_device_id d) (cm_epoch commit)
                            (cm_created_at commit)) <$> cm_added commit) in
          let cleared_pending :=
            pr_user_id <$> List.filter (fun pending =>
              negb (existsb (fun m => str_eqb (md_user_id m) (pr_user_id pending)) members))
              (g_pending_removals group) in
          let consumed :=
            ((fun d => intent_id (g_id group) (md_user_id d) (md_device_id d)) <$> cm_added commit)
            ++ (ji_id <$> rejoin_intents) in
          let stored := mkCommit (commit_id (cm_group_id commit) (cm_epoch commit))
            (cm_group_id commit) (cm_epoch commit) (cm_committer commit) (cm_commit commit)
            (cm_size commit) (cm_added commit) (cm_removed commit) (cm_created_at commit)
            rejoin_intents (cm_removed_reasons commit) in
          Ok (mkTextPlan stored members member_added cleared_pending consumed).
End TextCommits.
