(* ===== verification/MlsDb.v ===== *)
(** * Protected channels and MLS groups: the in-memory driver
      (models/mls/ops/reference.rs, models/protected_channels/ops/reference.rs)

    Each operation holds the locks of the collections it touches from its
    first read to its last write, so it is one step on the state.  Where a
    hash map is walked the order is a parameter. *)

From stdpp Require Import base numbers list gmap strings pretty sorting.
From S2P Require Import Prelude Text Errors SeatLists MlsModel.
Open Scope Z_scope.

Abbreviation Groups := (gmap string MlsGroup).
Abbreviation Commits := (gmap string MlsCommit).
Abbreviation Intents := (gmap string MlsJoinIntent).
Abbreviation Packages := (gmap string MlsKeyPackage).
Abbreviation Seats := (gmap string ChannelSeat).
Abbreviation SeatLists := (gmap string SeatList).
Abbreviation Entitlements := (gmap string ChannelEntitlement).

(** Of messages, servers, members, identities and queued envelopes, what is
    read: the channel, the owner, the (server, user) pair, the id, the group *)
Record Db : Type := mkDb {
  d_channels : gmap string PChannel;
  d_messages : gmap string string;
  d_entitlements : Entitlements;
  d_servers : gmap string string;
  d_members : gset (string * string);
  d_seat_lists : SeatLists;
  d_seats : Seats;
  d_groups : Groups;
  d_commits : Commits;
  d_intents : Intents;
  d_identities : gset string;
  d_queue : gmap string (option string);
  d_packages : Packages;
}.

Definition set_channels (d : Db) (x : gmap string PChannel) : Db :=
  mkDb x (d_messages d) (d_entitlements d) (d_servers d) (d_members d) (d_seat_lists d) (d_seats d)
    (d_groups d) (d_commits d) (d_intents d) (d_identities d) (d_queue d) (d_packages d).
Definition set_entitlements (d : Db) (x : Entitlements) : Db :=
  mkDb (d_channels d) (d_messages d) x (d_servers d) (d_members d) (d_seat_lists d) (d_seats d)
    (d_groups d) (d_commits d) (d_intents d) (d_identities d) (d_queue d) (d_packages d).
Definition set_seating (d : Db) (lists : SeatLists) (seats : Seats) (groups : Groups) : Db :=
  mkDb (d_channels d) (d_messages d) (d_entitlements d) (d_servers d) (d_members d) lists seats
    groups (d_commits d) (d_intents d) (d_identities d) (d_queue d) (d_packages d).
Definition set_mls (d : Db) (groups : Groups) (commits : Commits) (intents : Intents) : Db :=
  mkDb (d_channels d) (d_messages d) (d_entitlements d) (d_servers d) (d_members d) (d_seat_lists d)
    (d_seats d) groups commits intents (d_identities d) (d_queue d) (d_packages d).
Definition set_queue (d : Db) (x : gmap string (option string)) : Db :=
  mkDb (d_channels d) (d_messages d) (d_entitlements d) (d_servers d) (d_members d) (d_seat_lists d)
    (d_seats d) (d_groups d) (d_commits d) (d_intents d) (d_identities d) x (d_packages d).
Definition set_packages (d : Db) (x : Packages) : Db :=
  mkDb (d_channels d) (d_messages d) (d_entitlements d) (d_servers d) (d_members d) (d_seat_lists d)
    (d_seats d) (d_groups d) (d_commits d) (d_intents d) (d_identities d) (d_queue d) x.

(** [HashMap::retain] on the values *)
Definition retain {V} (p : V -> bool) (m : gmap string V) : gmap string V :=
  filter (fun kv => p kv.2 = true) m.

Definition set_open (g : MlsGroup) (open : bool) (closed_at : option Z) (by_ : option string)
    : MlsGroup :=
  mkGroup (g_id g) (g_channel_id g) open (g_created_by g) (g_created_at g) (g_current_epoch g)
    (g_members g) closed_at by_ (g_kind g) (g_generation g) (g_seat_list_ad_sha256 g)
    (g_pending_removals g) (g_member_added g).

Definition set_roster (g : MlsGroup) (epoch : Z) (members : list MlsMemberDevice)
    (pending : list MlsPendingRemoval) (added : list MlsMemberAdded) : MlsGroup :=
  mkGroup (g_id g) (g_channel_id g) (g_open g) (g_created_by g) (g_created_at g) epoch
    members (g_closed_at g) (g_superseded_by g) (g_kind g) (g_generation g)
    (g_seat_list_ad_sha256 g) pending added.

Definition set_seat_list_ad (g : MlsGroup) (ad : string) (pending : list MlsPendingRemoval) : MlsGroup :=
  mkGroup (g_id g) (g_channel_id g) (g_open g) (g_created_by g) (g_created_at g)
    (g_current_epoch g) (g_members g) (g_closed_at g) (g_superseded_by g) (g_kind g)
    (g_generation g) (Some ad) pending (g_member_added g).

Definition TEXT_COMMIT_KEY_PREFIX : string := "text:".
Definition text_commit_key (id : string) : string := TEXT_COMMIT_KEY_PREFIX +:+ id.
Definition CONTEXT_TEXT_GROUP : string := "sloga-text-group-v1".

Section Driver.
Context `{!HashIter string MlsGroup, !HashIter string MlsCommit, !HashIter string MlsJoinIntent}.
Context `{!HashIter string MlsKeyPackage, !HashIter string ChannelSeat}.
Context `{!HashIter string ChannelEntitlement, !HashIter string PChannel, !HashIter string string}.

(** ** Key packages *)

Definition one_time_of (user_id device_id : string) (p : MlsKeyPackage) : bool :=
  str_eqb (kp_user_id p) user_id && str_eqb (kp_device_id p) device_id && negb (kp_last_resort p).

Definition insert_all (packages : list MlsKeyPackage) (m : Packages) : Packages :=
  foldl (fun m p => <[kp_id p := p]> m) m packages.

Definition insert_mls_key_packages (d : Db) (packages : list MlsKeyPackage) : Db * Result unit :=
  (set_packages d (insert_all packages (d_packages d)), Ok tt).

Definition count_one_time (m : Packages) (user_id device_id : string) : nat :=
  length (List.filter (one_time_of user_id device_id) (hm_values m)).

Definition count_mls_key_packages (d : Db) (user_id device_id : string) : Result Z :=
  Ok (Z.of_nat (count_one_time (d_packages d) user_id device_id)).

(** The order of [(created_at, id)] *)
Definition package_leb (a b : Z * string) : bool :=
  (a.1 <? b.1) || ((a.1 =? b.1) && str_leb a.2 b.2).

Definition insert_mls_key_packages_capped (d : Db) (user_id device_id : string)
    (packages : list MlsKeyPackage) (max : nat) : Db * Result Z :=
  let stored := insert_all packages (d_packages d) in
  let count := count_one_time stored user_id device_id in
  if (count <=? max)%nat then (set_packages d stored, Ok (Z.of_nat count))
  else
    let prunable :=
      sort_by package_leb
        ((fun p => (kp_created_at p, kp_id p)) <$>
         List.filter (fun p => one_time_of user_id device_id p
                               && negb (contains_user (kp_id <$> packages) (kp_id p)))
           (hm_values stored)) in
    let pruned := take (count - max) prunable in
    (set_packages d (foldl (fun m p => delete p.2 m) stored pruned),
     Ok (Z.of_nat (count - length pruned))).

(** [.min()] of the ids *)
Definition min_id (ids : list string) : option string :=
  match sort_by str_leb ids with id :: _ => Some id | [] => None end.

Definition consume_mls_key_package (d : Db) (user_id device_id : string)
    : Db * Result (option MlsKeyPackage) :=
  match min_id (kp_id <$> List.filter (one_time_of user_id device_id) (hm_values (d_packages d))) with
  | None => (d, Ok None)
  | Some id => (set_packages d (delete id (d_packages d)), Ok (d_packages d !! id))
  end.

Definition of_device (user_id device_id : string) (p : MlsKeyPackage) : bool :=
  str_eqb (kp_user_id p) user_id && str_eqb (kp_device_id p) device_id.

Definition fetch_one_mls_key_package (d : Db) (user_id device_id : string)
    : Result (option MlsKeyPackage) :=
  Ok (List.find (of_device user_id device_id) (hm_values (d_packages d))).

Definition fetch_mls_last_resort_key_package (d : Db) (user_id device_id : string) (now : Z)
    : Result (option MlsKeyPackage) :=
  Ok (List.find (fun p => of_device user_id device_id p && kp_last_resort p
                          && (now <? kp_expires_at p)) (hm_values (d_packages d))).

Definition replace_mls_last_resort_key_package (d : Db) (package : MlsKeyPackage) : Db * Result unit :=
  let kept := retain (fun p => negb (of_device (kp_user_id package) (kp_device_id package) p
                                     && kp_last_resort p)) (d_packages d) in
  (set_packages d (<[kp_id package := package]> kept), Ok tt).

Definition delete_mls_key_packages (d : Db) (user_id device_id : string) : Db * Result Z :=
  let kept := retain (fun p => negb (of_device user_id device_id p)) (d_packages d) in
  (set_packages d kept, Ok (Z.of_nat (size (d_packages d) - size kept))).

Definition delete_expired_mls_key_packages (d : Db) (now : Z) : Db * Result Z :=
  let kept := retain (fun p => now <? kp_expires_at p) (d_packages d) in
  (set_packages d kept, Ok (Z.of_nat (size (d_packages d) - size kept))).

(** ** Call groups *)

Definition is_open_of (channel_id : string) (kind : MlsGroupKind.t) (g : MlsGroup) : bool :=
  str_eqb (g_channel_id g) channel_id && eqb (g_kind g) kind && g_open g.

Definition create_mls_group (d : Db) (group : MlsGroup) (supersedes : option string)
    : Db * Result MlsGroupCreateOutcome :=
  let groups := d_groups d in
  let afresh :=
    match List.find (is_open_of (g_channel_id group) (g_kind group)) (hm_values groups) with
    | Some open => (d, Ok (Conflict (g_id open) (g_channel_id open)))
    | None =>
        if bool_decide (is_Some (groups !! g_id group)) then (d, Err ErrorType.InvalidOperation)
        else (set_mls d (<[g_id group := group]> groups) (d_commits d) (d_intents d), Ok Created)
    end in
  if negb (eqb (g_kind group) MlsGroupKind.Call) then (d, Err ErrorType.InvalidOperation)
  else
    match supersedes with
    | None => afresh
    | Some superseded_id =>
        match groups !! superseded_id with
        | None => (d, Err ErrorType.NotFound)
        | Some old =>
            if negb (str_eqb (g_channel_id old) (g_channel_id group))
            then (d, invalid "superseded group belongs to another channel")
            else if negb (eqb (g_kind old) (g_kind group))
            then (d, invalid "superseded group is of another kind")
            else if negb (g_open old) then afresh
            else if bool_decide (is_Some (groups !! g_id group))
            then (d, Err ErrorType.InvalidOperation)
            else
              let closed := set_open old false (Some (g_created_at group)) (Some (g_id group)) in
              (set_mls d (<[g_id group := group]> (<[superseded_id := closed]> groups))
                 (d_commits d) (d_intents d), Ok Created)
        end
    end.

Definition fetch_mls_group (d : Db) (group_id : string) : Result MlsGroup :=
  ok_or (d_groups d !! group_id) ErrorType.NotFound.

Definition fetch_open_mls_group_for_channel (d : Db) (channel_id : string) (kind : MlsGroupKind.t)
    : Result (option MlsGroup) :=
  Ok (List.find (is_open_of channel_id kind) (hm_values (d_groups d))).

Definition close_mls_group (d : Db) (group_id : string) (now : Z) : Db * Result bool :=
  match d_groups d !! group_id with
  | None => (d, Err ErrorType.NotFound)
  | Some g =>
      if negb (eqb (g_kind g) MlsGroupKind.Call) then (d, Err ErrorType.InvalidOperation)
      else if negb (g_open g) then (d, Ok false)
      else (set_mls d (<[group_id := set_open g false (Some now) (g_superseded_by g)]> (d_groups d))
              (d_commits d) (d_intents d), Ok true)
  end.

(** The loop over the added devices of a call commit *)
Fixpoint check_added_call (g : MlsGroup) (added : list MlsMemberDevice) : Result unit :=
  match added with
  | [] => Ok tt
  | a :: rest =>
      match member_device_of g (md_user_id a) with
      | Some existing =>
          invalid (if str_eqb (md_device_id existing) (md_device_id a)
                   then "added device is already a member"
                   else "user already has a live leaf from another device")
      | None => check_added_call g rest
      end
  end.

Definition remove_intents (intents : Intents) (ids : list string) : Intents :=
  foldl (fun m id => delete id m) intents ids.

(** [members.len() + added.len() - real_removals], which wraps *)
Definition roster_size (g : MlsGroup) (commit : MlsCommit) : Z :=
  let real_removals :=
    length (List.filter (fun r => has_member g (md_user_id r) (md_device_id r)) (cm_removed commit)) in
  as_u64 (Z.of_nat (length (g_members g)) + Z.of_nat (length (cm_added commit))
          - Z.of_nat real_removals).

Definition insert_mls_commit (d : Db) (commit : MlsCommit) : Db * Result MlsCommitOutcome :=
  let id := commit_id (cm_group_id commit) (cm_epoch commit) in
  match d_groups d !! cm_group_id commit with
  | None => (d, Err ErrorType.NotFound)
  | Some g =>
      if negb (eqb (g_kind g) MlsGroupKind.Call) then (d, Err ErrorType.InvalidOperation)
      else if negb (g_open g) then (d, invalid "group is closed")
      else if negb (has_member g (md_user_id (cm_committer commit)) (md_device_id (cm_committer commit)))
      then (d, Err ErrorType.NotFound)
      else if cm_epoch commit <=? g_current_epoch g then
        match d_commits d !! id with
        | Some winning => (d, Ok (Lost winning))
        | None => (d, Err ErrorType.NotFound)
        end
      else if negb (cm_epoch commit =? g_current_epoch g + 1)
      then (d, invalid "commit epoch must be exactly current_epoch + 1")
      else
        match check_added_call g (cm_added commit) with
        | Err e => (d, Err e)
        | Ok _ =>
            if MAX_MLS_GROUP_MEMBERS <? roster_size g commit
            then (d, invalid "group is at the E2EE roster ceiling")
            else
              match d_commits d !! id with
              | Some winning => (d, Ok (Lost winning))
              | None =>
                  let members :=
                    List.filter (fun m => negb (contains_device (cm_removed commit) m)) (g_members g)
                    ++ cm_added commit in
                  let g' := set_roster g (cm_epoch commit) members (g_pending_removals g)
                              (g_member_added g) in
                  let intents :=
                    remove_intents (d_intents d)
                      ((fun a => intent_id (cm_group_id commit) (md_user_id a) (md_device_id a))
                       <$> cm_added commit) in
                  (set_mls d (<[cm_group_id commit := g']> (d_groups d))
                     (<[id := commit]> (d_commits d)) intents, Ok Won)
              end
        end
  end.

(** ** Text groups *)

Section Text.
Context (ts_min ts_max : Z).

Definition insert_mls_text_commit (d : Db) (commit : MlsCommit) (ad_sha256 : string)
    (entitlement_device_cap : Z) : Db * Result MlsCommitOutcome :=
  let id := commit_id (cm_group_id commit) (cm_epoch commit) in
  match d_commits d !! text_commit_key id with
  | Some winning => (d, Ok (Lost winning))
  | None =>
      match d_groups d !! cm_group_id commit with
      | None => (d, Err ErrorType.NotFound)
      | Some g =>
          let stored_intents :=
            omap (fun r => d_intents d !! intent_id (g_id g) (md_user_id r) (md_device_id r))
              (cm_removed commit) in
          let revoked :=
            List.filter (fun i => negb (bool_decide (i ∈ d_identities d)))
              ((fun r => identity_id (md_user_id r) (md_device_id r)) <$> cm_removed commit) in
          let active :=
            md_user_id <$> List.filter (fun a =>
              match d_seats d !! seat_id (g_channel_id g) (md_user_id a) with
              | Some seat => seat_is_active seat | None => false end) (cm_added commit) in
          match plan_mls_text_commit ts_min ts_max g commit ad_sha256
                  (d_seat_lists d !! g_channel_id g) entitlement_device_cap stored_intents revoked
                  active with
          | Err e => (d, Err e)
          | Ok plan =>
              let commits := <[text_commit_key id := tp_stored plan]> (delete id (d_commits d)) in
              let pending :=
                List.filter (fun p => negb (contains_user (tp_cleared_pending plan) (pr_user_id p)))
                  (g_pending_removals g) in
              let g' := set_roster g (cm_epoch commit) (tp_members plan) pending
                          (tp_member_added plan) in
              (set_mls d (<[cm_group_id commit := g']> (d_groups d)) commits
                 (remove_intents (d_intents d) (tp_consumed_intent_ids plan)), Ok Won)
          end
      end
  end.
End Text.

Definition epoch_leb (a b : MlsCommit) : bool := cm_epoch a <=? cm_epoch b.

(** [truncate(limit.max(0) as usize)] *)
Definition truncated {A} (limit : Z) (l : list A) : list A := take (Z.to_nat (Z.max limit 0)) l.

Definition fetch_mls_commits_from (d : Db) (group_id : string) (from_epoch limit : Z)
    : Result (list MlsCommit) :=
  Ok (truncated limit (sort_by epoch_leb
        (List.filter (fun c => str_eqb (cm_group_id c) group_id && (from_epoch <=? cm_epoch c))
           (hm_values (d_commits d))))).

Definition fetch_mls_text_commits_from (d : Db) (group_id : string) (from_epoch limit : Z)
    : Result (list MlsCommit) :=
  Ok (truncated limit (sort_by epoch_leb
        (List.filter (fun kc => starts_with TEXT_COMMIT_KEY_PREFIX kc.1
                                && str_eqb (cm_group_id kc.2) group_id
                                && (from_epoch <=? cm_epoch kc.2))
           (hm_iter (d_commits d))).*2)).

Definition upsert_mls_join_intent (d : Db) (intent : MlsJoinIntent) : Db * Result (option MlsJoinIntent) :=
  (set_mls d (d_groups d) (d_commits d) (<[ji_id intent := intent]> (d_intents d)),
   Ok (d_intents d !! ji_id intent)).

Definition fetch_mls_join_intents_for_group (d : Db) (group_id : string) : Result (list MlsJoinIntent) :=
  Ok (List.filter (fun i => str_eqb (ji_group_id i) group_id) (hm_values (d_intents d))).

Definition sweep_mls_groups (d : Db) (closed_threshold created_threshold : Z) : Db * Result Z :=
  let swept :=
    g_id <$> List.filter (fun g =>
      eqb (g_kind g) MlsGroupKind.Call
      && (match g_closed_at g with Some at_ => at_ <? closed_threshold | None => false end
          || (g_created_at g <? created_threshold))) (hm_values (d_groups d)) in
  (set_mls d (foldl (fun m id => delete id m) (d_groups d) swept)
     (retain (fun c => negb (contains_user swept (cm_group_id c))) (d_commits d))
     (retain (fun i => negb (contains_user swept (ji_group_id i))) (d_intents d)),
   Ok (Z.of_nat (length swept))).

Definition prune_mls_text_commits (d : Db) (older_than : Z) : Db * Result Z :=
  let text_groups :=
    g_id <$> List.filter (fun g => eqb (g_kind g) MlsGroupKind.Text) (hm_values (d_groups d)) in
  let kept := retain (fun c => negb (contains_user text_groups (cm_group_id c)
                                     && (cm_created_at c <? older_than))) (d_commits d) in
  (set_mls d (d_groups d) kept (d_intents d), Ok (Z.of_nat (size (d_commits d) - size kept))).
End Driver.
