(* ===== verification/ProtectedDb.v ===== *)
(** * Protected channels: the in-memory driver
      (models/protected_channels/ops/reference.rs)

    Entitlements, the seats of a channel, the signed list, and the text group
    that goes with it.  Every decision is one of MlsModel's; the operations
    read what it needs, all under one set of locks, and write what it says. *)

From stdpp Require Import base numbers list gmap strings pretty sorting.
From S2P Require Import Prelude Text Errors SeatLists MlsModel MlsDb.
Open Scope Z_scope.

Section Driver.
Context `{!HashIter string MlsGroup, !HashIter string ChannelSeat}.
Context `{!HashIter string ChannelEntitlement, !HashIter string PChannel, !HashIter string string}.
Context (b64_decode : string -> option string) (sha256 : string -> string) (ts_min ts_max : Z).

Definition is_open_text_group_of (g : MlsGroup) (channel_id : string) : bool :=
  str_eqb (g_channel_id g) channel_id && g_open g && eqb (g_kind g) MlsGroupKind.Text.

Definition is_derived_text_group_id (g : MlsGroup) : bool :=
  match g_generation g with
  | None => false
  | Some generation =>
      str_eqb (to_lower_hex (sha256 (CONTEXT_TEXT_GROUP +:+ nl +:+ g_channel_id g +:+ nl
                                     +:+ pretty generation))) (g_id g)
  end.

(** [check_members] *)
Definition check_members (members : gset (string * string)) (server_id : string)
    (decision : SeatListWriteDecision) : Result unit :=
  match decision with
  | Unchanged _ => Ok tt
  | Apply plan =>
      if forallb (fun u => bool_decide ((server_id, u) ∈ members)) (pl_claimed plan) then Ok tt
      else invalid "seated user is not a member of the server"
  end.

Definition insert_seats (rows : list ChannelSeat) (seats : Seats) : Seats :=
  foldl (fun m seat => <[st_id seat := seat]> m) seats rows.

Definition apply_decision (decision : SeatListWriteDecision) (d : Db) (text_group_id : option string)
    : Db :=
  match decision with
  | Unchanged _ => d
  | Apply plan =>
      set_seating d (<[sl_id (pl_row plan) := pl_row plan]> (d_seat_lists d))
        (insert_seats (pl_seat_rows plan) (d_seats d))
        (match text_group_id with
         | Some id =>
             alter (fun g => set_seat_list_ad g (pl_seat_list_ad_sha256 plan)
                               (g_pending_removals g ++ pl_pending_added plan)) id (d_groups d)
         | None => d_groups d
         end)
  end.

(** What a write reads of the channel *)
Definition entitlement_of (d : Db) (channel_id : string) : option ChannelEntitlement :=
  List.find (fun e => str_eqb (en_channel_id e) channel_id) (hm_values (d_entitlements d)).
Definition seats_of (d : Db) (channel_id : string) : list ChannelSeat :=
  List.filter (fun s => str_eqb (st_channel_id s) channel_id) (hm_values (d_seats d)).
Definition open_text_group (d : Db) (channel_id : string) : option MlsGroup :=
  List.find (fun g => is_open_text_group_of g channel_id) (hm_values (d_groups d)).

Definition upsert_channel_entitlement (d : Db) (e : ChannelEntitlement) (now : Z)
    : Db * Result ChannelEntitlement :=
  if negb ((1 <=? en_slot_cap e) && (en_slot_cap e <=? MAX_CHANNEL_SLOT_CAP))
  then (d, invalid "slot_cap must be 1..=100")
  else if en_slot_cap e <? Z.of_nat (channel_seats_used (seats_of d (en_channel_id e)) now)
  then (d, Err (ErrorType.SeatCapReached (en_slot_cap e)))
  else
    let stored :=
      match entitlement_of d (en_channel_id e) with
      | Some x => mkEntitlement (en_id x) (en_channel_id x) (en_server_id x) (en_source x)
                    (en_slot_cap e) (en_device_cap e) (en_state x) (en_granted_by e)
                    (en_created_at x)
      | None => e
      end in
    (set_entitlements d (<[en_id stored := stored]> (d_entitlements d)), Ok stored).

Definition fetch_channel_entitlement (d : Db) (channel_id : string) : Result (option ChannelEntitlement) :=
  Ok (entitlement_of d channel_id).

Definition fetch_entitled_channel_ids (d : Db) (server_id : string) : Result (list string) :=
  Ok (btree_set (en_channel_id <$> List.filter (fun e => str_eqb (en_server_id e) server_id)
                                     (hm_values (d_entitlements d)))).

Definition fetch_channel_seats (d : Db) (channel_id : string) : Result (list ChannelSeat) :=
  Ok (sort_by seat_leb (seats_of d channel_id)).

Definition fetch_channel_seats_for_user (d : Db) (user_id : string) : Result (list ChannelSeat) :=
  Ok (sort_by seat_leb (List.filter (fun s => str_eqb (st_user_id s) user_id)
                          (hm_values (d_seats d)))).

Definition fetch_seat_list (d : Db) (channel_id : string) : Result (option SeatList) :=
  Ok (d_seat_lists d !! channel_id).

Definition fetch_seat_list_snapshot (d : Db) (channel_id : string)
    : Result (option SeatList * option MlsGroup) :=
  Ok (d_seat_lists d !! channel_id, open_text_group d channel_id).

Definition protect_flag (d : Db) (channel_id : string) : Db :=
  match d_channels d !! channel_id with
  | Some (TextChannel server _ last voice announcement) =>
      set_channels d (<[channel_id := TextChannel server true last voice announcement]> (d_channels d))
  | _ => d
  end.

Definition protect_channel (d : Db) (channel_id : string) (submission : SeatListSubmission) (now : Z)
    : Db * Result SeatListWriteOutcome :=
  let server_id := d_channels d !! channel_id ≫= seat_list_channel_server in
  let owned_by u := is_some_str (server_id ≫= fun s => d_servers d !! s) u in
  let retried :=
    match d_seat_lists d !! channel_id with
    | Some stored =>
        if is_genesis_reprotect submission stored && owned_by (sl_signer_user_id stored)
        then Some stored else None
    | None => None
    end in
  match retried with
  | Some stored => (d, Ok (decision_outcome (Unchanged stored)))
  | None =>
      match check_channel_protectable (d_channels d !! channel_id) with
      | Err e => (d, Err e)
      | Ok _ =>
          match seat_list_parse (sub_body submission) with
          | Err e => (d, Err e)
          | Ok body =>
              if negb (owned_by (sb_signer_user_id body)) then (d, Err ErrorType.NotOwner)
              else
                match server_id with
                | None => (d, Err ErrorType.InvalidOperation)
                | Some server_id =>
                    if existsb (fun c => match c with
                                         | Thread parent => str_eqb parent channel_id
                                         | _ => false end) (hm_values (d_channels d))
                    then (d, Err ErrorType.InvalidOperation)
                    else if existsb (fun c => str_eqb c channel_id) (hm_values (d_messages d))
                    then (d, Err ErrorType.InvalidOperation)
                    else
                      let entitlement := entitlement_of d channel_id in
                      if negb (match entitlement with
                               | Some e => entitlement_is_active e
                                           && str_eqb (en_server_id e) server_id
                               | None => false end)
                      then (d, Err ErrorType.InvalidOperation)
                      else
                        let group := open_text_group d channel_id in
                        match plan_seat_list_write b64_decode sha256 ts_min ts_max
                                (mkInput Protect channel_id submission (d_seat_lists d !! channel_id)
                                   entitlement (seats_of d channel_id) group true now) with
                        | Err e => (d, Err e)
                        | Ok decision =>
                            match check_members (d_members d) server_id decision with
                            | Err e => (d, Err e)
                            | Ok _ =>
                                (protect_flag (apply_decision decision d (g_id <$> group)) channel_id,
                                 Ok (decision_outcome decision))
                            end
                        end
                end
          end
      end
  end.

Definition put_seat_list (d : Db) (channel_id : string) (submission : SeatListSubmission)
    (allow_claims : bool) (now : Z) : Db * Result SeatListWriteOutcome :=
  let entitlement := entitlement_of d channel_id in
  let group := open_text_group d channel_id in
  match plan_seat_list_write b64_decode sha256 ts_min ts_max
          (mkInput Put channel_id submission (d_seat_lists d !! channel_id) entitlement
             (seats_of d channel_id) group allow_claims now) with
  | Err e => (d, Err e)
  | Ok decision =>
      let server_id := from_option en_server_id "" entitlement in
      match check_members (d_members d) server_id decision with
      | Err e => (d, Err e)
      | Ok _ => (apply_decision decision d (g_id <$> group), Ok (decision_outcome decision))
      end
  end.

Definition conflict_with (open : MlsGroup) : Result MlsGroupCreateOutcome :=
  Ok (Conflict (g_id open) (g_channel_id open)).

(** Evict a call group at the id of a text group, with what hangs on it *)
Definition evict_squat (d : Db) (id : string) : Db :=
  set_queue
    (set_mls d (delete id (d_groups d)) (retain (fun c => negb (str_eqb (cm_group_id c) id)) (d_commits d))
       (retain (fun i => negb (str_eqb (ji_group_id i) id)) (d_intents d)))
    (retain (fun envelope => negb (is_some_str envelope id)) (d_queue d)).

(** The group superseded, if any, is closed, and the new one stored *)
Definition store_text_group (d : Db) (group prepared : MlsGroup) (supersedes : option string) : Db :=
  let groups :=
    match supersedes with
    | Some id =>
        alter (fun old => if g_open old
                          then set_open old false (Some (g_created_at group)) (Some (g_id group))
                          else old) id (d_groups d)
    | None => d_groups d
    end in
  set_mls d (<[g_id prepared := prepared]> groups) (d_commits d) (d_intents d).

Definition create_text_mls_group (d : Db) (group : MlsGroup) (supersedes : option string)
    : Db * Result MlsGroupCreateOutcome :=
  match d_seat_lists d !! g_channel_id group with
  | None => (d, invalid "channel has no seat list")
  | Some l =>
      let open := open_text_group d (g_channel_id group) in
      (* [Ok None]: go on; [Ok (Some open)]: a conflict with the open group *)
      let before : Result (option MlsGroup) :=
        match supersedes with
        | Some superseded_id =>
            let? superseded := ok_or (d_groups d !! superseded_id) ErrorType.NotFound in
            let? _ := check_text_successor superseded group in
            Ok (match open with
                | Some o => if str_eqb (g_id o) superseded_id then None else Some o
                | None => None end)
        | None => let? _ := check_text_first_generation group in Ok open
        end in
      match before with
      | Err e => (d, Err e)
      | Ok (Some open) => (d, conflict_with open)
      | Ok None =>
          match prepare_text_group b64_decode sha256 group l with
          | Err e => (d, Err e)
          | Ok prepared =>
              match d_groups d !! g_id prepared with
              | None => (store_text_group d group prepared supersedes, Ok Created)
              | Some taken =>
                  if eqb (g_kind taken) MlsGroupKind.Call && is_derived_text_group_id prepared
                  then (store_text_group (evict_squat d (g_id prepared)) group prepared supersedes,
                        Ok Created)
                  else (d, Err ErrorType.InvalidOperation)
              end
          end
      end
  end.

(** In scope: all channels, or those with an entitlement on the server *)
Definition in_scope (d : Db) (server_id : option string) (channel_id : string) : bool :=
  match server_id with
  | None => true
  | Some server =>
      contains_user (en_channel_id <$> List.filter (fun e => str_eqb (en_server_id e) server)
                       (hm_values (d_entitlements d))) channel_id
  end.

Definition seat_released_by (d : Db) (user_id : string) (server_id : option string) (s : ChannelSeat)
    : bool :=
  str_eqb (st_user_id s) user_id && seat_is_active s && in_scope d server_id (st_channel_id s).

Definition group_pending_by (d : Db) (user_id : string) (server_id : option string) (g : MlsGroup)
    : bool :=
  g_open g && eqb (g_kind g) MlsGroupKind.Text && in_scope d server_id (g_channel_id g)
  && existsb (fun m => str_eqb (md_user_id m) user_id) (g_members g)
  && negb (has_pending_removal g user_id).

Definition add_pending (g : MlsGroup) (p : MlsPendingRemoval) : MlsGroup :=
  mkGroup (g_id g) (g_channel_id g) (g_open g) (g_created_by g) (g_created_at g)
    (g_current_epoch g) (g_members g) (g_closed_at g) (g_superseded_by g) (g_kind g)
    (g_generation g) (g_seat_list_ad_sha256 g) (g_pending_removals g ++ [p]) (g_member_added g).

Definition release_channel_seats_for_user (d : Db) (user_id : string) (server_id : option string)
    (now : Z) : Db * Result (list string) :=
  match seat_cooldown_until ts_min ts_max now with
  | Err e => (d, Err e)
  | Ok until =>
      let released := seat_released_by d user_id server_id in
      let pending := group_pending_by d user_id server_id in
      let affected :=
        (st_channel_id <$> List.filter released (hm_values (d_seats d)))
        ++ (g_channel_id <$> List.filter pending (hm_values (d_groups d))) in
      (set_seating d (d_seat_lists d)
         ((fun s => if released s
                    then mkSeat (st_id s) (st_channel_id s) (st_user_id s) (st_seated_at s)
                           (Some now) (Some until)
                    else s) <$> d_seats d)
         ((fun g => if pending g then add_pending g (mkPendingRemoval user_id now) else g)
          <$> d_groups d),
       Ok (btree_set affected))
  end.

Definition delete_protected_channel_data (d : Db) (channel_id : string) : Db * Result unit :=
  let text_of g := str_eqb (g_channel_id g) channel_id && eqb (g_kind g) MlsGroupKind.Text in
  let ids := g_id <$> List.filter text_of (hm_values (d_groups d)) in
  (mkDb (d_channels d) (d_messages d)
     (retain (fun e => negb (str_eqb (en_channel_id e) channel_id)) (d_entitlements d))
     (d_servers d) (d_members d) (delete channel_id (d_seat_lists d))
     (retain (fun s => negb (str_eqb (st_channel_id s) channel_id)) (d_seats d))
     (filter (fun kv => contains_user ids kv.1 = false) (d_groups d))
     (retain (fun c => negb (contains_user ids (cm_group_id c))) (d_commits d))
     (retain (fun i => negb (contains_user ids (ji_group_id i))) (d_intents d))
     (d_identities d) (d_queue d) (d_packages d), Ok tt).
End Driver.
