(* ===== verification/ProtectedInvariants.v ===== *)
(** * Protected channels: who is in the group

    What is true of the database of a protected channel whatever operations
    ran on it and in whatever order: one open group for a channel, bound to
    the newest signed list, and nobody in it whose seat is gone without a
    removal being pending. *)

From stdpp Require Import base numbers list gmap strings pretty sorting.
From S2P Require Import Prelude Text Errors SeatLists MlsModel MlsDb ProtectedDb.
Open Scope Z_scope.

Definition colon : Ascii.ascii := Ascii.ascii_of_nat 58.

(** ** Ids *)

Lemma seat_id_inj c c' u u' :
  contains_char colon c = false -> contains_char colon c' = false ->
  seat_id c u = seat_id c' u' -> c = c' /\ u = u'.
Proof. intros Hc Hc' E. by apply (join_inj colon). Qed.

Lemma ulid_no_colon v : is_valid_ulid_id v = true -> contains_char colon v = false.
Proof. by apply ulid_no. Qed.

(** ** Small facts *)

Lemma retain_lookup {V} (p : V -> bool) (m : gmap string V) k v :
  retain p m !! k = Some v <-> m !! k = Some v /\ p v = true.
Proof. unfold retain. by rewrite map_lookup_filter_Some. Qed.

Lemma contains_user_true l u : contains_user l u = true <-> u ∈ l.
Proof.
  unfold contains_user. rewrite existsb_exists. split.
  - intros (x & Hx & ->%str_eqb_eq). by apply list_elem_of_In.
  - intros H. exists u. split; [by apply list_elem_of_In|apply str_eqb_refl].
Qed.

Lemma contains_user_false l u : contains_user l u = false <-> u ∉ l.
Proof. rewrite <- contains_user_true. by destruct (contains_user l u). Qed.

Lemma elem_of_btree l u : u ∈ btree_set l <-> u ∈ l.
Proof. unfold btree_set. rewrite elem_of_dedup. apply elem_of_sort_by. Qed.

Lemma insert_seats_lookup rows m k :
  (exists s, s ∈ rows /\ st_id s = k /\ insert_seats rows m !! k = Some s)
  \/ (forall s, s ∈ rows -> st_id s <> k) /\ insert_seats rows m !! k = m !! k.
Proof.
  unfold insert_seats. revert m. induction rows as [|r rows IH]; intros m; cbn [foldl].
  { right. split; [by intros s ?%elem_of_nil|done]. }
  destruct (IH (<[st_id r := r]> m)) as [(s & Hs & Hk & E)|[Hno E]].
  { left. exists s. split; [by right|done]. }
  destruct (decide (st_id r = k)) as [<-|Hr].
  - left. exists r. split; [left|]. split; [done|]. by rewrite E, lookup_insert_eq.
  - right. split; [|by rewrite E, lookup_insert_ne].
    intros s [->|Hs]%elem_of_cons; [done|by apply Hno].
Qed.

(** ** The invariant *)

Definition active_seat (seats : Seats) (channel_id user_id : string) : Prop :=
  exists s, seats !! seat_id channel_id user_id = Some s /\ seat_is_active s = true.

Section Invariant.
Context (b64_decode : string -> option string) (sha256 : string -> string).
Abbreviation hash := (commit_ad_sha256 b64_decode sha256).

Definition open_text (g : MlsGroup) : Prop := g_open g = true /\ g_kind g = MlsGroupKind.Text.

(** A stored list is what its signed text says. *)
Definition list_ok (channel_id : string) (l : SeatList) : Prop :=
  sl_id l = channel_id
  /\ exists body, seat_list_parse (sl_body l) = Ok body /\ sb_channel_id body = channel_id
                  /\ sb_signer_user_id body = sl_signer_user_id l
                  /\ sb_signer_device_id body = sl_signer_device_id l.

Definition seat_ok (key : string) (s : ChannelSeat) : Prop :=
  st_id s = key /\ key = seat_id (st_channel_id s) (st_user_id s)
  /\ is_valid_ulid_id (st_channel_id s) = true /\ is_valid_ulid_id (st_user_id s) = true.

(** The open text group is bound to the newest list, and each of its devices
    is of a user with a seat, of one whose removal is pending, or of the
    signer of the list. *)
Definition text_ok (lists : SeatLists) (seats : Seats) (g : MlsGroup) : Prop :=
  exists l, lists !! g_channel_id g = Some l
  /\ (exists ad, hash l = Ok ad /\ g_seat_list_ad_sha256 g = Some ad)
  /\ forall m, m ∈ g_members g ->
       active_seat seats (g_channel_id g) (md_user_id m)
       \/ has_pending_removal g (md_user_id m) = true
       \/ md_user_id m = sl_signer_user_id l.

Record inv (d : Db) : Prop := {
  inv_lists k l : d_seat_lists d !! k = Some l -> list_ok k l;
  inv_seats k s : d_seats d !! k = Some s -> seat_ok k s;
  inv_ids k g : d_groups d !! k = Some g -> g_id g = k;
  inv_one_open k k' g g' :
    d_groups d !! k = Some g -> d_groups d !! k' = Some g' -> g_open g = true -> g_open g' = true ->
    g_channel_id g = g_channel_id g' -> g_kind g = g_kind g' -> k = k';
  inv_text k g : d_groups d !! k = Some g -> open_text g -> text_ok (d_seat_lists d) (d_seats d) g;
}.

(** Operations that leave the lists and the seats alone, and change groups
    only in ways that matter to call groups *)
Lemma inv_groups d groups commits intents :
  inv d ->
  (forall k g, groups !! k = Some g ->
     g_id g = k /\ (g_open g = true ->
       exists g0, d_groups d !! k = Some g0 /\ g_open g0 = true /\ g_channel_id g0 = g_channel_id g
                  /\ g_kind g0 = g_kind g)
     /\ (open_text g -> text_ok (d_seat_lists d) (d_seats d) g)) ->
  inv (set_mls d groups commits intents).
Proof.
  intros Hi Hg. split; cbn.
  - apply (inv_lists d Hi).
  - apply (inv_seats d Hi).
  - intros k g H. by apply Hg.
  - intros k k' g g' H H' Ho Ho' Hc Hk.
    destruct (Hg _ _ H) as (_ & H1 & _). destruct (H1 Ho) as (g0 & E0 & O0 & C0 & K0).
    destruct (Hg _ _ H') as (_ & H2 & _). destruct (H2 Ho') as (g1 & E1 & O1 & C1 & K1).
    eapply (inv_one_open d Hi k k' g0 g1); congruence.
  - intros k g H. by apply (Hg k g H).
Qed.

Lemma inv_update d k g0 g1 commits intents :
  inv d -> d_groups d !! k = Some g0 -> g_id g1 = g_id g0 -> g_channel_id g1 = g_channel_id g0 ->
  g_kind g1 = g_kind g0 -> (g_open g1 = true -> g_open g0 = true) ->
  (open_text g1 -> text_ok (d_seat_lists d) (d_seats d) g1) ->
  inv (set_mls d (<[k := g1]> (d_groups d)) commits intents).
Proof.
  intros Hi E0 Hid Hc Hk Ho Ht. apply inv_groups; [done|]. intros j g.
  destruct (decide (j = k)) as [->|Hj].
  - rewrite lookup_insert_eq. intros [= <-]. split; [rewrite Hid; by apply (inv_ids d Hi)|].
    split; [|done]. intros H. exists g0. by rewrite Hc, Hk, (Ho H).
  - rewrite lookup_insert_ne by done. intros H. split; [by apply (inv_ids d Hi)|].
    split; [|by apply (inv_text d Hi j)]. intros Hg. by exists g.
Qed.

Lemma inv_add d g commits intents :
  inv d -> d_groups d !! g_id g = None ->
  (forall k g', d_groups d !! k = Some g' -> g_open g' = true -> g_channel_id g' = g_channel_id g ->
     g_kind g' = g_kind g -> False) ->
  (open_text g -> text_ok (d_seat_lists d) (d_seats d) g) ->
  inv (set_mls d (<[g_id g := g]> (d_groups d)) commits intents).
Proof.
  intros Hi En Hno Ht. split; cbn.
  - apply (inv_lists d Hi).
  - apply (inv_seats d Hi).
  - intros k g' [[<- <-]|[_ H]]%lookup_insert_Some; [done|by apply (inv_ids d Hi)].
  - intros k k' g1 g2 [[<- <-]|[_ H1]]%lookup_insert_Some [[<- <-]|[_ H2]]%lookup_insert_Some
      Ho1 Ho2 Hc Hk; [done| | |by eapply (inv_one_open d Hi)].
    + exfalso. eapply (Hno k'); [done|done|congruence..].
    + exfalso. eapply (Hno k); [done|done|congruence..].
  - intros k g' [[<- <-]|[_ H]]%lookup_insert_Some; [done|by apply (inv_text d Hi k)].
Qed.

Lemma inv_same d d' :
  inv d -> d_seat_lists d' = d_seat_lists d -> d_seats d' = d_seats d -> d_groups d' = d_groups d ->
  inv d'.
Proof. intros [H1 H2 H3 H4 H5] E1 E2 E3. split; rewrite ?E1, ?E2, ?E3; done. Qed.

(** *** Call groups *)

Section Calls.
Context `{!HashIter string MlsGroup}.

Lemma call_vacuous g (P : Prop) : g_kind g = MlsGroupKind.Call -> open_text g -> P.
Proof. intros H [_ Ht]. congruence. Qed.

Lemma is_open_of_true c kind g :
  is_open_of c kind g = true <-> g_channel_id g = c /\ g_kind g = kind /\ g_open g = true.
Proof. unfold is_open_of. rewrite !andb_true_iff, str_eqb_eq, eqb_eq. tauto. Qed.

Lemma inv_create_call d group supersedes : inv d -> inv (create_mls_group d group supersedes).1.
Proof.
  intros Hi. unfold create_mls_group. set (afresh := match List.find _ _ with Some _ => _ | None => _ end).
  destruct (eqb (g_kind group) MlsGroupKind.Call) eqn:Ek; [|done]. rewrite eqb_eq in Ek. cbn [negb].
  assert (inv afresh.1) as Ha.
  { subst afresh. destruct (List.find _ _) eqn:Ef; [done|]. case_bool_decide as Hs; [done|]. cbn.
    apply inv_add; [done|by apply eq_None_not_Some| |by apply call_vacuous].
    intros k g' Hg Ho Hc Hk. pose proof (hm_find_None _ _ Ef k g' Hg) as Hf.
    apply not_true_iff_false in Hf. apply Hf, is_open_of_true. done. }
  destruct supersedes as [sid|]; [|done]. destruct (d_groups d !! sid) as [old|] eqn:Eo; [|done].
  destruct (str_eqb (g_channel_id old) _) eqn:Ec; [|done]. apply str_eqb_eq in Ec.
  destruct (eqb (g_kind old) (g_kind group)) eqn:Ek2; [|done]. rewrite eqb_eq in Ek2.
  destruct (g_open old) eqn:Eop; [|done]. case_bool_decide as Hs; [done|]. cbn [negb fst].
  set (closed := set_open old _ _ _).
  assert (inv (set_mls d (<[sid := closed]> (d_groups d)) (d_commits d) (d_intents d))) as Hc.
  { eapply inv_update; [done|exact Eo|done|done|done|done|]. by intros [? _]. }
  apply (inv_add _ group (d_commits d) (d_intents d)) in Hc; cbn in *.
  - exact Hc.
  - rewrite lookup_insert_ne; [by apply eq_None_not_Some|]. intros E'. apply Hs. rewrite <- E', Eo. by eexists.
  - intros k g' [[<- <-]|[Hne Hg]]%lookup_insert_Some Ho Hc' Hk; [done|].
    apply Hne. eapply (inv_one_open d Hi sid k); [exact Eo|exact Hg|done|done|congruence..].
  - by apply call_vacuous.
Qed.

Lemma inv_close d id now : inv d -> inv (close_mls_group d id now).1.
Proof.
  intros Hi. unfold close_mls_group. destruct (d_groups d !! id) as [g|] eqn:E; [|done].
  destruct (negb _); [done|]. destruct (g_open g) eqn:Eo; [|done]. cbn.
  eapply inv_update; [done|exact E|done|done|done|done|]. by intros [? _].
Qed.

Lemma inv_call_commit d commit : inv d -> inv (insert_mls_commit d commit).1.
Proof.
  intros Hi. unfold insert_mls_commit. destruct (d_groups d !! _) as [g|] eqn:E; [|done].
  destruct (eqb (g_kind g) MlsGroupKind.Call) eqn:Ek; [|done]. rewrite eqb_eq in Ek.
  cbn [negb]. do 2 (destruct (negb _); [done|]).
  destruct (cm_epoch commit <=? _); [by destruct (d_commits d !! commit_id _ _)|].
  destruct (negb _); [done|]. destruct (check_added_call _ _); [|done].
  destruct (_ <? _); [done|]. destruct (d_commits d !! _); [done|]. cbn.
  eapply inv_update; [done|exact E|done|done|done|done|]. by apply call_vacuous.
Qed.

Lemma foldl_delete_lookup {V} ids (m : gmap string V) k v :
  foldl (fun m id => delete id m) m ids !! k = Some v -> m !! k = Some v /\ k ∉ ids.
Proof.
  revert m. induction ids as [|i ids IH]; intros m; cbn; [by intros; split; [|apply not_elem_of_nil]|].
  intros [[Hne H]%lookup_delete_Some Hk]%IH. split; [done|]. apply not_elem_of_cons. done.
Qed.

Lemma inv_sweep d t1 t2 : inv d -> inv (sweep_mls_groups d t1 t2).1.
Proof.
  intros Hi. unfold sweep_mls_groups. cbn. apply inv_groups; [done|].
  intros k g [Hg _]%foldl_delete_lookup. split; [by apply (inv_ids d Hi)|].
  split; [|by apply (inv_text d Hi k)]. intros Ho. by exists g.
Qed.
End Calls.
End Invariant.

(** ** Commits to a text group *)

(** One step of a decision that answered [Ok] *)
Ltac plan_step H :=
  match type of H with
  | (if ?b then Err _ else _) = Ok _ => let E := fresh "E" in destruct b eqn:E; [discriminate H|]
  | (if ?b then invalid _ else _) = Ok _ => let E := fresh "E" in destruct b eqn:E; [discriminate H|]
  | (if ?b then resecuring _ else _) = Ok _ => let E := fresh "E" in destruct b eqn:E; [discriminate H|]
  | match ?c with Ok _ => _ | Err _ => _ end = Ok _ =>
      let E := fresh "E" in destruct c eqn:E; [|discriminate H]
  end.

Record text_admission (group : MlsGroup) (commit : MlsCommit) (ad : string)
    (seat_list : option SeatList) (cap : Z) (active : list string) (plan : MlsTextCommitPlan)
    : Prop := {
  ta_kind : open_text group;
  ta_member : has_member group (md_user_id (cm_committer commit)) (md_device_id (cm_committer commit))
              = true;
  ta_epoch : cm_epoch commit = g_current_epoch group + 1;
  ta_ad : g_seat_list_ad_sha256 group = Some ad;
  ta_signed : exists l signed,
    seat_list = Some l /\ seat_list_parse (sl_body l) = Ok signed
    /\ sb_channel_id signed = g_channel_id group
    /\ Forall (fun a => md_user_id a ∈ sb_seats signed) (cm_added commit)
    /\ let cap := mls_text_enforced_device_cap (sb_device_cap signed) cap in
       cap = 0 \/ Forall (fun a => devices_of (tp_members plan) (md_user_id a) <= cap) (cm_added commit);
  ta_no_pending : cm_added commit = [] \/ g_pending_removals group = [];
  ta_distinct : NoDup (cm_added commit ++ cm_removed commit);
  ta_added : Forall (fun a => md_user_id a ∈ active /\
                     has_member group (md_user_id a) (md_device_id a) = false) (cm_added commit);
  ta_members : tp_members plan
               = List.filter (fun m => negb (contains_device (cm_removed commit) m)) (g_members group)
                 ++ cm_added commit;
  ta_size : Z.of_nat (length (tp_members plan)) <= MAX_MLS_TEXT_GROUP_MEMBERS;
  ta_cleared : tp_cleared_pending plan
               = pr_user_id <$> List.filter (fun pending =>
                   negb (existsb (fun m => str_eqb (md_user_id m) (pr_user_id pending))
                           (tp_members plan))) (g_pending_removals group);
  ta_stored : cm_group_id (tp_stored plan) = cm_group_id commit
              /\ cm_epoch (tp_stored plan) = cm_epoch commit;
}.

Lemma check_declared_ok added removed devices : forall seen,
  check_declared added removed seen devices = Ok tt -> NoDup devices /\ Forall (fun d => d ∉ seen) devices.
Proof.
  induction devices as [|d rest IH]; intros seen; cbn [check_declared]; [by repeat constructor|].
  unfold contains_device at 1. case_bool_decide as Hs; [done|]. intros [Hnd Hf]%IH.
  rewrite Forall_forall in Hf. split.
  - constructor; [|done]. intros Hd. apply (Hf d Hd). left.
  - constructor; [done|]. apply Forall_forall. intros x Hx Hin. apply (Hf x Hx). by right.
Qed.

Lemma check_added_ok group signed active added :
  check_added group signed active added = Ok tt ->
  Forall (fun a => md_user_id a ∈ active /\ md_user_id a ∈ sb_seats signed
                   /\ has_member group (md_user_id a) (md_device_id a) = false) added.
Proof.
  induction added as [|a rest IH]; cbn [check_added]; [constructor|].
  destruct (has_member group _ _) eqn:E1; [done|].
  destruct (contains_user active _) eqn:E2; [|done].
  destruct (contains_user (sb_seats signed) _) eqn:E3; [|done]. intros H. constructor; [|by apply IH].
  by apply contains_user_true in E2, E3.
Qed.

Lemma check_device_cap_ok members cap added u :
  check_device_cap members cap added = Ok u ->
  Forall (fun a => devices_of members (md_user_id a) <= cap) added.
Proof.
  induction added as [|a rest IH]; cbn [check_device_cap]; [constructor|].
  destruct (cap <? _) eqn:E; [done|]. intros H. constructor; [by apply Z.ltb_ge in E|by apply IH].
Qed.

Lemma is_empty_list_true {A} (l : list A) : is_empty_list l = true -> l = [].
Proof. by destruct l. Qed.

Lemma plan_text_admission ts_min ts_max group commit ad seat_list cap intents revoked active plan :
  plan_mls_text_commit ts_min ts_max group commit ad seat_list cap intents revoked active = Ok plan ->
  text_admission group commit ad seat_list cap active plan.
Proof.
  unfold plan_mls_text_commit. intros H.
  destruct (eqb (g_kind group) MlsGroupKind.Text) eqn:Ekind; [|discriminate H]. rewrite eqb_eq in Ekind.
  cbn [negb] in H. do 6 plan_step H. do 3 plan_step H. plan_step H. plan_step H. do 3 plan_step H.
  plan_step H. plan_step H. injection H as <-.
  to_prop.
  destruct a1, a4, E7 as [[[Ec _] _] _]. apply ok_or_ok in E5 as ->.
  apply check_declared_ok in E8 as [Hnd _]. apply check_added_ok in E12.
  destruct (seat_list_parse (sl_body a)) as [b|] eqn:Ep; [|done]. injection E6 as ->.
  split; try done.
  - exists a, a0. split; [done|]. split; [done|]. split; [done|]. split.
    + eapply Forall_impl; [exact E12|]. naive_solver.
    + destruct (_ =? 0) eqn:Ez; [left; by apply Z.eqb_eq|right]. by apply check_device_cap_ok in E14.
  - destruct E9 as [E9|E9]; apply is_empty_list_true in E9; auto.
  - eapply Forall_impl; [exact E12|]. naive_solver.
Qed.

Section TextCommits.
Context (b64_decode : string -> option string) (sha256 : string -> string) (ts_min ts_max : Z).
Abbreviation inv := (inv b64_decode sha256).

(** What a commit that won went through, with the state it was checked on *)
Lemma text_commit_won d commit ad cap d' :
  insert_mls_text_commit ts_min ts_max d commit ad cap = (d', Ok Won) ->
  exists g plan,
    d_groups d !! cm_group_id commit = Some g
    /\ text_admission g commit ad (d_seat_lists d !! g_channel_id g) cap
         (md_user_id <$> List.filter (fun a =>
            match d_seats d !! seat_id (g_channel_id g) (md_user_id a) with
            | Some seat => seat_is_active seat | None => false end) (cm_added commit)) plan
    /\ d_commits d !! text_commit_key (commit_id (cm_group_id commit) (cm_epoch commit)) = None
    /\ d' = set_mls d
         (<[cm_group_id commit := set_roster g (cm_epoch commit) (tp_members plan)
              (List.filter (fun p => negb (contains_user (tp_cleared_pending plan) (pr_user_id p)))
                 (g_pending_removals g)) (tp_member_added plan)]> (d_groups d))
         (<[text_commit_key (commit_id (cm_group_id commit) (cm_epoch commit)) := tp_stored plan]>
            (delete (commit_id (cm_group_id commit) (cm_epoch commit)) (d_commits d)))
         (remove_intents (d_intents d) (tp_consumed_intent_ids plan)).
Proof.
  unfold insert_mls_text_commit. destruct (d_commits d !! text_commit_key _) eqn:Ec; [done|].
  destruct (d_groups d !! cm_group_id commit) as [g|] eqn:Eg; [|done].
  destruct (plan_mls_text_commit _ _ _ _ _ _ _ _ _ _) as [plan|] eqn:Ep; [|done]. intros [= <-].
  exists g, plan. split; [done|]. split; [by apply plan_text_admission in Ep|done].
Qed.

Lemma text_commit_lost d commit ad cap :
  (insert_mls_text_commit ts_min ts_max d commit ad cap).2 <> Ok Won ->
  (insert_mls_text_commit ts_min ts_max d commit ad cap).1 = d.
Proof.
  unfold insert_mls_text_commit. destruct (d_commits d !! text_commit_key _); [done|].
  destruct (d_groups d !! _); [|done]. by destruct (plan_mls_text_commit _ _ _ _ _ _ _ _ _ _).
Qed.

(** The users whose seats were looked up and found active *)
Lemma active_users_spec d channel_id added u :
  u ∈ md_user_id <$> List.filter (fun a =>
        match d_seats d !! seat_id channel_id (md_user_id a) with
        | Some seat => seat_is_active seat | None => false end) added ->
  active_seat (d_seats d) channel_id u.
Proof.
  intros (a & -> & Ha)%list_elem_of_fmap. apply elem_of_filter_bool in Ha as [Ha _].
  destruct (d_seats d !! _) as [s|] eqn:E; [|done]. by exists s.
Qed.

Lemma pending_kept g cleared u :
  has_pending_removal g u = true -> u ∉ cleared ->
  existsb (fun pending => str_eqb (pr_user_id pending) u)
    (List.filter (fun p => negb (contains_user cleared (pr_user_id p))) (g_pending_removals g)) = true.
Proof.
  unfold has_pending_removal. rewrite !existsb_exists. intros (p & Hp & E) Hn. exists p.
  split; [|done]. apply list_elem_of_In, elem_of_filter_bool. split; [|by apply list_elem_of_In].
  apply str_eqb_eq in E as ->. apply negb_true_iff. by apply contains_user_false.
Qed.

Lemma inv_text_commit d commit ad cap :
  inv d -> inv (insert_mls_text_commit ts_min ts_max d commit ad cap).1.
Proof.
  intros Hi. destruct (insert_mls_text_commit ts_min ts_max d commit ad cap) as [d' r] eqn:E.
  pose proof (text_commit_lost d commit ad cap) as Hlost. rewrite E in Hlost. cbn in *.
  destruct r as [[|]|]; [|by rewrite Hlost..].
  apply text_commit_won in E as (g & plan & Eg & [] & _ & ->).
  eapply inv_update; [done|exact Eg|done..|]. intros _.
  destruct (inv_text _ _ d Hi _ _ Eg ta_kind0) as (l & El & Ead & Hm). exists l. split; [done|].
  split; [done|]. cbn. intros m Hin. pose proof Hin as Hin'. rewrite ta_members0 in Hin.
  apply elem_of_app in Hin as [[_ Hin]%elem_of_filter_bool|Hin].
  - destruct (Hm m Hin) as [Ha|[Hp|Hs]]; [by left| |by right; right]. right; left. cbn.
    apply pending_kept; [done|]. rewrite ta_cleared0. intros (p & Ep & Hf)%list_elem_of_fmap.
    apply elem_of_filter_bool in Hf as [Hf _]. apply negb_true_iff in Hf. rewrite <- Ep in Hf.
    apply not_true_iff_false in Hf. apply Hf, existsb_exists. exists m.
    split; [by apply list_elem_of_In|apply str_eqb_refl].
  - left. rewrite Forall_forall in ta_added0. destruct (ta_added0 m Hin) as [Ha _].
    by apply active_users_spec in Ha.
Qed.
End TextCommits.
