(* ===== verification/ProtectedSeating.v ===== *)
(** * Protected channels: the seats

    What a write of the signed list, a release and the creation of a text
    group do to the seats and to who is in the group. *)

From stdpp Require Import base numbers list gmap strings pretty sorting.
From S2P Require Import Prelude Text Errors SeatLists MlsModel MlsDb ProtectedDb ProtectedInvariants.
Open Scope Z_scope.

(** ** The loops of a list write *)

(** The seats of a channel, as the driver keeps them *)
Definition seats_wf (channel_id : string) (seats : list ChannelSeat) : Prop :=
  forall s, s ∈ seats -> seat_ok (st_id s) s /\ st_channel_id s = channel_id.

Definition row_of (channel_id : string) (s : ChannelSeat) : Prop :=
  st_channel_id s = channel_id /\ st_id s = seat_id channel_id (st_user_id s).

Lemma row_of_ok c s : seat_ok (st_id s) s -> st_channel_id s = c -> row_of c s.
Proof. intros (_ & E & _) <-. done. Qed.

Lemma seat_id_user c u u' : seat_id c u = seat_id c u' -> u = u'.
Proof. unfold seat_id. by intros ?%str_app_inj_l%str_app_inj_l. Qed.

Lemma claim_seats_rows c seats now desired :
  seats_wf c seats ->
  Forall (fun r => row_of c r /\ st_user_id r ∈ desired /\ seat_is_active r = true)
    (claim_seats c seats now desired).1.1.
Proof.
  intros Hwf. induction desired as [|u rest IH]; [constructor|]. cbn.
  destruct (claim_seats c seats now rest) as [[rows claimed] n]. cbn in IH.
  assert (Forall (fun r => row_of c r /\ st_user_id r ∈ u :: rest /\ seat_is_active r = true) rows)
    as IH' by (eapply Forall_impl; [exact IH|]; set_solver).
  destruct (List.find _ seats) as [s|] eqn:Ef; cbn.
  - destruct (seat_is_active s) eqn:Ea; cbn; [done|]. constructor; [|done].
    apply List.find_some in Ef as [Hs%list_elem_of_In Eu%str_eqb_eq].
    destruct (Hwf s Hs) as [Hok Hc]. destruct (row_of_ok c s Hok Hc) as [R1 R2].
    split; [done|]. split; [|done]. cbn. rewrite Eu. left.
  - constructor; [|done]. split; [done|]. split; [left|done].
Qed.

Lemma claim_seats_all c seats now desired u :
  u ∈ desired ->
  (exists s, s ∈ seats /\ st_user_id s = u /\ seat_is_active s = true)
  \/ exists r, r ∈ (claim_seats c seats now desired).1.1 /\ st_user_id r = u.
Proof.
  induction desired as [|v rest IH]; [by intros ?%elem_of_nil|]. cbn.
  destruct (claim_seats c seats now rest) as [[rows claimed] n]. cbn in IH.
  intros [->|Hu]%elem_of_cons.
  - destruct (List.find _ seats) as [s|] eqn:Ef; cbn.
    + apply List.find_some in Ef as [Hs%list_elem_of_In Eu%str_eqb_eq].
      destruct (seat_is_active s) eqn:Ea; cbn; [by left; exists s|].
      right. exists (reactivate s now). split; [left|done].
    + right. eexists. split; [left|done].
  - destruct (IH Hu) as [?|(r & Hr & Er)]; [by left|]. right. exists r. split; [|done].
    destruct (List.find _ seats) as [s|]; [destruct (seat_is_active s)|]; cbn; [done|by right..].
Qed.

Section Released.
Context (ts_min ts_max : Z).

Lemma release_seats_rows c desired now seats p :
  seats_wf c seats -> release_seats ts_min ts_max desired now seats = Ok p ->
  Forall (fun r => row_of c r /\ st_user_id r ∉ desired
                   /\ exists s, s ∈ seats /\ seat_is_active s = true /\ st_id s = st_id r
                                /\ st_user_id s = st_user_id r) p.1.
Proof.
  revert p. induction seats as [|s rest IH]; intros p Hwf; cbn [release_seats].
  { intros [= <-]. constructor. }
  assert (seats_wf c rest) as Hwf' by (intros x Hx; apply Hwf; by right).
  destruct (seat_is_active s && _) eqn:Ea.
  - unfold seat_release. destruct (seat_cooldown_until _ _ now) as [until|]; [|done].
    destruct (release_seats _ _ _ _ rest) as [q|] eqn:Eq; [|done]. intros [= <-]. cbn.
    apply andb_true_iff in Ea as [Ea Hn%negb_true_iff]. apply contains_user_false in Hn.
    destruct (Hwf s (list_elem_of_here _ _)) as [Hok Hc].
    destruct (row_of_ok c s Hok Hc) as [R1 R2]. constructor.
    + split; [done|]. split; [done|]. exists s. split; [left|done].
    + eapply Forall_impl; [by apply IH|]. intros r (H1 & H2 & s' & H3 & H4). split; [done|].
      split; [done|]. exists s'. split; [by right|done].
  - intros Hq. eapply Forall_impl; [by apply IH|]. intros r (H1 & H2 & s' & H3 & H4).
    split; [done|]. split; [done|]. exists s'. split; [by right|done].
Qed.
End Released.

(** ** A list that was written *)

Section Written.
Context (b64_decode : string -> option string) (sha256 : string -> string) (ts_min ts_max : Z).
Abbreviation hash := (commit_ad_sha256 b64_decode sha256).

Record written (input : SeatListWriteInput) (plan : SeatListWritePlan) (body : SeatListBody) : Prop := {
  wr_parsed : seat_list_parse (sl_body (pl_row plan)) = Ok body;
  wr_body : sl_body (pl_row plan) = sub_body (in_submission input);
  wr_channel : sb_channel_id body = in_channel_id input;
  wr_id : sl_id (pl_row plan) = in_channel_id input;
  wr_signer : sb_signer_user_id body = sl_signer_user_id (pl_row plan);
  wr_device : sb_signer_device_id body = sl_signer_device_id (pl_row plan);
  wr_version : version_rule input body = Ok None;
  wr_removed : seat_list_removed_users body (in_stored input) (in_seats input) = Ok [];
  wr_rows : exists released new_slots claimed,
    let claims := claim_seats (in_channel_id input) (in_seats input) (in_now input)
                    (btree_set (sb_seats body)) in
    claims = (claims.1.1, claimed, new_slots)
    /\ release_seats ts_min ts_max (btree_set (sb_seats body)) (in_now input) (in_seats input)
       = Ok released
    /\ check_claims input claimed new_slots = Ok tt
    /\ pl_claimed plan = sort_by str_leb claimed
    /\ pl_released plan = sort_by str_leb released.2
    /\ pl_seat_rows plan = sort_by seat_leb (claims.1.1 ++ released.1);
  wr_pending : pending_added_for input (btree_set (sb_seats body)) = Ok (pl_pending_added plan);
  wr_hash : hash (pl_row plan) = Ok (pl_seat_list_ad_sha256 plan);
}.

Lemma plan_written input plan :
  plan_seat_list_write b64_decode sha256 ts_min ts_max input = Ok (Apply plan) ->
  exists body, written input plan body.
Proof.
  unfold plan_seat_list_write. intros H.
  destruct (seat_list_parse _) as [body|] eqn:Ep; [|done].
  destruct (negb (str_eqb (sb_channel_id body) _)) eqn:Ec; [done|].
  destruct (negb (str_eqb (sb_signer_device_id body) _)) eqn:Es; [done|].
  destruct (decode_signature_b64 _ _); [|done]. destruct (version_rule _ _) as [[|]|] eqn:Ev; [done| |done].
  destruct (seat_list_removed_users _ _ _) as [[|]|] eqn:Er; [|done..].
  destruct (match in_kind input with Protect => _ | Put => _ end); [done|].
  destruct (claim_seats _ _ _ _) as [[rows claimed] n] eqn:Ecl.
  destruct (release_seats _ _ _ _ _) as [released|] eqn:Erl; [|done].
  destruct (check_claims _ _ _) as [[]|] eqn:Ecc; [|done].
  destruct (pending_added_for _ _) as [pending|] eqn:Epe; [|done].
  destruct (handovers_after _ _) as [handovers|]; [|done].
  destruct (commit_ad_sha256 _ _ _) as [ad|] eqn:Eh; [|done].
  injection H as <-. exists body. to_prop. split; try done.
  exists released, n, claimed. cbn. rewrite Ecl. done.
Qed.

Lemma plan_unchanged input l :
  plan_seat_list_write b64_decode sha256 ts_min ts_max input = Ok (Unchanged l) ->
  in_stored input = Some l.
Proof.
  unfold plan_seat_list_write. destruct (seat_list_parse _) as [body|]; [|done].
  do 2 (destruct (negb _); [done|]). destruct (decode_signature_b64 _ _); [|done].
  destruct (version_rule input body) as [[l'|]|] eqn:Ev; [|clear Ev|done].
  - intros [= <-]. unfold version_rule in Ev. destruct (in_kind input), (in_stored input) as [l0|]; try done.
    + by destruct (negb _).
    + destruct (_ && _); [by injection Ev as ->|]. by destruct (negb _).
  - destruct (seat_list_removed_users _ _ _) as [[|]|]; [|done..].
    destruct (match in_kind input with Protect => _ | Put => _ end); [done|].
    destruct (claim_seats _ _ _ _) as [[rows claimed] n].
    destruct (release_seats _ _ _ _ _); [|done]. destruct (check_claims _ _ _); [|done].
    destruct (pending_added_for _ _); [|done]. destruct (handovers_after _ _); [|done].
    by destruct (commit_ad_sha256 _ _ _).
Qed.

(** The rows of a write: the claimed are active and listed, the released not
    listed, and all are of the channel *)
Lemma written_rows input plan body r :
  written input plan body -> seats_wf (in_channel_id input) (in_seats input) ->
  r ∈ pl_seat_rows plan ->
  row_of (in_channel_id input) r
  /\ (st_user_id r ∈ sb_seats body /\ seat_is_active r = true
      \/ st_user_id r ∉ sb_seats body
         /\ exists s, s ∈ in_seats input /\ seat_is_active s = true /\ st_id s = st_id r
                      /\ st_user_id s = st_user_id r).
Proof.
  intros Hw Hwf Hr. destruct (wr_rows _ _ _ Hw) as (released & n & claimed & _ & Erl & _ & _ & _ & Erows).
  rewrite Erows in Hr. apply elem_of_sort_by, elem_of_app in Hr as [Hr|Hr].
  - pose proof (claim_seats_rows _ _ (in_now input) (btree_set (sb_seats body)) Hwf) as Hc.
    rewrite Forall_forall in Hc. destruct (Hc r Hr) as (H1 & H2 & H3). rewrite elem_of_btree in H2.
    split; [done|by left].
  - pose proof (release_seats_rows _ _ _ _ _ _ _ Hwf Erl) as Hc. rewrite Forall_forall in Hc.
    destruct (Hc r Hr) as (H1 & H2 & H3). rewrite elem_of_btree in H2.
    split; [done|by right].
Qed.

(** ** The invariant *)

Abbreviation inv := (inv b64_decode sha256).
Context `{!HashIter string MlsGroup, !HashIter string ChannelSeat}.
Context `{!HashIter string ChannelEntitlement, !HashIter string PChannel, !HashIter string string}.

Lemma elem_of_seats_of d c s :
  s ∈ seats_of d c <-> st_channel_id s = c /\ exists k, d_seats d !! k = Some s.
Proof. unfold seats_of. rewrite elem_of_filter_bool, elem_of_hm_values, str_eqb_eq. done. Qed.

Lemma seats_of_wf d c : inv d -> seats_wf c (seats_of d c).
Proof.
  intros Hi s [Hc [k Hk]]%elem_of_seats_of. split; [|done].
  pose proof (inv_seats _ _ d Hi k s Hk) as Hok. by rewrite (proj1 Hok).
Qed.

Lemma seats_of_lookup d c s : inv d -> s ∈ seats_of d c -> d_seats d !! st_id s = Some s.
Proof.
  intros Hi [Hc [k Hk]]%elem_of_seats_of. by rewrite (proj1 (inv_seats _ _ d Hi k s Hk)).
Qed.

(** The seat a user has on a channel is the row at its key *)
Lemma active_seat_of d c u :
  inv d -> is_valid_ulid_id c = true -> active_seat (d_seats d) c u ->
  exists s, s ∈ seats_of d c /\ st_user_id s = u /\ seat_is_active s = true.
Proof.
  intros Hi Hc (s & Es & Ha). destruct (inv_seats _ _ d Hi _ _ Es) as (_ & Ek & Hcs & Hu).
  apply seat_id_inj in Ek as [Ec Eu]; [|by apply ulid_no_colon..].
  exists s. split; [|done]. apply elem_of_seats_of. eauto.
Qed.

(** What is fixed about the input a driver gives to the decision *)
Definition reads (d : Db) (input : SeatListWriteInput) : Prop :=
  in_stored input = d_seat_lists d !! in_channel_id input
  /\ in_seats input = seats_of d (in_channel_id input)
  /\ in_text_group input = open_text_group d (in_channel_id input).

Lemma written_valid input plan body :
  written input plan body -> valid_body body.
Proof. intros Hw. apply (seat_list_parse_ok _ _ (wr_parsed _ _ _ Hw)). Qed.

Lemma written_listed d input plan body u :
  inv d -> reads d input -> written input plan body -> u ∈ sb_seats body ->
  active_seat (insert_seats (pl_seat_rows plan) (d_seats d)) (in_channel_id input) u.
Proof.
  intros Hi (_ & Er & _) Hw Hu. pose proof (seats_of_wf d (in_channel_id input) Hi) as Hwf.
  rewrite <- Er in Hwf.
  destruct (insert_seats_lookup (pl_seat_rows plan) (d_seats d) (seat_id (in_channel_id input) u))
    as [(s & Hs & Hk & E)|[Hno E]]; unfold active_seat; rewrite E.
  - exists s. split; [done|]. destruct (written_rows _ _ _ _ Hw Hwf Hs) as [[_ Hid] [[_ Ha]|[Hn _]]]; [done|].
    rewrite Hid in Hk. apply seat_id_user in Hk. congruence.
  - destruct (wr_rows _ _ _ Hw) as (released & n & claimed & _ & _ & _ & _ & _ & Erows).
    destruct (claim_seats_all (in_channel_id input) (in_seats input) (in_now input)
                (btree_set (sb_seats body)) u) as [(s & Hs & Eu & Ha)|(r & Hr & Eu)].
    + by apply elem_of_btree.
    + destruct (Hwf s Hs) as [Hok Hc]. destruct (row_of_ok _ _ Hok Hc) as [_ Hid].
      rewrite Er in Hs. exists s. split; [|done]. rewrite <- Eu, <- Hid. by eapply seats_of_lookup.
    + assert (r ∈ pl_seat_rows plan) as Hr'.
      { rewrite Erows. apply elem_of_sort_by, elem_of_app. by left. }
      destruct (written_rows _ _ _ _ Hw Hwf Hr') as [[_ Hid] _]. exfalso. apply (Hno r Hr'). by rewrite Hid, Eu.
Qed.

Lemma written_elsewhere d input plan body c u :
  inv d -> reads d input -> written input plan body -> is_valid_ulid_id c = true ->
  c <> in_channel_id input -> active_seat (d_seats d) c u ->
  active_seat (insert_seats (pl_seat_rows plan) (d_seats d)) c u.
Proof.
  intros Hi (_ & Er & _) Hw Hc Hne (s & Es & Ha). exists s. split; [|done].
  pose proof (seats_of_wf d (in_channel_id input) Hi) as Hwf. rewrite <- Er in Hwf.
  destruct (insert_seats_lookup (pl_seat_rows plan) (d_seats d) (seat_id c u))
    as [(r & Hr & Hk & _)|[_ ->]]; [|done]. exfalso. apply Hne.
  destruct (written_rows _ _ _ _ Hw Hwf Hr) as [[_ Hid] _]. rewrite Hid in Hk. symmetry in Hk.
  apply seat_id_inj in Hk as [-> _]; [done|by apply ulid_no_colon|]. apply ulid_no_colon.
  rewrite <- (wr_channel _ _ _ Hw). apply (vb_channel _ (written_valid _ _ _ Hw)).
Qed.

(** Whoever was in the group and is not on the new list is pending removal *)
Lemma written_dropped d input plan body g l u :
  inv d -> reads d input -> written input plan body ->
  open_text_group d (in_channel_id input) = Some g -> g_channel_id g = in_channel_id input ->
  d_seat_lists d !! in_channel_id input = Some l ->
  (exists m, m ∈ g_members g /\ md_user_id m = u) -> u ∉ sb_seats body ->
  active_seat (d_seats d) (in_channel_id input) u \/ u = sl_signer_user_id l ->
  has_pending_removal g u = true \/ exists p, p ∈ pl_pending_added plan /\ pr_user_id p = u.
Proof.
  intros Hi (Est & Ese & Egr) Hw Eg Hc El (m & Hm & Eu) Hn Hold.
  destruct (has_pending_removal g u) eqn:Ep; [by left|]. right.
  pose proof (wr_pending _ _ _ Hw) as Hp. unfold pending_added_for in Hp.
  rewrite Egr, Eg, Est, El in Hp.
  destruct (inv_lists _ _ d Hi _ _ El) as (_ & b & Eb & Ebc & Ebs & _). rewrite Eb in Hp.
  injection Hp as <-. exists (mkPendingRemoval u (in_now input)). split; [|done].
  apply list_elem_of_fmap. exists u. split; [done|]. apply elem_of_filter_bool.
  pose proof (proj1 (seat_list_parse_ok _ _ Eb)) as Hvb. split.
  - rewrite Ep. apply andb_true_iff. split.
    + apply negb_true_iff, contains_user_false. by rewrite elem_of_btree.
    + apply andb_true_iff. split; [|done]. apply existsb_exists. exists m.
      split; [by apply list_elem_of_In|by apply str_eqb_eq].
  - apply elem_of_btree, elem_of_app. destruct Hold as [Ha| ->].
    + left. rewrite Ese. rewrite <- Ebc in Ha |- *.
      apply active_seat_of in Ha as (s & Hs & Eu' & Ha); [|done|apply (vb_channel _ Hvb)].
      apply list_elem_of_fmap. exists s. split; [done|]. by apply elem_of_filter_bool.
    + right. rewrite <- Ebs. apply (vb_signer_seated _ Hvb).
Qed.

Lemma is_open_text_group_true g c :
  is_open_text_group_of g c = true <-> g_channel_id g = c /\ open_text g.
Proof. unfold is_open_text_group_of, open_text. rewrite !andb_true_iff, str_eqb_eq, eqb_eq. tauto. Qed.

Lemma open_text_group_Some d c g :
  inv d -> open_text_group d c = Some g ->
  d_groups d !! g_id g = Some g /\ g_channel_id g = c /\ open_text g.
Proof.
  intros Hi [[k Hk] [Hc Ho]%is_open_text_group_true]%hm_find_Some. split; [|done].
  by rewrite (inv_ids _ _ d Hi k g Hk).
Qed.

Lemma open_text_group_None d c k g :
  open_text_group d c = None -> d_groups d !! k = Some g -> open_text g -> g_channel_id g <> c.
Proof.
  intros Hn Hk Ho Hc. pose proof (hm_find_None _ _ Hn k g Hk) as Hf. apply not_true_iff_false in Hf.
  apply Hf, is_open_text_group_true. done.
Qed.

(** The open text group of a channel is the one the driver finds. *)
Lemma open_text_group_found d k g :
  inv d -> d_groups d !! k = Some g -> open_text g -> open_text_group d (g_channel_id g) = Some g.
Proof.
  intros Hi Hk Ho. destruct (open_text_group d (g_channel_id g)) as [g'|] eqn:E.
  - apply open_text_group_Some in E as (Hk' & Hc & Ho'); [|done]. destruct Ho as [O1 O2], Ho' as [O3 O4].
    assert (g_id g' = k) by (eapply (inv_one_open _ _ d Hi _ k g' g); congruence). congruence.
  - exfalso. by eapply open_text_group_None.
Qed.

Lemma written_list_ok input plan body :
  written input plan body -> list_ok (in_channel_id input) (pl_row plan).
Proof.
  intros Hw. split; [apply (wr_id _ _ _ Hw)|]. exists body.
  split; [apply (wr_parsed _ _ _ Hw)|]. split; [apply (wr_channel _ _ _ Hw)|].
  split; [apply (wr_signer _ _ _ Hw)|apply (wr_device _ _ _ Hw)].
Qed.

Lemma written_seat_ok d input plan body r :
  inv d -> reads d input -> written input plan body -> r ∈ pl_seat_rows plan -> seat_ok (st_id r) r.
Proof.
  intros Hi (_ & Er & _) Hw Hr. pose proof (seats_of_wf d (in_channel_id input) Hi) as Hwf.
  rewrite <- Er in Hwf. destruct (written_rows _ _ _ _ Hw Hwf Hr) as [[R1 R2] Hu].
  pose proof (written_valid _ _ _ Hw) as Hv. split; [done|]. rewrite R1. split; [done|]. split.
  { rewrite <- (wr_channel _ _ _ Hw). apply (vb_channel _ Hv). }
  destruct Hu as [[Hu _]|(_ & s & Hs & _ & _ & <-)].
  - pose proof (vb_seats _ Hv) as Hf. rewrite Forall_forall in Hf. by apply Hf.
  - apply (Hwf s Hs).
Qed.

Lemma written_text_ok d input plan body g :
  inv d -> reads d input -> written input plan body ->
  d_groups d !! g_id g = Some g -> open_text g ->
  text_ok b64_decode sha256 (<[in_channel_id input := pl_row plan]> (d_seat_lists d))
    (insert_seats (pl_seat_rows plan) (d_seats d))
    (if decide (g_channel_id g = in_channel_id input)
     then set_seat_list_ad g (pl_seat_list_ad_sha256 plan) (g_pending_removals g ++ pl_pending_added plan)
     else g).
Proof.
  intros Hi Hr Hw Hk Ho. destruct (inv_text _ _ d Hi _ _ Hk Ho) as (l & El & Had & Hm).
  case_decide as Hc.
  - exists (pl_row plan). cbn. rewrite Hc, lookup_insert_eq. split; [done|].
    split; [by exists (pl_seat_list_ad_sha256 plan); split; [apply (wr_hash _ _ _ Hw)|]|].
    intros m Hin. destruct (contains_user (sb_seats body) (md_user_id m)) eqn:Eu.
    { left. apply contains_user_true in Eu. by eapply written_listed. }
    apply contains_user_false in Eu. right; left. unfold has_pending_removal; cbn.
    rewrite existsb_app, orb_true_iff.
    assert (open_text_group d (in_channel_id input) = Some g) as Eg
      by (rewrite <- Hc; by eapply open_text_group_found).
    rewrite Hc in El, Hm. specialize (Hm m Hin).
    assert (has_pending_removal g (md_user_id m) = true \/
            exists p, p ∈ pl_pending_added plan /\ pr_user_id p = md_user_id m) as Hp.
    { destruct Hm as [Ha|[Hp|Hs]]; [|by left|];
        (eapply written_dropped; [done|done|done|exact Eg|done|exact El|by exists m|done|auto]). }
    destruct Hp as [Hp|(p & Hp & Ep)]; [by left|right]. apply existsb_exists. exists p.
    split; [by apply list_elem_of_In|by apply str_eqb_eq].
  - exists l. rewrite lookup_insert_ne by done. split; [done|]. split; [done|]. intros m Hin.
    destruct (inv_lists _ _ d Hi _ _ El) as (_ & b & Eb & Ebc & _).
    destruct (Hm m Hin) as [Ha|?]; [left|by right].
    eapply written_elsewhere; [done|done|done| |done|done]. rewrite <- Ebc.
    apply (vb_channel _ (proj1 (seat_list_parse_ok _ _ Eb))).
Qed.

Lemma altered_group d c f k g' :
  inv d ->
  (match g_id <$> open_text_group d c with
   | Some id => alter f id (d_groups d) | None => d_groups d end) !! k = Some g' ->
  exists g0, d_groups d !! k = Some g0
             /\ (open_text_group d c = Some g0 /\ g' = f g0
                 \/ open_text_group d c <> Some g0 /\ g' = g0).
Proof.
  intros Hi. destruct (open_text_group d c) as [g|] eqn:Eg; cbn; [|by exists g'; auto].
  apply (open_text_group_Some _ _ _ Hi) in Eg as (Hk & _). destruct (decide (k = g_id g)) as [->|Hne].
  - rewrite lookup_alter_eq, Hk. intros [= <-]. exists g. auto.
  - rewrite lookup_alter_ne by done. intros H. exists g'. split; [done|]. right. split; [|done].
    intros [= ->]. by rewrite (inv_ids _ _ d Hi k g' H) in Hne.
Qed.

Lemma inv_apply d input decision :
  inv d -> reads d input ->
  plan_seat_list_write b64_decode sha256 ts_min ts_max input = Ok decision ->
  inv (apply_decision decision d (g_id <$> open_text_group d (in_channel_id input))).
Proof.
  intros Hi Hr Hp. destruct decision as [l|plan]; [done|]. apply plan_written in Hp as [body Hw].
  split; cbn; rewrite ?(wr_id _ _ _ Hw).
  - intros k l [[<- <-]|[_ H]]%lookup_insert_Some; [by eapply written_list_ok|by apply (inv_lists _ _ d Hi)].
  - intros k s H. destruct (insert_seats_lookup (pl_seat_rows plan) (d_seats d) k)
      as [(r & Hin & <- & E)|[_ E]]; rewrite E in H; [|by apply (inv_seats _ _ d Hi)].
    injection H as ->. by eapply written_seat_ok.
  - intros k g (g0 & E0 & [[_ ->]|[_ ->]])%altered_group; [|by apply (inv_ids _ _ d Hi)|done].
    cbn. by apply (inv_ids _ _ d Hi).
  - intros k k' g g' (g0 & E0 & H0)%altered_group (g1 & E1 & H1)%altered_group Ho Ho' Hc Hk; try done.
    eapply (inv_one_open _ _ d Hi k k' g0 g1 E0 E1);
      destruct H0 as [[_ ->]|[_ ->]], H1 as [[_ ->]|[_ ->]]; done.
  - intros k g (g0 & E0 & H0)%altered_group Ho; [|done].
    assert (open_text g0) as Ho0 by (by destruct H0 as [[_ ->]|[_ ->]]).
    pose proof (written_text_ok d input plan body g0 Hi Hr Hw) as Ht.
    rewrite (inv_ids _ _ d Hi _ _ E0) in Ht. specialize (Ht E0 Ho0).
    destruct H0 as [[H0 ->]|[H0 ->]].
    + apply (open_text_group_Some _ _ _ Hi) in H0 as (_ & Hc & _). by rewrite decide_True in Ht.
    + rewrite decide_False in Ht; [done|]. intros Hc. apply H0. rewrite <- Hc.
      by eapply open_text_group_found.
Qed.

Lemma inv_put d channel_id submission allow_claims now :
  inv d -> inv (put_seat_list b64_decode sha256 ts_min ts_max d channel_id submission allow_claims now).1.
Proof.
  intros Hi. unfold put_seat_list. destruct (plan_seat_list_write _ _ _ _ _) as [decision|] eqn:E; [|done].
  destruct (check_members _ _ _); [|done]. by apply (inv_apply d) in E.
Qed.

Lemma inv_protect d channel_id submission now :
  inv d -> inv (protect_channel b64_decode sha256 ts_min ts_max d channel_id submission now).1.
Proof.
  intros Hi. unfold protect_channel.
  destruct (match d_seat_lists d !! channel_id with Some _ => _ | None => _ end); [done|].
  destruct (check_channel_protectable _); [|done]. destruct (seat_list_parse _); [|done].
  destruct (negb _); [done|]. destruct (_ ≫= _); [|done].
  do 2 (destruct (existsb _ _); [done|]). destruct (negb _); [done|].
  destruct (plan_seat_list_write _ _ _ _ _) as [decision|] eqn:E; [|done].
  destruct (check_members _ _ _); [|done]. apply (inv_apply d) in E; [|done..]. cbn in *.
  unfold protect_flag. destruct (_ !! _) as [[]|]; [|done..]. by eapply inv_same.
Qed.

(** *** Creating the group, releasing seats, deleting the channel *)

Lemma prepared_text group l prepared :
  prepare_text_group b64_decode sha256 group l = Ok prepared ->
  g_id prepared = g_id group /\ g_channel_id prepared = g_channel_id group
  /\ g_kind prepared = MlsGroupKind.Text
  /\ (exists ad, hash l = Ok ad /\ g_seat_list_ad_sha256 prepared = Some ad)
  /\ exists m, g_members prepared = [m] /\ md_user_id m = sl_signer_user_id l.
Proof.
  unfold prepare_text_group. destruct (match g_generation group with Some _ => _ | None => _ end); [done|].
  destruct (negb (g_open group) || _ || _ || _); [done|].
  case_bool_decide as Hm; [|done]. cbn [negb]. destruct (_ || _) eqn:Es; [done|].
  destruct (commit_ad_sha256 _ _ _) as [ad|] eqn:Ead; [|done]. intros [= <-]. cbn.
  to_prop. destruct Es as [Es _]. split; [done|]. split; [done|]. split; [done|]. split; [by exists ad|].
  by exists (g_created_by group).
Qed.

Lemma inv_evict d id taken :
  inv d -> d_groups d !! id = Some taken -> inv (evict_squat d id).
Proof.
  intros Hi _. unfold evict_squat.
  eapply (inv_same _ _ (set_mls d (delete id (d_groups d)) (d_commits d) (d_intents d))); [|done..].
  apply inv_groups; [done|].
  intros k g [_ H]%lookup_delete_Some. split; [by apply (inv_ids _ _ d Hi)|].
  split; [|by apply (inv_text _ _ d Hi k)]. intros Ho. by exists g.
Qed.

Lemma inv_close_superseded d id now by_ :
  inv d ->
  inv (set_mls d (alter (fun old => if g_open old then set_open old false now by_ else old) id (d_groups d))
         (d_commits d) (d_intents d)).
Proof.
  intros Hi. apply inv_groups; [done|]. intros k g. destruct (decide (k = id)) as [->|Hk].
  - rewrite lookup_alter_eq. destruct (d_groups d !! id) as [old|] eqn:E; [|done]. cbn. intros [= <-].
    destruct (g_open old) eqn:Eo; cbn.
    + split; [by apply (inv_ids _ _ d Hi)|]. split; [done|by intros [? _]].
    + split; [by apply (inv_ids _ _ d Hi)|]. split; [congruence|intros [? _]; congruence].
  - rewrite lookup_alter_ne by done. intros H. split; [by apply (inv_ids _ _ d Hi)|].
    split; [|by apply (inv_text _ _ d Hi k)]. intros Ho. by exists g.
Qed.

(** A prepared group can be stored once no other is open. *)
Lemma inv_store d group prepared supersedes l :
  inv d -> d_seat_lists d !! g_channel_id group = Some l ->
  prepare_text_group b64_decode sha256 group l = Ok prepared -> d_groups d !! g_id prepared = None ->
  (forall g, open_text_group d (g_channel_id group) = Some g -> supersedes = Some (g_id g)) ->
  inv (store_text_group d group prepared supersedes).
Proof.
  intros Hi El Hp Hn Hs. apply prepared_text in Hp as (Eid & Ec & Ek & Had & m & Em & Eu).
  assert (exists c, c = match supersedes with
    | Some id => alter (fun old => if g_open old
                 then set_open old false (Some (g_created_at group)) (Some (g_id group)) else old) id (d_groups d)
    | None => d_groups d end) as [groups Egr] by eauto.
  unfold store_text_group. rewrite <- Egr.
  assert (inv (set_mls d groups (d_commits d) (d_intents d))) as Hc.
  { subst groups. destruct supersedes; [by apply inv_close_superseded|]. by eapply inv_same. }
  apply (inv_add _ _ (set_mls d groups (d_commits d) (d_intents d)) prepared (d_commits d) (d_intents d)) in Hc;
    cbn in *; [exact Hc| | |].
  - subst groups. destruct supersedes as [id|]; [|done]. by rewrite lookup_alter_None.
  - intros k g' Hg Ho Hch Hk.
    assert (exists g0, d_groups d !! k = Some g0 /\ supersedes <> Some k /\ g0 = g') as (g0 & E0 & Hns & ->).
    { subst groups. destruct supersedes as [id|]; [|by exists g'].
      destruct (decide (id = k)) as [->|Hne].
      - exfalso. rewrite lookup_alter_eq in Hg. destruct (d_groups d !! k) as [old|]; [|done].
        cbn in Hg. injection Hg as <-. destruct (g_open old) eqn:Eo; cbn in Ho; congruence.
      - rewrite lookup_alter_ne in Hg by done. exists g'. split; [done|]. split; [congruence|done]. }
    apply Hns. rewrite <- (inv_ids _ _ d Hi k g' E0). apply Hs. rewrite <- Ec, <- Hch.
    eapply open_text_group_found; [done|exact E0|]. split; congruence.
  - intros _. exists l. rewrite Ec. split; [done|]. split; [done|]. rewrite Em.
    intros x ->%list_elem_of_singleton. auto.
Qed.

Lemma evicted_group d id taken g c :
  inv d -> d_groups d !! id = Some taken -> g_kind taken = MlsGroupKind.Call ->
  open_text_group (evict_squat d id) c = Some g -> open_text_group d c = Some g.
Proof.
  intros Hi Ht Hk E. apply open_text_group_Some in E as (Hg & <- & Ho); [|by eapply inv_evict].
  cbn in Hg. apply lookup_delete_Some in Hg as [_ Hg]. by eapply open_text_group_found.
Qed.

Lemma inv_create_text d group supersedes :
  inv d -> inv (create_text_mls_group b64_decode sha256 d group supersedes).1.
Proof.
  intros Hi. unfold create_text_mls_group.
  destruct (d_seat_lists d !! g_channel_id group) as [l|] eqn:El; [|done].
  set (before := match supersedes with Some _ => _ | None => _ end).
  destruct before as [[o|]|] eqn:Eb; [done| |done].
  assert (forall g, open_text_group d (g_channel_id group) = Some g -> supersedes = Some (g_id g)) as Hs.
  { intros g Eg. subst before. rewrite Eg in Eb. destruct supersedes as [id|].
    - destruct (ok_or _ _); [|done]. destruct (check_text_successor _ _); [|done].
      destruct (str_eqb (g_id g) id) eqn:E; [|done]. by apply str_eqb_eq in E as ->.
    - by destruct (check_text_first_generation group). }
  clear before Eb. destruct (prepare_text_group _ _ _ _) as [prepared|] eqn:Ep; [|done].
  destruct (d_groups d !! g_id prepared) as [taken|] eqn:Et; cbn [fst].
  - destruct (eqb (g_kind taken) _ && _) eqn:Ek; [|done]. cbn [fst].
    apply andb_true_iff in Ek as [Ek _]. rewrite eqb_eq in Ek.
    eapply inv_store; [by eapply inv_evict|exact El|exact Ep|apply lookup_delete_eq|].
    intros g Eg. apply Hs. by eapply evicted_group.
  - by eapply inv_store.
Qed.

Lemma has_pending_add g p u :
  has_pending_removal (add_pending g p) u = has_pending_removal g u || str_eqb (pr_user_id p) u.
Proof. unfold has_pending_removal; cbn. rewrite existsb_app; cbn. by rewrite orb_false_r. Qed.

(** A group after a release: the same, but for a pending removal *)
Definition released_group (d : Db) (user_id : string) (server_id : option string) (now : Z)
    (g : MlsGroup) : MlsGroup :=
  if group_pending_by d user_id server_id g then add_pending g (mkPendingRemoval user_id now) else g.

Lemma released_group_same d user_id server_id now g :
  let g' := released_group d user_id server_id now g in
  g_id g' = g_id g /\ g_channel_id g' = g_channel_id g /\ g_kind g' = g_kind g /\ g_open g' = g_open g
  /\ g_members g' = g_members g /\ g_seat_list_ad_sha256 g' = g_seat_list_ad_sha256 g
  /\ forall u, has_pending_removal g u = true -> has_pending_removal g' u = true.
Proof.
  unfold released_group. destruct (group_pending_by _ _ _ g); [|done].
  do 6 (split; [done|]). intros u Hu. by rewrite has_pending_add, Hu.
Qed.

Lemma released_pending d user_id server_id now g m :
  open_text g -> m ∈ g_members g -> md_user_id m = user_id ->
  in_scope d server_id (g_channel_id g) = true ->
  has_pending_removal (released_group d user_id server_id now g) user_id = true.
Proof.
  intros [Ho Hk] Hm Hu Hs. destruct (has_pending_removal g user_id) eqn:Ep.
  { by apply (released_group_same d user_id server_id now g). }
  assert (group_pending_by d user_id server_id g = true) as Hp.
  { unfold group_pending_by. rewrite Ho, Hk, Hs, Ep. cbn. rewrite andb_true_r.
    apply existsb_exists. exists m. split; [by apply list_elem_of_In|by apply str_eqb_eq]. }
  unfold released_group. rewrite Hp, has_pending_add. cbn. by rewrite str_eqb_refl, orb_true_r.
Qed.

Lemma list_channel_valid d c l : inv d -> d_seat_lists d !! c = Some l -> is_valid_ulid_id c = true.
Proof.
  intros Hi El. destruct (inv_lists _ _ d Hi _ _ El) as (_ & b & Eb & <- & _).
  apply (vb_channel _ (proj1 (seat_list_parse_ok _ _ Eb))).
Qed.

Definition released_seat (d : Db) (user_id : string) (server_id : option string) (now until : Z)
    (s : ChannelSeat) : ChannelSeat :=
  if seat_released_by d user_id server_id s
  then mkSeat (st_id s) (st_channel_id s) (st_user_id s) (st_seated_at s) (Some now) (Some until)
  else s.

Lemma released_text_ok d user_id server_id now until k g :
  inv d -> d_groups d !! k = Some g -> open_text g ->
  text_ok b64_decode sha256 (d_seat_lists d)
    (released_seat d user_id server_id now until <$> d_seats d)
    (released_group d user_id server_id now g).
Proof.
  intros Hi E0 Ho. destruct (inv_text _ _ d Hi k g E0 Ho) as (l & El & Had & Hm).
  destruct (released_group_same d user_id server_id now g) as (_ & Ec & _ & _ & Em & Ea & Hp).
  exists l. rewrite Ec, Ea, Em. split; [done|]. split; [done|]. intros m Hin.
  destruct (Hm m Hin) as [(s & Es & Ha)|[Hpe|Hs]]; [|right; left; by apply Hp|by right; right].
  destruct (inv_seats _ _ d Hi _ _ Es) as (_ & Ek & Hc & Hu).
  apply seat_id_inj in Ek as [Ecs Eu]; [|apply ulid_no_colon; by eapply list_channel_valid|by apply ulid_no_colon].
  destruct (seat_released_by d user_id server_id s) eqn:Er.
  - right; left. unfold seat_released_by in Er. to_prop. destruct Er as [[Er1 _] Er2].
    rewrite Eu, Er1. eapply released_pending; [done|exact Hin|congruence|congruence].
  - left. exists s. rewrite lookup_fmap, Es. cbn. unfold released_seat. by rewrite Er.
Qed.

Lemma inv_release d user_id server_id now :
  inv d -> inv (release_channel_seats_for_user ts_min ts_max d user_id server_id now).1.
Proof.
  intros Hi. unfold release_channel_seats_for_user.
  destruct (seat_cooldown_until _ _ now) as [until|]; [|done].
  assert (forall k g', (released_group d user_id server_id now <$> d_groups d) !! k = Some g' ->
          exists g0, d_groups d !! k = Some g0 /\ g' = released_group d user_id server_id now g0) as Hg.
  { intros k g'. rewrite lookup_fmap. destruct (d_groups d !! k) as [g0|]; [|done]. cbn.
    intros [= <-]. by exists g0. }
  split; cbn.
  - apply (inv_lists _ _ d Hi).
  - intros k s. rewrite lookup_fmap. destruct (d_seats d !! k) as [s0|] eqn:E; [|done]. cbn.
    intros [= <-]. pose proof (inv_seats _ _ d Hi k s0 E) as Hs. by destruct (seat_released_by _ _ _ s0).
  - intros k g' (g0 & E0 & ->)%Hg. destruct (released_group_same d user_id server_id now g0) as [-> _].
    by apply (inv_ids _ _ d Hi).
  - intros k k' g g' (g0 & E0 & ->)%Hg (g1 & E1 & ->)%Hg.
    destruct (released_group_same d user_id server_id now g0) as (_ & -> & -> & -> & _).
    destruct (released_group_same d user_id server_id now g1) as (_ & -> & -> & -> & _).
    by apply (inv_one_open _ _ d Hi).
  - intros k g' (g0 & E0 & ->)%Hg [Ho Hk].
    destruct (released_group_same d user_id server_id now g0) as (_ & _ & Ek & Eo & _).
    eapply released_text_ok; [done|exact E0|]. split; congruence.
Qed.

Lemma inv_delete d channel_id : inv d -> inv (delete_protected_channel_data d channel_id).1.
Proof.
  intros Hi. unfold delete_protected_channel_data. cbn.
  set (ids := g_id <$> _).
  assert (forall k g, filter (fun kv => contains_user ids kv.1 = false) (d_groups d) !! k = Some g ->
            d_groups d !! k = Some g /\ (g_kind g = MlsGroupKind.Text -> g_channel_id g <> channel_id)) as Hg.
  { intros k g [Hk Hf%contains_user_false]%map_lookup_filter_Some. split; [done|]. intros Ht Hc.
    apply Hf. cbn. rewrite <- (inv_ids _ _ d Hi k g Hk). apply list_elem_of_fmap. exists g. split; [done|].
    apply elem_of_filter_bool. split; [|apply elem_of_hm_values; eauto].
    apply andb_true_iff. split; [by apply str_eqb_eq|by rewrite Ht]. }
  split; cbn.
  - intros k l [_ H]%lookup_delete_Some. by apply (inv_lists _ _ d Hi).
  - intros k s [H _]%retain_lookup. by apply (inv_seats _ _ d Hi).
  - intros k g [H _]%Hg. by apply (inv_ids _ _ d Hi).
  - intros k k' g g' [H _]%Hg [H' _]%Hg. by apply (inv_one_open _ _ d Hi).
  - intros k g [H Hc]%Hg Ho. specialize (Hc (proj2 Ho)).
    destruct (inv_text _ _ d Hi k g H Ho) as (l & El & Had & Hm). exists l.
    rewrite lookup_delete_ne by done. split; [done|]. split; [done|]. intros m Hin.
    destruct (Hm m Hin) as [(s & Es & Ha)|Hr]; [left|by right]. exists s. split; [|done].
    apply retain_lookup. split; [done|]. apply negb_true_iff, not_true_iff_false. intros Ec%str_eqb_eq.
    destruct (inv_seats _ _ d Hi _ _ Es) as (_ & Ek & Hcs & Hu). apply Hc.
    apply seat_id_inj in Ek as [Ecs _]; [congruence| |by apply ulid_no_colon].
    apply ulid_no_colon. by eapply list_channel_valid.
Qed.

Lemma put_keeps_removed d channel_id submission allow_claims now body l before u :
  inv d -> d_seat_lists d !! channel_id = Some l -> seat_list_parse (sl_body l) = Ok before ->
  seat_list_parse (sub_body submission) = Ok body ->
  u ∈ sb_seats before -> u ∈ sb_seats body -> u <> sb_signer_user_id body ->
  ~ active_seat (d_seats d) channel_id u ->
  let r := put_seat_list b64_decode sha256 ts_min ts_max d channel_id submission allow_claims now in
  r.1 = d /\ forall outcome, r.2 = Ok outcome -> so_unchanged outcome = true.
Proof.
  intros Hi El Eb Ep Hu Hu' Hns Hna. cbn. unfold put_seat_list.
  destruct (plan_seat_list_write _ _ _ _ _) as [decision|] eqn:E; [|done].
  destruct (check_members _ _ _); [|done]. destruct decision as [l'|plan].
  { split; [done|]. by intros outcome [= <-]. }
  exfalso. apply plan_written in E as [body' Hw]. pose proof (wr_removed _ _ _ Hw) as Hr. cbn in Hr.
  pose proof (wr_parsed _ _ _ Hw) as Hp. rewrite (wr_body _ _ _ Hw) in Hp. cbn in Hp.
  assert (body' = body) as -> by congruence. rewrite El in Hr. cbn in Hr. rewrite Eb in Hr.
  injection Hr as Hr. apply (elem_of_nil u). rewrite <- Hr. apply elem_of_filter_bool. split; [|done].
  rewrite !andb_true_iff, !negb_true_iff. split; [split|].
  - apply not_true_iff_false. by intros ?%str_eqb_eq.
  - by apply contains_user_true.
  - apply not_true_iff_false. intros (s & Hs & Ha)%existsb_exists. apply andb_true_iff in Ha as [Es Ha].
    apply str_eqb_eq in Es. apply list_elem_of_In in Hs. apply Hna.
    pose proof (seats_of_lookup d channel_id s Hi Hs) as Hl. apply elem_of_seats_of in Hs as [Hc [k Hk]].
    destruct (inv_seats _ _ d Hi k s Hk) as (Hid & Hkey & _). exists s. split; [|done].
    by rewrite <- Es, <- Hc, <- Hkey.
Qed.
End Written.
