(* ===== verification/ProtectedCaps.v ===== *)
(** * Protected channels: the slots

    No operation lets the seats of a channel that are used, or cooling down
    after a release, exceed what the channel is entitled to. *)

From stdpp Require Import base numbers list gmap strings pretty sorting.
From S2P Require Import Prelude Text Errors SeatLists MlsModel MlsDb ProtectedDb.
From S2P Require Import ProtectedInvariants ProtectedSeating.
Open Scope Z_scope.

(** The new slots of the claims *)
Lemma claim_seats_slots c seats now desired :
  exists ids, length ids = (claim_seats c seats now desired).2
    /\ forall r, r ∈ (claim_seats c seats now desired).1.1 ->
         st_id r ∈ ids \/ exists s, s ∈ seats /\ st_id s = st_id r /\ is_cooling s now = true.
Proof.
  induction desired as [|u rest (ids & Hl & IH)]; [by exists []; split; [|intros ? ?%elem_of_nil]|]. cbn.
  destruct (claim_seats c seats now rest) as [[rows claimed] n]. cbn in *.
  destruct (List.find _ seats) as [s|] eqn:Ef; cbn.
  - destruct (seat_is_active s); cbn; [by exists ids|].
    apply List.find_some in Ef as [Hs%list_elem_of_In _].
    destruct (is_cooling s now) eqn:Ec; cbn.
    + exists ids. split; [done|]. intros r [->|Hr]%elem_of_cons; [|by apply IH]. right. by exists s.
    + exists (st_id s :: ids). cbn. split; [by rewrite Hl|].
      intros r [->|Hr]%elem_of_cons; [left; left|].
      destruct (IH r Hr) as [?|?]; [left; by right|by right].
  - exists (seat_id c u :: ids). cbn. split; [by rewrite Hl|].
    intros r [->|Hr]%elem_of_cons; [left; left|].
    destruct (IH r Hr) as [?|?]; [left; by right|by right].
Qed.

Lemma counts_later s t t' : t <= t' -> counts_against_cap s t' = true -> counts_against_cap s t = true.
Proof.
  unfold counts_against_cap, is_cooling. intros Ht. destruct (seat_is_active s); [done|]. cbn.
  destruct (st_released_at s); [|done]. cbn. destruct (st_cooldown_until s) as [u|]; [|done].
  rewrite !Z.ltb_lt. lia.
Qed.

Section Caps.
Context (b64_decode : string -> option string) (sha256 : string -> string) (ts_min ts_max : Z).
Context `{!HashIter string MlsGroup, !HashIter string ChannelSeat}.
Context `{!HashIter string ChannelEntitlement, !HashIter string PChannel, !HashIter string string}.
Abbreviation inv := (inv b64_decode sha256).

Definition used (d : Db) (channel_id : string) (t : Z) : nat :=
  channel_seats_used (seats_of d channel_id) t.

Lemma NoDup_filtered {A B} (f : A -> B) (p : A -> bool) l : NoDup (f <$> l) -> NoDup (f <$> List.filter p l).
Proof.
  induction l as [|a l IH]; cbn; [done|]. intros [Hn Hd]%NoDup_cons. destruct (p a); [|by apply IH].
  cbn. apply NoDup_cons. split; [|by apply IH].
  intros (x & E & [_ Hx]%elem_of_filter_bool)%list_elem_of_fmap. apply Hn, list_elem_of_fmap. eauto.
Qed.

Lemma seat_ids_NoDup d p : inv d -> NoDup (st_id <$> List.filter p (hm_values (d_seats d))).
Proof.
  intros Hi. apply NoDup_filtered. unfold hm_values. rewrite <- list_fmap_compose.
  rewrite (list_fmap_ext _ fst (hm_iter (d_seats d))); [apply hm_keys_NoDup|].
  intros i [k s] Hx%list_elem_of_lookup_2. cbn. apply elem_of_hm_iter in Hx.
  apply (inv_seats _ _ d Hi k s Hx).
Qed.

(** The ids of the seats that count *)
Definition used_ids (d : Db) (channel_id : string) (t : Z) : list string :=
  st_id <$> List.filter (fun s => counts_against_cap s t) (seats_of d channel_id).

Lemma used_ids_length d c t : length (used_ids d c t) = used d c t.
Proof. unfold used_ids, used, channel_seats_used. by rewrite length_fmap. Qed.

Lemma elem_of_used_ids d c t k :
  inv d -> k ∈ used_ids d c t <->
  exists s, d_seats d !! k = Some s /\ st_channel_id s = c /\ counts_against_cap s t = true.
Proof.
  intros Hi. unfold used_ids. rewrite list_elem_of_fmap. split.
  - intros (s & -> & [Hs Hin]%elem_of_filter_bool). exists s.
    rewrite (seats_of_lookup _ _ d c s Hi Hin). apply elem_of_seats_of in Hin as [Hc _]. done.
  - intros (s & Es & Hc & Hs). exists s. split; [symmetry; apply (inv_seats _ _ d Hi k s Es)|].
    apply elem_of_filter_bool. split; [done|]. apply elem_of_seats_of. eauto.
Qed.

Lemma used_le d c t (ids : list string) :
  inv d -> (forall k, k ∈ used_ids d c t -> k ∈ ids) -> (used d c t <= length ids)%nat.
Proof.
  intros Hi Hs. rewrite <- used_ids_length. apply submseteq_length, NoDup_submseteq; [|done].
  unfold used_ids. apply NoDup_filtered, seat_ids_NoDup, Hi.
Qed.

(** The used seats of one state were used in another *)
Lemma used_mono d d' c t t' :
  inv d -> inv d' -> t <= t' ->
  (forall k s', d_seats d' !! k = Some s' -> st_channel_id s' = c -> counts_against_cap s' t' = true ->
     exists s, d_seats d !! k = Some s /\ st_channel_id s = c /\ counts_against_cap s t' = true) ->
  (used d' c t' <= used d c t)%nat.
Proof.
  intros Hi Hi' Ht Hs. rewrite <- (used_ids_length d). apply used_le; [done|].
  intros k (s' & Es & Hc & Hu)%elem_of_used_ids; [|done]. apply elem_of_used_ids; [done|].
  destruct (Hs k s' Es Hc Hu) as (s & ? & ? & ?). exists s. split; [done|]. split; [done|].
  by eapply counts_later.
Qed.

(** ** The invariant *)

Record caps (t : Z) (d : Db) : Prop := {
  cp_ids k e : d_entitlements d !! k = Some e -> en_id e = k;
  cp_one k k' e e' : d_entitlements d !! k = Some e -> d_entitlements d !! k' = Some e' ->
    en_channel_id e = en_channel_id e' -> k = k';
  cp_cap k e : d_entitlements d !! k = Some e -> Z.of_nat (used d (en_channel_id e) t) <= en_slot_cap e;
}.

(** Steps that give no new seat *)
Lemma caps_mono d d' t t' :
  inv d -> inv d' -> t <= t' -> caps t d ->
  (forall k e, d_entitlements d' !! k = Some e -> d_entitlements d !! k = Some e) ->
  (forall k s', d_seats d' !! k = Some s' -> counts_against_cap s' t' = true ->
     exists s, d_seats d !! k = Some s /\ st_channel_id s = st_channel_id s'
               /\ counts_against_cap s t' = true) ->
  caps t' d'.
Proof.
  intros Hi Hi' Ht [H1 H2 H3] He Hs. split; [eauto..|]. intros k e Hk.
  pose proof (used_mono d d' (en_channel_id e) t t' Hi Hi' Ht) as Hu.
  specialize (H3 k e (He _ _ Hk)). apply Nat2Z.inj_le in Hu; [lia|].
  intros k' s' Es Ec Hc. destruct (Hs k' s' Es Hc) as (s & ? & ? & ?). exists s. split; [done|].
  split; [congruence|done].
Qed.

Lemma caps_same d d' t t' :
  inv d -> inv d' -> t <= t' -> caps t d -> d_entitlements d' = d_entitlements d ->
  d_seats d' = d_seats d -> caps t' d'.
Proof.
  intros Hi Hi' Ht Hc He Hs. eapply (caps_mono d d' t t'); [done..| |]; rewrite ?He, ?Hs; [done|]. eauto.
Qed.

Lemma caps_later d t t' : inv d -> t <= t' -> caps t d -> caps t' d.
Proof. intros Hi Ht Hc. by apply (caps_same d d t t'). Qed.

Lemma entitlement_found d c e :
  (forall k e, d_entitlements d !! k = Some e -> en_id e = k) ->
  entitlement_of d c = Some e -> d_entitlements d !! en_id e = Some e /\ en_channel_id e = c.
Proof.
  intros Hid [[k Hk] Hc%str_eqb_eq]%hm_find_Some. by rewrite (Hid k e Hk).
Qed.

Lemma caps_upsert d e t t' :
  inv d -> t <= t' -> caps t d -> caps t' (upsert_channel_entitlement d e t').1.
Proof.
  intros Hi Ht Hc. assert (caps t' d) as Hc' by (by apply (caps_later d t)).
  unfold upsert_channel_entitlement. destruct (negb _); [done|].
  destruct (_ <? _) eqn:Eu; [done|]. apply Z.ltb_ge in Eu.
  set (stored := match entitlement_of d (en_channel_id e) with Some _ => _ | None => _ end). cbn [fst].
  destruct Hc' as [H1 H2 H3].
  assert (en_channel_id stored = en_channel_id e /\ en_slot_cap stored = en_slot_cap e
          /\ forall k x, d_entitlements d !! k = Some x -> en_channel_id x = en_channel_id e -> k = en_id stored)
    as (Sc & Ss & Su).
  { subst stored. destruct (entitlement_of d (en_channel_id e)) as [x|] eqn:Ex; cbn.
    - apply entitlement_found in Ex as [Hx Hxc]; [|done]. split; [done|]. split; [done|].
      intros k y Hy Hyc. eapply H2; [exact Hy|exact Hx|congruence].
    - split; [done|]. split; [done|]. intros k y Hy Hyc. exfalso.
      pose proof (hm_find_None _ _ Ex k y Hy) as Hf. cbn in Hf. rewrite Hyc, str_eqb_refl in Hf. done. }
  split; cbn.
  - intros k x [[<- <-]|[_ H]]%lookup_insert_Some; [done|by apply H1].
  - intros k k' x x' [[<- <-]|[Hne H]]%lookup_insert_Some [[<- <-]|[Hne' H']]%lookup_insert_Some E.
    + done.
    + symmetry. eapply Su; [exact H'|congruence].
    + eapply Su; [exact H|congruence].
    + eapply H2; [exact H|exact H'|done].
  - intros k x [[<- <-]|[_ H]]%lookup_insert_Some.
    + rewrite Sc, Ss. exact Eu.
    + apply (H3 k x H).
Qed.

(** ** Writes of the list *)

Abbreviation written := (written b64_decode sha256 ts_min ts_max).

(** The seats that count after a write: those that did, and the new slots *)
Lemma written_used d d' input plan body released n claimed :
  inv d -> inv d' -> reads d input -> written input plan body ->
  d_seats d' = insert_seats (pl_seat_rows plan) (d_seats d) ->
  claim_seats (in_channel_id input) (in_seats input) (in_now input) (btree_set (sb_seats body))
    = (released, claimed, n) ->
  (used d' (in_channel_id input) (in_now input)
   <= used d (in_channel_id input) (in_now input) + n)%nat.
Proof.
  intros Hi Hi' (_ & Er & _) Hw Es Ecl.
  destruct (claim_seats_slots (in_channel_id input) (in_seats input) (in_now input)
              (btree_set (sb_seats body))) as (ids & Hl & Hids). rewrite Ecl in Hl, Hids. cbn in Hl, Hids.
  rewrite <- Hl, <- (used_ids_length d), <- length_app. apply used_le; [done|].
  intros k (s & Hs & Hc & Hu)%elem_of_used_ids; [|done]. rewrite Es in Hs.
  destruct (insert_seats_lookup (pl_seat_rows plan) (d_seats d) k) as [(r & Hr & Hk & E)|[_ E]];
    rewrite E in Hs; [|apply elem_of_app; left; apply elem_of_used_ids; eauto].
  injection Hs as ->. pose proof (seats_of_wf b64_decode sha256 d (in_channel_id input) Hi) as Hwf.
  rewrite <- Er in Hwf. destruct (wr_rows _ _ _ _ _ _ _ Hw) as (rel & m & cl & Ec & Erl & _ & _ & _ & Erows).
  rewrite Ecl in Ec, Erows. cbn in Erows. rewrite Erows in Hr.
  assert (forall x, x ∈ in_seats input -> counts_against_cap x (in_now input) = true -> st_id x = k ->
            k ∈ used_ids d (in_channel_id input) (in_now input)) as Hold.
  { intros x Hx Hcx <-. rewrite Er in Hx. apply elem_of_used_ids; [done|]. exists x.
    rewrite (seats_of_lookup _ _ d _ x Hi Hx). apply elem_of_seats_of in Hx as [? _]. done. }
  apply elem_of_app. apply elem_of_sort_by, elem_of_app in Hr as [Hr|Hr].
  - destruct (Hids s Hr) as [Hin|(x & Hx & Ex & Hcool)]; [right; by rewrite <- Hk|left].
    apply (Hold x); [done| |congruence]. unfold counts_against_cap. by rewrite Hcool, orb_true_r.
  - left. pose proof (release_seats_rows _ _ _ _ _ _ _ Hwf Erl) as Hf. rewrite Forall_forall in Hf.
    destruct (Hf s Hr) as (_ & _ & x & Hx & Ha & Ex & _). apply (Hold x); [done| |congruence].
    unfold counts_against_cap. by rewrite Ha.
Qed.

Lemma written_used_elsewhere d d' input plan body c t :
  inv d -> inv d' -> reads d input -> written input plan body -> c <> in_channel_id input ->
  d_seats d' = insert_seats (pl_seat_rows plan) (d_seats d) -> (used d' c t <= used d c t)%nat.
Proof.
  intros Hi Hi' (_ & Er & _) Hw Hne Es. apply used_mono; [done..|]. intros k s Hs Hc Hu. rewrite Es in Hs.
  destruct (insert_seats_lookup (pl_seat_rows plan) (d_seats d) k) as [(r & Hr & Hk & E)|[_ E]];
    rewrite E in Hs; [|by exists s].
  injection Hs as ->. pose proof (seats_of_wf b64_decode sha256 d (in_channel_id input) Hi) as Hwf.
  rewrite <- Er in Hwf. destruct (written_rows _ _ _ _ _ _ _ _ Hw Hwf Hr) as [[Hcr _] _]. congruence.
Qed.

(** The claims of a write fit what the channel is entitled to *)
Lemma claims_fit input claimed n :
  check_claims input claimed n = Ok tt ->
  (claimed = [] \/ exists e, in_entitlement input = Some e
     /\ (n = 0%nat \/ Z.of_nat (channel_seats_used (in_seats input) (in_now input) + n) <= en_slot_cap e)).
Proof.
  unfold check_claims. destruct claimed; [by left|]. cbn [negb].
  destruct (negb (in_allow_claims input) && true); [done|].
  destruct (in_entitlement input) as [e|]; [|done]. destruct (negb _); [done|].
  destruct (_ && _) eqn:E; [done|]. intros _. right. exists e. split; [done|].
  apply andb_false_iff in E as [E|E]; [left|right].
  - apply Nat.ltb_ge in E. lia.
  - apply Z.ltb_ge in E. done.
Qed.

Lemma claims_slots c seats now desired rows claimed n :
  claim_seats c seats now desired = (rows, claimed, n) -> claimed = [] -> n = 0%nat.
Proof.
  revert rows claimed n. induction desired as [|u rest IH]; intros rows claimed n; cbn; [by intros [= <- <- <-]|].
  destruct (claim_seats c seats now rest) as [[rows' claimed'] n'].
  destruct (List.find _ seats) as [s|]; [destruct (seat_is_active s)|];
    intros [= <- <- <-]; [by eapply IH|done..].
Qed.

Lemma caps_apply d input decision t :
  inv d -> reads d input -> caps t d -> t <= in_now input ->
  in_entitlement input = entitlement_of d (in_channel_id input) ->
  plan_seat_list_write b64_decode sha256 ts_min ts_max input = Ok decision ->
  caps (in_now input)
    (apply_decision decision d (g_id <$> open_text_group d (in_channel_id input))).
Proof.
  intros Hi Hr Hc Ht Hent Hp. pose proof (inv_apply _ _ _ _ d input decision Hi Hr Hp) as Hi'.
  assert (caps (in_now input) d) as Hc' by (by apply (caps_later d t)).
  destruct decision as [l|plan]; [done|]. apply plan_written in Hp as [body Hw].
  destruct Hc' as [H1 H2 H3]. set (d' := apply_decision _ _ _) in *.
  assert (d_entitlements d' = d_entitlements d) as Ee by done.
  assert (d_seats d' = insert_seats (pl_seat_rows plan) (d_seats d)) as Es by done.
  split; rewrite ?Ee; [done|done|]. intros k e He. specialize (H3 k e He).
  destruct (decide (en_channel_id e = in_channel_id input)) as [Ec|Hne].
  - rewrite Ec in H3 |- *. destruct (wr_rows _ _ _ _ _ _ _ Hw) as (rel & n & cl & Ecl & _ & Hcc & _).
    pose proof (written_used _ _ _ _ _ _ _ _ Hi Hi' Hr Hw Es Ecl) as Hu.
    destruct (claims_fit _ _ _ Hcc) as [Hn|(e' & Ee' & Hfit)].
    + rewrite (claims_slots _ _ _ _ _ _ _ Ecl Hn) in Hu. lia.
    + rewrite Hent in Ee'. apply entitlement_found in Ee' as [Hk' Hc']; [|done].
      assert (k = en_id e') as -> by (eapply H2; [exact He|exact Hk'|congruence]).
      assert (e = e') as -> by congruence. destruct Hr as (_ & Ers & _). rewrite Ers in Hfit.
      unfold used in *. destruct Hfit as [->|Hfit]; lia.
  - pose proof (written_used_elsewhere _ _ _ _ _ (en_channel_id e) (in_now input) Hi Hi' Hr Hw Hne Es). lia.
Qed.

Lemma caps_put d channel_id submission allow_claims t t' :
  inv d -> caps t d -> t <= t' ->
  caps t' (put_seat_list b64_decode sha256 ts_min ts_max d channel_id submission allow_claims t').1.
Proof.
  intros Hi Hc Ht. assert (caps t' d) as Hc' by (by apply (caps_later d t)). unfold put_seat_list.
  destruct (plan_seat_list_write _ _ _ _ _) as [decision|] eqn:E; [|done].
  destruct (check_members _ _ _); [|done]. by eapply caps_apply in E.
Qed.

Lemma caps_protect d channel_id submission t t' :
  inv d -> caps t d -> t <= t' ->
  caps t' (protect_channel b64_decode sha256 ts_min ts_max d channel_id submission t').1.
Proof.
  intros Hi Hc Ht. assert (caps t' d) as Hc' by (by apply (caps_later d t)).
  pose proof (inv_protect b64_decode sha256 ts_min ts_max d channel_id submission t' Hi) as Hi'.
  revert Hi'. unfold protect_channel.
  destruct (match d_seat_lists d !! channel_id with Some _ => _ | None => _ end); [done|].
  destruct (check_channel_protectable _); [|done]. destruct (seat_list_parse _); [|done].
  destruct (negb _); [done|]. destruct (_ ≫= _); [|done].
  do 2 (destruct (existsb _ _); [done|]). destruct (negb _); [done|].
  destruct (plan_seat_list_write _ _ _ _ _) as [decision|] eqn:E; [|done].
  destruct (check_members _ _ _); [|done]. cbn [fst]. intros Hi'.
  pose proof E as Hia. apply (inv_apply _ _ _ _ d) in Hia; [|done..].
  apply (caps_apply d _ decision t Hi) in E; [|done..]. cbn in *. eapply caps_same; [exact Hia|exact Hi'| |exact E| |];
    [lia|unfold protect_flag; by destruct (_ !! _) as [[]|]..].
Qed.

Lemma caps_release d user_id server_id t t' :
  inv d -> caps t d -> t <= t' ->
  caps t' (release_channel_seats_for_user ts_min ts_max d user_id server_id t').1.
Proof.
  intros Hi Hc Ht. pose proof (inv_release b64_decode sha256 ts_min ts_max d user_id server_id t' Hi) as Hi'.
  revert Hi'. unfold release_channel_seats_for_user.
  destruct (seat_cooldown_until _ _ t') as [until|]; [|intros; by apply (caps_later d t)]. cbn [fst]. intros Hi'.
  eapply (caps_mono d); [done..| |]; cbn; [done|]. intros k s'. rewrite lookup_fmap.
  destruct (d_seats d !! k) as [s|] eqn:E; [|done]. cbn. intros [= <-] Hs. exists s. split; [done|].
  destruct (seat_released_by d user_id server_id s) eqn:Er; [|done]. split; [done|].
  unfold seat_released_by in Er. to_prop. destruct Er as [[_ Ha] _]. unfold counts_against_cap. by rewrite Ha.
Qed.

Lemma caps_delete d channel_id t t' :
  inv d -> caps t d -> t <= t' -> caps t' (delete_protected_channel_data d channel_id).1.
Proof.
  intros Hi Hc Ht. eapply (caps_mono d); [done|by apply inv_delete|done|done| |]; cbn.
  - by intros k e [H _]%retain_lookup.
  - intros k s [H _]%retain_lookup Hs. by exists s.
Qed.
End Caps.
