(* ===== verification/ProtectedSystem.v ===== *)
(** * Protected channels: the whole store

    Every operation of the two drivers as an event, runs of events on a clock
    that does not go back, and what holds in every state a run reaches. *)

From stdpp Require Import base numbers list gmap strings pretty sorting.
From S2P Require Import Prelude Text Errors SeatLists MlsModel MlsDb ProtectedDb.
From S2P Require Import ProtectedInvariants ProtectedSeating ProtectedCaps.
Open Scope Z_scope.

Inductive event : Type :=
| InsertKeyPackages (packages : list MlsKeyPackage)
| InsertKeyPackagesCapped (user_id device_id : string) (packages : list MlsKeyPackage) (max : nat)
| ConsumeKeyPackage (user_id device_id : string)
| ReplaceLastResort (package : MlsKeyPackage)
| DeleteKeyPackages (user_id device_id : string)
| DeleteExpiredKeyPackages
| CreateCallGroup (group : MlsGroup) (supersedes : option string)
| CloseCallGroup (group_id : string)
| CallCommit (commit : MlsCommit)
| TextCommit (commit : MlsCommit) (ad_sha256 : string) (entitlement_device_cap : Z)
| JoinIntent (intent : MlsJoinIntent)
| SweepGroups (closed_threshold created_threshold : Z)
| PruneTextCommits (older_than : Z)
| UpsertEntitlement (entitlement : ChannelEntitlement)
| ProtectChannel (channel_id : string) (submission : SeatListSubmission)
| PutSeatList (channel_id : string) (submission : SeatListSubmission) (allow_claims : bool)
| CreateTextGroup (group : MlsGroup) (supersedes : option string)
| ReleaseSeats (user_id : string) (server_id : option string)
| DeleteChannelData (channel_id : string)
(** The rest of the server writes the collections only read here. *)
| Elsewhere (channels : gmap string PChannel) (messages servers : gmap string string)
    (members : gset (string * string)) (identities : gset string)
    (queue : gmap string (option string)).

Section System.
Context `{!HashIter string MlsGroup, !HashIter string MlsCommit, !HashIter string MlsJoinIntent}.
Context `{!HashIter string MlsKeyPackage, !HashIter string ChannelSeat}.
Context `{!HashIter string ChannelEntitlement, !HashIter string PChannel, !HashIter string string}.
Context (b64_decode : string -> option string) (sha256 : string -> string) (ts_min ts_max : Z).

(** The state an event leaves, at a time *)
Definition run_event (d : Db) (now : Z) (e : event) : Db :=
  match e with
  | InsertKeyPackages packages => (insert_mls_key_packages d packages).1
  | InsertKeyPackagesCapped u dev packages max =>
      (insert_mls_key_packages_capped d u dev packages max).1
  | ConsumeKeyPackage u dev => (consume_mls_key_package d u dev).1
  | ReplaceLastResort package => (replace_mls_last_resort_key_package d package).1
  | DeleteKeyPackages u dev => (delete_mls_key_packages d u dev).1
  | DeleteExpiredKeyPackages => (delete_expired_mls_key_packages d now).1
  | CreateCallGroup group supersedes => (create_mls_group d group supersedes).1
  | CloseCallGroup id => (close_mls_group d id now).1
  | CallCommit commit => (insert_mls_commit d commit).1
  | TextCommit commit ad cap => (insert_mls_text_commit ts_min ts_max d commit ad cap).1
  | JoinIntent intent => (upsert_mls_join_intent d intent).1
  | SweepGroups t1 t2 => (sweep_mls_groups d t1 t2).1
  | PruneTextCommits older_than => (prune_mls_text_commits d older_than).1
  | UpsertEntitlement e => (upsert_channel_entitlement d e now).1
  | ProtectChannel c submission =>
      (protect_channel b64_decode sha256 ts_min ts_max d c submission now).1
  | PutSeatList c submission allow_claims =>
      (put_seat_list b64_decode sha256 ts_min ts_max d c submission allow_claims now).1
  | CreateTextGroup group supersedes => (create_text_mls_group b64_decode sha256 d group supersedes).1
  | ReleaseSeats u server => (release_channel_seats_for_user ts_min ts_max d u server now).1
  | DeleteChannelData c => (delete_protected_channel_data d c).1
  | Elsewhere channels messages servers members identities queue =>
      mkDb channels messages (d_entitlements d) servers members (d_seat_lists d) (d_seats d)
        (d_groups d) (d_commits d) (d_intents d) identities queue (d_packages d)
  end.

Definition empty_db : Db := mkDb ∅ ∅ ∅ ∅ ∅ ∅ ∅ ∅ ∅ ∅ ∅ ∅ ∅.

(** The states runs reach, with the clock *)
Inductive reach : Z -> Db -> Prop :=
| reach_empty now : reach now empty_db
| reach_event now now' d e : reach now d -> now <= now' -> reach now' (run_event d now' e).

Abbreviation inv := (inv b64_decode sha256).

Lemma inv_empty : inv empty_db.
Proof. by split; intros *; cbn; rewrite ?lookup_empty. Qed.

(** The events that leave lists, seats and groups alone *)
Definition seating_kept (d d' : Db) : Prop :=
  d_seat_lists d' = d_seat_lists d /\ d_seats d' = d_seats d /\ d_groups d' = d_groups d.

Definition keeps_seating (e : event) : bool :=
  match e with
  | InsertKeyPackages _ | InsertKeyPackagesCapped _ _ _ _ | ConsumeKeyPackage _ _ | ReplaceLastResort _
  | DeleteKeyPackages _ _ | DeleteExpiredKeyPackages | JoinIntent _ | PruneTextCommits _
  | UpsertEntitlement _ | Elsewhere _ _ _ _ _ _ => true
  | _ => false
  end.

Lemma event_keeps d now e : keeps_seating e = true -> seating_kept d (run_event d now e).
Proof.
  destruct e; try discriminate; intros _; cbn [run_event]; try done.
  - unfold insert_mls_key_packages_capped. by destruct (_ <=? _)%nat.
  - unfold consume_mls_key_package. by destruct (min_id _).
  - unfold upsert_channel_entitlement. destruct (negb _); [done|]. by destruct (_ <? _).
Qed.

Lemma inv_event d now e : inv d -> inv (run_event d now e).
Proof.
  intros Hi. destruct (keeps_seating e) eqn:Ek.
  - destruct (event_keeps d now e Ek) as (E1 & E2 & E3). by apply (inv_same _ _ d).
  - destruct e; try discriminate Ek; cbn [run_event]; auto using inv_create_call, inv_close,
      inv_call_commit, inv_text_commit, inv_sweep, inv_put, inv_protect, inv_create_text, inv_release,
      inv_delete.
Qed.

(** The events that give or take no seat *)
Definition keeps_seats (e : event) : bool :=
  match e with
  | UpsertEntitlement _ | ProtectChannel _ _ | PutSeatList _ _ _ | ReleaseSeats _ _
  | DeleteChannelData _ => false
  | _ => true
  end.

Lemma event_keeps_seats d now e :
  keeps_seats e = true ->
  d_entitlements (run_event d now e) = d_entitlements d /\ d_seats (run_event d now e) = d_seats d.
Proof.
  destruct e; try discriminate; intros _; cbn [run_event]; try done.
  - unfold insert_mls_key_packages_capped. by destruct (_ <=? _)%nat.
  - unfold consume_mls_key_package. by destruct (min_id _).
  - unfold create_mls_group. by repeat case_match.
  - unfold close_mls_group. by repeat case_match.
  - unfold insert_mls_commit. by repeat case_match.
  - unfold insert_mls_text_commit. by repeat case_match.
  - unfold create_text_mls_group. destruct (d_seat_lists d !! _); [|done].
    destruct (match supersedes with Some _ => _ | None => _ end) as [[|]|]; [done| |done].
    destruct (prepare_text_group _ _ _ _); [|done]. destruct (d_groups d !! _); [|done].
    by destruct (_ && _).
Qed.

Lemma caps_event d now now' e : inv d -> caps now d -> now <= now' -> caps now' (run_event d now' e).
Proof.
  intros Hi Hc Ht. pose proof (inv_event d now' e Hi) as Hi'. destruct (keeps_seats e) eqn:Ek.
  - destruct (event_keeps_seats d now' e Ek) as [E1 E2].
    by apply (caps_same b64_decode sha256 d _ now).
  - destruct e; try discriminate Ek; cbn [run_event] in *.
    + by apply (caps_upsert b64_decode sha256 d _ now).
    + by apply (caps_protect b64_decode sha256 ts_min ts_max d _ _ now).
    + by apply (caps_put b64_decode sha256 ts_min ts_max d _ _ _ now).
    + by apply (caps_release b64_decode sha256 ts_min ts_max d _ _ now).
    + by apply (caps_delete b64_decode sha256 d _ now).
Qed.

Lemma reach_inv now d : reach now d -> inv d /\ caps now d.
Proof.
  induction 1 as [now|now now' d e _ [Hi Hc] Ht].
  - split; [apply inv_empty|]. by split; intros *; cbn; rewrite ?lookup_empty.
  - split; [by apply inv_event|by eapply caps_event].
Qed.

(** ** Groups over time *)

(** A group, and the same group later *)
Definition follows (g g' : MlsGroup) : Prop :=
  g_channel_id g' = g_channel_id g /\ g_created_by g' = g_created_by g
  /\ g_generation g' = g_generation g
  /\ (g_open g' = true -> g_open g = true) /\ g_current_epoch g <= g_current_epoch g'.

#[global] Instance follows_preorder : PreOrder follows.
Proof.
  split; unfold follows.
  - intros g. do 4 (split; [done|]). done.
  - intros a b c (? & ? & ? & ? & ?) (? & ? & ? & ? & ?).
    do 3 (split; [congruence|]). split; [auto|lia].
Qed.

Definition groups_follow (m m' : Groups) : Prop :=
  forall k g g', m !! k = Some g -> m' !! k = Some g' -> g_kind g' = g_kind g -> follows g g'.

Lemma follow_refl m : groups_follow m m.
Proof. intros k g g' H H' _. by assert (g = g') as -> by congruence. Qed.

Lemma follow_part m m' : (forall k g, m' !! k = Some g -> m !! k = Some g) -> groups_follow m m'.
Proof. intros Hs k g g' H H'%Hs _. by assert (g = g') as -> by congruence. Qed.

Lemma follow_insert m m' k g0 g1 :
  groups_follow m m' -> m !! k = Some g0 -> (g_kind g1 = g_kind g0 -> follows g0 g1) ->
  groups_follow m (<[k := g1]> m').
Proof.
  intros Hm E0 Hf j g g' H [[<- <-]|[_ H']]%lookup_insert_Some Hk; [|by eapply Hm].
  assert (g = g0) as -> by congruence. auto.
Qed.

Lemma follow_fresh m m' k g1 : groups_follow m m' -> m !! k = None -> groups_follow m (<[k := g1]> m').
Proof. intros Hm En j g g' H [[<- <-]|[_ H']]%lookup_insert_Some Hk; [congruence|by eapply Hm]. Qed.

Lemma follow_alter m m' f k :
  groups_follow m m' -> (forall g, g_kind (f g) = g_kind g /\ follows g (f g)) ->
  groups_follow m (alter f k m').
Proof.
  intros Hm Hf j g g' H. destruct (decide (j = k)) as [->|Hj].
  - rewrite lookup_alter_eq. destruct (m' !! k) as [g1|] eqn:E; [|done]. cbn. intros [= <-] Hk.
    destruct (Hf g1) as [Hk1 Hf1]. transitivity g1; [|done]. eapply Hm; [done|done|congruence].
  - rewrite lookup_alter_ne by done. by apply Hm.
Qed.

Lemma follow_create_call d group supersedes :
  groups_follow (d_groups d) (d_groups (create_mls_group d group supersedes).1).
Proof.
  unfold create_mls_group. set (afresh := match List.find _ _ with Some _ => _ | None => _ end).
  assert (groups_follow (d_groups d) (d_groups afresh.1)) as Ha.
  { subst afresh. destruct (List.find _ _); [apply follow_refl|].
    case_bool_decide as Hs; [apply follow_refl|]. apply follow_fresh; [apply follow_refl|].
    by apply eq_None_not_Some. }
  destruct (negb _); [apply follow_refl|]. destruct supersedes as [sid|]; [|done].
  destruct (d_groups d !! sid) as [old|] eqn:Eo; [|apply follow_refl].
  do 2 (destruct (negb _); [apply follow_refl|]). destruct (g_open old) eqn:Eop; [|done].
  case_bool_decide as Hs; [apply follow_refl|]. cbn.
  apply follow_fresh; [|by apply eq_None_not_Some]. eapply follow_insert; [apply follow_refl|done|].
  intros _. do 3 (split; [done|]). split; [done|cbn; lia].
Qed.

Lemma follow_close d id now : groups_follow (d_groups d) (d_groups (close_mls_group d id now).1).
Proof.
  unfold close_mls_group. destruct (d_groups d !! id) as [g|] eqn:E; [|apply follow_refl].
  destruct (negb _); [apply follow_refl|]. destruct (g_open g) eqn:Eo; [|apply follow_refl].
  eapply follow_insert; [apply follow_refl|done|]. intros _. do 4 (split; [done|]). cbn; lia.
Qed.

(** A commit that won moved its group to the next epoch. *)
Lemma call_commit_won d commit d' :
  insert_mls_commit d commit = (d', Ok Won) ->
  exists g members, d_groups d !! cm_group_id commit = Some g /\ g_kind g = MlsGroupKind.Call
  /\ cm_epoch commit = g_current_epoch g + 1
  /\ d_groups d' = <[cm_group_id commit := set_roster g (cm_epoch commit) members (g_pending_removals g)
                       (g_member_added g)]> (d_groups d).
Proof.
  unfold insert_mls_commit. destruct (d_groups d !! _) as [g|] eqn:E; [|done].
  destruct (eqb (g_kind g) MlsGroupKind.Call) eqn:Ek; [|done]. rewrite eqb_eq in Ek.
  cbn [negb]. do 2 (destruct (negb _); [done|]).
  destruct (_ <=? _); [by destruct (d_commits d !! commit_id _ _)|].
  destruct (_ =? _) eqn:Ee; [|done]. apply Z.eqb_eq in Ee. cbn [negb].
  destruct (check_added_call _ _); [|done].
  destruct (_ <? _); [done|]. destruct (d_commits d !! _); [done|]. intros [= <-].
  exists g. eexists. split_and!; done.
Qed.

Lemma call_commit_lost d commit :
  (insert_mls_commit d commit).2 <> Ok Won -> (insert_mls_commit d commit).1 = d.
Proof. unfold insert_mls_commit. by repeat case_match. Qed.

Lemma follow_call_commit d commit : groups_follow (d_groups d) (d_groups (insert_mls_commit d commit).1).
Proof.
  destruct (insert_mls_commit d commit) as [d' r] eqn:E.
  pose proof (call_commit_lost d commit) as Hl. rewrite E in Hl. cbn in *.
  destruct r as [[|]|]; [|rewrite Hl; [apply follow_refl|done]..].
  apply call_commit_won in E as (g & members & Eg & _ & Ee & ->).
  eapply follow_insert; [apply follow_refl|exact Eg|]. intros _. do 4 (split; [done|]). cbn; lia.
Qed.

Lemma follow_text_commit d commit ad cap :
  groups_follow (d_groups d) (d_groups (insert_mls_text_commit ts_min ts_max d commit ad cap).1).
Proof.
  destruct (insert_mls_text_commit ts_min ts_max d commit ad cap) as [d' r] eqn:E.
  pose proof (text_commit_lost ts_min ts_max d commit ad cap) as Hl. rewrite E in Hl. cbn in *.
  destruct r as [[|]|]; [|rewrite Hl; [apply follow_refl|done]..].
  apply text_commit_won in E as (g & plan & Eg & [] & _ & ->). cbn.
  eapply follow_insert; [apply follow_refl|exact Eg|]. intros _. do 4 (split; [done|]). cbn; lia.
Qed.

Lemma follow_apply d decision id :
  groups_follow (d_groups d) (d_groups (apply_decision decision d id)).
Proof.
  destruct decision as [|plan]; [apply follow_refl|]. cbn. destruct id; [|apply follow_refl].
  apply follow_alter; [apply follow_refl|]. intros g. split; [done|]. do 4 (split; [done|]). cbn; lia.
Qed.

Lemma follow_put d c submission allow now :
  groups_follow (d_groups d)
    (d_groups (put_seat_list b64_decode sha256 ts_min ts_max d c submission allow now).1).
Proof.
  unfold put_seat_list. destruct (plan_seat_list_write _ _ _ _ _) as [decision|]; [|apply follow_refl].
  destruct (check_members _ _ _); [|apply follow_refl]. apply follow_apply.
Qed.

Lemma follow_protect d c submission now :
  groups_follow (d_groups d)
    (d_groups (protect_channel b64_decode sha256 ts_min ts_max d c submission now).1).
Proof.
  unfold protect_channel.
  destruct (match d_seat_lists d !! c with Some _ => _ | None => _ end); [apply follow_refl|].
  destruct (check_channel_protectable _); [|apply follow_refl].
  destruct (seat_list_parse _); [|apply follow_refl].
  destruct (negb _); [apply follow_refl|]. destruct (_ ≫= _); [|apply follow_refl].
  do 2 (destruct (existsb _ _); [apply follow_refl|]). destruct (negb _); [apply follow_refl|].
  destruct (plan_seat_list_write _ _ _ _ _) as [decision|]; [|apply follow_refl].
  destruct (check_members _ _ _); [|apply follow_refl]. cbn [fst].
  replace (d_groups (protect_flag _ _))
    with (d_groups (apply_decision decision d (g_id <$> open_text_group d c)))
    by (unfold protect_flag; by repeat case_match).
  apply follow_apply.
Qed.

(** The superseded group is closed at most. *)
Lemma follow_closed m m' supersedes group :
  groups_follow m m' ->
  groups_follow m
    (match supersedes with
     | Some id => alter (fun old => if g_open old
                    then set_open old false (Some (g_created_at group)) (Some (g_id group)) else old) id m'
     | None => m' end).
Proof.
  intros Hm. destruct supersedes; [|done]. apply follow_alter; [done|]. intros g.
  destruct (g_open g) eqn:E; [|done]. split; [done|]. do 4 (split; [done|]). cbn; lia.
Qed.

Lemma follow_create_text d group supersedes :
  groups_follow (d_groups d) (d_groups (create_text_mls_group b64_decode sha256 d group supersedes).1).
Proof.
  unfold create_text_mls_group. destruct (d_seat_lists d !! _); [|apply follow_refl].
  destruct (match supersedes with Some _ => _ | None => _ end) as [[|]|]; [apply follow_refl| |apply follow_refl].
  destruct (prepare_text_group _ _ _ _) as [prepared|] eqn:Ep; [|apply follow_refl].
  apply prepared_text in Ep as (_ & _ & Ek & _).
  destruct (d_groups d !! g_id prepared) as [taken|] eqn:Et.
  - destruct (eqb (g_kind taken) _ && _) eqn:Ec; [|apply follow_refl].
    apply andb_true_iff in Ec as [Ec _]. rewrite eqb_eq in Ec.
    eapply follow_insert; [|exact Et|congruence]. apply follow_closed, follow_part.
    intros k g H. cbn in H. by apply lookup_delete_Some in H as [_ H].
  - apply follow_fresh; [|done]. apply follow_closed, follow_refl.
Qed.

Lemma follow_release d u server now :
  groups_follow (d_groups d) (d_groups (release_channel_seats_for_user ts_min ts_max d u server now).1).
Proof.
  unfold release_channel_seats_for_user. destruct (seat_cooldown_until _ _ _); [|apply follow_refl].
  intros k g g' H. cbn. rewrite lookup_fmap, H. cbn. intros [= <-] _.
  destruct (group_pending_by _ _ _ g); [|done]. do 4 (split; [done|]). cbn; lia.
Qed.

Lemma follow_event d now e : groups_follow (d_groups d) (d_groups (run_event d now e)).
Proof.
  destruct (keeps_seating e) eqn:Ek.
  - destruct (event_keeps d now e Ek) as (_ & _ & ->). apply follow_refl.
  - destruct e; try discriminate Ek; cbn [run_event];
      auto using follow_create_call, follow_close, follow_call_commit, follow_text_commit, follow_put,
        follow_protect, follow_create_text, follow_release.
    + apply follow_part. cbn. by intros k g [H _]%foldl_delete_lookup.
    + apply follow_part. cbn. by intros k g [H _]%map_lookup_filter_Some.
Qed.

(** The group and the epoch a commit won *)
Definition wins (d : Db) (e : event) : option (string * Z) :=
  match e with
  | CallCommit commit =>
      match (insert_mls_commit d commit).2 with
      | Ok Won => Some (cm_group_id commit, cm_epoch commit) | _ => None end
  | TextCommit commit ad cap =>
      match (insert_mls_text_commit ts_min ts_max d commit ad cap).2 with
      | Ok Won => Some (cm_group_id commit, cm_epoch commit) | _ => None end
  | _ => None
  end.

(** Events during which a group stays *)
Inductive lives (k : string) (kind : MlsGroupKind.t) : Db -> Db -> Prop :=
| lives_here d g : d_groups d !! k = Some g -> g_kind g = kind -> lives k kind d d
| lives_on d d' now e g :
    lives k kind d d' -> d_groups (run_event d' now e) !! k = Some g -> g_kind g = kind ->
    lives k kind d (run_event d' now e).

Lemma lives_follow k kind d d' :
  lives k kind d d' ->
  exists g g', d_groups d !! k = Some g /\ d_groups d' !! k = Some g' /\ g_kind g = kind
               /\ g_kind g' = kind /\ follows g g'.
Proof.
  induction 1 as [d g E Ek|d d' now e g' _ (g & g0 & E & E0 & Ek & Ek0 & Hf) E' Ek'].
  - by exists g, g.
  - exists g, g'. split_and!; [done..|]. transitivity g0; [done|].
    eapply follow_event; [exact E0|exact E'|congruence].
Qed.

Lemma wins_epoch d now e k n :
  wins d e = Some (k, n) ->
  exists g g', d_groups d !! k = Some g /\ d_groups (run_event d now e) !! k = Some g'
               /\ g_current_epoch g' = n /\ n = g_current_epoch g + 1.
Proof.
  destruct e; cbn [wins run_event]; try discriminate.
  - destruct (insert_mls_commit d commit) as [d' [[|]|]] eqn:E; try discriminate. cbn. intros [= <- <-].
    apply call_commit_won in E as (g & members & Eg & _ & Ee & ->). exists g. eexists.
    rewrite lookup_insert_eq. split_and!; done.
  - destruct (insert_mls_text_commit _ _ d commit _ _) as [d' [[|]|]] eqn:E; try discriminate.
    cbn. intros [= <- <-]. apply text_commit_won in E as (g & plan & Eg & [] & _ & ->). cbn.
    exists g. eexists. rewrite lookup_insert_eq. split_and!; done.
Qed.

(** ** What holds in every state reached *)

(** C9. Whatever ran before, a channel has at most one open group of a kind; the
    open text group is bound to the hash of the list now stored, which says
    what its owner signed for that channel; and every device in the group is
    of a user who has a seat, of one whose removal is already pending, or of
    the signer of the list. *)
Theorem only_the_seated_are_in_the_group now d :
  reach now d ->
  (forall k k' g g', d_groups d !! k = Some g -> d_groups d !! k' = Some g' ->
     g_open g = true -> g_open g' = true -> g_channel_id g = g_channel_id g' -> g_kind g = g_kind g' ->
     k = k')
  /\ forall k g, d_groups d !! k = Some g -> g_open g = true -> g_kind g = MlsGroupKind.Text ->
       exists l body ad,
         d_seat_lists d !! g_channel_id g = Some l /\ seat_list_parse (sl_body l) = Ok body
         /\ sb_channel_id body = g_channel_id g /\ sb_signer_user_id body = sl_signer_user_id l
         /\ commit_ad_sha256 b64_decode sha256 l = Ok ad /\ g_seat_list_ad_sha256 g = Some ad
         /\ forall m, m ∈ g_members g ->
              active_seat (d_seats d) (g_channel_id g) (md_user_id m)
              \/ has_pending_removal g (md_user_id m) = true
              \/ md_user_id m = sl_signer_user_id l.
Proof.
  intros [Hi _]%reach_inv. split; [by apply (inv_one_open _ _ d Hi)|]. intros k g Hk Ho Ht.
  destruct (inv_text _ _ d Hi k g Hk (conj Ho Ht)) as (l & El & (ad & Ead & Hg) & Hm).
  destruct (inv_lists _ _ d Hi _ _ El) as (_ & body & Eb & Ec & Es & _).
  exists l, body, ad. done.
Qed.

(** C11. The seats of a channel that are taken, or still cooling down after a
    release, never outnumber the slots the channel is entitled to; and it has
    one entitlement. *)
Theorem seats_within_the_cap now d :
  reach now d ->
  forall k e, d_entitlements d !! k = Some e ->
    Z.of_nat (channel_seats_used (seats_of d (en_channel_id e)) now) <= en_slot_cap e
    /\ forall k' e', d_entitlements d !! k' = Some e' -> en_channel_id e' = en_channel_id e -> k' = k.
Proof.
  intros [_ Hc]%reach_inv k e Hk. split; [by apply (cp_cap _ _ Hc k)|].
  intros k' e' Hk' He. by eapply (cp_one _ _ Hc).
Qed.

(** No epoch of a group has two winners: between two commits that won on a
    group that was there all along, whatever else ran, the epoch grew. *)
Theorem epochs_have_one_winner d now e d' e' k kind n n' :
  wins d e = Some (k, n) -> lives k kind (run_event d now e) d' -> wins d' e' = Some (k, n') -> n < n'.
Proof.
  intros W H W'. apply (wins_epoch _ now) in W as (g & g1 & _ & E1 & <- & _).
  apply (wins_epoch _ now) in W' as (g2 & _ & E2 & _ & _ & ->).
  apply lives_follow in H as (g1' & g2' & F1 & F2 & _ & _ & Hf).
  assert (g1' = g1) as -> by congruence. assert (g2' = g2) as -> by congruence.
  destruct Hf as (_ & _ & _ & _ & Hf). lia.
Qed.

(** As long as a group is there, its channel, its creator and its generation
    are what they were; once closed it stays closed; its epoch only grows. *)
Theorem groups_are_never_reopened k kind d d' g g' :
  lives k kind d d' -> d_groups d !! k = Some g -> d_groups d' !! k = Some g' ->
  g_channel_id g' = g_channel_id g /\ g_created_by g' = g_created_by g
  /\ g_generation g' = g_generation g
  /\ (g_open g = false -> g_open g' = false) /\ g_current_epoch g <= g_current_epoch g'.
Proof.
  intros (g1 & g2 & E1 & E2 & _ & _ & Hf)%lives_follow E E'.
  assert (g1 = g) as -> by congruence. assert (g2 = g') as -> by congruence.
  destruct Hf as (? & ? & ? & Ho & ?). split_and!; try done. intros Hc.
  destruct (g_open g'); [|done]. rewrite Ho in Hc; done.
Qed.

(** A user whom the server removed is not seated again by the next list: one
    that names, besides its signer, a user who was on the list before and has
    no seat by now is not written, unless it is the stored list once more. *)
Theorem removed_users_are_not_reseated now d t channel_id submission allow_claims body l before u :
  reach now d -> d_seat_lists d !! channel_id = Some l -> seat_list_parse (sl_body l) = Ok before ->
  seat_list_parse (sub_body submission) = Ok body ->
  u ∈ sb_seats before -> u ∈ sb_seats body -> u <> sb_signer_user_id body ->
  ~ active_seat (d_seats d) channel_id u ->
  let r := put_seat_list b64_decode sha256 ts_min ts_max d channel_id submission allow_claims t in
  r.1 = d /\ forall outcome, r.2 = Ok outcome -> so_unchanged outcome = true.
Proof. intros [Hi _]%reach_inv. by apply put_keeps_removed. Qed.
End System.

Section Admission.
Context (ts_min ts_max : Z).

(** C10. A commit that won on a text group let in only devices of users who had a
    seat at that moment and are on the signed list, none of them in the group
    before; it let in none while a removal was pending; it made no group
    larger than 100, and gave no user it added more devices than the cap, the
    stricter of the signed one and the entitlement's. *)
Theorem text_commit_admits_the_seated d commit ad cap d' :
  insert_mls_text_commit ts_min ts_max d commit ad cap = (d', Ok Won) ->
  exists g g' l signed,
    d_groups d !! cm_group_id commit = Some g /\ d_groups d' !! cm_group_id commit = Some g'
    /\ d_seat_lists d !! g_channel_id g = Some l /\ seat_list_parse (sl_body l) = Ok signed
    /\ g_seat_list_ad_sha256 g = Some ad
    /\ has_member g (md_user_id (cm_committer commit)) (md_device_id (cm_committer commit)) = true
    /\ (forall m, m ∈ g_members g' <->
          m ∈ g_members g /\ m ∉ cm_removed commit \/ m ∈ cm_added commit)
    /\ (forall m, m ∈ cm_added commit ->
          active_seat (d_seats d) (g_channel_id g) (md_user_id m) /\ md_user_id m ∈ sb_seats signed
          /\ m ∉ g_members g /\ g_pending_removals g = []
          /\ let cap := mls_text_enforced_device_cap (sb_device_cap signed) cap in
             cap = 0 \/ devices_of (g_members g') (md_user_id m) <= cap)
    /\ Z.of_nat (length (g_members g')) <= MAX_MLS_TEXT_GROUP_MEMBERS.
Proof.
  intros E. apply text_commit_won in E as (g & plan & Eg & [] & _ & ->).
  destruct ta_signed as (l & signed & El & Ep & _ & Hlisted & Hcap).
  exists g. eexists. exists l, signed. cbn. rewrite lookup_insert_eq. split_and!; try done; cbn.
  - intros m. rewrite ta_members, elem_of_app, elem_of_filter_bool, negb_true_iff.
    unfold contains_device. rewrite bool_decide_eq_false. tauto.
  - rewrite !Forall_forall in *. intros m Hm. destruct (ta_added m Hm) as [Ha Hn].
    split; [by apply active_users_spec in Ha|]. split; [by apply Hlisted|]. split.
    { intros Hin. apply not_true_iff_false in Hn. apply Hn, existsb_exists. exists m.
      split; [by apply list_elem_of_In|]. unfold is_device. by rewrite !str_eqb_refl. }
    split; [destruct ta_no_pending as [En|?]; [by rewrite En in Hm; apply elem_of_nil in Hm|done]|].
    destruct Hcap as [?|Hcap]; [by left|right]. rewrite Forall_forall in Hcap. by apply Hcap.
Qed.
End Admission.

(** ** A run *)

Module ProtectedDemo.
Definition c0 : string := "01ARZ3NDEKTSV4RRFFQ69G5FAV".
Definition owner : string := "01ARZ3NDEKTSV4RRFFQ69G5FAA".
Definition friend : string := "01ARZ3NDEKTSV4RRFFQ69G5FAB".
Definition dev1 : MlsMemberDevice := mkDevice owner "0123456789abcdef0123456789abcdef".
Definition dev2 : MlsMemberDevice := mkDevice friend "fedcba9876543210fedcba9876543210".
Definition signature : string := String.string_of_list_ascii (repeat (Ascii.ascii_of_nat 65) 86).
Definition decode (s : string) : option string := Some (take_bytes 64 s).
Definition digest (s : string) : string := take_bytes 8 (drop_bytes 30 s).
Definition t_max : Z := 9000000000000000000.

Definition body (version : Z) (seats : list string) : string :=
  seat_list_text (mkBody c0 version 2 0 owner (md_device_id dev1) seats).
Definition submission (version : Z) (seats : list string) : SeatListSubmission :=
  mkSubmission (body version seats) signature (md_device_id dev1) None.
Definition entitlement : ChannelEntitlement :=
  mkEntitlement "e" c0 "s" EntitlementSource.AdminGrant 2 None EntitlementState.Active "admin" 0.
Definition group : MlsGroup :=
  mkGroup "g" c0 true dev1 0 0 [dev1] None None MlsGroupKind.Text (Some 0) None [] [].
Definition commit (epoch : Z) (added removed : list MlsMemberDevice) : MlsCommit :=
  mkCommit "" "g" epoch dev1 "bytes" 5 added removed 3 [] [].
Definition ad : string :=
  match commit_ad_sha256 decode digest
          (mkSeatList c0 1 (body 1 [owner; friend]) owner (md_device_id dev1) signature [] 0) with
  | Ok x => x | Err _ => "" end.

Definition events : list event :=
  [Elsewhere {[ c0 := TextChannel "s" false None false None ]} ∅ {[ "s" := owner ]}
     {[ ("s", owner); ("s", friend) ]} ∅ ∅;
   UpsertEntitlement entitlement;
   ProtectChannel c0 (submission 1 [owner; friend]);
   CreateTextGroup group None;
   TextCommit (commit 1 [dev2] []) ad 0;
   ReleaseSeats friend (Some "s")].

Definition run (d : Db) (es : list event) : Db :=
  foldl (fun d e => run_event decode digest (- t_max) t_max d 3 e) d es.
Definition before : Db := run empty_db (take 4 events).
Definition admitted : Db := run empty_db (take 5 events).
Definition after : Db := run empty_db events.

Lemma reach_run d es : reach decode digest (- t_max) t_max 3 d -> reach decode digest (- t_max) t_max 3 (run d es).
Proof.
  revert d. unfold run. induction es as [|e es IH]; intros d H; [done|]. cbn [foldl].
  apply IH. eapply reach_event; [exact H|lia].
Qed.

Example admitted_members : g_members <$> (d_groups admitted !! "g") = Some [dev1; dev2].
Proof. vm_compute. reflexivity. Qed.
Example after_pending : pr_user_id <$> from_option g_pending_removals [] (d_groups after !! "g") = [friend].
Proof. vm_compute. reflexivity. Qed.

Lemma reached es : reach decode digest (- t_max) t_max 3 (run empty_db es).
Proof. apply reach_run, reach_empty. Qed.
End ProtectedDemo.

Import ProtectedDemo.

Lemma only_the_seated_are_in_the_group_witness :
  reach decode digest (- t_max) t_max 3 after
  /\ exists g, d_groups after !! "g" = Some g
     /\ forall m, m ∈ g_members g ->
          active_seat (d_seats after) c0 (md_user_id m) \/ has_pending_removal g (md_user_id m) = true
          \/ md_user_id m = owner.
Proof.
  split; [apply reached|]. eexists. split; [vm_compute; reflexivity|].
  destruct (only_the_seated_are_in_the_group decode digest (- t_max) t_max 3 after (reached _)) as [_ H].
  edestruct (H "g") as (l & b & a & El & _ & _ & _ & _ & _ & Hm); [vm_compute; reflexivity|done|done|].
  intros m Hin. destruct (Hm m Hin) as [Ha|[Hp|Hs]]; [by left|by right; left|right; right].
  vm_compute in El. injection El as <-. exact Hs.
Defined.

Lemma seats_within_the_cap_witness :
  reach decode digest (- t_max) t_max 3 after
  /\ d_entitlements after !! "e" = Some entitlement
  /\ Z.of_nat (channel_seats_used (seats_of after c0) 3) <= 2.
Proof.
  split; [apply reached|]. split; [vm_compute; reflexivity|].
  apply (seats_within_the_cap decode digest (- t_max) t_max 3 after (reached _) "e" entitlement).
  vm_compute. reflexivity.
Defined.

(** The owner names the friend again after the friend left the server. *)
Lemma removed_users_are_not_reseated_witness :
  reach decode digest (- t_max) t_max 3 after
  /\ (put_seat_list decode digest (- t_max) t_max after c0 (submission 2 [owner; friend]) true 3).1 = after.
Proof.
  split; [apply reached|].
  eapply (removed_users_are_not_reseated decode digest (- t_max) t_max 3 after);
    [apply reached|vm_compute; reflexivity|vm_compute; reflexivity|vm_compute; reflexivity|..].
  - apply list_elem_of_further, list_elem_of_here.
  - apply list_elem_of_further, list_elem_of_here.
  - discriminate.
  - intros (s & Es & Ha). vm_compute in Es. injection Es as <-. discriminate Ha.
Defined.

(** Two wins with a release in between *)
Lemma epochs_have_one_winner_witness :
  let win1 := TextCommit (commit 1 [dev2] []) ad 0 in
  let win2 := TextCommit (commit 2 [] [dev2]) ad 0 in
  wins (- t_max) t_max before win1 = Some ("g", 1) /\ wins (- t_max) t_max after win2 = Some ("g", 2)
  /\ 1 < 2.
Proof.
  intros win1 win2. assert (wins (- t_max) t_max before win1 = Some ("g", 1)) as W by (vm_compute; reflexivity).
  assert (wins (- t_max) t_max after win2 = Some ("g", 2)) as W' by (vm_compute; reflexivity).
  split; [exact W|]. split; [exact W'|].
  eapply (epochs_have_one_winner decode digest (- t_max) t_max before 3 win1 after win2 "g"
            MlsGroupKind.Text); [exact W| |exact W'].
  change after with (run_event decode digest (- t_max) t_max
    (run_event decode digest (- t_max) t_max before 3 win1) 3 (ReleaseSeats friend (Some "s"))).
  eapply lives_on; [eapply lives_here|..]; vm_compute; reflexivity.
Defined.

Lemma groups_are_never_reopened_witness :
  exists g g', d_groups admitted !! "g" = Some g /\ d_groups after !! "g" = Some g'
               /\ g_channel_id g' = g_channel_id g /\ g_current_epoch g <= g_current_epoch g'.
Proof.
  do 2 eexists. split; [vm_compute; reflexivity|]. split; [vm_compute; reflexivity|].
  edestruct (groups_are_never_reopened decode digest (- t_max) t_max "g" MlsGroupKind.Text admitted after)
    as (H1 & _ & _ & _ & H2); [|vm_compute; reflexivity|vm_compute; reflexivity|by split].
  change after with (run_event decode digest (- t_max) t_max admitted 3 (ReleaseSeats friend (Some "s"))).
  eapply lives_on; [eapply lives_here|..]; vm_compute; reflexivity.
Defined.

Lemma text_commit_admits_the_seated_witness :
  exists d', insert_mls_text_commit (- t_max) t_max before (commit 1 [dev2] []) ad 0 = (d', Ok Won)
             /\ active_seat (d_seats before) c0 friend.
Proof.
  eexists. split; [vm_compute; reflexivity|].
  edestruct (text_commit_admits_the_seated (- t_max) t_max before (commit 1 [dev2] []) ad 0)
    as (g & g' & l & signed & Eg & _ & _ & _ & _ & _ & _ & Hm & _); [vm_compute; reflexivity|].
  vm_compute in Eg. injection Eg as <-. apply (Hm dev2). left.
Defined.

(** ** Two devices of one user *)

(** A commit to the group of a call may add two devices of one user at once:
    the check is made of each against the members before the commit, and the
    group then has two members for a user although "a user has at most one
    device in a call's group". *)
Theorem call_commit_admits_two_devices :
  let d1 := mkDevice "u" "1" in let d2 := mkDevice "u" "2" in let d0 := mkDevice "o" "0" in
  let g := mkGroup "g" "c" true d0 0 0 [d0] None None MlsGroupKind.Call None None [] [] in
  let c := mkCommit "" "g" 1 d0 "" 0 [d1; d2] [] 0 [] [] in
  let d := set_mls empty_db {[ "g" := g ]} ∅ ∅ in
  (insert_mls_commit d c).2 = Ok Won
  /\ g_members <$> (d_groups (insert_mls_commit d c).1 !! "g") = Some [d0; d1; d2].
Proof. split; vm_compute; reflexivity. Qed.
