(* ===== verification/Relationships.v ===== *)
(** * Relationships between users
      (crates/core/database/src/models/users/model.rs and ops/reference.rs,
       models/user_respect, crates/delta/src/routes/users)

    Friend requests, friendships and blocks.  Each of two users keeps their
    own side; a change is a write of one side and then of the other, each
    under the lock of the collection for its own time only, on copies of the
    two users read before.  So a handler is a [prog] over the stored users.
    Events and queue messages, whose failures are ignored, are left out.
    Of the limits of a user, the one on outgoing requests is a parameter, as
    is the slur filter, which works on what the decancer library returns. *)

From stdpp Require Import base numbers list gmap strings.
From S2P Require Import Prelude Text Errors Permissions Program.
Open Scope Z_scope.
Open Scope sloga_scope.

Module RS := RelationshipStatus.

Record Relationship : Type := mkRelation {
  rl_id : string;
  rl_status : RS.t;
  rl_note : option string;
}.

(** Of a user, what is read or written here *)
Record User : Type := mkUser {
  u_id : string;
  u_username : string;
  u_discriminator : string;
  u_bot : bool;
  u_privileged : bool;
  u_relations : option (list Relationship);
}.

Record Respect : Type := mkRespect {
  rp_id : string;
  rp_target_id : string;
  rp_author_id : string;
  rp_content : string;
  rp_updated_at : Z;
}.

Record World : Type := mkWorld {
  w_users : gmap string User;
  w_respect : gmap string Respect;
}.

Definition set_users (w : World) (users : gmap string User) : World := mkWorld users (w_respect w).
Definition set_respect (w : World) (rows : gmap string Respect) : World := mkWorld (w_users w) rows.

Definition set_relations (u : User) (relations : option (list Relationship)) : User :=
  mkUser (u_id u) (u_username u) (u_discriminator u) (u_bot u) (u_privileged u) relations.

(** ** The collections *)

Definition fetch_user (id : string) (w : World) : World * Result User :=
  (w, ok_or (w_users w !! id) ErrorType.NotFound).

Definition without (target_id : string) (relations : list Relationship) : list Relationship :=
  List.filter (fun relation => negb (str_eqb (rl_id relation) target_id)) relations.

Definition pull_relationship (user_id target_id : string) (w : World) : World * Result unit :=
  match w_users w !! user_id with
  | None => (w, Err ErrorType.NotFound)
  | Some user =>
      (set_users w (<[user_id := set_relations user (without target_id <$> u_relations user)]> (w_users w)),
       Ok tt)
  end.

(** The side of one user with a relationship put in place *)
Definition put_relation (relation : Relationship) (relations : option (list Relationship))
    : option (list Relationship) :=
  match relations with
  | Some relations => Some (without (rl_id relation) relations ++ [relation])
  | None => Some [relation]
  end.

Definition db_set_relationship (user_id target_id : string) (relationship : RS.t) (note : option string)
    (w : World) : World * Result unit :=
  match relationship with
  | RS.User | RS.None => pull_relationship user_id target_id w
  | _ =>
      match w_users w !! user_id with
      | None => (w, Err ErrorType.NotFound)
      | Some user =>
          let relation := mkRelation target_id relationship note in
          (set_users w (<[user_id := set_relations user (put_relation relation (u_relations user))]>
             (w_users w)), Ok tt)
      end
  end.

Definition clear_user_relationships (target_id : string) (user_ids : list string) (w : World)
    : World * Result unit :=
  (set_users w (foldl (fun users id =>
     alter (fun user => set_relations user (without target_id <$> u_relations user)) id users)
     (w_users w) user_ids), Ok tt).

Section Store.
Context `{!HashIter string User, !HashIter string Respect}.
(** [str::to_lowercase] *)
Context (to_lowercase : string -> string).

Definition fetch_user_by_username (username discriminator : string) (w : World) : World * Result User :=
  (w, ok_or (List.find (fun user =>
         str_eqb (to_lowercase (u_username user)) (to_lowercase username)
         && str_eqb (u_discriminator user) discriminator) (hm_values (w_users w))) ErrorType.NotFound).

Definition of_pair (target_id author_id : string) (row : Respect) : bool :=
  str_eqb (rp_target_id row) target_id && str_eqb (rp_author_id row) author_id.

Definition insert_respect (respect : Respect) (w : World) : World * Result unit :=
  let rows := w_respect w in
  if existsb (of_pair (rp_target_id respect) (rp_author_id respect)) (hm_values rows)
  then (w, Err ErrorType.NoEffect)
  else
    (set_respect w (<[rp_id respect := respect]> rows),
     match rows !! rp_id respect with
     | Some _ => Err (create_database_error "insert" "user_respect")
     | None => Ok tt
     end).

Definition fetch_respect (target_id author_id : string) (w : World) : World * Result (option Respect) :=
  (w, Ok (List.find (of_pair target_id author_id) (hm_values (w_respect w)))).

Definition update_respect (id content : string) (updated_at : Z) (w : World) : World * Result unit :=
  (set_respect w (alter (fun row => mkRespect (rp_id row) (rp_target_id row) (rp_author_id row) content
                                      updated_at) id (w_respect w)), Ok tt).

Definition RESPECT_FETCH_CAP : nat := 100.

Definition fetch_respect_by_target (target_id : string) (w : World) : World * Result (list Respect) :=
  (w, Ok (take RESPECT_FETCH_CAP
            (sort_by (fun a b => rp_updated_at b <=? rp_updated_at a)
               (List.filter (fun row => str_eqb (rp_target_id row) target_id) (hm_values (w_respect w)))))).

Definition delete_respect (id : string) (w : World) : World * Result unit :=
  (set_respect w (delete id (w_respect w)), Ok tt).

Definition delete_respect_between (user_a user_b : string) (w : World) : World * Result unit :=
  (set_respect w (filter (fun kv => of_pair user_a user_b kv.2 || of_pair user_b user_a kv.2 = false)
                    (w_respect w)), Ok tt).

Definition delete_respect_involving (user_id : string) (w : World) : World * Result unit :=
  (set_respect w (filter (fun kv => str_eqb (rp_target_id kv.2) user_id || str_eqb (rp_author_id kv.2) user_id
                                    = false) (w_respect w)), Ok tt).

(** ** A user *)

Definition relationship_with (u : User) (user_b : string) : RS.t :=
  if str_eqb (u_id u) user_b then RS.User
  else
    match u_relations u ≫= List.find (fun x => str_eqb (rl_id x) user_b) with
    | Some relationship => rl_status relationship
    | None => RS.None
    end.

Definition is_friends_with (u : User) (user_b : string) : bool :=
  match relationship_with u user_b with RS.Friend | RS.User => true | _ => false end.

(** [User::set_relationship]: the stored user, and then the copy at hand *)
Definition set_relationship (self user_b : User) (status : RS.t) (note : option string) : Eff World User :=
  let! _ := atom (db_set_relationship (u_id self) (u_id user_b) status note) in
  ok (set_relations self
        (match status with
         | RS.None | RS.User => without (u_id user_b) <$> u_relations self
         | _ => put_relation (mkRelation (u_id user_b) status note) (u_relations self)
         end)).

(** Both copies, as they are after *)
Definition apply_relationship (self target : User) (local remote : RS.t) (note : option string)
    : Eff World (User * User) :=
  let! target := set_relationship target self remote note in
  let! self := set_relationship self target local None in
  ok (self, target).

(** [self.limits().await.outgoing_friend_requests] *)
Context (outgoing_friend_requests : User -> Z).

Definition outgoing_count (u : User) : Z :=
  Z.of_nat (length (List.filter (fun r => match rl_status r with RS.Outgoing => true | _ => false end)
                      (default [] (u_relations u)))).

Definition add_friend (self target : User) (note : option string) : Eff World (User * User) :=
  match relationship_with self (u_id target) with
  | RS.User => fail ErrorType.NoEffect
  | RS.Friend => fail ErrorType.AlreadyFriends
  | RS.Outgoing => fail ErrorType.AlreadySentRequest
  | RS.Blocked => fail ErrorType.Blocked
  | RS.BlockedOther => fail ErrorType.BlockedByOther
  | RS.Incoming => apply_relationship self target RS.Friend RS.Friend None
  | RS.None =>
      if outgoing_friend_requests self <=? outgoing_count self
      then fail (ErrorType.TooManyPendingFriendRequests (outgoing_friend_requests self))
      else apply_relationship self target RS.Outgoing RS.Incoming note
  end.

Definition remove_friend (self target : User) : Eff World (User * User) :=
  match relationship_with self (u_id target) with
  | RS.Friend | RS.Outgoing | RS.Incoming => apply_relationship self target RS.None RS.None None
  | _ => fail ErrorType.NoEffect
  end.

Definition block_user (self target : User) : Eff World (User * User) :=
  match relationship_with self (u_id target) with
  | RS.User | RS.Blocked => fail ErrorType.NoEffect
  | RS.BlockedOther =>
      let! both := apply_relationship self target RS.Blocked RS.Blocked None in
      let! _ := atom (delete_respect_between (u_id self) (u_id target)) in
      ok both
  | RS.None | RS.Friend | RS.Incoming | RS.Outgoing =>
      let! both := apply_relationship self target RS.Blocked RS.BlockedOther None in
      let! _ := atom (delete_respect_between (u_id self) (u_id target)) in
      ok both
  end.

Definition unblock_user (self target : User) : Eff World (User * User) :=
  match relationship_with self (u_id target) with
  | RS.Blocked =>
      match relationship_with target (u_id self) with
      | RS.Blocked => apply_relationship self target RS.BlockedOther RS.Blocked None
      | RS.BlockedOther => apply_relationship self target RS.None RS.None None
      | _ => fail ErrorType.InternalError
      end
  | _ => fail ErrorType.NoEffect
  end.

Definition clear_relationships (self : User) : Eff World unit :=
  atom (clear_user_relationships (u_id self) (rl_id <$> default [] (u_relations self))).

(** ** Routes.  The guard that authenticates a request reads the caller. *)

Definition with_users {A} (caller target : string) (k : User -> User -> Eff World A) : Eff World A :=
  let! user := atom (fetch_user caller) in
  let! target := atom (fetch_user target) in
  k user target.

Definition add (caller target : string) : Eff World (User * User) :=
  with_users caller target (fun user target =>
    if u_bot user || u_bot target then fail ErrorType.IsBot else add_friend user target None).

Definition remove (caller target : string) : Eff World (User * User) :=
  with_users caller target (fun user target =>
    if u_bot user || u_bot target then fail ErrorType.IsBot else remove_friend user target).

Definition block (caller target : string) : Eff World (User * User) :=
  with_users caller target block_user.

Definition unblock (caller target : string) : Eff World (User * User) :=
  with_users caller target unblock_user.

(** [contains_blocked_slur] *)
Context (contains_blocked_slur : string -> bool).

Definition hash : Ascii.ascii := Ascii.ascii_of_nat 35.

Definition clean (text : string) : string :=
  trim (concat_chars (List.filter (fun c => negb (is_control c)) (chars text))).

Definition clean_note (note : option string) : option string :=
  match clean <$> note with
  | Some note => if str_eqb note "" then None else Some note
  | None => None
  end.

(** [validate(length(min, max))] counts characters *)
Definition length_within (min max : nat) (text : string) : bool :=
  (min <=? length (chars text))%nat && (length (chars text) <=? max)%nat.

(** The validator's message is a parameter. *)
Context (validation_error : string).

Definition send_friend_request (caller username : string) (note : option string)
    : Eff World (User * User) :=
  let! user := atom (fetch_user caller) in
  let note := clean_note note in
  if match note with Some note => negb (length_within 1 200 note) | None => false end
  then fail (ErrorType.FailedValidation validation_error)
  else if match note with Some note => contains_blocked_slur note | None => false end
  then fail ErrorType.DisallowedName
  else
    match split_once hash username with
    | Some (username, discriminator) =>
        let! target := atom (fetch_user_by_username username discriminator) in
        if u_bot user || u_bot target then fail ErrorType.IsBot else add_friend user target note
    | None => fail ErrorType.InvalidProperty
    end.

(** [new_id] is the generated ULID, [now] the clock. *)
Definition respect_set (caller target content new_id : string) (now : Z) : Eff World Respect :=
  let! user := atom (fetch_user caller) in
  let content := clean content in
  if negb (length_within 1 240 content) then fail (ErrorType.FailedValidation validation_error)
  else if contains_blocked_slur content then fail ErrorType.DisallowedName
  else
    let! target := atom (fetch_user target) in
    if u_bot target then fail ErrorType.IsBot
    else if negb (str_eqb (u_id user) (u_id target)) && negb (is_friends_with user (u_id target))
    then fail ErrorType.NotFriends
    else
      let! existing := atom (fetch_respect (u_id target) (u_id user)) in
      match existing with
      | Some existing =>
          let! _ := atom (update_respect (rp_id existing) content now) in
          ok (mkRespect (rp_id existing) (u_id target) (u_id user) content now)
      | None =>
          let respect := mkRespect new_id (u_id target) (u_id user) content now in
          do! inserted <- atom (insert_respect respect);
          match inserted with
          | Ok _ => ok respect
          | Err ErrorType.NoEffect =>
              let! winner := atom (fetch_respect (u_id target) (u_id user)) in
              match winner with
              | Some winner =>
                  let! _ := atom (update_respect (rp_id winner) content now) in
                  ok (mkRespect (rp_id winner) (u_id target) (u_id user) content now)
              | None => fail ErrorType.InternalError
              end
          | Err e => fail e
          end
      end.

Definition respect_delete (caller target author : string) : Eff World unit :=
  let! user := atom (fetch_user caller) in
  if negb (str_eqb (u_id user) author) && negb (str_eqb (u_id user) target) && negb (u_privileged user)
  then fail ErrorType.NotPrivileged
  else
    let! entry := atom (fetch_respect target author) in
    match entry with
    | Some entry => atom (delete_respect (rp_id entry))
    | None => ok tt
    end.
End Store.

(** ** The two sides *)

(** What the stored user [a] says of [b] *)
Definition side (w : World) (a b : string) : RS.t :=
  match w_users w !! a with Some u => relationship_with u b | None => RS.None end.

Definition mirrored (s s' : RS.t) : bool :=
  match s, s' with
  | RS.None, RS.None | RS.Friend, RS.Friend | RS.Outgoing, RS.Incoming | RS.Incoming, RS.Outgoing
  | RS.Blocked, RS.BlockedOther | RS.BlockedOther, RS.Blocked | RS.Blocked, RS.Blocked => true
  | _, _ => false
  end.

Definition keyed (w : World) : Prop := forall k u, w_users w !! k = Some u -> u_id u = k.

Lemma find_without_eq id l : List.find (fun x => str_eqb (rl_id x) id) (without id l) = None.
Proof.
  destruct (List.find _ (without id l)) as [x|] eqn:E; [|done].
  apply List.find_some in E as [Hx He]. apply list_elem_of_In, elem_of_filter_bool in Hx as [Hx _].
  by rewrite He in Hx.
Qed.

Lemma find_without_ne id b l :
  id <> b -> List.find (fun x => str_eqb (rl_id x) b) (without id l) = List.find (fun x => str_eqb (rl_id x) b) l.
Proof.
  intros Hne. unfold without. induction l as [|x l IH]; [done|]. cbn.
  destruct (str_eqb (rl_id x) id) eqn:E; cbn; [|by rewrite IH].
  apply str_eqb_eq in E. rewrite IH. destruct (str_eqb (rl_id x) b) eqn:E'; [|done].
  apply str_eqb_eq in E'. congruence.
Qed.

Lemma find_app_last b l r :
  List.find (fun x => str_eqb (rl_id x) b) (l ++ [r])
  = match List.find (fun x => str_eqb (rl_id x) b) l with
    | Some x => Some x | None => if str_eqb (rl_id r) b then Some r else None end.
Proof. induction l as [|x l IH]; [done|]. cbn. by destruct (str_eqb (rl_id x) b). Qed.

(** One side after a write *)
Lemma with_pulled u target b :
  relationship_with (set_relations u (without target <$> u_relations u)) b
  = if str_eqb (u_id u) b then RS.User else if str_eqb target b then RS.None else relationship_with u b.
Proof.
  unfold relationship_with. cbn [u_id u_relations set_relations].
  destruct (str_eqb (u_id u) b) eqn:E; [done|].
  destruct (str_eqb target b) eqn:Et.
  - apply str_eqb_eq in Et as ->. destruct (u_relations u) as [l|]; cbn; [|done]. by rewrite find_without_eq.
  - apply str_eqb_neq in Et. destruct (u_relations u) as [l|]; cbn; [|done]. by rewrite find_without_ne.
Qed.

Lemma with_put u r b :
  relationship_with (set_relations u (put_relation r (u_relations u))) b
  = if str_eqb (u_id u) b then RS.User else if str_eqb (rl_id r) b then rl_status r else relationship_with u b.
Proof.
  unfold relationship_with. cbn [u_id u_relations set_relations].
  destruct (str_eqb (u_id u) b) eqn:E; [done|].
  destruct (u_relations u) as [l|]; cbn; [|by destruct (str_eqb (rl_id r) b)].
  rewrite find_app_last. destruct (str_eqb (rl_id r) b) eqn:Et.
  - apply str_eqb_eq in Et as <-. by rewrite find_without_eq.
  - apply str_eqb_neq in Et. rewrite find_without_ne by done. by destruct (List.find _ l).
Qed.

(** A write on one side, [RS.None] standing for no relation *)
Lemma db_set_side w a b status note u :
  keyed w -> w_users w !! a = Some u -> a <> b -> status <> RS.User ->
  exists w', db_set_relationship a b status note w = (w', Ok tt) /\ keyed w'
    /\ dom (w_users w') = dom (w_users w) /\ w_respect w' = w_respect w
    /\ (forall x y, side w' x y = if str_eqb x a && str_eqb y b then status else side w x y)
    /\ (forall k v', w_users w' !! k = Some v' ->
          exists v, w_users w !! k = Some v /\ u_bot v' = u_bot v /\ u_username v' = u_username v
                    /\ u_discriminator v' = u_discriminator v).
Proof.
  intros Hk Ea Hab Hs.
  assert (exists u', db_set_relationship a b status note w = (set_users w (<[a := u']> (w_users w)), Ok tt)
    /\ u_id u' = u_id u /\ u_bot u' = u_bot u /\ u_username u' = u_username u
    /\ u_discriminator u' = u_discriminator u
    /\ forall y, relationship_with u' y = if str_eqb (u_id u) y then RS.User
                                          else if str_eqb b y then status else relationship_with u y)
    as (u' & -> & Hid & Hb & Hn & Hd & Hr).
  { unfold db_set_relationship, pull_relationship. rewrite Ea.
    destruct status; try done; (eexists; split; [reflexivity|]; do 4 (split; [done|]); intros y;
      first [apply with_pulled|apply with_put]). }
  eexists. split; [done|]. split.
  { intros k v H. cbn in H. revert H. intros [[<- <-]|[_ H]]%lookup_insert_Some; [rewrite Hid; by apply Hk|by apply Hk]. }
  split; [cbn; rewrite dom_insert_L; apply elem_of_dom_2 in Ea; set_solver|]. split; [done|]. split.
  - intros x y. unfold side. cbn [w_users set_users]. destruct (str_eqb x a) eqn:Ex; cbn [andb].
    + apply str_eqb_eq in Ex as ->. rewrite lookup_insert_eq, Hr, Ea, (Hk _ _ Ea).
      destruct (str_eqb a y) eqn:Ey.
      * apply str_eqb_eq in Ey as <-. destruct (str_eqb a b) eqn:Eab; [by apply str_eqb_eq in Eab|].
        unfold relationship_with. by rewrite (Hk _ _ Ea), str_eqb_refl.
      * replace (str_eqb y b) with (str_eqb b y) by (apply eq_true_iff_eq; rewrite !str_eqb_eq; done). done.
    + apply str_eqb_neq in Ex. by rewrite lookup_insert_ne.
  - intros k v H. cbn in H. apply lookup_insert_Some in H as [[<- <-]|[_ H]]; [by exists u|by exists v].
Qed.

Lemma run_ebind_ok {W A B} (c : Eff W A) (k : A -> Eff W B) w a w' :
  run c w = Some (Ok a, w') -> run (ebind c k) w = run (k a) w'.
Proof. intros H. unfold ebind. by rewrite run_bind, H. Qed.

(** Worlds that differ in the two sides of one pair only *)
Record changed (w w' : World) (a b : string) (local remote : RS.t) : Prop := {
  ch_keyed : keyed w';
  ch_dom : dom (w_users w') = dom (w_users w);
  ch_local : side w' a b = local;
  ch_remote : side w' b a = remote;
  ch_others x y : ~ (x = a /\ y = b) -> ~ (x = b /\ y = a) -> side w' x y = side w x y;
  ch_same k v' : w_users w' !! k = Some v' ->
    exists v, w_users w !! k = Some v /\ u_bot v' = u_bot v /\ u_username v' = u_username v
              /\ u_discriminator v' = u_discriminator v;
}.

Lemma set_run self b status note w w' :
  db_set_relationship (u_id self) (u_id b) status note w = (w', Ok tt) ->
  run (set_relationship self b status note) w
  = Some (Ok (set_relations self
        (match status with
         | RS.None | RS.User => without (u_id b) <$> u_relations self
         | _ => put_relation (mkRelation (u_id b) status note) (u_relations self)
         end)), w').
Proof.
  intros E. unfold set_relationship. erewrite run_ebind_ok; [reflexivity|]. by rewrite run_atom, E.
Qed.

Lemma apply_run w self target local remote note :
  keyed w -> w_users w !! u_id self <> None -> w_users w !! u_id target <> None ->
  u_id self <> u_id target -> local <> RS.User -> remote <> RS.User ->
  exists both w', run (apply_relationship self target local remote note) w = Some (Ok both, w')
    /\ changed w w' (u_id self) (u_id target) local remote /\ w_respect w' = w_respect w.
Proof.
  intros Hk Hs Ht Hne Hl Hr.
  destruct (w_users w !! u_id self) as [us|] eqn:Es; [|done].
  destruct (w_users w !! u_id target) as [ut|] eqn:Et; [|done].
  destruct (db_set_side w (u_id target) (u_id self) remote note ut Hk Et) as
    (w1 & E1 & Hk1 & Hd1 & Hp1 & Hside1 & Hsame1); [done..|].
  assert (is_Some (w_users w1 !! u_id self)) as [us1 Es1].
  { apply elem_of_dom. rewrite Hd1. by apply elem_of_dom. }
  destruct (db_set_side w1 (u_id self) (u_id target) local None us1 Hk1 Es1) as
    (w2 & E2 & Hk2 & Hd2 & Hp2 & Hside2 & Hsame2); [done..|].
  eexists _, w2. split.
  { unfold apply_relationship. rewrite (run_ebind_ok _ _ _ _ _ (set_run _ _ _ _ _ _ E1)).
    rewrite (run_ebind_ok _ _ _ _ _ (set_run self (set_relations target _) _ _ _ _ E2)). reflexivity. }
  split; [|congruence]. split; [done|congruence|..].
  - by rewrite Hside2, !str_eqb_refl.
  - rewrite Hside2, Hside1, !str_eqb_refl.
    destruct (str_eqb (u_id target) (u_id self)) eqn:E; [|done]. by apply str_eqb_eq in E.
  - intros x y H1 H2. rewrite Hside2, Hside1.
    destruct (str_eqb x (u_id self)) eqn:Ex, (str_eqb y (u_id target)) eqn:Ey; cbn;
      try (apply str_eqb_eq in Ex); try (apply str_eqb_eq in Ey); try (by exfalso; apply H1);
      destruct (str_eqb x (u_id target)) eqn:Ex', (str_eqb y (u_id self)) eqn:Ey'; cbn; try done;
      apply str_eqb_eq in Ex', Ey'; exfalso; apply H2; done.
  - intros k v' Hv'. destruct (Hsame2 _ _ Hv') as (v1 & H1 & ? & ? & ?).
    destruct (Hsame1 _ _ H1) as (v & Hv & ? & ? & ?). exists v. split; [done|]. split_and!; congruence.
Qed.

(** ** What a request does *)

Inductive request : Type := Add | Remove | Block | Unblock.

(** The pair of sides after a request, or the refusal *)
Definition answer (req : request) (over_limit : option Z) (local remote : RS.t)
    : (RS.t * RS.t) + ErrorType.t :=
  match req, local with
  | Add, RS.None => match over_limit with
                    | Some max => inr (ErrorType.TooManyPendingFriendRequests max)
                    | None => inl (RS.Outgoing, RS.Incoming) end
  | Add, RS.Incoming => inl (RS.Friend, RS.Friend)
  | Add, RS.Friend => inr ErrorType.AlreadyFriends
  | Add, RS.Outgoing => inr ErrorType.AlreadySentRequest
  | Add, RS.Blocked => inr ErrorType.Blocked
  | Add, RS.BlockedOther => inr ErrorType.BlockedByOther
  | Remove, (RS.Friend | RS.Outgoing | RS.Incoming) => inl (RS.None, RS.None)
  | Block, RS.BlockedOther => inl (RS.Blocked, RS.Blocked)
  | Block, (RS.None | RS.Friend | RS.Incoming | RS.Outgoing) => inl (RS.Blocked, RS.BlockedOther)
  | Unblock, RS.Blocked =>
      match remote with
      | RS.Blocked => inl (RS.BlockedOther, RS.Blocked)
      | RS.BlockedOther => inl (RS.None, RS.None)
      | _ => inr ErrorType.InternalError
      end
  | _, _ => inr ErrorType.NoEffect
  end.

Section Requests.
Context `{!HashIter string User, !HashIter string Respect}.
Context (outgoing_friend_requests : User -> Z).

Definition route (req : request) (caller target : string) : Eff World (User * User) :=
  match req with
  | Add => add outgoing_friend_requests caller target
  | Remove => remove caller target
  | Block => block caller target
  | Unblock => unblock caller target
  end.

(** The method behind the route *)
Definition method (req : request) (self target : User) : Eff World (User * User) :=
  match req with
  | Add => add_friend outgoing_friend_requests self target None
  | Remove => remove_friend self target
  | Block => block_user self target
  | Unblock => unblock_user self target
  end.

Definition limit_reached (u : User) : option Z :=
  if outgoing_friend_requests u <=? outgoing_count u then Some (outgoing_friend_requests u) else None.

Lemma method_run w req self target :
  keyed w -> w_users w !! u_id self = Some self -> w_users w !! u_id target = Some target ->
  u_id self <> u_id target ->
  match answer req (limit_reached self) (side w (u_id self) (u_id target)) (side w (u_id target) (u_id self)) with
  | inl (l, r) =>
      exists both w', run (method req self target) w = Some (Ok both, w')
        /\ changed w w' (u_id self) (u_id target) l r
        /\ w_respect w' = (if match req with Block => true | _ => false end
                           then w_respect (delete_respect_between (u_id self) (u_id target) w).1
                           else w_respect w)
  | inr e => run (method req self target) w = Some (Err e, w)
  end.
Proof.
  intros Hk Hs Ht Hne.
  assert (w_users w !! u_id self <> None) as Hs' by congruence.
  assert (w_users w !! u_id target <> None) as Ht' by congruence.
  assert (side w (u_id self) (u_id target) = relationship_with self (u_id target)) as -> by (unfold side; by rewrite Hs).
  assert (side w (u_id target) (u_id self) = relationship_with target (u_id self)) as -> by (unfold side; by rewrite Ht).
  assert (forall l r note, l <> RS.User -> r <> RS.User ->
    exists both w', run (let! both := apply_relationship self target l r note in
                         let! _ := atom (delete_respect_between (u_id self) (u_id target)) in ok both) w
                    = Some (Ok both, w')
      /\ changed w w' (u_id self) (u_id target) l r
      /\ w_respect w' = w_respect (delete_respect_between (u_id self) (u_id target) w).1) as Hblock.
  { intros l r note Hl Hr. destruct (apply_run w self target l r note Hk Hs' Ht' Hne Hl Hr) as (both & w1 & E & Hc & Hp).
    exists both, (delete_respect_between (u_id self) (u_id target) w1).1. split.
    - rewrite (run_ebind_ok _ _ _ _ _ E). erewrite run_ebind_ok; [reflexivity|]. by rewrite run_atom.
    - split; [destruct Hc; split; done|]. cbn. by rewrite Hp. }
  pose proof (fun l r note => apply_run w self target l r note Hk Hs' Ht' Hne) as Happly.
  unfold answer, method, add_friend, remove_friend, block_user, unblock_user, limit_reached.
  destruct req, (relationship_with self (u_id target)); try done; try (by apply Hblock); try (by apply Happly).
  - destruct (_ <=? _); [done|]. by apply Happly.
  - destruct (relationship_with target (u_id self)); try done; by apply Happly.
Qed.

Lemma fetch_user_run w id k :
  run (let! u := atom (fetch_user id) in k u) w
  = match w_users w !! id with Some u => run (k u) w | None => Some (@Err ErrorType.t (User * User) ErrorType.NotFound, w) end.
Proof.
  unfold ebind. rewrite run_bind, run_atom. cbn. by destruct (w_users w !! id).
Qed.

Definition refuses_bots (req : request) : bool := match req with Add | Remove => true | _ => false end.

(** What a route does, whoever calls it *)
Lemma route_run w req caller target :
  keyed w ->
  (exists e, run (route req caller target) w = Some (Err e, w))
  \/ exists self other, w_users w !! caller = Some self /\ w_users w !! target = Some other
     /\ run (route req caller target) w = run (method req self other) w /\ caller <> target
     /\ (refuses_bots req = true -> u_bot self = false /\ u_bot other = false).
Proof.
  intros Hk.
  assert (route req caller target
          = with_users caller target (fun user target =>
              if refuses_bots req && (u_bot user || u_bot target) then fail ErrorType.IsBot
              else method req user target)) as -> by (by destruct req).
  unfold with_users. rewrite fetch_user_run.
  destruct (w_users w !! caller) as [self|] eqn:Es; [|by left; eexists]. rewrite fetch_user_run.
  destruct (w_users w !! target) as [other|] eqn:Et; [|by left; eexists].
  destruct (refuses_bots req && (u_bot self || u_bot other)) eqn:Eb; [by left; eexists|].
  destruct (decide (caller = target)) as [->|Hne].
  - left. assert (self = other) as -> by congruence.
    assert (relationship_with other (u_id other) = RS.User) as Hr by (unfold relationship_with; by rewrite str_eqb_refl).
    unfold method, add_friend, remove_friend, block_user, unblock_user. rewrite Hr. destruct req; by eexists.
  - right. exists self, other. split_and!; try done; intros Hb; rewrite Hb in Eb; cbn in Eb;
      apply orb_false_iff in Eb as [? ?]; done.
Qed.

(** C23. Run alone, a request of one user about another does to their two sides
    what [answer] says, to nobody else's anything, and nothing at all when it
    is refused; a block also takes each of them off the other's wall. *)
Theorem requests_refine_the_pair w req caller target self other :
  keyed w -> caller <> target -> w_users w !! caller = Some self -> w_users w !! target = Some other ->
  refuses_bots req && (u_bot self || u_bot other) = false ->
  match answer req (limit_reached self) (side w caller target) (side w target caller) with
  | inl (local, remote) =>
      exists both w', run (route req caller target) w = Some (Ok both, w')
        /\ changed w w' caller target local remote
        /\ (req = Block -> forall k row, w_respect w' !! k = Some row ->
              of_pair caller target row = false /\ of_pair target caller row = false)
        /\ (req <> Block -> w_respect w' = w_respect w)
  | inr e => run (route req caller target) w = Some (Err e, w)
  end.
Proof.
  intros Hk Hne Es Et Hb.
  assert (run (route req caller target) w = run (method req self other) w) as Hrun.
  { transitivity (run (with_users caller target (fun user target =>
              if refuses_bots req && (u_bot user || u_bot target) then fail ErrorType.IsBot
              else method req user target)) w); [by destruct req|].
    unfold with_users. rewrite !fetch_user_run, Es, fetch_user_run, Et, Hb. done. }
  pose proof (Hk _ _ Es) as <-. pose proof (Hk _ _ Et) as <-. rewrite Hrun.
  pose proof (method_run w req self other Hk Es Et Hne) as Hm. destruct (answer _ _ _ _) as [[l r]|e]; [|done].
  destruct Hm as (both & w' & E & Hc & Hp). exists both, w'. split; [done|]. split; [done|]. split.
  - intros -> k row Hrow. rewrite Hp in Hrow. cbn in Hrow.
    apply map_lookup_filter_Some in Hrow as [_ Hrow]. by apply orb_false_iff in Hrow.
  - intros Hnb. rewrite Hp. by destruct req.
Qed.

(** *** The mirror *)

Definition all_mirrored (w : World) : Prop :=
  keyed w /\ forall a b, a <> b -> is_Some (w_users w !! a) -> is_Some (w_users w !! b) ->
    mirrored (side w a b) (side w b a) = true.

Lemma mirrored_sym s s' : mirrored s s' = mirrored s' s.
Proof. by destruct s, s'. Qed.

Lemma answer_mirrored req limit l r l' r' :
  mirrored l r = true -> answer req limit l r = inl (l', r') -> mirrored l' r' = true.
Proof. destruct req, l, r, limit; try done; by intros _ [= <- <-]. Qed.

Lemma changed_mirrored w w' a b l r :
  all_mirrored w -> changed w w' a b l r -> mirrored l r = true -> all_mirrored w'.
Proof.
  intros [Hk Hm] Hc Hlr. split; [apply (ch_keyed _ _ _ _ _ _ Hc)|]. intros x y Hxy Hx Hy.
  assert (is_Some (w_users w !! x) /\ is_Some (w_users w !! y)) as [Hx' Hy'].
  { rewrite <- !elem_of_dom in *. by rewrite <- (ch_dom _ _ _ _ _ _ Hc). }
  destruct (decide (x = a /\ y = b)) as [[-> ->]|H1].
  { by rewrite (ch_local _ _ _ _ _ _ Hc), (ch_remote _ _ _ _ _ _ Hc). }
  destruct (decide (x = b /\ y = a)) as [[-> ->]|H2].
  { rewrite (ch_local _ _ _ _ _ _ Hc), (ch_remote _ _ _ _ _ _ Hc). by rewrite mirrored_sym. }
  rewrite !(ch_others _ _ _ _ _ _ Hc); [by apply Hm|tauto..].
Qed.

(** C24. Requests made one after the other, whoever makes them, keep every two
    users' sides matching: friends are friends of each other, a request sent
    is a request received, and who is blocked knows it. *)
Theorem relationships_stay_mirrored w requests :
  all_mirrored w ->
  exists w', foldl (fun w '(req, caller, target) =>
               w ≫= fun w => snd <$> run (route req caller target) w) (Some w) requests = Some w'
             /\ all_mirrored w'.
Proof.
  revert w. induction requests as [|[[req caller] target] requests IH]; intros w Hm; [by exists w|].
  cbn [foldl]. assert (exists w1, (Some w ≫= fun w => snd <$> run (route req caller target) w) = Some w1
                                   /\ all_mirrored w1) as (w1 & -> & Hm1); [|by apply IH].
  cbn. destruct (route_run w req caller target (proj1 Hm)) as [[e ->]|(self & other & Es & Et & -> & Hne & _)];
    [by exists w|].
  pose proof (proj1 Hm _ _ Es) as Hs. pose proof (proj1 Hm _ _ Et) as Ho. subst caller target.
  pose proof (method_run w req self other (proj1 Hm) Es Et Hne) as Hr.
  destruct (answer _ _ _ _) as [[l r]|e] eqn:Ea; [|rewrite Hr; by exists w].
  destruct Hr as (both & w' & -> & Hc & _). exists w'. split; [done|].
  eapply changed_mirrored; [done|exact Hc|]. eapply answer_mirrored; [|exact Ea]. apply Hm; [done|by eexists..].
Qed.
End Requests.

(** ** A block that loses a race *)

Definition pending_pair : World :=
  mkWorld
    {[ "a" := mkUser "a" "a" "0001" false false (Some [mkRelation "b" RS.Outgoing None]);
       "b" := mkUser "b" "b" "0001" false false (Some [mkRelation "a" RS.Incoming None]) ]} ∅.

(** While [a] blocks [b], [b] accepts the request [a] had sent: the handlers
    write the two sides in turn, and end with [b] a friend of [a] who blocked
    them.  From then on [a] cannot even take the block back: unblocking is
    answered with an internal error. *)
Theorem block_raced_by_accept :
  exists w, sys_world <$> sys_sched [0; 0; 1; 1; 0; 1; 0; 0; 1]%nat
              (mkSys pending_pair [spawn (block "a" "b"); spawn (add (fun _ => 5) "b" "a")]) = Some w
    /\ side w "a" "b" = RS.Blocked /\ side w "b" "a" = RS.Friend
    /\ run (unblock "a" "b") w = Some (Err ErrorType.InternalError, w).
Proof. eexists. split; [vm_compute; reflexivity|]. split; [|split]; vm_compute; reflexivity. Qed.

Lemma pending_pair_keyed : keyed pending_pair.
Proof.
  intros k u H. cbn in H. apply lookup_insert_Some in H as [[<- <-]|[_ H]]; [done|].
  by apply lookup_singleton_Some in H as [<- <-].
Qed.

Lemma requests_refine_the_pair_witness :
  exists both w', run (route (fun _ => 5) Block "a" "b") pending_pair = Some (Ok both, w')
    /\ changed pending_pair w' "a" "b" RS.Blocked RS.BlockedOther.
Proof.
  edestruct (requests_refine_the_pair (fun _ => 5) pending_pair Block "a" "b") as (both & w' & E & Hc & _);
    [apply pending_pair_keyed|done|vm_compute; reflexivity..|].
  exists both, w'. split; [exact E|exact Hc].
Defined.

Lemma pending_pair_mirrored : all_mirrored pending_pair.
Proof.
  split; [apply pending_pair_keyed|]. intros x y Hxy Hx Hy.
  assert (forall k, is_Some (w_users pending_pair !! k) -> k = "a" \/ k = "b") as Hk.
  { intros k [u H]. cbn in H. apply lookup_insert_Some in H as [[<- _]|[_ H]]; [by left|].
    apply lookup_singleton_Some in H as [<- _]. by right. }
  destruct (Hk x Hx) as [->| ->], (Hk y Hy) as [->| ->]; try done; vm_compute; reflexivity.
Qed.

Lemma relationships_stay_mirrored_witness :
  exists w', foldl (fun w '(req, caller, target) =>
               w ≫= fun w => snd <$> run (route (fun _ => 5) req caller target) w) (Some pending_pair)
               [(Add, "b", "a"); (Block, "a", "b"); (Add, "b", "a"); (Block, "b", "a"); (Unblock, "a", "b")] = Some w'
    /\ all_mirrored w' /\ side w' "a" "b" = RS.BlockedOther /\ side w' "b" "a" = RS.Blocked.
Proof.
  destruct (relationships_stay_mirrored (fun _ => 5) pending_pair
    [(Add, "b", "a"); (Block, "a", "b"); (Add, "b", "a"); (Block, "b", "a"); (Unblock, "a", "b")]
    pending_pair_mirrored) as (w' & E & Hm).
  exists w'. split; [exact E|]. split; [exact Hm|]. vm_compute in E. injection E as <-.
  split; vm_compute; reflexivity.
Defined.

(** ** Walls *)

Section Walls.
Context `{!HashIter string User, !HashIter string Respect}.
Context (to_lowercase : string -> string) (outgoing_friend_requests : User -> Z).
Context (contains_blocked_slur : string -> bool) (validation_error : string).

(** The handlers of this file, and what the deletion of an account does *)
Inductive social_handler : prog World unit -> Prop :=
| h_route req caller target : social_handler (spawn (route outgoing_friend_requests req caller target))
| h_send caller username note : social_handler (spawn
    (send_friend_request to_lowercase outgoing_friend_requests contains_blocked_slur validation_error
       caller username note))
| h_respect_set caller target content new_id now : social_handler (spawn
    (respect_set contains_blocked_slur validation_error caller target content new_id now))
| h_respect_delete caller target author : social_handler (spawn (respect_delete caller target author))
| h_clear self : social_handler (spawn (clear_relationships self))
| h_forget user_id : social_handler (spawn (atom (delete_respect_involving user_id))).

Definition acceptable (content : string) : bool :=
  length_within 1 240 content && negb (contains_blocked_slur content).

(** Entries are stored under their id and acceptable, one for each wall and author. *)
Definition tidy (w : World) : Prop :=
  (forall k row, w_respect w !! k = Some row -> rp_id row = k /\ acceptable (rp_content row) = true)
  /\ (forall k k' row row', w_respect w !! k = Some row -> w_respect w !! k' = Some row' ->
        rp_target_id row = rp_target_id row' -> rp_author_id row = rp_author_id row' -> k = k').

Abbreviation keeps p := (holds tidy (fun _ _ => True) p (fun _ => True)).

Lemma keeps_atom {A} (op : World -> World * A) :
  (forall w, tidy w -> tidy (op w).1) -> keeps (atom op).
Proof. intros H w Hw. by split_and!; [apply H| |]. Qed.

Lemma keeps_ebind {A B} (c : Eff World A) (k : A -> Eff World B) :
  keeps c -> (forall a, keeps (k a)) -> keeps (ebind c k).
Proof. intros Hc Hk. apply holds_ebind. eapply holds_mono; [exact Hc|]. by intros [a|e] _. Qed.

Lemma tidy_bind {A B} (c : prog World A) (k : A -> prog World B) :
  keeps c -> (forall a, keeps (k a)) -> keeps (bind c k).
Proof. intros Hc Hk. apply holds_bind. eapply holds_mono; [exact Hc|]. by intros a _. Qed.

Lemma tidy_same w w' : w_respect w' = w_respect w -> tidy w -> tidy w'.
Proof. unfold tidy. by intros ->. Qed.

Lemma tidy_subset w rows : rows ⊆ w_respect w -> tidy w -> tidy (set_respect w rows).
Proof.
  intros Hs [H1 H2]. split; cbn [w_respect set_respect].
  - intros k row Hr. by apply H1, (lookup_weaken _ _ _ _ Hr Hs).
  - intros k k' row row' Hr Hr'. apply H2; by eapply lookup_weaken.
Qed.

Lemma tidy_set_relationship user_id target_id status note w :
  tidy w -> tidy (db_set_relationship user_id target_id status note w).1.
Proof.
  apply tidy_same. unfold db_set_relationship, pull_relationship.
  by destruct status, (w_users w !! user_id).
Qed.

Lemma tidy_insert respect w :
  acceptable (rp_content respect) = true -> tidy w -> tidy (insert_respect respect w).1.
Proof.
  intros Ha [H1 H2]. unfold insert_respect.
  destruct (existsb _ _) eqn:E; cbn [fst]; [done|].
  assert (forall k row, w_respect w !! k = Some row ->
    rp_target_id row = rp_target_id respect -> rp_author_id row = rp_author_id respect -> False) as Hnew.
  { intros k row Hr Ht Hu. eapply hm_any_false in E; [|exact Hr].
    unfold of_pair in E. by rewrite Ht, Hu, !str_eqb_refl in E. }
  split; cbn [w_respect set_respect].
  - intros k row [[<- <-]|[_ Hr]]%lookup_insert_Some; [done|by apply H1].
  - intros k k' row row' Hr Hr' Ht Hu. apply lookup_insert_Some in Hr as [[<- <-]|[_ Hr]];
      apply lookup_insert_Some in Hr' as [[<- <-]|[_ Hr']]; try done; [| |by eapply H2];
      exfalso; eapply Hnew; done.
Qed.

Lemma tidy_update id content now w :
  acceptable content = true -> tidy w -> tidy (update_respect id content now w).1.
Proof.
  intros Ha [H1 H2]. split; cbn [w_respect set_respect fst update_respect].
  - intros k row Hr. apply lookup_alter_Some in Hr as [(-> & row0 & Hr & ->)|[_ Hr]]; [|by apply H1].
    cbn. split; [by eapply H1|done].
  - intros k k' row row' Hr Hr' Ht Hu.
    assert (forall k row, alter (fun row => mkRespect (rp_id row) (rp_target_id row) (rp_author_id row) content now)
              id (w_respect w) !! k = Some row -> exists row0, w_respect w !! k = Some row0
              /\ rp_target_id row0 = rp_target_id row /\ rp_author_id row0 = rp_author_id row) as Hold.
    { intros j r Hj. apply lookup_alter_Some in Hj as [(-> & r0 & Hj & ->)|[_ Hj]]; by eexists. }
    destruct (Hold _ _ Hr) as (r0 & Hr0 & ? & ?), (Hold _ _ Hr') as (r1 & Hr1 & ? & ?).
    eapply H2; [done|done|congruence..].
Qed.

Lemma keeps_apply self target l r note : keeps (apply_relationship self target l r note).
Proof.
  assert (forall a b s n, keeps (set_relationship a b s n)) as Hset.
  { intros a b s n. apply keeps_ebind; [|done]. apply keeps_atom. intros w. apply tidy_set_relationship. }
  apply keeps_ebind; [apply Hset|]. intros t. by apply keeps_ebind; [apply Hset|].
Qed.

Lemma keeps_read {A} (op : World -> World * Result A) : (forall w, (op w).1 = w) -> keeps (atom op).
Proof. intros H. apply keeps_atom. intros w. by rewrite H. Qed.

Lemma keeps_method req self target note :
  keeps (match req with
         | Add => add_friend outgoing_friend_requests self target note
         | _ => method outgoing_friend_requests req self target
         end).
Proof.
  assert (forall l r, keeps (let! both := apply_relationship self target l r None in
      let! _ := atom (delete_respect_between (u_id self) (u_id target)) in ok both)) as Hb.
  { intros l r. apply keeps_ebind; [apply keeps_apply|]. intros both. apply keeps_ebind; [|done].
    apply keeps_atom. intros w. apply tidy_subset, map_filter_subseteq. }
  destruct req; cbn [method]; unfold add_friend, remove_friend, block_user, unblock_user;
    repeat case_match; first [done|apply keeps_apply|apply Hb].
Qed.

Lemma keeps_route req caller target : keeps (route outgoing_friend_requests req caller target).
Proof.
  destruct req; cbn [route]; unfold add, remove, block, unblock, with_users;
    (apply keeps_ebind; [by apply keeps_read|]; intros u; apply keeps_ebind; [by apply keeps_read|]; intros t);
    try (destruct (_ || _); [done|]).
  - apply (keeps_method Add).
  - apply (keeps_method Remove u t None).
  - apply (keeps_method Block u t None).
  - apply (keeps_method Unblock u t None).
Qed.

Lemma keeps_respect_set caller target content new_id now :
  keeps (respect_set contains_blocked_slur validation_error caller target content new_id now).
Proof.
  unfold respect_set. apply keeps_ebind; [by apply keeps_read|]. intros user.
  destruct (negb (length_within _ _ _)) eqn:El; [done|].
  destruct (contains_blocked_slur _) eqn:Es; [done|].
  assert (acceptable (clean content) = true) as Ha.
  { unfold acceptable. rewrite Es. by apply negb_false_iff in El as ->. }
  apply keeps_ebind; [by apply keeps_read|]. intros other.
  destruct (u_bot other); [done|]. destruct (negb (str_eqb _ _) && _); [done|].
  assert (forall row : Respect, keeps (let! _ := atom (update_respect (rp_id row) (clean content) now) in
    ok (mkRespect (rp_id row) (u_id other) (u_id user) (clean content) now))) as Hu.
  { intros row. apply keeps_ebind; [|done]. apply keeps_atom. intros w. by apply tidy_update. }
  apply keeps_ebind; [by apply keeps_read|]. intros [row|]; [apply Hu|].
  apply tidy_bind; [apply keeps_atom; intros w; by apply tidy_insert|].
  intros [?|e]; [done|]. destruct e; try done.
  apply keeps_ebind; [by apply keeps_read|]. intros [row|]; [apply Hu|done].
Qed.

Lemma social_handlers_keep p : social_handler p -> keeps p.
Proof.
  intros []; eapply holds_spawn.
  - apply keeps_route.
  - unfold send_friend_request. apply keeps_ebind; [by apply keeps_read|]. intros u.
    do 2 (destruct (match clean_note note with Some _ => _ | None => _ end); [done|]).
    destruct (split_once _ _) as [[name disc]|]; [|done]. apply keeps_ebind; [by apply keeps_read|]. intros t.
    destruct (_ || _); [done|]. apply (keeps_method Add).
  - apply keeps_respect_set.
  - unfold respect_delete. apply keeps_ebind; [by apply keeps_read|]. intros u. destruct (_ && _); [done|].
    apply keeps_ebind; [by apply keeps_read|]. intros [row|]; [|done].
    apply keeps_atom. intros w. apply tidy_subset, delete_subseteq.
  - apply keeps_atom. intros w. by apply tidy_same.
  - apply keeps_atom. intros w. apply tidy_subset, map_filter_subseteq.
Qed.

(** However the handlers interleave, and wherever one is lost, an author has
    at most one entry on a wall, and every entry passed the checks on its
    length and its words. *)
Theorem one_entry_per_author w s :
  tidy w -> rtc (sys_step social_handler) (mkSys w []) s -> tidy (sys_world s).
Proof.
  intros Hw Hs.
  destruct (guarded_steps social_handler tidy (fun _ _ => True) (mkSys w []) s) as [[Ht _] _];
    [apply social_handlers_keep|by split; [|constructor]|done|done].
Qed.
End Walls.

Definition friends : World :=
  mkWorld
    {[ "a" := mkUser "a" "a" "0001" false false (Some [mkRelation "b" RS.Friend None]);
       "b" := mkUser "b" "b" "0001" false false (Some [mkRelation "a" RS.Friend None]) ]} ∅.

Definition two_sets : list (prog World unit) :=
  [spawn (respect_set (fun _ => false) "" "a" "b" "solid " "r1" 10);
   spawn (respect_set (fun _ => false) "" "a" "b" "very solid" "r2" 11)].

(** Two sets of one author race to insert: the one that loses updates. *)
Lemma one_entry_per_author_witness :
  exists s, sys_sched [0; 0; 1; 1; 0; 1; 0; 1; 1; 1]%nat (mkSys friends two_sets) = Some s
    /\ w_respect (sys_world s) = {[ "r1" := mkRespect "r1" "b" "a" "very solid" 11 ]}
    /\ tidy (fun _ => false) (sys_world s).
Proof.
  eexists. split; [vm_compute; reflexivity|]. split; [vm_compute; reflexivity|].
  eapply (one_entry_per_author (fun s => s) (fun _ => 5) (fun _ => false) "" friends).
  - by split; intros *; cbn; rewrite lookup_empty.
  - eapply rtc_l; [apply sys_start, (h_respect_set _ _ _ _ "a" "b" "very solid" "r2" 11)|].
    eapply rtc_l; [apply sys_start, (h_respect_set _ _ _ _ "a" "b" "solid " "r1" 10)|].
    apply (sys_sched_steps _ [0; 0; 1; 1; 0; 1; 0; 1; 1; 1]%nat). vm_compute. reflexivity.
Defined.
