(* ===== verification/MessageParser.v ===== *)
(** * Message tokens and mentions (crates/core/parser/src/lib.rs)

    The token stream of a message, the iterator that hides escaped tokens and
    the contents of closed code blocks, and the mentions collected from it.
    The lexer is generated by the logos crate: a parameter [lexer] that gives
    the tokens of a text.  The iterator is modelled with its two queues, and
    shown equal to a recursive reference definition. *)

From stdpp Require Import base numbers list gmap strings.
From S2P Require Import Prelude.

Module MessageToken.
Inductive t : Type :=
| Escape
| CodeblockMarker (ty : nat)
| UserMention (id : string)
| RoleMention (id : string)
| ChannelMention (id : string)
| Emoji (id : string)
| MentionEveryone
| MentionOnline.

#[global] Instance eq_dec : EqDecision t.
Proof. solve_decision. Defined.
End MessageToken.
Import MessageToken.

Abbreviation Token := MessageToken.t.

Record MessageResults : Type := mkResults {
  user_mentions : gset string;
  role_mentions : gset string;
  channel_mentions : gset string;
  emojis : gset string;
  mentions_everyone : bool;
  mentions_online : bool;
}.

Definition default_results : MessageResults := mkResults ∅ ∅ ∅ ∅ false false.

(** [MessageParserIterator]: what is left of the lexer, and the queue *)
Record Iter : Type := mkIter { inner : list Token; temp : list Token }.

(** The loop after an opening marker: collect into [temp] until the same
    marker, or to the end *)
Fixpoint block_loop (ty : nat) (rest collected : list Token) : option Token * Iter :=
  match rest with
  | [] => (Some (CodeblockMarker ty), mkIter [] collected)
  | token :: rest' =>
      if bool_decide (token = CodeblockMarker ty)
      then (Some token, mkIter rest' [CodeblockMarker ty])
      else block_loop ty rest' (collected ++ [token])
  end.

Definition next (it : Iter) : option Token * Iter :=
  match temp it with
  | token :: temp' => (Some token, mkIter (inner it) temp')
  | [] =>
      match inner it with
      | [] => (None, it)
      | Escape :: rest => (Some Escape, mkIter (tail rest) [])
      | CodeblockMarker ty :: rest => block_loop ty rest []
      | token :: rest => (Some token, mkIter rest [])
      end
  end.

(** Running the iterator to its end; [None] when [fuel] calls did not end it *)
Fixpoint collect (fuel : nat) (it : Iter) : option (list Token) :=
  match fuel with
  | O => None
  | S fuel' =>
      match next it with
      | (None, _) => Some []
      | (Some token, it') => cons token <$> collect fuel' it'
      end
  end.

(** Calls that always suffice *)
Definition iter_size (it : Iter) : nat := 2 * length (inner it) + length (temp it).

Section Lexer.
Context (lexer : string -> list Token).

Definition parse_message_iter (text : string) : Iter := mkIter (lexer text) [].

Definition add_token (results : MessageResults) (token : Token) : MessageResults :=
  match token with
  | Escape | CodeblockMarker _ => results
  | UserMention id =>
      mkResults ({[id]} ∪ user_mentions results) (role_mentions results)
        (channel_mentions results) (emojis results) (mentions_everyone results)
        (mentions_online results)
  | RoleMention id =>
      mkResults (user_mentions results) ({[id]} ∪ role_mentions results)
        (channel_mentions results) (emojis results) (mentions_everyone results)
        (mentions_online results)
  | ChannelMention id =>
      mkResults (user_mentions results) (role_mentions results)
        ({[id]} ∪ channel_mentions results) (emojis results) (mentions_everyone results)
        (mentions_online results)
  | Emoji id =>
      mkResults (user_mentions results) (role_mentions results) (channel_mentions results)
        ({[id]} ∪ emojis results) (mentions_everyone results) (mentions_online results)
  | MentionEveryone =>
      mkResults (user_mentions results) (role_mentions results) (channel_mentions results)
        (emojis results) true (mentions_online results)
  | MentionOnline =>
      mkResults (user_mentions results) (role_mentions results) (channel_mentions results)
        (emojis results) (mentions_everyone results) true
  end.

(** [parse_message]: the loop runs for as many calls as ever needed *)
Definition parse_message (text : string) : option MessageResults :=
  let it := parse_message_iter text in
  foldl add_token default_results <$> collect (S (iter_size it)) it.
End Lexer.

(** ** Reference definition *)

(** The tokens before the first marker of width [ty] and those after it *)
Fixpoint split_marker (ty : nat) (l : list Token) : option (list Token * list Token) :=
  match l with
  | [] => None
  | token :: rest =>
      if bool_decide (token = CodeblockMarker ty) then Some ([], rest)
      else (fun p => (token :: p.1, p.2)) <$> split_marker ty rest
  end.

(** The tokens a reader sees: an escape hides the token after it, a closed
    block leaves its two markers, an unclosed one shows what follows as is.
    [n] bounds the length. *)
Fixpoint visible (n : nat) (l : list Token) : list Token :=
  match n with
  | O => []
  | S n' =>
      match l with
      | [] => []
      | Escape :: rest => Escape :: visible n' (tail rest)
      | CodeblockMarker ty :: rest =>
          match split_marker ty rest with
          | Some (_, after) => CodeblockMarker ty :: CodeblockMarker ty :: visible n' after
          | None => CodeblockMarker ty :: rest
          end
      | token :: rest => token :: visible n' rest
      end
  end.

Definition visible_tokens (l : list Token) : list Token := visible (length l) l.

Lemma split_marker_length ty l a b :
  split_marker ty l = Some (a, b) -> (length b < length l)%nat.
Proof.
  revert a b. induction l as [|t l IH]; intros a b; simpl; [done|].
  case_bool_decide; [intros [= <- <-]; lia|].
  destruct (split_marker ty l) as [[a' b']|] eqn:E; simpl; [|done].
  intros [= <- <-]. specialize (IH _ _ eq_refl). lia.
Qed.

Lemma split_marker_app ty a b :
  CodeblockMarker ty ∉ a -> split_marker ty (a ++ CodeblockMarker ty :: b) = Some (a, b).
Proof.
  induction a as [|t a IH]; simpl; intros Ha.
  - by rewrite bool_decide_true.
  - rewrite bool_decide_false by set_solver. rewrite IH by set_solver. done.
Qed.

Lemma split_marker_none ty a : CodeblockMarker ty ∉ a -> split_marker ty a = None.
Proof.
  induction a as [|t a IH]; simpl; intros Ha; [done|].
  rewrite bool_decide_false by set_solver. rewrite IH by set_solver. done.
Qed.

(** More room does not change what is visible. *)
Lemma visible_enough n : forall m l,
  (length l <= n)%nat -> (length l <= m)%nat -> visible n l = visible m l.
Proof.
  induction n as [|n IH]; intros m l Hn Hm; [destruct l; [by destruct m | simpl in Hn; lia]|].
  destruct l as [|t l]; [by destruct m|]. destruct m as [|m]; [simpl in Hm; lia|].
  simpl in Hn, Hm. simpl.
  assert (visible n l = visible m l) as E by (apply IH; lia).
  assert (visible n (tail l) = visible m (tail l)) as E'
    by (apply IH; destruct l; simpl in *; lia).
  destruct t; try (by rewrite E); try (by rewrite E').
  destruct (split_marker ty l) as [[a b]|] eqn:Es; [|done].
  apply split_marker_length in Es. do 2 f_equal. apply IH; lia.
Qed.

Lemma block_loop_spec ty rest : forall collected,
  block_loop ty rest collected =
  match split_marker ty rest with
  | Some (_, after) => (Some (CodeblockMarker ty), mkIter after [CodeblockMarker ty])
  | None => (Some (CodeblockMarker ty), mkIter [] (collected ++ rest))
  end.
Proof.
  induction rest as [|t rest IH]; intros collected; simpl; [by rewrite app_nil_r|].
  case_bool_decide; [by subst|]. rewrite IH.
  destruct (split_marker ty rest) as [[]|]; simpl; [done|]. by rewrite <- app_assoc.
Qed.

Lemma collect_temp fuel temp : forall inner,
  (length temp < fuel)%nat ->
  collect fuel (mkIter inner temp) =
  app temp <$> collect (fuel - length temp) (mkIter inner []).
Proof.
  revert fuel. induction temp as [|t temp IH]; intros fuel inner Hf; simpl.
  - rewrite Nat.sub_0_r. by destruct (collect fuel (mkIter inner [])).
  - destruct fuel as [|fuel]; [simpl in Hf; lia|]. simpl in *. rewrite IH by lia.
    by destruct (collect (fuel - length temp) (mkIter inner [])).
Qed.

Lemma collect_visible n : forall l fuel,
  (length l <= n)%nat -> (2 * length l < fuel)%nat ->
  collect fuel (mkIter l []) = Some (visible n l).
Proof.
  induction n as [|n IH]; intros l fuel Hn Hf.
  { destruct l; [|simpl in Hn; lia]. destruct fuel; [lia | done]. }
  destruct fuel as [|fuel]; [lia|]. destruct l as [|t l]; [done|]. simpl in Hn, Hf.
  assert (collect fuel (mkIter l []) = Some (visible n l)) as E by (apply IH; lia).
  assert (collect fuel (mkIter (tail l) []) = Some (visible n (tail l))) as E'
    by (apply IH; destruct l; simpl in *; lia).
  destruct t; cbn [collect next inner temp visible]; rewrite ?E, ?E'; try done.
  rewrite block_loop_spec. destruct (split_marker ty l) as [[a b]|] eqn:Es.
  - apply split_marker_length in Es. rewrite collect_temp by (simpl; lia). simpl.
    rewrite IH by lia. done.
  - rewrite collect_temp by (simpl in *; lia). simpl.
    destruct (fuel - length l)%nat eqn:Ef; [lia|]. simpl. by rewrite app_nil_r.
Qed.

(** ** Theorems *)

Open Scope Z_scope.

Lemma parse_message_visible (lexer : string -> list Token) (text : string) :
  parse_message lexer text =
    Some (foldl add_token default_results (visible_tokens (lexer text))).
Proof.
  unfold parse_message, parse_message_iter. rewrite (collect_visible (length (lexer text)));
    [reflexivity | done | unfold iter_size; simpl; lia].
Qed.

(** C40. The iterator, with its queue of pending tokens, ends on every input and
    yields exactly what the reference definition shows: collecting it within
    the bound on its calls gives the visible tokens, and the mentions of a
    message are those of its visible tokens. *)
Theorem parser_refines_visible (lexer : string -> list Token) (text : string) :
  collect (S (iter_size (parse_message_iter lexer text))) (parse_message_iter lexer text) =
    Some (visible_tokens (lexer text)) /\
  parse_message lexer text =
    Some (foldl add_token default_results (visible_tokens (lexer text))).
Proof.
  split; [|apply parse_message_visible].
  apply collect_visible; unfold iter_size, parse_message_iter; simpl; lia.
Qed.

(** Tokens that neither hide nor open anything *)
Definition plain (t : Token) : Prop := t <> Escape /\ forall ty, t <> CodeblockMarker ty.

(** What is hidden: a code block that closes, or an escape with its token *)
Inductive hidden : list Token -> Prop :=
| hidden_block ty block :
    CodeblockMarker ty ∉ block -> hidden (CodeblockMarker ty :: block ++ [CodeblockMarker ty])
| hidden_escape t : hidden [Escape; t].

Lemma visible_plain before l :
  Forall plain before -> visible_tokens (before ++ l) = before ++ visible_tokens l.
Proof.
  unfold visible_tokens. induction 1 as [|t before [He Hm] _ IH]; [done|]. simpl. rewrite IH.
  destruct t; try done. by destruct (Hm ty).
Qed.

Lemma visible_hidden h l r :
  hidden h ->
  foldl add_token r (visible_tokens (h ++ l)) = foldl add_token r (visible_tokens l).
Proof.
  unfold visible_tokens. intros [ty block Hb|t]; simpl.
  - rewrite <- app_assoc. simpl. rewrite split_marker_app by done. simpl.
    rewrite (visible_enough (length (block ++ CodeblockMarker ty :: l)) (length l) l);
      [done | rewrite length_app; simpl; lia | done].
  - apply (f_equal (foldl add_token r)), (visible_enough (S (length l)) (length l) l); lia.
Qed.

(** Nothing in a closed code block counts as a mention, nor the token after
    an escape: cutting either out of a message, wherever it stands behind
    plain tokens, leaves its mentions of every kind as they were, and so
    whatever was inside did not matter. *)
Theorem hidden_tokens_do_not_count (lexer : string -> list Token) (text : string)
    (before h after : list Token) :
  Forall plain before -> hidden h ->
  lexer text = before ++ h ++ after ->
  parse_message lexer text = parse_message (fun _ => before ++ after) text.
Proof.
  intros Hb Hh Hl. rewrite !parse_message_visible, Hl, (visible_plain before (h ++ _)),
    (visible_plain before after), !foldl_app, visible_hidden by done. done.
Qed.

Lemma hidden_tokens_do_not_count_witness :
  let lexer := fun _ : string =>
    [UserMention "b"; CodeblockMarker 1; UserMention "a"; CodeblockMarker 1; MentionOnline] in
  parse_message lexer "" = parse_message (fun _ => [UserMention "b"; MentionOnline]) "" /\
  user_mentions <$> parse_message lexer "" = Some {["b"%string]}.
Proof.
  cbv zeta. split; [|reflexivity].
  apply (hidden_tokens_do_not_count _ "" [UserMention "b"]
    [CodeblockMarker 1; UserMention "a"; CodeblockMarker 1] [MentionOnline]); [| | reflexivity].
  - repeat constructor; discriminate.
  - apply (hidden_block 1 [UserMention "a"]). set_solver.
Defined.

(** After an opening marker that is never closed, escapes and inner code
    blocks no longer hide anything: the same escaped mention that is ignored
    on its own counts when an unclosed marker comes first, and so does one
    inside a closed inline block. *)
Theorem unclosed_marker_exposes (id : string) :
  let mentions (l : list Token) := user_mentions <$> parse_message (fun _ => l) "" in
  mentions [Escape; UserMention id] = Some ∅ /\
  mentions [CodeblockMarker 1; UserMention id; CodeblockMarker 1] = Some ∅ /\
  mentions [CodeblockMarker 3; Escape; UserMention id] = Some {[id]} /\
  mentions [CodeblockMarker 3; CodeblockMarker 1; UserMention id; CodeblockMarker 1] = Some {[id]}.
Proof.
  cbv zeta. split_and!; try reflexivity; simpl; by rewrite (right_id_L ∅ (∪)).
Qed.
