(* ===== verification/Ratelimit.v ===== *)
(** * Request rate limiting (crates/core/ratelimits)

    The bucket table and the guard of ratelimiter.rs, and the Rocket fairing
    that runs it once per request (rocket.rs).  The clock is read several
    times within one request, so a request takes all its readings as
    arguments; the 64-bit bucket key is [DefaultHasher] over identifier,
    bucket and resource, whose algorithm the standard library leaves
    unspecified: a parameter [hash].  Times are milliseconds.  Requests are
    served one after the other: a request reads its bucket and writes it back
    in two accesses, and what two requests racing on one bucket do is not
    modelled. *)

From stdpp Require Import base numbers list gmap strings.
From S2P Require Import Prelude.
Open Scope Z_scope.

Record Entry : Type := mkEntry { used : Z; reset : Z }.

Record Ratelimiter : Type := mkLimiter {
  rl_key : Z;
  rl_limit : Z;
  rl_remaining : Z;
  rl_reset : Z;
}.

Abbreviation Buckets := (gmap Z Entry).

(** The readings of [now] in one request, in program order *)
Record Clock : Type := mkClock {
  t_from : Z;        (* [Entry::from], only when the bucket is new *)
  t_remaining : Z;   (* [get_remaining] *)
  t_left : Z;        (* [left_until_reset] before the deduction *)
  t_deduct : Z;      (* [deduct] *)
  t_window : Z;      (* [deduct], only when the window has run out *)
  t_after : Z;       (* [left_until_reset] after the deduction *)
}.

Definition WINDOW : Z := 10000.

Definition entry_from (map_ : Buckets) (key : Z) (now : Z) : Entry :=
  default (mkEntry 0 (now + WINDOW)) (map_ !! key).

(** [None]: [self.used += 1] overflows a [u32] *)
Definition deduct (e : Entry) (now window : Z) : option Entry :=
  if reset e <? now then Some (mkEntry 1 (window + WINDOW))
  else if used e + 1 <=? u32_max then Some (mkEntry (used e + 1) (reset e)) else None.

(** [None]: [limit - self.used] underflows a [u32] *)
Definition get_remaining (e : Entry) (limit now : Z) : option Z :=
  if reset e <? now then Some limit
  else if used e <=? limit then Some (limit - used e) else None.

Definition left_until_reset (e : Entry) (now : Z) : Z := Z.max 0 (reset e - now).

(** [Ratelimiter::from] on the bucket's key: the new table, and the guard or
    the refusal; [None] is an arithmetic panic *)
Definition ratelimiter_from (map_ : Buckets) (key limit : Z) (c : Clock)
    : option (Buckets * (Ratelimiter + Ratelimiter)) :=
  let entry := entry_from map_ key (t_from c) in
  match get_remaining entry limit (t_remaining c) with
  | None => None
  | Some remaining =>
      if remaining =? 0 then
        Some (map_, inr (mkLimiter key limit remaining (left_until_reset entry (t_left c))))
      else
        match deduct entry (t_deduct c) (t_window c) with
        | None => None
        | Some entry' =>
            Some (<[key := entry']> map_,
                  inl (mkLimiter key limit (remaining - 1) (left_until_reset entry' (t_after c))))
        end
  end.

(** The bytes the hasher is fed *)
Definition bucket_key (hash : string -> Z) (identifier bucket : string)
    (resource : option string) : Z :=
  hash (identifier +:+ bucket +:+ default "" resource).

(** ** The fairing *)

Inductive Method : Type := Options | OtherMethod.

Record Response : Type := mkResponse {
  resp_headers : option Ratelimiter;     (* the X-RateLimit-* headers *)
  resp_too_many : bool;                  (* status 429 *)
  resp_redirected : bool;                (* routed to /ratelimit *)
}.

(** One request through [on_request] and [on_response].  The guard's result
    is kept in the request's local cache, so the bucket is charged once. *)
Definition handle_request (map_ : Buckets) (m : Method) (key limit : Z) (c : Clock)
    : option (Buckets * Response) :=
  match m with
  | Options => Some (map_, mkResponse None false false)
  | OtherMethod =>
      match ratelimiter_from map_ key limit c with
      | None => None
      | Some (map', inl ok) => Some (map', mkResponse (Some ok) false false)
      | Some (map', inr err) => Some (map', mkResponse (Some err) true true)
      end
  end.

(** ** Facts *)

(** Every bucket has used at most its limit. *)
Definition within (limit_of : Z -> Z) (map_ : Buckets) : Prop :=
  forall key e, map_ !! key = Some e -> 0 <= used e <= limit_of key.

Lemma entry_from_within limit_of map_ key now :
  within limit_of map_ -> 0 <= limit_of key ->
  0 <= used (entry_from map_ key now) <= limit_of key.
Proof.
  intros Hw Hl. unfold entry_from. destruct (map_ !! key) as [e|] eqn:E; simpl; [eauto | lia].
Qed.

(** A request on a table within its limits never panics and leaves it so. *)
Lemma ratelimiter_within limit_of map_ key c :
  within limit_of map_ -> (forall k, is_u32 (limit_of k)) ->
  t_remaining c <= t_deduct c ->
  exists map' r, ratelimiter_from map_ key (limit_of key) c = Some (map', r) /\
    within limit_of map' /\ (forall k, k <> key -> map' !! k = map_ !! k).
Proof.
  intros Hw Hu Ht. pose proof (Hu key) as Hk.
  pose proof (entry_from_within limit_of map_ key (t_from c) Hw) as He.
  unfold ratelimiter_from, get_remaining, deduct.
  destruct (entry_from map_ key (t_from c)) as [u r] eqn:Ee. simpl in *.
  assert (0 <= u <= limit_of key) as Hu' by (apply He; int_solve).
  assert (forall e', 0 <= used e' <= limit_of key -> within limit_of (<[key := e']> map_)) as Hins.
  { intros e' He' k e. rewrite lookup_insert. case_decide; [|apply Hw].
    intros [= <-]. subst. done. }
  assert (forall e' k, k <> key -> <[key := e']> map_ !! k = map_ !! k) as Hne
    by (intros; by rewrite lookup_insert_ne).
  destruct (r <? t_remaining c) eqn:E1.
  - replace (r <? t_deduct c) with true by lia.
    destruct (limit_of key =? 0) eqn:El; eexists _, _; (split; [done|]);
      (split; [|done || auto]); [done|]. apply Hins. simpl. lia.
  - replace (u <=? limit_of key) with true by lia.
    destruct (limit_of key - u =? 0) eqn:El; [eexists _, _; split; [done|]; done|].
    destruct (r <? t_deduct c) eqn:E2.
    + eexists _, _. split; [done|]. split; [|auto]. apply Hins. simpl. lia.
    + replace (u + 1 <=? u32_max) with true by (unfold is_u32 in *; lia).
      eexists _, _. split; [done|]. split; [|auto]. apply Hins. simpl. lia.
Qed.

(** ** Theorems *)

(** Serving any sequence of requests whose buckets each have one limit, the
    table stays within the limits and no request panics on the subtraction of
    used units or the counter, as long as no request's clock runs back. *)
Theorem requests_never_panic (limit_of : Z -> Z) (reqs : list (Method * Z * Clock)) :
  (forall k, is_u32 (limit_of k)) ->
  (forall m k c, (m, k, c) ∈ reqs -> t_remaining c <= t_deduct c) ->
  exists map_,
    foldl (fun acc req =>
      match acc with
      | None => None
      | Some map_ => fst <$> handle_request map_ req.1.1 req.1.2 (limit_of req.1.2) req.2
      end) (Some ∅) reqs = Some map_ /\ within limit_of map_.
Proof.
  intros Hu. assert (within limit_of ∅) as Hw by (intros k e; by rewrite lookup_empty).
  revert Hw. generalize (∅ : Buckets).
  induction reqs as [|[[m k] c] reqs IH]; intros map_ Hw Ht; simpl; [eauto|].
  destruct m; simpl.
  - apply IH; [done|]. intros m' k' c' Hin. eapply Ht. by right.
  - destruct (ratelimiter_within limit_of map_ k c Hw Hu) as (map' & r & -> & Hw' & _);
      [eapply Ht; left|].
    destruct r; simpl; (apply IH; [done|]; intros m' k' c' Hin; eapply Ht; by right).
Qed.

Definition sample_clock (t : Z) : Clock := mkClock t t t t t t.

Lemma requests_never_panic_witness :
  exists map_,
    foldl (fun acc req =>
      match acc with
      | None => None
      | Some map_ => fst <$> handle_request map_ req.1.1 req.1.2 1 req.2
      end) (Some ∅) [(OtherMethod, 7, sample_clock 0); (OtherMethod, 7, sample_clock 5)]
    = Some map_ /\ within (fun _ => 1) map_.
Proof.
  apply (requests_never_panic (fun _ => 1)).
  - intros _. vm_compute. split; discriminate.
  - intros m k c Hin. repeat (apply elem_of_cons in Hin as [Hin|Hin];
      [injection Hin as _ _ ->; vm_compute; discriminate|]).
    by apply not_elem_of_nil in Hin.
Defined.

(** The requests of one bucket, one after the other. *)
Fixpoint serve (map_ : Buckets) (key limit : Z) (clocks : list Clock)
    : option (Buckets * list (Ratelimiter + Ratelimiter)) :=
  match clocks with
  | [] => Some (map_, [])
  | c :: rest =>
      match ratelimiter_from map_ key limit c with
      | None => None
      | Some (map', r) =>
          match serve map' key limit rest with
          | None => None
          | Some (map'', rs) => Some (map'', r :: rs)
          end
      end
  end.

Definition admitted (r : Ratelimiter + Ratelimiter) : option Z :=
  match r with inl l => Some (rl_remaining l) | inr _ => None end.

Lemma serve_window key limit t0 : is_u32 limit -> forall clocks map_ n,
  0 <= n <= limit ->
  (map_ !! key = Some (mkEntry n (t0 + WINDOW))) ->
  (forall c, c ∈ clocks -> t_remaining c <= t0 + WINDOW /\ t_deduct c <= t0 + WINDOW) ->
  exists map' rs, serve map_ key limit clocks = Some (map', rs) /\
    admitted <$> rs =
      (fun i => if i <? limit then Some (limit - i - 1) else None) <$>
        seqZ n (Z.of_nat (length clocks)).
Proof.
  intros Hl. induction clocks as [|c clocks IH]; intros map_ n Hn Hm Ht; [eexists _, _; done|].
  destruct (Ht c) as [Ht1 Ht2]; [left|].
  rewrite (seqZ_cons n (Z.of_nat (length (c :: clocks)))) by (simpl; lia).
  replace (Z.pred (Z.of_nat (length (c :: clocks)))) with (Z.of_nat (length clocks)) by (simpl; lia).
  rewrite fmap_cons. cbn [serve]. unfold ratelimiter_from, entry_from, get_remaining, deduct.
  rewrite Hm. cbn [default used reset from_option id].
  replace (t0 + WINDOW <? t_remaining c) with false by lia.
  replace (n <=? limit) with true by lia.
  destruct (limit - n =? 0) eqn:E0.
  - (* exhausted: nothing changes from here on *)
    destruct (IH map_ n Hn Hm) as (map' & rs & -> & Ers); [intros; apply Ht; by right|].
    eexists _, _. split; [done|]. rewrite fmap_cons, Ers. simpl.
    replace (n <? limit) with false by lia. f_equal.
    apply list_eq_same_length with (length clocks);
      rewrite ?length_fmap, ?length_seqZ; [lia | lia|].
    intros i x y Hi Hx Hy. rewrite list_lookup_fmap in Hx. rewrite list_lookup_fmap in Hy.
    apply fmap_Some in Hx as (a & Ha & ->), Hy as (b & Hb & ->).
    apply lookup_seqZ in Ha as [-> _], Hb as [-> _].
    replace (n + Z.of_nat i <? limit) with false by lia.
    destruct (Z.ltb_spec (Z.succ n + Z.of_nat i) limit) as [Hlt|]; [|done].
    apply Z.eqb_eq in E0. exfalso. lia.
  - replace (t0 + WINDOW <? t_deduct c) with false by lia.
    replace (n + 1 <=? u32_max) with true by (unfold is_u32 in *; lia).
    destruct (IH (<[key := mkEntry (n + 1) (t0 + WINDOW)]> map_) (n + 1)) as (map' & rs & -> & Ers);
      [lia | apply lookup_insert_eq | intros; apply Ht; by right |].
    eexists _, _. split; [done|]. rewrite fmap_cons, Ers. simpl.
    replace (n <? limit) with true by lia. done.
Qed.

(** A window admits exactly its limit: of any run of requests to a bucket
    whose readings all fall in the window the first one opened, the first
    [limit] are let through, counting down the remaining units to zero, and
    every later one is refused. *)
Theorem window_admits_exactly_limit (map_ : Buckets) (key limit t0 : Z) (clocks : list Clock) :
  is_u32 limit -> map_ !! key = None ->
  (forall c, c ∈ clocks -> t_from c = t0 /\ t_remaining c <= t0 + WINDOW /\
     t_deduct c <= t0 + WINDOW) ->
  exists map' rs, serve map_ key limit clocks = Some (map', rs) /\
    admitted <$> rs =
      (fun i => if i <? limit then Some (limit - i - 1) else None) <$>
        seqZ 0 (Z.of_nat (length clocks)).
Proof.
  intros Hl Hn Ht.
  (* a missing bucket behaves as the fresh one it would be replaced by *)
  assert (forall l map_, map_ !! key = None ->
    (forall c, c ∈ l -> t_from c = t0) ->
    (snd <$> serve map_ key limit l) =
    (snd <$> serve (<[key := mkEntry 0 (t0 + WINDOW)]> map_) key limit l)) as Hfresh.
  { clear - Hl. induction l as [|c l IH]; intros map_ Hn Hc; [done|].
    assert (entry_from map_ key (t_from c) =
            entry_from (<[key := mkEntry 0 (t0 + WINDOW)]> map_) key (t_from c)) as Ee.
    { unfold entry_from. rewrite Hn, lookup_insert_eq. simpl. by rewrite (Hc c) by left. }
    cbn [serve]. unfold ratelimiter_from. rewrite Ee.
    destruct (get_remaining _ limit _) as [rem|]; [|done].
    destruct (rem =? 0).
    - specialize (IH map_ Hn ltac:(intros; apply Hc; by right)).
      destruct (serve map_ key limit l) as [[? ?]|], (serve (<[key:=_]> map_) key limit l)
        as [[? ?]|]; simplify_eq/=; done.
    - destruct (deduct _ _ _); [|done]. by rewrite insert_insert_eq. }
  destruct (serve_window key limit t0 Hl clocks (<[key := mkEntry 0 (t0 + WINDOW)]> map_) 0)
    as (map' & rs & E & Ers); [unfold is_u32 in *; lia | apply lookup_insert_eq | |].
  { intros c Hc. destruct (Ht c Hc) as (_ & ? & ?). done. }
  specialize (Hfresh clocks map_ Hn ltac:(intros c Hc; by destruct (Ht c Hc))).
  rewrite E in Hfresh. destruct (serve map_ key limit clocks) as [[m rs']|]; [|done].
  injection Hfresh as ->. eexists _, _. done.
Qed.

Lemma window_admits_exactly_limit_witness :
  exists map' rs, serve ∅ 7 2 [sample_clock 0; mkClock 0 3 3 3 3 3; mkClock 0 9 9 9 9 9]
    = Some (map', rs) /\ admitted <$> rs = [Some 1; Some 0; None].
Proof.
  destruct (window_admits_exactly_limit ∅ 7 2 0
    [sample_clock 0; mkClock 0 3 3 3 3 3; mkClock 0 9 9 9 9 9]) as (map' & rs & E & Ers).
  - vm_compute. split; discriminate.
  - reflexivity.
  - intros c Hin. repeat (apply elem_of_cons in Hin as [->|Hin];
      [vm_compute; repeat split; discriminate|]). by apply not_elem_of_nil in Hin.
  - exists map', rs. split; [exact E | exact Ers].
Defined.
