(* ===== verification/Presence.v ===== *)
(** * User presence (crates/core/presence)

    Sessions of a user, the set of online users and the sessions of a region,
    kept in Redis.  Redis is a service: the class [Redis] lists the commands
    the code sends, [LawfulRedis] what it relies on (a set command acts on the
    set stored under its key, a key exists while its set is non-empty), and
    the map of sets discharges it.  A failed connection is an argument;
    commands on an open connection succeed.  An operation sends several
    commands and is one step here, so the invariants are about operations
    that do not overlap; [reconnect_while_closing] shows an overlap that
    breaks them. *)

From stdpp Require Import base numbers list gmap strings pretty.
From S2P Require Import Prelude Text.
Open Scope Z_scope.

(** ** The service *)

Class Redis (S : Type) := {
  sadd : string -> string -> S -> S;
  srem : string -> string -> S -> S;
  del : string -> S -> S;
  scard : S -> string -> Z;
  key_exists : S -> string -> bool;
  smembers : S -> string -> list string;
  smismember : S -> string -> list string -> list bool;
}.

Class LawfulRedis (S : Type) `{Redis S} := {
  members : S -> string -> gset string;
  members_sadd : forall k v s k', members (sadd k v s) k' =
    if bool_decide (k' = k) then {[v]} ∪ members s k else members s k';
  members_srem : forall k v s k', members (srem k v s) k' =
    if bool_decide (k' = k) then members s k ∖ {[v]} else members s k';
  members_del : forall k s k', members (del k s) k' =
    if bool_decide (k' = k) then ∅ else members s k';
  scard_members : forall s k, scard s k = Z.of_nat (size (members s k));
  exists_members : forall s k, key_exists s k = bool_decide (members s k <> ∅);
  smembers_members : forall s k, smembers s k ≡ₚ elements (members s k);
  smismember_members : forall s k vs, smismember s k vs = (fun v => bool_decide (v ∈ members s k)) <$> vs;
}.

(** ** Session ids *)

Definition ONLINE_SET : string := "online".
Definition FLAG_BITS : Z := 1.

(** [(rng.gen::<u32>() & !FLAG_BITS) | (flags as u32 & FLAG_BITS)] *)
Definition session_id (random flags : Z) : Z :=
  Z.lor (Z.land random (Z.land (Z.lnot FLAG_BITS) u32_max)) (Z.land flags FLAG_BITS).

(** [format!("{user_id}:{session_id}")] *)
Definition region_member (user_id : string) (session : Z) : string :=
  user_id +:+ ":" +:+ pretty session.

(** [str::split(':')] *)
Definition colon : Ascii.ascii := Ascii.ascii_of_nat 58.

Definition split_colon (s : string) : string * list string := split_on colon s.

(** [str::parse::<u32>]: an optional plus sign and decimal digits, in range *)
Definition parse_u32 (s : string) : option Z :=
  let digits := match s with
                | String c s' => if (Ascii.nat_of_ascii c =? 43)%nat then s' else s
                | EmptyString => s
                end in
  if str_eqb digits "" then None
  else match parse_digits 0 digits with
       | Some n => if n <=? u32_max then Some n else None
       | None => None
       end.

(** ** Operations *)

Section Ops.
Context {S : Type} `{Redis S}.
Context (REGION_KEY : string).

Definition create_session (connected : bool) (random : Z) (user_id : string) (flags : Z) (s : S)
    : (bool * Z) * S :=
  if connected then
    let was_empty := scard s user_id =? 0 in
    let id := session_id random flags in
    let s := sadd user_id (pretty id) s in
    let s := sadd ONLINE_SET user_id s in
    let s := sadd REGION_KEY (region_member user_id id) s in
    ((was_empty, id), s)
  else ((false, 0), s).

Definition delete_session_internal (connected : bool) (user_id : string) (session : Z)
    (skip_region : bool) (s : S) : bool * S :=
  if connected then
    let s := srem user_id (pretty session) s in
    let s := if skip_region then s else srem REGION_KEY (region_member user_id session) s in
    let is_empty := scard s user_id =? 0 in
    (is_empty, if is_empty then srem ONLINE_SET user_id s else s)
  else (false, s).

Definition delete_session (connected : bool) (user_id : string) (session : Z) (s : S) : bool * S :=
  delete_session_internal connected user_id session false s.

Definition is_online (connected : bool) (s : S) (user_id : string) : bool :=
  connected && key_exists s user_id.

(** [online_from_flags]; [None] is a Redis error *)
Definition online_from_flags (user_ids : list string) (res : option (list bool)) : gset string :=
  match res with
  | Some data => list_to_set ((List.filter snd (zip user_ids data)).*1)
  | None => ∅
  end.

(** [filter_online] with the feature [redis-is-patched] *)
Definition filter_online_patched (connected : bool) (s : S) (user_ids : list string)
    : gset string :=
  match user_ids with
  | [] => ∅
  | [user_id] => if is_online connected s user_id then {[user_id]} else ∅
  | _ =>
      if connected then online_from_flags user_ids (Some (smismember s ONLINE_SET user_ids))
      else ∅
  end.

(** [filter_online] without it *)
Definition filter_online (connected : bool) (s : S) (user_ids : list string) : gset string :=
  match user_ids with
  | [] => ∅
  | _ => if connected then list_to_set (smembers s ONLINE_SET) ∩ list_to_set user_ids else ∅
  end.

(** One round of the loop of [clear_region] *)
Definition clear_one (session : string) (s : S) : S :=
  match split_colon session with
  | (user_id, id :: _) =>
      match parse_u32 id with
      | Some id => (delete_session_internal true user_id id true s).2
      | None => s
      end
  | (_, []) => s
  end.

Definition clear_region (region_id : option string) (s : S) : S :=
  let region_id := default REGION_KEY region_id in
  match smembers s region_id with
  | [] => s
  | sessions => del region_id (foldl (fun s session => clear_one session s) s sessions)
  end.
End Ops.

(** The map of sets is a lawful service. *)
Abbreviation SetStore := (gmap string (gset string)).

Definition store_get (s : SetStore) (k : string) : gset string := default ∅ (s !! k).

#[export] Instance set_store_redis : Redis SetStore := {|
  sadd k v s := <[k := {[v]} ∪ store_get s k]> s;
  srem k v s := <[k := store_get s k ∖ {[v]}]> s;
  del k s := delete k s;
  scard s k := Z.of_nat (size (store_get s k));
  key_exists s k := bool_decide (store_get s k <> ∅);
  smembers s k := elements (store_get s k);
  smismember s k vs := (fun v => bool_decide (v ∈ store_get s k)) <$> vs;
|}.

#[export] Instance set_store_lawful : LawfulRedis SetStore.
Proof.
  refine {| members := store_get |}; try done; intros; unfold store_get at 1;
    cbn [sadd srem del set_store_redis].
  - rewrite lookup_insert. case_bool_decide; case_decide; subst; try done.
  - rewrite lookup_insert. case_bool_decide; case_decide; subst; try done.
  - case_bool_decide; [subst; by rewrite lookup_delete_eq | by rewrite lookup_delete_ne].
Defined.

(** ** Session ids: round trips *)

(** Printing a [u32] and parsing it gives it back. *)
Lemma parse_u32_pretty z : is_u32 z -> parse_u32 (pretty z) = Some z.
Proof.
  intros Hz. unfold parse_u32.
  destruct (pretty_digit_head z) as (c & s & E & Hd); [unfold is_u32 in Hz; lia|].
  assert (parse_digits 0 (pretty z) = Some z) as Ep by (apply parse_digits_pretty; unfold is_u32 in Hz; lia).
  rewrite E in *.
  assert ((Ascii.nat_of_ascii c =? 43)%nat = false) as ->.
  { apply Nat.eqb_neq. intros H43. unfold digit_value in Hd. rewrite H43 in Hd. done. }
  simpl str_eqb. rewrite Ep. unfold is_u32 in Hz. by replace (z <=? u32_max) with true by lia.
Qed.

Lemma split_colon_app u v :
  contains_char colon u = false -> contains_char colon v = false ->
  split_colon (u +:+ String colon v) = (u, [v]).
Proof. intros Hu Hv. unfold split_colon. rewrite split_on_app by done. by rewrite split_on_none. Qed.

(** ** Consistency *)

(** User ids share Redis's key space with the online set and the regions; a
    user id is none of those keys and has no colon. *)
Definition valid_user (u : string) : Prop :=
  u <> ONLINE_SET /\ starts_with "region" u = false /\ contains_char colon u = false.

Definition is_region (key : string) : Prop := starts_with "region" key = true.

Section Consistent.
Context {S : Type} `{LawfulRedis S}.

(** The online set holds exactly the users with a session. *)
Definition consistent (s : S) : Prop :=
  forall u, valid_user u -> (u ∈ members s ONLINE_SET <-> members s u <> ∅).

Lemma user_not_online u : valid_user u -> u <> ONLINE_SET.
Proof. by intros []. Qed.

Lemma user_not_region u r : valid_user u -> is_region r -> u <> r.
Proof. intros (_ & Hu & _) Hr ->. unfold is_region in Hr. congruence. Qed.

Lemma online_not_region r : is_region r -> ONLINE_SET <> r.
Proof. intros Hr <-. done. Qed.

Lemma scard_zero s k : (scard s k =? 0) = bool_decide (members s k = ∅).
Proof.
  rewrite scard_members. case_bool_decide as E.
  - rewrite E, size_empty. done.
  - apply Z.eqb_neq. intros Hz. apply E. apply leibniz_equiv, size_empty_iff. lia.
Qed.

(** What a deletion leaves in every key. *)
Lemma delete_members region u id skip s k :
  valid_user u -> is_region region ->
  members (delete_session_internal region true u id skip s).2 k =
    if bool_decide (k = u) then members s u ∖ {[pretty id]}
    else if bool_decide (k = ONLINE_SET)
    then (if bool_decide (members s u ∖ {[pretty id]} = ∅)
          then members s ONLINE_SET ∖ {[u]} else members s ONLINE_SET)
    else if bool_decide (k = region) && negb skip
    then members s region ∖ {[region_member u id]} else members s k.
Proof.
  intros Hu Hr. pose proof (user_not_online u Hu). pose proof (user_not_region u region Hu Hr).
  pose proof (online_not_region region Hr).
  unfold delete_session_internal. cbv zeta. cbn [snd].
  assert (members (if skip then srem u (pretty id) s
                   else srem region (region_member u id) (srem u (pretty id) s)) u =
          members s u ∖ {[pretty id]}) as Eu.
  { destruct skip; rewrite !members_srem; repeat case_bool_decide; congruence. }
  rewrite scard_zero, Eu.
  destruct skip; repeat case_bool_decide; simpl; subst; try done;
    rewrite ?members_srem; repeat (rewrite ?bool_decide_true, ?bool_decide_false by congruence);
    repeat case_bool_decide; simplify_eq; try done; by rewrite ?andb_false_r.
Qed.

(** What a new session adds to every key. *)
Lemma create_members region random u flags s k :
  valid_user u -> is_region region ->
  members (create_session region true random u flags s).2 k =
    if bool_decide (k = u) then {[pretty (session_id random flags)]} ∪ members s u
    else if bool_decide (k = ONLINE_SET) then {[u]} ∪ members s ONLINE_SET
    else if bool_decide (k = region)
    then {[region_member u (session_id random flags)]} ∪ members s region
    else members s k.
Proof.
  intros Hu Hr. pose proof (user_not_online u Hu). pose proof (user_not_region u region Hu Hr).
  pose proof (online_not_region region Hr).
  unfold create_session. cbv zeta. cbn [snd]. rewrite !members_sadd.
  repeat case_bool_decide; simplify_eq; done.
Qed.

Lemma create_consistent region random u flags s :
  valid_user u -> is_region region -> consistent s ->
  consistent (create_session region true random u flags s).2.
Proof.
  intros Hu Hr Hc v Hv. rewrite !create_members by done.
  pose proof (user_not_online v Hv). pose proof (user_not_online u Hu).
  pose proof (user_not_region v region Hv Hr). pose proof (online_not_region region Hr).
  rewrite (bool_decide_false (ONLINE_SET = u)) by congruence.
  rewrite (bool_decide_true (ONLINE_SET = ONLINE_SET)) by done.
  rewrite (bool_decide_false (v = ONLINE_SET)), (bool_decide_false (v = region)) by done.
  case_bool_decide; [subst; set_solver|]. rewrite <- (Hc v Hv). set_solver.
Qed.

Lemma delete_consistent region u id skip s :
  valid_user u -> is_region region -> consistent s ->
  consistent (delete_session_internal region true u id skip s).2.
Proof.
  intros Hu Hr Hc v Hv. rewrite !delete_members by done.
  pose proof (user_not_online v Hv). pose proof (user_not_online u Hu).
  pose proof (user_not_region v region Hv Hr).
  rewrite (bool_decide_false (ONLINE_SET = u)) by congruence.
  rewrite (bool_decide_true (ONLINE_SET = ONLINE_SET)) by done.
  rewrite (bool_decide_false (v = ONLINE_SET)), (bool_decide_false (v = region)) by done.
  pose proof (Hc v Hv). pose proof (Hc u Hu).
  repeat case_bool_decide; subst; simpl; set_solver.
Qed.
End Consistent.

(** ** Clearing a region *)

Lemma session_id_u32 random flags : 0 <= random -> is_u32 (session_id random flags).
Proof.
  intros Hr. unfold session_id, FLAG_BITS.
  change (Z.land (Z.lnot 1) u32_max) with 4294967294.
  set (v := Z.lor _ _).
  assert (0 <= v) as Hv.
  { apply Z.lor_nonneg. split; apply Z.land_nonneg; lia. }
  assert (Z.land v (Z.ones 32) = v) as E.
  { unfold v. rewrite Z.land_lor_distr_l, <- !Z.land_assoc. done. }
  rewrite Z.land_ones in E by lia. pose proof (Z.mod_pos_bound v (2 ^ 32) ltac:(lia)) as Hb.
  rewrite E in Hb. unfold is_u32, u32_max. lia.
Qed.

(** The lowest bit of a session id is the flag it was created with. *)
Lemma session_id_flag random flags :
  Z.testbit (session_id random flags) 0 = Z.testbit flags 0.
Proof.
  unfold session_id, FLAG_BITS. change (Z.land (Z.lnot 1) u32_max) with 4294967294.
  rewrite Z.lor_spec, !Z.land_spec. simpl. by rewrite andb_false_r, andb_true_r.
Qed.

Section Clear.
Context {S : Type} `{LawfulRedis S}.

Definition region_wf (r : string) (s : S) : Prop :=
  forall x, x ∈ members s r -> exists u id, x = region_member u id /\ valid_user u /\ is_u32 id.

Lemma clear_one_wf region u id s :
  valid_user u -> is_u32 id ->
  clear_one region (region_member u id) s = (delete_session_internal region true u id true s).2.
Proof.
  intros (_ & _ & Hu) Hid. unfold clear_one, region_member.
  change (u +:+ ":" +:+ pretty id) with (u +:+ String colon (pretty id)).
  rewrite split_colon_app by (done || by apply pretty_Z_contains).
  by rewrite parse_u32_pretty.
Qed.

(** A user's sessions after clearing a list of region members, and what
    else the loop can touch. *)
Lemma clear_loop region xs : is_region region -> forall s,
  (forall x, x ∈ xs -> exists u id, x = region_member u id /\ valid_user u /\ is_u32 id) ->
  consistent s ->
  let s' := foldl (fun s x => clear_one region x s) s xs in
  consistent s' /\
  (forall u, valid_user u -> forall v, v ∈ members s' u <->
     v ∈ members s u /\ (forall id, is_u32 id -> v = pretty id -> region_member u id ∉ xs)) /\
  (forall r, is_region r -> members s' r = members s r).
Proof.
  intros Hr. induction xs as [|x xs IH]; intros s Hx Hc; simpl.
  { split_and!; [done | set_solver | done]. }
  destruct (Hx x) as (w & i & -> & Hw & Hi); [left|].
  rewrite clear_one_wf by done.
  set (s1 := (delete_session_internal region true w i true s).2).
  destruct (IH s1) as (Hc' & Hm & Hreg);
    [intros y Hy; apply Hx; by right | by apply delete_consistent |].
  split_and!; [done | |].
  - intros u Hu v. rewrite (Hm u Hu). unfold s1. rewrite delete_members by done.
    pose proof (user_not_online u Hu).
    rewrite (bool_decide_false (u = ONLINE_SET)) by done.
    rewrite andb_false_r. case_bool_decide as E; [subst w|].
    + rewrite elem_of_difference, elem_of_singleton. split.
      * intros [[Hv Hne] Hn]. split; [done|]. intros id Hid -> Hin.
        apply elem_of_cons in Hin as [Hin|Hin]; [|by eapply Hn].
        unfold region_member in Hin. apply str_app_inj_l, str_app_inj_l in Hin. done.
      * intros [Hv Hn]. split; [split; [done|]|].
        -- intros ->. eapply Hn; [exact Hi | done | left].
        -- intros id Hid Ev Hin. eapply Hn; [exact Hid | done | by right].
    + split; intros [Hv Hn]; (split; [done|]); intros id Hid Ev Hin;
        [apply elem_of_cons in Hin as [Hin|Hin]|]; [| by eapply Hn | eapply Hn; eauto; by right].
      apply E. unfold region_member in Hin. destruct Hw as (_ & _ & Hwc), Hu as (_ & _ & Huc).
      change (u +:+ String colon (pretty id) = w +:+ String colon (pretty i)) in Hin.
      apply (f_equal split_colon) in Hin.
      rewrite !split_colon_app in Hin by (done || by apply pretty_Z_contains). congruence.
  - intros r Hrr. rewrite (Hreg r Hrr). unfold s1. rewrite delete_members by done.
    pose proof (user_not_region w r Hw Hrr). pose proof (online_not_region r Hrr).
    rewrite (bool_decide_false (r = w)), (bool_decide_false (r = ONLINE_SET)) by congruence.
    by rewrite andb_false_r.
Qed.
End Clear.

Section Reach.
Context {S : Type} `{LawfulRedis S}.

(** One call of a node, whose own region is [region] *)
Inductive step : S -> S -> Prop :=
| step_create region random u flags s :
    is_region region -> valid_user u -> 0 <= random ->
    step s (create_session region true random u flags s).2
| step_delete region u id s :
    is_region region -> valid_user u -> step s (delete_session region true u id s).2
| step_clear region r s : is_region region -> is_region r -> step s (clear_region region (Some r) s).

Definition presence_wf (s : S) : Prop :=
  consistent s /\ forall r, is_region r -> region_wf r s.

Lemma clear_wf region r s :
  is_region region -> is_region r -> presence_wf s -> presence_wf (clear_region region (Some r) s).
Proof.
  intros Hreg Hr [Hc Hw]. unfold clear_region. simpl default.
  destruct (smembers s r) as [|x xs] eqn:Ex; [done|].
  assert (forall y, y ∈ x :: xs -> exists u id, y = region_member u id /\ valid_user u /\ is_u32 id)
    as Hxs.
  { intros y Hy. rewrite <- Ex, smembers_members, elem_of_elements in Hy. by apply (Hw r Hr). }
  destruct (clear_loop region (x :: xs) Hreg s Hxs Hc) as (Hc' & _ & Hm).
  split.
  - intros u Hu. rewrite !members_del. pose proof (user_not_region u r Hu Hr).
    pose proof (online_not_region r Hr). rewrite !bool_decide_false by done. by apply Hc'.
  - intros r' Hr' y. rewrite members_del. case_bool_decide; [set_solver|].
    rewrite Hm by done. by apply Hw.
Qed.

Lemma presence_step_wf s s' : step s s' -> presence_wf s -> presence_wf s'.
Proof.
  intros Hs Hwf. destruct Hs as [region random u flags s Hreg Hu Hr|region u id s Hreg Hu|];
    [| | by apply clear_wf]; destruct Hwf as [Hc Hw].
  - split; [by apply create_consistent|]. intros r Hrr x. rewrite create_members by done.
    pose proof (user_not_region u r Hu Hrr). pose proof (online_not_region r Hrr).
    rewrite (bool_decide_false (r = u)), (bool_decide_false (r = ONLINE_SET)) by congruence.
    case_bool_decide; [subst|by apply Hw].
    intros [->%elem_of_singleton|Hx]%elem_of_union; [|by apply (Hw region)].
    eexists _, _. split; [done|]. split; [done | by apply session_id_u32].
  - split; [by apply delete_consistent|]. intros r Hrr x. unfold delete_session.
    rewrite delete_members by done.
    pose proof (user_not_region u r Hu Hrr). pose proof (online_not_region r Hrr).
    rewrite (bool_decide_false (r = u)), (bool_decide_false (r = ONLINE_SET)) by congruence.
    case_bool_decide; simpl; [subst|by apply Hw].
    intros [Hx _]%elem_of_difference. by apply (Hw region).
Qed.
End Reach.

(** ** Theorems *)

Definition fresh_store : SetStore := ∅.

Lemma members_fresh k : members fresh_store k = ∅.
Proof. simpl. unfold store_get, fresh_store. by rewrite lookup_empty. Qed.

Lemma presence_wf_fresh {S} `{LawfulRedis S} (s : S) : (forall k, members s k = ∅) -> presence_wf s.
Proof.
  intros Hf. split.
  - intros u Hu. rewrite !Hf. set_solver.
  - intros r Hr x. rewrite Hf. set_solver.
Qed.

(** C39. The online set never drifts from the sessions: after any sequence of
    sessions opened, closed and regions cleared, on any nodes and one
    operation after the other, a user is in it exactly when they are online, and the two implementations of
    [filter_online] answer the same, the users of the list who are online. *)
Theorem presence_consistent {S : Type} `{LawfulRedis S} (s0 s : S) (ids : list string) :
  (forall k, members s0 k = ∅) -> rtc step s0 s -> Forall valid_user ids ->
  (forall u, u ∈ ids -> is_online true s u = bool_decide (u ∈ members s ONLINE_SET)) /\
  filter_online_patched true s ids = filter_online true s ids /\
  (forall u, u ∈ filter_online true s ids <-> u ∈ ids /\ is_online true s u = true).
Proof.
  intros Hf Hr Hids.
  assert (presence_wf s) as [Hc _]
    by (eapply rtc_invariant; [apply presence_step_wf | by apply presence_wf_fresh | done]).
  rewrite Forall_forall in Hids.
  assert (forall u, u ∈ ids -> is_online true s u = bool_decide (u ∈ members s ONLINE_SET)) as Ho.
  { intros u Hu. unfold is_online. rewrite exists_members. simpl.
    apply bool_decide_ext. symmetry. by apply Hc, Hids. }
  assert (forall u, u ∈ filter_online true s ids <-> u ∈ ids /\ u ∈ members s ONLINE_SET) as Hfo.
  { intros u. unfold filter_online. destruct ids as [|a l]; [set_solver|].
    rewrite elem_of_intersection, !elem_of_list_to_set, smembers_members, elem_of_elements.
    tauto. }
  split_and!; [done | |].
  - apply set_eq. intros u. rewrite Hfo. unfold filter_online_patched, online_from_flags.
    destruct ids as [|a [|b l]]; [set_solver | |].
    + rewrite (Ho a) by left. case_bool_decide; set_solver.
    + rewrite elem_of_list_to_set, smismember_members. generalize (a :: b :: l). clear.
      induction l as [|c l IH]; simpl; [set_solver|].
      case_bool_decide; simpl; rewrite ?elem_of_cons, IH; set_solver.
  - intros u. rewrite Hfo. split; intros [Hu Hm]; (split; [done|]); rewrite (Ho u Hu) in *;
      [by apply bool_decide_eq_true | by apply bool_decide_eq_true in Hm].
Qed.

Lemma presence_consistent_witness :
  filter_online_patched true (create_session "region0" true 8 "alice" 1 fresh_store).2
    ["alice"; "bob"]%string =
  filter_online true (create_session "region0" true 8 "alice" 1 fresh_store).2
    ["alice"; "bob"]%string.
Proof.
  apply (presence_consistent fresh_store); [exact members_fresh | |].
  - apply rtc_once. constructor; [reflexivity | repeat split; discriminate | lia].
  - repeat constructor; discriminate.
Defined.

(** Going on- and offline is reported once: opening a session says it was the
    user's first exactly when they were offline before, closing one says it
    was the last exactly when they are offline after, and the new session's
    id is a [u32] whose lowest bit is the flag asked for. *)
Theorem first_and_last_session {S : Type} `{LawfulRedis S} (region u : string)
    (random flags id : Z) (s : S) :
  is_region region -> valid_user u -> 0 <= random ->
  let '((was_empty, sid), s1) := create_session region true random u flags s in
  let '(is_empty, s2) := delete_session region true u id s in
  was_empty = negb (is_online true s u) /\ is_online true s1 u = true /\
  is_u32 sid /\ Z.testbit sid 0 = Z.testbit flags 0 /\
  is_empty = negb (is_online true s2 u) /\
  (delete_session region true u sid s1).1 = bool_decide (members s u ∖ {[pretty sid]} = ∅).
Proof.
  intros Hr Hu Hrand.
  destruct (create_session region true random u flags s) as [[we sid] s1] eqn:Ec.
  destruct (delete_session region true u id s) as [ie s2] eqn:Ed.
  assert (s1 = (create_session region true random u flags s).2) as Es1 by by rewrite Ec.
  assert (s2 = (delete_session region true u id s).2) as Es2 by by rewrite Ed.
  assert (we = (scard s u =? 0) /\ sid = session_id random flags) as [-> ->]
    by (unfold create_session in Ec; by simplify_eq).
  pose proof (create_members region random u flags s u Hu Hr) as Em.
  rewrite <- Es1, bool_decide_true in Em by done.
  unfold is_online. rewrite !exists_members, Em, scard_zero. simpl.
  split_and!.
  - repeat case_bool_decide; simpl; done.
  - apply bool_decide_eq_true. set_solver.
  - by apply session_id_u32.
  - apply session_id_flag.
  - assert (ie = bool_decide (members s u ∖ {[pretty id]} = ∅)) as ->.
    { unfold delete_session, delete_session_internal in Ed. simplify_eq. rewrite scard_zero.
      rewrite !members_srem. pose proof (user_not_region u region Hu Hr).
      rewrite !(bool_decide_false (u = region)), (bool_decide_true (u = u)) by done. done. }
    rewrite Es2. unfold delete_session. rewrite delete_members, (bool_decide_true (u = u)) by done.
    repeat case_bool_decide; simpl; done.
  - unfold delete_session, delete_session_internal. cbn [fst]. rewrite scard_zero, !members_srem.
    pose proof (user_not_region u region Hu Hr).
    rewrite !(bool_decide_false (u = region)), (bool_decide_true (u = u)) by done.
    rewrite Em. apply bool_decide_ext. set_solver.
Qed.

Lemma first_and_last_session_witness :
  (create_session "region0" true 8 "alice" 1 fresh_store).1 = (true, 9) /\
  Z.testbit 9 0 = Z.testbit 1 0.
Proof.
  pose proof (first_and_last_session "region0" "alice" 8 1 9 fresh_store) as H.
  split; [reflexivity|].
  destruct (create_session "region0" true 8 "alice" 1 fresh_store) as [[we sid] s1] eqn:E.
  assert (sid = 9) as -> by (vm_compute in E; injection E as _ <- _; reflexivity).
  destruct (delete_session "region0" true "alice" 9 fresh_store) as [ie s2].
  apply H; [reflexivity | repeat split; discriminate | lia].
Defined.

(** Clearing a region removes exactly the sessions recorded in it: of every
    user, the sessions of that region are gone and the others stay, and the
    region's record is empty afterwards, whatever the region of the node that
    clears it. *)
Theorem clear_region_removes_its_sessions {S : Type} `{LawfulRedis S}
    (s0 s : S) (region r : string) :
  (forall k, members s0 k = ∅) -> rtc step s0 s -> is_region region -> is_region r ->
  let s' := clear_region region (Some r) s in
  members s' r = ∅ /\
  forall u sid, valid_user u -> is_u32 sid ->
    (pretty sid ∈ members s' u <->
     pretty sid ∈ members s u /\ region_member u sid ∉ members s r).
Proof.
  intros Hf Hr Hreg Hrr.
  assert (presence_wf s) as [Hc Hw]
    by (eapply rtc_invariant; [apply presence_step_wf | by apply presence_wf_fresh | done]).
  unfold clear_region. simpl default.
  assert (forall y, y ∈ smembers s r <-> y ∈ members s r) as Hsm
    by (intros y; by rewrite smembers_members, elem_of_elements).
  destruct (smembers s r) as [|x xs] eqn:Ex.
  { split; [apply set_eq; intros y; rewrite <- Hsm; set_solver|].
    intros u sid _ _. rewrite <- Hsm. set_solver. }
  rewrite members_del, bool_decide_true by done. split; [done|].
  intros u sid Hu Hsid. rewrite members_del.
  pose proof (user_not_region u r Hu Hrr). rewrite bool_decide_false by done.
  destruct (clear_loop region (x :: xs) Hreg s) as (_ & Hm & _);
    [intros y Hy; apply (Hw r Hrr), Hsm, Hy | done |].
  rewrite (Hm u Hu), <- Hsm. split.
  - intros [Hv Hn]. split; [done|]. by apply Hn.
  - intros [Hv Hn]. split; [done|]. intros id Hid E. apply (inj pretty) in E as <-. done.
Qed.

Lemma clear_region_removes_its_sessions_witness :
  let s := (create_session "region1" true 4 "alice" 0
              (create_session "region0" true 8 "alice" 1 fresh_store).2).2 in
  members (clear_region "region1" (Some "region0"%string) s) "region0" = ∅.
Proof.
  cbv zeta.
  apply (clear_region_removes_its_sessions fresh_store _ "region1" "region0").
  - exact members_fresh.
  - eapply rtc_l; [|apply rtc_once]; constructor;
      first [reflexivity | repeat split; discriminate | lia].
  - reflexivity.
  - reflexivity.
Defined.

(** ** Overlapping operations *)

(** [delete_session] up to the moment it has read that no session is left,
    and the command it sends after that *)
Definition closing {S} `{Redis S} (region u : string) (id : Z) (s : S) : S :=
  srem region (region_member u id) (srem u (pretty id) s).

Definition gone {S} `{Redis S} (u : string) (s : S) : S := srem ONLINE_SET u s.

Lemma delete_session_halves {S} `{Redis S} (region u : string) (id : Z) (s : S) :
  scard (closing region u id s) u = 0 ->
  delete_session region true u id s = (true, gone u (closing region u id s)).
Proof. unfold delete_session, delete_session_internal, closing. by intros ->. Qed.

(** A user whose last session closes while a new one opens can be left out of
    the online set for the whole of the new session: the size of the session
    set is read before the new session is added, and the user is taken out of
    the online set after. *)
Theorem reconnect_while_closing :
  let s1 := (create_session "region0" true 8 "alice" 0 fresh_store).2 in
  let s2 := closing "region0" "alice" 8 s1 in
  let s3 := (create_session "region0" true 4 "alice" 0 s2).2 in
  let s4 := gone "alice" s3 in
  delete_session "region0" true "alice" 8 s1 = (true, gone "alice" s2) /\
  is_online true s4 "alice" = true /\
  filter_online true s4 ["alice"%string] = ∅ /\
  filter_online_patched true s4 ["alice"; "bob"]%string = ∅.
Proof.
  cbv zeta. split; [by apply delete_session_halves|]. split_and!; vm_compute; reflexivity.
Qed.
