(* ===== verification/Coalesced.v ===== *)
(** * Coalescing of concurrent work (crates/core/coalesced)

    [CoalescionService::execute] as a step relation: every lock is taken and
    released on its own, so other tasks run between the steps of one call.
    The state is the map of running keys, the queue (an insertion-ordered
    map) and the phase of every call.  The values computed and the watch
    channels that carry them are left out, so a waiting call may end at any
    step; so are the cancellation of calls and the optional cache. *)

From stdpp Require Import base numbers list gmap strings.
From S2P Require Import Prelude.
Open Scope Z_scope.

Module Error.
Inductive t : Type := RecvError | MaxConcurrent | MaxQueue | DowncastError.
End Error.

Record CoalescionServiceConfig : Type := mkConfig {
  max_concurrent : option nat;
  queue_requests : bool;
  max_queue : option nat;
}.

Definition default_config : CoalescionServiceConfig := mkConfig (Some 100%nat) true (Some 100%nat).

(** Where a call of [execute] stands *)
Inductive Phase : Type :=
| Start                  (* before the first read of the watchers *)
| CheckQueue             (* at the limit, before the read of the queue *)
| Enqueue                (* before the key is put into the queue *)
| Polling                (* in the loop, before the read of the watchers *)
| PollHead               (* a place is free, before the read of the queue *)
| Dequeue                (* the key is first, before it leaves the queue *)
| Insert                 (* before the key is put into the watchers *)
| Running                (* the function runs *)
| Waiting                (* another call computes the value *)
| Finished (r : result Error.t unit).

Record Service : Type := mkService {
  watchers : gset string;
  queue : list string;
  calls : gmap nat (string * Phase);
}.

Definition idle : Service := mkService ∅ [] ∅.

(** [length >= max_concurrent] *)
Definition at_limit (cfg : CoalescionServiceConfig) (length : nat) : bool :=
  match max_concurrent cfg with Some max => (max <=? length)%nat | None => false end.

(** The first read: the key's watcher, else the limit *)
Definition after_start (cfg : CoalescionServiceConfig) (w : gset string) (key : string) : Phase :=
  if bool_decide (key ∈ w) then Waiting
  else if at_limit cfg (size w) then
    if queue_requests cfg then CheckQueue else Finished (Err Error.MaxConcurrent)
  else Insert.

(** The read of the queue: the key's entry, else the [max_queue] test *)
Definition after_queue (cfg : CoalescionServiceConfig) (q : list string) (key : string) : Phase :=
  if bool_decide (key ∈ q) then Waiting
  else if match max_queue cfg with Some max => (length q <=? max)%nat | None => false end
  then Finished (Err Error.MaxQueue)
  else Enqueue.

(** [IndexMap::insert]: a key already present keeps its place *)
Definition index_insert (key : string) (q : list string) : list string :=
  if bool_decide (key ∈ q) then q else q ++ [key].

(** One step of one call *)
Definition advance (cfg : CoalescionServiceConfig) (s : Service) (key : string) (p : Phase)
    : gset string * list string * Phase :=
  match p with
  | Start => (watchers s, queue s, after_start cfg (watchers s) key)
  | CheckQueue => (watchers s, queue s, after_queue cfg (queue s) key)
  | Enqueue => (watchers s, index_insert key (queue s), Polling)
  | Polling =>
      (watchers s, queue s, if at_limit cfg (size (watchers s)) then Polling else PollHead)
  | PollHead =>
      (watchers s, queue s, if bool_decide (head (queue s) = Some key) then Dequeue else Polling)
  | Dequeue => (watchers s, List.filter (fun k => negb (str_eqb k key)) (queue s), Insert)
  | Insert => ({[key]} ∪ watchers s, queue s, Running)
  | Running => (watchers s ∖ {[key]}, queue s, Finished (Ok tt))
  | Waiting => (watchers s, queue s, Finished (Ok tt))
  | Finished r => (watchers s, queue s, Finished r)
  end.

Inductive step (cfg : CoalescionServiceConfig) : Service -> Service -> Prop :=
| step_call s n key :
    calls s !! n = None ->
    step cfg s (mkService (watchers s) (queue s) (<[n := (key, Start)]> (calls s)))
| step_advance s n key p :
    calls s !! n = Some (key, p) ->
    step cfg s (let '(w, q, p') := advance cfg s key p in
                mkService w q (<[n := (key, p')]> (calls s))).

(** ** Theorems *)

(** No call that keeps the queue bound in mind is ever past it. *)
Definition never_queued (s : Service) : Prop :=
  queue s = [] /\ forall n key, calls s !! n <> Some (key, Enqueue).

Lemma after_queue_empty cfg key :
  is_Some (max_queue cfg) -> after_queue cfg [] key = Finished (Err Error.MaxQueue).
Proof. intros [m Hm]. unfold after_queue. rewrite Hm. by rewrite bool_decide_false by set_solver. Qed.

Lemma never_queued_step cfg s s' :
  is_Some (max_queue cfg) -> step cfg s s' -> never_queued s -> never_queued s'.
Proof.
  intros Hm Hs [Hq He]. destruct Hs as [s n key Hn|s n key p Hp].
  - split; [done|]. intros n' key'. cbn [calls]. rewrite lookup_insert.
    case_decide; [congruence | apply He].
  - assert (p <> Enqueue) as Hne by (intros ->; by eapply He).
    assert (exists w p', advance cfg s key p = (w, [], p') /\ p' <> Enqueue) as (w & p' & -> & Hp').
    { destruct p; try done; cbn [advance]; rewrite ?Hq; try (by eexists _, _).
      - eexists _, _. split; [done|]. unfold after_start. by repeat case_match.
      - rewrite after_queue_empty by done. by eexists _, _.
      - eexists _, _. split; [done|]. by case_match. }
    split; [done|]. intros n' key'. cbn [calls]. rewrite lookup_insert.
    case_decide; [congruence | apply He].
Qed.

(** The queue is never used when it has a bound: [max_queue >= length] refuses
    every call while the queue is at or below the bound, so it stays empty
    for good, and under the default configuration a call that finds the
    service busy is always refused, however empty the queue is. *)
Theorem bounded_queue_never_used (cfg : CoalescionServiceConfig) (s : Service) (key : string) :
  is_Some (max_queue cfg) -> rtc (step cfg) idle s ->
  queue s = [] /\
  after_queue cfg (queue s) key = Finished (Err Error.MaxQueue).
Proof.
  intros Hm Hr.
  assert (never_queued s) as [Hq _].
  { eapply rtc_invariant; [intros ? ?; by apply never_queued_step | | done].
    split; [done|]. intros n k. cbn [calls idle]. by rewrite lookup_empty. }
  rewrite Hq. split; [done | by apply after_queue_empty].
Qed.

Lemma bounded_queue_never_used_witness :
  exists s, rtc (step default_config) idle s /\ s <> idle /\
    after_queue default_config (queue s) "b" = Finished (Err Error.MaxQueue).
Proof.
  assert (rtc (step default_config) idle (mkService ∅ [] {[ 0%nat := ("a"%string, Start) ]})) as Hr.
  { apply rtc_once. apply (step_call default_config idle 0 "a"). reflexivity. }
  eexists. split; [exact Hr|]. split; [discriminate|].
  destruct (bounded_queue_never_used default_config _ "b" ltac:(by eexists) Hr) as [_ H]. exact H.
Defined.

(** The queue lists every key once, whatever the interleaving. *)
Theorem queue_keys_once (cfg : CoalescionServiceConfig) (s : Service) :
  rtc (step cfg) idle s -> NoDup (queue s).
Proof.
  apply (rtc_invariant (step cfg) (fun s => NoDup (queue s))); [|constructor].
  intros a b Hs Ha. destruct Hs as [a n k Hn|a n k p Hp]; [done|].
  destruct p; cbn [advance queue]; try done.
  - unfold index_insert. case_bool_decide; [done|].
    apply NoDup_app. split_and!; [done | set_solver | apply NoDup_singleton].
  - apply NoDup_ListNoDup, List.NoDup_filter. by apply NoDup_ListNoDup.
Qed.

(** Without a bound the queue works: a call that finds the only place taken
    is queued, and runs once the place is free. *)
Example unbounded_queue_admits :
  let cfg := mkConfig (Some 1%nat) true None in
  exists s1 s2, rtc (step cfg) idle s1 /\ queue s1 = ["b"%string] /\
    calls s1 !! 1%nat = Some ("b"%string, Polling) /\
    rtc (step cfg) s1 s2 /\ queue s2 = [] /\ calls s2 !! 1%nat = Some ("b"%string, Running).
Proof.
  cbv zeta. set (cfg := mkConfig (Some 1%nat) true None). eexists _, _. split.
  { eapply rtc_l; [apply (step_call cfg _ 0 "a"); reflexivity|].
    eapply rtc_l; [apply (step_call cfg _ 1 "b"); reflexivity|].
    eapply rtc_l; [apply (step_advance cfg _ 0 "a" Start); reflexivity|].
    eapply rtc_l; [apply (step_advance cfg _ 0 "a" Insert); reflexivity|].
    eapply rtc_l; [apply (step_advance cfg _ 1 "b" Start); reflexivity|].
    eapply rtc_l; [apply (step_advance cfg _ 1 "b" CheckQueue); reflexivity|].
    apply rtc_once, (step_advance cfg _ 1 "b" Enqueue). reflexivity. }
  split; [vm_compute; reflexivity|]. split; [vm_compute; reflexivity|]. split.
  { eapply rtc_l; [apply (step_advance cfg _ 0 "a" Running); reflexivity|].
    eapply rtc_l; [apply (step_advance cfg _ 1 "b" Polling); reflexivity|].
    eapply rtc_l; [apply (step_advance cfg _ 1 "b" PollHead); reflexivity|].
    eapply rtc_l; [apply (step_advance cfg _ 1 "b" Dequeue); reflexivity|].
    apply rtc_once, (step_advance cfg _ 1 "b" Insert). reflexivity. }
  split; vm_compute; reflexivity.
Qed.

(** Two calls with one key that both look before either inserts both run the
    function, and the concurrency limit is passed the same way: the read of
    the watchers and the insert are separate steps. *)
Theorem check_then_insert_race :
  exists s, rtc (step (mkConfig (Some 1%nat) false None)) idle s /\
    calls s !! 0%nat = Some ("a"%string, Running) /\
    calls s !! 1%nat = Some ("a"%string, Running) /\
    calls s !! 2%nat = Some ("b"%string, Running) /\
    size (watchers s) = 2%nat.
Proof.
  set (cfg := mkConfig (Some 1%nat) false None).
  eexists. split.
  { eapply rtc_l; [apply (step_call cfg _ 0 "a"); reflexivity|].
    eapply rtc_l; [apply (step_call cfg _ 1 "a"); reflexivity|].
    eapply rtc_l; [apply (step_call cfg _ 2 "b"); reflexivity|].
    eapply rtc_l; [apply (step_advance cfg _ 0 "a" Start); reflexivity|].
    eapply rtc_l; [apply (step_advance cfg _ 1 "a" Start); reflexivity|].
    eapply rtc_l; [apply (step_advance cfg _ 2 "b" Start); reflexivity|].
    eapply rtc_l; [apply (step_advance cfg _ 0 "a" Insert); reflexivity|].
    eapply rtc_l; [apply (step_advance cfg _ 1 "a" Insert); reflexivity|].
    apply rtc_once. apply (step_advance cfg _ 2 "b" Insert). reflexivity. }
  split_and!; vm_compute; reflexivity.
Qed.
