(* ===== verification/CalendarTime.v ===== *)
(** * Occurrences of calendar events
      (crates/core/database/src/models/calendar_events/model.rs)

    A series repeats a wall-clock time of a time zone every so many days,
    weeks or months; its occurrences are instants.  The calendar and the time
    zones are those of the [chrono] and [chrono_tz] crates: [Chrono] names the
    functions the engine calls and [ChronoLaws] what it relies on.  The
    engine's loops are translated with fuel, a panic or exhausted fuel is
    [None], and the theorems say when there is an answer and that cutting a
    series off at an instant loses nothing before it. *)

From stdpp Require Import base numbers list gmap strings sorting.
From S2P Require Import Prelude Text Errors.
Open Scope Z_scope.
Open Scope sloga_scope.

Definition MAX_OCCURRENCES : Z := 730.

Module Frequency.
Inductive t : Type := Daily | Weekly | Monthly.
End Frequency.

Module Weekday.
Inductive t : Type := Monday | Tuesday | Wednesday | Thursday | Friday | Saturday | Sunday.

Definition num_from_monday (w : t) : Z :=
  match w with
  | Monday => 0
  | Tuesday => 1
  | Wednesday => 2
  | Thursday => 3
  | Friday => 4
  | Saturday => 5
  | Sunday => 6
  end.
End Weekday.

Module RecurrenceEnd.
Inductive t : Type :=
| Count (count : Z)                    (* u16 *)
| Until (timestamp : Z).
End RecurrenceEnd.

Record RecurrenceRule : Type := mkRule {
  rr_freq : Frequency.t;
  rr_interval : Z;                     (* u16 *)
  rr_by_weekday : list Weekday.t;
  rr_end : RecurrenceEnd.t;
  rr_exceptions : list Z;
}.

(** ** The calendar and the time zones *)

Definition hour_ms : Z := 3600000.
Definition day_ms : Z := 86400000.

(** [DateTime<Tz>] *)
Record Zoned : Type := mkZoned {
  timestamp_millis : Z;
  offset : Z;                          (* local time less UTC, in milliseconds *)
}.

(** [LocalResult<DateTime<Tz>>] *)
Module LocalResult.
Inductive t : Type :=
| Single (dt : Zoned)
| Ambiguous (earliest latest : Zoned)
| None.
End LocalResult.

(** The functions of [chrono] and [chrono_tz] the engine calls.  Every local
    time here is a whole number of milliseconds. *)
Class Chrono : Type := {
  Tz : Type;
  NaiveDate : Type;
  NaiveTime : Type;
  NaiveDateTime : Type;
  parse_tz : string -> option Tz;                         (* [str::parse::<Tz>] *)
  UTC : Tz;
  timestamp_in_range : Z -> bool;                         (* [Utc.timestamp_millis_opt(ms)] is a time *)
  naive_local : Tz -> Z -> option NaiveDateTime;          (* [.with_timezone(tz).naive_local()]; None panics *)
  local_weekday : Tz -> Z -> Z;                           (* [.with_timezone(tz).weekday()], from Monday *)
  from_local_datetime : Tz -> NaiveDateTime -> LocalResult.t;
  fixed_from_local : Z -> NaiveDateTime -> option Z;      (* of a [FixedOffset]: [.single()] in milliseconds *)
  utc_millis : NaiveDateTime -> Z;                        (* [Utc.from_utc_datetime(..).timestamp_millis()] *)
  sub_hours : NaiveDateTime -> Z -> option NaiveDateTime; (* [- Duration::hours(..)]; None panics *)
  checked_add_days : NaiveDateTime -> Z -> option NaiveDateTime;
  naive_ltb : NaiveDateTime -> NaiveDateTime -> bool;
  date : NaiveDateTime -> NaiveDate;
  time : NaiveDateTime -> NaiveTime;
  and_time : NaiveDate -> NaiveTime -> NaiveDateTime;
  date_sub_days : NaiveDate -> Z -> option NaiveDate;     (* [- Duration::days(..)]; None panics *)
  weekday : NaiveDate -> Z;                               (* [.weekday().num_days_from_monday()] *)
  year : NaiveDate -> Z;
  month0 : NaiveDate -> Z;
  day : NaiveDate -> Z;
  from_ymd_opt : Z -> Z -> Z -> option NaiveDate;
  pred_opt : NaiveDate -> option NaiveDate;
}.

Module FileUsedForType.
Inductive t : Type :=
| Message | ServerBanner | Emoji | Sticker | SoundboardSound | UserAvatar | WebhookAvatar
| UserProfileBackground | LegacyGroupIcon | ChannelIcon | ServerIcon | RoleIcon | CalendarEvent | UserBadge.
End FileUsedForType.

Record FileUsedFor : Type := mkUsedFor { uf_object_type : FileUsedForType.t; uf_id : string }.

(** The fields of a file that are read or written here *)
Record File : Type := mkFile {
  file_id : string;
  file_tag : string;
  file_uploader_id : option string;
  file_used_for : option FileUsedFor;
  file_deleted : option bool;
}.

Record CalendarEvent : Type := mkEvent {
  ce_id : string;
  ce_server : string;
  ce_channel : option string;
  ce_creator : string;
  ce_title : string;
  ce_description : option string;
  ce_location : option string;
  ce_start : Z;
  ce_end : option Z;
  ce_duration_ms : Z;
  ce_series_end : Z;
  ce_all_day : bool;
  ce_timezone : string;
  ce_recurrence : option RecurrenceRule;
  ce_color : option string;
  ce_cancelled : bool;
  ce_source_message_id : option string;
  ce_attachments : option (list File);
  ce_created_at : Z;
  ce_edited_at : option Z;
}.

(** Each iteration that does not leave a loop adds an occurrence, or looks at
    the next of [MAX_OCCURRENCES + 1] weeks. *)
Definition loop_fuel : nat := 732.

Lemma loop_fuel_eq : Z.of_nat loop_fuel = 732.
Proof. reflexivity. Qed.

Ltac fuel_enough := rewrite ?loop_fuel_eq; unfold MAX_OCCURRENCES in *; cbn [length Z.of_nat];
  first [lia | pose proof loop_fuel_eq; lia].

Section Engine.
Context `{Chrono}.

Definition ms_to_utc (ms : Z) : Z := if timestamp_in_range ms then ms else 0.

Definition local_to_utc_ms (tz : Tz) (naive : NaiveDateTime) : option Z :=
  match from_local_datetime tz naive with
  | LocalResult.Single dt => Some (timestamp_millis dt)
  | LocalResult.Ambiguous earliest _ => Some (timestamp_millis earliest)
  | LocalResult.None =>
      match sub_hours naive 3 with
      | None => None
      | Some before =>
          match from_local_datetime tz before with
          | LocalResult.Single dt | LocalResult.Ambiguous dt _ =>
              Some (default (utc_millis naive) (fixed_from_local (offset dt) naive))
          | LocalResult.None => Some (utc_millis naive)
          end
      end
  end.

Definition last_day_of_month (year month : Z) : Z :=
  let '(ny, nm) := if month =? 12 then (year + 1, 1) else (year, month + 1) in
  match from_ymd_opt ny nm 1 with
  | Some d => from_option day 28 (pred_opt d)
  | None => 28
  end.

(** At most 730 times an interval of 16 bits: the [i32] year does not wrap. *)
Definition add_months (year month0 add : Z) : Z * Z :=
  let total := month0 + add in
  (year + total / 12, total mod 12 + 1).

(** Whether to go on, and the occurrences so far *)
Definition append_occurrence (out : list Z) (tz : Tz) (until_ms : option Z) (local : NaiveDateTime)
    : option (bool * list Z) :=
  match local_to_utc_ms tz local with
  | None => None
  | Some ms =>
      if match until_ms with Some until => until <? ms | None => false end then Some (false, out)
      else Some (true, out ++ [ms])
  end.

Section Loops.
Context (tz : Tz) (until_ms : option Z) (count_cap : Z).

Definition room (out : list Z) : bool := Z.of_nat (length out) <? count_cap.

(** [Daily] and [Weekly] without weekdays: [next n] is the start [n] steps on *)
Fixpoint step_loop (fuel : nat) (next : Z -> option NaiveDateTime) (n : Z) (out : list Z) : option (list Z) :=
  match fuel with
  | O => None
  | S fuel =>
      if room out then
        match next n with
        | None => Some out
        | Some local =>
            match append_occurrence out tz until_ms local with
            | None => None
            | Some (false, out) => Some out
            | Some (true, out) => step_loop fuel next (n + 1) out
            end
        end
      else Some out
  end.

(** One week: [true] when the next one is looked at *)
Fixpoint weekday_loop (start_local block_monday : NaiveDateTime) (weekdays : list Z) (out : list Z)
    : option (bool * list Z) :=
  match weekdays with
  | [] => Some (true, out)
  | wd :: weekdays =>
      match checked_add_days block_monday wd with
      | None => weekday_loop start_local block_monday weekdays out
      | Some cand =>
          if naive_ltb cand start_local then weekday_loop start_local block_monday weekdays out
          else if negb (room out) then Some (false, out)
          else
            match append_occurrence out tz until_ms cand with
            | None => None
            | Some (false, out) => Some (false, out)
            | Some (true, out) => weekday_loop start_local block_monday weekdays out
            end
      end
  end.

Fixpoint block_loop (fuel : nat) (start_local week_monday : NaiveDateTime) (interval : Z) (weekdays : list Z)
    (block : Z) (out : list Z) : option (list Z) :=
  match fuel with
  | O => None
  | S fuel =>
      if room out && (block <=? MAX_OCCURRENCES) then
        match checked_add_days week_monday (7 * (interval * block)) with
        | None => Some out
        | Some block_monday =>
            match weekday_loop start_local block_monday weekdays out with
            | None => None
            | Some (false, out) => Some out
            | Some (true, out) => block_loop fuel start_local week_monday interval weekdays (block + 1) out
            end
        end
      else Some out
  end.

Fixpoint month_loop (fuel : nat) (start_local : NaiveDateTime) (interval : Z) (n : Z) (out : list Z)
    : option (list Z) :=
  match fuel with
  | O => None
  | S fuel =>
      if room out && (n <=? MAX_OCCURRENCES) then
        let '(y, month) := add_months (year (date start_local)) (month0 (date start_local)) (interval * n) in
        let d := Z.min (day (date start_local)) (last_day_of_month y month) in
        match from_ymd_opt y month d with
        | None => Some out
        | Some dt =>
            match append_occurrence out tz until_ms (and_time dt (time start_local)) with
            | None => None
            | Some (false, out) => Some out
            | Some (true, out) => month_loop fuel start_local interval (n + 1) out
            end
        end
      else Some out
  end.
End Loops.

Definition count_cap_of (e : RecurrenceEnd.t) : Z :=
  match e with
  | RecurrenceEnd.Count count => Z.min count MAX_OCCURRENCES
  | RecurrenceEnd.Until _ => MAX_OCCURRENCES
  end.

Definition until_of (e : RecurrenceEnd.t) (stop_after : option Z) : option Z :=
  let until_ms := match e with RecurrenceEnd.Until timestamp => Some timestamp | RecurrenceEnd.Count _ => None end in
  match until_ms, stop_after with
  | Some u, Some s => Some (Z.min u s)
  | Some u, None => Some u
  | None, s => s
  end.

Definition zone_of (timezone : string) : Tz := default UTC (parse_tz timezone).

Definition series_occurrence_starts_bounded (event : CalendarEvent) (stop_after : option Z) : option (list Z) :=
  match ce_recurrence event with
  | None =>
      if match stop_after with Some bound => bound <? ce_start event | None => false end then Some []
      else Some [ce_start event]
  | Some rule =>
      let tz := zone_of (ce_timezone event) in
      match naive_local tz (ms_to_utc (ce_start event)) with
      | None => None
      | Some start_local =>
          let interval := Z.max (rr_interval rule) 1 in
          let count_cap := count_cap_of (rr_end rule) in
          let until_ms := until_of (rr_end rule) stop_after in
          match rr_freq rule with
          | Frequency.Daily =>
              step_loop tz until_ms count_cap loop_fuel
                (fun n => checked_add_days start_local (interval * n)) 0 []
          | Frequency.Weekly =>
              match rr_by_weekday rule with
              | [] =>
                  step_loop tz until_ms count_cap loop_fuel
                    (fun n => checked_add_days start_local (7 * (interval * n))) 0 []
              | _ :: _ =>
                  let weekdays := dedup (sort_by Z.leb (Weekday.num_from_monday <$> rr_by_weekday rule)) in
                  match date_sub_days (date start_local) (weekday (date start_local)) with
                  | None => None
                  | Some monday =>
                      block_loop tz until_ms count_cap loop_fuel start_local (and_time monday (time start_local))
                        interval weekdays 0 []
                  end
              end
          | Frequency.Monthly => month_loop tz until_ms count_cap loop_fuel start_local interval 0 []
          end
      end
  end.

Definition series_occurrence_starts (event : CalendarEvent) : option (list Z) :=
  series_occurrence_starts_bounded event None.

Definition exception_set (event : CalendarEvent) : gset Z :=
  match ce_recurrence event with
  | Some r => list_to_set (rr_exceptions r)
  | None => ∅
  end.

Definition occurrences_in_window (event : CalendarEvent) (from to : Z) : option (list Z) :=
  let duration := Z.max (ce_duration_ms event) 0 in
  let exceptions := exception_set event in
  match series_occurrence_starts_bounded event (Some to) with
  | None => None
  | Some starts =>
      Some (List.filter (fun s => (s <=? to) && (from <=? saturating_add_i64 s duration))
              (List.filter (fun s => negb (bool_decide (s ∈ exceptions))) starts))
  end.

(** ** Reminders *)

Definition REMINDER_OFFSETS_MS : list Z := [1800000; 0].
Definition REMINDER_GRACE_MS : Z := 300000.

(** [for &offset in offsets]; a checked build panics when the difference
    overflows. *)
Fixpoint due_offsets (now occ : Z) (offsets : list Z) : option (list (Z * Z)) :=
  match offsets with
  | [] => Some []
  | offset :: offsets =>
      match checked_sub_i64 occ offset, due_offsets now occ offsets with
      | Some trigger, Some rest =>
          Some (if (trigger <=? now) && (now - REMINDER_GRACE_MS <? trigger) then (occ, offset) :: rest else rest)
      | _, _ => None
      end
  end.

Fixpoint due_occurrences (now : Z) (exceptions : gset Z) (offsets occs : list Z) : option (list (Z * Z)) :=
  match occs with
  | [] => Some []
  | occ :: occs =>
      if bool_decide (occ ∈ exceptions) then due_occurrences now exceptions offsets occs
      else
        match due_offsets now occ offsets, due_occurrences now exceptions offsets occs with
        | Some due, Some rest => Some (due ++ rest)
        | _, _ => None
        end
  end.

Definition reminder_offsets (all_day : bool) : list Z := if all_day then [0] else REMINDER_OFFSETS_MS.

(** [now] is a reading of the clock: adding half an hour to it does not
    overflow. *)
Definition reminders_due_for_event (event : CalendarEvent) (now : Z)
    : option (list (Z * Z)) :=
  if ce_cancelled event then Some []
  else
    let exceptions := exception_set event in
    let offsets := reminder_offsets (ce_all_day event) in
    let max_offset := foldr Z.max 0 offsets in
    match series_occurrence_starts_bounded event (Some (now + max_offset)) with
    | None => None
    | Some occs => due_occurrences now exceptions offsets occs
    end.

(** ** The last instant of a series *)

Definition compute_series_end (event : CalendarEvent) : option Z :=
  let duration := Z.max (ce_duration_ms event) 0 in
  match ce_recurrence event with
  | None => Some (default (ce_start event) (ce_end event))
  | Some _ =>
      match series_occurrence_starts event with
      | None => None
      | Some starts => Some (saturating_add_i64 (default (ce_start event) (last starts)) duration)
      end
  end.
End Engine.

(** ** What the engine relies on *)

Section Resolution.
Context `{Chrono}.

(** A time the zone gives to a wall clock *)
Definition resolves (tz : Tz) (n : NaiveDateTime) (dt : Zoned) : Prop :=
  from_local_datetime tz n = LocalResult.Single dt \/
  exists other, from_local_datetime tz n = LocalResult.Ambiguous dt other \/
    from_local_datetime tz n = LocalResult.Ambiguous other dt.

(** Earlier in the calendar *)
Definition earlier_date (d d' : NaiveDate) : Prop :=
  year d < year d' \/ (year d = year d' /\ (month0 d < month0 d' \/ (month0 d = month0 d' /\ day d < day d'))).
End Resolution.

(** Documented behaviour of the two crates.  An offset is less than a day, and
    one change of the clocks moves them by at most a day (the note at
    [series_occurrence_starts_bounded] says so of the time zone database), the
    next one coming more than three days later: [offset_step].  Over the
    centuries the offsets of a zone may be further apart, those of
    Pacific/Apia by 25 hours and a half. *)
Class ChronoLaws `{Chrono} : Type := {
  day_number : NaiveDate -> Z;
  time_of_day : NaiveTime -> Z;
  resolves_instant tz n dt : resolves tz n dt -> timestamp_millis dt = utc_millis n - offset dt;
  ambiguous_order tz n dt dt' : from_local_datetime tz n = LocalResult.Ambiguous dt dt' ->
    timestamp_millis dt <= timestamp_millis dt';
  fixed_instant off n ms : fixed_from_local off n = Some ms -> ms = utc_millis n - off;
  offset_bound tz n dt : resolves tz n dt -> Z.abs (offset dt) <= day_ms;
  offset_step tz n dt n' dt' : resolves tz n dt -> resolves tz n' dt' ->
    Z.abs (utc_millis n - utc_millis n') <= 3 * day_ms -> Z.abs (offset dt - offset dt') <= day_ms;
  local_resolves tz ms n : naive_local tz ms = Some n -> exists dt, resolves tz n dt /\ timestamp_millis dt = ms;
  local_weekday_eq tz ms n : naive_local tz ms = Some n -> local_weekday tz ms = weekday (date n);
  utc_millis_inj n n' : utc_millis n = utc_millis n' -> n = n';
  naive_ltb_millis n n' : naive_ltb n n' = (utc_millis n <? utc_millis n');
  add_days_millis n k n' : checked_add_days n k = Some n' -> utc_millis n' = utc_millis n + k * day_ms;
  add_days_between n k n' : utc_millis n <= utc_millis n' -> utc_millis n' = utc_millis n + k * day_ms ->
    checked_add_days n k = Some n';
  sub_hours_millis n k n' : sub_hours n k = Some n' -> utc_millis n' = utc_millis n - k * hour_ms;
  sub_hours_room n k n' : utc_millis n' + k * hour_ms <= utc_millis n -> 0 <= k -> is_Some (sub_hours n k);
  and_time_millis d t : utc_millis (and_time d t) = day_number d * day_ms + time_of_day t;
  date_and_time n : and_time (date n) (time n) = n;
  date_sub_number d k d' : date_sub_days d k = Some d' -> day_number d' = day_number d - k;
  date_sub_room d k k' : is_Some (date_sub_days d k) -> 0 <= k' <= k -> is_Some (date_sub_days d k');
  weekday_range d : 0 <= weekday d <= 6;
  month0_range d : 0 <= month0 d <= 11;
  day_range d : 1 <= day d <= 31;
  ymd_fields y m d dt : from_ymd_opt y m d = Some dt -> year dt = y /\ month0 dt = m - 1 /\ day dt = d;
  ymd_date d : from_ymd_opt (year d) (month0 d + 1) (day d) = Some d;
  date_order d d' : earlier_date d d' -> day_number d < day_number d';
  ymd_days y m d dt k dt' : from_ymd_opt y m d = Some dt -> from_ymd_opt y m k = Some dt' ->
    day_number dt' - day_number dt = k - d;
  pred_number d d' : pred_opt d = Some d' -> day_number d' = day_number d - 1;
  pred_room d d' : day_number d' < day_number d -> is_Some (pred_opt d);
}.

(** ** Candidates

    The wall clocks a series tries, in order and whatever its end *)

Section Candidates.
Context `{Chrono}.

Fixpoint step_cands (fuel : nat) (next : Z -> option NaiveDateTime) (n : Z) : list NaiveDateTime :=
  match fuel with
  | O => []
  | S fuel => match next n with Some local => local :: step_cands fuel next (n + 1) | None => [] end
  end.

Definition week_cands (start_local block_monday : NaiveDateTime) (weekdays : list Z) : list NaiveDateTime :=
  List.filter (fun cand => negb (naive_ltb cand start_local)) (omap (checked_add_days block_monday) weekdays).

Fixpoint block_cands (fuel : nat) (start_local week_monday : NaiveDateTime) (interval : Z) (weekdays : list Z)
    (block : Z) : list NaiveDateTime :=
  match fuel with
  | O => []
  | S fuel =>
      if block <=? MAX_OCCURRENCES then
        match checked_add_days week_monday (7 * (interval * block)) with
        | Some block_monday =>
            week_cands start_local block_monday weekdays ++
            block_cands fuel start_local week_monday interval weekdays (block + 1)
        | None => []
        end
      else []
  end.

Definition month_next (start_local : NaiveDateTime) (interval n : Z) : option NaiveDateTime :=
  let '(y, month) := add_months (year (date start_local)) (month0 (date start_local)) (interval * n) in
  let d := Z.min (day (date start_local)) (last_day_of_month y month) in
  (fun dt => and_time dt (time start_local)) <$> from_ymd_opt y month d.

Definition rule_weekdays (rule : RecurrenceRule) : list Z :=
  dedup (sort_by Z.leb (Weekday.num_from_monday <$> rr_by_weekday rule)).

(** [None] when the Monday of the first week is out of range *)
Definition candidates (rule : RecurrenceRule) (start_local : NaiveDateTime) : option (list NaiveDateTime) :=
  let interval := Z.max (rr_interval rule) 1 in
  match rr_freq rule with
  | Frequency.Daily => Some (step_cands loop_fuel (fun n => checked_add_days start_local (interval * n)) 0)
  | Frequency.Weekly =>
      match rr_by_weekday rule with
      | [] => Some (step_cands loop_fuel (fun n => checked_add_days start_local (7 * (interval * n))) 0)
      | _ :: _ =>
          (fun monday => block_cands loop_fuel start_local (and_time monday (time start_local)) interval
                           (rule_weekdays rule) 0)
          <$> date_sub_days (date start_local) (weekday (date start_local))
      end
  | Frequency.Monthly => Some (step_cands loop_fuel (month_next start_local interval) 0)
  end.

(** One loop over the candidates *)
Fixpoint emit (tz : Tz) (until_ms : option Z) (count_cap : Z) (cands : list NaiveDateTime) (out : list Z)
    : option (list Z) :=
  match cands with
  | [] => Some out
  | c :: cands =>
      if room count_cap out then
        match append_occurrence out tz until_ms c with
        | None => None
        | Some (false, out) => Some out
        | Some (true, out) => emit tz until_ms count_cap cands out
        end
      else Some out
  end.

Lemma emit_full tz until cap cands out : room cap out = false -> emit tz until cap cands out = Some out.
Proof. intros E. destruct cands; simpl; [done|]. by rewrite E. Qed.

Lemma append_longer out tz until c out' :
  append_occurrence out tz until c = Some (true, out') -> length out' = S (length out).
Proof.
  unfold append_occurrence. destruct (local_to_utc_ms tz c) as [ms|]; [|done].
  destruct (match until with Some u => u <? ms | None => false end); intros; simplify_eq.
  rewrite length_app. simpl. lia.
Qed.

Lemma step_loop_emit tz until cap next fuel : forall n out,
  cap < Z.of_nat fuel + Z.of_nat (length out) -> (0 < fuel)%nat ->
  step_loop tz until cap fuel next n out = emit tz until cap (step_cands fuel next n) out.
Proof.
  induction fuel as [|fuel IH]; intros n out Hf H0; [lia|]. cbn [step_loop step_cands].
  destruct (room cap out) eqn:Er.
  2:{ by rewrite emit_full by done. }
  destruct (next n) as [local|]; [|done]. cbn [emit]. rewrite Er.
  destruct (append_occurrence out tz until local) as [[[] out']|] eqn:Ea; [|done..].
  apply append_longer in Ea. unfold room in Er. apply Z.ltb_lt in Er. apply IH; lia.
Qed.

Lemma weekday_loop_emit tz until cap start_local monday rest weekdays : forall out,
  emit tz until cap (week_cands start_local monday weekdays ++ rest) out =
  match weekday_loop tz until cap start_local monday weekdays out with
  | None => None
  | Some (false, out) => Some out
  | Some (true, out) => emit tz until cap rest out
  end.
Proof.
  unfold week_cands. induction weekdays as [|wd weekdays IH]; intros out; [done|]. cbn [weekday_loop omap list_omap].
  destruct (checked_add_days monday wd) as [cand|]; [|apply IH]. cbn [List.filter].
  destruct (naive_ltb cand start_local); cbn [negb app]; [apply IH|]. cbn [emit].
  destruct (room cap out); cbn [negb]; [|done].
  destruct (append_occurrence out tz until cand) as [[[] out']|]; [apply IH | done..].
Qed.

Lemma block_loop_emit tz until cap start_local monday interval weekdays fuel : forall block out,
  MAX_OCCURRENCES + 1 < Z.of_nat fuel + block -> (0 < fuel)%nat ->
  block_loop tz until cap fuel start_local monday interval weekdays block out =
  emit tz until cap (block_cands fuel start_local monday interval weekdays block) out.
Proof.
  induction fuel as [|fuel IH]; intros block out Hf H0; [lia|]. cbn [block_loop block_cands].
  destruct (room cap out) eqn:Er; cbn [andb].
  2:{ by rewrite emit_full by done. }
  destruct (block <=? MAX_OCCURRENCES) eqn:Eb; [|done].
  destruct (checked_add_days monday _) as [m|]; [|done]. rewrite weekday_loop_emit.
  destruct (weekday_loop tz until cap start_local m weekdays out) as [[[] out']|]; [|done..].
  apply Z.leb_le in Eb. apply IH; lia.
Qed.

Lemma month_loop_step tz until cap start_local interval fuel : forall n out,
  n = Z.of_nat (length out) -> cap <= MAX_OCCURRENCES ->
  month_loop tz until cap fuel start_local interval n out =
  step_loop tz until cap fuel (month_next start_local interval) n out.
Proof.
  induction fuel as [|fuel IH]; intros n out Hn Hc; [done|]. cbn [month_loop step_loop].
  destruct (room cap out) eqn:Er; [|done]. unfold room in Er. apply Z.ltb_lt in Er.
  assert (n <=? MAX_OCCURRENCES = true) as -> by (apply Z.leb_le; lia). cbn [andb]. unfold month_next.
  destruct (add_months _ _ _) as [y month].
  destruct (from_ymd_opt y month _) as [dt|]; cbn [fmap option_fmap option_map]; [|done].
  destruct (append_occurrence out tz until _) as [[[] out']|] eqn:Ea; [|done..].
  apply append_longer in Ea. apply IH; [lia | done].
Qed.

Lemma count_cap_le e : count_cap_of e <= MAX_OCCURRENCES.
Proof. destruct e; simpl; lia. Qed.

(** The expansion of a recurring event *)
Lemma bounded_emit event rule start_local stop :
  ce_recurrence event = Some rule ->
  naive_local (zone_of (ce_timezone event)) (ms_to_utc (ce_start event)) = Some start_local ->
  series_occurrence_starts_bounded event stop =
  match candidates rule start_local with
  | Some cands => emit (zone_of (ce_timezone event)) (until_of (rr_end rule) stop) (count_cap_of (rr_end rule)) cands []
  | None => None
  end.
Proof.
  intros Hr Hl. unfold series_occurrence_starts_bounded, candidates. rewrite Hr, Hl. cbv zeta.
  pose proof (count_cap_le (rr_end rule)) as Hc. unfold MAX_OCCURRENCES in Hc.
  destruct (rr_freq rule).
  - apply step_loop_emit; fuel_enough.
  - destruct (rr_by_weekday rule) eqn:Ew; [apply step_loop_emit; fuel_enough|]. rewrite <- Ew.
    destruct (date_sub_days _ _) as [monday|]; [|done].
    apply block_loop_emit; fuel_enough.
  - rewrite month_loop_step by done. apply step_loop_emit; fuel_enough.
Qed.
End Candidates.

(** ** Order of the occurrences *)

Section Order.
Context `{ChronoLaws}.

(** An offset the zone has around a wall clock, up to three hours before it *)
Definition offset_near (tz : Tz) (n : NaiveDateTime) (off : Z) : Prop :=
  exists n' dt, resolves tz n' dt /\ off = offset dt /\ 0 <= utc_millis n - utc_millis n' <= 3 * hour_ms.

Lemma offset_here tz n dt : resolves tz n dt -> offset_near tz n (offset dt).
Proof. intros Hr. exists n, dt. split_and!; [done.. | lia | unfold hour_ms; lia]. Qed.

(** Every occurrence is its wall clock less an offset of the zone around it,
    or less nothing. *)
Lemma local_to_utc_offset tz n ms :
  local_to_utc_ms tz n = Some ms ->
  exists off, ms = utc_millis n - off /\ (off = 0 \/ offset_near tz n off).
Proof.
  unfold local_to_utc_ms. destruct (from_local_datetime tz n) as [dt|dt dt'|] eqn:E; intros Hm; simplify_eq.
  - assert (resolves tz n dt) as Hr by by left. exists (offset dt).
    split; [by apply resolves_instant in Hr | right; by apply offset_here].
  - assert (resolves tz n dt) as Hr by (right; eauto). exists (offset dt).
    split; [by apply resolves_instant in Hr | right; by apply offset_here].
  - destruct (sub_hours n 3) as [before|] eqn:Eb; [|done]. apply sub_hours_millis in Eb.
    assert (forall dt, resolves tz before dt ->
      exists off, default (utc_millis n) (fixed_from_local (offset dt) n) = utc_millis n - off /\
        (off = 0 \/ offset_near tz n off)) as Hfix.
    { intros dt Hr. destruct (fixed_from_local (offset dt) n) as [ms'|] eqn:Ef; cbn [default from_option].
      - apply fixed_instant in Ef. exists (offset dt). split; [done|]. right. exists before, dt.
        split_and!; [done.. | unfold hour_ms in *; lia | lia].
      - exists 0. split; [unfold id; lia | by left]. }
    destruct (from_local_datetime tz before) as [dt|dt dt'|] eqn:E'; simplify_eq.
    + apply Hfix. by left.
    + apply Hfix. right. eauto.
    + exists 0. split; [lia | by left].
Qed.

Lemma offset_near_bound tz n off : off = 0 \/ offset_near tz n off -> Z.abs off <= day_ms.
Proof. intros [->|(m & dt & Hr & -> & _)]; [unfold day_ms; lia | by apply offset_bound in Hr]. Qed.

(** A day later on the wall clock is no earlier: within three days the clocks
    were moved by at most a day, and no two offsets are three days apart. *)
Lemma local_to_utc_mono tz n n' ms ms' :
  utc_millis n + day_ms <= utc_millis n' ->
  local_to_utc_ms tz n = Some ms -> local_to_utc_ms tz n' = Some ms' -> ms <= ms'.
Proof.
  intros Hd (off & -> & Ho)%local_to_utc_offset (off' & -> & Ho')%local_to_utc_offset.
  pose proof (offset_near_bound _ _ _ Ho) as Hb. pose proof (offset_near_bound _ _ _ Ho') as Hb'.
  destruct Ho as [->|(m & dt & Hr & -> & Hm)]; [lia|]. destruct Ho' as [->|(m' & dt' & Hr' & -> & Hm')]; [lia|].
  pose proof (offset_step _ _ _ _ _ Hr Hr'). unfold day_ms, hour_ms in *. lia.
Qed.

Definition day_apart (a b : NaiveDateTime) : Prop := utc_millis a + day_ms <= utc_millis b.

(** What the loop takes of the candidates *)
Lemma emit_taken tz until cap cands : forall out res,
  emit tz until cap cands out = Some res ->
  exists k full, res = out ++ full /\ Forall2 (fun c ms => local_to_utc_ms tz c = Some ms) (take k cands) full.
Proof.
  induction cands as [|c cands IH]; intros out res He; cbn [emit] in He.
  { simplify_eq. exists O, []. by rewrite app_nil_r. }
  destruct (room cap out); [|simplify_eq; exists O, []; by rewrite app_nil_r].
  unfold append_occurrence in He. destruct (local_to_utc_ms tz c) as [ms|] eqn:Ec; [|done].
  destruct (match until with Some u => u <? ms | None => false end).
  { simplify_eq. exists O, []. by rewrite app_nil_r. }
  apply IH in He as (k & full & -> & Hf). exists (S k), (ms :: full). rewrite <- app_assoc.
  split; [done|]. by constructor.
Qed.

Lemma taken_sorted tz cands : forall full,
  StronglySorted day_apart cands -> Forall2 (fun c ms => local_to_utc_ms tz c = Some ms) cands full ->
  StronglySorted Z.le full.
Proof.
  induction cands as [|c cands IH]; intros full Hs Hf; inversion Hf as [|? ms ? full' Hc Hrest]; subst; [constructor|].
  apply StronglySorted_inv in Hs as [Hs Hall]. constructor; [by apply IH|].
  apply Forall_forall. intros ms' Hin. apply list_elem_of_lookup in Hin as [i Hi].
  destruct (Forall2_lookup_r _ _ _ _ _ Hrest Hi) as (c' & Hc' & Hm).
  eapply local_to_utc_mono; [|exact Hc | exact Hm].
  rewrite Forall_forall in Hall. apply Hall. by eapply list_elem_of_lookup_2.
Qed.

Lemma sorted_take {A} (R : A -> A -> Prop) k l : StronglySorted R l -> StronglySorted R (take k l).
Proof.
  intros Hs. revert k. induction Hs as [|x l Hs IH Hx]; intros [|k]; simpl; try constructor; [apply IH|].
  apply Forall_forall. intros y Hy. rewrite Forall_forall in Hx. apply Hx. rewrite <- (take_drop k l).
  apply elem_of_app. by left.
Qed.

(** ** Candidates are days apart *)

Lemma step_cands_from fuel next : forall n c,
  c ∈ step_cands fuel next n -> exists k, n <= k /\ next k = Some c.
Proof.
  induction fuel as [|fuel IH]; intros n c Hc; cbn [step_cands] in Hc; [by apply not_elem_of_nil in Hc|].
  destruct (next n) as [local|] eqn:En; [|by apply not_elem_of_nil in Hc].
  apply elem_of_cons in Hc as [->|Hc]; [exists n; split; [lia | done]|].
  apply IH in Hc as (k & Hk & Hn). exists k. split; [lia | done].
Qed.

Lemma step_cands_sorted fuel next (R : NaiveDateTime -> NaiveDateTime -> Prop) : forall n,
  (forall i j a b, n <= i < j -> next i = Some a -> next j = Some b -> R a b) ->
  StronglySorted R (step_cands fuel next n).
Proof.
  induction fuel as [|fuel IH]; intros n HR; cbn [step_cands]; [constructor|].
  destruct (next n) as [local|] eqn:En; [|constructor]. constructor.
  - apply IH. intros i j a b Hij. apply HR. lia.
  - apply Forall_forall. intros c (k & Hk & Hn)%step_cands_from. by eapply (HR n k); [lia|..].
Qed.

Lemma add_days_apart (start_local : NaiveDateTime) (f : Z -> Z) i j a b :
  f i + 1 <= f j -> checked_add_days start_local (f i) = Some a -> checked_add_days start_local (f j) = Some b ->
  day_apart a b.
Proof. intros Hf Ha%add_days_millis Hb%add_days_millis. unfold day_apart. rewrite Ha, Hb. unfold day_ms. nia. Qed.

Lemma week_cands_from start_local monday weekdays c :
  c ∈ week_cands start_local monday weekdays ->
  exists wd, wd ∈ weekdays /\ checked_add_days monday wd = Some c /\ utc_millis start_local <= utc_millis c.
Proof.
  unfold week_cands. intros [Hlt Hc]%elem_of_filter_bool. apply list_elem_of_omap in Hc as (wd & Hwd & Ha).
  exists wd. split_and!; [done..|]. rewrite naive_ltb_millis in Hlt. to_prop. lia.
Qed.

Lemma week_cands_sorted start_local monday weekdays :
  StronglySorted Z.lt weekdays -> StronglySorted day_apart (week_cands start_local monday weekdays).
Proof.
  intros Hs. unfold week_cands. apply filter_bool_sorted. induction Hs as [|wd l Hs IH Hwd]; simpl; [constructor|].
  destruct (checked_add_days monday wd) as [c|] eqn:Ec; [|done]. constructor; [done|].
  apply Forall_forall. intros c' (wd' & Hin & Hc')%list_elem_of_omap. rewrite Forall_forall in Hwd.
  apply (add_days_apart monday (fun z => z) wd wd'); [|done..]. pose proof (Hwd _ Hin). lia.
Qed.

Lemma block_cands_from fuel start_local monday interval weekdays : forall block c,
  c ∈ block_cands fuel start_local monday interval weekdays block ->
  exists k m wd, block <= k /\ wd ∈ weekdays /\ checked_add_days monday (7 * (interval * k)) = Some m /\
    checked_add_days m wd = Some c /\ utc_millis start_local <= utc_millis c.
Proof.
  induction fuel as [|fuel IH]; intros block c Hc; cbn [block_cands] in Hc; [by apply not_elem_of_nil in Hc|].
  destruct (block <=? MAX_OCCURRENCES); [|by apply not_elem_of_nil in Hc].
  destruct (checked_add_days monday _) as [m|] eqn:Em; [|by apply not_elem_of_nil in Hc].
  apply elem_of_app in Hc as [Hc|Hc].
  - apply week_cands_from in Hc as (wd & Hwd & Ha & Hle). exists block, m, wd. by split_and!.
  - apply IH in Hc as (k & m' & wd & Hk & Hrest). exists k, m', wd. split; [lia | done].
Qed.

Lemma sorted_app {A} (R : A -> A -> Prop) (l1 l2 : list A) :
  StronglySorted R l1 -> StronglySorted R l2 -> (forall a b, a ∈ l1 -> b ∈ l2 -> R a b) ->
  StronglySorted R (l1 ++ l2).
Proof.
  intros H1 H2 HR. induction H1 as [|x l1 H1 IH Hx]; simpl; [done|]. constructor.
  - apply IH. intros a b Ha. apply HR. by right.
  - apply Forall_app. split; [done|]. apply Forall_forall. intros b Hb. apply HR; [by left | done].
Qed.

Lemma block_cands_sorted fuel start_local monday interval weekdays : forall block,
  1 <= interval -> StronglySorted Z.lt weekdays -> (forall wd, wd ∈ weekdays -> 0 <= wd <= 6) ->
  StronglySorted day_apart (block_cands fuel start_local monday interval weekdays block).
Proof.
  intros block Hi Hs Hw. revert block.
  induction fuel as [|fuel IH]; intros block; cbn [block_cands]; [constructor|].
  destruct (block <=? MAX_OCCURRENCES); [|constructor].
  destruct (checked_add_days monday _) as [m|] eqn:Em; [|constructor].
  apply sorted_app; [by apply week_cands_sorted | apply IH|].
  intros a b (wd & Hwd & Ha & _)%week_cands_from (k & m' & wd' & Hk & Hwd' & Hm' & Hb & _)%block_cands_from.
  apply add_days_millis in Em, Hm', Ha, Hb. apply Hw in Hwd, Hwd'. unfold day_apart, day_ms in *.
  rewrite Hb, Ha, Hm', Em. nia.
Qed.

Lemma month_next_apart start_local interval i j a b :
  1 <= interval -> 0 <= i < j ->
  month_next start_local interval i = Some a -> month_next start_local interval j = Some b -> day_apart a b.
Proof.
  intros Hi Hij Ha Hb. unfold month_next, add_months in *. cbv zeta in *.
  apply fmap_Some in Ha as (da & Ha & ->), Hb as (db & Hb & ->).
  apply ymd_fields in Ha as (Hya & Hma & _), Hb as (Hyb & Hmb & _).
  set (base := month0 (date start_local)) in *. set (y0 := year (date start_local)) in *.
  assert (base + interval * i < base + interval * j) as Hlt by nia.
  assert (earlier_date da db) as Ho%date_order.
  { unfold earlier_date. rewrite Hya, Hyb, Hma, Hmb. revert Hlt.
    generalize (base + interval * i) (base + interval * j). clear. intros t t' Hlt.
    pose proof (Z.div_mod t 12). pose proof (Z.div_mod t' 12).
    pose proof (Z.mod_pos_bound t 12). pose proof (Z.mod_pos_bound t' 12). lia. }
  unfold day_apart. rewrite !and_time_millis. unfold day_ms. nia.
Qed.

Lemma rule_weekdays_sorted rule : StronglySorted Z.lt (rule_weekdays rule).
Proof.
  apply dedup_ascending, sort_by_sorted; intros *; rewrite ?Z.leb_le; lia.
Qed.

Lemma rule_weekdays_elem rule wd : wd ∈ rule_weekdays rule <-> wd ∈ Weekday.num_from_monday <$> rr_by_weekday rule.
Proof. unfold rule_weekdays. by rewrite dedup_elem, elem_of_sort_by. Qed.

Lemma rule_weekdays_range rule wd : wd ∈ rule_weekdays rule -> 0 <= wd <= 6.
Proof. intros (w & -> & _)%rule_weekdays_elem%list_elem_of_fmap. destruct w; simpl; lia. Qed.

Lemma candidates_sorted rule start_local cands :
  candidates rule start_local = Some cands -> StronglySorted day_apart cands.
Proof.
  unfold candidates. cbv zeta. intros Hc. assert (1 <= Z.max (rr_interval rule) 1) as Hi by lia.
  revert Hi Hc. generalize (Z.max (rr_interval rule) 1). intros interval Hi Hc.
  destruct (rr_freq rule); [|destruct (rr_by_weekday rule)|]; simplify_eq.
  - apply step_cands_sorted. intros i j a b Hij. apply (add_days_apart start_local (fun n => interval * n)). nia.
  - apply step_cands_sorted. intros i j a b Hij. apply (add_days_apart start_local (fun n => 7 * (interval * n))). nia.
  - apply fmap_Some in Hc as (monday & _ & ->).
    apply block_cands_sorted; [done | apply rule_weekdays_sorted | apply rule_weekdays_range].
  - apply step_cands_sorted. intros i j a b Hij. by apply month_next_apart.
Qed.

(** The starts of a series are in chronological order. *)
Lemma starts_sorted event stop starts :
  series_occurrence_starts_bounded event stop = Some starts -> StronglySorted Z.le starts.
Proof.
  destruct (ce_recurrence event) as [rule|] eqn:Er.
  - destruct (naive_local (zone_of (ce_timezone event)) (ms_to_utc (ce_start event))) as [sl|] eqn:El.
    + rewrite (bounded_emit _ _ _ _ Er El). destruct (candidates rule sl) as [cands|] eqn:Ec; [|done].
      intros (k & full & -> & Hf)%emit_taken. cbn [app]. apply candidates_sorted in Ec.
      eapply taken_sorted; [|exact Hf]. by apply sorted_take.
    + unfold series_occurrence_starts_bounded. rewrite Er. cbv zeta. by rewrite El.
  - unfold series_occurrence_starts_bounded. rewrite Er.
    destruct (match stop with Some _ => _ | None => _ end); intros; simplify_eq; repeat constructor.
Qed.

(** ** Cutting a series off *)

Definition not_after (bound s : Z) : bool := s <=? bound.

(** The leading starts up to the bound *)
Fixpoint lead (bound : Z) (l : list Z) : list Z :=
  match l with
  | [] => []
  | s :: l => if not_after bound s then s :: lead bound l else []
  end.

Lemma lead_filter bound l : StronglySorted Z.le l -> lead bound l = List.filter (not_after bound) l.
Proof.
  induction 1 as [|s l Hs IH Hx]; simpl; [done|]. destruct (not_after bound s) eqn:E; [by rewrite IH|].
  symmetry. apply filter_bool_none. intros y Hy. rewrite Forall_forall in Hx. specialize (Hx y Hy).
  unfold not_after in *. to_prop. lia.
Qed.

Lemma until_cut e bound ms :
  match until_of e (Some bound) with Some u => u <? ms | None => false end =
  match until_of e None with Some u => u <? ms | None => false end || negb (not_after bound ms).
Proof.
  unfold not_after. destruct e as [count|u]; cbn [until_of]; [by rewrite <- Z.ltb_antisym|].
  destruct (u <? ms) eqn:E; simpl; to_prop; [apply Z.ltb_lt; lia|].
  destruct (ms <=? bound) eqn:E2; simpl; to_prop; [apply Z.ltb_ge; lia | apply Z.ltb_lt; lia].
Qed.

Lemma emit_cut tz e bound cap cands : forall out res,
  emit tz (until_of e None) cap cands out = Some res ->
  exists full, res = out ++ full /\ emit tz (until_of e (Some bound)) cap cands out = Some (out ++ lead bound full).
Proof.
  induction cands as [|c cands IH]; intros out res He; cbn [emit] in *.
  { simplify_eq. exists []. cbn [orb lead]. by rewrite app_nil_r. }
  destruct (room cap out); [|simplify_eq; exists []; cbn [lead]; by rewrite app_nil_r].
  unfold append_occurrence in *. destruct (local_to_utc_ms tz c) as [ms|]; [|done].
  rewrite until_cut. destruct (match until_of e None with Some u => u <? ms | None => false end).
  { simplify_eq. exists []. cbn [orb lead]. by rewrite app_nil_r. }
  apply IH in He as (full & -> & He). exists (ms :: full). rewrite <- app_assoc. split; [done|].
  cbn [lead orb]. destruct (not_after bound ms); cbn [negb]; [by rewrite He, <- app_assoc | by rewrite app_nil_r].
Qed.

Lemma bounded_filter event bound starts :
  series_occurrence_starts event = Some starts ->
  series_occurrence_starts_bounded event (Some bound) = Some (List.filter (not_after bound) starts).
Proof.
  intros Hs. pose proof (starts_sorted _ _ _ Hs) as Hsort. unfold series_occurrence_starts in Hs.
  destruct (ce_recurrence event) as [rule|] eqn:Er.
  - destruct (naive_local (zone_of (ce_timezone event)) (ms_to_utc (ce_start event))) as [sl|] eqn:El.
    + rewrite (bounded_emit _ _ _ None Er El) in Hs. rewrite (bounded_emit _ _ _ (Some bound) Er El). destruct (candidates rule sl) as [cands|]; [|done].
      apply (emit_cut _ _ bound) in Hs as (full & -> & ->). cbn [app] in *. by rewrite lead_filter.
    + unfold series_occurrence_starts_bounded in Hs. rewrite Er in Hs. cbv zeta in Hs. by rewrite El in Hs.
  - unfold series_occurrence_starts_bounded in *. rewrite Er in *. simplify_eq. simpl. unfold not_after.
    rewrite Z.ltb_antisym. by destruct (ce_start event <=? bound).
Qed.
End Order.

(** ** Every series has an expansion *)

Section Totality.
Context `{ChronoLaws}.

(** The first of the month after a date *)
Definition next_month (d : NaiveDate) : option NaiveDate :=
  if month0 d + 1 =? 12 then from_ymd_opt (year d + 1) 1 1 else from_ymd_opt (year d) (month0 d + 2) 1.

(** A month away from both ends of the calendar *)
Definition in_calendar (d : NaiveDate) : Prop := is_Some (date_sub_days d 31) /\ is_Some (next_month d).

Lemma local_to_utc_total tz n n' : utc_millis n' + 3 * hour_ms <= utc_millis n -> is_Some (local_to_utc_ms tz n).
Proof.
  intros Hn. unfold local_to_utc_ms. destruct (from_local_datetime tz n); [eauto..|].
  destruct (sub_hours_room n 3 n' Hn ltac:(lia)) as [before ->].
  destruct (from_local_datetime tz before); eauto.
Qed.

Lemma emit_total tz until cap cands : forall out,
  Forall (fun c => is_Some (local_to_utc_ms tz c)) cands -> is_Some (emit tz until cap cands out).
Proof.
  induction cands as [|c cands IH]; intros out Hc; cbn [emit]; [eauto|].
  apply Forall_cons in Hc as [[ms Hms] Hc]. destruct (room cap out); [|eauto].
  unfold append_occurrence. rewrite Hms.
  destruct (match until with Some u => u <? ms | None => false end); eauto.
Qed.

Lemma candidates_total rule start_local :
  in_calendar (date start_local) -> is_Some (candidates rule start_local).
Proof.
  intros [Hd _]. unfold candidates. cbv zeta. destruct (rr_freq rule); [eauto | | eauto].
  destruct (rr_by_weekday rule); [eauto|]. pose proof (weekday_range (date start_local)).
  destruct (date_sub_room _ _ (weekday (date start_local)) Hd ltac:(lia)) as [monday ->]. eauto.
Qed.

(** No candidate is more than thirty days before the start. *)
Lemma candidates_after rule start_local cands c :
  candidates rule start_local = Some cands -> c ∈ cands -> utc_millis start_local - 30 * day_ms <= utc_millis c.
Proof.
  unfold candidates. cbv zeta. intros Hc Hin. assert (1 <= Z.max (rr_interval rule) 1) as Hi by lia.
  revert Hi Hc. generalize (Z.max (rr_interval rule) 1). intros interval Hi Hc.
  assert (0 < day_ms) as Hday by (unfold day_ms; lia).
  destruct (rr_freq rule); [|destruct (rr_by_weekday rule)|]; simplify_eq.
  - apply step_cands_from in Hin as (k & Hk & Hn). apply add_days_millis in Hn. nia.
  - apply step_cands_from in Hin as (k & Hk & Hn). apply add_days_millis in Hn. nia.
  - apply fmap_Some in Hc as (monday & _ & ->). apply block_cands_from in Hin as (_ & _ & _ & _ & _ & _ & _ & Hle). lia.
  - apply step_cands_from in Hin as (k & Hk & Hn). unfold month_next in Hn.
    destruct (add_months _ _ _) as [y m] eqn:Ea. apply fmap_Some in Hn as (dt & Hdt & ->).
    unfold add_months in Ea. rewrite <- (date_and_time start_local) at 1. rewrite !and_time_millis.
    set (d0 := date start_local) in *. pose proof (ymd_fields _ _ _ _ Hdt) as (Hy & Hm & Hd).
    pose proof (day_range dt) as Hr1. pose proof (day_range d0) as Hr2. pose proof (month0_range d0) as Hr3.
    assert (day_number d0 - 30 <= day_number dt); [|nia].
    destruct (decide (year dt = year d0 /\ month0 dt = month0 d0)) as [[Ey Em]|Hne].
    + pose proof (ymd_date d0) as Hd0. pose proof (ymd_date dt) as Hd1. rewrite Ey, Em in Hd1.
      pose proof (ymd_days _ _ _ _ _ _ Hd0 Hd1). lia.
    + assert (earlier_date d0 dt) as Ho%date_order; [|lia]. unfold earlier_date.
      injection Ea as <- <-. assert (0 <= interval * k) as Ht by nia.
      revert Ht Hy Hm Hne. generalize (interval * k). clear - Hr3. intros t Ht Hy Hm Hne.
      pose proof (Z.div_mod (month0 d0 + t) 12). pose proof (Z.mod_pos_bound (month0 d0 + t) 12). lia.
Qed.

Lemma starts_total event rule start_local stop :
  ce_recurrence event = Some rule ->
  naive_local (zone_of (ce_timezone event)) (ms_to_utc (ce_start event)) = Some start_local ->
  in_calendar (date start_local) -> is_Some (series_occurrence_starts_bounded event stop).
Proof.
  intros Hr Hl Hin. rewrite (bounded_emit _ _ _ stop Hr Hl).
  destruct (candidates_total rule start_local Hin) as [cands Hc]. rewrite Hc. apply emit_total.
  apply Forall_forall. intros c Hin'. pose proof (candidates_after _ _ _ _ Hc Hin') as Hle.
  destruct Hin as [[d31 Hd] _]. apply date_sub_number in Hd.
  apply (local_to_utc_total _ _ (and_time d31 (time start_local))). rewrite and_time_millis, Hd.
  rewrite <- (date_and_time start_local), and_time_millis in Hle. unfold day_ms, hour_ms in *. lia.
Qed.
End Totality.

(** ** The first occurrence *)

Section First.
Context `{ChronoLaws}.

Lemma last_day_covers d : is_Some (next_month d) -> day d <= last_day_of_month (year d) (month0 d + 1).
Proof.
  intros [f Hf]. unfold next_month in Hf. unfold last_day_of_month.
  replace (month0 d + 1 + 1) with (month0 d + 2) by lia.
  assert (exists ny nm, (if month0 d + 1 =? 12 then (year d + 1, 1) else (year d, month0 d + 2)) = (ny, nm) /\
            from_ymd_opt ny nm 1 = Some f /\
            ((ny = year d + 1 /\ nm = 1 /\ month0 d = 11) \/ (ny = year d /\ nm = month0 d + 2))) as (ny & nm & -> & Hf' & Hn).
  { destruct (month0 d + 1 =? 12) eqn:E; to_prop; do 2 eexists; split_and!; [done.. | | done | done|]; lia. }
  rewrite Hf'. pose proof (ymd_fields _ _ _ _ Hf') as (Hy & Hm & Hd).
  pose proof (month0_range d). pose proof (day_range d).
  assert (earlier_date d f) as Hdf%date_order by (unfold earlier_date; lia).
  destruct (pred_room f d Hdf) as [p Hp]. rewrite Hp. cbn [from_option]. apply pred_number in Hp.
  assert (~ earlier_date p d) as Hpd by (intros Ho%date_order; lia).
  assert (~ earlier_date f p) as Hfp by (intros Ho%date_order; lia).
  assert (~ (year p = year f /\ month0 p = month0 f /\ day p = day f)) as Hne.
  { intros (E1 & E2 & E3). pose proof (ymd_date p) as Hpp. pose proof (ymd_date f) as Hff.
    rewrite E1, E2, E3, Hff in Hpp. simplify_eq. lia. }
  pose proof (month0_range p). pose proof (day_range p). unfold earlier_date in *. lia.
Qed.

Lemma month_next_first start_local interval :
  is_Some (next_month (date start_local)) -> month_next start_local interval 0 = Some start_local.
Proof.
  intros Hn%last_day_covers. unfold month_next, add_months. pose proof (month0_range (date start_local)).
  rewrite Z.mul_0_r, Z.add_0_r, Z.div_small, Z.mod_small, Z.add_0_r by lia.
  rewrite Z.min_l by done. rewrite ymd_date. simpl. by rewrite date_and_time.
Qed.

(** Of a week's candidates, those not before the start begin with the start. *)
Lemma week_cands_first start_local monday weekdays w :
  utc_millis start_local = utc_millis monday + w * day_ms -> 0 <= w ->
  StronglySorted Z.lt weekdays -> w ∈ weekdays -> (forall wd, wd ∈ weekdays -> 0 <= wd) ->
  exists rest, week_cands start_local monday weekdays = start_local :: rest.
Proof.
  intros Hw Hw0 Hs Hin Hpos. unfold week_cands.
  assert (checked_add_days monday w = Some start_local) as Hadd.
  { apply add_days_between; [|done]. unfold day_ms in *. lia. }
  induction Hs as [|wd l Hs IH Hlt]; [by apply not_elem_of_nil in Hin|]. cbn [omap list_omap].
  rewrite Forall_forall in Hlt. apply elem_of_cons in Hin as [->|Hin].
  - rewrite Hadd. cbn [List.filter]. rewrite naive_ltb_millis, Z.ltb_irrefl. eauto.
  - assert (exists rest, List.filter (fun cand => negb (naive_ltb cand start_local))
                           (omap (checked_add_days monday) l) = start_local :: rest) as IH'.
    { apply IH; [done|]. intros x Hx. apply Hpos. by right. }
    destruct (checked_add_days monday wd) as [c|] eqn:Ec; [|done]. cbn [List.filter]. rewrite naive_ltb_millis.
    apply add_days_millis in Ec. pose proof (Hlt _ Hin).
    assert (utc_millis c <? utc_millis start_local = true) as ->; [|done]. apply Z.ltb_lt. unfold day_ms in *. lia.
Qed.

(** The weekday of the start is among those of the rule. *)
Definition anchored_weekday (rule : RecurrenceRule) (start_local : NaiveDateTime) : Prop :=
  rr_by_weekday rule = [] \/ weekday (date start_local) ∈ Weekday.num_from_monday <$> rr_by_weekday rule.

Lemma add_no_days n : checked_add_days n 0 = Some n.
Proof. apply add_days_between; lia. Qed.

Lemma candidates_first rule start_local cands :
  in_calendar (date start_local) -> anchored_weekday rule start_local ->
  candidates rule start_local = Some cands -> exists rest, cands = start_local :: rest.
Proof.
  intros [_ Hnext] Hw. unfold candidates. cbv zeta. generalize (Z.max (rr_interval rule) 1). intros interval Hc.
  destruct (rr_freq rule).
  - simplify_eq. unfold loop_fuel. cbn [step_cands]. rewrite Z.mul_0_r, add_no_days. eauto.
  - destruct (rr_by_weekday rule) as [|x l] eqn:Ew.
    + simplify_eq. unfold loop_fuel. cbn [step_cands]. rewrite !Z.mul_0_r, add_no_days. eauto.
    + apply fmap_Some in Hc as (monday & Hm & ->). unfold loop_fuel. cbn [block_cands].
      change (0 <=? MAX_OCCURRENCES) with true. cbv iota. rewrite !Z.mul_0_r, add_no_days.
      destruct Hw as [Hw|Hw]; [by rewrite Ew in Hw|]. apply date_sub_number in Hm.
      pose proof (weekday_range (date start_local)).
      assert (exists rest, week_cands start_local (and_time monday (time start_local)) (rule_weekdays rule)
                = start_local :: rest) as [rest ->]; [|rewrite <- app_comm_cons; eauto].
      apply (week_cands_first _ _ _ (weekday (date start_local))).
      * rewrite and_time_millis, Hm. rewrite <- (date_and_time start_local) at 1. rewrite and_time_millis. lia.
      * lia.
      * apply rule_weekdays_sorted.
      * by apply rule_weekdays_elem.
      * intros wd Hwd%rule_weekdays_range. lia.
  - simplify_eq. unfold loop_fuel. cbn [step_cands]. rewrite month_next_first by done. eauto.
Qed.
End First.
