(* ===== verification/CivilTime.v ===== *)
(** * A calendar and two time zones

    An instance of [Chrono] that satisfies [ChronoLaws]: the Gregorian
    calendar, UTC, and New York with the two clock changes of 2024.  The
    witnesses of the calendar's theorems run on it. *)

From stdpp Require Import base numbers list gmap strings sorting.
From S2P Require Import Prelude Text Errors CalendarTime.
Open Scope Z_scope.

(** ** Days and dates *)

Definition is_leap (y : Z) : bool := ((y mod 4 =? 0) && negb (y mod 100 =? 0)) || (y mod 400 =? 0).

(** The day number of the first of January, from 1970 *)
Definition year_start (y : Z) : Z := 365 * (y - 1970) + (y - 1) / 4 - (y - 1) / 100 + (y - 1) / 400 - 477.

(** The days of a year before a month *)
Definition month_start (leap : bool) (m : Z) : Z :=
  let extra := if leap then 1 else 0 in
  if m <=? 1 then 0
  else if m =? 2 then 31
  else if m =? 3 then 59 + extra
  else if m =? 4 then 90 + extra
  else if m =? 5 then 120 + extra
  else if m =? 6 then 151 + extra
  else if m =? 7 then 181 + extra
  else if m =? 8 then 212 + extra
  else if m =? 9 then 243 + extra
  else if m =? 10 then 273 + extra
  else if m =? 11 then 304 + extra
  else if m =? 12 then 334 + extra
  else 365 + extra.

Definition year_of (n : Z) : Z :=
  let guess := 1970 + 400 * n / 146097 in
  if n <? year_start guess then guess - 1
  else if year_start (guess + 1) <=? n then guess + 1
  else guess.

Definition day_of_year (n : Z) : Z := n - year_start (year_of n).

Definition month_of (n : Z) : Z :=
  let leap := is_leap (year_of n) in
  let doy := day_of_year n in
  if month_start leap 12 <=? doy then 12
  else if month_start leap 11 <=? doy then 11
  else if month_start leap 10 <=? doy then 10
  else if month_start leap 9 <=? doy then 9
  else if month_start leap 8 <=? doy then 8
  else if month_start leap 7 <=? doy then 7
  else if month_start leap 6 <=? doy then 6
  else if month_start leap 5 <=? doy then 5
  else if month_start leap 4 <=? doy then 4
  else if month_start leap 3 <=? doy then 3
  else if month_start leap 2 <=? doy then 2
  else 1.

Definition day_of (n : Z) : Z := day_of_year n - month_start (is_leap (year_of n)) (month_of n) + 1.

Definition of_ymd (y m d : Z) : option Z :=
  if (1 <=? m) && (m <=? 12) && (1 <=? d)
     && (d <=? month_start (is_leap y) (m + 1) - month_start (is_leap y) m)
  then Some (year_start y + month_start (is_leap y) m + d - 1)
  else None.

Lemma year_length y : year_start (y + 1) = year_start y + (if is_leap y then 366 else 365).
Proof.
  unfold year_start, is_leap. replace (y + 1 - 1) with y by lia.
  destruct (y mod 4 =? 0) eqn:E4, (y mod 100 =? 0) eqn:E100, (y mod 400 =? 0) eqn:E400; cbn [andb orb negb];
    to_prop; Z.to_euclidean_division_equations; lia.
Qed.

Lemma year_start_mono y y' : y <= y' -> year_start y <= year_start y'.
Proof. unfold year_start. intros Hy. Z.to_euclidean_division_equations. lia. Qed.

Lemma year_of_spec n : year_start (year_of n) <= n < year_start (year_of n + 1).
Proof.
  unfold year_of. cbv zeta. set (g := 1970 + 400 * n / 146097).
  assert (year_start (g - 1) <= n < year_start (g + 2)) as Hg.
  { unfold g, year_start. Z.to_euclidean_division_equations. lia. }
  destruct (n <? year_start g) eqn:E1; to_prop; [replace (g - 1 + 1) with g by lia; lia|].
  destruct (year_start (g + 1) <=? n) eqn:E2; to_prop; [replace (g + 1 + 1) with (g + 2) by lia; lia | lia].
Qed.

Lemma year_of_unique n y : year_start y <= n < year_start (y + 1) -> year_of n = y.
Proof.
  intros Hy. pose proof (year_of_spec n) as Hn. destruct (Z.lt_trichotomy (year_of n) y) as [Hlt|[->|Hlt]]; [|done|].
  - pose proof (year_start_mono (year_of n + 1) y). lia.
  - pose proof (year_start_mono (y + 1) (year_of n)). lia.
Qed.

Lemma month_start_mono leap m m' : m <= m' -> month_start leap m <= month_start leap m'.
Proof.
  intros Hm. unfold month_start.
  repeat match goal with |- context [if ?b then _ else _] => destruct b eqn:?; to_prop; try lia end.
Qed.

Lemma month_of_spec n :
  1 <= month_of n <= 12 /\
  month_start (is_leap (year_of n)) (month_of n) <= day_of_year n < month_start (is_leap (year_of n)) (month_of n + 1).
Proof.
  pose proof (year_of_spec n) as Hy. rewrite year_length in Hy.
  assert (0 <= day_of_year n < 365 + (if is_leap (year_of n) then 1 else 0)) as Hd.
  { unfold day_of_year. destruct (is_leap (year_of n)); lia. }
  unfold month_of. revert Hd. generalize (day_of_year n) (is_leap (year_of n)). intros d leap Hd.
  cbv zeta.
  repeat match goal with
         | |- context [if month_start ?b ?k <=? d then _ else _] => destruct (month_start b k <=? d) eqn:?
         end; to_prop; (split; [lia|]); destruct leap; cbn in *;
    match goal with
    | |- context [month_start ?b (?k + 1)] =>
        let v := eval vm_compute in (month_start b (k + 1)) in change (month_start b (k + 1)) with v
    end; lia.
Qed.

Lemma month_of_unique n m :
  1 <= m <= 12 ->
  month_start (is_leap (year_of n)) m <= day_of_year n < month_start (is_leap (year_of n)) (m + 1) -> month_of n = m.
Proof.
  intros Hm Hd. destruct (month_of_spec n) as [Hr Hs].
  destruct (Z.lt_trichotomy (month_of n) m) as [Hlt|[->|Hlt]]; [|done|].
  - pose proof (month_start_mono (is_leap (year_of n)) (month_of n + 1) m). lia.
  - pose proof (month_start_mono (is_leap (year_of n)) (m + 1) (month_of n)). lia.
Qed.

Lemma month_length leap m : 1 <= m <= 12 -> 28 <= month_start leap (m + 1) - month_start leap m <= 31.
Proof.
  intros Hm.
  assert (m = 1 \/ m = 2 \/ m = 3 \/ m = 4 \/ m = 5 \/ m = 6 \/ m = 7 \/ m = 8 \/ m = 9 \/ m = 10 \/ m = 11 \/ m = 12)
    as Hcases by lia.
  destruct_or! Hcases; subst; destruct leap; vm_compute; by split.
Qed.

Lemma month_end leap m : 1 <= m <= 12 -> month_start leap (m + 1) <= 365 + (if leap then 1 else 0).
Proof.
  intros Hm. transitivity (month_start leap 13); [by apply month_start_mono; lia|]. by destruct leap.
Qed.

Lemma month_start_nonneg leap m : 0 <= month_start leap m.
Proof.
  unfold month_start.
  repeat match goal with |- context [if ?b then _ else _] => destruct b end; lia.
Qed.

Lemma of_ymd_fields y m d n : of_ymd y m d = Some n -> year_of n = y /\ month_of n = m /\ day_of n = d.
Proof.
  unfold of_ymd. intros Hn. destruct (_ && _) eqn:E in Hn; [|done]. to_prop. destruct E as [[[E1 E2] E3] E4].
  simplify_eq. set (n := year_start y + month_start (is_leap y) m + d - 1).
  pose proof (month_end (is_leap y) m ltac:(lia)). pose proof (month_start_nonneg (is_leap y) m).
  assert (year_of n = y) as Hy.
  { apply year_of_unique. rewrite year_length. unfold n. destruct (is_leap y); lia. }
  assert (month_of n = m) as Hm.
  { apply month_of_unique; [lia|]. unfold day_of_year. rewrite Hy. unfold n. lia. }
  split_and!; [done..|]. unfold day_of, day_of_year. rewrite Hy, Hm. unfold n. lia.
Qed.

Lemma of_ymd_date n : of_ymd (year_of n) (month_of n) (day_of n) = Some n.
Proof.
  destruct (month_of_spec n) as [Hr Hs]. unfold of_ymd, day_of.
  assert (forall a b c d : bool, a = true -> b = true -> c = true -> d = true -> a && b && c && d = true) as Hand
    by by intros [] [] [] [].
  rewrite Hand; [|apply Z.leb_le; lia..]. f_equal. unfold day_of_year. lia.
Qed.

(** ** Zones *)

Inductive Zone : Type := Utc | NewYork.

(** Daylight saving time from 07:00 UTC on 10 March to 06:00 UTC on 3 November 2024 *)
Definition offset_at (z : Zone) (ms : Z) : Z :=
  match z with
  | Utc => 0
  | NewYork => if (1710054000000 <=? ms) && (ms <? 1730613600000) then -4 * hour_ms else -5 * hour_ms
  end.

Definition zone_local (z : Zone) (n : Z) : LocalResult.t :=
  match z with
  | Utc => LocalResult.Single (mkZoned n 0)
  | NewYork =>
      let summer := mkZoned (n + 4 * hour_ms) (-4 * hour_ms) in
      let winter := mkZoned (n + 5 * hour_ms) (-5 * hour_ms) in
      match offset_at z (timestamp_millis summer) =? offset summer, offset_at z (timestamp_millis winter) =? offset winter with
      | true, true => LocalResult.Ambiguous summer winter
      | true, false => LocalResult.Single summer
      | false, true => LocalResult.Single winter
      | false, false => LocalResult.None
      end
  end.

Definition zone_named (s : string) : option Zone :=
  if str_eqb s "UTC" then Some Utc else if str_eqb s "America/New_York" then Some NewYork else None.

(** A local time is its milliseconds from midnight of 1 January 1970. *)
#[export] Instance civil : Chrono := {|
  Tz := Zone;
  NaiveDate := Z;
  NaiveTime := Z;
  NaiveDateTime := Z;
  parse_tz := zone_named;
  UTC := Utc;
  timestamp_in_range := fun ms => (-8334601228800000 <=? ms) && (ms <=? 8210266876799999);
  naive_local := fun z ms => Some (ms + offset_at z ms);
  local_weekday := fun z ms => ((ms + offset_at z ms) / day_ms + 3) mod 7;
  from_local_datetime := zone_local;
  fixed_from_local := fun off n => Some (n - off);
  utc_millis := fun n => n;
  sub_hours := fun n k => Some (n - k * hour_ms);
  checked_add_days := fun n k => Some (n + k * day_ms);
  naive_ltb := Z.ltb;
  date := fun n => n / day_ms;
  time := fun n => n mod day_ms;
  and_time := fun d t => d * day_ms + t;
  date_sub_days := fun d k => Some (d - k);
  weekday := fun d => (d + 3) mod 7;
  year := year_of;
  month0 := fun d => month_of d - 1;
  day := day_of;
  from_ymd_opt := of_ymd;
  pred_opt := fun d => Some (d - 1);
|}.

Lemma zone_resolves z n dt :
  resolves (H := civil) z n dt ->
  timestamp_millis dt = n - offset dt /\ -5 * hour_ms <= offset dt <= 0.
Proof.
  unfold resolves. cbn. unfold zone_local. destruct z.
  - intros [Hd|(o & [Hd|Hd])]; simplify_eq/=. unfold hour_ms. lia.
  - destruct (_ =? offset _), (_ =? offset _); intros [Hd|(o & [Hd|Hd])]; simplify_eq/=; unfold hour_ms; lia.
Qed.

Lemma zone_round z ms : exists dt, resolves (H := civil) z (ms + offset_at z ms) dt /\ timestamp_millis dt = ms.
Proof.
  unfold resolves. cbn. unfold zone_local. destruct z; cbn [offset_at timestamp_millis offset].
  { exists (mkZoned ms 0). split; [left; do 2 f_equal; lia | done]. }
  unfold hour_ms. cbn [timestamp_millis offset].
  destruct ((1710054000000 <=? ms) && (ms <? 1730613600000)) eqn:E; to_prop.
  - exists (mkZoned ms (-4 * 3600000)). split; [|done].
    replace (ms + -4 * 3600000 + 4 * 3600000) with ms by lia.
    assert ((1710054000000 <=? ms) && (ms <? 1730613600000) = true) as -> by (to_prop; lia). cbn.
    rewrite ?Z.eqb_refl. destruct (_ =? _); [right; eexists; first [by left | by right] | by left].
  - exists (mkZoned ms (-5 * 3600000)). split; [|done].
    replace (ms + -5 * 3600000 + 5 * 3600000) with ms by lia.
    assert ((1710054000000 <=? ms) && (ms <? 1730613600000) = false) as -> by (to_prop; lia). cbn.
    rewrite ?Z.eqb_refl. destruct (_ =? _); [right; eexists; first [by left | by right] | by left].
Qed.

Lemma civil_order d d' : earlier_date (H := civil) d d' -> d < d'.
Proof.
  unfold earlier_date. cbn. pose proof (year_of_spec d) as H1. pose proof (year_of_spec d') as H2.
  intros [Hy|[Hy Hm]].
  - pose proof (year_start_mono (year_of d + 1) (year_of d')). lia.
  - destruct (month_of_spec d) as [_ Hs], (month_of_spec d') as [_ Hs'].
    unfold day_of, day_of_year in *. rewrite Hy in *. destruct Hm as [Hm|[Hm Hd]].
    + pose proof (month_start_mono (is_leap (year_of d')) (month_of d + 1) (month_of d')). lia.
    + assert (month_of d = month_of d') as E by lia. rewrite E in *. lia.
Qed.

Lemma civil_day_range d : 1 <= day_of d <= 31.
Proof.
  destruct (month_of_spec d) as [Hr Hs]. unfold day_of.
  pose proof (month_length (is_leap (year_of d)) (month_of d) Hr). lia.
Qed.

#[export] Instance civil_laws : ChronoLaws (H := civil).
Proof.
  refine (@Build_ChronoLaws civil (fun d => d) (fun t => t) _ _ _ _ _ _ _ _ _ _ _ _ _ _ _ _ _ _ _ _ _ _ _ _ _ _);
    cbn -[Z.mul Z.div Z.modulo].
  - intros tz n dt Hr. by apply zone_resolves in Hr as [-> _].
  - intros tz n dt dt' Ha. destruct tz; cbn in Ha; [done|].
    destruct (_ =? _) in Ha; destruct (_ =? _) in Ha; simplify_eq/=. unfold hour_ms. lia.
  - intros. by simplify_eq.
  - intros tz n dt Hr. apply zone_resolves in Hr as [_ Hb]. unfold day_ms, hour_ms in *. lia.
  - intros tz n dt n' dt' [_ H1]%zone_resolves [_ H2]%zone_resolves _. unfold day_ms, hour_ms in *. lia.
  - intros tz ms n Hn. simplify_eq. apply zone_round.
  - intros tz ms n Hn. by simplify_eq.
  - done.
  - done.
  - intros n k n' Hn. by simplify_eq.
  - intros n k n' _ ->. done.
  - intros n k n' Hn. by simplify_eq.
  - eauto.
  - done.
  - intros n. unfold day_ms. pose proof (Z.div_mod n 86400000). lia.
  - intros d k d' Hd. by simplify_eq.
  - eauto.
  - intros d. pose proof (Z.mod_pos_bound (d + 3) 7). lia.
  - intros d. destruct (month_of_spec d). lia.
  - apply civil_day_range.
  - intros y m d dt (-> & -> & ->)%of_ymd_fields. done.
  - intros d. replace (month_of d - 1 + 1) with (month_of d) by lia. apply of_ymd_date.
  - apply civil_order.
  - intros y m d dt k dt' Hd Hk. unfold of_ymd in *.
    destruct (_ && _) in Hd; [|done]. destruct (_ && _) in Hk; [|done]. simplify_eq. lia.
  - intros d d' Hd. by simplify_eq.
  - eauto.
Defined.
