(* ===== verification/Calendar.v ===== *)
(** * Calendar events and invitations
      (crates/core/database/src/models/calendar_events, models/files, models/softres,
       crates/core/database/src/events/rabbit.rs)

    An event is a document with an occurrence engine ([CalendarTime]), an
    invitation is a row per event and user, and a reminder that was sent
    leaves a marker.  The operations of the reference database driver are
    functions of the world; validation, creation, editing and answering are
    those of the models.  The clock is part of the world. *)

From stdpp Require Import base numbers list gmap strings sorting.
From S2P Require Import Prelude Text Errors Program Permissions Store PermissionQueryDb Audience CalendarTime.
Open Scope Z_scope.
Open Scope sloga_scope.

Definition MAX_EVENT_ATTACHMENTS : Z := 10.

(** ** Documents *)

Record EventRsvpKey : Type := mkRsvpKey { rk_event : string; rk_user : string }.

#[export] Instance EventRsvpKey_eq : EqDecision EventRsvpKey.
Proof. solve_decision. Defined.
#[export] Instance EventRsvpKey_countable : Countable EventRsvpKey.
Proof.
  apply (inj_countable' (fun k => (rk_event k, rk_user k)) (fun p => mkRsvpKey p.1 p.2)). by intros [].
Defined.

Module RsvpStatus.
Inductive t : Type := Pending | Going | NotGoing.
End RsvpStatus.

Record EventRsvp : Type := mkRsvp {
  rv_id : EventRsvpKey;
  rv_status : RsvpStatus.t;
  rv_invited_by : string;
  rv_had_accepted : bool;
  rv_created_at : Z;
  rv_responded_at : option Z;
}.

Record ReminderSentKey : Type := mkReminderKey {
  sk_event : string;
  sk_user : string;
  sk_occurrence : Z;
  sk_offset : Z;
}.

#[export] Instance ReminderSentKey_eq : EqDecision ReminderSentKey.
Proof. solve_decision. Defined.
#[export] Instance ReminderSentKey_countable : Countable ReminderSentKey.
Proof.
  apply (inj_countable' (fun k => (sk_event k, sk_user k, sk_occurrence k, sk_offset k))
           (fun p => mkReminderKey p.1.1.1 p.1.1.2 p.1.2 p.2)). by intros [].
Defined.

Record ReminderSent : Type := mkReminderSent { rs_id : ReminderSentKey; rs_sent_at : Z }.

Module FieldsCalendarEvent.
Inductive t : Type :=
| Channel | Description | Location | End | Recurrence | Color | SourceMessageId | EditedAt | Attachments.
End FieldsCalendarEvent.

Record PartialCalendarEvent : Type := mkPartial {
  pe_id : option string;
  pe_server : option string;
  pe_channel : option string;
  pe_creator : option string;
  pe_title : option string;
  pe_description : option string;
  pe_location : option string;
  pe_start : option Z;
  pe_end : option Z;
  pe_duration_ms : option Z;
  pe_series_end : option Z;
  pe_all_day : option bool;
  pe_timezone : option string;
  pe_recurrence : option RecurrenceRule;
  pe_color : option string;
  pe_cancelled : option bool;
  pe_source_message_id : option string;
  pe_attachments : option (list File);
  pe_created_at : option Z;
  pe_edited_at : option Z;
}.

(** [PartialCalendarEvent::default()] *)
Definition no_changes : PartialCalendarEvent :=
  mkPartial None None None None None None None None None None None None None None None None None None None
    None.

(** The fields of a sheet that are read or written here *)
Record SoftResSheet : Type := mkSheet {
  ss_id : string;
  ss_channel : string;
  ss_message : string;
  ss_event : option string;
  ss_locked : bool;
}.

Module CalendarEventNotification.
Inductive t : Type := Invited | Cancelled | Reminder.
End CalendarEventNotification.

Record CalendarEventPayload : Type := mkPayload {
  cp_user : string;
  cp_event_id : string;
  cp_server_id : string;
  cp_title : string;
  cp_kind : CalendarEventNotification.t;
  cp_occurrence_start : option Z;
  cp_channel_id : option string;
  cp_offset_ms : option Z;
}.

(** The events of the gateway published here *)
Module EventV1.
Inductive t : Type :=
| CalendarEventCreate (event : CalendarEvent)
| CalendarEventUpdate (event : CalendarEvent)
| CalendarEventInvite (event : CalendarEvent)
| CalendarEventRsvp (rsvp : EventRsvp)
| SoftresSheetUpdate (sheet : SoftResSheet).
End EventV1.

Record World : Type := mkWorld {
  w_db : Db;   (* users, servers, members and channels *)
  w_protected : gset string;   (* channels with [protected: true] *)
  w_events : gmap string CalendarEvent;
  w_rsvps : gmap EventRsvpKey EventRsvp;
  w_reminders : gmap ReminderSentKey ReminderSent;
  w_files : gmap string File;
  w_sheets : gmap string SoftResSheet;
  w_now : Z;   (* the clock *)
  w_queue : list CalendarEventPayload;   (* handed to the message broker *)
  w_published : list (string * EventV1.t);   (* by topic *)
}.

(** *** Assignments *)

Definition set_events (w : World) (v : gmap string CalendarEvent) : World :=
  mkWorld (w_db w) (w_protected w) v (w_rsvps w) (w_reminders w) (w_files w) (w_sheets w) (w_now w)
    (w_queue w) (w_published w).
Definition set_rsvps (w : World) (v : gmap EventRsvpKey EventRsvp) : World :=
  mkWorld (w_db w) (w_protected w) (w_events w) v (w_reminders w) (w_files w) (w_sheets w) (w_now w)
    (w_queue w) (w_published w).
Definition set_reminders (w : World) (v : gmap ReminderSentKey ReminderSent) : World :=
  mkWorld (w_db w) (w_protected w) (w_events w) (w_rsvps w) v (w_files w) (w_sheets w) (w_now w)
    (w_queue w) (w_published w).
Definition set_files (w : World) (v : gmap string File) : World :=
  mkWorld (w_db w) (w_protected w) (w_events w) (w_rsvps w) (w_reminders w) v (w_sheets w) (w_now w)
    (w_queue w) (w_published w).
Definition set_sheets (w : World) (v : gmap string SoftResSheet) : World :=
  mkWorld (w_db w) (w_protected w) (w_events w) (w_rsvps w) (w_reminders w) (w_files w) v (w_now w)
    (w_queue w) (w_published w).
Definition set_now (w : World) (v : Z) : World :=
  mkWorld (w_db w) (w_protected w) (w_events w) (w_rsvps w) (w_reminders w) (w_files w) (w_sheets w) v
    (w_queue w) (w_published w).
Definition set_queue (w : World) (v : list CalendarEventPayload) : World :=
  mkWorld (w_db w) (w_protected w) (w_events w) (w_rsvps w) (w_reminders w) (w_files w) (w_sheets w)
    (w_now w) v (w_published w).
Definition set_published (w : World) (v : list (string * EventV1.t)) : World :=
  mkWorld (w_db w) (w_protected w) (w_events w) (w_rsvps w) (w_reminders w) (w_files w) (w_sheets w)
    (w_now w) (w_queue w) v.

Definition with_duration_ms (e : CalendarEvent) (v : Z) : CalendarEvent :=
  mkEvent (ce_id e) (ce_server e) (ce_channel e) (ce_creator e) (ce_title e) (ce_description e)
    (ce_location e) (ce_start e) (ce_end e) v (ce_series_end e) (ce_all_day e) (ce_timezone e)
    (ce_recurrence
    e) (ce_color e) (ce_cancelled e) (ce_source_message_id e) (ce_attachments e)
    (ce_created_at e) (ce_edited_at e).
Definition with_series_end (e : CalendarEvent) (v : Z) : CalendarEvent :=
  mkEvent (ce_id e) (ce_server e) (ce_channel e) (ce_creator e) (ce_title e) (ce_description e)
    (ce_location e) (ce_start e) (ce_end e) (ce_duration_ms e) v (ce_all_day e) (ce_timezone e)
    (ce_recurrence e) (ce_color e) (ce_cancelled e) (ce_source_message_id e) (ce_attachments e)
    (ce_created_at e) (ce_edited_at e).
Definition with_recurrence (e : CalendarEvent) (v : option RecurrenceRule) : CalendarEvent :=
  mkEvent (ce_id e) (ce_server e) (ce_channel e) (ce_creator e) (ce_title e) (ce_description e)
    (ce_location e) (ce_start e) (ce_end e) (ce_duration_ms e) (ce_series_end e) (ce_all_day e)
    (ce_timezone
    e) v (ce_color e) (ce_cancelled e) (ce_source_message_id e) (ce_attachments e)
    (ce_created_at e) (ce_edited_at e).
Definition with_edited_at (e : CalendarEvent) (v : option Z) : CalendarEvent :=
  mkEvent (ce_id e) (ce_server e) (ce_channel e) (ce_creator e) (ce_title e) (ce_description e)
    (ce_location e) (ce_start e) (ce_end e) (ce_duration_ms e) (ce_series_end e) (ce_all_day e)
    (ce_timezone
    e) (ce_recurrence e) (ce_color e) (ce_cancelled e) (ce_source_message_id e)
    (ce_attachments e) (ce_created_at e) v.
Definition with_channel (e : CalendarEvent) (v : option string) : CalendarEvent :=
  mkEvent (ce_id e) (ce_server e) v (ce_creator e) (ce_title e) (ce_description e) (ce_location e)
    (ce_start e) (ce_end e) (ce_duration_ms e) (ce_series_end e) (ce_all_day e) (ce_timezone e)
    (ce_recurrence e) (ce_color e) (ce_cancelled e) (ce_source_message_id e) (ce_attachments e)
    (ce_created_at e) (ce_edited_at e).
Definition with_cancelled (e : CalendarEvent) (v : bool) : CalendarEvent :=
  mkEvent (ce_id e) (ce_server e) (ce_channel e) (ce_creator e) (ce_title e) (ce_description e)
    (ce_location e) (ce_start e) (ce_end e) (ce_duration_ms e) (ce_series_end e) (ce_all_day e)
    (ce_timezone
    e) (ce_recurrence e) (ce_color e) v (ce_source_message_id e) (ce_attachments e)
    (ce_created_at e) (ce_edited_at e).
Definition with_attachments (e : CalendarEvent) (v : option (list File)) : CalendarEvent :=
  mkEvent (ce_id e) (ce_server e) (ce_channel e) (ce_creator e) (ce_title e) (ce_description e)
    (ce_location e) (ce_start e) (ce_end e) (ce_duration_ms e) (ce_series_end e) (ce_all_day e)
    (ce_timezone
    e) (ce_recurrence e) (ce_color e) (ce_cancelled e) (ce_source_message_id e) v
    (ce_created_at e) (ce_edited_at e).
Definition with_description (e : CalendarEvent) (v : option string) : CalendarEvent :=
  mkEvent (ce_id e) (ce_server e) (ce_channel e) (ce_creator e) (ce_title e) v (ce_location e)
    (ce_start e) (ce_end e) (ce_duration_ms e) (ce_series_end e) (ce_all_day e) (ce_timezone e)
    (ce_recurrence e) (ce_color e) (ce_cancelled e) (ce_source_message_id e) (ce_attachments e)
    (ce_created_at e) (ce_edited_at
    e).
Definition with_location (e : CalendarEvent) (v : option string) : CalendarEvent :=
  mkEvent (ce_id e) (ce_server e) (ce_channel e) (ce_creator e) (ce_title e) (ce_description e) v
    (ce_start
    e) (ce_end e) (ce_duration_ms e) (ce_series_end e) (ce_all_day e) (ce_timezone e)
    (ce_recurrence e) (ce_color e) (ce_cancelled e) (ce_source_message_id e) (ce_attachments e)
    (ce_created_at e) (ce_edited_at
    e).
Definition with_end (e : CalendarEvent) (v : option Z) : CalendarEvent :=
  mkEvent (ce_id e) (ce_server e) (ce_channel e) (ce_creator e) (ce_title e) (ce_description e)
    (ce_location e) (ce_start e) v (ce_duration_ms e) (ce_series_end e) (ce_all_day e) (ce_timezone e)
    (ce_recurrence e) (ce_color e) (ce_cancelled e) (ce_source_message_id e) (ce_attachments e)
    (ce_created_at e) (ce_edited_at e).
Definition with_color (e : CalendarEvent) (v : option string) : CalendarEvent :=
  mkEvent (ce_id e) (ce_server e) (ce_channel e) (ce_creator e) (ce_title e) (ce_description e)
    (ce_location e) (ce_start e) (ce_end e) (ce_duration_ms e) (ce_series_end e) (ce_all_day e)
    (ce_timezone
    e) (ce_recurrence e) v (ce_cancelled e) (ce_source_message_id e) (ce_attachments e)
    (ce_created_at e) (ce_edited_at e).
Definition with_source_message_id (e : CalendarEvent) (v : option string) : CalendarEvent :=
  mkEvent (ce_id e) (ce_server e) (ce_channel e) (ce_creator e) (ce_title e) (ce_description e)
    (ce_location e) (ce_start e) (ce_end e) (ce_duration_ms e) (ce_series_end e) (ce_all_day e)
    (ce_timezone
    e) (ce_recurrence e) (ce_color e) (ce_cancelled e) v (ce_attachments e)
    (ce_created_at e) (ce_edited_at
    e).

(** An optional field takes the new value when there is one. *)
Definition first_some {A} (a b : option A) : option A := match a with Some _ => a | None => b end.

Definition apply_options (e : CalendarEvent) (p : PartialCalendarEvent) : CalendarEvent :=
  mkEvent
    (default (ce_id e) (pe_id p))
    (default (ce_server e) (pe_server p))
    (first_some (pe_channel p) (ce_channel e))
    (default (ce_creator e) (pe_creator p))
    (default (ce_title e) (pe_title p))
    (first_some (pe_description p) (ce_description e))
    (first_some (pe_location p) (ce_location e))
    (default (ce_start e) (pe_start p))
    (first_some (pe_end p) (ce_end e))
    (default (ce_duration_ms e) (pe_duration_ms p))
    (default (ce_series_end e) (pe_series_end p))
    (default (ce_all_day e) (pe_all_day p))
    (default (ce_timezone e) (pe_timezone p))
    (first_some (pe_recurrence p) (ce_recurrence e))
    (first_some (pe_color p) (ce_color e))
    (default (ce_cancelled e) (pe_cancelled p))
    (first_some (pe_source_message_id p) (ce_source_message_id e))
    (first_some (pe_attachments p) (ce_attachments e))
    (default (ce_created_at e) (pe_created_at p))
    (first_some (pe_edited_at p) (ce_edited_at e)).

Definition remove_field (e : CalendarEvent) (field : FieldsCalendarEvent.t) : CalendarEvent :=
  match field with
  | FieldsCalendarEvent.Channel => with_channel e None
  | FieldsCalendarEvent.Description => with_description e None
  | FieldsCalendarEvent.Location => with_location e None
  | FieldsCalendarEvent.End => with_end e None
  | FieldsCalendarEvent.Recurrence => with_recurrence e None
  | FieldsCalendarEvent.Color => with_color e None
  | FieldsCalendarEvent.SourceMessageId => with_source_message_id e None
  | FieldsCalendarEvent.EditedAt => with_edited_at e None
  | FieldsCalendarEvent.Attachments => with_attachments e None
  end.

Definition time_field (field : FieldsCalendarEvent.t) : bool :=
  match field with FieldsCalendarEvent.End | FieldsCalendarEvent.Recurrence => true | _ => false end.

Definition clear_exceptions (r : RecurrenceRule) : RecurrenceRule :=
  mkRule (rr_freq r) (rr_interval r) (rr_by_weekday r) (rr_end r) [].

Definition is_going (s : RsvpStatus.t) : bool := match s with RsvpStatus.Going => true | _ => false end.

Section Calendar.
Context `{!Chrono}.
Context `{!HashIter string CalendarEvent, !HashIter EventRsvpKey EventRsvp, !HashIter string SoftResSheet}.

(** ** The collections *)

Definition insert_event (event : CalendarEvent) (w : World) : World * Result unit :=
  match w_events w !! ce_id event with
  | Some _ => (w, Err (create_database_error "insert" "calendar_event"))
  | None => (set_events w (<[ce_id event := event]> (w_events w)), Ok tt)
  end.

Definition fetch_event (id : string) (w : World) : World * Result CalendarEvent :=
  (w, ok_or (w_events w !! id) ErrorType.NotFound).

Definition in_window (server_id : string) (from to : Z) (e : CalendarEvent) : bool :=
  str_eqb (ce_server e) server_id && (ce_start e <=? to) && (from <=? ce_series_end e).

Definition fetch_events_for_server_in_window (server_id : string) (from to : Z) (w : World)
    : World * Result (list CalendarEvent) :=
  (w, Ok (List.filter (in_window server_id from to) (hm_values (w_events w)))).

(** [(a.start, &a.id).cmp(&(b.start, &b.id))] *)
Definition by_start (a b : CalendarEvent) : bool :=
  (ce_start a <? ce_start b) || ((ce_start a =? ce_start b) && str_leb (ce_id a) (ce_id b)).

Definition is_oneoff (e : CalendarEvent) : bool := match ce_recurrence e with None => true | Some _ => false end.

Definition upcoming_oneoff (server_id : string) (from to : Z) (e : CalendarEvent) : bool :=
  str_eqb (ce_server e) server_id && is_oneoff e && negb (ce_cancelled e) && (from <=? ce_start e) && (ce_start e <=? to).

Definition fetch_upcoming_oneoffs_for_server (server_id : string) (from to offset limit : Z) (w : World)
    : World * Result (list CalendarEvent) :=
  if limit =? 0 then (w, Ok [])
  else
    let rows := sort_by by_start (List.filter (upcoming_oneoff server_id from to) (hm_values (w_events w))) in
    (w, Ok (take (Z.to_nat limit) (drop (Z.to_nat offset) rows))).

Definition upcoming_series (server_id : string) (from to : Z) (e : CalendarEvent) : bool :=
  str_eqb (ce_server e) server_id && negb (is_oneoff e) && negb (ce_cancelled e) && (ce_start e <=? to)
  && (from <=? ce_series_end e).

Definition fetch_upcoming_series_for_server (server_id : string) (from to limit : Z) (w : World)
    : World * Result (list CalendarEvent) :=
  if limit =? 0 then (w, Ok [])
  else
    let rows := sort_by by_start (List.filter (upcoming_series server_id from to) (hm_values (w_events w))) in
    (w, Ok (take (Z.to_nat limit) rows)).

Definition update_event (id : string) (partial : PartialCalendarEvent) (remove : list FieldsCalendarEvent.t)
    (w : World) : World * Result unit :=
  match w_events w !! id with
  | Some event =>
      let event := apply_options (foldl remove_field event remove) partial in
      (set_events w (<[id := event]> (w_events w)), Ok tt)
  | None => (w, Err ErrorType.NotFound)
  end.

Definition replace_event (event : CalendarEvent) (w : World) : World * Result unit :=
  match w_events w !! ce_id event with
  | Some _ => (set_events w (<[ce_id event := event]> (w_events w)), Ok tt)
  | None => (w, Err ErrorType.NotFound)
  end.

Definition delete_event (id : string) (w : World) : World * Result unit :=
  match w_events w !! id with
  | Some _ => (set_events w (delete id (w_events w)), Ok tt)
  | None => (w, Err ErrorType.NotFound)
  end.

Definition insert_rsvp_if_absent (rsvp : EventRsvp) (w : World) : World * Result bool :=
  match w_rsvps w !! rv_id rsvp with
  | Some _ => (w, Ok false)
  | None => (set_rsvps w (<[rv_id rsvp := rsvp]> (w_rsvps w)), Ok true)
  end.

Definition fetch_rsvp (event_id user_id : string) (w : World) : World * Result EventRsvp :=
  (w, ok_or (w_rsvps w !! mkRsvpKey event_id user_id) ErrorType.NotFound).

Definition fetch_rsvps_for_event (event_id : string) (w : World) : World * Result (list EventRsvp) :=
  (w, Ok (List.filter (fun r => str_eqb (rk_event (rv_id r)) event_id) (hm_values (w_rsvps w)))).

Definition update_rsvp (rsvp : EventRsvp) (w : World) : World * Result unit :=
  match w_rsvps w !! rv_id rsvp with
  | Some existing =>
      let row := mkRsvp (rv_id existing) (rv_status rsvp) (rv_invited_by existing) (rv_had_accepted rsvp)
                   (rv_created_at existing) (rv_responded_at rsvp) in
      (set_rsvps w (<[rv_id rsvp := row]> (w_rsvps w)), Ok tt)
  | None => (w, Err ErrorType.NotFound)
  end.

Definition delete_rsvp (event_id user_id : string) (w : World) : World * Result unit :=
  let key := mkRsvpKey event_id user_id in
  match w_rsvps w !! key with
  | Some _ => (set_rsvps w (delete key (w_rsvps w)), Ok tt)
  | None => (w, Err ErrorType.NotFound)
  end.

Definition delete_rsvps_for_event (event_id : string) (w : World) : World * Result unit :=
  (set_rsvps w (filter (fun kv => rk_event kv.1 <> event_id) (w_rsvps w)), Ok tt).

(** The ids of the events of a server *)
Definition server_event_ids (server_id : string) (w : World) : gset string :=
  list_to_set (ce_id <$> List.filter (fun e => str_eqb (ce_server e) server_id) (hm_values (w_events w))).

Definition delete_rsvps_for_member (server_id user_id : string) (w : World) : World * Result unit :=
  let server_events := server_event_ids server_id w in
  (set_rsvps w (filter (fun kv => rk_user kv.1 <> user_id \/ rk_event kv.1 ∉ server_events) (w_rsvps w)), Ok tt).

Definition delete_rsvps_for_user (user_id : string) (w : World) : World * Result unit :=
  (set_rsvps w (filter (fun kv => rk_user kv.1 <> user_id) (w_rsvps w)), Ok tt).

Definition mark_deleted (f : File) : File :=
  mkFile (file_id f) (file_tag f) (file_uploader_id f) (file_used_for f) (Some true).

(** Each collection is locked in turn. *)
Definition delete_calendar_for_server (server_id : string) : Eff World unit :=
  do! (removed, attachment_ids) <- atom (fun w =>
    let gone := List.filter (fun e => str_eqb (ce_server e) server_id) (hm_values (w_events w)) in
    (set_events w (filter (fun kv => ce_server kv.2 <> server_id) (w_events w)),
     (list_to_set (ce_id <$> gone) : gset string,
      List.map file_id (concat (omap ce_attachments gone)))));
  do! _ <- atom (fun w =>
    (set_files w (foldl (fun files id => alter mark_deleted id files) (w_files w) attachment_ids), tt));
  do! _ <- atom (fun w => (set_rsvps w (filter (fun kv => rk_event kv.1 ∉ removed) (w_rsvps w)), tt));
  do! _ <- atom (fun w => (set_reminders w (filter (fun kv => sk_event kv.1 ∉ removed) (w_reminders w)), tt));
  ok tt.

Definition fetch_imported_source_ids (server_id : string) (w : World) : World * Result (gset string) :=
  (w, Ok (list_to_set (omap ce_source_message_id
            (List.filter (fun e => str_eqb (ce_server e) server_id) (hm_values (w_events w)))))).

Definition in_reminder_window (start_max series_end_min : Z) (e : CalendarEvent) : bool :=
  negb (ce_cancelled e) && (ce_start e <=? start_max) && (series_end_min <=? ce_series_end e).

Definition fetch_events_in_reminder_window (start_max series_end_min : Z) (w : World)
    : World * Result (list CalendarEvent) :=
  (w, Ok (List.filter (in_reminder_window start_max series_end_min) (hm_values (w_events w)))).

Definition mark_reminder_sent_if_absent (key : ReminderSentKey) (w : World) : World * Result bool :=
  match w_reminders w !! key with
  | Some _ => (w, Ok false)
  | None => (set_reminders w (<[key := mkReminderSent key (w_now w)]> (w_reminders w)), Ok true)
  end.

Definition delete_reminders_sent_before (occurrence_before : Z) (w : World) : World * Result Z :=
  let kept := filter (fun kv => occurrence_before <= sk_occurrence kv.1) (w_reminders w) in
  (set_reminders w kept, Ok (Z.of_nat (size (w_reminders w)) - Z.of_nat (size kept))).

(** *** Files and sheets *)

Definition find_and_use_attachment (id tag : string) (used_for : FileUsedFor) (uploader_id : string) (w : World)
    : World * Result File :=
  match w_files w !! id with
  | Some file =>
      if str_eqb (file_tag file) tag && bool_decide (file_used_for file = None) then
        let file := mkFile (file_id file) (file_tag file) (Some uploader_id) (Some used_for) (file_deleted file) in
        (set_files w (<[id := file]> (w_files w)), Ok file)
      else (w, Err ErrorType.NotFound)
  | None => (w, Err ErrorType.NotFound)
  end.

Definition use_calendar_event_attachment (id parent uploader_id : string) : World -> World * Result File :=
  find_and_use_attachment id "attachments" (mkUsedFor FileUsedForType.CalendarEvent parent) uploader_id.

Definition mark_attachments_as_deleted (ids : list string) (w : World) : World * Result unit :=
  if existsb (fun id => bool_decide (w_files w !! id = None)) ids then (w, Err ErrorType.NotFound)
  else (set_files w (foldl (fun files id => alter mark_deleted id files) (w_files w) ids), Ok tt).

Definition fetch_sheet (id : string) (w : World) : World * Result SoftResSheet :=
  (w, ok_or (w_sheets w !! id) ErrorType.NotFound).

Definition fetch_sheet_by_event (event : string) (w : World) : World * Result (option SoftResSheet) :=
  (w, Ok (List.find (fun sheet => is_some_str (ss_event sheet) event) (hm_values (w_sheets w)))).

Definition set_sheet_locked_if_unlocked (id : string) (w : World) : World * Result bool :=
  match w_sheets w !! id with
  | Some sheet =>
      if ss_locked sheet then (w, Ok false)
      else
        (set_sheets w (<[id := mkSheet (ss_id sheet) (ss_channel sheet) (ss_message sheet) (ss_event sheet) true]>
                         (w_sheets w)), Ok true)
  | None => (w, Ok false)
  end.
(** ** The models *)

(** [now_ms()] *)
Definition now_ms : prog World Z := atom (fun w => (w, w_now w)).

(** A checked build panics when the difference overflows. *)
Definition recompute_duration (e : CalendarEvent) : option CalendarEvent :=
  match ce_end e with
  | None => Some (with_duration_ms e 0)
  | Some end_ =>
      match checked_sub_i64 end_ (ce_start e) with
      | Some d => Some (with_duration_ms e (Z.max d 0))
      | None => None
      end
  end.

Definition count_chars (s : string) : Z := Z.of_nat (length (chars s)).

Definition longer_than (o : option string) (n : Z) : bool :=
  match o with Some s => n <? count_chars s | None => false end.

Definition invalid (field : string) : Result unit := Err (ErrorType.FailedValidation field).

(** The rule of [event]; [None] is a panic of the engine. *)
Definition validate_rule (event : CalendarEvent) (rule : RecurrenceRule) : option (Result unit) :=
  if negb ((1 <=? rr_interval rule) && (rr_interval rule <=? 52)) then Some (invalid "interval")
  else if MAX_OCCURRENCES <? Z.of_nat (length (rr_exceptions rule)) then Some (invalid "exceptions")
  else
    let tz := zone_of (ce_timezone event) in
    let start_wd := local_weekday tz (ms_to_utc (ce_start event)) in
    let weekly := match rr_freq rule with Frequency.Weekly => true | _ => false end in
    let some_weekday := negb (bool_decide (rr_by_weekday rule = [])) in
    if some_weekday && negb weekly then Some (invalid "by_weekday")
    else if some_weekday && negb (existsb (fun w => Weekday.num_from_monday w =? start_wd) (rr_by_weekday rule))
    then Some (invalid "by_weekday_anchor")
    else
      match rr_end rule with
      | RecurrenceEnd.Count count =>
          if (count <? 1) || (MAX_OCCURRENCES <? count) then Some (invalid "count") else Some (Ok tt)
      | RecurrenceEnd.Until timestamp =>
          if timestamp <? ce_start event then Some (invalid "until")
          else
            match series_occurrence_starts event with
            | None => None
            | Some starts =>
                if MAX_OCCURRENCES <=? Z.of_nat (length starts) then Some (invalid "until_range") else Some (Ok tt)
            end
      end.

Definition validate (event : CalendarEvent) : option (Result unit) :=
  if str_eqb (trim (ce_title event)) "" || (100 <? count_chars (ce_title event)) then Some (invalid "title")
  else
    match parse_tz (ce_timezone event) with
    | None => Some (invalid "timezone")
    | Some _ =>
        if longer_than (ce_description event) 2000 then Some (invalid "description")
        else if longer_than (ce_location event) 200 then Some (invalid "location")
        else if longer_than (ce_color event) 32 then Some (invalid "color")
        else if match ce_end event with Some end_ => end_ <=? ce_start event | None => false end
        then Some (invalid "end")
        else
          match ce_recurrence event with
          | None => Some (Ok tt)
          | Some rule => validate_rule event rule
          end
    end.

(** A panic of a pure function *)
Definition or_panic {A} (o : option A) : prog World A := match o with Some a => Ret a | None => Panic end.

(** [id] is the fresh [Ulid]. *)
Definition create (id server creator title : string) (description location : option string) (start : Z)
    (end_ : option Z) (all_day : bool) (timezone : string) (recurrence : option RecurrenceRule)
    (color channel source_message_id : option string) : Eff World CalendarEvent :=
  do! created_at <- now_ms;
  let event := mkEvent id server channel creator title description location start end_ 0 start all_day timezone
                 recurrence color false source_message_id None created_at None in
  do! event <- or_panic (recompute_duration event);
  let! _ := or_panic (validate event) in
  do! series_end <- or_panic (compute_series_end event);
  let event := with_series_end event series_end in
  let! _ := atom (insert_event event) in
  ok event.

Definition time_affecting (partial : PartialCalendarEvent) (remove : list FieldsCalendarEvent.t) : bool :=
  bool_decide (is_Some (pe_start partial)) || bool_decide (is_Some (pe_end partial))
  || bool_decide (is_Some (pe_timezone partial)) || bool_decide (is_Some (pe_recurrence partial))
  || existsb time_field remove.

(** [CalendarEvent::edit]: the event it leaves in [self] *)
Definition edit (self : CalendarEvent) (partial : PartialCalendarEvent) (remove : list FieldsCalendarEvent.t)
    : Eff World CalendarEvent :=
  let time_affecting := time_affecting partial remove in
  let self := apply_options (foldl remove_field self remove) partial in
  do! self <- or_panic (recompute_duration self);
  let self := if time_affecting then with_recurrence self (clear_exceptions <$> ce_recurrence self) else self in
  do! series_end <- or_panic (compute_series_end self);
  let self := with_series_end self series_end in
  do! now <- now_ms;
  let self := with_edited_at self (Some now) in
  let! _ := or_panic (validate self) in
  let! _ := atom (replace_event self) in
  ok self.

(** *** Invitations *)

Definition new_invite (event_id user_id invited_by : string) (now : Z) : EventRsvp :=
  mkRsvp (mkRsvpKey event_id user_id) RsvpStatus.Pending invited_by false now None.

Definition invite (event_id user_id invited_by : string) : Eff World bool :=
  do! now <- now_ms;
  atom (insert_rsvp_if_absent (new_invite event_id user_id invited_by now)).

Definition apply_response (self : EventRsvp) (target : RsvpStatus.t) (now : Z) : Result EventRsvp :=
  match target with
  | RsvpStatus.Pending => Err ErrorType.InvalidOperation
  | RsvpStatus.Going =>
      Ok (mkRsvp (rv_id self) RsvpStatus.Going (rv_invited_by self) true (rv_created_at self) (Some now))
  | RsvpStatus.NotGoing =>
      Ok (mkRsvp (rv_id self) RsvpStatus.NotGoing (rv_invited_by self) (rv_had_accepted self) (rv_created_at self)
            (Some now))
  end.
End Calendar.
