(* ===== verification/CalendarRoutes.v ===== *)
(** * The routes and the reminder job of the calendar
      (crates/delta/src/routes/events, crates/daemons/crond/src/tasks/event_reminders.rs,
       crates/core/database/src/amqp/amqp.rs)

    Handlers are [prog]s over the world of [Calendar].  A permission check
    reads users, servers, members and channels in one step; every other
    database call is an operation of its own.  Answers are the documents, and
    what is published or queued is appended to the world. *)

From stdpp Require Import base numbers list gmap strings sorting.
From S2P Require Import Prelude Text Errors Program Permissions Store PermissionQueryDb Audience CalendarTime Calendar.
Open Scope Z_scope.
Open Scope sloga_scope.

(** ** Requests *)

Record DataCreateEvent : Type := mkCreate {
  dc_title : string;
  dc_description : option string;
  dc_location : option string;
  dc_start : Z;
  dc_end : option Z;
  dc_all_day : bool;
  dc_timezone : string;
  dc_recurrence : option RecurrenceRule;
  dc_color : option string;
  dc_channel : option string;
  dc_attachments : option (list string);
}.

Module FieldsEvent.
Inductive t : Type := Channel | Description | Location | End | Recurrence | Color | Attachments.
End FieldsEvent.

Record DataEditEvent : Type := mkEdit {
  de_title : option string;
  de_description : option string;
  de_location : option string;
  de_start : option Z;
  de_end : option Z;
  de_all_day : option bool;
  de_timezone : option string;
  de_recurrence : option RecurrenceRule;
  de_color : option string;
  de_channel : option string;
  de_attachments : option (list string);
  de_remove_attachments : option (list string);
  de_remove : list FieldsEvent.t;
}.

Record DataInviteToEvent : Type := mkInvite { di_users : option (list string); di_roles : option (list string) }.

Record InviteResult : Type := mkInvited { ir_invited : Z; ir_skipped : Z }.

Record EventWithOccurrences : Type := mkWithOccurrences { eo_event : CalendarEvent; eo_occurrences : list Z }.

Record AttendeeCounts : Type := mkCounts { ac_going : Z; ac_pending : Z; ac_not_going : Z }.

Record EventWithContext : Type := mkContext {
  ec_event : CalendarEvent;
  ec_my_rsvp : option EventRsvp;
  ec_counts : AttendeeCounts;
}.

Definition field_from_wire (f : FieldsEvent.t) : FieldsCalendarEvent.t :=
  match f with
  | FieldsEvent.Channel => FieldsCalendarEvent.Channel
  | FieldsEvent.Description => FieldsCalendarEvent.Description
  | FieldsEvent.Location => FieldsCalendarEvent.Location
  | FieldsEvent.End => FieldsCalendarEvent.End
  | FieldsEvent.Recurrence => FieldsCalendarEvent.Recurrence
  | FieldsEvent.Color => FieldsCalendarEvent.Color
  | FieldsEvent.Attachments => FieldsCalendarEvent.Attachments
  end.

Definition is_attachments (f : FieldsEvent.t) : bool :=
  match f with FieldsEvent.Attachments => true | _ => false end.

(** The lengths the [validator] attributes of the requests allow *)
Definition more_than {A} (o : option (list A)) (n : Z) : bool :=
  match o with Some l => n <? Z.of_nat (length l) | None => false end.

Definition title_fits (title : string) : bool := (1 <=? count_chars title) && (count_chars title <=? 100).

Definition valid_create (data : DataCreateEvent) : bool :=
  title_fits (dc_title data) && negb (longer_than (dc_description data) 2000)
  && negb (longer_than (dc_location data) 200) && negb (longer_than (dc_color data) 32)
  && negb (more_than (dc_attachments data) 10).

Definition valid_edit (data : DataEditEvent) : bool :=
  match de_title data with Some title => title_fits title | None => true end
  && negb (longer_than (de_description data) 2000) && negb (longer_than (de_location data) 200)
  && negb (longer_than (de_color data) 32) && negb (more_than (de_attachments data) 10)
  && negb (more_than (de_remove_attachments data) 10).

Definition valid_invite (data : DataInviteToEvent) : bool :=
  negb (more_than (di_users data) 100) && negb (more_than (di_roles data) 25).

Definition MAX_WINDOW_MS : Z := 366 * 24 * 60 * 60 * 1000.
Definition MAX_EVENTS : Z := 500.
Definition MAX_ATTENDEES_PAGE : Z := 100.

Definition MAX_UPCOMING_WINDOW_MS : Z := 62 * 24 * 60 * 60 * 1000.
Definition DEFAULT_LIMIT : Z := 20.
Definition MAX_LIMIT : Z := 100.
Definition MAX_UPCOMING_SERVERS : Z := 200.
Definition SERIES_CAP : Z := 200.
Definition PAGE : Z := 100.
Definition SCAN_BUDGET : Z := 500.

Record Candidate : Type := mkCandidate {
  cd_key : Z;
  cd_event : CalendarEvent;
  cd_occurrences : list Z;
}.

Definition by_key_then_id (a b : Candidate) : bool :=
  (cd_key a <? cd_key b) || ((cd_key a =? cd_key b) && str_leb (ce_id (cd_event a)) (ce_id (cd_event b))).

Definition event_topic (event : CalendarEvent) : string := default (ce_server event) (ce_channel event).

Definition tally (rsvps : list EventRsvp) : AttendeeCounts :=
  foldl (fun c r =>
    match rv_status r with
    | RsvpStatus.Going => mkCounts (ac_going c + 1) (ac_pending c) (ac_not_going c)
    | RsvpStatus.Pending => mkCounts (ac_going c) (ac_pending c + 1) (ac_not_going c)
    | RsvpStatus.NotGoing => mkCounts (ac_going c) (ac_pending c) (ac_not_going c + 1)
    end) (mkCounts 0 0 0) rsvps.

(** ** What the routes share *)

Definition publish (event : EventV1.t) (topic : string) (w : World) : World * unit :=
  (set_published w (w_published w ++ [(topic, event)]), tt).

(** [private]: the topic of one user *)
Definition publish_private (event : EventV1.t) (id : string) : World -> World * unit :=
  publish event (id +:+ "!").

(** A step that only looks, and may panic *)
Definition consult {A} (f : World -> option (Result A)) : Eff World A :=
  do! r <- atom (fun w => (w, f w)); or_panic r.

(** A database read that answers an error *)
Definition from_db {A} (f : Db -> Result A) (w : World) : World * Result A := (w, f (w_db w)).

Definition is_protected (w : World) (c : Channel.t) : bool :=
  match c with Channel.TextChannel id _ _ _ => bool_decide (id ∈ w_protected w) | _ => false end.

Module ManageScope.
Inductive t : Type :=
| Server
| Channel (target : Channel.t)
| Unresolvable.
End ManageScope.

Section Routes.
Context `{!Chrono}.
Context `{!HashIter string CalendarEvent, !HashIter EventRsvpKey EventRsvp, !HashIter string SoftResSheet}.
Context `{!HashIter string Channel.t, !HashIter (string * string) Member}.
Context `{!HashIter string Role, !HashIter string OverrideField.t, !HashIter string unit}.
(** [features.events_enabled] *)
Context (events_enabled : bool).
(** The text of a failed validation *)
Context (validation_error : string).
(** Whether the message broker takes a message *)
Context (broker_takes : list CalendarEventPayload -> CalendarEventPayload -> bool).

Definition require_events_enabled : Eff World unit :=
  if events_enabled then ok tt else fail (ErrorType.FeatureDisabled "events").

(** The answer says whether the broker took the message. *)
Definition calendar_event_notify (payload : CalendarEventPayload) (w : World) : World * bool :=
  (set_queue w (w_queue w ++ [payload]), broker_takes (w_queue w) payload).

(** *** Who may view and manage an event *)

Definition anchor (event : CalendarEvent) : Audience.CalendarEvent :=
  Audience.mkEvent (ce_server event) (ce_channel event).

Definition authorize_view (user : User) (event : CalendarEvent) : Eff World unit :=
  consult (fun w =>
    match can_view (w_now w) (for_server (w_db w) user (ce_server event)) (anchor event) with
    | None => None
    | Some (_, true) => Some (Ok tt)
    | Some (_, false) => Some (Err ErrorType.NotFound)
    end).

Definition manage_scope (db : Db) (event : CalendarEvent) : Result ManageScope.t :=
  match ce_channel event with
  | None => Ok ManageScope.Server
  | Some channel_id =>
      match Audience.fetch_channel db channel_id with
      | Err ErrorType.NotFound => Ok ManageScope.Unresolvable
      | Err error => Err error
      | Ok channel =>
          let? target := try_resolve_event_channel_target db channel in
          match target with
          | Some target =>
              if is_some_str (channel_server target) (ce_server event) then Ok (ManageScope.Channel target)
              else Ok ManageScope.Unresolvable
          | None => Ok ManageScope.Unresolvable
          end
      end
  end.

Definition requires {S} (permissions : option (Z * S)) : option (Result unit) :=
  match permissions with
  | Some (p, _) => Some (PV.throw_if_lacking_channel_permission p CP.ManageChannel)
  | None => None
  end.

Definition authorize_manage_scoped (user : User) (event : CalendarEvent) (cleanup : bool) : Eff World unit :=
  consult (fun w =>
    let db := w_db w in
    if str_eqb (user_id user) (ce_creator event) && is_ok (fetch_member db (ce_server event) (user_id user))
    then Some (Ok tt)
    else
      let server_wide :=
        match fetch_server db (ce_server event) with
        | Err e => Some (Err e)
        | Ok server => requires (calculate_server_permissions (set_server (new db (w_now w) user) server))
        end in
      match manage_scope db event with
      | Err e => Some (Err e)
      | Ok (ManageScope.Channel target) =>
          requires (calculate_channel_permissions (set_channel (new db (w_now w) user) target))
      | Ok ManageScope.Unresolvable =>
          if cleanup then server_wide
          else Some (Err (ErrorType.MissingPermission (CP.to_string CP.ManageChannel)))
      | Ok ManageScope.Server => server_wide
      end).

Definition authorize_manage (user : User) (event : CalendarEvent) : Eff World unit :=
  authorize_manage_scoped user event false.
Definition authorize_cleanup (user : User) (event : CalendarEvent) : Eff World unit :=
  authorize_manage_scoped user event true.

Definition refuse_protected_event_channel (channel : Channel.t) : Eff World unit :=
  consult (fun w => Some (
    if is_protected w channel then Err ErrorType.ChannelProtected
    else
      let? target := permission_target (w_db w) channel in
      if is_protected w target then Err ErrorType.ChannelProtected else Ok tt)).

(** [require_event_channel_view] and [refuse_protected_event_channel] *)
Definition allow_channel (user : User) (server : string) (channel_id : string) : Eff World Channel.t :=
  let! channel := atom (from_db (fun db => Audience.fetch_channel db channel_id)) in
  let! _ := consult (fun w => require_event_channel_view (w_now w) (w_db w) user server channel) in
  let! _ := refuse_protected_event_channel channel in
  ok channel.

(** [map_err(|_| create_error!(NotFound))] *)
Definition or_not_found {A} (c : Eff World A) : Eff World A :=
  do! r <- c; match r with Ok a => ok a | Err _ => fail ErrorType.NotFound end.

Fixpoint claim_event_attachments (ids : list string) (event_id uploader_id : string) (files : list File)
    : Eff World (list File) :=
  match ids with
  | [] => ok files
  | id :: ids =>
      do! claimed <- atom (use_calendar_event_attachment id event_id uploader_id);
      match claimed with
      | Ok file => claim_event_attachments ids event_id uploader_id (files ++ [file])
      | Err error =>
          match file_id <$> files with
          | [] => fail error
          | claimed => do! _ <- atom (mark_attachments_as_deleted claimed); fail error
          end
      end
  end.

(** ** Creating, listing and reading *)

Definition set_attachments (files : list File) : PartialCalendarEvent :=
  mkPartial None None None None None None None None None None None None None None None None None (Some files)
    None None.

(** [new_id] is the [Ulid] of the event. *)
Definition create_event (user : User) (server : string) (data : DataCreateEvent) (new_id : string)
    : Eff World CalendarEvent :=
  let! _ := require_events_enabled in
  if bool_decide (is_Some (user_bot_owner user)) then fail ErrorType.IsBot
  else if negb (valid_create data) then fail (ErrorType.FailedValidation validation_error)
  else
    let! server := atom (from_db (fun db => fetch_server db server)) in
    let! _ := or_not_found (atom (from_db (fun db => fetch_member db (server_id server) (user_id user)))) in
    let! _ := match dc_channel data with
              | Some channel_id => let! _ := allow_channel user (server_id server) channel_id in ok tt
              | None => ok tt
              end in
    let! event := create new_id (server_id server) (user_id user) (dc_title data) (dc_description data)
                    (dc_location data) (dc_start data) (dc_end data) (dc_all_day data) (dc_timezone data)
                    (dc_recurrence data) (dc_color data) (dc_channel data) None in
    let! event :=
      match default [] (dc_attachments data) with
      | [] => ok event
      | ids =>
          if MAX_EVENT_ATTACHMENTS <? Z.of_nat (length ids) then
            do! _ <- atom (delete_event (ce_id event));
            fail (ErrorType.FailedValidation "attachments")
          else
            do! claimed <- claim_event_attachments ids (ce_id event) (user_id user) [];
            match claimed with
            | Ok files =>
                let! _ := atom (update_event (ce_id event) (set_attachments files) []) in
                ok (with_attachments event (Some files))
            | Err error =>
                do! _ <- atom (delete_event (ce_id event));
                fail error
            end
      end in
    do! _ <- atom (publish (EventV1.CalendarEventCreate event) (event_topic event));
    ok event.

(** The events of a list its viewer may see, with their occurrences *)
Fixpoint visible_rows (now : Z) (viewer : EventViewer) (from to : Z) (out : list EventWithOccurrences)
    (candidates : list CalendarEvent) : option (list EventWithOccurrences) :=
  match candidates with
  | [] => Some out
  | event :: candidates =>
      match can_view now viewer (anchor event) with
      | None => None
      | Some (viewer, false) => visible_rows now viewer from to out candidates
      | Some (viewer, true) =>
          match occurrences_in_window event from to with
          | None => None
          | Some [] => visible_rows now viewer from to out candidates
          | Some occurrences =>
              let out := out ++ [mkWithOccurrences event occurrences] in
              if MAX_EVENTS <=? Z.of_nat (length out) then Some out
              else visible_rows now viewer from to out candidates
          end
      end
  end.

Definition window_ok (from to max : Z) : bool :=
  match checked_sub_i64 to from with Some span => (0 <=? span) && (span <=? max) | None => false end.

Definition list_events (user : User) (server : string) (from to : Z) : Eff World (list EventWithOccurrences) :=
  let! _ := require_events_enabled in
  let! server := atom (from_db (fun db => fetch_server db server)) in
  let! member := or_not_found (atom (from_db (fun db => fetch_member db (server_id server) (user_id user)))) in
  if negb (window_ok from to MAX_WINDOW_MS) then fail (ErrorType.FailedValidation "window")
  else
    let! candidates := atom (fetch_events_for_server_in_window (server_id server) from to) in
    consult (fun w =>
      Ok <$> visible_rows (w_now w) (with_memberships (w_db w) user [member]) from to [] candidates).

Definition fetch_event_route (user : User) (target : string) : Eff World EventWithContext :=
  let! _ := require_events_enabled in
  let! event := atom (fetch_event target) in
  let! _ := authorize_view user event in
  let! rsvps := atom (fetch_rsvps_for_event (ce_id event)) in
  ok (mkContext event (List.find (fun r => str_eqb (rk_user (rv_id r)) (user_id user)) rsvps) (tally rsvps)).

(** ** Editing *)

Definition edit_partial (data : DataEditEvent) : PartialCalendarEvent :=
  mkPartial None None (de_channel data) None (de_title data) (de_description data) (de_location data)
    (de_start data) (de_end data) None None (de_all_day data) (de_timezone data) (de_recurrence data)
    (de_color data) None None None None None.

(** The part of [edit_event] that changes files: the event with its files *)
Definition edit_attachments (user : User) (event : CalendarEvent) (existing kept : list File) (clear_all : bool)
    (add_ids detach_ids : list string) : Eff World CalendarEvent :=
  let! added := claim_event_attachments add_ids (ce_id event) (user_id user) [] in
  let to_delete :=
    if clear_all then file_id <$> existing
    else file_id <$> List.filter (fun f => existsb (str_eqb (file_id f)) detach_ids) existing in
  let! _ := match to_delete with
            | [] => ok tt
            | _ => atom (mark_attachments_as_deleted to_delete)
            end in
  match kept ++ added with
  | [] =>
      let! _ := atom (update_event (ce_id event) no_changes [FieldsCalendarEvent.Attachments]) in
      ok (with_attachments event None)
  | resolved =>
      let! _ := atom (update_event (ce_id event) (set_attachments resolved) []) in
      ok (with_attachments event (Some resolved))
  end.

(** Whether the holder of a row can view the event's new channel *)
Definition row_visible (event : CalendarEvent) (target : option Channel.t) (uid : string) (w : World)
    : option (Result bool) :=
  match target with
  | None => Some (Ok false)
  | Some target =>
      match fetch_user (w_db w) uid with
      | Err _ => Some (Ok false)
      | Ok holder => Ok <$> user_can_view_channel (w_now w) (w_db w) holder (ce_server event) target
      end
  end.

Fixpoint prune_rsvps (event : CalendarEvent) (target : option Channel.t) (rsvps : list EventRsvp)
    : Eff World unit :=
  match rsvps with
  | [] => ok tt
  | rsvp :: rsvps =>
      let uid := rk_user (rv_id rsvp) in
      let! visible := consult (row_visible event target uid) in
      if visible then prune_rsvps event target rsvps
      else
        do! _ <- atom (delete_rsvp (ce_id event) uid);
        prune_rsvps event target rsvps
  end.

Definition opt_str_eqb (a b : option string) : bool := bool_decide (a = b).

Definition edit_event (user : User) (target : string) (data : DataEditEvent) : Eff World CalendarEvent :=
  let! _ := require_events_enabled in
  if negb (valid_edit data) then fail (ErrorType.FailedValidation validation_error)
  else
    let! event := atom (fetch_event target) in
    let! _ := authorize_manage user event in
    if ce_cancelled event then fail ErrorType.InvalidOperation
    else
      let! new_channel :=
        match de_channel data with
        | Some channel_id => let! channel := allow_channel user (ce_server event) channel_id in ok (Some channel)
        | None => ok None
        end in
      let old_channel := ce_channel event in
      let pre_edit := event in
      let clear_all := existsb is_attachments (de_remove data) in
      let add_ids := default [] (de_attachments data) in
      let detach_ids := default [] (de_remove_attachments data) in
      let attachments_changed :=
        clear_all || negb (bool_decide (add_ids = [])) || negb (bool_decide (detach_ids = [])) in
      let existing := default [] (ce_attachments event) in
      let kept :=
        if clear_all then []
        else List.filter (fun f => negb (existsb (str_eqb (file_id f)) detach_ids)) existing in
      if attachments_changed && (MAX_EVENT_ATTACHMENTS <? Z.of_nat (length kept) + Z.of_nat (length add_ids))
      then fail (ErrorType.FailedValidation "attachments")
      else
        let remove := field_from_wire <$> List.filter (fun f => negb (is_attachments f)) (de_remove data) in
        let! event := edit event (edit_partial data) remove in
        let! event :=
          if attachments_changed then edit_attachments user event existing kept clear_all add_ids detach_ids
          else ok event in
        let channel_changed := negb (opt_str_eqb old_channel (ce_channel event)) in
        do! _ <- (if channel_changed then
                    atom (publish (EventV1.CalendarEventUpdate (with_channel pre_edit (ce_channel event)))
                            (default (ce_server pre_edit) old_channel))
                  else Ret tt);
        do! _ <- atom (publish (EventV1.CalendarEventUpdate event) (event_topic event));
        do! _ <- (match channel_changed, new_channel with
                  | true, Some channel =>
                      let! target := consult (fun w => Some (try_resolve_event_channel_target (w_db w) channel)) in
                      let! rsvps := atom (fetch_rsvps_for_event (ce_id event)) in
                      prune_rsvps event target rsvps
                  | _, _ => ok tt
                  end);
        ok event.

(** ** Cancelling *)

Definition lock_linked_softres_sheet (event_id : string) : prog World unit :=
  do! linked <- atom (fetch_sheet_by_event event_id);
  match linked with
  | Ok (Some sheet) =>
      do! won <- atom (set_sheet_locked_if_unlocked (ss_id sheet));
      match won with
      | Ok true =>
          do! fresh <- atom (fetch_sheet (ss_id sheet));
          match fresh with
          | Ok fresh => atom (publish (EventV1.SoftresSheetUpdate fresh) (ss_channel fresh))
          | Err _ => Ret tt
          end
      | _ => Ret tt
      end
  | _ => Ret tt
  end.

Definition payload_of (kind : CalendarEventNotification.t) (event : CalendarEvent) (user : string)
    (reminder : option (Z * Z)) : CalendarEventPayload :=
  mkPayload user (ce_id event) (ce_server event) (ce_title event) kind (fst <$> reminder) (ce_channel event)
    (snd <$> reminder).

Fixpoint notify_cancelled (event : CalendarEvent) (rsvps : list EventRsvp) : prog World unit :=
  match rsvps with
  | [] => Ret tt
  | rsvp :: rsvps =>
      if negb (is_going (rv_status rsvp)) then notify_cancelled event rsvps
      else
        do! member <- atom (from_db (fun db => fetch_member db (ce_server event) (rk_user (rv_id rsvp))));
        match member with
        | Err _ => notify_cancelled event rsvps
        | Ok _ =>
            do! _ <- atom (calendar_event_notify
                       (payload_of CalendarEventNotification.Cancelled event (rk_user (rv_id rsvp)) None));
            notify_cancelled event rsvps
        end
  end.

Definition cancelled_partial : PartialCalendarEvent :=
  mkPartial None None None None None None None None None None None None None None None (Some true) None None
    None None.

Definition cancel_event (user : User) (target : string) : Eff World unit :=
  let! _ := require_events_enabled in
  let! event := atom (fetch_event target) in
  let! _ := authorize_cleanup user event in
  if ce_cancelled event then
    do! _ <- lock_linked_softres_sheet (ce_id event);
    ok tt
  else
    let! _ := atom (update_event (ce_id event) cancelled_partial []) in
    let event := with_cancelled event true in
    do! _ <- atom (publish (EventV1.CalendarEventUpdate event) (event_topic event));
    do! _ <- lock_linked_softres_sheet (ce_id event);
    do! rsvps <- atom (fetch_rsvps_for_event (ce_id event));
    do! _ <- (match rsvps with Ok rsvps => notify_cancelled event rsvps | Err _ => Ret tt end);
    ok tt.

(** ** Invitations and answers *)

Definition fetch_all_members_with_roles (server : string) (roles : list string) (w : World)
    : World * Result (list Member) :=
  (w, Ok (List.filter (fun m => str_eqb (member_server m) server
                                && existsb (fun r => existsb (str_eqb r) roles) (member_roles m))
            (hm_values (db_members (w_db w))))).

(** The invited and the skipped so far *)
Fixpoint invite_all (user : User) (event : CalendarEvent) (channel_target : option (option Channel.t))
    (invitees : list string) (acc : InviteResult) : Eff World InviteResult :=
  match invitees with
  | [] => ok acc
  | uid :: invitees =>
      let skip := mkInvited (ir_invited acc) (ir_skipped acc + 1) in
      do! member <- atom (from_db (fun db => fetch_member db (ce_server event) uid));
      match member with
      | Err _ => invite_all user event channel_target invitees skip
      | Ok _ =>
          let! visible :=
            match channel_target with
            | None => ok true
            | Some target => consult (row_visible event target uid)
            end in
          if negb visible then invite_all user event channel_target invitees skip
          else
            let! invited := invite (ce_id event) uid (user_id user) in
            if invited then
              do! _ <- atom (publish_private (EventV1.CalendarEventInvite event) uid);
              do! _ <- atom (calendar_event_notify (payload_of CalendarEventNotification.Invited event uid None));
              invite_all user event channel_target invitees (mkInvited (ir_invited acc + 1) (ir_skipped acc))
            else invite_all user event channel_target invitees skip
      end
  end.

Definition to_hash_set (ids : list string) : gmap string unit := list_to_map ((fun id => (id, tt)) <$> ids).

Definition invite_to_event (user : User) (target : string) (data : DataInviteToEvent) : Eff World InviteResult :=
  let! _ := require_events_enabled in
  if negb (valid_invite data) then fail (ErrorType.FailedValidation validation_error)
  else
    let users := default [] (di_users data) in
    let roles := default [] (di_roles data) in
    if bool_decide (users = []) && bool_decide (roles = [])
    then fail (ErrorType.FailedValidation "users_or_roles")
    else
      let! event := atom (fetch_event target) in
      let! _ := authorize_manage user event in
      if ce_cancelled event then fail ErrorType.InvalidOperation
      else
        let! holders :=
          match roles with
          | [] => ok []
          | _ =>
              let! server := atom (from_db (fun db => fetch_server db (ce_server event))) in
              if existsb (fun role => bool_decide (server_roles server !! role = None)) roles
              then fail ErrorType.NotFound
              else
                let! members := atom (fetch_all_members_with_roles (ce_server event) roles) in
                ok (member_user <$> members)
          end in
        let invitees := to_hash_set (users ++ holders) in
        let! channel_target :=
          match ce_channel event with
          | None => ok None
          | Some channel_id =>
              do! channel <- atom (from_db (fun db => Audience.fetch_channel db channel_id));
              match channel with
              | Ok channel =>
                  let! t := consult (fun w => Some (Ok (resolve_event_channel_target (w_db w) channel))) in
                  ok (Some t)
              | Err ErrorType.NotFound => ok (Some None)
              | Err error => fail error
              end
          end in
        invite_all user event channel_target (hm_keys invitees) (mkInvited 0 0).

Definition uninvite_from_event (user : User) (target member : string) : Eff World unit :=
  let! _ := require_events_enabled in
  let! event := atom (fetch_event target) in
  let! _ := authorize_manage user event in
  atom (delete_rsvp (ce_id event) member).

Definition set_rsvp (user : User) (target : string) (target_status : RsvpStatus.t) : Eff World EventRsvp :=
  let! _ := require_events_enabled in
  let! event := atom (fetch_event target) in
  let! _ :=
    match target_status with
    | RsvpStatus.NotGoing =>
        let! _ := or_not_found (atom (from_db (fun db => fetch_member db (ce_server event) (user_id user)))) in
        do! views <- authorize_view user event;
        match views with
        | Ok _ => ok tt
        | Err _ => let! _ := or_not_found (atom (fetch_rsvp (ce_id event) (user_id user))) in ok tt
        end
    | _ => authorize_view user event
    end in
  if ce_cancelled event then fail ErrorType.InvalidOperation
  else
    let! rsvp := or_not_found (atom (fetch_rsvp (ce_id event) (user_id user))) in
    do! now <- now_ms;
    let! rsvp := Ret (apply_response rsvp target_status now) in
    let! _ := atom (update_rsvp rsvp) in
    do! _ <- atom (publish (EventV1.CalendarEventRsvp rsvp) (event_topic event));
    ok rsvp.

Definition by_user (a b : EventRsvp) : bool := str_leb (rk_user (rv_id a)) (rk_user (rv_id b)).

Definition fetch_attendees (user : User) (target : string) (limit : option Z) (before : option string)
    : Eff World (list EventRsvp) :=
  let! _ := require_events_enabled in
  let! event := atom (fetch_event target) in
  let! _ := authorize_view user event in
  let! rsvps := atom (fetch_rsvps_for_event (ce_id event)) in
  let rsvps := sort_by by_user rsvps in
  let limit := Z.min (default MAX_ATTENDEES_PAGE limit) MAX_ATTENDEES_PAGE in
  ok (take (Z.to_nat limit)
        (List.filter (fun r => match before with
                               | None => true
                               | Some cursor => str_ltb cursor (rk_user (rv_id r))
                               end) rsvps)).

(** ** The soonest events of every server *)

(** The event as a row, when it is new, not cancelled, visible and has an
    occurrence from [from] on; [None] is a panic *)
Definition candidate (now : Z) (viewer : EventViewer) (seen : gset string) (event : CalendarEvent) (from to : Z)
    : option (EventViewer * gset string * option Candidate) :=
  if ce_cancelled event then Some (viewer, seen, None)
  else if bool_decide (ce_id event ∈ seen) then Some (viewer, seen, None)
  else
    let seen := {[ce_id event]} ∪ seen in
    match can_view now viewer (anchor event) with
    | None => None
    | Some (viewer, false) => Some (viewer, seen, None)
    | Some (viewer, true) =>
        match occurrences_in_window event from to with
        | None => None
        | Some occurrences =>
            match List.filter (fun start => from <=? start) occurrences with
            | [] => Some (viewer, seen, None)
            | key :: rest => Some (viewer, seen, Some (mkCandidate key event (key :: rest)))
            end
        end
    end.

(** [for event in series] *)
Fixpoint series_rows (now : Z) (viewer : EventViewer) (seen : gset string) (from to : Z) (out : list Candidate)
    (series : list CalendarEvent) : option (EventViewer * gset string * list Candidate) :=
  match series with
  | [] => Some (viewer, seen, out)
  | event :: series =>
      match candidate now viewer seen event from to with
      | None => None
      | Some (viewer, seen, row) =>
          series_rows now viewer seen from to (match row with Some row => out ++ [row] | None => out end) series
      end
  end.

(** [for event in page]: [true] when [limit] was reached *)
Fixpoint page_rows (now : Z) (viewer : EventViewer) (seen : gset string) (from to limit visible : Z)
    (out : list Candidate) (page : list CalendarEvent)
    : option (bool * EventViewer * gset string * Z * list Candidate) :=
  match page with
  | [] => Some (false, viewer, seen, visible, out)
  | event :: page =>
      match candidate now viewer seen event from to with
      | None => None
      | Some (viewer, seen, None) => page_rows now viewer seen from to limit visible out page
      | Some (viewer, seen, Some row) =>
          let visible := visible + 1 in
          let out := out ++ [row] in
          if limit <=? visible then Some (true, viewer, seen, visible, out)
          else page_rows now viewer seen from to limit visible out page
      end
  end.

(** ['pages: while ..]: the offset grows by a page each time, so six turns
    are enough. *)
Fixpoint oneoff_pages (fuel : nat) (now : Z) (viewer : EventViewer) (seen : gset string) (server : string)
    (from to limit offset visible : Z) (out : list Candidate) : Eff World (list Candidate) :=
  match fuel with
  | O => Panic
  | S fuel =>
      if (offset <? SCAN_BUDGET) && (visible <? limit) then
        let page_size := Z.min PAGE (SCAN_BUDGET - offset) in
        let! page := atom (fetch_upcoming_oneoffs_for_server server from to offset page_size) in
        match page with
        | [] => ok out
        | _ =>
            match page_rows now viewer seen from to limit visible out page with
            | None => Panic
            | Some (true, _, _, _, out) => ok out
            | Some (false, viewer, seen, visible, out) =>
                oneoff_pages fuel now viewer seen server from to limit (offset + page_size) visible out
            end
        end
      else ok out
  end.

(** The viewer of a server looks at users, servers, members and channels as
    they were when it was made. *)
Definition upcoming_for_server (user : User) (member : Member) (from to limit : Z) : Eff World (list Candidate) :=
  let server := member_server member in
  do! (now, viewer) <- atom (fun w => (w, (w_now w, with_memberships (w_db w) user [member])));
  let! series := atom (fetch_upcoming_series_for_server server from to SERIES_CAP) in
  match series_rows now viewer ∅ from to [] series with
  | None => Panic
  | Some (viewer, seen, out) =>
      let! out := oneoff_pages 6 now viewer seen server from to limit 0 0 out in
      ok (take (Z.to_nat limit) (sort_by by_key_then_id out))
  end.

Definition fetch_all_memberships (user : string) (w : World) : World * Result (list Member) :=
  (w, Ok (List.filter (fun m => str_eqb (member_user m) user) (hm_values (db_members (w_db w))))).

(** The servers are worked on side by side and their rows kept in order. *)
Fixpoint per_server (user : User) (members : list Member) (from to limit : Z) : Eff World (list Candidate) :=
  match members with
  | [] => ok []
  | member :: members =>
      let! rows := upcoming_for_server user member from to limit in
      let! rest := per_server user members from to limit in
      ok (rows ++ rest)
  end.

Definition by_server (a b : Member) : bool := str_leb (member_server a) (member_server b).

Definition collect_upcoming (user : User) (from to limit : Z) : Eff World (list Candidate) :=
  let! members := atom (fetch_all_memberships (user_id user)) in
  let members := take (Z.to_nat MAX_UPCOMING_SERVERS) (sort_by by_server members) in
  let! rows := per_server user members from to limit in
  ok (take (Z.to_nat limit) (sort_by by_key_then_id rows)).

Definition list_upcoming_events (user : User) (from to limit : option Z) : Eff World (list EventWithOccurrences) :=
  let! _ := require_events_enabled in
  if bool_decide (is_Some (user_bot_owner user)) then fail ErrorType.IsBot
  else
    match from, to with
    | Some from, Some to =>
        if negb (window_ok from to MAX_UPCOMING_WINDOW_MS) then fail (ErrorType.FailedValidation "window")
        else
          let limit := default DEFAULT_LIMIT limit in
          if negb ((1 <=? limit) && (limit <=? MAX_LIMIT)) then fail (ErrorType.FailedValidation "limit")
          else
            do! rows <- collect_upcoming user from to limit;
            match rows with
            | Ok rows => ok ((fun row => mkWithOccurrences (cd_event row) (cd_occurrences row)) <$> rows)
            | Err ErrorType.NotFound => fail ErrorType.InternalError
            | Err error => fail error
            end
    | _, _ => fail (ErrorType.FailedValidation "window")
    end.

(** ** The reminder job *)

(** Every user of [recipients] about one occurrence; the number of messages
    the broker took *)
Fixpoint remind_users (event : CalendarEvent) (occurrence offset : Z) (recipients : list string) (sent : Z)
    : prog World Z :=
  match recipients with
  | [] => Ret sent
  | user :: recipients =>
      do! marked <- atom (mark_reminder_sent_if_absent (mkReminderKey (ce_id event) user occurrence offset));
      match marked with
      | Ok true =>
          do! taken <- atom (calendar_event_notify
                         (payload_of CalendarEventNotification.Reminder event user (Some (occurrence, offset))));
          remind_users event occurrence offset recipients (if taken then sent + 1 else sent)
      | Ok false | Err _ => remind_users event occurrence offset recipients sent
      end
  end.

Fixpoint remind_due (event : CalendarEvent) (due : list (Z * Z)) (recipients : list string) (sent : Z)
    : prog World Z :=
  match due with
  | [] => Ret sent
  | (occurrence, offset) :: due =>
      do! sent <- remind_users event occurrence offset recipients sent;
      remind_due event due recipients sent
  end.

Fixpoint still_members (server : string) (users : list string) : prog World (list string) :=
  match users with
  | [] => Ret []
  | user :: users =>
      do! member <- atom (from_db (fun db => fetch_member db server user));
      do! rest <- still_members server users;
      Ret (if is_ok member then user :: rest else rest)
  end.

Definition going_users (rsvps : list EventRsvp) : list string :=
  (fun r => rk_user (rv_id r)) <$> List.filter (fun r => is_going (rv_status r)) rsvps.

Definition remind_event (event : CalendarEvent) (now sent : Z) : prog World Z :=
  do! due <- or_panic (reminders_due_for_event event now);
  match due with
  | [] => Ret sent
  | _ =>
      do! rsvps <- atom (fetch_rsvps_for_event (ce_id event));
      match rsvps with
      | Err _ => Ret sent
      | Ok rsvps =>
          match going_users rsvps with
          | [] => Ret sent
          | going =>
              do! recipients <- still_members (ce_server event) going;
              match recipients with
              | [] => Ret sent
              | _ => remind_due event due recipients sent
              end
          end
      end
  end.

Fixpoint remind_events (events : list CalendarEvent) (now sent : Z) : prog World Z :=
  match events with
  | [] => Ret sent
  | event :: events => do! sent <- remind_event event now sent; remind_events events now sent
  end.

Definition RETENTION_MS : Z := 24 * 60 * 60 * 1000.

(** One turn of the loop of [task] *)
Definition reminder_tick : Eff World unit :=
  do! now <- now_ms;
  let max_offset := foldr Z.max 0 REMINDER_OFFSETS_MS in
  let! events := atom (fetch_events_in_reminder_window (now + max_offset) (now - REMINDER_GRACE_MS)) in
  do! _ <- remind_events events now 0;
  do! _ <- atom (delete_reminders_sent_before (now - RETENTION_MS));
  ok tt.
End Routes.
