(* ===== verification/CalendarSeries.v ===== *)
(** * What the occurrence engine promises

    The series of an event is defined by its full expansion; the bounded
    expansions, the window of a listing and the reminders that are due are
    filters of it.  A stored event carries a first instant and a last one:
    they enclose its series, except for the start in a repeated hour. *)

From stdpp Require Import base numbers list gmap strings sorting.
From S2P Require Import Prelude Text Errors Program Permissions Store PermissionQueryDb Audience CalendarTime Calendar CivilTime.
Open Scope Z_scope.

Section Series.
Context `{ChronoLaws}.

(** ** The expansion *)

Lemma emit_length tz until cap cands : forall out res,
  emit tz until cap cands out = Some res -> Z.of_nat (length out) <= cap -> Z.of_nat (length res) <= cap.
Proof.
  induction cands as [|c cands IH]; intros out res He Ho; cbn [emit] in He; [by simplify_eq|].
  destruct (room cap out) eqn:Er; [|by simplify_eq]. unfold append_occurrence in He.
  destruct (local_to_utc_ms tz c) as [ms|]; [|done].
  destruct (match until with Some u => u <? ms | None => false end); [by simplify_eq|].
  eapply IH; [exact He|]. rewrite length_app. simpl. unfold room in Er. to_prop. lia.
Qed.

(** The wall clock of an event's start *)
Definition start_local (event : CalendarEvent) : option NaiveDateTime :=
  naive_local (zone_of (ce_timezone event)) (ms_to_utc (ce_start event)).

(** The start is a month away from the ends of the calendar. *)
Definition starts_in_calendar (event : CalendarEvent) : Prop :=
  exists sl, start_local event = Some sl /\ in_calendar (date sl).

Lemma starts_exist event stop :
  (ce_recurrence event <> None -> starts_in_calendar event) ->
  is_Some (series_occurrence_starts_bounded event stop).
Proof.
  intros Hin. destruct (ce_recurrence event) as [rule|] eqn:Er.
  - destruct (Hin ltac:(done)) as (sl & Hl & Hc). by eapply starts_total.
  - unfold series_occurrence_starts_bounded. rewrite Er.
    destruct (match stop with Some _ => _ | None => _ end); eauto.
Qed.

Definition series_limit (event : CalendarEvent) : Z :=
  match ce_recurrence event with Some rule => Z.max 0 (count_cap_of (rr_end rule)) | None => 1 end.

Lemma starts_length event stop starts :
  series_occurrence_starts_bounded event stop = Some starts -> Z.of_nat (length starts) <= series_limit event.
Proof.
  unfold series_limit. destruct (ce_recurrence event) as [rule|] eqn:Er.
  - destruct (start_local event) as [sl|] eqn:El.
    + rewrite (bounded_emit _ _ _ _ Er El). destruct (candidates rule sl) as [cands|]; [|done].
      intros He. destruct (Z.le_gt_cases 0 (count_cap_of (rr_end rule))) as [Hc|Hc].
      * apply emit_length in He; [lia | done].
      * rewrite emit_full in He; [simplify_eq; simpl; lia|]. unfold room. apply Z.ltb_ge. simpl. lia.
    + unfold series_occurrence_starts_bounded. rewrite Er. cbv zeta. unfold start_local in El. by rewrite El.
  - unfold series_occurrence_starts_bounded. rewrite Er.
    destruct (match stop with Some _ => _ | None => _ end); intros; simplify_eq; simpl; lia.
Qed.

Definition excepted (event : CalendarEvent) (s : Z) : bool := bool_decide (s ∈ exception_set event).

Lemma filter_and {A} (p q : A -> bool) (l : list A) :
  List.filter p (List.filter q l) = List.filter (fun x => q x && p x) l.
Proof.
  induction l as [|x l IH]; simpl; [done|]. destruct (q x); simpl; [|done]. by rewrite IH.
Qed.

(** An occurrence that overlaps a window *)
Definition overlaps (event : CalendarEvent) (from to s : Z) : bool :=
  negb (excepted event s) && ((s <=? to) && (from <=? saturating_add_i64 s (Z.max (ce_duration_ms event) 0))).

Lemma window_filter event from to starts :
  series_occurrence_starts event = Some starts ->
  occurrences_in_window event from to = Some (List.filter (overlaps event from to) starts).
Proof.
  intros Hs. unfold occurrences_in_window. rewrite (bounded_filter _ _ _ Hs). f_equal.
  rewrite !filter_and. apply List.filter_ext. intros s. unfold overlaps, excepted, not_after.
  destruct (s <=? to), (bool_decide _), (from <=? _); reflexivity.
Qed.

(** ** Reminders *)

Lemma due_offsets_spec now occ offsets :
  Forall (fun o => is_i64 (occ - o)) offsets ->
  exists due, due_offsets now occ offsets = Some due /\
    forall o x, (o, x) ∈ due <-> o = occ /\ x ∈ offsets /\ now - REMINDER_GRACE_MS < occ - x <= now.
Proof.
  induction offsets as [|x offsets IH]; intros Hf; cbn [due_offsets].
  { exists []. split; [done|]. intros o x. rewrite !elem_of_nil. tauto. }
  apply Forall_cons in Hf as [Hx Hf]. destruct (IH Hf) as (rest & -> & Hr).
  assert (checked_sub_i64 occ x = Some (occ - x)) as ->.
  { unfold checked_sub_i64, in_i64. destruct (_ && _) eqn:E; [done|]. unfold is_i64 in Hx. to_prop. lia. }
  eexists. split; [done|]. intros o y.
  destruct ((occ - x <=? now) && (now - REMINDER_GRACE_MS <? occ - x)) eqn:E; rewrite !elem_of_cons, Hr.
  - to_prop. split; [intros [Heq|Hin]; [simplify_eq; split_and!; [done | by left | lia..] | tauto]|].
    intros (-> & [->|Hin] & Hb); [by left | by right].
  - rewrite ?elem_of_cons. split; [tauto|]. intros (-> & [->|Hin] & Hb); [|tauto].
    exfalso. to_prop. lia.
Qed.

Lemma due_occurrences_spec now exceptions offsets occs :
  Forall (fun occ => Forall (fun o => is_i64 (occ - o)) offsets) occs ->
  exists due, due_occurrences now exceptions offsets occs = Some due /\
    forall occ x, (occ, x) ∈ due <->
      occ ∈ occs /\ occ ∉ exceptions /\ x ∈ offsets /\ now - REMINDER_GRACE_MS < occ - x <= now.
Proof.
  induction occs as [|c occs IH]; intros Hf; cbn [due_occurrences].
  { exists []. split; [done|]. intros occ x. rewrite !elem_of_nil. tauto. }
  apply Forall_cons in Hf as [Hc Hf]. destruct (IH Hf) as (rest & -> & Hr).
  case_bool_decide as He.
  - exists rest. split; [done|]. intros occ x. rewrite Hr, elem_of_cons. naive_solver.
  - destruct (due_offsets_spec now c offsets Hc) as (due & -> & Hd). eexists. split; [done|].
    intros occ x. rewrite elem_of_app, Hd, Hr, elem_of_cons. naive_solver.
Qed.

(** A reminder of an event that comes due at [now] *)
Definition due_at (event : CalendarEvent) (starts : list Z) (now occ lead : Z) : Prop :=
  ce_cancelled event = false /\ occ ∈ starts /\ occ ∉ exception_set event /\
  lead ∈ reminder_offsets (ce_all_day event) /\ now - REMINDER_GRACE_MS < occ - lead <= now.

Lemma reminder_offsets_range all_day o : o ∈ reminder_offsets all_day -> 0 <= o <= 1800000.
Proof.
  unfold reminder_offsets, REMINDER_OFFSETS_MS. destruct all_day; cbn [foldr]; rewrite !elem_of_cons, elem_of_nil; lia.
Qed.

Lemma max_offset_bound all_day o :
  o ∈ reminder_offsets all_day -> o <= foldr Z.max 0 (reminder_offsets all_day).
Proof.
  unfold reminder_offsets, REMINDER_OFFSETS_MS. destruct all_day; cbn [foldr]; rewrite !elem_of_cons, elem_of_nil; lia.
Qed.

(** Half an hour from the ends of the type *)
Definition instant_ok (s : Z) : Prop := i64_min + 1800000 <= s <= i64_max.

Lemma reminders_due_spec event starts now :
  series_occurrence_starts event = Some starts -> Forall instant_ok starts ->
  exists due, reminders_due_for_event event now = Some due /\
    forall occ lead, (occ, lead) ∈ due <-> due_at event starts now occ lead.
Proof.
  intros Hs Hi. unfold reminders_due_for_event, due_at. destruct (ce_cancelled event).
  { exists []. split; [done|]. intros occ lead. rewrite elem_of_nil. naive_solver. }
  cbv zeta. rewrite (bounded_filter _ _ _ Hs).
  edestruct due_occurrences_spec as (due & Hd & Hspec); [|exists due; split; [exact Hd|]].
  - apply Forall_forall. intros occ [_ Hin]%elem_of_filter_bool. apply Forall_forall. intros o Ho.
    apply reminder_offsets_range in Ho. rewrite Forall_forall in Hi. specialize (Hi occ Hin).
    unfold instant_ok in Hi. int_solve.
  - intros occ lead. rewrite Hspec, elem_of_filter_bool. unfold not_after. rewrite Z.leb_le.
    split; [tauto|]. intros (_ & Hin & Hex & Ho & Hb). split_and!; [|done..|lia|lia].
    pose proof (max_offset_bound _ _ Ho). lia.
Qed.

(** ** The first and the last instant *)

(** Valid, with the fields that are computed up to date *)
Record in_sync (e : CalendarEvent) : Prop := {
  sync_valid : validate e = Some (Ok tt);
  sync_duration : recompute_duration e = Some e;
  sync_end : compute_series_end e = Some (ce_series_end e);
}.

(** The start is the earliest instant of its wall clock, inside the calendar. *)
Definition anchored (e : CalendarEvent) : Prop :=
  exists sl, start_local e = Some sl /\ in_calendar (date sl) /\
    local_to_utc_ms (zone_of (ce_timezone e)) sl = Some (ce_start e).

Lemma anchored_in_calendar e : anchored e -> starts_in_calendar e.
Proof. intros (sl & Hl & Hc & _). by exists sl. Qed.

Lemma valid_rule e rule :
  validate e = Some (Ok tt) -> ce_recurrence e = Some rule -> validate_rule e rule = Some (Ok tt).
Proof.
  unfold validate. intros Hv Hr. rewrite Hr in Hv. destruct (_ || _); [done|]. destruct (parse_tz _); [|done].
  destruct (longer_than _ 2000); [done|]. destruct (longer_than _ 200); [done|].
  destruct (longer_than _ 32); [done|].
  by destruct (match ce_end e with Some _ => _ | None => _ end).
Qed.

Lemma rule_anchor e rule sl :
  validate_rule e rule = Some (Ok tt) -> start_local e = Some sl -> anchored_weekday rule sl.
Proof.
  unfold validate_rule, anchored_weekday. intros Hv Hl. destruct (negb (_ && _)); [done|].
  destruct (MAX_OCCURRENCES <? _); [done|]. cbv zeta in Hv.
  case_bool_decide as Hw; cbn [negb andb] in Hv; [by left|]. right.
  destruct (negb (match rr_freq rule with Frequency.Weekly => true | _ => false end)); [done|].
  destruct (existsb _ _) eqn:Ex; [|done]. apply List.existsb_exists in Ex as (w & Hin & Hw').
  apply Z.eqb_eq in Hw'. apply list_elem_of_fmap. exists w. split; [|by apply list_elem_of_In].
  by rewrite Hw', (local_weekday_eq _ _ _ Hl).
Qed.

Lemma rule_end e rule :
  validate_rule e rule = Some (Ok tt) ->
  1 <= count_cap_of (rr_end rule) /\
  match until_of (rr_end rule) None with Some until => ce_start e <= until | None => True end.
Proof.
  unfold validate_rule. destruct (negb (_ && _)); [done|]. destruct (MAX_OCCURRENCES <? Z.of_nat (length (rr_exceptions rule))); [done|].
  cbv zeta. destruct (_ && negb _); [done|]. destruct (_ && negb _); [done|].
  destruct (rr_end rule) as [count|t]; cbn [count_cap_of until_of].
  - destruct ((count <? 1) || (MAX_OCCURRENCES <? count)) eqn:E; [done|]. intros _. unfold MAX_OCCURRENCES in *.
    to_prop. lia.
  - destruct (t <? ce_start e) eqn:E; [done|]. intros _. unfold MAX_OCCURRENCES. to_prop. lia.
Qed.

(** The first occurrence is the start. *)
Lemma first_start e starts :
  validate e = Some (Ok tt) -> (ce_recurrence e <> None -> anchored e) ->
  series_occurrence_starts e = Some starts -> exists rest, starts = ce_start e :: rest.
Proof.
  intros Hv Ha Hs. unfold series_occurrence_starts in Hs. destruct (ce_recurrence e) as [rule|] eqn:Er.
  - destruct (Ha ltac:(done)) as (sl & Hl & Hc & Hm). pose proof (valid_rule _ _ Hv Er) as Hr.
    rewrite (bounded_emit _ _ _ None Er Hl) in Hs. destruct (candidates rule sl) as [cands|] eqn:Ec; [|done].
    destruct (candidates_first _ _ _ Hc (rule_anchor _ _ _ Hr Hl) Ec) as [rest ->].
    destruct (rule_end _ _ Hr) as [Hcap Hu]. cbn [emit] in Hs.
    assert (room (count_cap_of (rr_end rule)) [] = true) as Hroom by (unfold room; apply Z.ltb_lt; simpl; lia).
    rewrite Hroom in Hs. unfold append_occurrence in Hs. rewrite Hm in Hs.
    destruct (until_of (rr_end rule) None) as [until|].
    + assert (until <? ce_start e = false) as Hlt by (apply Z.ltb_ge; lia). rewrite Hlt in Hs.
      apply emit_taken in Hs as (k & full & -> & _). by exists full.
    + apply emit_taken in Hs as (k & full & -> & _). by exists full.
  - unfold series_occurrence_starts_bounded in Hs. rewrite Er in Hs. simplify_eq. by exists [].
Qed.

Lemma sorted_last (l : list Z) s : StronglySorted Z.le l -> s ∈ l -> exists m, last l = Some m /\ s <= m.
Proof.
  intros Hs Hin. destruct l as [|x l] using rev_ind; [by apply not_elem_of_nil in Hin|]. exists x.
  rewrite last_snoc. split; [done|]. clear IHl. apply elem_of_app in Hin as [Hin|Hin].
  - induction l as [|y l IH]; [by apply not_elem_of_nil in Hin|]. simpl in Hs.
    apply StronglySorted_inv in Hs as [Hs Hy]. apply elem_of_cons in Hin as [->|Hin]; [|by apply IH].
    rewrite Forall_forall in Hy. apply Hy, elem_of_app. right. by left.
  - apply elem_of_cons in Hin as [->|Hin]; [lia | by apply not_elem_of_nil in Hin].
Qed.

Lemma duration_eq e :
  recompute_duration e = Some e ->
  ce_duration_ms e = match ce_end e with Some end_ => Z.max (end_ - ce_start e) 0 | None => 0 end.
Proof.
  unfold recompute_duration. destruct (ce_end e) as [end_|]; [destruct (checked_sub_i64 _ _) as [d|] eqn:Ed|];
    [|done|]; intros Heq; apply (f_equal (from_option ce_duration_ms 0)) in Heq; cbn in Heq; [|done].
  apply checked_sub_i64_Some in Ed as [-> _]. done.
Qed.

(** Every occurrence lies between the start and the end of the series. *)
Lemma series_enclosed e starts s :
  in_sync e -> is_i64 (ce_start e) -> (ce_recurrence e <> None -> anchored e) ->
  series_occurrence_starts e = Some starts -> s ∈ starts ->
  ce_start e <= s /\ saturating_add_i64 s (Z.max (ce_duration_ms e) 0) <= ce_series_end e.
Proof.
  intros [Hv Hd He] Hi Ha Hs Hin. pose proof (starts_sorted _ _ _ Hs) as Hsort.
  destruct (first_start _ _ Hv Ha Hs) as [rest ->]. split.
  { apply StronglySorted_inv in Hsort as [_ Hall]. apply elem_of_cons in Hin as [->|Hin]; [lia|].
    rewrite Forall_forall in Hall. by apply Hall. }
  unfold compute_series_end in He. destruct (ce_recurrence e) as [rule|] eqn:Er.
  - rewrite Hs in He. destruct (sorted_last _ _ Hsort Hin) as (m & Hm & Hle). rewrite Hm in He.
    injection He as <-. unfold saturating_add_i64, clamp_i64. cbn [default from_option]. unfold id. lia.
  - unfold series_occurrence_starts, series_occurrence_starts_bounded in Hs. rewrite Er in Hs. simplify_eq.
    apply elem_of_cons in Hin as [->|Hin]; [|by apply not_elem_of_nil in Hin].
    rewrite (duration_eq _ Hd). rewrite <- He. destruct (ce_end e) as [end_|] eqn:Ee;
      cbn [default from_option]; unfold id, saturating_add_i64, clamp_i64.
    + assert (ce_start e < end_); [|unfold_ints; lia].
      unfold validate in Hv. rewrite Er, Ee in Hv. destruct (_ || _); [done|]. destruct (parse_tz _); [|done].
      destruct (longer_than _ 2000); [done|]. destruct (longer_than _ 200); [done|].
      destruct (longer_than _ 32); [done|]. destruct (end_ <=? ce_start e) eqn:E; [done|]. to_prop. lia.
    + unfold_ints. lia.
Qed.
Lemma listing_window e starts from to s :
  in_sync e -> instant_ok (ce_start e) -> (ce_recurrence e <> None -> anchored e) ->
  series_occurrence_starts e = Some starts -> s ∈ starts -> overlaps e from to s = true ->
  in_window (ce_server e) from to e = true.
Proof.
  intros Hsync Hi Ha Hs Hin Ho. assert (is_i64 (ce_start e)) as Hi' by (unfold instant_ok in Hi; int_solve).
  unfold overlaps in Ho. to_prop. destruct Ho as (_ & Hto & Hfrom).
  destruct (series_enclosed _ _ _ Hsync Hi' Ha Hs Hin) as [H1 H2].
  unfold in_window. rewrite str_eqb_refl. to_prop. lia.
Qed.

Lemma reminder_window e starts now occ lead :
  in_sync e -> instant_ok (ce_start e) -> (ce_recurrence e <> None -> anchored e) ->
  series_occurrence_starts e = Some starts -> is_i64 occ -> due_at e starts now occ lead ->
  in_reminder_window (now + foldr Z.max 0 REMINDER_OFFSETS_MS) (now - REMINDER_GRACE_MS) e = true.
Proof.
  intros Hsync Hi Ha Hs Hocc (Hc & Hin & _ & Ho & Hb).
  assert (is_i64 (ce_start e)) as Hi' by (unfold instant_ok in Hi; int_solve).
  destruct (series_enclosed _ _ _ Hsync Hi' Ha Hs Hin) as [H1 H2].
  apply reminder_offsets_range in Ho. unfold in_reminder_window. rewrite Hc. cbn [negb andb].
  change (foldr Z.max 0 REMINDER_OFFSETS_MS) with 1800000.
  pose proof (Z.le_max_r (ce_duration_ms e) 0). unfold saturating_add_i64, clamp_i64 in H2.
  to_prop. unfold_ints. lia.
Qed.
End Series.

(** ** Theorems *)


(** The reminders due at an instant are exactly those of the occurrences that
    are not excepted, half an hour before and at the start (at the start only
    for a whole day), whose time came within the last five minutes; a
    cancelled event has none. *)
Theorem reminders_due_exact `{ChronoLaws} (event : CalendarEvent) (starts : list Z) (now : Z) :
  series_occurrence_starts event = Some starts -> Forall instant_ok starts ->
  exists due, reminders_due_for_event event now = Some due /\
    forall occ lead, (occ, lead) ∈ due <-> due_at event starts now occ lead.
Proof. apply reminders_due_spec. Qed.

(** The two coarse queries on the first and last instant of a series miss
    nothing: an event with an occurrence in the window is a candidate of the
    listing, and one with a reminder due is a candidate of the reminder job.
    The start has to be the earliest instant of its wall clock. *)
Theorem coarse_queries_complete `{ChronoLaws} (e : CalendarEvent) (starts : list Z) :
  in_sync e -> instant_ok (ce_start e) -> (ce_recurrence e <> None -> anchored e) ->
  series_occurrence_starts e = Some starts ->
  (forall from to s, s ∈ starts -> overlaps e from to s = true -> in_window (ce_server e) from to e = true) /\
  (forall now occ lead, is_i64 occ -> due_at e starts now occ lead ->
     in_reminder_window (now + foldr Z.max 0 REMINDER_OFFSETS_MS) (now - REMINDER_GRACE_MS) e = true).
Proof.
  intros Hsync Hi Ha Hs. split.
  - intros from to s. by apply listing_window.
  - intros now occ lead. by apply reminder_window.
Qed.

(** *** A meeting in New York *)

(** Every day at nine from Friday 8 March 2024, over the spring change of the
    clocks, five times *)
Definition standup_rule : RecurrenceRule := mkRule Frequency.Daily 1 [] (RecurrenceEnd.Count 5) [1709992800000].

Definition standup : CalendarEvent :=
  mkEvent "e" "s" None "u" "Standup" None None 1709906400000 (Some 1709908200000) 1800000 1710250200000 false
    "America/New_York" (Some standup_rule) None false None None 0 None.

Lemma standup_starts :
  series_occurrence_starts standup = Some [1709906400000; 1709992800000; 1710075600000; 1710162000000; 1710248400000].
Proof. vm_compute. reflexivity. Qed.

Lemma standup_anchored : anchored standup.
Proof.
  exists 1709888400000. split_and!; [by vm_compute | | by vm_compute].
  split; [by vm_compute; eauto|]. vm_compute. eauto.
Qed.

Lemma standup_in_sync : in_sync standup.
Proof. split; vm_compute; reflexivity. Qed.


Lemma reminders_due_exact_witness :
  exists due, reminders_due_for_event standup 1710073860000 = Some due /\ (1710075600000, 1800000) ∈ due.
Proof.
  destruct (reminders_due_exact standup _ 1710073860000 standup_starts) as (due & Hd & Hspec).
  { repeat constructor; unfold instant_ok, i64_min, i64_max; lia. }
  exists due. split; [done|]. apply Hspec. unfold due_at. cbn [ce_cancelled ce_all_day standup]. split_and!.
  - done.
  - do 2 right. left.
  - by apply (bool_decide_eq_false_1 _), (eq_refl false).
  - left.
  - by vm_compute.
  - by vm_compute.
Defined.

Lemma coarse_queries_complete_witness :
  in_window "s" 1710162000000 1710163000000 standup = true.
Proof.
  destruct (coarse_queries_complete standup _ standup_in_sync ltac:(unfold instant_ok, i64_min, i64_max; cbn; lia)
              (fun _ => standup_anchored) standup_starts) as [Hw _].
  apply (Hw _ _ 1710162000000); [do 3 right; left | by vm_compute].
Defined.

(** *** A start in the repeated hour *)

(** Every day from half past one of the second hour after one on 3 November
    2024 *)
Definition nightcap : CalendarEvent :=
  mkEvent "n" "s" None "u" "Nightcap" None None 1730615400000 (Some 1730616300000) 900000 1730702700000 false
    "America/New_York" (Some (mkRule Frequency.Daily 1 [] (RecurrenceEnd.Count 2) [])) None false None None 0 None.

(** An event that starts in the second of two equal hours is valid, but its
    series starts an hour before its start, and the window query of a listing
    does not find that first occurrence. *)
Theorem repeated_hour_missed :
  in_sync nightcap /\
  series_occurrence_starts nightcap = Some [ce_start nightcap - hour_ms; ce_start nightcap + day_ms] /\
  let from := ce_start nightcap - hour_ms in
  let to := ce_start nightcap - 1 in
  occurrences_in_window nightcap from to = Some [from] /\ in_window (ce_server nightcap) from to nightcap = false.
Proof. split; [split|]; vm_compute; repeat split. Qed.
