(* ===== verification/CalendarSystem.v ===== *)
(** * The calendar under load

    Any number of requests, jobs and deletions interleave, and any of them
    may stop half way.  What a handler does is first reduced to the kinds of
    operation it is made of; each invariant is then checked against the kinds. *)

From stdpp Require Import base numbers relations list gmap strings sorting.
From S2P Require Import Prelude Text Errors Program Permissions Store PermissionQueryDb Audience CalendarTime Calendar CalendarRoutes CivilTime CalendarSeries.
Open Scope Z_scope.
Open Scope sloga_scope.

Section System.
Context `{ChronoLaws}.
Context `{!HashIter string CalendarEvent, !HashIter EventRsvpKey EventRsvp, !HashIter string SoftResSheet}.
Context `{!HashIter string Channel.t, !HashIter (string * string) Member}.
Context `{!HashIter string Role, !HashIter string OverrideField.t, !HashIter string unit}.
Context (events_enabled : bool) (validation_error : string).
Context (broker_takes : list CalendarEventPayload -> CalendarEventPayload -> bool).

Local Abbreviation notify := (calendar_event_notify broker_takes).

(** ** The operations of the routes *)

Inductive route_op : forall X, (World -> World * X) -> Prop :=
| op_reads X (op : World -> World * X) : (forall w, (op w).1 = w) -> route_op X op
| op_publishes event topic : route_op _ (publish event topic)
| op_notifies payload : cp_kind payload <> CalendarEventNotification.Reminder -> route_op _ (notify payload)
| op_inserts event : in_sync event -> route_op _ (insert_event event)
| op_replaces event : in_sync event -> route_op _ (replace_event event)
| op_cancels id : route_op _ (update_event id cancelled_partial [])
| op_attaches id files : route_op _ (update_event id (set_attachments files) [])
| op_detaches id : route_op _ (update_event id no_changes [FieldsCalendarEvent.Attachments])
| op_deletes id : route_op _ (delete_event id)
| op_rows X (op : World -> World * X) : (forall w, exists rows, (op w).1 = set_rsvps w rows) -> route_op X op
| op_files X (op : World -> World * X) : (forall w, exists files, (op w).1 = set_files w files) -> route_op X op
| op_sheets X (op : World -> World * X) : (forall w, exists sheets, (op w).1 = set_sheets w sheets) -> route_op X op.

(** *** Handlers *)

Lemma consult_ops {A} (f : World -> option (Result A)) : made_of route_op (consult f).
Proof. apply made_of_bind; [by apply made_of_atom, op_reads|]. by intros [r|]. Qed.

Lemma or_panic_ops {A} (o : option A) : made_of route_op (or_panic o).
Proof. by destruct o. Qed.

Lemma now_ops : made_of route_op now_ms.
Proof. by apply made_of_atom, op_reads. Qed.

Lemma from_db_ops {A} (f : Db -> Result A) : made_of route_op (atom (from_db f)).
Proof. by apply made_of_atom, op_reads. Qed.

Lemma or_not_found_ops {A} (c : Eff World A) : made_of route_op c -> made_of route_op (or_not_found c).
Proof. intros Hc. apply made_of_bind; [done|]. by intros [a|e]. Qed.

Lemma enabled_ops : made_of route_op (require_events_enabled events_enabled).
Proof. unfold require_events_enabled. by destruct events_enabled. Qed.

Lemma same_rows w : w = set_rsvps w (w_rsvps w).
Proof. by destruct w. Qed.
Lemma same_files w : w = set_files w (w_files w).
Proof. by destruct w. Qed.
Lemma same_sheets w : w = set_sheets w (w_sheets w).
Proof. by destruct w. Qed.

Lemma rows_op {X} (op : World -> World * X) :
  (forall w, (op w).1 = w \/ exists rows, (op w).1 = set_rsvps w rows) -> made_of route_op (atom op).
Proof.
  intros Hop. apply made_of_atom, op_rows. intros w.
  destruct (Hop w) as [E|E]; [|done]. exists (w_rsvps w). rewrite E. apply same_rows.
Qed.

Lemma files_op {X} (op : World -> World * X) :
  (forall w, (op w).1 = w \/ exists files, (op w).1 = set_files w files) -> made_of route_op (atom op).
Proof.
  intros Hop. apply made_of_atom, op_files. intros w.
  destruct (Hop w) as [E|E]; [|done]. exists (w_files w). rewrite E. apply same_files.
Qed.

Lemma insert_rsvp_ops rsvp : made_of route_op (atom (insert_rsvp_if_absent rsvp)).
Proof. apply rows_op. intros w. unfold insert_rsvp_if_absent. destruct (w_rsvps w !! _); [by left | right; by eexists]. Qed.

Lemma update_rsvp_ops rsvp : made_of route_op (atom (update_rsvp rsvp)).
Proof. apply rows_op. intros w. unfold update_rsvp. destruct (w_rsvps w !! _); [right; by eexists | by left]. Qed.

Lemma delete_rsvp_ops event user : made_of route_op (atom (delete_rsvp event user)).
Proof. apply rows_op. intros w. unfold delete_rsvp. destruct (w_rsvps w !! _); [right; by eexists | by left]. Qed.

Lemma use_attachment_ops id parent uploader : made_of route_op (atom (use_calendar_event_attachment id parent uploader)).
Proof.
  apply files_op. intros w. unfold use_calendar_event_attachment, find_and_use_attachment.
  destruct (w_files w !! _); [|by left]. destruct (_ && _); [right; by eexists | by left].
Qed.

Lemma mark_deleted_ops ids : made_of route_op (atom (mark_attachments_as_deleted ids)).
Proof.
  apply files_op. intros w. unfold mark_attachments_as_deleted.
  destruct (existsb _ _); [by left | right; by eexists].
Qed.

Lemma lock_sheet_ops id : made_of route_op (atom (set_sheet_locked_if_unlocked id)).
Proof.
  apply made_of_atom, op_sheets. intros w. unfold set_sheet_locked_if_unlocked.
  destruct (w_sheets w !! id) as [sheet|]; [destruct (ss_locked sheet)|]; [|by eexists|];
    exists (w_sheets w); apply same_sheets.
Qed.
End System.

Lemma made_of_panic {P : forall X, (World -> World * X) -> Prop} {A B} (o : option A) (f : A -> prog World B) :
  (forall a, o = Some a -> made_of P (f a)) -> made_of P (bind (or_panic o) f).
Proof. intros Hf. destruct o as [a|]; [by apply Hf | done]. Qed.

Lemma made_of_epanic {P : forall X, (World -> World * X) -> Prop} {A B} (o : option (Result A)) (f : A -> Eff World B) :
  (forall a, o = Some (Ok a) -> made_of P (f a)) -> made_of P (ebind (or_panic o) f).
Proof. intros Hf. apply made_of_panic. intros [a|e] Ho; [by apply Hf | done]. Qed.

Create HintDb calendar.
#[export] Hint Resolve consult_ops or_panic_ops now_ops from_db_ops or_not_found_ops enabled_ops insert_rsvp_ops
  update_rsvp_ops delete_rsvp_ops use_attachment_ops mark_deleted_ops lock_sheet_ops : calendar.
#[export] Hint Resolve op_publishes op_cancels op_attaches op_detaches op_deletes : calendar.
#[export] Hint Extern 2 (made_of _ (atom _)) => apply made_of_atom : calendar.
#[export] Hint Extern 3 (route_op _ _ _) => solve [by apply op_reads | by apply op_notifies] : calendar.

(** Follow the code, one operation or one branch at a time. *)
Ltac follow :=
  repeat first
    [ done
    | progress intros
    | solve [eauto 4 with calendar]
    | apply made_of_epanic
    | apply made_of_panic
    | apply made_of_ebind
    | apply made_of_bind
    | match goal with |- made_of _ (match ?x with _ => _ end) => destruct x end
    | match goal with |- made_of _ (let _ := _ in _) => cbv zeta end ].

(** ** What the routes are made of *)

Section Handlers.
Context `{ChronoLaws}.
Context `{!HashIter string CalendarEvent, !HashIter EventRsvpKey EventRsvp, !HashIter string SoftResSheet}.
Context `{!HashIter string Channel.t, !HashIter (string * string) Member}.
Context `{!HashIter string Role, !HashIter string OverrideField.t, !HashIter string unit}.
Context (events_enabled : bool) (validation_error : string).
Context (broker_takes : list CalendarEventPayload -> CalendarEventPayload -> bool).

Local Abbreviation route_op := (route_op broker_takes).

(** *** Computed fields *)

Definition duration_of (start : Z) (end_ : option Z) : option Z :=
  match end_ with
  | None => Some 0
  | Some end_ => (fun d => Z.max d 0) <$> checked_sub_i64 end_ start
  end.

Lemma recompute_alt e : recompute_duration e = with_duration_ms e <$> duration_of (ce_start e) (ce_end e).
Proof.
  unfold recompute_duration, duration_of. destruct (ce_end e); [|done]. by destruct (checked_sub_i64 _ _).
Qed.

Lemma recompute_fixed e :
  duration_of (ce_start e) (ce_end e) = Some (ce_duration_ms e) -> recompute_duration e = Some e.
Proof. intros Hd. rewrite recompute_alt, Hd. by destruct e. Qed.

Lemma recompute_gives e e1 :
  recompute_duration e = Some e1 -> duration_of (ce_start e1) (ce_end e1) = Some (ce_duration_ms e1).
Proof. rewrite recompute_alt. intros (d & Hd & ->)%fmap_Some. exact Hd. Qed.

Lemma created_in_sync e e1 s :
  recompute_duration e = Some e1 -> validate e1 = Some (Ok tt) -> compute_series_end e1 = Some s ->
  in_sync (with_series_end e1 s).
Proof.
  intros Hd Hv Hs. split; [exact Hv | | exact Hs]. apply recompute_fixed. exact (recompute_gives _ _ Hd).
Qed.

Lemma create_ops id server creator title description location start end_ all_day timezone recurrence color channel
    source :
  made_of route_op (create id server creator title description location start end_ all_day timezone recurrence color
                      channel source).
Proof.
  unfold create. apply made_of_bind; [apply now_ops|]. intros created. cbv zeta.
  apply made_of_panic. intros e1 Hd. apply made_of_epanic. intros [] Hv. apply made_of_panic. intros s Hs.
  apply made_of_ebind; [|done]. apply made_of_atom, op_inserts. by eapply created_in_sync.
Qed.

(** The event [edit] writes *)
Lemma edited_in_sync e e1 (clear : bool) s now :
  recompute_duration e = Some e1 ->
  let e2 := if clear then with_recurrence e1 (clear_exceptions <$> ce_recurrence e1) else e1 in
  compute_series_end e2 = Some s ->
  validate (with_edited_at (with_series_end e2 s) (Some now)) = Some (Ok tt) ->
  in_sync (with_edited_at (with_series_end e2 s) (Some now)).
Proof.
  intros Hd e2 Hs Hv. split; [done | | exact Hs]. apply recompute_fixed. apply recompute_gives in Hd.
  unfold e2. by destruct clear.
Qed.

Lemma edit_ops self partial remove : made_of route_op (edit self partial remove).
Proof.
  unfold edit. cbv zeta. apply made_of_panic. intros e1 Hd. apply made_of_panic. intros s Hs.
  apply made_of_bind; [apply now_ops|]. intros now. apply made_of_epanic. intros [] Hv.
  apply made_of_ebind; [|done]. apply made_of_atom, op_replaces. by eapply edited_in_sync.
Qed.

#[local] Hint Resolve create_ops edit_ops : calendar.

(** *** Routes *)

Lemma authorize_view_ops user event : made_of route_op (authorize_view user event).
Proof. apply consult_ops. Qed.

Lemma authorize_manage_ops user event cleanup : made_of route_op (authorize_manage_scoped user event cleanup).
Proof. apply consult_ops. Qed.

Lemma allow_channel_ops user server channel : made_of route_op (allow_channel user server channel).
Proof. unfold allow_channel, refuse_protected_event_channel. follow. Qed.

Lemma claim_ops ids event uploader : forall files, made_of route_op (claim_event_attachments ids event uploader files).
Proof. induction ids as [|id ids IH]; intros files; cbn [claim_event_attachments]; follow. Qed.

#[local] Hint Resolve authorize_view_ops authorize_manage_ops allow_channel_ops claim_ops : calendar.

Lemma create_event_ops user server data id :
  made_of route_op (create_event events_enabled validation_error user server data id).
Proof. unfold create_event. follow. Qed.

Lemma list_events_ops user server from to : made_of route_op (list_events events_enabled user server from to).
Proof. unfold list_events. follow. Qed.

Lemma fetch_event_ops user target : made_of route_op (fetch_event_route events_enabled user target).
Proof. unfold fetch_event_route. follow. Qed.

Lemma edit_attachments_ops user event existing kept clear adds detach :
  made_of route_op (edit_attachments user event existing kept clear adds detach).
Proof. unfold edit_attachments. follow. Qed.

Lemma prune_ops event target rsvps : made_of route_op (prune_rsvps event target rsvps).
Proof. induction rsvps as [|r rsvps IH]; cbn [prune_rsvps]; follow. Qed.

#[local] Hint Resolve edit_attachments_ops prune_ops : calendar.

Lemma edit_event_ops user target data : made_of route_op (edit_event events_enabled validation_error user target data).
Proof. unfold edit_event, authorize_manage. follow. Qed.

Lemma lock_linked_ops id : made_of route_op (lock_linked_softres_sheet id).
Proof. unfold lock_linked_softres_sheet. follow. Qed.

Lemma notify_cancelled_ops event rsvps : made_of route_op (notify_cancelled broker_takes event rsvps).
Proof. induction rsvps as [|r rsvps IH]; cbn [notify_cancelled]; follow. Qed.

#[local] Hint Resolve lock_linked_ops notify_cancelled_ops : calendar.

Lemma cancel_event_ops user target : made_of route_op (cancel_event events_enabled broker_takes user target).
Proof. unfold cancel_event, authorize_cleanup. follow. Qed.

Lemma invite_all_ops user event channel invitees : forall acc,
  made_of route_op (invite_all broker_takes user event channel invitees acc).
Proof. induction invitees as [|u invitees IH]; intros acc; cbn [invite_all]; [done|]. cbv zeta. unfold invite. follow. Qed.

#[local] Hint Resolve invite_all_ops : calendar.

Lemma invite_ops user target data :
  made_of route_op (invite_to_event events_enabled validation_error broker_takes user target data).
Proof. unfold invite_to_event, authorize_manage. follow. Qed.

Lemma uninvite_ops user target member : made_of route_op (uninvite_from_event events_enabled user target member).
Proof. unfold uninvite_from_event, authorize_manage. follow. Qed.

Lemma set_rsvp_ops user target status : made_of route_op (set_rsvp events_enabled user target status).
Proof. unfold set_rsvp. follow. Qed.

Lemma attendees_ops user target limit before : made_of route_op (fetch_attendees events_enabled user target limit before).
Proof. unfold fetch_attendees. follow. Qed.

Lemma fetch_oneoffs_ops server from to offset limit :
  made_of route_op (atom (fetch_upcoming_oneoffs_for_server server from to offset limit)).
Proof. apply made_of_atom, op_reads. intros w. unfold fetch_upcoming_oneoffs_for_server. by destruct (limit =? 0). Qed.

Lemma fetch_series_ops server from to limit :
  made_of route_op (atom (fetch_upcoming_series_for_server server from to limit)).
Proof. apply made_of_atom, op_reads. intros w. unfold fetch_upcoming_series_for_server. by destruct (limit =? 0). Qed.

#[local] Hint Resolve fetch_oneoffs_ops fetch_series_ops : calendar.

Lemma oneoff_pages_ops fuel now server from to limit : forall viewer seen offset visible out,
  made_of route_op (oneoff_pages fuel now viewer seen server from to limit offset visible out).
Proof. induction fuel as [|fuel IH]; intros; cbn [oneoff_pages]; cbv zeta; follow. Qed.

#[local] Hint Resolve oneoff_pages_ops : calendar.

Lemma upcoming_server_ops user member from to limit :
  made_of route_op (upcoming_for_server user member from to limit).
Proof. unfold upcoming_for_server. cbv zeta. follow. Qed.

#[local] Hint Resolve upcoming_server_ops : calendar.

Lemma per_server_ops user members from to limit : made_of route_op (per_server user members from to limit).
Proof. induction members as [|m members IH]; cbn [per_server]; follow. Qed.

#[local] Hint Resolve per_server_ops : calendar.

Lemma upcoming_ops user from to limit : made_of route_op (list_upcoming_events events_enabled user from to limit).
Proof. unfold list_upcoming_events, collect_upcoming. cbv zeta. follow. Qed.
End Handlers.

(** ** The whole system *)

(** Members join and leave, channels and permissions change. *)
Definition set_directory (w : World) (db : Db) (protected : gset string) : World :=
  mkWorld db protected (w_events w) (w_rsvps w) (w_reminders w) (w_files w) (w_sheets w) (w_now w) (w_queue w)
    (w_published w).

Section Whole.
Context `{ChronoLaws}.
Context `{!HashIter string CalendarEvent, !HashIter EventRsvpKey EventRsvp, !HashIter string SoftResSheet}.
Context `{!HashIter string Channel.t, !HashIter (string * string) Member}.
Context `{!HashIter string Role, !HashIter string OverrideField.t, !HashIter string unit}.
Context (events_enabled : bool) (validation_error : string).
Context (broker_takes : list CalendarEventPayload -> CalendarEventPayload -> bool).

Local Abbreviation notify := (calendar_event_notify broker_takes).
Local Abbreviation tick := (reminder_tick broker_takes).

(** Everything but the reminder job and the deletion of servers *)
Inductive other_handler : prog World unit -> Prop :=
| on_create user server data id :
    other_handler (spawn (create_event events_enabled validation_error user server data id))
| on_list user server from to : other_handler (spawn (list_events events_enabled user server from to))
| on_upcoming user from to limit : other_handler (spawn (list_upcoming_events events_enabled user from to limit))
| on_fetch user target : other_handler (spawn (fetch_event_route events_enabled user target))
| on_edit user target data : other_handler (spawn (edit_event events_enabled validation_error user target data))
| on_cancel user target : other_handler (spawn (cancel_event events_enabled broker_takes user target))
| on_invite user target data :
    other_handler (spawn (invite_to_event events_enabled validation_error broker_takes user target data))
| on_uninvite user target member : other_handler (spawn (uninvite_from_event events_enabled user target member))
| on_rsvp user target status : other_handler (spawn (set_rsvp events_enabled user target status))
| on_attendees user target limit before :
    other_handler (spawn (fetch_attendees events_enabled user target limit before))
| on_member_left server user : other_handler (spawn (atom (delete_rsvps_for_member server user)))
| on_user_deleted user : other_handler (spawn (atom (delete_rsvps_for_user user)))
| on_rows_dropped event : other_handler (spawn (atom (delete_rsvps_for_event event)))
| on_directory db protected : other_handler (spawn (atom (fun w => (set_directory w db protected, tt))))
| on_clock passed : 0 <= passed -> other_handler (spawn (atom (fun w => (set_now w (w_now w + passed), tt)))).

Inductive calendar_handler : prog World unit -> Prop :=
| on_other p : other_handler p -> calendar_handler p
| on_tick : calendar_handler (spawn tick)
| on_server_deleted server : calendar_handler (spawn (delete_calendar_for_server server)).

(** *** Their operations *)

Inductive env_op : forall X, (World -> World * X) -> Prop :=
| env_route X op : route_op broker_takes X op -> env_op X op
| env_directory db protected : env_op _ (fun w => (set_directory w db protected, tt))
| env_clock passed : 0 <= passed -> env_op _ (fun w => (set_now w (w_now w + passed), tt)).

Lemma other_ops p : other_handler p -> made_of env_op p.
Proof.
  assert (forall A (q : prog World A), made_of (route_op broker_takes) q -> made_of env_op (spawn q)) as Hroute.
  { intros A q Hq. apply made_of_spawn. eapply made_of_mono; [|exact Hq]. by constructor. }
  intros Hp. destruct Hp; try (apply made_of_spawn, made_of_atom; by constructor); apply Hroute.
  - apply create_event_ops.
  - apply list_events_ops.
  - apply upcoming_ops.
  - apply fetch_event_ops.
  - apply edit_event_ops.
  - apply cancel_event_ops.
  - apply invite_ops.
  - apply uninvite_ops.
  - apply set_rsvp_ops.
  - apply attendees_ops.
  - apply rows_op. intros w. right. by eexists.
  - apply rows_op. intros w. right. by eexists.
  - apply rows_op. intros w. right. by eexists.
Qed.

Inductive tick_op : forall X, (World -> World * X) -> Prop :=
| tick_reads X (op : World -> World * X) : (forall w, (op w).1 = w) -> tick_op X op
| tick_marks key : tick_op _ (mark_reminder_sent_if_absent key)
| tick_reminds payload : tick_op _ (notify payload)
| tick_sweeps before : tick_op _ (delete_reminders_sent_before before).

Lemma remind_users_ops event occ lead users : forall sent,
  made_of tick_op (remind_users broker_takes event occ lead users sent).
Proof.
  induction users as [|u users IH]; intros sent; cbn [remind_users]; [done|].
  apply made_of_bind; [apply made_of_atom, tick_marks|]. intros [[]|]; [|apply IH..].
  apply made_of_bind; [apply made_of_atom, tick_reminds|]. intros taken. apply IH.
Qed.

Lemma remind_due_ops event users due : forall sent, made_of tick_op (remind_due broker_takes event due users sent).
Proof.
  induction due as [|[occ lead] due IH]; intros sent; cbn [remind_due]; [done|].
  apply made_of_bind; [apply remind_users_ops | apply IH].
Qed.

Lemma still_members_ops server users : made_of tick_op (still_members server users).
Proof.
  induction users as [|u users IH]; cbn [still_members]; [done|].
  apply made_of_bind; [by apply made_of_atom, tick_reads|]. intros member. by apply made_of_bind.
Qed.

Lemma remind_event_ops event now sent : made_of tick_op (remind_event broker_takes event now sent).
Proof.
  unfold remind_event. apply made_of_panic. intros [|d due] _; [done|].
  apply made_of_bind; [by apply made_of_atom, tick_reads|]. intros [rsvps|]; [|done].
  destruct (going_users rsvps) as [|u going]; [done|]. apply made_of_bind; [apply still_members_ops|].
  intros [|v users]; [done | apply remind_due_ops].
Qed.

Lemma remind_events_ops events now : forall sent, made_of tick_op (remind_events broker_takes events now sent).
Proof.
  induction events as [|e events IH]; intros sent; cbn [remind_events]; [done|].
  apply made_of_bind; [apply remind_event_ops | apply IH].
Qed.

Lemma tick_ops : made_of tick_op tick.
Proof.
  unfold reminder_tick. apply made_of_bind; [by apply made_of_atom, tick_reads|]. intros now. cbv zeta.
  apply made_of_ebind; [by apply made_of_atom, tick_reads|]. intros events.
  apply made_of_bind; [apply remind_events_ops|]. intros sent.
  apply made_of_bind; [apply made_of_atom, tick_sweeps | done].
Qed.

(** ** Stored events stay valid and in step *)

Definition events_ok (w : World) : Prop :=
  forall id e, w_events w !! id = Some e -> ce_id e = id /\ in_sync e.

Lemma insert_ok w e : events_ok w -> in_sync e -> events_ok (set_events w (<[ce_id e := e]> (w_events w))).
Proof.
  intros Hw He id e'. cbn. rewrite lookup_insert_Some. intros [[<- <-]|[_ He']]; [done | by apply Hw].
Qed.

(** Files and the cancelled flag are no part of validity. *)
Lemma event_update_ok w id partial remove :
  (forall e, ce_id e = id -> in_sync e ->
     let e' := apply_options (foldl remove_field e remove) partial in ce_id e' = id /\ in_sync e') ->
  events_ok w -> events_ok (update_event id partial remove w).1.
Proof.
  intros Hp Hw. unfold update_event. destruct (w_events w !! id) as [e|] eqn:Ee; [|done].
  intros id' e'. cbn. rewrite lookup_insert_Some. intros [[<- <-]|[_ He']]; [|by apply Hw].
  destruct (Hw _ _ Ee). by apply Hp.
Qed.

Lemma sync_move e e' :
  in_sync e ->
  validate e' = validate e -> compute_series_end e' = compute_series_end e -> ce_series_end e' = ce_series_end e ->
  duration_of (ce_start e') (ce_end e') = duration_of (ce_start e) (ce_end e) -> ce_duration_ms e' = ce_duration_ms e ->
  in_sync e'.
Proof.
  intros [Hv Hd Hs] E1 E2 E3 E4 E5. split; [congruence | | congruence].
  apply recompute_fixed. rewrite E4, E5. by apply (recompute_gives e).
Qed.

Lemma subset_ok w (events : gmap string CalendarEvent) : events ⊆ w_events w -> events_ok w -> events_ok (set_events w events).
Proof. intros Hsub Hw id e He. apply Hw. by eapply lookup_weaken. Qed.

Lemma env_events_ok X op w : env_op X op -> events_ok w -> events_ok (op w).1.
Proof.
  intros Hop Hw. destruct Hop as [X op Hop| |]; [|done..]. destruct Hop as [X op Hr| | |e He|e He| | | | |X op Hr|X op Hr|X op Hr];
    try done.
  - by rewrite Hr.
  - unfold insert_event. destruct (w_events w !! ce_id e); [done | by apply insert_ok].
  - unfold replace_event. destruct (w_events w !! ce_id e); [by apply insert_ok | done].
  - apply event_update_ok; [|done]. intros e <- He. split; [done | by eapply sync_move].
  - apply event_update_ok; [|done]. intros e <- He. split; [done | by eapply sync_move].
  - apply event_update_ok; [|done]. intros e <- He. split; [done | by eapply sync_move].
  - unfold delete_event. destruct (w_events w !! id); [|done]. apply subset_ok; [apply delete_subseteq | done].
  - destruct (Hr w) as [rows ->]. exact Hw.
  - destruct (Hr w) as [files ->]. exact Hw.
  - destruct (Hr w) as [sheets ->]. exact Hw.
Qed.

Lemma tick_keeps X op w : tick_op X op -> w_events (op w).1 = w_events w.
Proof.
  intros [Y op' Hr|key|payload|before]; [by rewrite Hr | | done | done].
  unfold mark_reminder_sent_if_absent. by destruct (w_reminders w !! key).
Qed.

Lemma handler_events_ok p : calendar_handler p -> holds events_ok (fun _ _ => True) p (fun _ => True).
Proof.
  intros Hp. destruct Hp as [p Hp| |server].
  - eapply made_of_holds; [|by apply other_ops]. intros X op w Hop Hw. split; [by eapply env_events_ok | done].
  - eapply made_of_holds; [|apply made_of_spawn, tick_ops]. intros X op w Hop Hw. split; [|done].
    intros id e. rewrite (tick_keeps _ _ _ Hop). apply Hw.
  - apply holds_bind. unfold delete_calendar_for_server. apply holds_bind. intros w Hw. split_and!; [|done|].
    { apply subset_ok; [apply map_filter_subseteq | done]. }
    cbn. do 3 (apply holds_bind; intros ? ?; split_and!; [done..|]). done.
Qed.

Lemma system_events_ok w s :
  events_ok w -> rtc (sys_step calendar_handler) (mkSys w []) s -> events_ok (sys_world s).
Proof.
  intros Hw Hs. eapply (guarded_steps calendar_handler events_ok (fun _ _ => True)); [| |exact Hs].
  - apply handler_events_ok.
  - split; [done | constructor].
Qed.
End Whole.

(** ** Theorem *)

(** C31. Whatever requests, jobs, deletions and changes to the directory
    interleave, and wherever they stop, every stored event is valid and its
    computed fields fit it; so the window query of a listing returns every
    event of the server with an occurrence in the window, if the start of the
    event is representable and, for a series, [anchored]: the earliest instant
    of its wall clock, a month away from the ends of the calendar.  (A series
    that starts in the second of two equal hours is not, and can be missed:
    [repeated_hour_missed].) *)
Theorem stored_events_in_sync `{ChronoLaws}
    `{!HashIter string CalendarEvent, !HashIter EventRsvpKey EventRsvp, !HashIter string SoftResSheet}
    `{!HashIter string Channel.t, !HashIter (string * string) Member}
    `{!HashIter string Role, !HashIter string OverrideField.t, !HashIter string unit}
    (events_enabled : bool) (validation_error : string)
    (broker_takes : list CalendarEventPayload -> CalendarEventPayload -> bool) (w : World) (s : Sys World) :
  events_ok w ->
  rtc (sys_step (calendar_handler events_enabled validation_error broker_takes)) (mkSys w []) s ->
  events_ok (sys_world s) /\
  forall id e starts occ from to,
    w_events (sys_world s) !! id = Some e -> instant_ok (ce_start e) -> (ce_recurrence e <> None -> anchored e) ->
    series_occurrence_starts e = Some starts -> occ ∈ starts -> overlaps e from to occ = true ->
    exists rows, fetch_events_for_server_in_window (ce_server e) from to (sys_world s) = (sys_world s, Ok rows) /\ e ∈ rows.
Proof.
  intros Hw Hs. pose proof (system_events_ok _ _ _ _ _ Hw Hs) as Hok. split; [done|].
  intros id e starts occ from to He Hi Ha Hst Hocc Hov. destruct (Hok _ _ He) as [_ Hsync].
  eexists. split; [done|]. apply elem_of_filter_bool. split; [by eapply listing_window|].
  apply elem_of_hm_values. eauto.
Qed.

(** *** An office *)

Definition office : World :=
  mkWorld (mkDb ∅ {["s" := mkServer "s" "u" ∅ 0]} {[("s", "u") := mkMember "s" "u" [] None true true]} ∅)
    ∅ ∅ ∅ ∅ ∅ ∅ 0 [] [].

Definition plan_standup : DataCreateEvent :=
  mkCreate "Standup" None None 1709906400000 (Some 1709908200000) false "America/New_York" (Some standup_rule) None None None.

Lemma stored_events_in_sync_witness :
  exists s rows, rtc (sys_step (calendar_handler true "" (fun _ _ => true))) (mkSys office []) s /\
    fetch_events_for_server_in_window "s" 1710248400000 1710248400000 (sys_world s) = (sys_world s, Ok rows) /\
    standup ∈ rows.
Proof.
  assert ((run (create_event true "" (mkUser "u" false None None) "s" plan_standup "e") office
             ≫= fun rw => w_events rw.2 !! "e") = Some standup) as He by (vm_compute; reflexivity).
  destruct (run (create_event true "" (mkUser "u" false None None) "s" plan_standup "e") office) as [[r w]|] eqn:E;
    [|done].
  cbn in He.
  assert (rtc (sys_step (calendar_handler true "" (fun _ _ => true))) (mkSys office []) (mkSys w [Ret tt])) as Hr.
  { eapply rtc_l; [apply sys_start, on_other, on_create|]. eapply sys_run. exact E. }
  destruct (stored_events_in_sync true "" (fun _ _ => true) office (mkSys w [Ret tt])) as [_ Hfind]; [by intros id e H|done|].
  destruct (Hfind "e" standup [1709906400000; 1709992800000; 1710075600000; 1710162000000; 1710248400000]
              1710248400000 1710248400000 1710248400000 He) as (rows & Hf & Hin).
  - by split; vm_compute.
  - intros _. apply standup_anchored.
  - apply standup_starts.
  - do 4 right. left.
  - by vm_compute.
  - exists (mkSys w [Ret tt]), rows. done.
Defined.
