(* ===== verification/CalendarReminders.v ===== *)
(** * Reminders are sent once

    One reminder job runs at a time.  It may stop anywhere and start again,
    and between any two of its operations the rest of the system works.  A
    marker is written before a reminder is sent and swept a day after the
    occurrence. *)

From stdpp Require Import base numbers relations list gmap strings sorting.
From S2P Require Import Prelude Text Errors Program Permissions Store PermissionQueryDb Audience CalendarTime Calendar CalendarRoutes CivilTime CalendarSeries CalendarSystem.
Open Scope Z_scope.
Open Scope sloga_scope.

(** The reminder a message carries *)
Definition reminder_key (p : CalendarEventPayload) : option ReminderSentKey :=
  match cp_kind p, cp_occurrence_start p, cp_offset_ms p with
  | CalendarEventNotification.Reminder, Some occ, Some lead =>
      Some (mkReminderKey (cp_event_id p) (cp_user p) occ lead)
  | _, _, _ => None
  end.

(** The reminders handed to the broker *)
Definition sent (w : World) : list ReminderSentKey := omap reminder_key (w_queue w).

(** What the rest of the system does to the reminders: nothing *)
Definition others (w w' : World) : Prop :=
  w_reminders w' = w_reminders w /\ sent w' = sent w /\ w_now w <= w_now w'.

Lemma others_refl w : others w w.
Proof. by split_and!. Qed.

Lemma others_trans w1 w2 w3 : others w1 w2 -> others w2 w3 -> others w1 w3.
Proof. intros (E1 & E2 & E3) (E1' & E2' & E3'). split_and!; [congruence | congruence | lia]. Qed.

(** ** An invariant along an interrupted run *)

Lemma wp_env {W A} (E G : W -> W -> Prop) (p : prog W A) (Q : A -> W -> Prop) w w' :
  (forall w1 w2 w3, E w1 w2 -> E w2 w3 -> E w1 w3) -> (forall a w w', E w w' -> Q a w -> Q a w') ->
  E w w' -> wp E G p Q w -> wp E G p Q w'.
Proof.
  intros Ht HQ He Hp. destruct p as [a| |X op k]; simpl in *; [by eapply HQ | done|].
  intros w1 He1. apply Hp. by eapply Ht.
Qed.

Lemma among_inv {W A} (E : W -> W -> Prop) (J : W -> Prop) (p p' : prog W A) w w' :
  (forall w, E w w) -> (forall w1 w2 w3, E w1 w2 -> E w2 w3 -> E w1 w3) -> (forall w w', E w w' -> J w -> J w') ->
  wp E (fun _ w2 => J w2) p (fun _ _ => True) w -> J w -> among E p w p' w' -> J w'.
Proof.
  intros Hr Ht HJ Hp Hw Ha. induction Ha as [p w|p w w1 p' w' He _ IH|X op k w p' w' _ IH]; [done| |].
  - apply IH; [|by eapply HJ]. by eapply wp_env.
  - destruct (Hp w (Hr w)) as [Hop Hk]. by apply IH.
Qed.

(** ** The job *)

Section Reminders.
Context `{Chrono}.
Context `{!HashIter string CalendarEvent, !HashIter EventRsvpKey EventRsvp, !HashIter string SoftResSheet}.
Context `{!HashIter string Channel.t, !HashIter (string * string) Member}.
Context `{!HashIter string Role, !HashIter string OverrideField.t, !HashIter string unit}.
Context (events_enabled : bool) (validation_error : string).
Context (broker_takes : list CalendarEventPayload -> CalendarEventPayload -> bool).

Local Abbreviation tick := (reminder_tick broker_takes).

Lemma sent_queue w payload :
  sent (set_queue w (w_queue w ++ [payload])) =
  sent w ++ match reminder_key payload with Some k => [k] | None => [] end.
Proof.
  unfold sent. cbn. rewrite omap_app. cbn. by destruct (reminder_key payload).
Qed.

Lemma env_others X op w : env_op broker_takes X op -> others w (op w).1.
Proof.
  intros Hop. destruct Hop as [X op Hop|db protected|passed Hp].
  - destruct Hop as [X op Hr| |payload Hk|e He|e He| | | |id|X op Hr|X op Hr|X op Hr]; try by split_and!.
    + rewrite Hr. by split_and!.
    + split_and!; [done| |done]. unfold calendar_event_notify. cbn [fst]. rewrite sent_queue. unfold reminder_key.
      destruct (cp_kind payload); [by rewrite app_nil_r.. | done].
    + unfold insert_event. destruct (w_events w !! ce_id e); by split_and!.
    + unfold replace_event. destruct (w_events w !! ce_id e); by split_and!.
    + unfold update_event. destruct (w_events w !! id); by split_and!.
    + unfold update_event. destruct (w_events w !! id); by split_and!.
    + unfold update_event. destruct (w_events w !! id); by split_and!.
    + unfold delete_event. destruct (w_events w !! id); by split_and!.
    + destruct (Hr w) as [rows ->]. by split_and!.
    + destruct (Hr w) as [files ->]. by split_and!.
    + destruct (Hr w) as [sheets ->]. by split_and!.
  - by split_and!.
  - split_and!; [done | done|]. cbn. lia.
Qed.

(** The due reminders are recent. *)
Lemma due_offsets_recent now occ offsets : forall due o x,
  due_offsets now occ offsets = Some due -> (o, x) ∈ due -> now - REMINDER_GRACE_MS < o - x /\ x ∈ offsets.
Proof.
  induction offsets as [|y offsets IH]; intros due o x Hd Hin; cbn [due_offsets] in Hd.
  { simplify_eq. by apply not_elem_of_nil in Hin. }
  destruct (checked_sub_i64 occ y) as [t|] eqn:Et; [|done]. apply checked_sub_i64_Some in Et as [-> _].
  destruct (due_offsets now occ offsets) as [rest|]; [|done]. simplify_eq.
  destruct ((occ - y <=? now) && (now - REMINDER_GRACE_MS <? occ - y)) eqn:E.
  - apply elem_of_cons in Hin as [Heq|Hin]; [simplify_eq; to_prop; split; [lia | by left]|].
    destruct (IH _ _ _ eq_refl Hin). split; [done | by right].
  - destruct (IH _ _ _ eq_refl Hin). split; [done | by right].
Qed.

Lemma due_recent event now due occ lead :
  reminders_due_for_event event now = Some due -> (occ, lead) ∈ due -> now - RETENTION_MS <= occ.
Proof.
  unfold reminders_due_for_event. destruct (ce_cancelled event).
  { intros Hd Hin. simplify_eq. by apply not_elem_of_nil in Hin. }
  cbv zeta. destruct (series_occurrence_starts_bounded event _) as [occs|]; [|done].
  assert (forall o x, now - REMINDER_GRACE_MS < o - x /\ x ∈ reminder_offsets (ce_all_day event) ->
            now - RETENTION_MS <= o) as Hle.
  { intros o x [Hg Hx%reminder_offsets_range]. unfold REMINDER_GRACE_MS, RETENTION_MS in *. lia. }
  revert due. induction occs as [|c occs IH]; intros due Hd Hin; cbn [due_occurrences] in Hd.
  { simplify_eq. by apply not_elem_of_nil in Hin. }
  destruct (bool_decide _); [by eapply IH|]. destruct (due_offsets now c _) as [d1|] eqn:E1; [|done].
  destruct (due_occurrences now _ _ occs) as [d2|]; [|done]. simplify_eq.
  apply elem_of_app in Hin as [Hin|Hin]; [|by eapply IH].
  by eapply Hle, due_offsets_recent.
Qed.

(** Everything sent has its marker, or was swept by a job that began by [n]. *)
Definition once_by (n : Z) (w : World) : Prop :=
  n <= w_now w /\ NoDup (sent w) /\
  forall k, k ∈ sent w -> is_Some (w_reminders w !! k) \/ sk_occurrence k < n - RETENTION_MS.

Definition once (w : World) : Prop := exists n, once_by n w.

Lemma once_by_others n w w' : others w w' -> once_by n w -> once_by n w'.
Proof. intros (E1 & E2 & E3) (Hn & Hd & Hk). unfold once_by. rewrite E1, E2. split_and!; [lia | done..]. Qed.

Lemma once_others w w' : others w w' -> once w -> once w'.
Proof. intros Ho [n Hn]. exists n. by eapply once_by_others. Qed.

Local Abbreviation safely := (wp others (fun _ w' => once w')).

Lemma remind_users_once event occ lead n users : forall count w,
  n - RETENTION_MS <= occ -> once_by n w ->
  safely (remind_users broker_takes event occ lead users count) (fun _ w' => once_by n w') w.
Proof.
  induction users as [|u users IH]; intros count w Hocc Hw; cbn [remind_users]; [done|].
  apply wp_bind. intros w1 He. set (k := mkReminderKey (ce_id event) u occ lead).
  pose proof (once_by_others _ _ _ He Hw) as Hw1. unfold mark_reminder_sent_if_absent.
  destruct (w_reminders w1 !! k) as [m|] eqn:Em; cbn [fst snd].
  { split; [by exists n|]. by apply IH. }
  assert (once_by n (set_reminders w1 (<[k := mkReminderSent k (w_now w1)]> (w_reminders w1)))) as Hw2.
  { destruct Hw1 as (Hn & Hd & Hk). split_and!; [done..|]. intros k' Hin. cbn.
    destruct (Hk k' Hin) as [[m Hm]|Hs]; [|by right]. left. rewrite lookup_insert. case_decide; eauto. }
  split; [by exists n|]. apply wp_bind. intros w2 He2. unfold calendar_event_notify. cbn [fst snd].
  assert (once_by n (set_queue w2 (w_queue w2 ++ [payload_of CalendarEventNotification.Reminder event u (Some (occ, lead))]))) as Hw3.
  { destruct He2 as (E1 & E2 & E3). destruct Hw1 as (Hn & Hd & Hk).
    assert (k ∉ sent w1) as Hnew.
    { intros Hin. destruct (Hk k Hin) as [[m Hm]|Hs]; [congruence|]. cbn in Hs. lia. }
    unfold once_by. rewrite sent_queue. cbn [reminder_key payload_of cp_kind cp_occurrence_start cp_offset_ms fmap option_fmap option_map].
    change (sent w2 = sent w1) in E2. cbn in E1, E3. rewrite E2. cbn [w_reminders w_now set_queue].
    rewrite E1. split_and!; [lia| |].
    - apply NoDup_app. split_and!; [done| |by apply NoDup_singleton].
      intros k' Hin ->%list_elem_of_singleton. done.
    - intros k' [Hin| ->%list_elem_of_singleton]%elem_of_app.
      + destruct (Hk k' Hin) as [[m Hm]|Hs]; [|by right]. left. rewrite lookup_insert. case_decide; eauto.
      + left. rewrite lookup_insert_eq. eauto. }
  split; [by exists n|]. by apply IH.
Qed.

Lemma remind_due_once event n users due : forall count w,
  (forall occ lead, (occ, lead) ∈ due -> n - RETENTION_MS <= occ) -> once_by n w ->
  safely (remind_due broker_takes event due users count) (fun _ w' => once_by n w') w.
Proof.
  induction due as [|[occ lead] due IH]; intros count w Hd Hw; cbn [remind_due]; [done|].
  apply wp_bind. eapply wp_mono; [apply (remind_users_once _ _ _ n); [|done]|].
  - eapply Hd. by left.
  - intros count' w' Hw'. apply IH; [|done]. intros o l Hin. eapply Hd. by right.
Qed.

(** A step that only looks *)
Lemma looks_once {A B} (f : World -> A) (k : A -> prog World B) n (Q : B -> World -> Prop) w :
  once_by n w -> (forall a w', once_by n w' -> safely (k a) Q w') -> safely (bind (atom (fun w => (w, f w))) k) Q w.
Proof.
  intros Hw Hk. apply wp_bind. intros w1 He. pose proof (once_by_others _ _ _ He Hw) as Hw1.
  split; [by exists n | by apply Hk].
Qed.

Lemma still_members_once server n users : forall w,
  once_by n w -> safely (still_members server users) (fun _ w' => once_by n w') w.
Proof.
  induction users as [|u users IH]; intros w Hw; cbn [still_members]; [done|].
  eapply (looks_once (fun w => fetch_member (w_db w) server u)); [done|]. intros member w' Hw'.
  apply wp_bind. eapply wp_mono; [by apply IH|]. intros rest w2 Hw2. by destruct (is_ok member).
Qed.

Lemma remind_event_once event n count w :
  once_by n w -> safely (remind_event broker_takes event n count) (fun _ w' => once_by n w') w.
Proof.
  intros Hw. unfold remind_event. apply wp_bind.
  destruct (reminders_due_for_event event n) as [due|] eqn:Ed; [|done]. cbn [or_panic wp].
  destruct due as [|d due]; [done|].
  eapply (looks_once (fun w => Ok (List.filter (fun r => str_eqb (rk_event (rv_id r)) (ce_id event)) (hm_values (w_rsvps w)))));
    [done|].
  intros [rsvps|] w' Hw'; [|done]. destruct (going_users rsvps) as [|u going]; [done|].
  apply wp_bind. eapply wp_mono; [by apply (still_members_once _ n)|]. intros [|v users] w2 Hw2; [done|].
  apply remind_due_once; [|done]. intros occ lead Hin. by eapply due_recent.
Qed.

Lemma remind_events_once n events : forall count w,
  once_by n w -> safely (remind_events broker_takes events n count) (fun _ w' => once_by n w') w.
Proof.
  induction events as [|e events IH]; intros count w Hw; cbn [remind_events]; [done|].
  apply wp_bind. eapply wp_mono; [by apply remind_event_once|]. intros count' w' Hw'. by apply IH.
Qed.

Lemma sweep_once n w : once_by n w -> once_by n (delete_reminders_sent_before (n - RETENTION_MS) w).1.
Proof.
  intros (Hn & Hd & Hk). split_and!; [done..|]. intros k Hin. cbn.
  destruct (Z.lt_ge_cases (sk_occurrence k) (n - RETENTION_MS)) as [Hlt|Hge]; [by right|].
  destruct (Hk k Hin) as [[m Hm]|Hs]; [|by right]. left. exists m. by apply map_lookup_filter_Some.
Qed.

Lemma tick_once w : once w -> safely tick (fun _ _ => True) w.
Proof.
  intros [t Ht]. unfold reminder_tick, now_ms. apply wp_bind. intros w1 He.
  pose proof (once_by_others _ _ _ He Ht) as Hw1. cbn [fst snd]. split; [by exists t|].
  set (n := w_now w1).
  assert (once_by n w1) as Hn.
  { destruct Hw1 as (Hle & Hd & Hk). split_and!; [done..|]. intros k Hin.
    destruct (Hk k Hin) as [Hm|Hs]; [by left | right]. unfold n. lia. }
  cbv zeta. unfold ebind.
  eapply (looks_once (fun w => Ok (List.filter (in_reminder_window (n + foldr Z.max 0 REMINDER_OFFSETS_MS)
            (n - REMINDER_GRACE_MS)) (hm_values (w_events w))))); [exact Hn|].
  intros [events|] w2 Hw2; [|done]. apply wp_bind. eapply wp_mono; [by apply remind_events_once|].
  intros count w3 Hw3. apply wp_bind. intros w4 He4. split; [|done]. exists n. apply sweep_once.
  by eapply once_by_others.
Qed.

(** ** Restarts *)

(** The system works with no job running, or a job starts and gets some way. *)
Inductive job_history : World -> World -> Prop :=
| no_job w w' : others w w' -> job_history w w'
| a_job w p w' : among others tick w p w' -> job_history w w'.

Lemma history_once w w' : job_history w w' -> once w -> once w'.
Proof.
  intros [w1 w2 Ho|w1 p w2 Ha] Hw; [by eapply once_others|].
  eapply (among_inv others once); [apply others_refl | apply others_trans | apply once_others | | done | exact Ha].
  by apply tick_once.
Qed.

Lemma histories_once w w' : rtc job_history w w' -> once w -> once w'.
Proof. induction 1 as [|w1 w2 w3 H12 _ IH]; [done|]. intros Hw. by eapply IH, history_once. Qed.
End Reminders.

(** C30. No handler but the reminder job and the deletion of a server touches a
    marker, a reminder in the queue, or sets the clock back.  With such work
    between any two operations of the job, and the job stopped anywhere and
    started again any number of times, no reminder of an occurrence is handed
    to the broker twice for a user: a marker is written first, and one that
    is swept belongs to an occurrence no later job can find due. *)
Theorem reminders_at_most_once `{Chrono}
    `{!HashIter string CalendarEvent, !HashIter EventRsvpKey EventRsvp, !HashIter string SoftResSheet}
    `{!HashIter string Channel.t, !HashIter (string * string) Member}
    `{!HashIter string Role, !HashIter string OverrideField.t, !HashIter string unit}
    (events_enabled : bool) (validation_error : string)
    (broker_takes : list CalendarEventPayload -> CalendarEventPayload -> bool) :
  (forall p, other_handler events_enabled validation_error broker_takes p ->
     holds (fun _ => True) others p (fun _ => True)) /\
  (forall w w', sent w = [] -> rtc (job_history broker_takes) w w' -> NoDup (sent w')).
Proof.
  split.
  - intros p Hp. eapply made_of_holds; [|by eapply other_ops]. intros X op w Hop _.
    split; [done | by eapply env_others].
  - intros w w' Hw Hr. destruct (histories_once _ _ _ Hr) as (n & _ & Hd & _); [|done].
    exists (w_now w). unfold once_by. rewrite Hw. split_and!; [lia | apply NoDup_nil_2|].
    intros k Hin. by apply not_elem_of_nil in Hin.
Qed.

(** ** What one run of the job sends *)

(** The same but for markers and reminders: those of [ks] without a marker
    were sent, all of them have one *)
Record progress (ks : list ReminderSentKey) (w w' : World) : Prop := {
  pr_db : w_db w' = w_db w;
  pr_events : w_events w' = w_events w;
  pr_rsvps : w_rsvps w' = w_rsvps w;
  pr_now : w_now w' = w_now w;
  pr_sent k : k ∈ sent w' <-> k ∈ sent w \/ (k ∈ ks /\ w_reminders w !! k = None);
  pr_marked k : is_Some (w_reminders w' !! k) <-> is_Some (w_reminders w !! k) \/ k ∈ ks;
}.

Lemma progress_nil w : progress [] w w.
Proof. split; [done..| |]; intros k; rewrite elem_of_nil; tauto. Qed.

Lemma progress_app ks1 ks2 w w1 w2 : progress ks1 w w1 -> progress ks2 w1 w2 -> progress (ks1 ++ ks2) w w2.
Proof.
  intros [D1 E1 R1 N1 S1 M1] [D2 E2 R2 N2 S2 M2]. split; [congruence..| |]; intros k.
  - rewrite S2, S1, elem_of_app. specialize (M1 k). rewrite <- !not_eq_None_Some in M1.
    destruct (decide (k ∈ ks1)), (decide (w_reminders w !! k = None)), (decide (w_reminders w1 !! k = None)); tauto.
  - rewrite M2, M1, elem_of_app. tauto.
Qed.

Section Exact.
Context `{ChronoLaws}.
Context `{!HashIter string CalendarEvent, !HashIter EventRsvpKey EventRsvp}.
Context (broker_takes : list CalendarEventPayload -> CalendarEventPayload -> bool).

Definition user_keys (event : CalendarEvent) (occ lead : Z) (users : list string) : list ReminderSentKey :=
  (fun u => mkReminderKey (ce_id event) u occ lead) <$> users.

Lemma remind_users_run event occ lead users : forall count w,
  exists count' w', run (remind_users broker_takes event occ lead users count) w = Some (count', w') /\
    progress (user_keys event occ lead users) w w'.
Proof.
  induction users as [|u users IH]; intros count w; cbn [remind_users].
  { exists count, w. split; [done | apply progress_nil]. }
  set (k := mkReminderKey (ce_id event) u occ lead). rewrite run_bind, run_atom.
  unfold mark_reminder_sent_if_absent. destruct (w_reminders w !! k) as [m|] eqn:Em; cbn [fst snd].
  - destruct (IH count w) as (c' & w' & Hr & Hp). exists c', w'. split; [done|].
    apply (progress_app [k] _ w w w'); [|done]. split; [done..| |]; intros k'; rewrite list_elem_of_singleton.
    + split; [by left|]. intros [?|[-> ?]]; [done | congruence].
    + split; [by left|]. intros [?| ->]; [done | rewrite Em; eauto].
  - rewrite run_bind, run_atom. unfold calendar_event_notify. cbn [fst snd].
    match goal with |- context [remind_users _ _ _ _ _ ?c] => set (count1 := c) end.
    match goal with |- exists _ _, run _ ?w1 = _ /\ _ => destruct (IH count1 w1) as (c' & w' & Hr & Hp) end.
    exists c', w'. split; [exact Hr|]. eapply (progress_app [k]); [|exact Hp].
    split; [done..| |]; intros k'; rewrite ?list_elem_of_singleton.
    + match goal with |- context [sent (set_queue ?w1 _)] => change (w_queue w) with (w_queue w1); rewrite (sent_queue w1) end.
      cbn. rewrite elem_of_app, list_elem_of_singleton. fold (sent w). unfold sent. cbn.
      split; [intros [?| ->]; [by left | by right]|]. intros [?|[-> _]]; [by left | by right].
    + cbn. rewrite lookup_insert. case_decide as Hk; [subst; split; [by right | by eauto]|].
      split; [by left|]. intros [?| ->]; done.
Qed.

Definition due_keys (event : CalendarEvent) (due : list (Z * Z)) (users : list string) : list ReminderSentKey :=
  concat ((fun d => user_keys event d.1 d.2 users) <$> due).

Lemma remind_due_run event users due : forall count w,
  exists count' w', run (remind_due broker_takes event due users count) w = Some (count', w') /\
    progress (due_keys event due users) w w'.
Proof.
  induction due as [|[occ lead] due IH]; intros count w; cbn [remind_due].
  { exists count, w. split; [done | apply progress_nil]. }
  rewrite run_bind. destruct (remind_users_run event occ lead users count w) as (c1 & w1 & -> & H1).
  destruct (IH c1 w1) as (c2 & w2 & Hr & H2). exists c2, w2. split; [done|]. by eapply progress_app.
Qed.

Definition is_member (db : Db) (server user : string) : bool := is_ok (fetch_member db server user).

Lemma still_members_run server users w :
  run (still_members server users) w = Some (List.filter (is_member (w_db w) server) users, w).
Proof.
  induction users as [|u users IH]; cbn [still_members]; [done|]. rewrite run_bind, run_atom. cbn [from_db fst snd].
  rewrite run_bind, IH. cbn [run List.filter]. unfold is_member. by destruct (is_ok (fetch_member (w_db w) server u)).
Qed.

(** The recipients of an event's reminders *)
Definition recipients (w : World) (event : CalendarEvent) : list string :=
  List.filter (is_member (w_db w) (ce_server event))
    (going_users (List.filter (fun r => str_eqb (rk_event (rv_id r)) (ce_id event)) (hm_values (w_rsvps w)))).

Lemma due_keys_nobody event due : due_keys event due [] = [].
Proof. unfold due_keys. by induction due. Qed.

Lemma remind_event_run event now due count w :
  reminders_due_for_event event now = Some due ->
  exists count' w', run (remind_event broker_takes event now count) w = Some (count', w') /\
    progress (due_keys event due (recipients w event)) w w'.
Proof.
  intros Hd. unfold remind_event. rewrite run_bind, Hd. cbn [run or_panic].
  destruct due as [|d due]; [exists count, w; split; [done | apply progress_nil]|].
  rewrite run_bind, run_atom. cbn [fetch_rsvps_for_event fst snd]. unfold recipients.
  destruct (going_users _) as [|u going] eqn:Eg.
  { exists count, w. split; [done|]. cbn [List.filter]. rewrite due_keys_nobody. apply progress_nil. }
  rewrite run_bind, still_members_run. destruct (List.filter _ (u :: going)) as [|v users] eqn:Em.
  { exists count, w. split; [done|]. rewrite due_keys_nobody. apply progress_nil. }
  apply remind_due_run.
Qed.

Lemma recipients_same w w' event : w_db w' = w_db w -> w_rsvps w' = w_rsvps w -> recipients w' event = recipients w event.
Proof. intros E1 E2. unfold recipients. by rewrite E1, E2. Qed.

Definition event_keys (w : World) (now : Z) (event : CalendarEvent) : list ReminderSentKey :=
  due_keys event (default [] (reminders_due_for_event event now)) (recipients w event).

Lemma remind_events_run now events : forall count w,
  Forall (fun e => is_Some (reminders_due_for_event e now)) events ->
  exists count' w', run (remind_events broker_takes events now count) w = Some (count', w') /\
    progress (concat (event_keys w now <$> events)) w w'.
Proof.
  induction events as [|e events IH]; intros count w Hf; cbn [remind_events].
  { exists count, w. split; [done | apply progress_nil]. }
  apply Forall_cons in Hf as [[due Hd] Hf]. rewrite run_bind.
  destruct (remind_event_run e now due count w Hd) as (c1 & w1 & -> & H1).
  destruct (IH c1 w1 Hf) as (c2 & w2 & Hr & H2). exists c2, w2. split; [done|].
  cbn [fmap list_fmap concat]. eapply progress_app.
  - unfold event_keys. rewrite Hd. exact H1.
  - replace (event_keys w now <$> events) with (event_keys w1 now <$> events); [exact H2|].
    apply list_fmap_ext. intros i x _. unfold event_keys. by rewrite (recipients_same w w1) by apply H1.
Qed.

(** *** Who is owed a reminder *)

Definition going (w : World) (event user : string) : Prop :=
  exists r, w_rsvps w !! mkRsvpKey event user = Some r /\ rv_status r = RsvpStatus.Going.

(** An event of the store has an occurrence whose reminder is due, to a
    member who is going *)
Definition owed (w : World) (k : ReminderSentKey) : Prop :=
  exists e starts,
    w_events w !! sk_event k = Some e /\ series_occurrence_starts e = Some starts /\
    due_at e starts (w_now w) (sk_occurrence k) (sk_offset k) /\
    going w (sk_event k) (sk_user k) /\ is_Some (db_members (w_db w) !! (ce_server e, sk_user k)).

(** Rows carry their keys. *)
Definition rows_keyed (w : World) : Prop := forall k r, w_rsvps w !! k = Some r -> rv_id r = k.

(** Stored events have instants that are representable, and series start at
    the earliest instant of their wall clock. *)
Definition well_placed (w : World) : Prop :=
  forall id e, w_events w !! id = Some e ->
    (ce_recurrence e <> None -> anchored e) /\ instant_ok (ce_start e) /\
    forall starts, series_occurrence_starts e = Some starts -> Forall instant_ok starts.

Lemma elem_recipients w e u :
  rows_keyed w -> u ∈ recipients w e <-> going w (ce_id e) u /\ is_Some (db_members (w_db w) !! (ce_server e, u)).
Proof.
  intros Hk. unfold recipients, going_users, is_member, fetch_member.
  rewrite elem_of_filter_bool, list_elem_of_fmap.
  assert (is_ok (ok_or (E := ErrorType.t) (db_members (w_db w) !! (ce_server e, u)) ErrorType.NotFound) = true <->
          is_Some (db_members (w_db w) !! (ce_server e, u))) as ->.
  { destruct (db_members (w_db w) !! (ce_server e, u)); cbn; split; eauto; [done|]. by intros []. }
  split.
  - intros [Hm (r & -> & Hr)]. split; [|done]. apply elem_of_filter_bool in Hr as [Hg Hr].
    apply elem_of_filter_bool in Hr as [He (k & Hl)%elem_of_hm_values].
    pose proof (Hk _ _ Hl) as <-. exists r. apply str_eqb_eq in He. rewrite <- He.
    split; [by destruct (rv_id r)|]. by destruct (rv_status r).
  - intros [(r & Hl & Hs) Hm]. split; [done|]. pose proof (Hk _ _ Hl) as Hid. exists r.
    rewrite Hid. split; [done|]. apply elem_of_filter_bool. rewrite Hs. split; [done|].
    apply elem_of_filter_bool. rewrite Hid. split; [apply str_eqb_refl|]. apply elem_of_hm_values. eauto.
Qed.

Lemma elem_concat {A} (x : A) ls : x ∈ concat ls <-> exists l, x ∈ l /\ l ∈ ls.
Proof. rewrite list_elem_of_In, in_concat. setoid_rewrite list_elem_of_In. naive_solver. Qed.

Lemma elem_due_keys e due users k :
  k ∈ due_keys e due users <->
  sk_event k = ce_id e /\ sk_user k ∈ users /\ (sk_occurrence k, sk_offset k) ∈ due.
Proof.
  unfold due_keys, user_keys. rewrite elem_concat. setoid_rewrite list_elem_of_fmap. split.
  - intros (l & Hk & [occ lead] & -> & Hd). apply list_elem_of_fmap in Hk as (u & -> & Hu). done.
  - intros (He & Hu & Hd). eexists. split; [|exists (sk_occurrence k, sk_offset k); split; [done | done]].
    apply list_elem_of_fmap. exists (sk_user k). split; [|done]. destruct k. cbn in *. by subst.
Qed.

Lemma stored_due w now id e :
  well_placed w -> w_events w !! id = Some e -> exists starts due,
    series_occurrence_starts e = Some starts /\ reminders_due_for_event e now = Some due /\
    (forall occ lead, (occ, lead) ∈ due <-> due_at e starts now occ lead) /\ Forall instant_ok starts.
Proof.
  intros Hp He. destruct (Hp _ _ He) as (Ha & _ & Hi).
  destruct (starts_exist e None) as [starts Hs]; [intros Hr; by apply anchored_in_calendar, Ha|].
  destruct (reminders_due_spec e starts now Hs (Hi _ Hs)) as (due & Hd & Hspec). exists starts, due. eauto.
Qed.

Definition candidates_at (w : World) (now : Z) : list CalendarEvent :=
  List.filter (in_reminder_window (now + foldr Z.max 0 REMINDER_OFFSETS_MS) (now - REMINDER_GRACE_MS))
    (hm_values (w_events w)).

Lemma elem_owed w k :
  events_ok w -> rows_keyed w -> well_placed w ->
  k ∈ concat (event_keys w (w_now w) <$> candidates_at w (w_now w)) <-> owed w k.
Proof.
  intros Hok Hkey Hplaced. rewrite elem_concat. setoid_rewrite list_elem_of_fmap. unfold candidates_at. split.
  - intros (l & Hk & e & -> & Hin). apply elem_of_filter_bool in Hin as [_ (id & He)%elem_of_hm_values].
    destruct (stored_due w (w_now w) id e Hplaced He) as (starts & due & Hs & Hd & Hspec & _).
    unfold event_keys in Hk. rewrite Hd in Hk. cbn [default from_option] in Hk.
    apply elem_due_keys in Hk as (Hid & Hu & Hdue). apply elem_recipients in Hu as [Hg Hm]; [|done].
    destruct (Hok _ _ He) as [E _]. exists e, starts. rewrite Hid, E in *. split_and!; [done..| |done|done].
    by apply Hspec.
  - intros (e & starts & He & Hs & Hdue & Hg & Hm). exists (event_keys w (w_now w) e).
    destruct (stored_due w (w_now w) _ e Hplaced He) as (starts' & due & Hs' & Hd & Hspec & Hi).
    rewrite Hs in Hs'. injection Hs' as <-. destruct (Hok _ _ He) as [E Hsync]. split.
    + unfold event_keys. rewrite Hd. cbn [default from_option]. apply elem_due_keys. rewrite E.
      split_and!; [done| |by apply Hspec]. apply elem_recipients; [done|]. by rewrite E.
    + exists e. split; [done|]. apply elem_of_filter_bool. split; [|apply elem_of_hm_values; eauto].
      destruct (Hplaced _ _ He) as (Ha & Hstart & _). eapply reminder_window; [done..| |exact Hdue].
      destruct Hdue as (_ & Hin & _). rewrite Forall_forall in Hi. specialize (Hi _ Hin).
      unfold instant_ok in Hi. int_solve.
Qed.

Lemma owed_recent w k : owed w k -> w_now w - RETENTION_MS <= sk_occurrence k.
Proof.
  intros (e & starts & _ & _ & (_ & _ & _ & Ho & Hb) & _). apply reminder_offsets_range in Ho.
  unfold REMINDER_GRACE_MS, RETENTION_MS in *. lia.
Qed.

Lemma tick_run w :
  events_ok w -> rows_keyed w -> well_placed w ->
  exists w', run (reminder_tick broker_takes) w = Some (Ok tt, w') /\
    (forall k, k ∈ sent w' <-> k ∈ sent w \/ (owed w k /\ w_reminders w !! k = None)) /\
    (forall k, owed w k -> is_Some (w_reminders w' !! k)).
Proof.
  intros Hok Hkey Hplaced. unfold reminder_tick, now_ms. rewrite run_bind, run_atom. cbn [fst snd]. cbv zeta.
  rewrite run_ebind, run_atom. cbn [fetch_events_in_reminder_window fst snd]. rewrite run_bind.
  destruct (remind_events_run (w_now w) (candidates_at w (w_now w)) 0 w) as (c & w1 & Hr & Hp).
  { apply Forall_forall. intros e [_ (id & He)%elem_of_hm_values]%elem_of_filter_bool.
    destruct (stored_due w (w_now w) id e Hplaced He) as (_ & due & _ & Hd & _). by exists due. }
  unfold candidates_at in Hr. rewrite Hr. rewrite run_bind, run_atom. cbn [fst snd].
  eexists. split; [reflexivity|]. split.
  - intros k. change (sent (set_reminders w1 _)) with (sent w1). rewrite (pr_sent _ _ _ Hp).
    by rewrite elem_owed.
  - intros k Ho. pose proof (owed_recent _ _ Ho) as Hrec. apply elem_owed in Ho; [|done..].
    destruct (proj2 (pr_marked _ _ _ Hp k) (or_intror Ho)) as [m Hm]. exists m. cbn.
    apply map_lookup_filter_Some. split; [done | exact Hrec].
Qed.
End Exact.

(** C33. A run of the reminder job that is not disturbed ends, and hands the broker
    exactly the reminders owed that have no marker yet: those of a member who
    is going to a stored event that is not cancelled, for every occurrence of
    the whole series that is not excepted, when half an hour before it or its
    start came within the last five minutes.  Every reminder owed has its
    marker afterwards.  The stored events are valid and [well_placed]: their
    instants are representable with room for the reminder, and a series starts
    at the earliest instant of its wall clock (not in the second of two equal
    hours, where the query can miss it: [repeated_hour_missed]). *)
Theorem tick_sends_what_is_owed `{ChronoLaws} `{!HashIter string CalendarEvent, !HashIter EventRsvpKey EventRsvp}
    (broker_takes : list CalendarEventPayload -> CalendarEventPayload -> bool) (w : World) :
  events_ok w -> rows_keyed w -> well_placed w ->
  exists w', run (reminder_tick broker_takes) w = Some (Ok tt, w') /\
    (forall k, k ∈ sent w' <-> k ∈ sent w \/ (owed w k /\ w_reminders w !! k = None)) /\
    (forall k, owed w k -> is_Some (w_reminders w' !! k)).
Proof. apply tick_run. Qed.

(** *** A reminder of the standup *)

Definition standup_world : World :=
  mkWorld (mkDb ∅ ∅ {[("s", "a") := mkMember "s" "a" [] None true true]} ∅) ∅ {["e" := standup]}
    {[mkRsvpKey "e" "a" := mkRsvp (mkRsvpKey "e" "a") RsvpStatus.Going "u" true 0 (Some 1)]} ∅ ∅ ∅ 1710073860000 [] [].

Definition standup_key : ReminderSentKey := mkReminderKey "e" "a" 1710075600000 1800000.

Definition takes_all (queue : list CalendarEventPayload) (payload : CalendarEventPayload) : bool := true.

Lemma standup_events_ok : events_ok standup_world.
Proof. intros id e He. cbn in He. apply lookup_singleton_Some in He as [<- <-].
  split; [done | apply standup_in_sync]. Qed.

Lemma standup_placed : well_placed standup_world.
Proof.
  intros id e He. cbn in He. apply lookup_singleton_Some in He as [<- <-]. split_and!; [intros _; apply standup_anchored | by split; vm_compute|].
  intros starts Hs. rewrite standup_starts in Hs. injection Hs as <-.
  repeat constructor; by vm_compute.
Qed.

Lemma standup_owed : owed standup_world standup_key.
Proof.
  exists standup. eexists. split_and!; [done | apply standup_starts| | |].
  - unfold due_at. split_and!; [done| | | |by vm_compute..].
    + do 2 right. left.
    + by apply (bool_decide_eq_false_1 _), (eq_refl false).
    + left.
  - by eexists.
  - by eexists.
Qed.

Lemma tick_sends_what_is_owed_witness :
  exists w', run (reminder_tick takes_all) standup_world = Some (Ok tt, w') /\ standup_key ∈ sent w'.
Proof.
  destruct (tick_sends_what_is_owed takes_all standup_world standup_events_ok) as (w' & Hr & Hs & _).
  - intros k r Hr. cbn in Hr. by apply lookup_singleton_Some in Hr as [<- <-].
  - apply standup_placed.
  - exists w'. split; [done|]. apply Hs. right. split; [apply standup_owed | done].
Defined.

(** The job runs, stops after sending, and runs again a minute later. *)
Lemma reminders_at_most_once_witness :
  let w1 := (drive 7 (reminder_tick takes_all) standup_world).2 in
  let w2 := set_now w1 (w_now w1 + 60000) in
  let w3 := (drive 20 (reminder_tick takes_all) w2).2 in
  sent w1 = [standup_key] /\ sent w3 = [standup_key] /\ NoDup (sent w3).
Proof.
  intros w1 w2 w3. split_and!; [by vm_compute..|].
  destruct (reminders_at_most_once true "" takes_all) as [_ Honce].
  apply (Honce standup_world w3); [done|].
  eapply rtc_l; [eapply a_job, (among_drive others 7)|].
  eapply rtc_l; [apply (no_job takes_all w1 w2); split_and!; [done | done | cbn; lia]|].
  eapply rtc_l; [eapply a_job, (among_drive others 20) | constructor].
Defined.
