(* ===== verification/CalendarAnswers.v ===== *)
(** * Answers, invitations and cancellation

    What an answer to an invitation does, that inviting again changes no
    answer, and two races: an answer written from an old copy forgets an
    acceptance, and an edit written from an old copy takes a cancellation
    back. *)

From stdpp Require Import base numbers relations list gmap strings sorting.
From S2P Require Import Prelude Text Errors Program Permissions Store PermissionQueryDb Audience CalendarTime Calendar CalendarRoutes CivilTime CalendarSeries CalendarSystem.
Open Scope Z_scope.
Open Scope sloga_scope.

Section Answers.
Context `{!HashIter string CalendarEvent, !HashIter EventRsvpKey EventRsvp, !HashIter string SoftResSheet}.
Context `{!HashIter string Channel.t, !HashIter (string * string) Member}.
Context `{!HashIter string Role, !HashIter string OverrideField.t, !HashIter string unit}.
Context (events_enabled : bool) (validation_error : string).
Context (broker_takes : list CalendarEventPayload -> CalendarEventPayload -> bool).

(** ** Answering *)

(** The row an answer leaves *)
Definition answered (row : EventRsvp) (status : RsvpStatus.t) (now : Z) : EventRsvp :=
  mkRsvp (rv_id row) status (rv_invited_by row) (rv_had_accepted row || is_going status) (rv_created_at row)
    (Some now).

Lemma run_consult {A} (f : World -> option (Result A)) w :
  run (consult f) w = match f w with Some r => Some (r, w) | None => None end.
Proof. unfold consult. rewrite run_bind, run_atom. cbn [fst snd]. by destruct (f w). Qed.

Lemma run_not_found {A} (c : Eff World A) w :
  run (or_not_found c) w =
  match run c w with
  | Some (Ok a, w') => Some (Ok a, w')
  | Some (Err _, w') => Some (Err ErrorType.NotFound, w')
  | None => None
  end.
Proof. unfold or_not_found. rewrite run_bind. by destruct (run c w) as [[[a|e] w']|]. Qed.

Definition rsvp_gate (user : User) (event : CalendarEvent) (status : RsvpStatus.t) : Eff World unit :=
  match status with
  | RsvpStatus.NotGoing =>
      let! _ := or_not_found (atom (from_db (fun db => fetch_member db (ce_server event) (user_id user)))) in
      do! views <- authorize_view user event;
      match views with
      | Ok _ => ok tt
      | Err _ => let! _ := or_not_found (atom (fetch_rsvp (ce_id event) (user_id user))) in ok tt
      end
  | _ => authorize_view user event
  end.

(** The gate only looks. *)
Lemma rsvp_gate_reads user event status w r w' : run (rsvp_gate user event status) w = Some (r, w') -> w' = w.
Proof.
  assert (forall r w', run (authorize_view user event) w = Some (r, w') -> w' = w) as Hview.
  { intros r0 w0. unfold authorize_view. rewrite run_consult.
    destruct (can_view _ _ _) as [[v []]|]; intros; by simplify_eq. }
  destruct status; [apply Hview | apply Hview|]. cbn [rsvp_gate].
  rewrite run_ebind, run_not_found, run_atom. cbn [from_db fst snd].
  destruct (fetch_member _ _ _); [|by intros; simplify_eq]. rewrite run_bind.
  destruct (run (authorize_view user event) w) as [[views w1]|] eqn:Ev; [|done].
  assert (w1 = w) as -> by by eapply Hview.
  destruct views; [by intros; simplify_eq/=|]. rewrite run_ebind, run_not_found, run_atom. cbn [fetch_rsvp fst snd].
  destruct (ok_or _ _); intros; by simplify_eq/=.
Qed.

Lemma set_rsvp_unfold user target status :
  set_rsvp events_enabled user target status =
  (let! _ := require_events_enabled events_enabled in
   let! event := atom (fetch_event target) in
   let! _ := rsvp_gate user event status in
   if ce_cancelled event then fail ErrorType.InvalidOperation
   else
     let! rsvp := or_not_found (atom (fetch_rsvp (ce_id event) (user_id user))) in
     do! now <- now_ms;
     let! rsvp := Ret (apply_response rsvp status now) in
     let! _ := atom (update_rsvp rsvp) in
     do! _ <- atom (publish (EventV1.CalendarEventRsvp rsvp) (event_topic event));
     ok rsvp).
Proof. done. Qed.

Lemma apply_response_spec row status now :
  apply_response row status now =
  match status with RsvpStatus.Pending => Err ErrorType.InvalidOperation | _ => Ok (answered row status now) end.
Proof.
  destruct status; [done|..]; unfold answered; cbn [apply_response is_going].
  - by rewrite orb_true_r.
  - by rewrite orb_false_r.
Qed.

(** What an answer did to the world *)
Definition answer_outcome (user : User) (target : string) (status : RsvpStatus.t) (w : World)
    (r : Result EventRsvp) (w' : World) : Prop :=
  match r with
  | Err _ => w' = w
  | Ok row' =>
      exists event row,
        w_events w !! target = Some event /\ ce_cancelled event = false /\ status <> RsvpStatus.Pending /\
        w_rsvps w !! mkRsvpKey (ce_id event) (user_id user) = Some row /\ row' = answered row status (w_now w) /\
        w' = set_published (set_rsvps w (<[rv_id row := row']> (w_rsvps w)))
               (w_published w ++ [(event_topic event, EventV1.CalendarEventRsvp row')])
  end.

Lemma set_rsvp_run user target status w r w' :
  (forall k row, w_rsvps w !! k = Some row -> rv_id row = k) ->
  run (set_rsvp events_enabled user target status) w = Some (r, w') -> answer_outcome user target status w r w'.
Proof.
  intros Hkey. rewrite set_rsvp_unfold, run_ebind. unfold require_events_enabled. destruct events_enabled; cbn [run ok fail].
  2:{ intros; by simplify_eq/=. }
  rewrite run_ebind, run_atom. cbn [fetch_event fst snd].
  destruct (w_events w !! target) as [event|] eqn:Ee; cbn [ok_or]; [|intros; by simplify_eq/=].
  rewrite run_ebind. destruct (run (rsvp_gate user event status) w) as [[gate w1]|] eqn:Eg; [|done].
  apply rsvp_gate_reads in Eg as ->. destruct gate; [|intros; by simplify_eq/=].
  destruct (ce_cancelled event) eqn:Ec; [intros; by simplify_eq/=|].
  rewrite run_ebind, run_not_found, run_atom. cbn [fetch_rsvp fst snd].
  destruct (w_rsvps w !! _) as [row|] eqn:Er; cbn [ok_or]; [|intros; by simplify_eq/=].
  rewrite run_bind. unfold now_ms. rewrite run_atom. cbn [fst snd]. rewrite run_ebind. cbn [run].
  rewrite apply_response_spec. pose proof (Hkey _ _ Er) as Hid.
  destruct status; [intros; by simplify_eq/=|..]; rewrite run_ebind, run_atom; unfold update_rsvp;
    cbn [rv_id answered]; rewrite Hid, Er; cbn [fst snd]; rewrite run_bind, run_atom; cbn [fst snd run ok];
    intros; simplify_eq; exists event, row; (split_and!; [done..|]);
    unfold publish; cbn [fst]; rewrite Hid; do 2 f_equal; unfold answered; cbn; by rewrite ?Hid.
Qed.

(** ** Inviting *)

(** No row that is there is changed. *)
Definition rows_kept (w w' : World) : Prop := forall k row, w_rsvps w !! k = Some row -> w_rsvps w' !! k = Some row.

Definition keeps_rows (X : Type) (op : World -> World * X) : Prop := forall w, rows_kept w (op w).1.

Lemma looks_keep {X} (op : World -> World * X) : (forall w, w_rsvps (op w).1 = w_rsvps w) -> made_of keeps_rows (atom op).
Proof. intros Hop. apply made_of_atom. intros w k row Hk. by rewrite Hop. Qed.

Lemma consult_keeps {A} (f : World -> option (Result A)) : made_of keeps_rows (consult f).
Proof. apply made_of_bind; [by apply looks_keep|]. by intros [r|]. Qed.

Lemma invite_keeps event user by_ : made_of keeps_rows (invite event user by_).
Proof.
  unfold invite, now_ms. apply made_of_bind; [by apply looks_keep|]. intros now. apply made_of_atom. intros w k row Hk.
  unfold insert_rsvp_if_absent. cbn [rv_id new_invite]. destruct (w_rsvps w !! mkRsvpKey event user) eqn:E; [exact Hk|]. cbn.
  rewrite lookup_insert. case_decide; [congruence | done].
Qed.

Lemma invite_all_keeps user event channel invitees : forall acc,
  made_of keeps_rows (invite_all broker_takes user event channel invitees acc).
Proof.
  induction invitees as [|u invitees IH]; intros acc; cbn [invite_all]; [done|]. cbv zeta.
  apply made_of_bind; [by apply looks_keep|]. intros [m|]; [|apply IH].
  apply made_of_ebind; [destruct channel; [apply consult_keeps | done]|]. intros [|]; cbn [negb]; [|apply IH].
  apply made_of_ebind; [apply invite_keeps|]. intros [|]; [|apply IH].
  apply made_of_bind; [by apply looks_keep|]. intros _. apply made_of_bind; [by apply looks_keep|].
  intros _. apply IH.
Qed.

Lemma invite_route_keeps user target data :
  made_of keeps_rows (invite_to_event events_enabled validation_error broker_takes user target data).
Proof.
  unfold invite_to_event. apply made_of_ebind; [unfold require_events_enabled; by destruct events_enabled|].
  intros _. destruct (negb _); [done|]. cbv zeta. destruct (_ && _); [done|].
  apply made_of_ebind; [by apply looks_keep|]. intros event.
  apply made_of_ebind; [apply consult_keeps|]. intros _. destruct (ce_cancelled event); [done|].
  apply made_of_ebind.
  { destruct (default [] (di_roles data)); [done|]. apply made_of_ebind; [by apply looks_keep|]. intros server.
    destruct (existsb _ _); [done|]. apply made_of_ebind; [by apply looks_keep | done]. }
  intros holders. apply made_of_ebind; [|intros target'; apply invite_all_keeps].
  destruct (ce_channel event); [|done]. apply made_of_bind; [by apply looks_keep|].
  intros [channel|error]; [apply made_of_ebind; [apply consult_keeps | done]|]. by destruct error.
Qed.
End Answers.

(** ** Theorems *)

(** An answer that is accepted is the caller's, to an event that is not
    cancelled, and is not [Pending]; it updates only the caller's existing
    row, where a past acceptance is remembered, and publishes it.  An answer
    that is refused changes nothing. *)
Theorem answer_updates_one_row
    `{!HashIter string Channel.t, !HashIter (string * string) Member}
    `{!HashIter string Role, !HashIter string OverrideField.t}
    (events_enabled : bool) (user : User) (target : string) (status : RsvpStatus.t) (w : World)
    (r : Result EventRsvp) (w' : World) :
  (forall k row, w_rsvps w !! k = Some row -> rv_id row = k) ->
  run (set_rsvp events_enabled user target status) w = Some (r, w') -> answer_outcome user target status w r w'.
Proof. apply set_rsvp_run. Qed.

(** Inviting never changes a row that is there, whatever its answer is and
    whatever else is going on: each operation of the route keeps every row. *)
Theorem invite_resets_no_answer
    `{!HashIter string Channel.t, !HashIter (string * string) Member}
    `{!HashIter string Role, !HashIter string OverrideField.t, !HashIter string unit}
    (events_enabled : bool) (validation_error : string)
    (broker_takes : list CalendarEventPayload -> CalendarEventPayload -> bool) (user : User) (target : string)
    (data : DataInviteToEvent) :
  holds (fun _ => True) rows_kept
    (invite_to_event events_enabled validation_error broker_takes user target data) (fun _ => True).
Proof.
  eapply made_of_holds; [|apply invite_route_keeps]. intros X op w Hop _. split; [done | apply Hop].
Qed.

(** ** A dinner *)

Definition anna : User := mkUser "a" false None None.
Definition host : User := mkUser "u" false None None.

Definition dinner : CalendarEvent :=
  mkEvent "e" "s" None "u" "Dinner" None None 1000 None 0 1000 false "UTC" None None false None None 0 None.

Definition dinner_world (answer : RsvpStatus.t) (accepted : bool) : World :=
  mkWorld
    (mkDb ∅ ∅ {[("s", "a") := mkMember "s" "a" [] None true true; ("s", "u") := mkMember "s" "u" [] None true true]} ∅)
    ∅ {["e" := dinner]}
    {[mkRsvpKey "e" "a" := mkRsvp (mkRsvpKey "e" "a") answer "u" accepted 0 None]} ∅ ∅ ∅ 500 [] [].

Lemma answer_updates_one_row_witness :
  exists w' row, run (set_rsvp true anna "e" RsvpStatus.NotGoing) (dinner_world RsvpStatus.Going true) = Some (Ok row, w') /\
    rv_had_accepted row = true /\ answer_outcome anna "e" RsvpStatus.NotGoing (dinner_world RsvpStatus.Going true) (Ok row) w'.
Proof.
  destruct (run (set_rsvp true anna "e" RsvpStatus.NotGoing) (dinner_world RsvpStatus.Going true)) as [[[row|e] w']|] eqn:E;
    [|by vm_compute in E..].
  exists w', row. split_and!; [done | by vm_compute in E; simplify_eq|].
  apply (answer_updates_one_row true anna "e" RsvpStatus.NotGoing _ (Ok row) w'); [|done].
  intros k r Hr. cbn in Hr. by apply lookup_singleton_Some in Hr as [<- <-].
Defined.

(** *** Two answers at once *)

Local Abbreviation system := (calendar_handler true "" (fun _ _ => true)).

Definition stored_answer (s : Sys World) : option (RsvpStatus.t * bool) :=
  (fun r => (rv_status r, rv_had_accepted r)) <$> w_rsvps (sys_world s) !! mkRsvpKey "e" "a".

Definition announced_going (s : Sys World) : bool :=
  existsb (fun p => match p.2 with EventV1.CalendarEventRsvp r => is_going (rv_status r) | _ => false end)
    (w_published (sys_world s)).

(** Anna accepts on one device and declines on another.  The decline was read
    before the acceptance was written: everyone was told that she is going,
    and her row says that she never accepted. *)
Theorem acceptance_forgotten :
  exists s, rtc (sys_step system) (mkSys (dinner_world RsvpStatus.Pending false) []) s /\
    announced_going s = true /\ stored_answer s = Some (RsvpStatus.NotGoing, false).
Proof.
  set (accept := spawn (set_rsvp true anna "e" RsvpStatus.Going)).
  set (decline := spawn (set_rsvp true anna "e" RsvpStatus.NotGoing)).
  set (s0 := mkSys (dinner_world RsvpStatus.Pending false) [decline; accept]).
  destruct (sys_sched [0; 0; 0; 0; 0; 1; 1; 1; 1; 1; 1; 0; 0]%nat s0) as [s|] eqn:E; [|by vm_compute in E].
  exists s. split_and!.
  - eapply rtc_l; [apply sys_start, on_other, (on_rsvp _ _ _ anna "e" RsvpStatus.Going)|].
    eapply rtc_l; [apply sys_start, on_other, (on_rsvp _ _ _ anna "e" RsvpStatus.NotGoing)|].
    by eapply sys_sched_steps.
  - apply (f_equal (fmap announced_going)) in E. vm_compute in E. by injection E.
  - apply (f_equal (fmap stored_answer)) in E. vm_compute in E. by injection E.
Qed.

(** *** A cancellation and an edit at once *)

Definition new_title : DataEditEvent :=
  mkEdit (Some "Supper") None None None None None None None None None None None [].

Definition stored_cancelled (s : Sys World) : option bool := ce_cancelled <$> w_events (sys_world s) !! "e".

Definition told_cancelled (s : Sys World) : list string := cp_user <$> w_queue (sys_world s).

(** The event was read for the edit before it was cancelled.  The attendees
    are told that it is cancelled, then the edit writes its copy back and the
    event is no longer cancelled. *)
Theorem cancellation_undone :
  exists s, rtc (sys_step system) (mkSys (dinner_world RsvpStatus.Going true) []) s /\
    told_cancelled s = ["a"] /\ stored_cancelled s = Some false.
Proof.
  set (edit := spawn (edit_event true "" host "e" new_title)).
  set (cancel := spawn (cancel_event true (fun _ _ => true) host "e")).
  set (s0 := mkSys (dinner_world RsvpStatus.Going true) [cancel; edit]).
  destruct (sys_sched [1; 1; 1; 0; 0; 0; 0; 0; 0; 0; 0; 1; 1]%nat s0) as [s|] eqn:E; [|by vm_compute in E].
  exists s. split_and!.
  - eapply rtc_l; [apply sys_start, on_other, (on_edit _ _ _ host "e" new_title)|].
    eapply rtc_l; [apply sys_start, on_other, (on_cancel _ _ _ host "e")|].
    by eapply sys_sched_steps.
  - apply (f_equal (fmap told_cancelled)) in E. vm_compute in E. by injection E.
  - apply (f_equal (fmap stored_cancelled)) in E. vm_compute in E. by injection E.
Qed.
