(* ===== verification/CalendarUpcoming.v ===== *)
(** * The soonest events
      (crates/delta/src/routes/events/upcoming.rs)

    The route reads a bounded number of series and pages through one-off
    events only until enough of them are visible, server by server, before it
    merges and cuts.  It answers what sorting every row of every server and
    cutting once would. *)

From stdpp Require Import base numbers relations list gmap strings sorting.
From S2P Require Import Prelude Text Errors Program Permissions Store PermissionQueryDb Audience CalendarTime Calendar CalendarRoutes CivilTime CalendarSeries CalendarSystem CalendarReminders.
Open Scope Z_scope.
Open Scope sloga_scope.

(** ** The first few of a sorted list *)

Section Soonest.
Context {A : Type} (le : A -> A -> bool).
Context (le_total : forall x y, le x y = true \/ le y x = true).
Context (le_trans : forall x y z, le x y = true -> le y z = true -> le x z = true).

Local Abbreviation sorted := (StronglySorted (fun a b => le a b = true)).

(** Not the first, when it is sorted in *)
Definition before (y x : A) : bool := negb (le y x).

Lemma take_insert_far n y l :
  sorted l -> (n <= length (List.filter (before y) l))%nat -> take n (insert_by le y l) = take n l.
Proof.
  intros Hs. revert n. induction Hs as [|z l Hs IH Hz]; intros n Hn; cbn [insert_by List.filter] in *.
  { simpl in Hn. by replace n with O by lia. }
  unfold before at 1 in Hn. destruct (le y z) eqn:E; cbn [negb] in Hn.
  - rewrite filter_bool_none in Hn; [simpl in Hn; by replace n with O by lia|].
    intros x Hx. rewrite Forall_forall in Hz. unfold before. by rewrite (le_trans y z x E (Hz x Hx)).
  - destruct n as [|n]; [done|]. cbn [take]. f_equal. apply IH. cbn [length] in Hn. lia.
Qed.

Lemma filter_insert_length (p : A -> bool) y l :
  (length (List.filter p l) <= length (List.filter p (insert_by le y l)))%nat.
Proof.
  rewrite (Permutation_length (filter_bool_perm p _ _ (insert_by_perm le y l))). cbn [List.filter].
  destruct (p y); simpl; lia.
Qed.

Lemma take_insert_all n ys l :
  sorted l -> (forall y, y ∈ ys -> (n <= length (List.filter (before y) l))%nat) ->
  take n (foldr (insert_by le) l ys) = take n l /\ sorted (foldr (insert_by le) l ys) /\
  (forall p, length (List.filter p l) <= length (List.filter p (foldr (insert_by le) l ys)))%nat.
Proof.
  intros Hs. induction ys as [|y ys IH]; intros Hy; cbn [foldr]; [done|].
  destruct IH as (Ht & Hs' & Hp); [intros z Hz; apply Hy; by right|]. split_and!.
  - rewrite take_insert_far; [done | done|]. etrans; [apply (Hy y); by left | apply Hp].
  - by apply insert_by_sorted.
  - intros p. etrans; [apply Hp | apply filter_insert_length].
Qed.

(** Of a sorted list only its first [n] can be among the first [n] of all. *)
Lemma take_sort_cut n (l r : list A) :
  sorted r -> NoDup (l ++ r) ->
  (forall x y, x ∈ l ++ r -> y ∈ l ++ r -> le x y = true -> le y x = true -> x = y) ->
  take n (sort_by le (l ++ take n r)) = take n (sort_by le (l ++ r)).
Proof.
  intros Hr Hd Hanti. rewrite <- (take_drop n r) at 2. set (x := take n r). set (y := drop n r).
  assert (sort_by le (l ++ x ++ y) = foldr (insert_by le) (sort_by le (l ++ x)) y) as ->.
  { transitivity (sort_by le (y ++ (l ++ x))); [|unfold sort_by; by rewrite foldr_app].
    apply sort_by_unique; [done | done | rewrite app_assoc; apply Permutation_app_comm|].
    intros a b Ha Hb. unfold x, y in Ha, Hb. rewrite take_drop in Ha, Hb. by apply Hanti. }
  symmetry. apply take_insert_all; [by apply sort_by_sorted|]. intros b Hb.
  rewrite (Permutation_length (filter_bool_perm _ _ _ (sort_by_perm le (l ++ x)))), List.filter_app, length_app.
  rewrite (filter_bool_all (before b) x).
  - unfold x. rewrite length_take. unfold y in Hb. assert (n <= length r)%nat; [|lia].
    destruct (le_lt_dec n (length r)) as [?|Hlt]; [done|]. rewrite drop_ge in Hb by lia. by apply not_elem_of_nil in Hb.
  - intros a Ha. unfold before. destruct (le b a) eqn:E; [exfalso | done].
    assert (le a b = true) as Eab.
    { rewrite <- (take_drop n r) in Hr. fold x y in Hr. revert Hr Ha Hb. clear. induction x as [|c x IH]; intros Hr Ha Hb;
        [by apply not_elem_of_nil in Ha|]. simpl in Hr. apply StronglySorted_inv in Hr as [Hr Hc].
      apply elem_of_cons in Ha as [->|Ha]; [|by apply IH]. rewrite Forall_forall in Hc. apply Hc, elem_of_app. by right. }
    assert (a ∈ r) as Hra by (rewrite <- (take_drop n r); apply elem_of_app; by left).
    assert (b ∈ r) as Hrb by (rewrite <- (take_drop n r); apply elem_of_app; by right).
    assert (a = b) as -> by (apply Hanti; [apply elem_of_app; by right.. | done | done]).
    apply NoDup_app in Hd as (_ & _ & Hd). rewrite <- (take_drop n r) in Hd. apply NoDup_app in Hd as (_ & Hd & _).
    by apply (Hd b).
Qed.

Lemma submseteq_NoDup (l k : list A) : l ⊆+ k -> NoDup k -> NoDup l.
Proof. intros (k' & ->)%submseteq_Permutation Hk. by apply NoDup_app in Hk as (? & _). Qed.

Definition cut (n : nat) (l : list A) : list A := take n (sort_by le l).

Lemma cut_submseteq n l : cut n l ⊆+ l.
Proof. unfold cut. rewrite <- (sort_by_perm le l) at 2. apply submseteq_take. Qed.

Lemma cuts_submseteq n ls : concat (cut n <$> ls) ⊆+ concat ls.
Proof. induction ls as [|l ls IH]; simpl; [done|]. apply submseteq_app; [apply cut_submseteq | done]. Qed.

(** Elements that compare equal are equal. *)
Definition distinct (l : list A) : Prop :=
  NoDup l /\ forall x y, x ∈ l -> y ∈ l -> le x y = true -> le y x = true -> x = y.

Lemma distinct_sub l k : l ⊆+ k -> distinct k -> distinct l.
Proof.
  intros Hsub [Hd Ha]. split; [by eapply submseteq_NoDup|].
  intros x y Hx Hy. apply Ha; by eapply elem_of_submseteq.
Qed.

Lemma sort_perm l1 l2 : l1 ≡ₚ l2 -> distinct l1 -> sort_by le l1 = sort_by le l2.
Proof. intros Hp [_ Ha]. by apply sort_by_unique. Qed.

(** Cutting each list first changes nothing. *)
Lemma take_sort_cuts n ls : forall acc,
  distinct (acc ++ concat ls) ->
  take n (sort_by le (acc ++ concat (cut n <$> ls))) = take n (sort_by le (acc ++ concat ls)).
Proof.
  induction ls as [|l ls IH]; intros acc Hd; [done|]. cbn [fmap list_fmap concat] in *.
  set (x := concat (cut n <$> ls)).
  assert (x ⊆+ concat ls) as Hx by apply cuts_submseteq.
  assert ((acc ++ x) ++ sort_by le l ⊆+ acc ++ l ++ concat ls) as Hsub.
  { rewrite (sort_by_perm le l), <- app_assoc, (Permutation_app_comm x l).
    apply submseteq_app; [done|]. by apply submseteq_app. }
  pose proof (distinct_sub _ _ Hsub Hd) as Hd'.
  transitivity (take n (sort_by le ((acc ++ x) ++ cut n l))).
  { f_equal. apply sort_perm.
    - rewrite <- app_assoc. by rewrite (Permutation_app_comm x (cut n l)).
    - eapply distinct_sub; [|exact Hd]. apply submseteq_app; [done|].
      apply submseteq_app; [apply cut_submseteq | done]. }
  transitivity (take n (sort_by le ((acc ++ x) ++ sort_by le l))).
  { apply take_sort_cut; [by apply sort_by_sorted | apply Hd' | apply Hd']. }
  transitivity (take n (sort_by le ((acc ++ l) ++ x))).
  { f_equal. apply sort_perm; [|done]. rewrite (sort_by_perm le l), <- !app_assoc.
    by rewrite (Permutation_app_comm x l). }
  rewrite IH by by rewrite <- app_assoc. by rewrite <- app_assoc.
Qed.
End Soonest.

(** ** Rows *)

Definition event_ids (events : list CalendarEvent) : list string := ce_id <$> events.

Section Rows.
Context `{ChronoLaws}.
Context `{!HashIter string CalendarEvent}.
Context `{!HashIter string Channel.t, !HashIter (string * string) Member}.
Context `{!HashIter string Role, !HashIter string OverrideField.t}.
Context (w : World) (user : User) (member : Member) (from to : Z).

Local Abbreviation d := (w_db w).
Local Abbreviation now := (w_now w).

(** Whether the member may see an event, asked on its own *)
Definition sees (e : CalendarEvent) : bool :=
  match can_view now (with_memberships d user [member]) (anchor e) with Some (_, b) => b | None => false end.

(** The row of an event: its occurrences from [from] on *)
Definition row_of (e : CalendarEvent) : option Candidate :=
  if ce_cancelled e then None
  else if sees e then
    match List.filter (fun start => from <=? start) (default [] (occurrences_in_window e from to)) with
    | [] => None
    | key :: rest => Some (mkCandidate key e (key :: rest))
    end
  else None.

Context (Hstored : stored d).
Context (Hmember : db_members d !! (member_server member, member_user member) = Some member).
Context (Hown : member_user member = user_id user).

Local Abbreviation members := (rows_by_server [member]).
Local Abbreviation good := (viewer_ok now d user members).

Lemma own_rows s m : members !! s = Some m -> db_members d !! (s, user_id user) = Some m.
Proof.
  intros [->%list_elem_of_singleton <-]%rows_lookup. by rewrite <- Hown.
Qed.

Lemma fresh_viewer : with_memberships d user [member] = mkViewer d user members ∅ ∅.
Proof. unfold with_memberships. cbn [List.filter]. by rewrite Hown, str_eqb_refl. Qed.

Lemma fresh_good : good (with_memberships d user [member]).
Proof. rewrite fresh_viewer. split; cbn; try done; intros ? ? E; by rewrite lookup_empty in E. Qed.

(** What a viewer remembers does not change its answer. *)
Lemma good_view v e : good v -> exists v', can_view now v (anchor e) = Some (v', sees e) /\ good v'.
Proof.
  intros Hv. destruct (can_view_ok now d user members v (anchor e) Hstored own_rows Hv) as (v' & b & Hc & Hv' & Hb).
  exists v'. rewrite Hc. split; [|done]. do 2 f_equal. unfold sees.
  destruct (can_view_ok now d user members _ (anchor e) Hstored own_rows fresh_good) as (v2 & b2 & -> & _ & Hb2).
  apply eq_true_iff_eq. by rewrite Hb, Hb2.
Qed.

Lemma candidate_row v seen e :
  good v -> ce_id e ∉ seen -> is_Some (occurrences_in_window e from to) ->
  exists v' seen', candidate now v seen e from to = Some (v', seen', row_of e) /\ good v' /\ seen' ⊆ {[ce_id e]} ∪ seen.
Proof.
  intros Hv Hs [occs Ho]. unfold candidate, row_of. destruct (ce_cancelled e); [exists v, seen; set_solver|].
  rewrite bool_decide_eq_false_2 by done. cbv zeta.
  destruct (good_view v e Hv) as (v' & -> & Hv'). destruct (sees e); [|exists v', ({[ce_id e]} ∪ seen); set_solver].
  rewrite Ho. cbn [default from_option]. unfold id.
  destruct (List.filter _ occs) as [|key rest]; exists v', ({[ce_id e]} ∪ seen); set_solver.
Qed.

(** No event of the list was seen before. *)
Definition unseen (seen : gset string) (es : list CalendarEvent) : Prop :=
  NoDup (event_ids es) /\ forall e, e ∈ es -> ce_id e ∉ seen.

Lemma unseen_cons seen seen' e es :
  unseen seen (e :: es) -> seen' ⊆ {[ce_id e]} ∪ seen -> unseen seen' es /\ ce_id e ∉ seen.
Proof.
  unfold unseen, event_ids. rewrite fmap_cons, NoDup_cons. intros [[He Hd] Hs] Hsub. split_and!; [done| |apply Hs; by left].
  intros e' He' Hin. apply Hsub in Hin. apply elem_of_union in Hin as [Hin|Hin].
  - apply elem_of_singleton in Hin. apply He. rewrite <- Hin. by apply list_elem_of_fmap_2.
  - by apply (Hs e'); [right|].
Qed.

Local Abbreviation expands es := (Forall (fun e => is_Some (occurrences_in_window e from to)) es).

Lemma series_rows_spec es : forall v seen out,
  good v -> unseen seen es -> expands es ->
  exists v' seen', series_rows now v seen from to out es = Some (v', seen', out ++ omap row_of es) /\ good v' /\
    forall id, id ∈ seen' -> id ∈ seen \/ id ∈ event_ids es.
Proof.
  induction es as [|e es IH]; intros v seen out Hv Hu He; cbn [series_rows].
  { exists v, seen. rewrite app_nil_r. eauto. }
  apply Forall_cons in He as [He Hes].
  destruct (candidate_row v seen e Hv) as (v1 & seen1 & -> & Hv1 & Hsub); [apply Hu; by left | done|].
  destruct (unseen_cons _ _ _ _ Hu Hsub) as [Hu1 _].
  destruct (IH v1 seen1 (match row_of e with Some row => out ++ [row] | None => out end) Hv1 Hu1 Hes)
    as (v2 & seen2 & -> & Hv2 & Hin2).
  exists v2, seen2. split_and!; [|done|].
  - do 2 f_equal. cbn [omap list_omap]. destruct (row_of e); [by rewrite <- app_assoc | done].
  - intros id Hid. destruct (Hin2 id Hid) as [Hin|Hin]; [|right; by right].
    apply Hsub, elem_of_union in Hin as [->%elem_of_singleton|Hin]; [right; by left | by left].
Qed.

Lemma page_rows_spec limit page : forall v seen visible out,
  good v -> unseen seen page -> expands page -> visible < limit ->
  exists stop v' seen' visible' out', page_rows now v seen from to limit visible out page = Some (stop, v', seen', visible', out') /\
    good v' /\ (forall id, id ∈ seen' -> id ∈ seen \/ id ∈ event_ids page) /\
    if stop then out' = out ++ take (Z.to_nat (limit - visible)) (omap row_of page) /\
                 limit - visible <= Z.of_nat (length (omap row_of page))
    else out' = out ++ omap row_of page /\ visible' = visible + Z.of_nat (length (omap row_of page)) /\ visible' < limit.
Proof.
  induction page as [|e page IH]; intros v seen visible out Hv Hu He Hl; cbn [page_rows].
  { exists false, v, seen, visible, out. rewrite app_nil_r. split_and!; [done|done|by left|done|simpl; lia|lia]. }
  apply Forall_cons in He as [He Hes].
  destruct (candidate_row v seen e Hv) as (v1 & seen1 & -> & Hv1 & Hsub); [apply Hu; by left | done|].
  destruct (unseen_cons _ _ _ _ Hu Hsub) as [Hu1 _].
  assert (forall id, id ∈ seen1 -> id ∈ seen \/ id ∈ event_ids (e :: page)) as Hin1.
  { intros id Hin. apply Hsub, elem_of_union in Hin as [->%elem_of_singleton|Hin]; [right; by left | by left]. }
  cbn [omap list_omap]. destruct (row_of e) as [row|].
  - cbv zeta. destruct (limit <=? visible + 1) eqn:El; to_prop.
    + exists true, v1, seen1, (visible + 1), (out ++ [row]). split_and!; [done..| |].
      * replace (Z.to_nat (limit - visible)) with 1%nat by lia. done.
      * simpl. lia.
    + destruct (IH v1 seen1 (visible + 1) (out ++ [row]) Hv1 Hu1 Hes El) as (stop & v2 & seen2 & vis2 & out2 & -> & Hv2 & Hin2 & Hres).
      exists stop, v2, seen2, vis2, out2. split_and!; [done | done| |].
      * intros id Hid. destruct (Hin2 id Hid) as [Hin|Hin]; [by apply Hin1 | right; by right].
      * destruct stop.
        -- destruct Hres as [-> Hlen]. split; [|simpl; lia].
           replace (Z.to_nat (limit - visible)) with (S (Z.to_nat (limit - (visible + 1)))) by lia.
           by rewrite <- app_assoc.
        -- destruct Hres as (-> & -> & Hlt). rewrite <- app_assoc. split_and!; [done | simpl; lia | done].
  - destruct (IH v1 seen1 visible out Hv1 Hu1 Hes Hl) as (stop & v2 & seen2 & vis2 & out2 & -> & Hv2 & Hin2 & Hres).
    exists stop, v2, seen2, vis2, out2. split_and!; [done | done| |done].
    intros id Hid. destruct (Hin2 id Hid) as [Hin|Hin]; [by apply Hin1 | right; by right].
Qed.

(** ** One server *)

Local Abbreviation server := (member_server member).

Definition oneoffs : list CalendarEvent :=
  sort_by by_start (List.filter (upcoming_oneoff server from to) (hm_values (w_events w))).

Definition all_series : list CalendarEvent :=
  sort_by by_start (List.filter (upcoming_series server from to) (hm_values (w_events w))).

Lemma unseen_drop seen n es : unseen seen es -> unseen seen (drop n es).
Proof.
  unfold unseen, event_ids. intros [Hd Hs]. rewrite <- (take_drop n es) in Hd, Hs. rewrite fmap_app in Hd.
  apply NoDup_app in Hd as (_ & _ & Hd). split; [done|]. intros e He. apply Hs, elem_of_app. by right.
Qed.

(** After a page, the rest of the list is still unseen. *)
Lemma unseen_page seen seen' n es :
  unseen seen es -> (forall id, id ∈ seen' -> id ∈ seen \/ id ∈ event_ids (take n es)) -> unseen seen' (drop n es).
Proof.
  unfold unseen, event_ids. intros [Hd Hs] Hin. rewrite <- (take_drop n es) in Hd, Hs. rewrite fmap_app in Hd.
  apply NoDup_app in Hd as (_ & Hdis & Hd). split; [done|]. intros e He Hid. destruct (Hin _ Hid) as [Hid'|Hid'].
  - by apply (Hs e); [apply elem_of_app; right|].
  - apply (Hdis _ Hid'). by apply list_elem_of_fmap_2.
Qed.

Lemma omap_take_drop n es : omap row_of es = omap row_of (take n es) ++ omap row_of (drop n es).
Proof. by rewrite <- omap_app, take_drop. Qed.

Lemma oneoff_pages_run limit fuel : forall v seen (j : nat) visible out,
  good v -> unseen seen (drop (100 * j) oneoffs) -> expands oneoffs -> (length oneoffs <= 500)%nat ->
  (j <= 5)%nat -> (6 <= fuel + j)%nat -> visible <= limit ->
  run (oneoff_pages fuel now v seen server from to limit (Z.of_nat (100 * j)) visible out) w =
  Some (Ok (out ++ take (Z.to_nat (limit - visible)) (omap row_of (drop (100 * j) oneoffs))), w).
Proof.
  induction fuel as [|fuel IH]; intros v seen j visible out Hv Hu He Hlen Hj Hf Hl; [lia|]. cbn [oneoff_pages].
  unfold SCAN_BUDGET, PAGE. destruct (Z.of_nat (100 * j) <? 500) eqn:Eo; cbn [andb]; to_prop.
  2:{ rewrite drop_ge by lia. cbn [omap list_omap]. by rewrite take_nil, app_nil_r. }
  destruct (visible <? limit) eqn:Ev; to_prop.
  2:{ replace (Z.to_nat (limit - visible)) with O by lia. rewrite take_0, app_nil_r. done. }
  cbv zeta. replace (Z.min 100 (500 - Z.of_nat (100 * j))) with 100 by lia.
  rewrite run_ebind, run_atom. unfold fetch_upcoming_oneoffs_for_server. cbn [Z.eqb fst snd].
  change (100 =? 0) with false. cbv iota. cbn [fst snd]. fold oneoffs. rewrite Nat2Z.id.
  change (Z.to_nat 100) with 100%nat. set (rest := drop (100 * j) oneoffs) in *.
  destruct (take 100 rest) as [|e0 page0] eqn:Ep.
  { destruct rest; [|done]. cbn [omap list_omap]. by rewrite take_nil, app_nil_r. }
  rewrite <- Ep. clear e0 page0 Ep.
  assert (expands rest) as Her by (by apply Forall_drop).
  assert (unseen seen (take 100 rest)) as Hup.
  { destruct Hu as [Hd Hs]. unfold unseen, event_ids in *. rewrite <- (take_drop 100 rest) in Hd, Hs.
    rewrite fmap_app in Hd. apply NoDup_app in Hd as (Hd & _ & _). split; [done|].
    intros e Hin. apply Hs, elem_of_app. by left. }
  destruct (page_rows_spec limit (take 100 rest) v seen visible out Hv Hup (Forall_take _ _ _ Her) Ev)
    as (stop & v1 & seen1 & vis1 & out1 & -> & Hv1 & Hin1 & Hres).
  rewrite (omap_take_drop 100 rest). destruct stop.
  - destruct Hres as [-> Hle]. rewrite take_app_le by lia. done.
  - destruct Hres as (-> & -> & Hlt). replace (Z.of_nat (100 * j) + 100) with (Z.of_nat (100 * S j)) by lia.
    pose proof (unseen_page _ _ _ _ Hu Hin1) as Hu1.
    assert (drop 100 rest = drop (100 * S j) oneoffs) as Erest.
    { unfold rest. rewrite drop_drop. f_equal. lia. }
    rewrite Erest in *. rewrite IH; [|done|done|done|done|lia|lia|lia].
    rewrite take_app_ge by lia. rewrite <- app_assoc.
    set (len := length (omap row_of (take 100 rest))).
    replace (Z.to_nat (limit - (visible + Z.of_nat len))) with (Z.to_nat (limit - visible) - len)%nat by lia. done.
Qed.

Lemma server_run limit :
  1 <= limit -> expands oneoffs -> expands all_series ->
  NoDup (event_ids all_series ++ event_ids oneoffs) ->
  (length oneoffs <= 500)%nat -> (length all_series <= 200)%nat ->
  run (upcoming_for_server user member from to limit) w =
  Some (Ok (take (Z.to_nat limit) (sort_by by_key_then_id
              (omap row_of all_series ++ take (Z.to_nat limit) (omap row_of oneoffs)))), w).
Proof.
  intros Hl Ho Hs Hd Hlo Hls. apply NoDup_app in Hd as (Hds & Hdis & Hdo).
  unfold upcoming_for_server. cbv zeta. rewrite run_bind, run_atom. cbn [fst snd].
  rewrite run_ebind, run_atom. unfold fetch_upcoming_series_for_server.
  change (SERIES_CAP =? 0) with false. cbv iota. cbn [fst snd]. fold all_series.
  change (Z.to_nat SERIES_CAP) with 200%nat. rewrite (take_ge all_series) by done.
  destruct (series_rows_spec all_series (with_memberships d user [member]) ∅ []) as (v & seen & -> & Hv & Hin);
    [apply fresh_good | split; [done|]; intros ? ?; apply not_elem_of_empty | done|].
  rewrite run_ebind. rewrite (oneoff_pages_run limit 6 v seen 0); [|done| |done|done|lia|lia|lia].
  - cbn [app]. rewrite Z.sub_0_r, drop_0. done.
  - rewrite drop_0. split; [done|]. intros e He Hid. destruct (Hin _ Hid) as [Hid'|Hid'].
    + by apply not_elem_of_empty in Hid'.
    + apply (Hdis _ Hid'). by apply list_elem_of_fmap_2.
Qed.
End Rows.

(** ** Orders *)

(** By a number, then by an id *)
Definition lex (a b : Z * string) : bool := (a.1 <? b.1) || ((a.1 =? b.1) && str_leb a.2 b.2).

Lemma lex_total a b : lex a b = true \/ lex b a = true.
Proof.
  unfold lex. destruct (Z.lt_trichotomy a.1 b.1) as [Hlt|[->|Hlt]].
  - left. apply orb_true_iff. left. by apply Z.ltb_lt.
  - rewrite Z.ltb_irrefl, Z.eqb_refl. cbn [orb andb]. apply str_leb_total.
  - right. apply orb_true_iff. left. by apply Z.ltb_lt.
Qed.

Lemma lex_trans a b c : lex a b = true -> lex b c = true -> lex a c = true.
Proof.
  unfold lex. rewrite !orb_true_iff, !andb_true_iff, !Z.ltb_lt, !Z.eqb_eq.
  intros [H1|[H1 S1]] [H2|[H2 S2]]; [left; lia..|]. right. split; [lia | by eapply str_leb_trans].
Qed.

Lemma lex_antisym a b : lex a b = true -> lex b a = true -> a = b.
Proof.
  unfold lex. rewrite !orb_true_iff, !andb_true_iff, !Z.ltb_lt, !Z.eqb_eq.
  intros [H1|[H1 S1]] [H2|[H2 S2]]; [lia..|]. destruct a, b; cbn in *. f_equal; [done | by apply str_leb_antisym].
Qed.

Lemma by_start_lex a b : by_start a b = lex (ce_start a, ce_id a) (ce_start b, ce_id b).
Proof. done. Qed.

Lemma by_key_lex a b : by_key_then_id a b = lex (cd_key a, ce_id (cd_event a)) (cd_key b, ce_id (cd_event b)).
Proof. done. Qed.

Lemma by_key_total a b : by_key_then_id a b = true \/ by_key_then_id b a = true.
Proof. rewrite !by_key_lex. apply lex_total. Qed.

Lemma by_key_trans a b c : by_key_then_id a b = true -> by_key_then_id b c = true -> by_key_then_id a c = true.
Proof. rewrite !by_key_lex. apply lex_trans. Qed.

(** ** Two filters and a list *)

Lemma omap_split {A B} (f : A -> option B) (p q : A -> bool) (l : list A) :
  (forall x, x ∈ l -> p x = true -> q x = false) ->
  (forall x, x ∈ l -> is_Some (f x) -> p x = true \/ q x = true) ->
  omap f l ≡ₚ omap f (List.filter p l) ++ omap f (List.filter q l).
Proof.
  induction l as [|x l IH]; intros Hpq Hf; [done|]. cbn [List.filter omap list_omap].
  assert (omap f l ≡ₚ omap f (List.filter p l) ++ omap f (List.filter q l)) as IH'.
  { apply IH; intros y Hy; [apply Hpq | apply Hf]; by right. }
  pose proof (Hpq x ltac:(by left)) as Hx. pose proof (Hf x ltac:(by left)) as Hfx.
  destruct (p x); [rewrite Hx by done|destruct (q x)]; cbn [omap list_omap]; destruct (f x) as [b|]; rewrite IH'; try done.
  - by rewrite Permutation_middle.
  - by destruct Hfx as [?|?]; [eauto|..].
Qed.

Lemma omap_perm {A B} (f : A -> option B) (l1 l2 : list A) : l1 ≡ₚ l2 -> omap f l1 ≡ₚ omap f l2.
Proof. intros Hp. by rewrite Hp. Qed.

Lemma filter_sub {A} (p : A -> bool) (l : list A) : List.filter p l ⊆+ l.
Proof.
  induction l as [|x l IH]; [done|]. cbn [List.filter]. destruct (p x); [by apply submseteq_skip | by apply submseteq_cons].
Qed.

(** ** Every server *)

Section Everything.
Context `{ChronoLaws}.
Context `{!HashIter string CalendarEvent}.
Context `{!HashIter string Channel.t, !HashIter (string * string) Member}.
Context `{!HashIter string Role, !HashIter string OverrideField.t}.
Context (w : World) (user : User) (from to : Z).

Definition events_of (server : string) : list CalendarEvent :=
  List.filter (fun e => str_eqb (ce_server e) server) (hm_values (w_events w)).

(** Every row of a server the user is a member of *)
Definition server_rows (member : Member) : list Candidate :=
  omap (row_of w user member from to) (events_of (member_server member)).

Definition memberships : list Member :=
  List.filter (fun m => str_eqb (member_user m) (user_id user)) (hm_values (db_members (w_db w))).

Definition all_rows : list Candidate := concat (server_rows <$> memberships).

Context (Hstored : stored (w_db w)) (Hok : events_ok w) (Hplaced : well_placed w).

Lemma stored_ids : NoDup (event_ids (hm_values (w_events w))).
Proof.
  assert (event_ids (hm_values (w_events w)) = hm_keys (w_events w)) as ->; [|apply hm_keys_NoDup].
  unfold event_ids, hm_values, hm_keys. rewrite <- list_fmap_compose. apply list_fmap_ext.
  intros i [k e] Hi. cbn. apply list_elem_of_lookup_2, elem_of_hm_iter, Hok in Hi as [-> _]. done.
Qed.

Lemma stored_same e e' :
  e ∈ hm_values (w_events w) -> e' ∈ hm_values (w_events w) -> ce_id e = ce_id e' -> e = e'.
Proof.
  intros [k Hk]%elem_of_hm_values [k' Hk']%elem_of_hm_values Hid.
  destruct (Hok _ _ Hk) as [E _], (Hok _ _ Hk') as [E' _]. congruence.
Qed.

Lemma row_event member e c : row_of w user member from to e = Some c -> cd_event c = e.
Proof.
  unfold row_of. destruct (ce_cancelled e); [done|]. destruct (sees w user member e); [|done].
  destruct (List.filter _ _); [done|]. by intros [= <-].
Qed.

Lemma stored_window e : e ∈ hm_values (w_events w) -> exists starts,
  series_occurrence_starts e = Some starts /\
  occurrences_in_window e from to = Some (List.filter (overlaps e from to) starts).
Proof.
  intros [k Hk]%elem_of_hm_values. destruct (Hplaced _ _ Hk) as (Ha & _).
  destruct (starts_exist e None) as [starts Hs]; [intros Hr; by apply anchored_in_calendar, Ha|].
  exists starts. split; [done | by apply window_filter].
Qed.

(** A row is of an event that is not cancelled and has an occurrence in the
    window that starts in it. *)
Lemma row_occurrence member e c starts :
  occurrences_in_window e from to = Some (List.filter (overlaps e from to) starts) ->
  row_of w user member from to e = Some c ->
  ce_cancelled e = false /\ cd_key c ∈ starts /\ overlaps e from to (cd_key c) = true /\ from <= cd_key c.
Proof.
  intros Hw. unfold row_of. rewrite Hw. cbn [default from_option]. unfold Datatypes.id.
  destruct (ce_cancelled e); [done|]. destruct (sees w user member e); [|done].
  destruct (List.filter _ (List.filter _ starts)) as [|key rest] eqn:E; [done|]. intros [= <-]. cbn [cd_key].
  assert (key ∈ List.filter (fun start => from <=? start) (List.filter (overlaps e from to) starts)) as Hin
    by (rewrite E; by left).
  apply elem_of_filter_bool in Hin as [Hf Hin]. apply elem_of_filter_bool in Hin as [Ho Hin]. to_prop. done.
Qed.

Lemma oneoff_starts e starts : ce_recurrence e = None -> series_occurrence_starts e = Some starts -> starts = [ce_start e].
Proof.
  unfold series_occurrence_starts, series_occurrence_starts_bounded. intros -> Hs. by simplify_eq.
Qed.

(** The bounded queries of a server find every row. *)
Lemma rows_split member :
  server_rows member ≡ₚ
  omap (row_of w user member from to) (all_series w member from to) ++
  omap (row_of w user member from to) (oneoffs w member from to).
Proof.
  unfold server_rows, events_of, all_series, oneoffs.
  rewrite (omap_split _ (upcoming_series (member_server member) from to) (upcoming_oneoff (member_server member) from to)).
  - rewrite !filter_bool_filter.
    + apply Permutation_app; apply omap_perm; symmetry; apply sort_by_perm.
    + intros x _. unfold upcoming_oneoff. to_prop. tauto.
    + intros x _. unfold upcoming_series. to_prop. tauto.
  - intros x _. unfold upcoming_series, upcoming_oneoff. destruct (is_oneoff x); cbn [negb].
    + by rewrite !andb_false_r.
    + by rewrite andb_false_r.
  - intros e He [c Hc]. apply elem_of_filter_bool in He as [Hserver He].
    destruct (stored_window e He) as (starts & Hs & Hw).
    destruct (row_occurrence member e c starts Hw Hc) as (Hcan & Hin & Hov & Hfrom).
    apply elem_of_hm_values in He as [k Hk]. destruct (Hok _ _ Hk) as [_ Hsync].
    destruct (Hplaced _ _ Hk) as (Ha & Hi & _).
    pose proof (listing_window e starts from to _ Hsync Hi Ha Hs Hin Hov) as Hwin.
    unfold in_window in Hwin. unfold upcoming_series, upcoming_oneoff, is_oneoff. rewrite Hserver, Hcan.
    destruct (ce_recurrence e) eqn:Er; cbn [negb andb]; [left; to_prop; tauto|]. right.
    rewrite (oneoff_starts _ _ Er Hs) in Hin. apply list_elem_of_singleton in Hin.
    unfold overlaps in Hov. to_prop. lia.
Qed.

Lemma oneoff_rows_sorted member :
  StronglySorted (fun a b => by_key_then_id a b = true) (omap (row_of w user member from to) (oneoffs w member from to)).
Proof.
  assert (forall e, e ∈ oneoffs w member from to -> forall c, row_of w user member from to e = Some c ->
            cd_key c = ce_start e /\ cd_event c = e) as Hkey.
  { intros e He c Hc. unfold oneoffs in He. apply elem_of_sort_by, elem_of_filter_bool in He as [Hup He].
    destruct (stored_window e He) as (starts & Hs & Hw).
    destruct (row_occurrence member e c starts Hw Hc) as (_ & Hin & _ & _). split; [|by eapply row_event].
    unfold upcoming_oneoff, is_oneoff in Hup. destruct (ce_recurrence e) eqn:Er; [by rewrite andb_false_r in Hup|].
    rewrite (oneoff_starts _ _ Er Hs) in Hin. by apply list_elem_of_singleton in Hin. }
  assert (StronglySorted (fun a b => by_start a b = true) (oneoffs w member from to)) as Hsort.
  { apply sort_by_sorted; intros *; rewrite !by_start_lex; [apply lex_total | apply lex_trans]. }
  induction Hsort as [|e l Hl IH He]; [constructor|]. cbn [omap list_omap].
  assert (StronglySorted (fun a b => by_key_then_id a b = true) (omap (row_of w user member from to) l)) as IH'.
  { apply IH. intros x Hx. apply Hkey. by right. }
  destruct (row_of w user member from to e) as [c|] eqn:Ec; [|done]. constructor; [done|].
  apply Forall_forall. intros c' (e' & He' & Hc')%list_elem_of_omap.
  destruct (Hkey e ltac:(by left) c Ec) as [Hk1 He1]. destruct (Hkey e' ltac:(by right) c' Hc') as [Hk2 He2].
  rewrite by_key_lex, Hk1, He1, Hk2, He2, <- by_start_lex. rewrite Forall_forall in He. by apply He.
Qed.

(** *** Rows are distinct *)

Lemma NoDup_omap_inj {A B} (f : A -> option B) (l : list A) :
  (forall x y c, x ∈ l -> y ∈ l -> f x = Some c -> f y = Some c -> x = y) -> NoDup l -> NoDup (omap f l).
Proof.
  intros Hinj Hd. induction Hd as [|x l Hx Hd IH]; [constructor|]. cbn [omap list_omap].
  assert (NoDup (omap f l)) as IH'.
  { apply IH. intros a b c Ha Hb. apply Hinj; by right. }
  destruct (f x) as [c|] eqn:Ec; [|done]. apply NoDup_cons. split; [|done].
  intros (y & Hy & Hc)%list_elem_of_omap. apply Hx. by rewrite (Hinj x y c ltac:(by left) ltac:(by right) Ec Hc).
Qed.

Lemma server_row member c :
  c ∈ server_rows member ->
  cd_event c ∈ hm_values (w_events w) /\ ce_server (cd_event c) = member_server member /\
  row_of w user member from to (cd_event c) = Some c.
Proof.
  unfold server_rows, events_of. intros (e & He & Hc)%list_elem_of_omap.
  apply elem_of_filter_bool in He as [Hs%str_eqb_eq He]. by rewrite (row_event _ _ _ Hc).
Qed.

Lemma rows_distinct members :
  NoDup (member_server <$> members) -> distinct by_key_then_id (concat (server_rows <$> members)).
Proof.
  intros Hd. split.
  - induction members as [|m members IH]; cbn [fmap list_fmap concat]; [constructor|].
    cbn [fmap list_fmap] in Hd. apply NoDup_cons in Hd as [Hm Hd]. apply NoDup_app. split_and!; [| |by apply IH].
    + apply NoDup_omap_inj.
      * intros x y c _ _ Hx%row_event Hy%row_event. congruence.
      * eapply submseteq_NoDup; [apply filter_sub|]. eapply NoDup_fmap_1, stored_ids.
    + intros c (_ & Hs & _)%server_row (l & Hc & (m' & -> & Hm')%list_elem_of_fmap)%elem_concat.
      apply server_row in Hc as (_ & Hs' & _). apply Hm. rewrite <- Hs, Hs'. by apply list_elem_of_fmap_2.
  - intros x y (l & Hx & (m & -> & Hm)%list_elem_of_fmap)%elem_concat
      (l' & Hy & (m' & -> & Hm')%list_elem_of_fmap)%elem_concat Hxy Hyx.
    apply server_row in Hx as (Hex & Hsx & Hrx), Hy as (Hey & Hsy & Hry). rewrite by_key_lex in Hxy, Hyx.
    pose proof (lex_antisym _ _ Hxy Hyx) as E. injection E as _ Hid.
    pose proof (stored_same _ _ Hex Hey Hid) as Eev. rewrite Eev in *. rewrite Hsx in Hsy.
    apply list_elem_of_lookup in Hm as [i Hi], Hm' as [j Hj].
    assert (i = j) as -> by (eapply NoDup_lookup; [exact Hd | rewrite list_lookup_fmap, Hi; done |
      rewrite list_lookup_fmap, Hj; cbn; by rewrite Hsy]).
    rewrite Hi in Hj. injection Hj as <-. congruence.
Qed.

(** *** The user's rows *)

Lemma membership_row m : m ∈ memberships ->
  db_members (w_db w) !! (member_server m, member_user m) = Some m /\ member_user m = user_id user.
Proof.
  unfold memberships. intros [Hu Hm]%elem_of_filter_bool. apply str_eqb_eq in Hu.
  apply elem_of_hm_values in Hm as [[s u] Hl]. destruct (sd_members _ Hstored _ _ _ Hl) as [<- <-]. done.
Qed.

Lemma memberships_servers : NoDup (member_server <$> memberships).
Proof.
  assert (NoDup memberships) as Hd.
  { eapply submseteq_NoDup; [apply filter_sub|]. unfold hm_values.
    assert ((fun m => (member_server m, member_user m)) <$> (hm_iter (db_members (w_db w))).*2 = hm_keys (db_members (w_db w))) as E.
    { unfold hm_keys. rewrite <- list_fmap_compose. apply list_fmap_ext. intros i [[s u] m] Hi. cbn.
      apply list_elem_of_lookup_2, elem_of_hm_iter in Hi. destruct (sd_members _ Hstored _ _ _ Hi) as [-> ->]. done. }
    eapply (NoDup_fmap_1 (fun m => (member_server m, member_user m))). rewrite E. apply hm_keys_NoDup. }
  apply NoDup_fmap_2_strong; [|done]. intros m m' [H1 U1]%membership_row [H2 U2]%membership_row Hs. congruence.
Qed.

Lemma stored_expands l : l ⊆+ hm_values (w_events w) -> Forall (fun e => is_Some (occurrences_in_window e from to)) l.
Proof.
  intros Hsub. apply Forall_forall. intros e He. destruct (stored_window e) as (starts & _ & Hw); [|by eexists].
  by eapply elem_of_submseteq.
Qed.

Lemma sorted_sub p : sort_by by_start (List.filter p (hm_values (w_events w))) ⊆+ hm_values (w_events w).
Proof. rewrite sort_by_perm. apply filter_sub. Qed.

Lemma queries_ids member : NoDup (event_ids (all_series w member from to) ++ event_ids (oneoffs w member from to)).
Proof.
  assert (forall p, NoDup (event_ids (sort_by by_start (List.filter p (hm_values (w_events w)))))) as Hd.
  { intros p. unfold event_ids. eapply submseteq_NoDup; [|apply stored_ids]. unfold event_ids.
    rewrite sort_by_perm. apply sublist_submseteq.
    induction (hm_values (w_events w)) as [|x l IH]; [done|]. cbn [List.filter].
    destruct (p x); cbn [fmap list_fmap]; by constructor. }
  apply NoDup_app. split_and!; [apply Hd| |apply Hd]. unfold event_ids, all_series, oneoffs.
  intros id (e & -> & He)%list_elem_of_fmap (e' & Hid & He')%list_elem_of_fmap.
  apply elem_of_sort_by, elem_of_filter_bool in He as [Hs He], He' as [Ho He'].
  assert (e = e') as <- by by apply stored_same. unfold upcoming_series, upcoming_oneoff in Hs, Ho.
  to_prop. destruct Hs as [[[[_ Hs] _] _] _], Ho as [[[[_ Ho] _] _] _]. congruence.
Qed.

Context (limit : Z).
Context (Hlimit : 1 <= limit).
Context (Hseries : forall m, m ∈ memberships -> (length (all_series w m from to) <= 200)%nat).
Context (Honeoffs : forall m, m ∈ memberships -> (length (oneoffs w m from to) <= 500)%nat).

Lemma server_soonest m :
  m ∈ memberships ->
  run (upcoming_for_server user m from to limit) w =
  Some (Ok (cut by_key_then_id (Z.to_nat limit) (server_rows m)), w).
Proof.
  intros Hm. destruct (membership_row m Hm) as [Hrow Hown].
  rewrite (server_run w user m from to Hstored Hrow Hown limit Hlimit).
  - do 2 f_equal. f_equal. unfold cut.
    assert (distinct by_key_then_id (server_rows m)) as Hd.
    { pose proof (rows_distinct [m] (NoDup_singleton _)) as Hd. cbn in Hd. by rewrite app_nil_r in Hd. }
    assert (distinct by_key_then_id (omap (row_of w user m from to) (all_series w m from to) ++
              omap (row_of w user m from to) (oneoffs w m from to))) as Hd'.
    { eapply distinct_sub; [|exact Hd]. by apply Permutation_submseteq; rewrite rows_split. }
    rewrite take_sort_cut; [|apply by_key_total|apply by_key_trans|apply oneoff_rows_sorted|apply Hd'|apply Hd'].
    f_equal. apply sort_perm; [apply by_key_total | apply by_key_trans | by rewrite rows_split | done].
  - apply stored_expands, sorted_sub.
  - apply stored_expands, sorted_sub.
  - apply queries_ids.
  - by apply Honeoffs.
  - by apply Hseries.
Qed.

Lemma per_server_run members :
  (forall m, m ∈ members -> m ∈ memberships) ->
  run (per_server user members from to limit) w =
  Some (Ok (concat (cut by_key_then_id (Z.to_nat limit) <$> (server_rows <$> members))), w).
Proof.
  induction members as [|m members IH]; intros Hm; cbn [per_server]; [done|].
  rewrite run_ebind, server_soonest by (apply Hm; by left). rewrite run_ebind, IH; [done|].
  intros x Hx. apply Hm. by right.
Qed.

Lemma upcoming_run :
  (length memberships <= 200)%nat ->
  run (collect_upcoming user from to limit) w = Some (Ok (cut by_key_then_id (Z.to_nat limit) all_rows), w).
Proof.
  intros Hlen. unfold collect_upcoming. rewrite run_ebind, run_atom. unfold fetch_all_memberships. cbn [fst snd].
  fold memberships. change (Z.to_nat MAX_UPCOMING_SERVERS) with 200%nat. cbv zeta.
  assert (sort_by by_server memberships ≡ₚ memberships) as Hp by apply sort_by_perm.
  rewrite take_ge by (by rewrite Hp). rewrite run_ebind, per_server_run by (intros m; by rewrite Hp).
  cbn [run ok]. do 2 f_equal. f_equal. unfold all_rows.
  assert (concat (server_rows <$> sort_by by_server memberships) ≡ₚ concat (server_rows <$> memberships)) as Hperm.
  { rewrite <- !flat_map_concat_map. by rewrite Hp. }
  assert (distinct by_key_then_id (concat (server_rows <$> sort_by by_server memberships))) as Hd.
  { apply rows_distinct. rewrite Hp. apply memberships_servers. }
  pose proof (take_sort_cuts by_key_then_id by_key_total by_key_trans (Z.to_nat limit)
                (server_rows <$> sort_by by_server memberships) [] Hd) as Hcut.
  cbn [app] in Hcut. rewrite Hcut. unfold cut. f_equal.
  by apply sort_perm; [apply by_key_total | apply by_key_trans | |].
Qed.
End Everything.

(** C34. For a user in at most two hundred servers, each with at most two hundred
    series and five hundred one-off events in the window, the route answers
    exactly the [limit] soonest rows of all rows: sorting every event of
    every server by its first occurrence in the window and cutting once.  A
    row is of an event that a viewer with nothing remembered, walking the
    maps of roles in the same order, lets the user see.  The stored events are
    valid and [well_placed]: their instants are representable with room for a
    reminder, and a series starts at the earliest instant of its wall clock
    (not in the second of two equal hours, where the query can miss it:
    [repeated_hour_missed]). *)
Theorem upcoming_is_soonest `{ChronoLaws} `{!HashIter string CalendarEvent}
    `{!HashIter string Channel.t, !HashIter (string * string) Member}
    `{!HashIter string Role, !HashIter string OverrideField.t}
    (w : World) (user : User) (from to limit : Z) :
  stored (w_db w) -> events_ok w -> well_placed w ->
  user_bot_owner user = None -> window_ok from to MAX_UPCOMING_WINDOW_MS = true -> 1 <= limit <= MAX_LIMIT ->
  (length (memberships w user) <= 200)%nat ->
  (forall m, m ∈ memberships w user ->
     (length (all_series w m from to) <= 200)%nat /\ (length (oneoffs w m from to) <= 500)%nat) ->
  run (list_upcoming_events true user (Some from) (Some to) (Some limit)) w =
  Some (Ok ((fun row => mkWithOccurrences (cd_event row) (cd_occurrences row)) <$>
              take (Z.to_nat limit) (sort_by by_key_then_id (all_rows w user from to))), w).
Proof.
  intros Hst Hok Hpl Hbot Hwin Hlim Hlen Hq. unfold list_upcoming_events. rewrite run_ebind. cbn [run ok require_events_enabled].
  rewrite Hbot. rewrite bool_decide_eq_false_2 by by intros []. rewrite Hwin. cbn [negb default from_option]. cbv zeta.
  unfold Datatypes.id. assert ((1 <=? limit) && (limit <=? MAX_LIMIT) = true) as -> by (to_prop; lia). cbn [negb].
  rewrite run_bind, (upcoming_run w user from to Hst Hok Hpl limit); [done | lia | | |done];
    intros m Hm; by destruct (Hq m Hm).
Qed.

(** *** A morning *)

Definition lunch : CalendarEvent :=
  mkEvent "l" "s" None "u" "Lunch" None None 1710090000000 None 0 1710090000000 false "UTC" None None false None None 0 None.

Definition morning_db : Db :=
  mkDb ∅ {["s" := mkServer "s" "u" ∅ 1048576]} {[("s", "a") := mkMember "s" "a" [] None true true]} ∅.

Definition morning : World :=
  mkWorld morning_db ∅ {["e" := standup; "l" := lunch]} ∅ ∅ ∅ ∅ 0 [] [].

Definition reader : User := mkUser "a" false None None.

Lemma morning_stored : stored morning_db.
Proof.
  split.
  - intros s u m Hm. cbn in Hm. apply lookup_singleton_Some in Hm as [E <-]. by injection E as <- <-.
  - intros s x Hx. cbn in Hx. by apply lookup_singleton_Some in Hx as [<- <-].
  - intros s u m Hm. cbn in Hm. apply lookup_singleton_Some in Hm as [E <-]. injection E as <- <-. by eexists.
Qed.

Lemma morning_event id e : w_events morning !! id = Some e -> (id, e) = ("e", standup) \/ (id, e) = ("l", lunch).
Proof.
  cbn. rewrite lookup_insert_Some. intros [[<- <-]|[_ [<- <-]%lookup_singleton_Some]]; [by left | by right].
Qed.

Lemma upcoming_is_soonest_witness :
  run (list_upcoming_events true reader (Some 1710075600000) (Some 1710162000000) (Some 2)) morning =
  Some (Ok [mkWithOccurrences standup [1710075600000; 1710162000000]; mkWithOccurrences lunch [1710090000000]], morning).
Proof.
  rewrite (upcoming_is_soonest morning reader 1710075600000 1710162000000 2).
  - vm_compute. reflexivity.
  - apply morning_stored.
  - intros id e [E|E]%morning_event; injection E as -> ->; (split; [done|]); [apply standup_in_sync|].
    split; vm_compute; reflexivity.
  - intros id e [E|E]%morning_event; injection E as -> ->; split_and!; [intros _; apply standup_anchored| | |done| |];
      [by split; vm_compute | | by split; vm_compute|].
    + intros starts Hs. rewrite standup_starts in Hs. injection Hs as <-. repeat constructor; by vm_compute.
    + intros starts Hs. vm_compute in Hs. injection Hs as <-. repeat constructor; by vm_compute.
  - done.
  - done.
  - unfold MAX_LIMIT. lia.
  - apply Nat.leb_le. vm_compute. reflexivity.
  - intros m Hm. assert (m = mkMember "s" "a" [] None true true) as ->.
    { unfold memberships in Hm. apply elem_of_filter_bool in Hm as [_ (k & Hk)%elem_of_hm_values]. cbn in Hk.
      by apply lookup_singleton_Some in Hk as [_ <-]. }
    split; apply Nat.leb_le; vm_compute; reflexivity.
Defined.
