(* ===== verification/E2eeModel.v ===== *)
(** * End-to-end encryption: documents and signatures
      (crates/core/database/src/models/e2ee/model.rs)

    Devices with their identity keys, fallback and one-time keys, the
    envelopes queued for them, attachment blobs and key backups, and the texts
    a device signs.  Base64 and Ed25519 are the class [Crypto]; a string is a
    list of bytes. *)

From stdpp Require Import base numbers list gmap strings pretty.
From S2P Require Import Prelude Text Errors StripeApi MlsModel.
Open Scope Z_scope.
Open Scope sloga_scope.

(** ** Limits *)

Definition E2EE_PROTOCOL_VERSION : Z := 1.
Definition E2EE_DEVICE_ID_LENGTH : nat := 32.
Definition E2EE_SIGN_CONTEXT_IDENTITY : string := "acutest:e2ee:identity".
Definition E2EE_SIGN_CONTEXT_FALLBACK : string := "acutest:e2ee:fallback".
Definition E2EE_SIGN_CONTEXT_ONE_TIME : string := "acutest:e2ee:one-time".
Definition E2EE_MAX_BACKUP_SIZE : Z := 8 * 1024 * 1024.
Definition E2EE_MAX_BACKUP_HEADER_SIZE : Z := 1024.
Definition E2EE_BACKUP_KDF_M_MIN_KIB : Z := 8 * 1024.
Definition E2EE_BACKUP_KDF_M_MAX_KIB : Z := 512 * 1024.
Definition E2EE_BACKUP_KDF_T_MIN : Z := 1.
Definition E2EE_BACKUP_KDF_T_MAX : Z := 10.
Definition E2EE_BACKUP_KDF_P_MIN : Z := 1.
Definition E2EE_BACKUP_KDF_P_MAX : Z := 4.

(** ** Documents *)

Record E2EESignedKey : Type := mkSignedKey { sk_key_id : string; sk_key : string; sk_signature : string }.

Record E2EEIdentity : Type := mkIdentity {
  ie_id : string;
  ie_user_id : string;
  ie_device_id : string;
  ie_protocol_version : Z;
  ie_ed25519_key : string;
  ie_curve25519_key : string;
  ie_signature : string;
  ie_fallback_key : E2EESignedKey;
  ie_previous_fallback_key : option E2EESignedKey;
  ie_created_at : Z;
  ie_last_seen_at : Z;
  ie_last_session_id : string;
}.

Record E2EEOneTimeKey : Type := mkOneTimeKey {
  tk_id : string;
  tk_user_id : string;
  tk_device_id : string;
  tk_key_id : string;
  tk_key : string;
  tk_signature : string;
}.

Module E2EEContentType.
Inductive t : Type := Olm | MlsCommit | MlsWelcome | MlsCtl.
End E2EEContentType.

Record MlsEnvelopeRejoinIntent : Type := mkRejoin {
  rj_group_id : string;
  rj_channel_id : string;
  rj_user_id : string;
  rj_device_id : string;
  rj_key_package_ref : string;
  rj_signature : string;
}.

Definition from_join_intent (intent : MlsJoinIntent) (channel_id : string) : MlsEnvelopeRejoinIntent :=
  mkRejoin (ji_group_id intent) channel_id (ji_user_id intent) (ji_device_id intent) (ji_key_package_ref intent)
    (ji_signature intent).

Record E2EEEnvelope : Type := mkEnvelope {
  en_id : string;
  en_recipient_user_id : string;
  en_recipient_device_id : string;
  en_sender_user_id : string;
  en_sender_device_id : string;
  en_protocol_version : Z;
  en_sequence : Z;
  en_ciphertext : string;
  en_timestamp : Z;
  en_content_type : E2EEContentType.t;
  en_group_id : option string;
  en_epoch : option Z;
  en_committer : option MlsMemberDevice;
  en_added : list MlsMemberDevice;
  en_removed : list MlsMemberDevice;
  en_rejoin_intents : list MlsEnvelopeRejoinIntent;
  en_removed_reasons : list MlsRemovedReason;
}.

Record E2EEBlobRecipient : Type := mkRecipient { br_user_id : string; br_device_id : string; br_fetched : bool }.

Record E2EEBlob : Type := mkBlob {
  bl_id : string;
  bl_uploader_user_id : string;
  bl_uploader_device_id : string;
  bl_size : Z;
  bl_bucket_id : string;
  bl_iv : string;
  bl_key_id : option string;
  bl_recipients : list E2EEBlobRecipient;
}.

Definition s3_path (id : string) : string := "e2ee_" +:+ id.

Definition fully_fetched (blob : E2EEBlob) : bool := forallb br_fetched (bl_recipients blob).

Definition is_recipient (user_id device_id : string) (r : E2EEBlobRecipient) : bool :=
  str_eqb (br_user_id r) user_id && str_eqb (br_device_id r) device_id.

Definition authorizes_fetch (blob : E2EEBlob) (user_id device_id : string) : bool :=
  existsb (is_recipient user_id device_id) (bl_recipients blob).

Record E2EEBackup : Type := mkBackup {
  bk_id : string;
  bk_user_id : string;
  bk_device_id : string;
  bk_header : string;
  bk_ciphertext : string;
  bk_generation : Z;
  bk_created_at : Z;
  bk_updated_at : Z;
}.

(** The id of a device's identity and of its backup *)
Definition device_composite_id (user_id device_id : string) : string := user_id +:+ ":" +:+ device_id.

Definition key_composite_id (user_id device_id key_id : string) : string :=
  user_id +:+ ":" +:+ device_id +:+ ":" +:+ key_id.

(** ** The header of a backup *)

Definition as_u64_value (v : Value.t) : option Z :=
  match v with Value.Integer z => if (0 <=? z) && (z <=? u64_max) then Some z else None | _ => None end.

Definition between (lo hi x : Z) : bool := (lo <=? x) && (x <=? hi).

Definition is_integer (o : option Z) (z : Z) : bool := match o with Some x => x =? z | None => false end.

Definition bad_header (what : string) : Result unit :=
  Err (ErrorType.FailedValidation ("backup header: " +:+ what)).

(** [serde_json::from_str] *)
Definition validate_header (parse_json : string -> option Value.t)
    (header expected_user_id expected_device_id : string) (body_generation : Z) : Result unit :=
  if E2EE_MAX_BACKUP_HEADER_SIZE <? Z.of_nat (String.length header)
  then Err (ErrorType.FailedValidation "backup header too large")
  else
    match parse_json header with
    | None => Err (ErrorType.FailedValidation "backup header is not valid JSON")
    | Some parsed =>
        if negb (is_integer (Value.get parsed "v" ≫= as_u64_value) 1) then bad_header "unsupported version"
        else
          match Value.get parsed "kdf" with
          | None => bad_header "missing kdf"
          | Some kdf =>
              if negb (is_some_str (Value.get kdf "alg" ≫= Value.as_str) "argon2id")
              then bad_header "unsupported kdf alg"
              else
                match Value.get kdf "m_kib" ≫= as_u64_value, Value.get kdf "t" ≫= as_u64_value,
                      Value.get kdf "p" ≫= as_u64_value with
                | Some m, Some t, Some p =>
                    if between E2EE_BACKUP_KDF_M_MIN_KIB E2EE_BACKUP_KDF_M_MAX_KIB m
                       && between E2EE_BACKUP_KDF_T_MIN E2EE_BACKUP_KDF_T_MAX t
                       && between E2EE_BACKUP_KDF_P_MIN E2EE_BACKUP_KDF_P_MAX p
                    then
                      if negb (is_some_str (Value.get parsed "user_id" ≫= Value.as_str) expected_user_id)
                      then bad_header "user_id mismatch"
                      else if negb (is_some_str (Value.get parsed "device_id" ≫= Value.as_str) expected_device_id)
                      then bad_header "device_id mismatch"
                      else
                        match Value.get parsed "generation" ≫= Value.as_i64 with
                        | None => bad_header "missing generation"
                        | Some header_generation =>
                            if header_generation =? body_generation then Ok tt
                            else bad_header "generation mismatch"
                        end
                    else bad_header "kdf params out of range"
                | _, _, _ => bad_header "kdf params out of range"
                end
          end
    end.

(** ** Signatures *)

(** What is used of the base64 and Ed25519 libraries *)
Class Crypto : Type := {
  b64_decode : string -> option string;   (* STANDARD_NO_PAD *)
  VerifyingKey : Type;
  from_bytes : string -> option VerifyingKey;
  verify_strict : VerifyingKey -> string -> string -> bool;   (* key, message, signature *)
}.

(** The characters of unpadded base64 are letters, digits, [+] and [/]. *)
Class CryptoLaws `{Crypto} : Prop :=
  b64_one_line : forall s bytes, b64_decode s = Some bytes -> contains_char newline s = false.

(** [{a}\n{b}] *)
Definition line (a b : string) : string := a +:+ String newline b.

Definition lower_hex (c : Ascii.ascii) : bool := byte_between 48 57 c || byte_between 97 102 c.

Definition is_valid_device_id (device_id : string) : bool :=
  (String.length device_id =? E2EE_DEVICE_ID_LENGTH)%nat && forallb lower_hex (String.list_ascii_of_string device_id).

Definition signed_key_payload (context : string) (protocol_version : Z) (device_id key_id key : string) : string :=
  line context (line ("protocol_version:" +:+ pretty protocol_version) (line ("device_id:" +:+ device_id)
    (line ("key_id:" +:+ key_id) ("key:" +:+ key)))).

Definition signed_payload (protocol_version : Z) (device_id ed25519_key curve25519_key : string) : string :=
  line E2EE_SIGN_CONTEXT_IDENTITY (line ("protocol_version:" +:+ pretty protocol_version)
    (line ("device_id:" +:+ device_id) (line ("ed25519:" +:+ ed25519_key) ("curve25519:" +:+ curve25519_key)))).

Definition claim_payload (device_id session_id nonce : string) : string :=
  line "acutest:e2ee:device-claim" (line ("device_id:" +:+ device_id) (line ("session_id:" +:+ session_id)
    ("nonce:" +:+ nonce))).

Definition assert_bound_session (self : E2EEIdentity) (session_id : string) : Result unit :=
  if str_eqb (ie_last_session_id self) session_id then Ok tt else Err ErrorType.NotAuthenticated.

Section Signatures.
Context `{Crypto}.

Definition decode_exact (value : string) (length : nat) : option string :=
  match b64_decode value with
  | Some bytes => if (String.length bytes =? length)%nat then Some bytes else None
  | None => None
  end.

Definition verify_signature (verifying_key : VerifyingKey) (payload signature : string) : bool :=
  match decode_exact signature 64 with
  | None => false
  | Some bytes => verify_strict verifying_key payload bytes
  end.

Definition verifying_key (self : E2EEIdentity) : option VerifyingKey :=
  match decode_exact (ie_ed25519_key self) 32 with Some bytes => from_bytes bytes | None => None end.

Definition invalid (what : string) : Result unit := Err (ErrorType.FailedValidation what).

(** [E2EESignedKey::verify] *)
Definition verify_signed_key (self : E2EESignedKey) (key : VerifyingKey) (context : string) (protocol_version : Z)
    (device_id : string) : Result unit :=
  match decode_exact (sk_key self) 32 with
  | None => invalid "invalid Curve25519 key"
  | Some _ =>
      let payload := signed_key_payload context protocol_version device_id (sk_key_id self) (sk_key self) in
      if verify_signature key payload (sk_signature self) then Ok tt else invalid "invalid key signature"
  end.

(** [E2EEIdentity::verify] *)
Definition verify_identity (self : E2EEIdentity) : Result unit :=
  match verifying_key self with
  | None => invalid "invalid Ed25519 identity key"
  | Some key =>
      match decode_exact (ie_curve25519_key self) 32 with
      | None => invalid "invalid Curve25519 identity key"
      | Some _ =>
          let payload := signed_payload (ie_protocol_version self) (ie_device_id self) (ie_ed25519_key self)
                           (ie_curve25519_key self) in
          if verify_signature key payload (ie_signature self) then
            let? _ := verify_signed_key (ie_fallback_key self) key E2EE_SIGN_CONTEXT_FALLBACK
                        (ie_protocol_version self) (ie_device_id self) in
            match ie_previous_fallback_key self with
            | Some previous =>
                verify_signed_key previous key E2EE_SIGN_CONTEXT_FALLBACK (ie_protocol_version self)
                  (ie_device_id self)
            | None => Ok tt
            end
          else invalid "invalid identity signature"
      end
  end.

Definition verify_payload (self : E2EEIdentity) (payload signature : string) : bool :=
  match verifying_key self with Some key => verify_signature key payload signature | None => false end.

Definition verify_claim (self : E2EEIdentity) (nonce session_id signature : string) : bool :=
  match verifying_key self with
  | Some key => verify_signature key (claim_payload (ie_device_id self) session_id nonce) signature
  | None => false
  end.

(** [E2EEOneTimeKey::verify] *)
Definition verify_one_time_key (self : E2EEOneTimeKey) (identity : E2EEIdentity) : Result unit :=
  match verifying_key identity with
  | None => invalid "invalid Ed25519 identity key"
  | Some key =>
      match decode_exact (tk_key self) 32 with
      | None => invalid "invalid Curve25519 key"
      | Some _ =>
          let payload := signed_key_payload E2EE_SIGN_CONTEXT_ONE_TIME (ie_protocol_version identity)
                           (tk_device_id self) (tk_key_id self) (tk_key self) in
          if verify_signature key payload (tk_signature self) then Ok tt
          else invalid "invalid one-time key signature"
      end
  end.
End Signatures.

(** ** One text per statement *)

(** What a device signs: its identity, a fallback key, a one-time key, or that
    a session is its own *)
Module Statement.
Inductive t : Type :=
| Identity (protocol_version : Z) (device_id ed25519_key curve25519_key : string)
| Fallback (protocol_version : Z) (device_id key_id key : string)
| OneTime (protocol_version : Z) (device_id key_id key : string)
| Claim (device_id session_id nonce : string).
End Statement.

Definition statement_text (s : Statement.t) : string :=
  match s with
  | Statement.Identity v d e c => signed_payload v d e c
  | Statement.Fallback v d i k => signed_key_payload E2EE_SIGN_CONTEXT_FALLBACK v d i k
  | Statement.OneTime v d i k => signed_key_payload E2EE_SIGN_CONTEXT_ONE_TIME v d i k
  | Statement.Claim d s n => claim_payload d s n
  end.

Definition one_line (s : string) : bool := negb (contains_char newline s).

Section Texts.
Context `{CryptoLaws}.

(** What is checked of the parts: device ids are hexadecimal, keys are base64
    of 32 bytes; session ids and nonces are made by the server. *)
Definition proper (s : Statement.t) : bool :=
  match s with
  | Statement.Identity _ d e c => is_valid_device_id d && is_ok (ok_or (E := unit) (decode_exact e 32) tt)
                                   && is_ok (ok_or (E := unit) (decode_exact c 32) tt)
  | Statement.Fallback _ d _ k | Statement.OneTime _ d _ k =>
      is_valid_device_id d && is_ok (ok_or (E := unit) (decode_exact k 32) tt)
  | Statement.Claim d s n => is_valid_device_id d && one_line s && one_line n
  end.

Lemma line_inj a b a' b' :
  one_line a = true -> one_line a' = true -> line a b = line a' b' -> a = a' /\ b = b'.
Proof. intros Ha Ha'. apply join_inj; by apply negb_true_iff. Qed.

(** The last line *)
Lemma last_line_inj a b a' b' :
  one_line b = true -> one_line b' = true -> line a b = line a' b' -> a = a' /\ b = b'.
Proof.
  unfold one_line, line. rewrite !negb_true_iff. intros Hb Hb'. revert a'.
  induction a as [|c a IH]; intros [|c' a']; cbn; intros E; simplify_eq; [done|..].
  - change (contains_char newline (a' +:+ String newline b') = false) in Hb.
    rewrite contains_char_app in Hb. by destruct (contains_char newline a').
  - change (contains_char newline (a +:+ String newline b) = false) in Hb'.
    rewrite contains_char_app in Hb'. by destruct (contains_char newline a).
  - edestruct (IH a') as [-> ->]; [|done]. done.
Qed.

Lemma one_line_app a b : one_line (a +:+ b) = one_line a && one_line b.
Proof. unfold one_line. rewrite contains_char_app. apply negb_orb. Qed.

Lemma one_line_pretty (z : Z) : one_line (pretty z) = true.
Proof. unfold one_line. by rewrite pretty_Z_contains. Qed.

Lemma one_line_device d : is_valid_device_id d = true -> one_line d = true.
Proof.
  intros [_ Hd]%andb_true_iff. unfold one_line. induction d as [|c d IH]; [done|]. cbn in *.
  apply andb_true_iff in Hd as [Hc Hd]. rewrite negb_orb, IH, andb_true_r by done.
  apply negb_true_iff, Ascii.eqb_neq. intros <-. done.
Qed.

Lemma one_line_key k n : is_ok (ok_or (E := unit) (decode_exact k n) tt) = true -> one_line k = true.
Proof.
  unfold decode_exact. destruct (b64_decode k) as [bytes|] eqn:E; [|done]. intros _.
  unfold one_line. by rewrite (b64_one_line _ _ E).
Qed.

(** A side condition of a line: every part was checked *)
Ltac one_line_side :=
  rewrite ?one_line_app, ?andb_true_iff; split_and?;
  first [reflexivity | eassumption | apply one_line_pretty | by eauto using one_line_device, one_line_key].

Ltac next_line E := apply line_inj in E as [?Hline E]; [|one_line_side..].

Lemma app_same p a b : p +:+ a = p +:+ b -> a = b.
Proof. apply str_app_inj_l. Qed.

Lemma key_payload_inj context context' v v' d d' i i' k k' :
  one_line context = true -> one_line context' = true ->
  is_valid_device_id d = true -> is_valid_device_id d' = true ->
  one_line k = true -> one_line k' = true ->
  signed_key_payload context v d i k = signed_key_payload context' v' d' i' k' ->
  context = context' /\ v = v' /\ d = d' /\ i = i' /\ k = k'.
Proof.
  intros ?????? E. unfold signed_key_payload in E. next_line E. next_line E. next_line E.
  apply last_line_inj in E as [Ei Ek]; [|one_line_side..].
  apply app_same in Hline0, Hline1, Ei, Ek. apply (inj pretty) in Hline0. done.
Qed.

Lemma identity_payload_inj v v' d d' e e' c c' :
  is_valid_device_id d = true -> is_valid_device_id d' = true ->
  one_line e = true -> one_line e' = true ->
  signed_payload v d e c = signed_payload v' d' e' c' -> v = v' /\ d = d' /\ e = e' /\ c = c'.
Proof.
  intros ???? E. unfold signed_payload in E. next_line E. next_line E. next_line E. next_line E.
  apply app_same in Hline0, Hline1, Hline2, E. apply (inj pretty) in Hline0. done.
Qed.

Lemma claim_payload_inj d d' s s' n n' :
  is_valid_device_id d = true -> is_valid_device_id d' = true -> one_line s = true -> one_line s' = true ->
  claim_payload d s n = claim_payload d' s' n' -> d = d' /\ s = s' /\ n = n'.
Proof.
  intros ???? E. unfold claim_payload in E. next_line E. next_line E. next_line E.
  by apply app_same in Hline0, Hline1, E.
Qed.

(** The first line of a text *)
Definition purpose (s : Statement.t) : string :=
  match s with
  | Statement.Identity _ _ _ _ => E2EE_SIGN_CONTEXT_IDENTITY
  | Statement.Fallback _ _ _ _ => E2EE_SIGN_CONTEXT_FALLBACK
  | Statement.OneTime _ _ _ _ => E2EE_SIGN_CONTEXT_ONE_TIME
  | Statement.Claim _ _ _ => "acutest:e2ee:device-claim"
  end.

Lemma text_purpose s : exists rest, statement_text s = line (purpose s) rest.
Proof. destruct s; by eexists. Qed.

Lemma purposes_differ s s' : statement_text s = statement_text s' -> purpose s = purpose s'.
Proof.
  destruct (text_purpose s) as [r ->], (text_purpose s') as [r' ->]. intros E.
  apply line_inj in E as [-> _]; [done|by destruct s|by destruct s'].
Qed.
End Texts.

(** ** Theorem *)

(** C14. The text a device signs says one thing: whatever was checked of the parts
    when the text was made, two statements with the same text are the same
    statement.  A signature over a fallback key cannot be shown as one over a
    one-time key, an identity or a claim, nor moved to another device,
    protocol version, key id or session, although a key id may hold any
    characters. *)
Theorem signed_texts_are_distinct `{CryptoLaws} (s s' : Statement.t) :
  proper s = true -> proper s' = true -> statement_text s = statement_text s' -> s = s'.
Proof.
  intros Hs Hs' E. pose proof (purposes_differ _ _ E) as Ep.
  destruct s, s'; try done; clear Ep; cbn in *; rewrite ?andb_true_iff in Hs, Hs'; destruct_and?.
  - apply identity_payload_inj in E; [naive_solver|eauto using one_line_key..].
  - apply key_payload_inj in E; [naive_solver|first [done | eauto using one_line_key]..].
  - apply key_payload_inj in E; [naive_solver|first [done | eauto using one_line_key]..].
  - apply claim_payload_inj in E; [naive_solver|done..].
Qed.

(** ** A small instance *)

Module SampleCrypto.
(** A checksum in place of a signature, and bytes as they are in place of
    base64 *)
Definition checksum (m : string) : Z :=
  foldl (fun h c => (h * 131 + Z.of_nat (Ascii.nat_of_ascii c)) mod 1000000007) 7 (String.list_ascii_of_string m).

Fixpoint pad (n : nat) (s : string) : string :=
  match n, s with
  | O, _ => ""
  | S n, EmptyString => String (Ascii.ascii_of_nat 48) (pad n "")
  | S n, String c s => String c (pad n s)
  end.

Definition sign (key message : string) : string := pad 32 key +:+ pad 32 (pretty (checksum message)).

Definition crypto : Crypto := {|
  b64_decode := fun s => if one_line s then Some s else None;
  VerifyingKey := string;
  from_bytes := Some;
  verify_strict := fun key message signature => str_eqb signature (sign key message);
|}.

Lemma crypto_laws : @CryptoLaws crypto.
Proof. intros s bytes. cbn. unfold one_line. by destruct (contains_char newline s). Qed.
End SampleCrypto.

Lemma signed_texts_are_distinct_witness :
  let d := "0123456789abcdef0123456789abcdef" in
  let s := Statement.OneTime 1 d "k1" (SampleCrypto.pad 32 "key") in
  @proper SampleCrypto.crypto s = true /\ (statement_text s = statement_text s -> s = s).
Proof.
  intros d s. assert (@proper SampleCrypto.crypto s = true) as Hs by (vm_compute; reflexivity).
  split; [exact Hs|]. exact (@signed_texts_are_distinct SampleCrypto.crypto SampleCrypto.crypto_laws s s Hs Hs).
Defined.
