(* ===== verification/E2ee.v ===== *)
(** * End-to-end encryption: the driver and the life of a device
      (models/e2ee/ops/reference.rs, models/e2ee/model.rs)

    Each operation of the in-memory driver holds one lock and is one atomic
    operation on the world; deleting a device takes three locks one after the
    other, and is three. *)

From stdpp Require Import base numbers list gmap strings pretty sorting.
From S2P Require Import Prelude Text Errors Program Permissions Store StripeApi MlsModel E2eeModel.
Open Scope Z_scope.
Open Scope sloga_scope.

(** Of the events, those about devices and envelopes.  On the wire an
    envelope has all its fields but the time. *)
Module EventV1.
Inductive t : Type :=
| E2EEMessage (envelope : E2EEEnvelope)
| E2EEDeviceCreate (user_id device_id : string)
| E2EEDeviceDelete (user_id device_id : string)
| E2EEChallenge (nonce : string)
| E2EEClaimResult (device_id : string) (accepted : bool).
End EventV1.

Record World : Type := mkWorld {
  w_db : Db;   (* users, servers, members and channels *)
  w_identities : gmap string E2EEIdentity;
  w_keys : gmap string E2EEOneTimeKey;
  w_queue : gmap string E2EEEnvelope;
  w_blobs : gmap string E2EEBlob;
  w_backups : gmap string E2EEBackup;
  w_packages : gmap string MlsKeyPackage;
  w_now : Z;   (* the clock *)
  w_published : list (string * EventV1.t);   (* by topic *)
  w_frames : list (string * EventV1.t);   (* sent on sockets, by session *)
  w_pushed : list string;   (* users sent a push notification *)
}.

Definition set_identities (w : World) (v : gmap string E2EEIdentity) : World :=
  mkWorld (w_db w) v (w_keys w) (w_queue w) (w_blobs w) (w_backups w) (w_packages w) (w_now w) (w_published w)
    (w_frames w) (w_pushed w).
Definition set_keys (w : World) (v : gmap string E2EEOneTimeKey) : World :=
  mkWorld (w_db w) (w_identities w) v (w_queue w) (w_blobs w) (w_backups w) (w_packages w) (w_now w) (w_published w)
    (w_frames w) (w_pushed w).
Definition set_queue (w : World) (v : gmap string E2EEEnvelope) : World :=
  mkWorld (w_db w) (w_identities w) (w_keys w) v (w_blobs w) (w_backups w) (w_packages w) (w_now w) (w_published w)
    (w_frames w) (w_pushed w).
Definition set_blobs (w : World) (v : gmap string E2EEBlob) : World :=
  mkWorld (w_db w) (w_identities w) (w_keys w) (w_queue w) v (w_backups w) (w_packages w) (w_now w) (w_published w)
    (w_frames w) (w_pushed w).
Definition set_backups (w : World) (v : gmap string E2EEBackup) : World :=
  mkWorld (w_db w) (w_identities w) (w_keys w) (w_queue w) (w_blobs w) v (w_packages w) (w_now w) (w_published w)
    (w_frames w) (w_pushed w).
Definition set_packages (w : World) (v : gmap string MlsKeyPackage) : World :=
  mkWorld (w_db w) (w_identities w) (w_keys w) (w_queue w) (w_blobs w) (w_backups w) v (w_now w) (w_published w)
    (w_frames w) (w_pushed w).
Definition set_published (w : World) (v : list (string * EventV1.t)) : World :=
  mkWorld (w_db w) (w_identities w) (w_keys w) (w_queue w) (w_blobs w) (w_backups w) (w_packages w) (w_now w) v
    (w_frames w) (w_pushed w).
Definition set_frames (w : World) (v : list (string * EventV1.t)) : World :=
  mkWorld (w_db w) (w_identities w) (w_keys w) (w_queue w) (w_blobs w) (w_backups w) (w_packages w) (w_now w)
    (w_published w) v (w_pushed w).
Definition set_pushed (w : World) (v : list string) : World :=
  mkWorld (w_db w) (w_identities w) (w_keys w) (w_queue w) (w_blobs w) (w_backups w) (w_packages w) (w_now w)
    (w_published w) (w_frames w) v.

(** [HashMap::retain] on the values *)
Definition retain {V} (p : V -> bool) (m : gmap string V) : gmap string V := filter (fun kv => p kv.2 = true) m.

Definition with_session (e : E2EEIdentity) (session_id : string) (at_ : Z) : E2EEIdentity :=
  mkIdentity (ie_id e) (ie_user_id e) (ie_device_id e) (ie_protocol_version e) (ie_ed25519_key e)
    (ie_curve25519_key e) (ie_signature e) (ie_fallback_key e) (ie_previous_fallback_key e) (ie_created_at e)
    at_ session_id.

Definition key_of (user_id device_id : string) (k : E2EEOneTimeKey) : bool :=
  str_eqb (tk_user_id k) user_id && str_eqb (tk_device_id k) device_id.

Definition envelope_for (user_id device_id : string) (e : E2EEEnvelope) : bool :=
  str_eqb (en_recipient_user_id e) user_id && str_eqb (en_recipient_device_id e) device_id.

Definition package_of (user_id device_id : string) (p : MlsKeyPackage) : bool :=
  str_eqb (kp_user_id p) user_id && str_eqb (kp_device_id p) device_id.

Definition by_device (a b : E2EEIdentity) : bool := str_leb (ie_device_id a) (ie_device_id b).
Definition by_backup_device (a b : E2EEBackup) : bool := str_leb (bk_device_id a) (bk_device_id b).
Definition by_envelope_id (a b : E2EEEnvelope) : bool := str_leb (en_id a) (en_id b).
Definition by_blob_id (a b : E2EEBlob) : bool := str_leb (bl_id a) (bl_id b).

(** [Iterator::min] *)
Definition min_id (ids : list string) : option string := head (sort_by str_leb ids).

(** [iter_mut().find(..)] and [fetched = true] *)
Fixpoint mark_fetched (user_id device_id : string) (l : list E2EEBlobRecipient) : option (list E2EEBlobRecipient) :=
  match l with
  | [] => None
  | r :: l =>
      if is_recipient user_id device_id r then Some (mkRecipient (br_user_id r) (br_device_id r) true :: l)
      else (cons r) <$> mark_fetched user_id device_id l
  end.

Section Driver.
Context `{!HashIter string E2EEIdentity, !HashIter string E2EEOneTimeKey, !HashIter string E2EEEnvelope}.
Context `{!HashIter string E2EEBlob, !HashIter string E2EEBackup, !HashIter string Channel.t}.

(** ** The driver *)

Definition fetch_e2ee_identity (user_id device_id : string) (w : World) : World * Result E2EEIdentity :=
  (w, ok_or (w_identities w !! device_composite_id user_id device_id) ErrorType.NotFound).

Definition fetch_e2ee_identities (user_id : string) (w : World) : World * Result (list E2EEIdentity) :=
  (w, Ok (sort_by by_device
            (List.filter (fun e => str_eqb (ie_user_id e) user_id) (hm_values (w_identities w))))).

Definition insert_e2ee_identity (identity : E2EEIdentity) (w : World) : World * Result unit :=
  match w_identities w !! ie_id identity with
  | Some _ => (w, Err ErrorType.InvalidOperation)
  | None => (set_identities w (<[ie_id identity := identity]> (w_identities w)), Ok tt)
  end.

Definition replace_e2ee_identity (identity : E2EEIdentity) (w : World) : World * Result unit :=
  match w_identities w !! ie_id identity with
  | None => (w, Err ErrorType.NotFound)
  | Some _ => (set_identities w (<[ie_id identity := identity]> (w_identities w)), Ok tt)
  end.

Definition update_e2ee_identity_session (user_id device_id session_id : string) (at_ : Z) (w : World)
    : World * Result unit :=
  let id := device_composite_id user_id device_id in
  match w_identities w !! id with
  | None => (w, Err ErrorType.NotFound)
  | Some e => (set_identities w (<[id := with_session e session_id at_]> (w_identities w)), Ok tt)
  end.

(** The three sections of [delete_e2ee_device] *)
Definition remove_identity (user_id device_id : string) (w : World) : World * bool :=
  let id := device_composite_id user_id device_id in
  (set_identities w (delete id (w_identities w)), bool_decide (is_Some (w_identities w !! id))).

Definition remove_keys (user_id device_id : string) (w : World) : World * unit :=
  (set_keys w (retain (fun k => negb (key_of user_id device_id k)) (w_keys w)), tt).

Definition remove_envelopes (user_id device_id : string) (w : World) : World * unit :=
  (set_queue w (retain (fun e => negb (envelope_for user_id device_id e)) (w_queue w)), tt).

Definition delete_e2ee_device (user_id device_id : string) : Eff World bool :=
  do! existed <- atom (remove_identity user_id device_id);
  do! _ <- atom (remove_keys user_id device_id);
  do! _ <- atom (remove_envelopes user_id device_id);
  ok existed.

Fixpoint delete_devices (user_id : string) (device_ids : list string) : Eff World unit :=
  match device_ids with
  | [] => ok tt
  | device_id :: device_ids =>
      let! _ := delete_e2ee_device user_id device_id in
      delete_devices user_id device_ids
  end.

Definition device_ids_of (user_id : string) (w : World) : World * list string :=
  (w, ie_device_id <$> List.filter (fun e => str_eqb (ie_user_id e) user_id) (hm_values (w_identities w))).

Definition delete_all_e2ee_devices (user_id : string) : Eff World (list string) :=
  do! device_ids <- atom (device_ids_of user_id);
  let! _ := delete_devices user_id device_ids in
  ok device_ids.

Definition insert_e2ee_one_time_keys (new_keys : list E2EEOneTimeKey) (w : World) : World * Result unit :=
  (set_keys w (foldl (fun m k => <[tk_id k := k]> m) (w_keys w) new_keys), Ok tt).

Definition delete_e2ee_one_time_keys (user_id device_id : string) (w : World) : World * Result Z :=
  let kept := retain (fun k => negb (key_of user_id device_id k)) (w_keys w) in
  (set_keys w kept, Ok (Z.of_nat (size (w_keys w)) - Z.of_nat (size kept))).

Definition count_e2ee_one_time_keys (user_id device_id : string) (w : World) : World * Result Z :=
  (w, Ok (Z.of_nat (length (List.filter (key_of user_id device_id) (hm_values (w_keys w)))))).

Definition count_e2ee_one_time_keys_among (user_id device_id : string) (key_ids : list string) (w : World)
    : World * Result Z :=
  (w, Ok (Z.of_nat (length (List.filter
     (fun key_id => bool_decide (is_Some (w_keys w !! key_composite_id user_id device_id key_id))) key_ids)))).

Definition consume_e2ee_one_time_key (user_id device_id : string) (w : World)
    : World * Result (option E2EEOneTimeKey) :=
  match min_id (tk_id <$> List.filter (key_of user_id device_id) (hm_values (w_keys w))) with
  | None => (w, Ok None)
  | Some id => (set_keys w (delete id (w_keys w)), Ok (w_keys w !! id))
  end.

Definition insert_e2ee_envelopes (envelopes : list E2EEEnvelope) (w : World) : World * Result unit :=
  (set_queue w (foldl (fun m e => <[en_id e := e]> m) (w_queue w) envelopes), Ok tt).

Definition count_e2ee_envelopes (user_id device_id : string) (w : World) : World * Result Z :=
  (w, Ok (Z.of_nat (length (List.filter (envelope_for user_id device_id) (hm_values (w_queue w)))))).

Definition sum_e2ee_envelope_bytes (user_id device_id : string) (w : World) : World * Result Z :=
  (w, Ok (list_sum (fun e => Z.of_nat (String.length (en_ciphertext e)))
            (List.filter (envelope_for user_id device_id) (hm_values (w_queue w))))).

Definition fetch_e2ee_envelopes (user_id device_id : string) (limit : Z) (w : World)
    : World * Result (list E2EEEnvelope) :=
  (w, Ok (take (Z.to_nat (Z.max limit 0))
            (sort_by by_envelope_id (List.filter (envelope_for user_id device_id) (hm_values (w_queue w)))))).

Definition delete_e2ee_envelope (id user_id device_id : string) (w : World) : World * Result bool :=
  match w_queue w !! id with
  | Some e =>
      if envelope_for user_id device_id e then (set_queue w (delete id (w_queue w)), Ok true) else (w, Ok false)
  | None => (w, Ok false)
  end.

Definition delete_e2ee_envelopes_before (threshold_id : string) (w : World) : World * Result Z :=
  let kept := filter (fun kv => str_leb threshold_id kv.1 = true) (w_queue w) in
  (set_queue w kept, Ok (Z.of_nat (size (w_queue w)) - Z.of_nat (size kept))).

Definition insert_e2ee_blob (blob : E2EEBlob) (w : World) : World * Result unit :=
  match w_blobs w !! bl_id blob with
  | Some _ => (w, Err ErrorType.InvalidOperation)
  | None => (set_blobs w (<[bl_id blob := blob]> (w_blobs w)), Ok tt)
  end.

Definition fetch_e2ee_blob (id : string) (w : World) : World * Result E2EEBlob :=
  (w, ok_or (w_blobs w !! id) ErrorType.NotFound).

Definition mark_e2ee_blob_fetched (id user_id device_id : string) (w : World) : World * Result E2EEBlob :=
  match w_blobs w !! id with
  | None => (w, Err ErrorType.NotFound)
  | Some blob =>
      match mark_fetched user_id device_id (bl_recipients blob) with
      | None => (w, Err ErrorType.NotFound)
      | Some recipients =>
          let blob := mkBlob (bl_id blob) (bl_uploader_user_id blob) (bl_uploader_device_id blob) (bl_size blob)
                        (bl_bucket_id blob) (bl_iv blob) (bl_key_id blob) recipients in
          (set_blobs w (<[id := blob]> (w_blobs w)), Ok blob)
      end
  end.

Definition delete_e2ee_blob (id : string) (w : World) : World * Result bool :=
  (set_blobs w (delete id (w_blobs w)), Ok (bool_decide (is_Some (w_blobs w !! id)))).

Definition fetch_expired_e2ee_blobs (threshold_id : string) (min_size : Z) (w : World)
    : World * Result (list E2EEBlob) :=
  (w, Ok (sort_by by_blob_id
            (List.filter (fun b => str_ltb (bl_id b) threshold_id && (min_size <? bl_size b))
               (hm_values (w_blobs w))))).

Definition fetch_e2ee_backup (user_id device_id : string) (w : World) : World * Result (option E2EEBackup) :=
  (w, Ok (w_backups w !! device_composite_id user_id device_id)).

Definition fetch_e2ee_backups (user_id : string) (w : World) : World * Result (list E2EEBackup) :=
  (w, Ok (sort_by by_backup_device
            (List.filter (fun b => str_eqb (bk_user_id b) user_id) (hm_values (w_backups w))))).

Definition upsert_e2ee_backup (backup : E2EEBackup) (w : World) : World * Result unit :=
  (set_backups w (<[bk_id backup := backup]> (w_backups w)), Ok tt).

Definition delete_e2ee_backup (user_id device_id : string) (w : World) : World * Result bool :=
  let id := device_composite_id user_id device_id in
  (set_backups w (delete id (w_backups w)), Ok (bool_decide (is_Some (w_backups w !! id)))).

Definition delete_all_e2ee_backups (user_id : string) (w : World) : World * Result Z :=
  let kept := retain (fun b => negb (str_eqb (bk_user_id b) user_id)) (w_backups w) in
  (set_backups w kept, Ok (Z.of_nat (size (w_backups w)) - Z.of_nat (size kept))).

(** models/mls/ops/reference.rs *)
Definition delete_mls_key_packages (user_id device_id : string) (w : World) : World * Result Z :=
  let kept := retain (fun p => negb (package_of user_id device_id p)) (w_packages w) in
  (set_packages w kept, Ok (Z.of_nat (size (w_packages w)) - Z.of_nat (size kept))).

(** ** The life of a device *)

Definition publish (event : EventV1.t) (topic : string) (w : World) : World * unit :=
  (set_published w (w_published w ++ [(topic, event)]), tt).

(** [private]: the topic of one user *)
Definition publish_private (event : EventV1.t) (id : string) : World -> World * unit := publish event (id +:+ "!").

Definition contains_user (user_id : string) (c : Channel.t) : bool :=
  match c with
  | Channel.Group _ _ recipients _ | Channel.DirectMessage _ recipients => existsb (str_eqb user_id) recipients
  | Channel.SavedMessages _ user => str_eqb user user_id
  | _ => false
  end.

Definition find_direct_messages (user_id : string) (w : World) : World * Result (list Channel.t) :=
  (w, Ok (List.filter (contains_user user_id) (hm_values (db_channels (w_db w))))).

Fixpoint publish_to (event : EventV1.t) (channels : list Channel.t) : prog World unit :=
  match channels with
  | [] => Ret tt
  | channel :: channels =>
      do! _ <- atom (publish event (Channel.id channel));
      publish_to event channels
  end.

Definition broadcast_device_change (user_id : string) (event : EventV1.t) : prog World unit :=
  do! _ <- atom (publish_private event user_id);
  do! channels <- atom (find_direct_messages user_id);
  match channels with Ok channels => publish_to event channels | Err _ => Ret tt end.

Definition revoke_device (user_id device_id : string) : Eff World bool :=
  let! existed := delete_e2ee_device user_id device_id in
  let! _ := atom (delete_mls_key_packages user_id device_id) in
  do! _ <- (if existed then broadcast_device_change user_id (EventV1.E2EEDeviceDelete user_id device_id) else Ret tt);
  ok existed.

Fixpoint revoke_bound (user_id session_id : string) (identities : list E2EEIdentity) : Eff World unit :=
  match identities with
  | [] => ok tt
  | identity :: identities =>
      if str_eqb (ie_last_session_id identity) session_id then
        let! _ := revoke_device user_id (ie_device_id identity) in
        revoke_bound user_id session_id identities
      else revoke_bound user_id session_id identities
  end.

Definition revoke_devices_for_session (user_id session_id : string) : Eff World unit :=
  let! identities := atom (fetch_e2ee_identities user_id) in
  revoke_bound user_id session_id identities.

Fixpoint revoke_predecessors (user_id session_id keep_device_id : string) (identities : list E2EEIdentity)
    : prog World unit :=
  match identities with
  | [] => Ret tt
  | identity :: identities =>
      if negb (str_eqb (ie_device_id identity) keep_device_id) && str_eqb (ie_last_session_id identity) session_id
      then
        do! _ <- revoke_device user_id (ie_device_id identity);
        revoke_predecessors user_id session_id keep_device_id identities
      else revoke_predecessors user_id session_id keep_device_id identities
  end.

Definition revoke_same_session_predecessors (user_id session_id keep_device_id : string) : prog World unit :=
  do! identities <- atom (fetch_e2ee_identities user_id);
  match identities with
  | Ok identities => revoke_predecessors user_id session_id keep_device_id identities
  | Err _ => Ret tt
  end.

Definition require_device_bound_session (user_id session_id : string) : Eff World unit :=
  let! identities := atom (fetch_e2ee_identities user_id) in
  if existsb (fun e => str_eqb (ie_last_session_id e) session_id) identities then ok tt
  else fail ErrorType.NotAuthenticated.

(** The devices of an account whose sessions are deleted, all but one
    (models/accounts/model.rs) *)
Fixpoint revoke_others (user_id : string) (exclude_session_id : option string) (identities : list E2EEIdentity)
    : Eff World unit :=
  match identities with
  | [] => ok tt
  | identity :: identities =>
      if is_some_str exclude_session_id (ie_last_session_id identity)
      then revoke_others user_id exclude_session_id identities
      else
        let! _ := revoke_device user_id (ie_device_id identity) in
        revoke_others user_id exclude_session_id identities
  end.

Definition delete_all_sessions (user_id : string) (exclude_session_id : option string) : Eff World unit :=
  let! identities := atom (fetch_e2ee_identities user_id) in
  revoke_others user_id exclude_session_id identities.

(** The devices of a deleted account (models/users/model.rs) *)
Fixpoint broadcast_deleted (user_id : string) (device_ids : list string) : prog World unit :=
  match device_ids with
  | [] => Ret tt
  | device_id :: device_ids =>
      do! _ <- broadcast_device_change user_id (EventV1.E2EEDeviceDelete user_id device_id);
      broadcast_deleted user_id device_ids
  end.

Definition account_cascade (user_id : string) : Eff World unit :=
  let! device_ids := delete_all_e2ee_devices user_id in
  do! _ <- broadcast_deleted user_id device_ids;
  let! _ := atom (delete_all_e2ee_backups user_id) in
  ok tt.
End Driver.
