(* ===== verification/E2eeRoutes.v ===== *)
(** * End-to-end encryption: the routes and the socket
      (routes/e2ee of crates/delta, the device claims of bonfire's
      websocket.rs, crond's prune_e2ee_envelopes.rs)

    The wire types of keys are the stored ones, to which the code converts
    them field by field.  Fresh ids and nonces are arguments.  A send of
    envelopes also records that its author was active, in the referral
    collection; nothing here reads that. *)

From stdpp Require Import base numbers list gmap strings pretty sorting.
From S2P Require Import Prelude Text Errors Program Permissions Store PermissionQueryDb StripeApi MlsModel E2eeModel E2ee.
Open Scope Z_scope.
Open Scope sloga_scope.

Definition MAX_BACKUP_HEADER_LENGTH : Z := 1024.
Definition MAX_BACKUP_GENERATION_JUMP : Z := 1000000.
Definition MAX_ONE_TIME_KEYS : Z := 100.
Definition MAX_KEY_ID_LENGTH : Z := 32.
Definition MAX_KEY_LENGTH : Z := 64.
Definition MAX_SIGNATURE_LENGTH : Z := 96.
Definition MAX_ENVELOPES_PER_REQUEST : Z := 128.
Definition MAX_CIPHERTEXT_LENGTH : Z := 65536.
Definition MAX_QUEUE_DEPTH : Z := 512.
Definition E2EE_DRAIN_LIMIT : Z := 1024.
Definition E2EE_MAX_ACK_BATCH : nat := 128.

(** ** Requests and answers *)

Record DataPublishE2EEKeys : Type := mkPublish {
  dp_device_id : string;
  dp_protocol_version : Z;
  dp_ed25519_key : string;
  dp_curve25519_key : string;
  dp_signature : string;
  dp_fallback_key : E2EESignedKey;
  dp_one_time_keys : list E2EESignedKey;
  dp_replace_one_time_keys : bool;
}.

Record E2EEDeviceKeys : Type := mkDeviceKeys {
  dk_device_id : string;
  dk_protocol_version : Z;
  dk_ed25519_key : string;
  dk_curve25519_key : string;
  dk_signature : string;
  dk_one_time_key : option E2EESignedKey;
  dk_fallback_key : E2EESignedKey;
  dk_one_time_keys_remaining : Z;
}.

Record E2EEKeyBundle : Type := mkBundle { kb_user_id : string; kb_devices : list E2EEDeviceKeys }.

Record E2EEDeviceInfo : Type := mkDeviceInfo {
  di_device_id : string;
  di_protocol_version : Z;
  di_ed25519_key : string;
  di_curve25519_key : string;
  di_signature : string;
  di_created_at : option Z;
  di_last_seen_at : option Z;
  di_one_time_key_count : option Z;
}.

Record DataE2EEEnvelope : Type := mkData {
  de_recipient_user_id : string;
  de_recipient_device_id : string;
  de_sequence : Z;
  de_ciphertext : string;
}.

Record DataSendE2EEMessages : Type := mkSend {
  ds_device_id : string;
  ds_protocol_version : Z;
  ds_envelopes : list DataE2EEEnvelope;
}.

Module E2EEDeliveryStatus.
Inductive t : Type := Queued (id : string) | UnknownDevice | QueueFull.
End E2EEDeliveryStatus.

Record E2EEDeliveryReceipt : Type := mkReceipt {
  rc_recipient_user_id : string;
  rc_recipient_device_id : string;
  rc_status : E2EEDeliveryStatus.t;
}.

Record DataPutE2EEBackup : Type := mkPutBackup {
  pb_device_id : string;
  pb_header : string;
  pb_ciphertext : string;
  pb_generation : Z;
}.

(** A backup as it is handed back: [v0::E2EEBackup] *)
Record E2EEBackupEntry : Type := mkBackupEntry {
  be_device_id : string;
  be_header : string;
  be_ciphertext : string;
  be_generation : Z;
  be_updated_at : Z;
}.

(** A backup without its contents *)
Record E2EEBackupStatus : Type := mkBackupStatus {
  bs_device_id : string;
  bs_generation : Z;
  bs_updated_at : Z;
  bs_size : Z;
}.

(** ** Checks *)

Definition len (s : string) : Z := Z.of_nat (String.length s).

Definition check_signed_key (key : E2EESignedKey) : Result unit :=
  if str_eqb (sk_key_id key) "" || (MAX_KEY_ID_LENGTH <? len (sk_key_id key)) || (MAX_KEY_LENGTH <? len (sk_key key))
     || (MAX_SIGNATURE_LENGTH <? len (sk_signature key))
  then Err (ErrorType.FailedValidation "invalid key encoding")
  else Ok tt.

Fixpoint check_one_time_keys (seen : gset string) (keys : list E2EESignedKey) : Result unit :=
  match keys with
  | [] => Ok tt
  | key :: keys =>
      let? _ := check_signed_key key in
      if bool_decide (sk_key_id key ∈ seen) then Err (ErrorType.FailedValidation "duplicate one-time key ids")
      else check_one_time_keys ({[sk_key_id key]} ∪ seen) keys
  end.

Definition check_bundle (data : DataPublishE2EEKeys) : Result unit :=
  if negb (is_valid_device_id (dp_device_id data))
  then Err (ErrorType.FailedValidation "device_id must be 128 bits of lowercase hex")
  else if negb (dp_protocol_version data =? E2EE_PROTOCOL_VERSION)
  then Err (ErrorType.FailedValidation ("unsupported protocol version (expected " +:+ pretty E2EE_PROTOCOL_VERSION +:+ ")"))
  else if (MAX_KEY_LENGTH <? len (dp_ed25519_key data)) || (MAX_KEY_LENGTH <? len (dp_curve25519_key data))
          || (MAX_SIGNATURE_LENGTH <? len (dp_signature data))
          || (MAX_ONE_TIME_KEYS <? Z.of_nat (length (dp_one_time_keys data)))
  then Err (ErrorType.FailedValidation "invalid bundle encoding")
  else
    let? _ := check_signed_key (dp_fallback_key data) in
    check_one_time_keys ∅ (dp_one_time_keys data).

Definition relationship_with (self : User) (user_b : string) : RelationshipStatus.t :=
  if str_eqb (user_id self) user_b then RelationshipStatus.User
  else
    match user_relations self with
    | Some relations => default RelationshipStatus.None (relation_with user_b relations)
    | None => RelationshipStatus.None
    end.

Definition is_blocked_pair (caller : User) (target : string) : bool :=
  match relationship_with caller target with
  | RelationshipStatus.Blocked | RelationshipStatus.BlockedOther => true
  | _ => false
  end.

Definition is_friend (caller : User) (target : string) : bool :=
  match relationship_with caller target with RelationshipStatus.Friend => true | _ => false end.

Definition is_bot (user : User) : bool := bool_decide (is_Some (user_bot_owner user)).

Definition share_group (caller target : string) (c : Channel.t) : bool :=
  match c with
  | Channel.Group _ _ recipients _ => existsb (str_eqb caller) recipients && existsb (str_eqb target) recipients
  | _ => false
  end.

Definition is_group_of (user_id : string) (c : Channel.t) : bool :=
  match c with Channel.Group _ _ recipients _ => existsb (str_eqb user_id) recipients | _ => false end.

Definition one_time_key (user_id device_id : string) (key : E2EESignedKey) : E2EEOneTimeKey :=
  mkOneTimeKey (key_composite_id user_id device_id (sk_key_id key)) user_id device_id (sk_key_id key) (sk_key key)
    (sk_signature key).

Definition published_identity (user_id session_id : string) (data : DataPublishE2EEKeys) (created_at last_seen_at : Z)
    : E2EEIdentity :=
  mkIdentity (device_composite_id user_id (dp_device_id data)) user_id (dp_device_id data) (dp_protocol_version data)
    (dp_ed25519_key data) (dp_curve25519_key data) (dp_signature data) (dp_fallback_key data) None created_at
    last_seen_at session_id.

(** Republishing keeps the age of the device and the fallback key before *)
Definition succeeding (existing identity : E2EEIdentity) : E2EEIdentity :=
  mkIdentity (ie_id identity) (ie_user_id identity) (ie_device_id identity) (ie_protocol_version identity)
    (ie_ed25519_key identity) (ie_curve25519_key identity) (ie_signature identity) (ie_fallback_key identity)
    (if str_eqb (sk_key_id (ie_fallback_key existing)) (sk_key_id (ie_fallback_key identity))
     then ie_previous_fallback_key existing else Some (ie_fallback_key existing))
    (ie_created_at existing) (ie_last_seen_at identity) (ie_last_session_id identity).

Definition to_hash_set (ids : list string) : gmap string unit := list_to_map ((fun id => (id, tt)) <$> ids).

(** A message with the nonce drawn if it asks for a challenge *)
Module ClientMessage.
Inductive t : Type :=
| E2EERequestChallenge (device_id nonce : string)
| E2EEProveDevice (device_id signature : string)
| E2EEAck (ids : list string).
End ClientMessage.

(** A step that only looks, and may panic *)
Definition consult {A} (f : World -> option A) : prog World A :=
  do! r <- atom (fun w => (w, f w));
  match r with Some a => Ret a | None => Panic end.

Definition now_utc : prog World Z := atom (fun w => (w, w_now w)).

Section Routes.
Context `{!Crypto}.
Context `{!HashIter string E2EEIdentity, !HashIter string E2EEOneTimeKey, !HashIter string E2EEEnvelope}.
Context `{!HashIter string E2EEBlob, !HashIter string E2EEBackup}.
Context `{!HashIter string Channel.t, !HashIter (string * string) Member, !HashIter string unit}.
(** [features.e2ee_enabled] and [features.antispam.dm_dupe_enabled] *)
Context (e2ee_enabled dm_dupe_enabled : bool).
Context (parse_json : string -> option Value.t).
(** Presence, as it is when it is asked *)
Context (is_online : World -> string -> bool).

Definition require_e2ee_enabled : Eff World unit :=
  if e2ee_enabled then ok tt else fail (ErrorType.FeatureDisabled "e2ee").

(** *** Who may reach whom *)

(** [find_group_message_channels], which the generator hands out in hundreds *)
Definition users_share_group (caller target : string) (w : World) : World * Result bool :=
  (w, Ok (existsb (share_group caller target)
            (List.filter (is_group_of caller) (hm_values (db_channels (w_db w)))))).

Definition friend_or_mutual_eligible (caller target : User) : prog World bool :=
  consult (fun w =>
    match calculate_user_permissions (set_user (new (w_db w) (w_now w) caller) target) with
    | Some (p, _) => Some (PV.has_user_permission p UP.SendMessage)
    | None => None
    end).

Definition require_e2ee_deliver_eligible (caller target : User) : Eff World unit :=
  if str_eqb (user_id caller) (user_id target) then ok tt
  else
    let! shared := atom (users_share_group (user_id caller) (user_id target)) in
    if shared then ok tt
    else
      do! eligible <- friend_or_mutual_eligible caller target;
      if eligible then ok tt else fail ErrorType.NotFound.

Definition require_e2ee_fetch_eligible (caller target : User) : Eff World unit :=
  if str_eqb (user_id caller) (user_id target) then ok tt
  else if is_blocked_pair caller (user_id target) then fail ErrorType.NotFound
  else
    let! shared := atom (users_share_group (user_id caller) (user_id target)) in
    if shared then ok tt
    else
      do! eligible <- friend_or_mutual_eligible caller target;
      if eligible then ok tt else fail ErrorType.NotFound.

Definition fetch_user_op (id : string) (w : World) : World * Result User := (w, fetch_user (w_db w) id).

(** *** Publishing keys *)

Fixpoint verify_one_time_keys (identity : E2EEIdentity) (keys : list E2EEOneTimeKey) : Result unit :=
  match keys with
  | [] => Ok tt
  | key :: keys => let? _ := verify_one_time_key key identity in verify_one_time_keys identity keys
  end.

Definition republish (session_id : string) (existing identity : E2EEIdentity) (keys : list E2EEOneTimeKey)
    (replace_one_time_keys : bool) : Eff World unit :=
  let! _ := Ret (assert_bound_session existing session_id) in
  if negb (str_eqb (ie_ed25519_key existing) (ie_ed25519_key identity))
     || negb (str_eqb (ie_curve25519_key existing) (ie_curve25519_key identity))
  then fail (ErrorType.FailedValidation "identity keys are immutable; revoke this device and enroll a new one")
  else
    let! _ := atom (replace_e2ee_identity (succeeding existing identity)) in
    match keys with
    | _ :: _ =>
        if replace_one_time_keys then
          let! _ := atom (delete_e2ee_one_time_keys (ie_user_id identity) (ie_device_id identity)) in ok tt
        else ok tt
    | [] => ok tt
    end.

Definition enroll (session_id : string) (ticket : bool) (identity : E2EEIdentity) : Eff World unit :=
  if negb ticket then fail ErrorType.InvalidToken
  else
    let! _ := atom (insert_e2ee_identity identity) in
    do! _ <- broadcast_device_change (ie_user_id identity)
               (EventV1.E2EEDeviceCreate (ie_user_id identity) (ie_device_id identity));
    do! _ <- revoke_same_session_predecessors (ie_user_id identity) session_id (ie_device_id identity);
    ok tt.

(** The ticket is there when multi-factor authentication was done. *)
Definition publish_keys (user : User) (session_id : string) (ticket : bool) (data : DataPublishE2EEKeys)
    : Eff World Z :=
  let! _ := require_e2ee_enabled in
  if is_bot user then fail ErrorType.IsBot
  else
    let! _ := Ret (check_bundle data) in
    do! existing <- atom (fetch_e2ee_identity (user_id user) (dp_device_id data));
    do! created_at <- now_utc;
    do! last_seen_at <- now_utc;
    let identity := published_identity (user_id user) session_id data created_at last_seen_at in
    let! _ := Ret (verify_identity identity) in
    let keys := one_time_key (user_id user) (dp_device_id data) <$> dp_one_time_keys data in
    let! _ := Ret (verify_one_time_keys identity keys) in
    let! _ := match existing with
              | Ok existing => republish session_id existing identity keys (dp_replace_one_time_keys data)
              | Err _ => enroll session_id ticket identity
              end in
    let! current := atom (count_e2ee_one_time_keys (user_id user) (dp_device_id data)) in
    let! already_stored := atom (count_e2ee_one_time_keys_among (user_id user) (dp_device_id data) (tk_key_id <$> keys)) in
    if MAX_ONE_TIME_KEYS <? current + Z.of_nat (length keys) - already_stored
    then fail (ErrorType.FailedValidation ("at most " +:+ pretty MAX_ONE_TIME_KEYS +:+ " one-time keys may be stored"))
    else
      let! _ := atom (insert_e2ee_one_time_keys keys) in
      atom (count_e2ee_one_time_keys (user_id user) (dp_device_id data)).

(** *** Fetching keys and devices *)

Definition signed_key_of (key : E2EEOneTimeKey) : E2EESignedKey :=
  mkSignedKey (tk_key_id key) (tk_key key) (tk_signature key).

Fixpoint device_bundles (target : string) (identities : list E2EEIdentity) (devices : list E2EEDeviceKeys)
    : Eff World (list E2EEDeviceKeys) :=
  match identities with
  | [] => ok devices
  | identity :: identities =>
      let! key := atom (consume_e2ee_one_time_key target (ie_device_id identity)) in
      let! remaining := atom (count_e2ee_one_time_keys target (ie_device_id identity)) in
      device_bundles target identities
        (devices ++ [mkDeviceKeys (ie_device_id identity) (ie_protocol_version identity) (ie_ed25519_key identity)
                       (ie_curve25519_key identity) (ie_signature identity) (signed_key_of <$> key)
                       (ie_fallback_key identity) remaining])
  end.

Definition fetch_keys (user : User) (session_id target : string) : Eff World E2EEKeyBundle :=
  let! _ := require_e2ee_enabled in
  if is_bot user then fail ErrorType.IsBot
  else
    let! _ := require_device_bound_session (user_id user) session_id in
    let! target := atom (fetch_user_op target) in
    let! _ := require_e2ee_fetch_eligible user target in
    let! identities := atom (fetch_e2ee_identities (user_id target)) in
    let! devices := device_bundles (user_id target) identities [] in
    ok (mkBundle (user_id target) devices).

Fixpoint device_infos (own : bool) (target : string) (identities : list E2EEIdentity) (devices : list E2EEDeviceInfo)
    : Eff World (list E2EEDeviceInfo) :=
  match identities with
  | [] => ok devices
  | identity :: identities =>
      let! count :=
        (if own then let! n := atom (count_e2ee_one_time_keys target (ie_device_id identity)) in ok (Some n)
         else ok None) in
      device_infos own target identities
        (devices ++ [mkDeviceInfo (ie_device_id identity) (ie_protocol_version identity) (ie_ed25519_key identity)
                       (ie_curve25519_key identity) (ie_signature identity)
                       (if own then Some (ie_created_at identity) else None)
                       (if own then Some (ie_last_seen_at identity) else None) count])
  end.

Definition fetch_devices (user : User) (session_id target : string) : Eff World (list E2EEDeviceInfo) :=
  let! _ := require_e2ee_enabled in
  if is_bot user then fail ErrorType.IsBot
  else
    let! target := atom (fetch_user_op target) in
    let own := str_eqb (user_id target) (user_id user) in
    let! _ :=
      (if own then ok tt
       else
         let! _ := require_device_bound_session (user_id user) session_id in
         require_e2ee_fetch_eligible user target) in
    let! identities := atom (fetch_e2ee_identities (user_id target)) in
    device_infos own (user_id target) identities [].

(** The route is reached with a validated ticket only. *)
Definition revoke_device_route (user : User) (device_id : string) : Eff World unit :=
  let! _ := require_e2ee_enabled in
  let! existed := revoke_device (user_id user) device_id in
  if existed then ok tt else fail ErrorType.NotFound.

(** *** Sending envelopes *)

Fixpoint check_recipients (user : User) (dm_pause_enforced : bool) (ids : list string) : Eff World unit :=
  match ids with
  | [] => ok tt
  | recipient_id :: ids =>
      let! recipient := atom (fetch_user_op recipient_id) in
      let! _ := require_e2ee_deliver_eligible user recipient in
      let! _ :=
        (if dm_pause_enforced && negb (is_friend user recipient_id) then
           let! shared := atom (users_share_group (user_id user) recipient_id) in
           if shared then ok tt else fail ErrorType.DirectMessagesPaused
         else ok tt) in
      check_recipients user dm_pause_enforced ids
  end.

Definition queued (sender : string) (data : DataSendE2EEMessages) (id : string) (issued_at : Z) (e : DataE2EEEnvelope)
    : E2EEEnvelope :=
  mkEnvelope id (de_recipient_user_id e) (de_recipient_device_id e) sender (ds_device_id data)
    (ds_protocol_version data) (de_sequence e) (de_ciphertext e) issued_at E2EEContentType.Olm None None None [] [] []
    [].

(** [fresh] makes the ids: the next one for each envelope taken. *)
Fixpoint sort_envelopes (sender : string) (data : DataSendE2EEMessages) (fresh : nat -> string) (issued_at : Z)
    (depths : gmap (string * string) Z) (receipts : list E2EEDeliveryReceipt) (accepted : list E2EEEnvelope)
    (envelopes : list DataE2EEEnvelope) : Eff World (list E2EEDeliveryReceipt * list E2EEEnvelope) :=
  match envelopes with
  | [] => ok (receipts, accepted)
  | e :: envelopes =>
      let user := de_recipient_user_id e in
      let device := de_recipient_device_id e in
      do! known <- atom (fetch_e2ee_identity user device);
      match known with
      | Err _ =>
          sort_envelopes sender data fresh issued_at depths
            (receipts ++ [mkReceipt user device E2EEDeliveryStatus.UnknownDevice]) accepted envelopes
      | Ok _ =>
          let! depth :=
            match depths !! (user, device) with
            | Some depth => ok depth
            | None => atom (count_e2ee_envelopes user device)
            end in
          if MAX_QUEUE_DEPTH <=? depth then
            sort_envelopes sender data fresh issued_at (<[(user, device) := depth]> depths)
              (receipts ++ [mkReceipt user device E2EEDeliveryStatus.QueueFull]) accepted envelopes
          else
            let id := fresh (length accepted) in
            sort_envelopes sender data fresh issued_at (<[(user, device) := depth + 1]> depths)
              (receipts ++ [mkReceipt user device (E2EEDeliveryStatus.Queued id)])
              (accepted ++ [queued sender data id issued_at e]) envelopes
      end
  end.

Definition push_notification (recipient : string) (w : World) : World * unit :=
  (set_pushed w (w_pushed w ++ [recipient]), tt).

Fixpoint notify_recipients (sender : string) (notified : gset string) (accepted : list E2EEEnvelope)
    : prog World unit :=
  match accepted with
  | [] => Ret tt
  | e :: accepted =>
      let recipient := en_recipient_user_id e in
      do! _ <- atom (publish_private (EventV1.E2EEMessage e) recipient);
      if negb (str_eqb recipient sender) && negb (bool_decide (recipient ∈ notified)) then
        do! online <- atom (fun w => (w, is_online w recipient));
        do! _ <- (if online then Ret tt else atom (push_notification recipient));
        notify_recipients sender ({[recipient]} ∪ notified) accepted
      else notify_recipients sender notified accepted
  end.

(** [dm_paused] is whether the user's direct messages are paused. *)
Definition send_messages (user : User) (dm_paused : bool) (session_id : string) (data : DataSendE2EEMessages)
    (fresh : nat -> string) : Eff World (list E2EEDeliveryReceipt) :=
  let! _ := require_e2ee_enabled in
  if is_bot user then fail ErrorType.IsBot
  else if negb (ds_protocol_version data =? E2EE_PROTOCOL_VERSION)
  then fail (ErrorType.FailedValidation ("unsupported protocol version (expected " +:+ pretty E2EE_PROTOCOL_VERSION +:+ ")"))
  else if match ds_envelopes data with [] => true | _ => false end
          || (MAX_ENVELOPES_PER_REQUEST <? Z.of_nat (length (ds_envelopes data)))
  then fail (ErrorType.FailedValidation ("between 1 and " +:+ pretty MAX_ENVELOPES_PER_REQUEST +:+ " envelopes per request"))
  else if existsb (fun e => str_eqb (de_ciphertext e) "" || (MAX_CIPHERTEXT_LENGTH <? len (de_ciphertext e)))
            (ds_envelopes data)
  then fail ErrorType.PayloadTooLarge
  else
    do! sending <- atom (fetch_e2ee_identity (user_id user) (ds_device_id data));
    match sending with
    | Err _ => fail (ErrorType.FailedValidation "sending device is not registered")
    | Ok sending_identity =>
        let! _ := Ret (assert_bound_session sending_identity session_id) in
        let recipients := to_hash_set (List.filter (fun id => negb (str_eqb id (user_id user)))
                                         (de_recipient_user_id <$> ds_envelopes data)) in
        let! _ := check_recipients user (dm_dupe_enabled && dm_paused) (hm_keys recipients) in
        do! issued_at <- now_utc;
        let! sorted := sort_envelopes (user_id user) data fresh issued_at ∅ [] [] (ds_envelopes data) in
        let! _ := atom (insert_e2ee_envelopes sorted.2) in
        do! _ <- notify_recipients (user_id user) ∅ sorted.2;
        ok sorted.1
    end.

(** *** Backups *)

Definition put_backup (user : User) (session_id : string) (data : DataPutE2EEBackup) : Eff World Z :=
  let! _ := require_e2ee_enabled in
  if is_bot user then fail ErrorType.IsBot
  else if negb (is_valid_device_id (pb_device_id data))
  then fail (ErrorType.FailedValidation "device_id must be 128 bits of lowercase hex")
  else
    let! identity := atom (fetch_e2ee_identity (user_id user) (pb_device_id data)) in
    let! _ := Ret (assert_bound_session identity session_id) in
    if E2EE_MAX_BACKUP_SIZE <? len (pb_ciphertext data) / 4 * 3
    then fail (ErrorType.FailedValidation "backup ciphertext exceeds the size cap")
    else if MAX_BACKUP_HEADER_LENGTH <? len (pb_header data)
    then fail (ErrorType.FailedValidation "backup header too large")
    else
      let! _ := Ret (validate_header parse_json (pb_header data) (user_id user) (pb_device_id data) (pb_generation data)) in
      let! existing := atom (fetch_e2ee_backup (user_id user) (pb_device_id data)) in
      if pb_generation data <? 1 then fail (ErrorType.FailedValidation "generation must be positive")
      else if saturating_add_i64 (default 0 (bk_generation <$> existing)) MAX_BACKUP_GENERATION_JUMP <? pb_generation data
      then fail (ErrorType.FailedValidation "generation increment too large")
      else
        let store :=
          do! now <- now_utc;
          let! _ := atom (upsert_e2ee_backup
                      (mkBackup (device_composite_id (user_id user) (pb_device_id data)) (user_id user)
                         (pb_device_id data) (pb_header data) (pb_ciphertext data) (pb_generation data)
                         (default now (bk_created_at <$> existing)) now)) in
          ok (pb_generation data) in
        match existing with
        | Some existing => if pb_generation data <=? bk_generation existing then ok (bk_generation existing) else store
        | None => store
        end.

(** [account_id] is the account the ticket was issued for. *)
Definition get_backup (user : User) (account_id : string) : Eff World (list E2EEBackupEntry) :=
  let! _ := require_e2ee_enabled in
  if is_bot user then fail ErrorType.IsBot
  else if negb (str_eqb account_id (user_id user)) then fail ErrorType.InvalidToken
  else
    let! backups := atom (fetch_e2ee_backups (user_id user)) in
    ok ((fun b => mkBackupEntry (bk_device_id b) (bk_header b) (bk_ciphertext b) (bk_generation b) (bk_updated_at b))
          <$> backups).

Definition get_backup_status (user : User) (session_id : string) : Eff World (list E2EEBackupStatus) :=
  let! _ := require_e2ee_enabled in
  if is_bot user then fail ErrorType.IsBot
  else
    let! _ := require_device_bound_session (user_id user) session_id in
    let! backups := atom (fetch_e2ee_backups (user_id user)) in
    ok ((fun b => mkBackupStatus (bk_device_id b) (bk_generation b) (bk_updated_at b) (len (bk_ciphertext b) / 4 * 3))
          <$> backups).

Definition delete_backup (user : User) (account_id device_id : string) : Eff World unit :=
  let! _ := require_e2ee_enabled in
  if negb (str_eqb account_id (user_id user)) then fail ErrorType.InvalidToken
  else let! _ := atom (delete_e2ee_backup (user_id user) device_id) in ok tt.

(** ** The socket

    A connection is a worker, which answers what the client sends, and a
    listener, which forwards what is published.  A frame that cannot be sent
    ends the connection, like a handler that is lost; a challenge that is not
    sent within the time does so too, one that fails at once is only not
    delivered. *)

Record Connection : Type := mkConnection {
  cn_pending_challenge : option (string * string);
  cn_proven_device : option string;
}.

Definition fresh_connection : Connection := mkConnection None None.

Definition send_frame (session_id : string) (event : EventV1.t) (w : World) : World * unit :=
  (set_frames w (w_frames w ++ [(session_id, event)]), tt).

Fixpoint send_envelopes (session_id : string) (envelopes : list E2EEEnvelope) : prog World unit :=
  match envelopes with
  | [] => Ret tt
  | e :: envelopes =>
      do! _ <- atom (send_frame session_id (EventV1.E2EEMessage e));
      send_envelopes session_id envelopes
  end.

Definition request_challenge (session_id : string) (c : Connection) (device_id nonce : string)
    : prog World Connection :=
  do! _ <- atom (send_frame session_id (EventV1.E2EEChallenge nonce));
  Ret (mkConnection (Some (device_id, nonce)) (cn_proven_device c)).

Definition accepts_claim (user_id session_id : string) (c : Connection) (device_id signature : string)
    : prog World bool :=
  match cn_pending_challenge c with
  | Some (challenged_device, nonce) =>
      if str_eqb challenged_device device_id then
        do! identity <- atom (fetch_e2ee_identity user_id device_id);
        Ret (match identity with Ok identity => verify_claim identity nonce session_id signature | Err _ => false end)
      else Ret false
  | None => Ret false
  end.

Definition prove_device (user_id session_id : string) (c : Connection) (device_id signature : string)
    : prog World Connection :=
  do! accepted <- accepts_claim user_id session_id c device_id signature;
  do! _ <-
    (if accepted then
       do! now <- now_utc;
       do! _ <- atom (update_e2ee_identity_session user_id device_id session_id now);
       revoke_same_session_predecessors user_id session_id device_id
     else Ret tt);
  do! _ <- atom (send_frame session_id (EventV1.E2EEClaimResult device_id accepted));
  do! _ <-
    (if accepted then
       do! envelopes <- atom (fetch_e2ee_envelopes user_id device_id E2EE_DRAIN_LIMIT);
       match envelopes with Ok envelopes => send_envelopes session_id envelopes | Err _ => Ret tt end
     else Ret tt);
  Ret (mkConnection None (if accepted then Some device_id else cn_proven_device c)).

Fixpoint delete_acknowledged (user_id device_id : string) (ids : list string) : prog World unit :=
  match ids with
  | [] => Ret tt
  | id :: ids =>
      do! _ <- atom (delete_e2ee_envelope id user_id device_id);
      delete_acknowledged user_id device_id ids
  end.

Definition acknowledge (user_id : string) (c : Connection) (ids : list string) : prog World Connection :=
  match cn_proven_device c with
  | None => Ret c
  | Some device_id =>
      do! _ <- delete_acknowledged user_id device_id (take E2EE_MAX_ACK_BATCH ids);
      Ret c
  end.

Definition handle_message (user_id session_id : string) (c : Connection) (m : ClientMessage.t)
    : prog World Connection :=
  if negb e2ee_enabled then Ret c
  else
    match m with
    | ClientMessage.E2EERequestChallenge device_id nonce => request_challenge session_id c device_id nonce
    | ClientMessage.E2EEProveDevice device_id signature => prove_device user_id session_id c device_id signature
    | ClientMessage.E2EEAck ids => acknowledge user_id c ids
    end.

(** The messages about devices, in turn *)
Fixpoint worker (user_id session_id : string) (c : Connection) (messages : list ClientMessage.t)
    : prog World unit :=
  match messages with
  | [] => Ret tt
  | m :: messages =>
      do! c <- handle_message user_id session_id c m;
      worker user_id session_id c messages
  end.

(** The messages that reach the listener, each a place in what was published,
    with the topics subscribed to by then.  [handle_incoming_event_v1] lets
    events about devices and envelopes pass. *)
Fixpoint listener (session_id : string) (arrivals : list (gset string * nat)) : prog World unit :=
  match arrivals with
  | [] => Ret tt
  | (subscribed, place) :: arrivals =>
      do! message <- atom (fun w => (w, w_published w !! place));
      do! _ <-
        match message with
        | Some (topic, event) =>
            if bool_decide (topic ∈ subscribed) then atom (send_frame session_id event) else Ret tt
        | None => Ret tt
        end;
      listener session_id arrivals
  end.

(** One turn of crond's sweep; the threshold is the id of the instant thirty
    days ago *)
Definition prune_envelopes (threshold : string) : Eff World Z := atom (delete_e2ee_envelopes_before threshold).
End Routes.
