(* ===== verification/E2eeSystem.v ===== *)
(** * End-to-end encryption under load

    Any number of requests, connections and jobs interleave and any of them
    may be lost half way.  Every handler is shown to keep the directory of
    devices signed and to make only changes of a described kind
    ([changes]); what the kinds rule out, no interleaving does. *)

From stdpp Require Import base numbers relations list gmap strings pretty sorting.
From S2P Require Import Prelude Text Errors Program Permissions Store PermissionQueryDb StripeApi MlsModel E2eeModel E2ee E2eeRoutes.
Open Scope Z_scope.
Open Scope sloga_scope.

(** ** The handlers *)

(** Which keys may be stored, which envelopes queued, whose envelopes may be
    removed, and which ids may be swept *)
Record Acts : Type := mkActs {
  a_key : E2EEOneTimeKey -> Prop;
  a_queue : E2EEEnvelope -> Prop;
  a_owner : string -> Prop;
  a_sweep : string -> Prop;
}.

Section Handlers.
Context `{!Crypto}.
Context `{!HashIter string E2EEIdentity, !HashIter string E2EEOneTimeKey, !HashIter string E2EEEnvelope}.
Context `{!HashIter string E2EEBlob, !HashIter string E2EEBackup}.
Context `{!HashIter string Channel.t, !HashIter (string * string) Member, !HashIter string unit}.
Context (e2ee_enabled dm_dupe_enabled : bool) (parse_json : string -> option Value.t).
Context (is_online : World -> string -> bool).

(** What the collections modelled here are not part of: the directory of
    users and channels, the clock, key packages and attachment blobs *)
Inductive elsewhere : World -> World -> Prop :=
| elsewhere_changes db now packages blobs w :
    elsewhere w (mkWorld db (w_identities w) (w_keys w) (w_queue w) blobs (w_backups w) packages now (w_published w)
                   (w_frames w) (w_pushed w)).

(** The handlers, limited in what they do: requests and connections of any
    user, what is done to a user's devices when sessions or the account go,
    the sweep, and the envelopes of MLS commits *)
Inductive handler (a : Acts) : prog World unit -> Prop :=
| h_publish user session ticket data :
    a_owner a (user_id user) ->
    (forall k, k ∈ dp_one_time_keys data -> a_key a (one_time_key (user_id user) (dp_device_id data) k)) ->
    handler a (spawn (publish_keys e2ee_enabled user session ticket data))
| h_fetch_keys user session target : handler a (spawn (fetch_keys e2ee_enabled user session target))
| h_fetch_devices user session target : handler a (spawn (fetch_devices e2ee_enabled user session target))
| h_revoke user device :
    a_owner a (user_id user) -> handler a (spawn (revoke_device_route e2ee_enabled user device))
| h_send user paused session data fresh :
    (forall n e, en_id e = fresh n -> en_sender_user_id e = user_id user -> a_queue a e) ->
    handler a (spawn (send_messages e2ee_enabled dm_dupe_enabled is_online user paused session data fresh))
| h_put user session data : handler a (spawn (put_backup e2ee_enabled parse_json user session data))
| h_get user account : handler a (spawn (get_backup e2ee_enabled user account))
| h_status user session : handler a (spawn (get_backup_status e2ee_enabled user session))
| h_delete user account device : handler a (spawn (delete_backup e2ee_enabled user account device))
| h_session user session : a_owner a user -> handler a (spawn (revoke_devices_for_session user session))
| h_sessions user exclude : a_owner a user -> handler a (spawn (delete_all_sessions user exclude))
| h_account user : a_owner a user -> handler a (spawn (account_cascade user))
| h_worker user session messages :
    a_owner a user -> handler a (worker e2ee_enabled user session fresh_connection messages)
| h_listener session arrivals : handler a (listener session arrivals)
| h_prune threshold :
    (forall id, str_ltb id threshold = true -> a_sweep a id) -> handler a (spawn (prune_envelopes threshold))
| h_mls envelopes :
    Forall (fun e => en_content_type e <> E2EEContentType.Olm /\ a_queue a e) envelopes ->
    handler a (spawn (atom (insert_e2ee_envelopes envelopes)))
| h_elsewhere (f : World -> World) : (forall w, elsewhere w (f w)) -> handler a (atom (fun w => (f w, tt))).

(** ** The invariant *)

Definition good_identity (e : E2EEIdentity) : Prop :=
  ie_id e = device_composite_id (ie_user_id e) (ie_device_id e) /\
  is_valid_device_id (ie_device_id e) = true /\
  ie_protocol_version e = E2EE_PROTOCOL_VERSION /\
  verify_identity e = Ok tt.

(** Signed by an identity of its device *)
Definition good_key (k : E2EEOneTimeKey) : Prop :=
  tk_id k = key_composite_id (tk_user_id k) (tk_device_id k) (tk_key_id k) /\
  exists e, good_identity e /\ ie_user_id e = tk_user_id k /\ ie_device_id e = tk_device_id k /\
    verify_one_time_key k e = Ok tt.

Definition good_envelope (e : E2EEEnvelope) : Prop :=
  en_content_type e = E2EEContentType.Olm ->
  en_protocol_version e = E2EE_PROTOCOL_VERSION /\ 0 < len (en_ciphertext e) <= MAX_CIPHERTEXT_LENGTH.

Definition good_backup (b : E2EEBackup) : Prop :=
  bk_id b = device_composite_id (bk_user_id b) (bk_device_id b) /\ 1 <= bk_generation b /\
  validate_header parse_json (bk_header b) (bk_user_id b) (bk_device_id b) (bk_generation b) = Ok tt.

Definition stored_under {V} (id : V -> string) (good : V -> Prop) (m : gmap string V) : Prop :=
  forall k v, m !! k = Some v -> id v = k /\ good v.

Definition directory_ok (w : World) : Prop :=
  stored_under ie_id good_identity (w_identities w) /\ stored_under tk_id good_key (w_keys w) /\
  stored_under en_id good_envelope (w_queue w) /\ stored_under bk_id good_backup (w_backups w).

(** ** The changes *)

Definition changes (a : Acts) (w w' : World) : Prop :=
  (forall id k, w_keys w' !! id = Some k -> w_keys w !! id = Some k \/ (id = tk_id k /\ a_key a k)) /\
  (forall id e, w_queue w !! id = Some e ->
     w_queue w' !! id = Some e \/ a_owner a (en_recipient_user_id e) \/ a_sweep a id \/
     exists e', a_queue a e' /\ en_id e' = id).

Lemma changes_refl a w : changes a w w.
Proof. split; eauto. Qed.

Lemma changes_same a w w' : w_keys w' = w_keys w -> w_queue w' = w_queue w -> changes a w w'.
Proof. intros Hk Hq. split; intros id x Hx; left; congruence. Qed.

Lemma stored_empty {V} (id : V -> string) good : stored_under id good (∅ : gmap string V).
Proof. intros k v Hv. by rewrite lookup_empty in Hv. Qed.

Lemma stored_insert {V} (id : V -> string) good (m : gmap string V) v :
  good v -> stored_under id good m -> stored_under id good (<[id v := v]> m).
Proof. intros Hv Hm k u. rewrite lookup_insert_Some. intros [[<- <-]|[_ Hu]]; [done | by apply Hm]. Qed.

Lemma stored_subset {V} (id : V -> string) good (m m' : gmap string V) :
  m' ⊆ m -> stored_under id good m -> stored_under id good m'.
Proof. intros Hs Hm k v Hv. apply Hm. by eapply lookup_weaken. Qed.

Lemma stored_inserts {V} (id : V -> string) good l : forall m : gmap string V,
  Forall good l -> stored_under id good m -> stored_under id good (foldl (fun m v => <[id v := v]> m) m l).
Proof.
  induction l as [|v l IH]; intros m Hl Hm; [done|]. apply Forall_cons in Hl as [Hv Hl].
  apply IH; [done|]. by apply stored_insert.
Qed.

(** What is there after many insertions, and what was there before *)
Lemma inserts_new {V} (id : V -> string) l : forall (m : gmap string V) k v,
  foldl (fun m v => <[id v := v]> m) m l !! k = Some v -> m !! k = Some v \/ (k = id v /\ v ∈ l).
Proof.
  induction l as [|u l IH]; intros m k v Hv; [by left|]. apply IH in Hv as [Hv|[-> Hin]].
  - rewrite lookup_insert_Some in Hv. destruct Hv as [[<- <-]|[_ Hv]]; [|by left]. right. split; [done | set_solver].
  - right. split; [done | set_solver].
Qed.

Lemma inserts_old {V} (id : V -> string) l : forall (m : gmap string V) k v,
  m !! k = Some v -> foldl (fun m v => <[id v := v]> m) m l !! k = Some v \/ exists u, u ∈ l /\ id u = k.
Proof.
  induction l as [|u l IH]; intros m k v Hv; [by left|]. cbn [foldl].
  destruct (decide (id u = k)) as [<-|Hne]; [right; exists u; split; [set_solver | done]|].
  destruct (IH (<[id u := u]> m) k v) as [?|(x & ? & ?)]; [by rewrite lookup_insert_ne | by left|].
  right. exists x. split; [set_solver | done].
Qed.

Lemma retain_subset {V} (p : V -> bool) (m : gmap string V) : retain p m ⊆ m.
Proof. apply map_filter_subseteq. Qed.

Lemma retained_or_dropped {V} (p : V -> bool) (m : gmap string V) k v :
  m !! k = Some v -> retain p m !! k = Some v \/ p v = false.
Proof.
  intros Hv. destruct (p v) eqn:E; [left | by right]. apply map_lookup_filter_Some. by split.
Qed.

(** *** Identities *)

Lemma same_suffix (a b a' b' : string) :
  String.length b = String.length b' -> a +:+ b = a' +:+ b' -> a = a' /\ b = b'.
Proof.
  revert a'. induction a as [|c a IH]; intros [|c' a'] Hl E.
  - done.
  - change ("" +:+ b) with b in E. subst b. rewrite str_app_length in Hl. cbn in Hl. lia.
  - change ("" +:+ b') with b' in E. subst b'. rewrite str_app_length in Hl. cbn in Hl. lia.
  - rewrite !str_cons_app in E. injection E as -> E. by destruct (IH a' Hl E) as [-> ->].
Qed.

Lemma device_length d : is_valid_device_id d = true -> String.length d = E2EE_DEVICE_ID_LENGTH.
Proof. intros [Hd _]%andb_true_iff. by apply Nat.eqb_eq. Qed.

(** Whatever a user id looks like, an id of fixed length is read off the end. *)
Lemma composite_inj u d u' d' :
  is_valid_device_id d = true -> is_valid_device_id d' = true ->
  device_composite_id u d = device_composite_id u' d' -> u = u' /\ d = d'.
Proof.
  intros Hd Hd' E. unfold device_composite_id in E. rewrite !str_app_assoc in E.
  apply same_suffix in E as [E ->]; [|by rewrite !device_length].
  by apply same_suffix in E as [-> _].
Qed.

Lemma verify_identity_ok e :
  verify_identity e = Ok tt <->
  exists key, verifying_key e = Some key /\ is_Some (decode_exact (ie_curve25519_key e) 32) /\
    verify_signature key (signed_payload (ie_protocol_version e) (ie_device_id e) (ie_ed25519_key e)
                            (ie_curve25519_key e)) (ie_signature e) = true /\
    forall k, k = ie_fallback_key e \/ Some k = ie_previous_fallback_key e ->
      verify_signed_key k key E2EE_SIGN_CONTEXT_FALLBACK (ie_protocol_version e) (ie_device_id e) = Ok tt.
Proof.
  unfold verify_identity. split.
  - destruct (verifying_key e) as [key|]; [|done]. destruct (decode_exact _ _) as [c|]; [|done].
    destruct (verify_signature _ _ _) eqn:Es; [|done]. intros Hv. exists key. split_and!; [done|done|done|].
    destruct (verify_signed_key (ie_fallback_key e) _ _ _ _) as [[]|] eqn:Ef; [|done].
    intros k [->|Ek]; [done|]. destruct (ie_previous_fallback_key e); by simplify_eq.
  - intros (key & -> & [c ->] & -> & Hk). rewrite Hk by by left.
    destruct (ie_previous_fallback_key e); [|done]. apply Hk. by right.
Qed.

Lemma succeeding_good existing identity :
  good_identity existing -> good_identity identity -> ie_id existing = ie_id identity ->
  ie_ed25519_key existing = ie_ed25519_key identity -> ie_previous_fallback_key identity = None ->
  good_identity (succeeding existing identity).
Proof.
  intros (Ei & Hd & Hv & Hs) (Ei' & Hd' & Hv' & Hs') E Ek Hp. split_and!; [done|done|done|].
  rewrite Ei, Ei' in E. apply composite_inj in E as [Eu Ed]; [|done|done].
  apply verify_identity_ok in Hs as (key & Hkey & _ & _ & Hf), Hs' as (key' & Hkey' & Hc & Hsig & Hf').
  assert (key' = key) as -> by (unfold verifying_key in *; rewrite Ek in Hkey; congruence).
  apply verify_identity_ok. exists key. split_and!; [done|done|done|]. cbn. rewrite <- Ed, Hv', <- Hv.
  intros k [->|Eprev]; [rewrite Hv, <- Hv', Ed; apply Hf'; by left|].
  apply Hf. case_match; [by right | left; by simplify_eq].
Qed.

Lemma verify_keys_ok identity keys k :
  verify_one_time_keys identity keys = Ok tt -> k ∈ keys -> verify_one_time_key k identity = Ok tt.
Proof.
  induction keys as [|x keys IH]; cbn; [by rewrite elem_of_nil|].
  destruct (verify_one_time_key x identity) as [[]|] eqn:E; [|done]. intros Hr [->|Hin]%elem_of_cons; [done | by apply IH].
Qed.

Lemma check_bundle_ok data :
  check_bundle data = Ok tt ->
  is_valid_device_id (dp_device_id data) = true /\ dp_protocol_version data = E2EE_PROTOCOL_VERSION.
Proof.
  unfold check_bundle. destruct (is_valid_device_id _); [|done]. cbn.
  destruct (dp_protocol_version data =? _) eqn:E; [|done]. by apply Z.eqb_eq in E.
Qed.

(** ** What each operation keeps *)

Section Safe.
Context (a : Acts).
Local Abbreviation safe p Q := (holds directory_ok (changes a) p Q).
Local Abbreviation whatever := (fun _ => True).

Lemma safe_atom {X} (op : World -> World * X) (Q : X -> Prop) :
  (forall w, directory_ok w -> directory_ok (op w).1 /\ changes a w (op w).1 /\ Q (op w).2) -> safe (atom op) Q.
Proof. intros Hop w Hw. by destruct (Hop w Hw) as (? & ? & ?). Qed.

(** Operations that leave the four collections alone *)
Definition untouched (w w' : World) : Prop :=
  w_identities w' = w_identities w /\ w_keys w' = w_keys w /\ w_queue w' = w_queue w /\ w_backups w' = w_backups w.

Lemma quiet_answers {X} (op : World -> World * X) (Q : X -> Prop) :
  (forall w, untouched w (op w).1) -> (forall w, directory_ok w -> Q (op w).2) -> safe (atom op) Q.
Proof.
  intros Hop HQ. apply safe_atom. intros w Hw. destruct (Hop w) as (Hi & Hk & Hq & Hb). split_and!.
  - unfold directory_ok. by rewrite Hi, Hk, Hq, Hb.
  - by apply changes_same.
  - by apply HQ.
Qed.

Lemma quiet_safe {X} (op : World -> World * X) : (forall w, untouched w (op w).1) -> safe (atom op) whatever.
Proof. intros Hop. by apply quiet_answers. Qed.

Lemma ret_safe {X} (x : X) : safe (Ret x) whatever.
Proof. done. Qed.

Lemma bind_safe {A B} (p : prog World A) (f : A -> prog World B) :
  safe p whatever -> (forall x, safe (f x) whatever) -> safe (bind p f) whatever.
Proof. intros Hp Hf. apply holds_bind. eapply holds_mono; [exact Hp|]. intros x _. apply Hf. Qed.

Lemma ebind_safe {A B} (c : Eff World A) (k : A -> Eff World B) :
  safe c whatever -> (forall x, safe (k x) whatever) -> safe (ebind c k) whatever.
Proof. intros Hc Hk. apply bind_safe; [done|]. by intros [x|e]; [apply Hk|]. Qed.

(** A check on values, and what follows when it passes *)
Lemma checked_safe {A B} (r : Result A) (k : A -> Eff World B) :
  (forall x, r = Ok x -> safe (k x) whatever) -> safe (let! x := Ret r in k x) whatever.
Proof. intros Hk. destruct r as [x|e]; [by apply Hk | done]. Qed.

Lemma fetch_identity_safe user device :
  safe (atom (fetch_e2ee_identity user device))
    (fun r => match r with
              | Ok e => good_identity e /\ device_composite_id user device = ie_id e
              | Err _ => True end).
Proof.
  apply quiet_answers; [by intros w|]. intros w (Hi & _). cbn. unfold ok_or.
  destruct (w_identities w !! _) as [e|] eqn:E; [|done]. destruct (Hi _ _ E) as [<- ?]. done.
Qed.

Lemma identities_op {X} (op : World -> World * X) :
  (forall w, directory_ok w -> stored_under ie_id good_identity (w_identities (op w).1) /\
     w_keys (op w).1 = w_keys w /\ w_queue (op w).1 = w_queue w /\ w_backups (op w).1 = w_backups w) ->
  safe (atom op) whatever.
Proof.
  intros Hop. apply safe_atom. intros w Hw. destruct (Hop w Hw) as (Hi & Hk & Hq & Hb).
  destruct Hw as (_ & Wk & Wq & Wb). unfold directory_ok. rewrite Hk, Hq, Hb. split_and!; try done. by apply changes_same.
Qed.

Lemma insert_identity_safe e : good_identity e -> safe (atom (insert_e2ee_identity e)) whatever.
Proof.
  intros He. apply identities_op. intros w (Hi & _). unfold insert_e2ee_identity.
  destruct (w_identities w !! ie_id e); cbn; split_and!; try done. by apply stored_insert.
Qed.

Lemma replace_identity_safe e : good_identity e -> safe (atom (replace_e2ee_identity e)) whatever.
Proof.
  intros He. apply identities_op. intros w (Hi & _). unfold replace_e2ee_identity.
  destruct (w_identities w !! ie_id e); cbn; split_and!; try done. by apply stored_insert.
Qed.

Lemma session_safe user device session at_ :
  safe (atom (update_e2ee_identity_session user device session at_)) whatever.
Proof.
  apply identities_op. intros w (Hi & _). unfold update_e2ee_identity_session.
  destruct (w_identities w !! _) as [e|] eqn:E; cbn; split_and!; try done.
  destruct (Hi _ _ E) as [<- He]. by apply (stored_insert ie_id good_identity _ (with_session e session at_)).
Qed.

Lemma remove_identity_safe user device : safe (atom (remove_identity user device)) whatever.
Proof.
  apply identities_op. intros w (Hi & _). cbn. split_and!; try done.
  eapply stored_subset; [|done]. apply delete_subseteq.
Qed.

(** Operations that remove keys only *)
Lemma fewer_keys {X} (op : World -> World * X) (Q : X -> Prop) :
  (forall w, directory_ok w -> Q (op w).2 /\ w_keys (op w).1 ⊆ w_keys w /\ w_identities (op w).1 = w_identities w /\
     w_queue (op w).1 = w_queue w /\ w_backups (op w).1 = w_backups w) ->
  safe (atom op) Q.
Proof.
  intros Hop. apply safe_atom. intros w Hw. destruct (Hop w Hw) as (HQ & Hk & Hi & Hq & Hb).
  destruct Hw as (Wi & Wk & Wq & Wb). split_and!; [|split|done].
  - unfold directory_ok. rewrite Hi, Hq, Hb. split_and!; try done. by eapply stored_subset.
  - intros id k Hid. left. by eapply lookup_weaken.
  - intros id e Hid. left. congruence.
Qed.

Lemma remove_keys_safe user device : safe (atom (remove_keys user device)) whatever.
Proof. apply fewer_keys. intros w _. cbn. split_and!; try done. apply retain_subset. Qed.

Lemma delete_keys_safe user device : safe (atom (delete_e2ee_one_time_keys user device)) whatever.
Proof. apply fewer_keys. intros w _. cbn. split_and!; try done. apply retain_subset. Qed.

Lemma consume_safe user device : safe (atom (consume_e2ee_one_time_key user device)) whatever.
Proof.
  apply fewer_keys. intros w _. unfold consume_e2ee_one_time_key.
  destruct (min_id _); cbn; split_and!; try done. apply delete_subseteq.
Qed.

Lemma insert_keys_safe keys :
  Forall (fun k => good_key k /\ a_key a k) keys -> safe (atom (insert_e2ee_one_time_keys keys)) whatever.
Proof.
  intros Hkeys. apply safe_atom. intros w (Wi & Wk & Wq & Wb). cbn. split_and!; [|split|done].
  - split_and!; try done. cbn. apply stored_inserts; [|done]. eapply Forall_impl; [exact Hkeys|]. by intros k [? _].
  - intros id k Hk. cbn in Hk. apply inserts_new in Hk as [?|[-> Hin]]; [by left|]. right.
    rewrite Forall_forall in Hkeys. split; [done|]. by apply Hkeys.
  - intros id e He. by left.
Qed.

(** Operations that change the queue only *)
Lemma queue_op {X} (op : World -> World * X) :
  (forall w, directory_ok w -> w_identities (op w).1 = w_identities w /\ w_keys (op w).1 = w_keys w /\
     w_backups (op w).1 = w_backups w /\ stored_under en_id good_envelope (w_queue (op w).1) /\
     forall id e, w_queue w !! id = Some e ->
       w_queue (op w).1 !! id = Some e \/ a_owner a (en_recipient_user_id e) \/ a_sweep a id \/
       exists e', a_queue a e' /\ en_id e' = id) ->
  safe (atom op) whatever.
Proof.
  intros Hop. apply safe_atom. intros w Hw. destruct (Hop w Hw) as (Hi & Hk & Hb & Hq & Hch).
  destruct Hw as (Wi & Wk & Wq & Wb). split_and!; [|split|done].
  - unfold directory_ok. by rewrite Hi, Hk, Hb.
  - intros id k Hid. left. congruence.
  - done.
Qed.

Lemma insert_envelopes_safe envelopes :
  Forall (fun e => good_envelope e /\ a_queue a e) envelopes -> safe (atom (insert_e2ee_envelopes envelopes)) whatever.
Proof.
  intros Hes. apply queue_op. intros w (_ & _ & Wq & _). cbn. split_and!; try done.
  - apply stored_inserts; [|done]. eapply Forall_impl; [exact Hes|]. by intros e [? _].
  - intros id e He. destruct (inserts_old en_id envelopes _ _ _ He) as [?|(u & Hu & Eu)]; [by left|].
    right; right; right. exists u. rewrite Forall_forall in Hes. split; [|done]. by apply Hes.
Qed.

Lemma remove_envelopes_safe user device : a_owner a user -> safe (atom (remove_envelopes user device)) whatever.
Proof.
  intros Ho. apply queue_op. intros w (_ & _ & Wq & _). cbn. split_and!; try done.
  - eapply stored_subset; [apply retain_subset | done].
  - intros id e He. eapply retained_or_dropped in He as [?|Hf]; [by left|]. right; left.
    apply negb_false_iff, andb_true_iff in Hf as [Hu%str_eqb_eq _]. by rewrite Hu.
Qed.

Lemma delete_envelope_safe id user device : a_owner a user -> safe (atom (delete_e2ee_envelope id user device)) whatever.
Proof.
  intros Ho. apply queue_op. intros w (_ & _ & Wq & _). unfold delete_e2ee_envelope.
  destruct (w_queue w !! id) as [x|] eqn:Ex; [destruct (envelope_for user device x) eqn:Ef|]; cbn; split_and!; eauto.
  - eapply stored_subset; [apply delete_subseteq | done].
  - intros id' e He. destruct (decide (id = id')) as [<-|Hne]; [|left; by rewrite lookup_delete_ne].
    right; left. simplify_eq. by apply andb_true_iff in Ef as [->%str_eqb_eq _].
Qed.

Lemma prune_safe threshold :
  (forall id, str_ltb id threshold = true -> a_sweep a id) -> safe (prune_envelopes threshold) whatever.
Proof.
  intros Hs. apply queue_op. intros w (_ & _ & Wq & _). cbn. split_and!; try done.
  - eapply stored_subset; [apply map_filter_subseteq | done].
  - intros id e He. destruct (str_ltb id threshold) eqn:E; [right; right; left; by apply Hs|]. left.
    apply map_lookup_filter_Some. split; [done|]. by apply str_ltb_ge.
Qed.

Lemma backups_op {X} (op : World -> World * X) :
  (forall w, directory_ok w -> w_identities (op w).1 = w_identities w /\ w_keys (op w).1 = w_keys w /\
     w_queue (op w).1 = w_queue w /\ stored_under bk_id good_backup (w_backups (op w).1)) ->
  safe (atom op) whatever.
Proof.
  intros Hop. apply safe_atom. intros w Hw. destruct (Hop w Hw) as (Hi & Hk & Hq & Hb).
  destruct Hw as (Wi & Wk & Wq & _). unfold directory_ok. rewrite Hi, Hk, Hq. split_and!; try done. by apply changes_same.
Qed.

Lemma upsert_backup_safe b : good_backup b -> safe (atom (upsert_e2ee_backup b)) whatever.
Proof.
  intros Hb. apply backups_op. intros w (_ & _ & _ & Wb). cbn. split_and!; try done. by apply stored_insert.
Qed.

Lemma delete_backup_safe user device : safe (atom (delete_e2ee_backup user device)) whatever.
Proof.
  apply backups_op. intros w (_ & _ & _ & Wb). cbn. split_and!; try done.
  eapply stored_subset; [apply delete_subseteq | done].
Qed.

Lemma delete_backups_safe user : safe (atom (delete_all_e2ee_backups user)) whatever.
Proof.
  apply backups_op. intros w (_ & _ & _ & Wb). cbn. split_and!; try done.
  eapply stored_subset; [apply retain_subset | done].
Qed.

(** *** Handlers *)

Lemma now_safe : safe now_utc whatever.
Proof. by apply quiet_safe. Qed.

Ltac safe_op :=
  first [ apply ret_safe | done
        | apply quiet_safe; by intros w
        | apply session_safe | apply remove_identity_safe | apply remove_keys_safe | apply delete_keys_safe
        | apply consume_safe | apply delete_backup_safe | apply delete_backups_safe
        | apply remove_envelopes_safe; done | apply delete_envelope_safe; done ].

Ltac safe_walk :=
  repeat lazymatch goal with
         | |- forall _, _ => intro
         | |- holds _ _ (ebind _ _) _ => apply ebind_safe
         | |- holds _ _ (bind _ _) _ => apply bind_safe
         | |- holds _ _ (match _ with _ => _ end) _ => case_match
         | |- holds _ _ (atom _) _ => safe_op
         | |- holds _ _ (Ret _) _ => apply ret_safe
         | |- holds _ _ Panic _ => done
         | |- holds _ _ now_utc _ => apply now_safe
         | |- holds _ _ (ok _) _ => apply ret_safe
         | |- holds _ _ (fail _) _ => apply ret_safe
         | |- holds _ _ _ _ => assumption
         end.

Lemma consult_safe {A} (f : World -> option A) : safe (consult f) whatever.
Proof. unfold consult. safe_walk. Qed.

Lemma enabled_safe : safe (require_e2ee_enabled e2ee_enabled) whatever.
Proof. unfold require_e2ee_enabled. safe_walk. Qed.

Lemma publish_to_safe event channels : safe (publish_to event channels) whatever.
Proof. induction channels; cbn [publish_to]; safe_walk. Qed.

Lemma broadcast_safe user event : safe (broadcast_device_change user event) whatever.
Proof. unfold broadcast_device_change. safe_walk. apply publish_to_safe. Qed.

Section Owner.
Context (user : string) (Howner : a_owner a user).

Lemma delete_device_safe device : safe (delete_e2ee_device user device) whatever.
Proof. unfold delete_e2ee_device. safe_walk. Qed.

Lemma revoke_device_safe device : safe (revoke_device user device) whatever.
Proof.
  unfold revoke_device. apply ebind_safe; [apply delete_device_safe|]. safe_walk. apply broadcast_safe.
Qed.

Lemma revoke_bound_safe session l : safe (revoke_bound user session l) whatever.
Proof. induction l; cbn [revoke_bound]; safe_walk; apply revoke_device_safe. Qed.

Lemma revoke_predecessors_safe session keep l : safe (revoke_predecessors user session keep l) whatever.
Proof. induction l; cbn [revoke_predecessors]; safe_walk; apply revoke_device_safe. Qed.

Lemma revoke_others_safe exclude l : safe (revoke_others user exclude l) whatever.
Proof. induction l; cbn [revoke_others]; safe_walk; apply revoke_device_safe. Qed.

Lemma predecessors_safe session keep : safe (revoke_same_session_predecessors user session keep) whatever.
Proof. unfold revoke_same_session_predecessors. safe_walk. apply revoke_predecessors_safe. Qed.

Lemma delete_devices_safe l : safe (delete_devices user l) whatever.
Proof. induction l; cbn [delete_devices]; [done|]. apply ebind_safe; [apply delete_device_safe | done]. Qed.

Lemma broadcast_deleted_safe l : safe (broadcast_deleted user l) whatever.
Proof. induction l; cbn [broadcast_deleted]; [done|]. apply bind_safe; [apply broadcast_safe | done]. Qed.

Lemma account_safe : safe (account_cascade user) whatever.
Proof.
  unfold account_cascade. apply ebind_safe.
  - unfold delete_all_e2ee_devices. apply bind_safe; [safe_op|]. intros l.
    apply ebind_safe; [apply delete_devices_safe | done].
  - intros l. apply bind_safe; [apply broadcast_deleted_safe|]. safe_walk.
Qed.

Lemma sessions_safe exclude : safe (delete_all_sessions user exclude) whatever.
Proof. unfold delete_all_sessions. apply ebind_safe; [safe_op|]. intros l. apply revoke_others_safe. Qed.

Lemma session_devices_safe session : safe (revoke_devices_for_session user session) whatever.
Proof. unfold revoke_devices_for_session. apply ebind_safe; [safe_op|]. intros l. apply revoke_bound_safe. Qed.
End Owner.

Lemma eligible_safe caller target : safe (friend_or_mutual_eligible caller target) whatever.
Proof. apply consult_safe. Qed.

Lemma deliver_eligible_safe caller target : safe (require_e2ee_deliver_eligible caller target) whatever.
Proof. unfold require_e2ee_deliver_eligible. safe_walk. apply eligible_safe. Qed.

Lemma fetch_eligible_safe caller target : safe (require_e2ee_fetch_eligible caller target) whatever.
Proof. unfold require_e2ee_fetch_eligible. safe_walk. apply eligible_safe. Qed.

Lemma bound_session_safe user session : safe (require_device_bound_session user session) whatever.
Proof. unfold require_device_bound_session. safe_walk. Qed.

Lemma republish_safe session existing identity keys replace :
  good_identity existing -> good_identity identity -> ie_id existing = ie_id identity ->
  ie_previous_fallback_key identity = None -> safe (republish session existing identity keys replace) whatever.
Proof.
  intros He Hi Eid Hp. unfold republish. apply checked_safe. intros _ _.
  destruct (str_eqb (ie_ed25519_key existing) _) eqn:Ek; [apply str_eqb_eq in Ek | safe_walk]. cbn [negb orb].
  case_match; [safe_walk|]. apply ebind_safe; [|safe_walk].
  apply replace_identity_safe. by apply succeeding_good.
Qed.

Lemma enroll_safe session ticket identity :
  a_owner a (ie_user_id identity) -> good_identity identity -> safe (enroll session ticket identity) whatever.
Proof.
  intros Ho Hi. unfold enroll. case_match; [safe_walk|]. apply ebind_safe; [by apply insert_identity_safe|].
  intros _. apply bind_safe; [apply broadcast_safe|]. intros _. apply bind_safe; [by apply predecessors_safe | done].
Qed.

Lemma publish_safe user session ticket data :
  a_owner a (user_id user) ->
  (forall k, k ∈ dp_one_time_keys data -> a_key a (one_time_key (user_id user) (dp_device_id data) k)) ->
  safe (publish_keys e2ee_enabled user session ticket data) whatever.
Proof.
  intros Ho Hkeys. unfold publish_keys. apply ebind_safe; [apply enabled_safe|]. intros _.
  case_match; [safe_walk|]. apply checked_safe. intros [] Hc. apply check_bundle_ok in Hc as [Hd Hv].
  apply holds_bind. eapply holds_mono; [apply fetch_identity_safe|]. intros existing Hex.
  apply bind_safe; [safe_walk|]. intros created. apply bind_safe; [safe_walk|]. intros seen.
  set (identity := published_identity (user_id user) session data created seen).
  apply checked_safe. intros [] Hverify. apply checked_safe. intros [] Hks.
  assert (good_identity identity) as Hgood by done.
  apply ebind_safe.
  { destruct existing as [e|]; [|by apply enroll_safe]. destruct Hex as [He Eid]. by apply republish_safe. }
  intros _. apply ebind_safe; [safe_walk|]. intros current. apply ebind_safe; [safe_walk|]. intros already.
  case_match; [safe_walk|]. apply ebind_safe; [|safe_walk]. apply insert_keys_safe, Forall_forall.
  intros k Hk. split.
  - pose proof (verify_keys_ok _ _ _ Hks Hk). apply list_elem_of_fmap in Hk as (x & -> & _).
    split; [done|]. by exists identity.
  - apply list_elem_of_fmap in Hk as (x & -> & Hx). by apply Hkeys.
Qed.

Lemma bundles_safe target l devices : safe (device_bundles target l devices) whatever.
Proof.
  revert devices. induction l as [|e l IH]; intros devices; cbn [device_bundles]; [done|].
  apply ebind_safe; [safe_walk|]. intros k. apply ebind_safe; [safe_walk|]. intros n. apply IH.
Qed.

Lemma infos_safe own target l devices : safe (device_infos own target l devices) whatever.
Proof.
  revert devices. induction l as [|e l IH]; intros devices; cbn [device_infos]; [done|].
  apply ebind_safe; [safe_walk|]. intros n. apply IH.
Qed.

Lemma fetch_keys_safe user session target : safe (fetch_keys e2ee_enabled user session target) whatever.
Proof.
  unfold fetch_keys. apply ebind_safe; [apply enabled_safe|]. intros _. case_match; [safe_walk|].
  apply ebind_safe; [apply bound_session_safe|]. intros _. apply ebind_safe; [safe_walk|]. intros x.
  apply ebind_safe; [apply fetch_eligible_safe|]. intros _. apply ebind_safe; [safe_walk|]. intros l.
  apply ebind_safe; [apply bundles_safe | safe_walk].
Qed.

Lemma fetch_devices_safe user session target : safe (fetch_devices e2ee_enabled user session target) whatever.
Proof.
  unfold fetch_devices. apply ebind_safe; [apply enabled_safe|]. intros _. case_match; [safe_walk|].
  apply ebind_safe; [safe_walk|]. intros x. apply ebind_safe.
  { case_match; [safe_walk|]. apply ebind_safe; [apply bound_session_safe|]. intros _. apply fetch_eligible_safe. }
  intros _. apply ebind_safe; [safe_walk|]. intros l. apply infos_safe.
Qed.

(** *** Sending *)

Lemma recipients_safe user paused ids : safe (check_recipients user paused ids) whatever.
Proof.
  induction ids as [|id ids IH]; cbn [check_recipients]; [done|]. apply ebind_safe; [safe_walk|]. intros x.
  apply ebind_safe; [apply deliver_eligible_safe|]. intros _. apply ebind_safe; [safe_walk | done].
Qed.

Lemma notify_safe sender accepted : forall notified, safe (notify_recipients is_online sender notified accepted) whatever.
Proof. induction accepted as [|e l IH]; intros notified; cbn [notify_recipients]; safe_walk; apply IH. Qed.

(** The envelopes taken are those of the request, with the sender filled in. *)
Lemma sort_safe sender data fresh issued_at (P : E2EEEnvelope -> Prop) envelopes : forall depths receipts accepted,
  (forall e n, e ∈ envelopes -> P (queued sender data (fresh n) issued_at e)) -> Forall P accepted ->
  safe (sort_envelopes sender data fresh issued_at depths receipts accepted envelopes)
    (fun r => match r with Ok r => Forall P r.2 | Err _ => True end).
Proof.
  induction envelopes as [|e l IH]; intros depths receipts accepted Hin Hacc; cbn [sort_envelopes]; [done|].
  assert (forall x n, x ∈ l -> P (queued sender data (fresh n) issued_at x)) as Hin'.
  { intros x n Hx. apply Hin. by right. }
  apply holds_bind. eapply holds_mono; [apply fetch_identity_safe|]. intros [known|] _; [|by apply IH].
  apply holds_ebind. eapply (holds_mono _ _ _ whatever); [safe_walk|]. intros [depth|] _; [|done].
  case_match; apply IH; try done. apply Forall_app. split; [done|]. constructor; [|done]. apply Hin. by left.
Qed.

Lemma send_safe user paused session data fresh :
  (forall n, forall e, en_id e = fresh n -> en_sender_user_id e = user_id user -> a_queue a e) ->
  safe (send_messages e2ee_enabled dm_dupe_enabled is_online user paused session data fresh) whatever.
Proof.
  intros Hq. unfold send_messages. apply ebind_safe; [apply enabled_safe|]. intros _.
  destruct (is_bot user); [safe_walk|]. destruct (ds_protocol_version data =? _) eqn:Ev; [|done].
  apply Z.eqb_eq in Ev. cbn [negb]. destruct (_ || _); [safe_walk|].
  destruct (existsb _ (ds_envelopes data)) eqn:Esize; [safe_walk|].
  apply bind_safe; [eapply holds_mono; [apply fetch_identity_safe | done]|]. intros [identity|]; [|safe_walk].
  apply checked_safe. intros [] _. apply ebind_safe; [apply recipients_safe|]. intros _.
  apply bind_safe; [safe_walk|]. intros issued_at. apply holds_ebind.
  eapply holds_mono; [apply (sort_safe _ _ _ _ (fun e => good_envelope e /\ a_queue a e)); [|by constructor]|].
  - intros e n He. split; [|by eapply Hq]. intros _. cbn. split; [done|].
    assert (existsb (fun e => str_eqb (de_ciphertext e) "" || (MAX_CIPHERTEXT_LENGTH <? len (de_ciphertext e)))
              (ds_envelopes data) <> true) as Hn by by rewrite Esize.
    rewrite existsb_exists in Hn. unfold len in *.
    destruct (str_eqb (de_ciphertext e) "") eqn:E0; [exfalso; apply Hn; exists e; rewrite E0; by rewrite <- list_elem_of_In|].
    destruct (MAX_CIPHERTEXT_LENGTH <? Z.of_nat (String.length (de_ciphertext e))) eqn:E1;
      [exfalso; apply Hn; exists e; rewrite E0, E1; by rewrite <- list_elem_of_In|].
    apply Z.ltb_ge in E1. destruct (de_ciphertext e); [done|]. cbn [String.length] in *. lia.
  - intros [[receipts accepted]|] Hacc; [|done]. apply ebind_safe; [by apply insert_envelopes_safe|]. intros _.
    apply bind_safe; [apply notify_safe | safe_walk].
Qed.

(** *** Backups *)

Lemma put_backup_safe user session data : safe (put_backup e2ee_enabled parse_json user session data) whatever.
Proof.
  unfold put_backup. apply ebind_safe; [apply enabled_safe|]. intros _. case_match; [safe_walk|].
  case_match; [safe_walk|]. apply ebind_safe; [eapply holds_mono; [apply fetch_identity_safe | done]|].
  intros identity. apply checked_safe. intros [] _. case_match; [safe_walk|]. case_match; [safe_walk|].
  apply checked_safe. intros [] Hheader. apply ebind_safe; [safe_walk|]. intros existing.
  destruct (pb_generation data <? 1) eqn:Eg; [safe_walk|]. apply Z.ltb_ge in Eg. case_match; [safe_walk|].
  cbv zeta. match goal with |- holds _ _ (match _ with Some _ => if _ then _ else ?store | None => _ end) _ =>
    assert (safe store whatever) end.
  { apply bind_safe; [safe_walk|]. intros now. apply ebind_safe; [|safe_walk]. by apply upsert_backup_safe. }
  repeat case_match; first [assumption | safe_walk].
Qed.

Lemma get_backup_safe user account : safe (get_backup e2ee_enabled user account) whatever.
Proof. unfold get_backup. apply ebind_safe; [apply enabled_safe|]. safe_walk. Qed.

Lemma status_safe user session : safe (get_backup_status e2ee_enabled user session) whatever.
Proof.
  unfold get_backup_status. apply ebind_safe; [apply enabled_safe|]. intros _. case_match; [safe_walk|].
  apply ebind_safe; [apply bound_session_safe | safe_walk].
Qed.

Lemma delete_route_safe user account device : safe (delete_backup e2ee_enabled user account device) whatever.
Proof. unfold delete_backup. apply ebind_safe; [apply enabled_safe|]. safe_walk. Qed.

Lemma revoke_route_safe user device :
  a_owner a (user_id user) -> safe (revoke_device_route e2ee_enabled user device) whatever.
Proof.
  intros Ho. unfold revoke_device_route. apply ebind_safe; [apply enabled_safe|]. intros _.
  apply ebind_safe; [by apply revoke_device_safe | safe_walk].
Qed.

(** *** Connections *)

Section Socket.
Context (user session : string) (Howner : a_owner a user).

Lemma frames_safe l : safe (send_envelopes session l) whatever.
Proof. induction l; cbn [send_envelopes]; safe_walk. Qed.

Lemma prove_safe c device signature : safe (prove_device user session c device signature) whatever.
Proof.
  unfold prove_device. apply bind_safe.
  { unfold accepts_claim. safe_walk. }
  intros accepted. apply bind_safe.
  { case_match; [|done]. apply bind_safe; [safe_walk|]. intros now. apply bind_safe; [safe_walk|]. intros _.
    by apply predecessors_safe. }
  intros _. apply bind_safe; [safe_walk|]. intros _. apply bind_safe; [|done].
  safe_walk. apply frames_safe.
Qed.

Lemma acks_safe device ids : safe (delete_acknowledged user device ids) whatever.
Proof. induction ids; cbn [delete_acknowledged]; safe_walk. Qed.

Lemma worker_safe messages : forall c, safe (worker e2ee_enabled user session c messages) whatever.
Proof.
  induction messages as [|m l IH]; intros c; cbn [worker]; [done|]. apply bind_safe; [|intros c'; apply IH].
  unfold handle_message. case_match; [done|]. destruct m.
  - unfold request_challenge. safe_walk.
  - apply prove_safe.
  - unfold acknowledge. case_match; [|done]. apply bind_safe; [apply acks_safe | done].
Qed.

Lemma listener_safe arrivals : safe (listener session arrivals) whatever.
Proof. induction arrivals as [|[subscribed place] l IH]; cbn [listener]; safe_walk. Qed.
End Socket.

Lemma e2ee_handler_safe p : handler a p -> safe p whatever.
Proof.
  destruct 1 as [| | | | | | | | | | | | | | |envelopes Hes|f Hf]; 
    try lazymatch goal with |- holds _ _ (spawn _) _ => apply (holds_spawn _ _ _ whatever) end.
  - by apply publish_safe.
  - apply fetch_keys_safe.
  - apply fetch_devices_safe.
  - by apply revoke_route_safe.
  - by apply send_safe.
  - apply put_backup_safe.
  - apply get_backup_safe.
  - apply status_safe.
  - apply delete_route_safe.
  - by apply session_devices_safe.
  - by apply sessions_safe.
  - by apply account_safe.
  - by apply worker_safe.
  - apply listener_safe.
  - by apply prune_safe.
  - apply insert_envelopes_safe. eapply Forall_impl; [exact Hes|]. intros e [He ?]. split; [|done]. by intros ?.
  - apply quiet_safe. intros w. cbn. by destruct (Hf w).
Qed.

Lemma system_safe w s :
  directory_ok w -> rtc (sys_step (handler a)) (mkSys w []) s ->
  guarded directory_ok (changes a) s.
Proof.
  intros Hw Hs. eapply (guarded_steps _ _ _ (mkSys w []) s); [apply e2ee_handler_safe | split; [exact Hw | constructor] | exact Hs].
Qed.

(** What holds of every change holds of the whole way. *)
Lemma system_changes w s s' :
  directory_ok w -> rtc (sys_step (handler a)) (mkSys w []) s -> rtc (sys_step (handler a)) s s' ->
  rtc (changes a) (sys_world s) (sys_world s').
Proof.
  intros Hw Hs Hs'. destruct (guarded_steps (handler a) directory_ok (changes a) s s') as [_ Hr].
  - apply e2ee_handler_safe.
  - by eapply system_safe.
  - done.
  - eapply rtc_subrel; [|exact Hr]. by intros x y (_ & _ & ?).
Qed.
End Safe.

(** *** Handing out a key *)

Lemma consume_spec user device w w' k :
  stored_under tk_id good_key (w_keys w) ->
  consume_e2ee_one_time_key user device w = (w', Ok (Some k)) ->
  w_keys w !! tk_id k = Some k /\ key_of user device k = true /\ w' = set_keys w (delete (tk_id k) (w_keys w)) /\
  forall id k', w_keys w !! id = Some k' -> key_of user device k' = true -> str_leb (tk_id k) id = true.
Proof.
  intros Hk. unfold consume_e2ee_one_time_key, min_id.
  set (ids := tk_id <$> _). destruct (head (sort_by str_leb ids)) as [id|] eqn:Eh; [|done].
  intros E. injection E as <- Ek. destruct (Hk _ _ Ek) as [<- _].
  assert (tk_id k ∈ ids /\ forall x, x ∈ ids -> str_leb (tk_id k) x = true) as [Hin Hmin].
  { destruct (sort_by str_leb ids) as [|y l] eqn:Es; [done|]. injection Eh as ->. split.
    - rewrite <- (elem_of_sort_by str_leb). rewrite Es. by left.
    - intros x Hx. rewrite <- (elem_of_sort_by str_leb), Es in Hx.
      apply elem_of_cons in Hx as [->|Hx]; [by destruct (str_leb_total (tk_id k) (tk_id k))|].
      pose proof (sort_by_sorted str_leb str_leb_total str_leb_trans ids) as Hs. rewrite Es in Hs.
      apply StronglySorted_inv in Hs as [_ Hs]. rewrite Forall_forall in Hs. by apply Hs. }
  split_and!; [done| |done|].
  - apply list_elem_of_fmap in Hin as (k' & Eid & Hk'). apply elem_of_filter_bool in Hk' as [Hof Hv].
    apply elem_of_hm_values in Hv as [j Hj]. destruct (Hk _ _ Hj) as [Ej _]. rewrite Eid, Ej in Ek. congruence.
  - intros id k' Hid Hof. destruct (Hk _ _ Hid) as [<- _]. apply Hmin, list_elem_of_fmap. exists k'. split; [done|].
    apply elem_of_filter_bool. split; [done|]. apply elem_of_hm_values. by exists (tk_id k').
Qed.
End Handlers.

(** ** Theorems *)

Definition anything : Acts := mkActs (fun _ => True) (fun _ => True) (fun _ => True) (fun _ => True).

(** Handlers that do not store a one-time key under this id again *)
Definition not_storing (id : string) : Acts :=
  mkActs (fun k => tk_id k <> id) (fun _ => True) (fun _ => True) (fun _ => True).

(** Handlers that do not act on this user's devices, sweep or reuse this id *)
Definition leaving (id user : string) : Acts :=
  mkActs (fun _ => True) (fun e => en_id e <> id) (fun u => u <> user) (fun i => i <> id).

(** C15. However requests, connections and jobs interleave and wherever they are
    lost, every stored identity is under its own id and its signatures
    verify, the fallback keys included; every one-time key is signed by an
    identity of its device; an envelope that a client sent is within the size
    limit; and a backup's header passes the checks and agrees with its row. *)
Theorem directory_stays_signed `{!Crypto}
    `{!HashIter string E2EEIdentity, !HashIter string E2EEOneTimeKey, !HashIter string E2EEEnvelope}
    `{!HashIter string E2EEBackup, !HashIter string Channel.t, !HashIter (string * string) Member}
    `{!HashIter string unit}
    (e2ee_enabled dm_dupe_enabled : bool) (parse_json : string -> option Value.t) (is_online : World -> string -> bool)
    (w : World) (s : Sys World) :
  directory_ok parse_json w ->
  rtc (sys_step (handler e2ee_enabled dm_dupe_enabled parse_json is_online anything)) (mkSys w []) s ->
  directory_ok parse_json (sys_world s).
Proof. intros Hw Hs. by destruct (system_safe _ _ _ _ _ _ _ Hw Hs). Qed.

(** C16. A fetch that is given a one-time key is given the first one of the device,
    and takes it out of the directory in the same operation; from then on, in
    every interleaving of handlers that do not store a key under that id
    again, it never comes back, so nobody else is given it. *)
Theorem one_time_key_given_once `{!Crypto}
    `{!HashIter string E2EEIdentity, !HashIter string E2EEOneTimeKey, !HashIter string E2EEEnvelope}
    `{!HashIter string E2EEBackup, !HashIter string Channel.t, !HashIter (string * string) Member}
    `{!HashIter string unit}
    (e2ee_enabled dm_dupe_enabled : bool) (parse_json : string -> option Value.t) (is_online : World -> string -> bool)
    (w : World) (s s' : Sys World) (user device : string) (k : E2EEOneTimeKey) :
  let steps := rtc (sys_step (handler e2ee_enabled dm_dupe_enabled parse_json is_online (not_storing (tk_id k)))) in
  directory_ok parse_json w -> steps (mkSys w []) s ->
  (forall w', consume_e2ee_one_time_key user device (sys_world s) = (w', Ok (Some k)) ->
     w_keys (sys_world s) !! tk_id k = Some k /\ key_of user device k = true /\ w_keys w' !! tk_id k = None /\
     forall id k', w_keys (sys_world s) !! id = Some k' -> key_of user device k' = true -> str_leb (tk_id k) id = true) /\
  (w_keys (sys_world s) !! tk_id k = None -> steps s s' -> w_keys (sys_world s') !! tk_id k = None).
Proof.
  intros steps Hw Hs. split.
  - intros w' Hc. destruct (system_safe _ _ _ _ _ _ _ Hw Hs) as [(_ & Hk & _) _].
    destruct (consume_spec _ _ _ _ _ Hk Hc) as (? & ? & -> & ?). split_and!; try done. apply lookup_delete_eq.
  - intros Hn Hs'. pose proof (system_changes _ _ _ _ _ _ _ _ Hw Hs Hs') as Hr.
    eapply (rtc_invariant _ (fun w => w_keys w !! tk_id k = None)); [|exact Hn | exact Hr].
    intros x y [Hk _] Hx. destruct (w_keys y !! tk_id k) as [k'|] eqn:E; [|done].
    destruct (Hk _ _ E) as [?|[Eid Hne]]; [congruence | by rewrite Eid in Hne].
Qed.

(** A queued envelope waits for its recipient: in every interleaving of
    handlers that do not act on the recipient's devices, do not sweep its id
    and do not use its id again, it stays queued as it is. *)
Theorem envelope_waits_for_its_recipient `{!Crypto}
    `{!HashIter string E2EEIdentity, !HashIter string E2EEOneTimeKey, !HashIter string E2EEEnvelope}
    `{!HashIter string E2EEBackup, !HashIter string Channel.t, !HashIter (string * string) Member}
    `{!HashIter string unit}
    (e2ee_enabled dm_dupe_enabled : bool) (parse_json : string -> option Value.t) (is_online : World -> string -> bool)
    (w : World) (s : Sys World) (id : string) (e : E2EEEnvelope) :
  directory_ok parse_json w -> w_queue w !! id = Some e ->
  rtc (sys_step (handler e2ee_enabled dm_dupe_enabled parse_json is_online (leaving id (en_recipient_user_id e))))
    (mkSys w []) s ->
  w_queue (sys_world s) !! id = Some e.
Proof.
  intros Hw He Hs. pose proof (system_changes _ _ _ _ _ _ _ _ Hw (rtc_refl _ _) Hs) as Hr.
  eapply (rtc_invariant _ (fun w => w_queue w !! id = Some e)); [|exact He | exact Hr].
  intros x y [_ Hq] Hx. destruct (Hq _ _ Hx) as [?|[Ho|[Hn|(e' & Hn & Eid)]]]; [done|..]; exfalso.
  - by apply Ho.
  - by apply Hn.
  - by apply Hn.
Qed.

(** *** One device *)

Module Sample.
Definition alice : User := mkUser "alice" false None None.
Definition device : string := "0123456789abcdef0123456789abcdef".
Definition ed25519 : string := SampleCrypto.pad 32 "alice".

Definition signed_key (context key_id : string) : E2EESignedKey :=
  let key := SampleCrypto.pad 32 key_id in
  mkSignedKey key_id key (SampleCrypto.sign ed25519 (signed_key_payload context 1 device key_id key)).

Definition bundle : DataPublishE2EEKeys :=
  let curve := SampleCrypto.pad 32 "curve" in
  mkPublish device 1 ed25519 curve (SampleCrypto.sign ed25519 (signed_payload 1 device ed25519 curve))
    (signed_key E2EE_SIGN_CONTEXT_FALLBACK "f1")
    [signed_key E2EE_SIGN_CONTEXT_ONE_TIME "k2"; signed_key E2EE_SIGN_CONTEXT_ONE_TIME "k1"] false.

Definition empty_world : World :=
  mkWorld (mkDb {["alice" := alice]} ∅ ∅ ∅) ∅ ∅ ∅ ∅ ∅ ∅ 0 [] [] [].

Definition no_json (s : string) : option Value.t := None.
Definition offline (w : World) (user : string) : bool := false.
#[local] Existing Instance SampleCrypto.crypto.

Definition enrolled : World :=
  match run (publish_keys true alice "session" true bundle) empty_world with Some (_, w) => w | None => empty_world end.

Definition first_key : E2EEOneTimeKey := one_time_key "alice" device (signed_key E2EE_SIGN_CONTEXT_ONE_TIME "k1").

Definition fetched : World :=
  match run (fetch_keys true alice "session" "alice") enrolled with Some (_, w) => w | None => enrolled end.

Definition invitation : E2EEEnvelope :=
  mkEnvelope "m1" "alice" device "bob" "b" 1 1 "welcome" 0 E2EEContentType.MlsWelcome None None None [] [] [] [].
End Sample.

Local Abbreviation sample_steps a :=
  (rtc (sys_step (@handler SampleCrypto.crypto _ _ _ _ _ _ _ true false Sample.no_json Sample.offline a))).

Lemma empty_directory_ok : @directory_ok SampleCrypto.crypto Sample.no_json Sample.empty_world.
Proof. split_and!; apply stored_empty. Qed.

Lemma enrolling a :
  a_owner a "alice" -> (forall k, a_key a k) ->
  sample_steps a (mkSys Sample.empty_world []) (mkSys Sample.enrolled [Ret tt]).
Proof.
  intros Ho Hk. eapply rtc_l.
  - apply sys_start. apply (h_publish _ _ _ _ a Sample.alice "session" true Sample.bundle); [exact Ho | intros k _; apply Hk].
  - unfold Sample.enrolled.
    assert (is_Some (run (@publish_keys SampleCrypto.crypto _ _ _ true Sample.alice "session" true Sample.bundle)
                       Sample.empty_world)) as [[r w] E] by (vm_compute; by eexists).
    rewrite E. eapply sys_run. exact E.
Qed.

Lemma enrolled_ok : @directory_ok SampleCrypto.crypto Sample.no_json Sample.enrolled.
Proof.
  destruct (system_safe (H := SampleCrypto.crypto) true false Sample.no_json Sample.offline anything _ _ empty_directory_ok (enrolling anything I (fun _ => I))).
  done.
Qed.

Lemma directory_stays_signed_witness :
  exists s e, sample_steps anything (mkSys Sample.empty_world []) s /\
    w_identities (sys_world s) !! device_composite_id "alice" Sample.device = Some e /\
    @verify_identity SampleCrypto.crypto e = Ok tt.
Proof.
  pose proof (enrolling anything I (fun _ => I)) as Hs.
  destruct (@directory_stays_signed SampleCrypto.crypto _ _ _ _ _ _ _ true false Sample.no_json Sample.offline _ _
              empty_directory_ok Hs) as (Hi & _).
  assert (is_Some (w_identities Sample.enrolled !! device_composite_id "alice" Sample.device)) as [e He]
    by (vm_compute; by eexists).
  exists (mkSys Sample.enrolled [Ret tt]), e. split_and!; [exact Hs | exact He|].
  by destruct (Hi _ _ He) as (_ & _ & _ & _ & ?).
Defined.

(** Alice's keys are fetched twice: the first fetch takes the first key. *)
Lemma one_time_key_given_once_witness :
  let k := Sample.first_key in
  let fetch w := run (fetch_keys true Sample.alice "session" "alice") w in
  exists s s', sample_steps (not_storing (tk_id k)) (mkSys Sample.enrolled []) s /\ sample_steps (not_storing (tk_id k)) s s' /\
    (exists w', consume_e2ee_one_time_key "alice" Sample.device Sample.enrolled = (w', Ok (Some k)) /\
       w_keys w' !! tk_id k = None) /\
    w_keys (sys_world s') !! tk_id k = None.
Proof.
  intros k fetch.
  assert (w_keys Sample.fetched !! tk_id k = None) as Hn by (vm_compute; reflexivity).
  assert (is_Some (fetch Sample.enrolled)) as [[r1 w1] E1] by (vm_compute; by eexists).
  assert (Sample.fetched = w1) as Ew by (unfold Sample.fetched; unfold fetch in E1; by rewrite E1).
  assert (sample_steps (not_storing (tk_id k)) (mkSys Sample.enrolled []) (mkSys w1 [Ret tt])) as Hs.
  { eapply rtc_l; [apply sys_start, (h_fetch_keys _ _ _ _ _ Sample.alice "session" "alice")|]. eapply sys_run. exact E1. }
  rewrite <- Ew in Hs, E1.
  assert (is_Some (fetch Sample.fetched)) as [[r2 w2] E2] by (vm_compute; by eexists).
  assert (sample_steps (not_storing (tk_id k)) (mkSys Sample.fetched [Ret tt]) (mkSys w2 [Ret tt; Ret tt])) as Hs'.
  { eapply rtc_l; [apply sys_start, (h_fetch_keys _ _ _ _ _ Sample.alice "session" "alice")|]. eapply sys_run. exact E2. }
  destruct (consume_e2ee_one_time_key "alice" Sample.device Sample.enrolled) as [w' r] eqn:Ec.
  assert (r = Ok (Some k)) as -> by (apply (f_equal snd) in Ec; cbn in Ec; rewrite <- Ec; vm_compute; reflexivity).
  destruct (@one_time_key_given_once SampleCrypto.crypto _ _ _ _ _ _ _ true false Sample.no_json Sample.offline
              Sample.enrolled (mkSys Sample.enrolled []) (mkSys Sample.enrolled []) "alice" Sample.device k enrolled_ok (rtc_refl _ _))
    as [Hc _].
  destruct (@one_time_key_given_once SampleCrypto.crypto _ _ _ _ _ _ _ true false Sample.no_json Sample.offline
              Sample.enrolled (mkSys Sample.fetched [Ret tt]) (mkSys w2 [Ret tt; Ret tt]) "alice" Sample.device k enrolled_ok Hs)
    as [_ Hg].
  exists (mkSys Sample.fetched [Ret tt]), (mkSys w2 [Ret tt; Ret tt]). split_and!; [exact Hs | exact Hs'| |].
  - exists w'. split; [done|]. by destruct (Hc w' Ec) as (_ & _ & ? & _).
  - by apply Hg.
Defined.

(** Somebody's sessions are deleted, and the invitation is still there. *)
Lemma envelope_waits_for_its_recipient_witness :
  let w := set_queue Sample.enrolled {["m1" := Sample.invitation]} in
  exists s, sample_steps (leaving "m1" "alice") (mkSys w []) s /\ s <> mkSys w [] /\
    w_queue (sys_world s) !! "m1" = Some Sample.invitation.
Proof.
  intros w.
  assert (is_Some (run (delete_all_sessions "bob" None) w)) as [[r w1] E] by (vm_compute; by eexists).
  assert (sample_steps (leaving "m1" "alice") (mkSys w []) (mkSys w1 [Ret tt])) as Hs.
  { eapply rtc_l; [apply sys_start, (h_sessions _ _ _ _ _ "bob" None); done|]. eapply sys_run. exact E. }
  exists (mkSys w1 [Ret tt]). split_and!; [exact Hs | done|].
  apply (@envelope_waits_for_its_recipient SampleCrypto.crypto _ _ _ _ _ _ _ true false Sample.no_json Sample.offline w
           (mkSys w1 [Ret tt]) "m1" Sample.invitation); [|done | exact Hs].
  destruct enrolled_ok as (Hi & Hk & _ & Hb). split_and!; [exact Hi | exact Hk| | exact Hb].
  intros id e He. cbn in He. apply lookup_singleton_Some in He as [<- <-]. by split.
Defined.
