(* ===== verification/E2eeSocket.v ===== *)
(** * End-to-end encryption: what a connection may do

    A session token opens a connection; only the key of a device lets it
    drain and acknowledge that device's envelopes.  What is published while
    the connection is open reaches it without one. *)

From stdpp Require Import base numbers relations list gmap strings pretty sorting.
From S2P Require Import Prelude Text Errors Program Permissions Store StripeApi MlsModel E2eeModel E2ee E2eeRoutes E2eeSystem.
Open Scope Z_scope.
Open Scope sloga_scope.

Section Socket.
Context `{!Crypto}.
Context `{!HashIter string E2EEIdentity, !HashIter string E2EEOneTimeKey, !HashIter string E2EEEnvelope}.
Context `{!HashIter string Channel.t}.
(** What the holder of a key signed, and the keys of the user's devices *)
Context (signed : VerifyingKey -> string -> Prop) (own_key : VerifyingKey -> Prop).
Context (user session : string) (messages : list ClientMessage.t).

(** The rows of the user's devices are the user's, with the user's keys. *)
Definition devices_known (w : World) : Prop :=
  forall device e, w_identities w !! device_composite_id user device = Some e ->
    ie_user_id e = user /\ ie_device_id e = device /\ forall k, verifying_key e = Some k -> own_key k.

(** The holder of one of those keys signed that this session is the device's
    own, for a challenge issued on this connection. *)
Definition claimed (device : string) : Prop :=
  exists k nonce, own_key k /\ ClientMessage.E2EERequestChallenge device nonce ∈ messages /\
    signed k (claim_payload device session nonce).

(** An answer that says nothing of the store *)
Definition bare_answer (event : EventV1.t) : Prop :=
  match event with
  | EventV1.E2EEChallenge _ | EventV1.E2EEClaimResult _ false => True
  | _ => False
  end.

Definition only_answers (w w' : World) : Prop :=
  w' = w \/ exists event, bare_answer event /\ w' = set_frames w (w_frames w ++ [(session, event)]).

(** What a frame may hold: an envelope is for a device that was claimed. *)
Definition own_frame (frame : string * EventV1.t) : Prop :=
  frame.1 = session /\
  match frame.2 with
  | EventV1.E2EEMessage e => en_recipient_user_id e = user /\ claimed (en_recipient_device_id e)
  | _ => True
  end.

(** Changes to the user's own devices *)
Definition own_changes (w w' : World) : Prop :=
  w_backups w' = w_backups w /\
  (forall id e, w_identities w !! id = Some e -> ie_user_id e <> user -> w_identities w' !! id = Some e) /\
  (forall id k, w_keys w !! id = Some k -> tk_user_id k <> user -> w_keys w' !! id = Some k) /\
  (forall id e, w_queue w !! id = Some e -> en_recipient_user_id e <> user -> w_queue w' !! id = Some e) /\
  exists frames, w_frames w' = w_frames w ++ frames /\ Forall own_frame frames.

Definition socket_step (w w' : World) : Prop :=
  only_answers w w' \/ ((exists device, claimed device) /\ own_changes w w').

Local Abbreviation kept p Q := (holds devices_known socket_step p Q).
Local Abbreviation whatever := (fun _ => True).

Lemma kept_atom {X} (op : World -> World * X) (Q : X -> Prop) :
  (forall w, devices_known w -> devices_known (op w).1 /\ socket_step w (op w).1 /\ Q (op w).2) -> kept (atom op) Q.
Proof. intros Hop w Hw. by destruct (Hop w Hw) as (? & ? & ?). Qed.

Lemma kept_bind {A B} (p : prog World A) (f : A -> prog World B) (Q : B -> Prop) :
  kept p whatever -> (forall x, kept (f x) Q) -> kept (bind p f) Q.
Proof. intros Hp Hf. apply holds_bind. eapply holds_mono; [exact Hp|]. intros x _. apply Hf. Qed.

Lemma kept_ebind {A B} (c : Eff World A) (k : A -> Eff World B) :
  kept c whatever -> (forall x, kept (k x) whatever) -> kept (ebind c k) whatever.
Proof. intros Hc Hk. apply kept_bind; [done|]. by intros [x|e]; [apply Hk|]. Qed.

Lemma looks {X} (op : World -> World * X) (Q : X -> Prop) :
  (forall w, (op w).1 = w) -> (forall w, devices_known w -> Q (op w).2) -> kept (atom op) Q.
Proof.
  intros Hop HQ. apply kept_atom. intros w Hw. rewrite Hop. split_and!; [done | by left; left | by apply HQ].
Qed.

Lemma looks_only {X} (op : World -> World * X) : (forall w, (op w).1 = w) -> kept (atom op) whatever.
Proof. intros Hop. by apply looks. Qed.

Lemma known_same w w' : w_identities w' = w_identities w -> devices_known w -> devices_known w'.
Proof. intros E Hw device e. rewrite E. apply Hw. Qed.

Lemma known_fewer w w' : w_identities w' ⊆ w_identities w -> devices_known w -> devices_known w'.
Proof. intros Hs Hw device e He. apply Hw. by eapply lookup_weaken. Qed.

Lemma no_frames w w' : w_frames w' = w_frames w -> exists frames, w_frames w' = w_frames w ++ frames /\ Forall own_frame frames.
Proof. intros ->. exists []. by rewrite app_nil_r. Qed.

(** ** On behalf of a device that was claimed *)

Section Claimed.
Context (Hclaimed : exists device, claimed device).

Lemma own_op {X} (op : World -> World * X) :
  (forall w, devices_known w -> devices_known (op w).1 /\ own_changes w (op w).1) -> kept (atom op) whatever.
Proof. intros Hop. apply kept_atom. intros w Hw. destruct (Hop w Hw). split_and!; [done | by right | done]. Qed.

Lemma publish_kept event topic : kept (atom (publish event topic)) whatever.
Proof. apply own_op. intros w Hw. split; [by eapply known_same|]. split_and!; try done. by apply no_frames. Qed.

Lemma remove_identity_kept device : kept (atom (remove_identity user device)) whatever.
Proof.
  apply own_op. intros w Hw. split; [eapply known_fewer; [apply delete_subseteq | done]|].
  split_and!; try done; [|by apply no_frames]. intros id e He Hu. cbn.
  rewrite lookup_delete_ne; [done|]. intros <-. by destruct (Hw _ _ He).
Qed.

Lemma of_other u x device d : u <> user -> str_eqb u user && str_eqb d device = x -> x = false.
Proof. intros Hu <-. apply str_eqb_neq in Hu. by rewrite Hu. Qed.

Lemma remove_keys_kept device : kept (atom (remove_keys user device)) whatever.
Proof.
  apply own_op. intros w Hw. split; [by eapply known_same|]. split_and!; try done; [|by apply no_frames].
  intros id k Hk Hu. apply map_lookup_filter_Some. split; [done|].
  apply negb_true_iff. by eapply of_other.
Qed.

Lemma remove_envelopes_kept device : kept (atom (remove_envelopes user device)) whatever.
Proof.
  apply own_op. intros w Hw. split; [by eapply known_same|]. split_and!; try done; [|by apply no_frames].
  intros id e He Hu. apply map_lookup_filter_Some. split; [done|].
  apply negb_true_iff. by eapply of_other.
Qed.

Lemma packages_kept device : kept (atom (delete_mls_key_packages user device)) whatever.
Proof. apply own_op. intros w Hw. split; [by eapply known_same|]. split_and!; try done. by apply no_frames. Qed.

Lemma session_kept device at_ : kept (atom (update_e2ee_identity_session user device session at_)) whatever.
Proof.
  apply own_op. intros w Hw. unfold update_e2ee_identity_session.
  destruct (w_identities w !! _) as [x|] eqn:Ex; cbn; [|split; [done|split_and!; try done; by apply no_frames]].
  split.
  - intros d e. cbn. rewrite lookup_insert_Some. intros [[Eid <-]|[_ He]]; [|by apply Hw].
    rewrite Eid in Ex. apply (Hw _ _ Ex).
  - split_and!; try done; [|by apply no_frames]. intros id e He Hu. cbn.
    rewrite lookup_insert_ne; [done|]. intros <-. by destruct (Hw _ _ He).
Qed.

Lemma delete_envelope_kept id device : kept (atom (delete_e2ee_envelope id user device)) whatever.
Proof.
  apply own_op. intros w Hw. unfold delete_e2ee_envelope.
  destruct (w_queue w !! id) as [x|] eqn:Ex; [destruct (envelope_for user device x) eqn:Ef|]; cbn;
    (split; [by eapply known_same|]); (split_and!; try done; try by apply no_frames).
  intros i e He Hu. cbn. rewrite lookup_delete_ne; [done|]. intros <-. simplify_eq.
  by apply andb_true_iff in Ef as [?%str_eqb_eq _].
Qed.

Lemma frame_kept event : own_frame (session, event) -> kept (atom (send_frame session event)) whatever.
Proof.
  intros Hf. apply own_op. intros w Hw. split; [by eapply known_same|]. split_and!; try done.
  exists [(session, event)]. split; [done|]. by constructor.
Qed.

Lemma publish_to_kept event channels : kept (publish_to event channels) whatever.
Proof. induction channels as [|c l IH]; cbn [publish_to]; [done|]. apply kept_bind; [apply publish_kept | done]. Qed.

Lemma revoke_kept device : kept (revoke_device user device) whatever.
Proof.
  unfold revoke_device. apply kept_ebind.
  { unfold delete_e2ee_device. apply kept_bind; [apply remove_identity_kept|]. intros x.
    apply kept_bind; [apply remove_keys_kept|]. intros _. by apply kept_bind; [apply remove_envelopes_kept|]. }
  intros existed. apply kept_ebind; [apply packages_kept|]. intros _. apply kept_bind; [|done].
  case_match; [|done]. unfold broadcast_device_change. apply kept_bind; [apply publish_kept|]. intros _.
  apply kept_bind; [by apply looks_only|]. intros [l|]; [apply publish_to_kept | done].
Qed.

Lemma predecessors_kept device : kept (revoke_same_session_predecessors user session device) whatever.
Proof.
  unfold revoke_same_session_predecessors. apply kept_bind; [by apply looks_only|]. intros [l|]; [|done].
  induction l as [|e l IH]; cbn [revoke_predecessors]; [done|]. case_match; [|done].
  apply kept_bind; [apply revoke_kept | done].
Qed.

Lemma drain_kept device l :
  claimed device -> Forall (fun e => envelope_for user device e = true) l -> kept (send_envelopes session l) whatever.
Proof.
  intros Hd. induction l as [|e l IH]; intros Hl; cbn [send_envelopes]; [done|]. apply Forall_cons in Hl as [He Hl].
  apply kept_bind; [|intros _; by apply IH]. apply andb_true_iff in He as [Hu%str_eqb_eq Hdev%str_eqb_eq].
  apply frame_kept. split; [done|]. cbn. by rewrite Hdev.
Qed.

Lemma acks_kept device ids : kept (delete_acknowledged user device ids) whatever.
Proof. induction ids as [|i l IH]; cbn [delete_acknowledged]; [done|]. apply kept_bind; [apply delete_envelope_kept | done]. Qed.
End Claimed.

(** ** A connection *)

Definition connection_ok (c : Connection) : Prop :=
  (forall device nonce, cn_pending_challenge c = Some (device, nonce) ->
     ClientMessage.E2EERequestChallenge device nonce ∈ messages) /\
  (forall device, cn_proven_device c = Some device -> claimed device).

Context (Hsigned : forall k m s, verify_strict k m s = true -> signed k m).

Lemma answer_kept event : bare_answer event -> kept (atom (send_frame session event)) whatever.
Proof.
  intros He. apply kept_atom. intros w Hw. split_and!; [by eapply known_same | | done]. left; right. by exists event.
Qed.

Lemma claim_kept c device signature :
  connection_ok c -> kept (accepts_claim user session c device signature) (fun b => b = true -> claimed device).
Proof.
  intros [Hc _]. unfold accepts_claim. destruct (cn_pending_challenge c) as [[d nonce]|] eqn:Ep; [|done].
  destruct (str_eqb d device) eqn:Ed; [|done]. apply str_eqb_eq in Ed as ->. specialize (Hc _ _ eq_refl).
  apply holds_bind. eapply holds_mono.
  { apply (looks _ (fun r => match r with
                             | Ok e => ie_device_id e = device /\ forall k, verifying_key e = Some k -> own_key k
                             | Err _ => True end)); [done|].
    intros w Hw. cbn. unfold ok_or. destruct (w_identities w !! _) as [e|] eqn:Ee; [|done].
    by destruct (Hw _ _ Ee) as (_ & ? & ?). }
  intros [e|] He Hv; [|done]. destruct He as [<- Hk]. unfold verify_claim in Hv.
  destruct (verifying_key e) as [k|]; [|done]. exists k, nonce. split_and!; [by apply Hk | done|].
  unfold verify_signature in Hv. case_match; [|done]. by eapply Hsigned.
Qed.

Lemma drained_for w device limit :
  match (fetch_e2ee_envelopes user device limit w).2 with
  | Ok l => Forall (fun e => envelope_for user device e = true) l
  | Err _ => True
  end.
Proof.
  apply Forall_take, Forall_forall. intros e He. rewrite elem_of_sort_by in He.
  by apply elem_of_filter_bool in He as [? _].
Qed.

Lemma prove_kept c device signature :
  connection_ok c -> kept (prove_device user session c device signature) connection_ok.
Proof.
  intros Hc. unfold prove_device. apply holds_bind. eapply holds_mono; [by apply claim_kept|]. intros [] Hd.
  - specialize (Hd eq_refl). assert (exists d, claimed d) as Hex by by exists device.
    apply kept_bind.
    { apply kept_bind; [by apply looks_only|]. intros now. apply kept_bind; [by apply session_kept|]. intros _.
      by apply predecessors_kept. }
    intros _. apply kept_bind; [by apply frame_kept|]. intros _. apply kept_bind.
    { apply holds_bind. eapply holds_mono.
      - apply (looks _ (fun r => match r with Ok l => Forall (fun e => envelope_for user device e = true) l | Err _ => True end));
          [done|]. intros w _. apply drained_for.
      - intros [l|] Hl; [by eapply drain_kept | done]. }
    intros _. split; [done|]. cbn. intros d [= <-]. done.
  - apply kept_bind; [done|]. intros _. apply kept_bind; [by apply answer_kept|]. intros _. apply kept_bind; [done|].
    intros _. split; [done|]. apply Hc.
Qed.

Lemma message_kept e2ee_enabled c m :
  m ∈ messages -> connection_ok c -> kept (handle_message e2ee_enabled user session c m) connection_ok.
Proof.
  intros Hm Hc. unfold handle_message. destruct e2ee_enabled; [|done]. cbn [negb]. destruct m as [device nonce| |ids].
  - apply kept_bind; [by apply answer_kept|]. intros _. split; [|apply Hc]. cbn. by intros d n [= <- <-].
  - by apply prove_kept.
  - unfold acknowledge. destruct (cn_proven_device c) as [device|] eqn:Ep; [|done]. apply kept_bind; [|done].
    apply acks_kept. exists device. by apply Hc.
Qed.

Lemma messages_kept e2ee_enabled l : forall c,
  (forall m, m ∈ l -> m ∈ messages) -> connection_ok c -> kept (worker e2ee_enabled user session c l) whatever.
Proof.
  induction l as [|m l IH]; intros c Hl Hc; cbn [worker]; [done|]. apply holds_bind.
  eapply holds_mono; [apply message_kept; [apply Hl; by left | done]|].
  intros c' Hc'. apply IH; [|done]. intros x Hx. apply Hl. by right.
Qed.
End Socket.

(** ** Theorem *)

(** What a listener may do: send an event of those published, on a topic it
    is subscribed to *)
Definition forwards (published : string -> EventV1.t -> Prop) (session : string) (arrivals : list (gset string * nat))
    (w w' : World) : Prop :=
  w' = w \/ exists subscribed place topic event, (subscribed, place) ∈ arrivals /\ topic ∈ subscribed /\
    published topic event /\ w' = set_frames w (w_frames w ++ [(session, event)]).

Definition all_published (published : string -> EventV1.t -> Prop) (w : World) : Prop :=
  forall topic event, (topic, event) ∈ w_published w -> published topic event.

Lemma listener_forwards published session arrivals l :
  (forall x, x ∈ l -> x ∈ arrivals) ->
  holds (all_published published) (forwards published session arrivals) (listener session l) (fun _ => True).
Proof.
  induction l as [|[subscribed place] l IH]; intros Hl; cbn [listener]; [done|]. apply holds_bind. intros w Hw.
  split_and!; [done | by left|]. assert (forall x, x ∈ l -> x ∈ arrivals) as Hl' by (intros x Hx; apply Hl; by right).
  cbn [holds fst snd]. apply holds_bind. destruct (w_published w !! place) as [[topic event]|] eqn:Ep; [|by apply IH].
  case_bool_decide as Ht; [|by apply IH]. intros w1 Hw1. split_and!; [done| |by apply IH].
  right. exists subscribed, place, topic, event. split_and!; [apply Hl; left | done | | done].
  apply Hw. by eapply list_elem_of_lookup_2.
Qed.

(** C13. A session token alone gives no stored messages.  A connection has two
    halves.  The half that answers the client, for any user and any messages,
    while the user's devices stay the user's: each step either sends a
    challenge or a refusal and changes nothing, or comes after the holder of
    the key of one of the user's devices signed, for a challenge of this very
    connection, that this session is the device's; then too, nobody else's
    devices, keys or envelopes change, and an envelope that it sends is
    addressed to the user and to a device that was proved in that way.  The
    half that listens, which needs no proof, changes nothing stored and sends
    only events that were published on a topic it is subscribed to (live
    envelopes among them).  The hypothesis says that signatures are not
    forged. *)
Theorem drain_needs_the_device_key `{!Crypto}
    `{!HashIter string E2EEIdentity, !HashIter string E2EEEnvelope, !HashIter string Channel.t}
    (signed : VerifyingKey -> string -> Prop) (own_key : VerifyingKey -> Prop)
    (e2ee_enabled : bool) (user session : string) (messages : list ClientMessage.t)
    (published : string -> EventV1.t -> Prop) (arrivals : list (gset string * nat)) :
  (forall k m s, verify_strict k m s = true -> signed k m) ->
  holds (devices_known own_key user) (socket_step signed own_key user session messages)
    (worker e2ee_enabled user session fresh_connection messages) (fun _ => True) /\
  holds (all_published published) (forwards published session arrivals) (listener session arrivals) (fun _ => True).
Proof. intros Hs. split; [by apply messages_kept | by apply listener_forwards]. Qed.

(** *** A second session *)

Definition second_login : list ClientMessage.t :=
  [ClientMessage.E2EERequestChallenge Sample.device "n";
   ClientMessage.E2EEProveDevice Sample.device
     (SampleCrypto.sign Sample.ed25519 (claim_payload Sample.device "second" "n"));
   ClientMessage.E2EEAck ["m1"]].

Lemma enrolled_known : devices_known (H := SampleCrypto.crypto) (fun k => k = Sample.ed25519) "alice" Sample.enrolled.
Proof.
  intros d e He.
  assert (w_identities Sample.enrolled =
          {[device_composite_id "alice" Sample.device := published_identity "alice" "session" Sample.bundle 0 0]}) as Ew
    by (vm_compute; reflexivity).
  rewrite Ew in He. apply lookup_singleton_Some in He as [Eid <-]. unfold device_composite_id in Eid.
  apply str_app_inj_l, str_app_inj_l in Eid as <-.
  split_and!; [done..|]. intros k Hk.
  assert (Some k = Some Sample.ed25519) as Ek by (rewrite <- Hk; vm_compute; reflexivity). by injection Ek.
Qed.

Lemma drain_needs_the_device_key_witness :
  let w := set_queue Sample.enrolled {["m1" := Sample.invitation]} in
  exists w', run (@worker SampleCrypto.crypto _ _ _ true "alice" "second" fresh_connection second_login) w = Some (tt, w') /\
    ("second", EventV1.E2EEMessage Sample.invitation) ∈ w_frames w' /\ w_queue w' = ∅ /\
    rtc (socket_step (H := SampleCrypto.crypto) (fun k m => exists s, verify_strict k m s = true) (fun k => k = Sample.ed25519)
           "alice" "second" second_login) w w'.
Proof.
  intros w.
  assert ((run (@worker SampleCrypto.crypto _ _ _ true "alice" "second" fresh_connection second_login) w
             ≫= fun r => Some (w_frames r.2, w_queue r.2)) =
          Some ([("second", EventV1.E2EEChallenge "n"); ("second", EventV1.E2EEClaimResult Sample.device true);
                 ("second", EventV1.E2EEMessage Sample.invitation)], ∅)) as Hrun by (vm_compute; reflexivity).
  destruct (run _ w) as [[[] w']|] eqn:E; [|done]. cbn in Hrun. injection Hrun as Hf Hq.
  exists w'. split_and!; [done | rewrite Hf; do 2 right; left | done|].
  apply (holds_run _ _ _ _ _ _ _
           (proj1 (@drain_needs_the_device_key SampleCrypto.crypto _ _ _ (fun k m => exists s, verify_strict k m s = true)
              (fun k => k = Sample.ed25519) true "alice" "second" second_login (fun _ _ => True) []
              (fun k m s H => ex_intro _ s H))))
    in E as (_ & _ & Hr); [exact Hr|].
  apply enrolled_known.
Defined.
