(* ===== verification/E2eeBackups.v ===== *)
(** * End-to-end encryption: backups

    What one upload does when nothing else writes the device's backup, and
    what two at once can do. *)

From stdpp Require Import base numbers relations list gmap strings pretty sorting.
From S2P Require Import Prelude Text Errors Program Permissions Store PermissionQueryDb StripeApi MlsModel E2eeModel E2ee E2eeRoutes E2eeSystem.
Open Scope Z_scope.
Open Scope sloga_scope.

Definition backup_of (user device : string) (w : World) : option E2EEBackup :=
  w_backups w !! device_composite_id user device.

(** What the checks before the store pass *)
Definition upload_ok (parse_json : string -> option Value.t) (user : User) (session : string) (data : DataPutE2EEBackup)
    (w : World) : bool :=
  negb (is_bot user) && is_valid_device_id (pb_device_id data) &&
  match w_identities w !! device_composite_id (user_id user) (pb_device_id data) with
  | Some e => str_eqb (ie_last_session_id e) session
  | None => false
  end &&
  (len (pb_ciphertext data) / 4 * 3 <=? E2EE_MAX_BACKUP_SIZE) && (len (pb_header data) <=? MAX_BACKUP_HEADER_LENGTH) &&
  match validate_header parse_json (pb_header data) (user_id user) (pb_device_id data) (pb_generation data) with
  | Ok _ => true
  | Err _ => false
  end &&
  (1 <=? pb_generation data) &&
  (pb_generation data <=?
     saturating_add_i64 (default 0 (bk_generation <$> backup_of (user_id user) (pb_device_id data) w))
       MAX_BACKUP_GENERATION_JUMP).

(** C17. One upload, run alone, answers for every input.  It is refused exactly
    when a check fails, and then changes nothing.  Otherwise it answers with
    the generation that is stored afterwards, which is never below the one
    before nor below the one uploaded: either the upload was not newer and
    nothing changed, or its header and ciphertext are stored, the time of the
    first backup is kept, and no other device's backup is touched. *)
Theorem upload_alone_goes_forward (parse_json : string -> option Value.t) (user : User) (session : string)
    (data : DataPutE2EEBackup) (w : World) :
  let before := backup_of (user_id user) (pb_device_id data) w in
  exists r w', run (put_backup true parse_json user session data) w = Some (r, w') /\
    match r with
    | Err _ => upload_ok parse_json user session data w = false /\ w' = w
    | Ok g =>
        upload_ok parse_json user session data w = true /\
        exists b, backup_of (user_id user) (pb_device_id data) w' = Some b /\ bk_generation b = g /\ pb_generation data <= g /\
          (forall old, before = Some old -> bk_generation old <= g /\ bk_created_at b = bk_created_at old) /\
          (w' = w \/ w' = set_backups w (<[device_composite_id (user_id user) (pb_device_id data) := b]> (w_backups w)) /\
             bk_header b = pb_header data /\ bk_ciphertext b = pb_ciphertext data /\ pb_generation data = g)
    end.
Proof.
  intros before. unfold put_backup, upload_ok. rewrite run_ebind. cbn [require_e2ee_enabled run ok].
  destruct (is_bot user); [by eexists _, _|]. cbn [negb andb].
  destruct (is_valid_device_id (pb_device_id data)); [|by eexists _, _]. cbn [negb andb].
  rewrite run_ebind, run_atom. cbn [fetch_e2ee_identity fst snd].
  destruct (w_identities w !! _) as [e|]; [|by eexists _, _]. cbn [ok_or].
  rewrite run_ebind. cbn [run]. unfold assert_bound_session. destruct (str_eqb _ session); [|by eexists _, _]. cbn [andb].
  rewrite (Z.leb_antisym E2EE_MAX_BACKUP_SIZE). destruct (E2EE_MAX_BACKUP_SIZE <? _); [by eexists _, _|].
  rewrite (Z.leb_antisym MAX_BACKUP_HEADER_LENGTH). destruct (MAX_BACKUP_HEADER_LENGTH <? _); [by eexists _, _|]. cbn [negb andb].
  rewrite run_ebind. cbn [run]. destruct (validate_header _ _ _ _ _) as [[]|]; [|by eexists _, _].
  rewrite run_ebind, run_atom. cbn [fetch_e2ee_backup fst snd]. fold before.
  rewrite (Z.leb_antisym (pb_generation data) 1). destruct (pb_generation data <? 1); [by eexists _, _|]. cbn [negb andb].
  rewrite Z.leb_antisym. unfold before, backup_of. destruct (saturating_add_i64 _ _ <? _); [by eexists _, _|]. cbn [negb].
  set (id := device_composite_id _ _). destruct (w_backups w !! id) as [b|] eqn:Eb.
  - destruct (pb_generation data <=? bk_generation b) eqn:Eg.
    + exists (Ok (bk_generation b)), w. split; [done|]. split; [done|]. exists b. apply Z.leb_le in Eg.
      split_and!; [done | done | done | intros old [= <-]; done | by left].
    + apply Z.leb_gt in Eg. eexists (Ok (pb_generation data)), _. split; [reflexivity|]. split; [done|].
      eexists. split; [apply lookup_insert_eq|]. split_and!; [done | done | | by right].
      intros old [= <-]. split; [cbn; lia | done].
  - eexists (Ok (pb_generation data)), _. split; [reflexivity|]. split; [done|].
    eexists. split; [apply lookup_insert_eq|]. by split_and!; [| | |right].
Qed.

(** ** Two uploads at once *)

Module Race.
Definition header (generation : Z) : Value.t :=
  Value.Object [("v", Value.Integer 1);
    ("kdf", Value.Object [("alg", Value.String "argon2id"); ("m_kib", Value.Integer 65536); ("t", Value.Integer 3);
                          ("p", Value.Integer 1)]);
    ("user_id", Value.String "alice"); ("device_id", Value.String Sample.device); ("generation", Value.Integer generation)].

Definition parse_json (s : string) : option Value.t :=
  if str_eqb s "h2" then Some (header 2) else if str_eqb s "h3" then Some (header 3) else None.

Definition upload (text : string) (generation : Z) : prog World unit :=
  spawn (put_backup true parse_json Sample.alice "session" (mkPutBackup Sample.device text "blob" generation)).

Definition generation (s : Sys World) : option Z := bk_generation <$> backup_of "alice" Sample.device (sys_world s).
End Race.

(** Generations are meant to go up and never back, but the check and the
    store are two operations: an older upload that looked before a newer one
    was stored replaces it. *)
Theorem backup_rolled_back :
  exists s1 s2,
    let steps := rtc (sys_step (@handler SampleCrypto.crypto _ _ _ _ _ _ _ true false Race.parse_json Sample.offline anything)) in
    steps (mkSys Sample.enrolled []) s1 /\ steps s1 s2 /\
    Race.generation s1 = Some 3 /\ Race.generation s2 = Some 2.
Proof.
  apply (sys_sched_observe _ _ _ (mkSys Sample.enrolled [Race.upload "h2" 2; Race.upload "h3" 3])
           [0%nat; 0%nat; 1%nat; 1%nat; 1%nat; 1%nat] [0%nat; 0%nat]).
  - apply two_start; constructor.
  - vm_compute. reflexivity.
  - vm_compute. reflexivity.
Qed.
