(* ===== verification/Float64.v ===== *)
(** * Binary floating point

    An [f64] that is a number is the rational it denotes, and an operation on
    [f64]s rounds its exact result to the nearest number with 53 significant
    bits, ties to even.  Infinities, NaN and the sign of zero are not
    represented: the code modelled with them neither divides by zero nor
    comes near the largest number. *)

From Stdlib Require Import ZArith QArith Qround Qpower Lqa Lia.
From stdpp Require Import base tactics.
Local Open Scope Q_scope.

Definition pow2 (e : Z) : Q := Qpower 2 e.

(** [2^e <= q < 2^(e+1)] *)
Definition exponent (q : Q) : Z :=
  let k := (Z.log2 (Qnum q) - Z.log2 (Zpos (Qden q)))%Z in
  if Qle_bool (pow2 k) q then k else (k - 1)%Z.

(** To the nearest integer, ties to even *)
Definition nearest (x : Q) : Z :=
  let f := Qfloor x in
  match Qcompare (x - inject_Z f) (1 # 2) with
  | Lt => f
  | Gt => (f + 1)%Z
  | Eq => if Z.even f then f else (f + 1)%Z
  end.

(** The exponent of the last place *)
Definition last_place (q : Q) : Z := Z.max (exponent q - 52) (-1074).

Definition round_pos (q : Q) : Q :=
  let u := last_place q in inject_Z (nearest (q * pow2 (- u))) * pow2 u.

Definition round64 (q : Q) : Q :=
  match Qcompare q 0 with
  | Eq => 0
  | Gt => round_pos q
  | Lt => - round_pos (- q)
  end.

Definition f64_add (a b : Q) : Q := round64 (a + b).
Definition f64_sub (a b : Q) : Q := round64 (a - b).
Definition f64_mul (a b : Q) : Q := round64 (a * b).
Definition f64_div (a b : Q) : Q := round64 (a / b).
Definition f64_min (a b : Q) : Q := if Qle_bool a b then a else b.
Definition f64_max (a b : Q) : Q := if Qle_bool a b then b else a.
Definition f64_ltb (a b : Q) : bool := negb (Qle_bool b a).

(** [z as f64] *)
Definition f64_of_Z (z : Z) : Q := round64 (inject_Z z).

(** ** Powers of two *)

Lemma pow2_pos e : 0 < pow2 e.
Proof. apply Qpower_0_lt. reflexivity. Qed.

Lemma pow2_add a b : pow2 (a + b) == pow2 a * pow2 b.
Proof. apply Qpower_plus. intros H. discriminate H. Qed.

Lemma pow2_Z e : (0 <= e)%Z -> pow2 e == inject_Z (2 ^ e).
Proof. intros He. unfold pow2. rewrite Zpower_Qpower by done. reflexivity. Qed.

Lemma pow2_inv e : pow2 (- e) * pow2 e == 1.
Proof. rewrite <- pow2_add. replace (- e + e)%Z with 0%Z by lia. reflexivity. Qed.

Lemma pow2_le a b : (a <= b)%Z -> pow2 a <= pow2 b.
Proof.
  intros Hab. replace b with ((b - a) + a)%Z by lia. rewrite pow2_add.
  assert (1 <= pow2 (b - a)) as H1.
  { rewrite pow2_Z by lia. change 1 with (inject_Z 1). rewrite <- Zle_Qle. pose proof (Z.pow_pos_nonneg 2 (b - a)). lia. }
  pose proof (pow2_pos a). nra.
Qed.

Lemma pow2_succ e : pow2 (e + 1) == 2 * pow2 e.
Proof. rewrite pow2_add. change (pow2 1) with 2. ring. Qed.

(** ** Nearest integers *)

Lemma floor_bounds x : inject_Z (Qfloor x) <= x < inject_Z (Qfloor x) + 1.
Proof.
  split; [apply Qfloor_le|]. pose proof (Qlt_floor x) as H. rewrite inject_Z_plus in H. exact H.
Qed.

Lemma nearest_floor x : (Qfloor x <= nearest x <= Qfloor x + 1)%Z.
Proof. unfold nearest. destruct (Qcompare _ _); [destruct (Z.even _)|..]; lia. Qed.

Lemma nearest_error x : x - (1 # 2) <= inject_Z (nearest x) <= x + (1 # 2).
Proof.
  pose proof (floor_bounds x). unfold nearest.
  destruct (Qcompare _ _) eqn:E; [apply Qeq_alt in E | apply Qlt_alt in E | apply Qgt_alt in E];
    [destruct (Z.even _)|..]; rewrite ?inject_Z_plus; change (inject_Z 1) with 1; lra.
Qed.

Lemma nearest_Z z : nearest (inject_Z z) = z.
Proof.
  pose proof (nearest_floor (inject_Z z)). pose proof (nearest_error (inject_Z z)) as [H1 H2].
  rewrite Qfloor_Z in H. assert (~ (nearest (inject_Z z) = z + 1)%Z); [|lia].
  intros E. rewrite E, inject_Z_plus in H2. change (inject_Z 1) with 1 in H2. lra.
Qed.

Lemma nearest_le x y : x <= y -> (nearest x <= nearest y)%Z.
Proof.
  intros Hxy. pose proof (nearest_floor x). pose proof (nearest_floor y).
  pose proof (Qfloor_resp_le x y Hxy). destruct (Z.eq_dec (Qfloor x) (Qfloor y)) as [E|]; [|lia].
  unfold nearest. rewrite E.
  destruct (Qcompare (x - _) _) eqn:Ex; [apply Qeq_alt in Ex | apply Qlt_alt in Ex | apply Qgt_alt in Ex];
    (destruct (Qcompare (y - _) _) eqn:Ey; [apply Qeq_alt in Ey | apply Qlt_alt in Ey | apply Qgt_alt in Ey]);
    try destruct (Z.even _); try lia; exfalso; lra.
Qed.

#[global] Instance nearest_proper : Proper (Qeq ==> eq) nearest.
Proof. intros x y E. apply Z.le_antisymm; apply nearest_le; lra. Qed.

(** ** Exponents *)

Lemma log2_bounds (n : Z) : (0 < n)%Z -> pow2 (Z.log2 n) <= inject_Z n < pow2 (Z.log2 n + 1).
Proof.
  intros Hn. pose proof (Z.log2_spec n Hn) as [H1 H2]. pose proof (Z.log2_nonneg n).
  rewrite !pow2_Z by lia. rewrite <- Zle_Qle, <- Zlt_Qlt. lia.
Qed.

Lemma exponent_spec q : 0 < q -> pow2 (exponent q) <= q < pow2 (exponent q + 1).
Proof.
  intros Hq. destruct q as [n d]. unfold exponent. cbn [Qnum Qden].
  assert (0 < n)%Z as Hn by (unfold Qlt in Hq; cbn in Hq; lia).
  set (k := (Z.log2 n - Z.log2 (Z.pos d))%Z).
  pose proof (log2_bounds n Hn) as [N1 N2]. pose proof (log2_bounds (Z.pos d) eq_refl) as [D1 D2].
  assert ((n # d) * inject_Z (Z.pos d) == inject_Z n) as E by (unfold Qeq; cbn; lia).
  pose proof (pow2_pos k) as Kp. pose proof (pow2_pos (Z.log2 (Z.pos d))) as Dp.
  assert (pow2 (Z.log2 n) == pow2 k * pow2 (Z.log2 (Z.pos d))) as En.
  { rewrite <- pow2_add. replace (k + Z.log2 (Z.pos d))%Z with (Z.log2 n) by lia. reflexivity. }
  rewrite pow2_succ in N2, D2. set (D := inject_Z (Z.pos d)) in *. set (P := pow2 (Z.log2 (Z.pos d))) in *.
  destruct (Qle_bool (pow2 k) (n # d)) eqn:Ek.
  - apply Qle_bool_iff in Ek. split; [exact Ek|]. rewrite pow2_succ. set (q := n # d) in *. nra.
  - assert ((n # d) < pow2 k) as Hk.
    { apply Qnot_le_lt. intros H. apply Qle_bool_iff in H. congruence. }
    replace (k - 1 + 1)%Z with k by lia. split; [|exact Hk].
    assert (pow2 k == 2 * pow2 (k - 1)) as Ek1.
    { rewrite <- pow2_succ. replace (k - 1 + 1)%Z with k by lia. reflexivity. }
    set (q := n # d) in *. nra.
Qed.

Lemma exponent_le p q : 0 < p -> p <= q -> (exponent p <= exponent q)%Z.
Proof.
  intros Hp Hpq. assert (0 < q) as Hq by lra.
  pose proof (exponent_spec p Hp). pose proof (exponent_spec q Hq).
  destruct (Z_le_gt_dec (exponent p) (exponent q)) as [|Hgt]; [done|].
  pose proof (pow2_le (exponent q + 1) (exponent p) ltac:(lia)). lra.
Qed.

(** ** Rounding *)

Lemma scale_le a b u : a <= b -> a * pow2 u <= b * pow2 u.
Proof. intros Hab. pose proof (pow2_pos u). nra. Qed.

Lemma unscale a u : a * pow2 (- u) * pow2 u == a.
Proof. rewrite <- Qmult_assoc, pow2_inv. ring. Qed.

Lemma shift_pow2 e u : pow2 e * pow2 (- u) == pow2 (e - u).
Proof. rewrite <- pow2_add. replace (e + - u)%Z with (e - u)%Z by lia. reflexivity. Qed.

Lemma nearest_below x z : x <= inject_Z z -> (nearest x <= z)%Z.
Proof. intros H. rewrite <- (nearest_Z z). by apply nearest_le. Qed.

Lemma nearest_above x z : inject_Z z <= x -> (z <= nearest x)%Z.
Proof. intros H. rewrite <- (nearest_Z z). by apply nearest_le. Qed.

(** Rounding at a last place [u] does not cross a power of two above it. *)
Lemma rounded_below q e u :
  (u <= e)%Z -> q <= pow2 e -> inject_Z (nearest (q * pow2 (- u))) * pow2 u <= pow2 e.
Proof.
  intros Hu Hq. rewrite <- (unscale (pow2 e) u). apply scale_le. rewrite shift_pow2, (pow2_Z (e - u)) by lia.
  rewrite <- Zle_Qle. apply nearest_below. rewrite <- (pow2_Z (e - u)), <- shift_pow2 by lia. by apply scale_le.
Qed.

Lemma rounded_above q e u :
  (u <= e)%Z -> pow2 e <= q -> pow2 e <= inject_Z (nearest (q * pow2 (- u))) * pow2 u.
Proof.
  intros Hu Hq. rewrite <- (unscale (pow2 e) u) at 1. apply scale_le. rewrite shift_pow2, (pow2_Z (e - u)) by lia.
  rewrite <- Zle_Qle. apply nearest_above. rewrite <- (pow2_Z (e - u)), <- shift_pow2 by lia. by apply scale_le.
Qed.

Lemma round_pos_le p q : 0 < p -> p <= q -> round_pos p <= round_pos q.
Proof.
  intros Hp Hpq. pose proof (exponent_le p q Hp Hpq) as He. unfold round_pos.
  pose proof (exponent_spec p Hp). pose proof (exponent_spec q ltac:(lra)).
  destruct (Z.eq_dec (last_place p) (last_place q)) as [E|Hne].
  - rewrite E. apply scale_le. rewrite <- Zle_Qle. apply nearest_le. by apply scale_le.
  - assert (last_place q = exponent q - 52 /\ last_place p < exponent q - 52)%Z as [Eq Hlt]
      by (unfold last_place in *; lia).
    assert (exponent p < exponent q)%Z by (unfold last_place in *; lia).
    pose proof (pow2_le (exponent p + 1) (exponent q) ltac:(lia)).
    apply (Qle_trans _ (pow2 (exponent q))).
    + apply rounded_below; [lia | lra].
    + apply rounded_above; [lia | lra].
Qed.

Lemma round_pos_nonneg q : 0 < q -> 0 <= round_pos q.
Proof.
  intros Hq. unfold round_pos. pose proof (pow2_pos (last_place q)). pose proof (pow2_pos (- last_place q)).
  assert (0 <= nearest (q * pow2 (- last_place q)))%Z as Hn.
  { apply nearest_above. change (inject_Z 0) with 0. nra. }
  rewrite Zle_Qle in Hn. change (inject_Z 0) with 0 in Hn. nra.
Qed.

Lemma round64_cases q :
  (q == 0 /\ round64 q = 0) \/ (0 < q /\ round64 q = round_pos q) \/ (q < 0 /\ round64 q = - round_pos (- q)).
Proof.
  unfold round64. destruct (Qcompare q 0) eqn:E.
  - apply Qeq_alt in E. by left.
  - apply Qlt_alt in E. by right; right.
  - apply Qgt_alt in E. by right; left.
Qed.

(** Rounding keeps the order. *)
Lemma round64_le p q : p <= q -> round64 p <= round64 q.
Proof.
  intros Hpq.
  destruct (round64_cases p) as [[Ep ->]|[[Ep ->]|[Ep ->]]], (round64_cases q) as [[Eq ->]|[[Eq ->]|[Eq ->]]];
    try lra; try (apply round_pos_nonneg; lra); try (by apply round_pos_le).
  - pose proof (round_pos_nonneg (- p)). lra.
  - pose proof (round_pos_nonneg (- p)). pose proof (round_pos_nonneg q). lra.
  - pose proof (round_pos_le (- q) (- p)). lra.
Qed.

#[global] Instance round64_proper : Proper (Qeq ==> Qeq) round64.
Proof. intros p q E. apply Qle_antisym; apply round64_le; lra. Qed.

(** ** Representable numbers *)

Definition rep (x : Q) : Prop :=
  exists m u, (Z.abs m < 2 ^ 53)%Z /\ (-1074 <= u)%Z /\ x == inject_Z m * pow2 u.

#[global] Instance rep_proper : Proper (Qeq ==> iff) rep.
Proof. intros x y E. unfold rep. by setoid_rewrite E. Qed.

Lemma rep_opp x : rep x -> rep (- x).
Proof.
  intros (m & u & Hm & Hu & E). exists (- m)%Z, u. split_and!; [lia | done|]. rewrite E, inject_Z_opp. ring.
Qed.

Lemma rep_Z z : (Z.abs z < 2 ^ 53)%Z -> rep (inject_Z z).
Proof. intros Hz. exists z, 0%Z. split_and!; [done | lia|]. change (pow2 0) with 1. ring. Qed.

Lemma round_pos_exact x : 0 < x -> rep x -> round_pos x == x.
Proof.
  intros Hx (m & u & Hm & Hu & E). unfold round_pos. pose proof (exponent_spec x Hx) as [He _].
  assert (0 < m)%Z as Hm0.
  { pose proof (pow2_pos u). rewrite E in Hx. rewrite Zlt_Qlt. change (inject_Z 0) with 0. nra. }
  assert (last_place x <= u)%Z as Hl.
  { unfold last_place. apply Z.max_lub; [|done]. destruct (Z_le_gt_dec (exponent x - 52) u) as [|Hgt]; [done|].
    assert (pow2 (u + 53) <= x) as H1 by (pose proof (pow2_le (u + 53) (exponent x) ltac:(lia)); lra).
    rewrite E, Z.add_comm, pow2_add in H1. assert (inject_Z m < pow2 53) as H2.
    { rewrite (pow2_Z 53) by lia. rewrite <- Zlt_Qlt. lia. }
    pose proof (pow2_pos u). nra. }
  set (l := last_place x) in *.
  assert (x * pow2 (- l) == inject_Z (m * 2 ^ (u - l))) as Ez.
  { rewrite E, <- Qmult_assoc, shift_pow2, inject_Z_mult, <- pow2_Z by lia. reflexivity. }
  rewrite Ez, nearest_Z, <- Ez. apply unscale.
Qed.

(** A number that is there rounds to itself. *)
Lemma round64_exact x : rep x -> round64 x == x.
Proof.
  intros Hx. destruct (round64_cases x) as [[E ->]|[[E ->]|[E ->]]].
  - lra.
  - by apply round_pos_exact.
  - rewrite round_pos_exact; [ring | lra | by apply rep_opp].
Qed.

Lemma round_pos_rep q : 0 < q -> rep (round_pos q).
Proof.
  intros Hq. unfold round_pos. set (l := last_place q). set (n := nearest _).
  pose proof (exponent_spec q Hq) as [_ He].
  assert (exponent q - 52 <= l /\ -1074 <= l)%Z as [Hl Hl2] by (unfold l, last_place; lia).
  assert (0 <= n)%Z as Hn0.
  { apply nearest_above. change (inject_Z 0) with 0. pose proof (pow2_pos (- l)). nra. }
  assert (n <= 2 ^ 53)%Z as Hn.
  { apply nearest_below. rewrite <- (pow2_Z 53) by lia. pose proof (pow2_le (exponent q + 1 - l) 53 ltac:(lia)).
    rewrite <- shift_pow2 in H. pose proof (pow2_pos (- l)). nra. }
  destruct (Z.eq_dec n (2 ^ 53)) as [E|]; [|exists n, l; split_and!; [lia | done | reflexivity]].
  exists (2 ^ 52)%Z, (l + 1)%Z. split_and!; [lia | lia|]. rewrite E, pow2_succ.
  change (inject_Z (2 ^ 53)) with (inject_Z (2 ^ 52 * 2)). rewrite inject_Z_mult. ring.
Qed.

Lemma round64_rep q : rep (round64 q).
Proof.
  destruct (round64_cases q) as [[E ->]|[[E ->]|[E ->]]].
  - exists 0%Z, 0%Z. by split_and!.
  - by apply round_pos_rep.
  - apply rep_opp, round_pos_rep. lra.
Qed.

(** Taking an integer off a number above it loses nothing. *)
Lemma rep_sub x n : rep x -> (0 <= n)%Z -> inject_Z n <= x -> x < pow2 53 -> rep (x - inject_Z n).
Proof.
  intros (m & u & Hm & Hu & E) Hn Hnx Hx. pose proof (pow2_pos u) as Hp. destruct (Z_le_gt_dec 0 u) as [Hu0|Hu0].
  - assert (x == inject_Z (m * 2 ^ u)) as Ex by (rewrite E, inject_Z_mult, <- pow2_Z by done; reflexivity).
    rewrite Ex in *. rewrite <- Zle_Qle in Hnx. rewrite (pow2_Z 53), <- Zlt_Qlt in Hx by lia.
    unfold Qminus. rewrite <- inject_Z_opp, <- inject_Z_plus. apply rep_Z. lia.
  - assert (inject_Z n == inject_Z (n * 2 ^ (- u)) * pow2 u) as En.
    { rewrite inject_Z_mult, <- (pow2_Z (- u)), <- Qmult_assoc, pow2_inv by lia. ring. }
    assert (n * 2 ^ (- u) <= m)%Z.
    { rewrite Zle_Qle. rewrite E, En in Hnx. nra. }
    exists (m - n * 2 ^ (- u))%Z, u. split_and!; [|done|].
    + pose proof (Z.pow_nonneg 2 (- u)). nia.
    + rewrite E, En at 1. unfold Z.sub. rewrite inject_Z_plus, inject_Z_opp. ring.
Qed.

(** ** Rounding errors *)

Definition ulp_half : Q := 1 # (2 ^ 53).
Definition tiny : Q := 1 # (2 ^ 60).

Lemma round_pos_error q : 0 < q -> q - (q * ulp_half + tiny) <= round_pos q <= q + (q * ulp_half + tiny).
Proof.
  intros Hq. unfold round_pos. set (l := last_place q). pose proof (exponent_spec q Hq) as [He _].
  assert (pow2 l <= q * (1 # (2 ^ 52)) + (1 # (2 ^ 59))) as Hl.
  { unfold l, last_place. destruct (Z.max_spec (exponent q - 52) (-1074)) as [[_ ->]|[_ ->]].
    - assert (pow2 (-1074) <= 1 # (2 ^ 59)) by (apply (pow2_le (-1074) (-59)); lia).
      assert (0 <= q * (1 # (2 ^ 52))) by (apply Qmult_le_0_compat; [lra | done]). lra.
    - unfold Z.sub. rewrite pow2_add. change (pow2 (- (52))) with (1 # (2 ^ 52)).
      assert (pow2 (exponent q) * (1 # (2 ^ 52)) <= q * (1 # (2 ^ 52))) by (apply Qmult_le_compat_r; [done | done]).
      assert (0 <= 1 # (2 ^ 59)) by done. lra. }
  pose proof (nearest_error (q * pow2 (- l))) as [H1 H2]. pose proof (pow2_pos l).
  pose proof (unscale q l) as Eq. set (x := q * pow2 (- l)) in *. set (n := inject_Z (nearest x)) in *.
  assert (q * ulp_half == (1 # 2) * (q * (1 # (2 ^ 52)))) as E1.
  { assert (ulp_half == (1 # 2) * (1 # (2 ^ 52))) as -> by done. ring. }
  assert (tiny == (1 # 2) * (1 # (2 ^ 59))) as E2 by done. rewrite E1, E2.
  set (y := q * (1 # (2 ^ 52))) in *. set (z := 1 # (2 ^ 59)) in *. clearbody y z n x.
  split; nra.
Qed.

Lemma round64_error q b :
  - b <= q <= b -> q - (b * ulp_half + tiny) <= round64 q <= q + (b * ulp_half + tiny).
Proof.
  intros Hq. assert (0 <= ulp_half) by done. assert (0 <= tiny) by done.
  assert (forall x, x <= b -> x * ulp_half <= b * ulp_half) as Hb by (intros x Hx; nra).
  destruct (round64_cases q) as [[E ->]|[[E ->]|[E ->]]].
  - specialize (Hb 0 ltac:(lra)). lra.
  - pose proof (round_pos_error q E). specialize (Hb q ltac:(lra)). lra.
  - pose proof (round_pos_error (- q) ltac:(lra)). specialize (Hb (- q) ltac:(lra)). lra.
Qed.

(** ** The operations *)

Lemma f64_min_spec a b : f64_min a b <= a /\ f64_min a b <= b /\ (f64_min a b = a \/ f64_min a b = b).
Proof.
  unfold f64_min. destruct (Qle_bool a b) eqn:E.
  - apply Qle_bool_iff in E. split_and!; [lra | done | by left].
  - assert (~ a <= b) by (intros H; apply Qle_bool_iff in H; congruence). split_and!; [lra | lra | by right].
Qed.

Lemma f64_max_spec a b : a <= f64_max a b /\ b <= f64_max a b /\ (f64_max a b = a \/ f64_max a b = b).
Proof.
  unfold f64_max. destruct (Qle_bool a b) eqn:E.
  - apply Qle_bool_iff in E. split_and!; [done | lra | by right].
  - assert (~ a <= b) by (intros H; apply Qle_bool_iff in H; congruence). split_and!; [lra | lra | by left].
Qed.

Lemma f64_ltb_spec a b : f64_ltb a b = true <-> a < b.
Proof.
  unfold f64_ltb. rewrite negb_true_iff. split.
  - intros H. apply Qnot_le_lt. intros Hle. apply Qle_bool_iff in Hle. congruence.
  - intros H. destruct (Qle_bool b a) eqn:E; [|done]. apply Qle_bool_iff in E. lra.
Qed.

Lemma f64_ltb_ge a b : f64_ltb a b = false <-> b <= a.
Proof.
  unfold f64_ltb. rewrite negb_false_iff. apply Qle_bool_iff.
Qed.

Lemma round64_nonneg q : 0 <= q -> 0 <= round64 q.
Proof. intros Hq. pose proof (round64_le 0 q Hq). by change (round64 0) with 0 in *. Qed.

Lemma round64_above q x : rep x -> x <= q -> x <= round64 q.
Proof. intros Hx Hq. rewrite <- (round64_exact x Hx). by apply round64_le. Qed.

Lemma round64_below q x : rep x -> q <= x -> round64 q <= x.
Proof. intros Hx Hq. rewrite <- (round64_exact x Hx). by apply round64_le. Qed.

(** The comparison [x - n < 1.0] on a number [x] and an integer [n] *)
Lemma sub_at_least_one x n :
  rep x -> x < pow2 53 -> (0 <= n)%Z -> 1 <= f64_sub x (inject_Z n) -> inject_Z n + 1 <= x.
Proof.
  intros Hx Hb Hn H. unfold f64_sub in H. destruct (Qlt_le_dec x (inject_Z n)) as [Hlt|Hle].
  - exfalso. pose proof (round64_below (x - inject_Z n) 0 (rep_Z 0 eq_refl)). lra.
  - rewrite round64_exact in H; [lra | by apply rep_sub].
Qed.

(** The sum that is famously not three tenths *)
Example a_tenth_and_two : f64_add (round64 (1 # 10)) (round64 (2 # 10)) == 5404319552844596 # (2 ^ 54).
Proof. vm_compute. reflexivity. Qed.
