(* ===== verification/UpLimiter.v ===== *)
(** * Push limits
      (crates/daemons/pushd/src/consumers/outbound/up_limiter.rs)

    The limiter of UnifiedPush sends: token buckets per destination and per
    user of a destination, cooling subscriptions, and for every send a
    reservation on the rejections its destination may give us.  Every method
    holds the one lock from beginning to end, so it is one function on the
    state.  An instant is a number of nanoseconds; the waking of sends told to
    wait is not modelled. *)

From Stdlib Require Import QArith.
From stdpp Require Import base numbers list gmap strings sorting.
From S2P Require Import Prelude Float64.
Open Scope Z_scope.
Open Scope sloga_scope.

(** ** Limits *)

Definition NTFY_BURST : Q := 300.
Definition NTFY_REFILL_PER_SEC : Q := round64 (6 # 10).
Definition NTFY_MAX_IN_FLIGHT : Z := 4.
Definition NTFY_PAUSE_ON_503_SECS : Q := 300.
Definition NTFY_REJECT_BURST : Q := 20.
Definition NTFY_REJECT_REFILL_PER_SEC : Q := f64_div 1 15.
Definition NTFY_USER_BURST : Q := 30.
Definition NTFY_USER_REFILL_PER_SEC : Q := round64 (2 # 10).
Definition IP_BURST : Q := 300.
Definition IP_REFILL_PER_SEC : Q := 30.
Definition IP_MAX_IN_FLIGHT : Z := 20.
Definition IP_PAUSE_ON_503_SECS : Q := 0.
Definition IP_REJECT_BURST : Q := 20.
Definition IP_REJECT_REFILL_PER_SEC : Q := f64_div 1 15.
Definition USER_BURST : Q := 60.
Definition USER_REFILL_PER_SEC : Q := 3.
Definition USER_429_COOLDOWN_SECS : Q := 30.
Definition MAX_DEST_KEYS : Z := 4096.
Definition MAX_USER_KEYS : Z := 16384.
Definition MAX_SUB_KEYS : Z := 16384.
Definition SUB_COOLDOWN_BASE_SECS : Z := 300.
Definition SUB_COOLDOWN_MAX_SECS : Z := 3600.

(** [Duration::from_secs] *)
Definition from_secs (secs : Z) : Z := secs * 1000000000.

Definition REFUSAL_LOG_INTERVAL : Z := from_secs 3600.
Definition SUB_FORGET_AFTER : Z := from_secs 3600.
Definition MAX_OFFENDERS : nat := 16.
Definition TOP_OFFENDERS : nat := 3.

Module IpAddr.
Inductive t : Type := V4 (bits : Z) | V6 (bits : Z).
End IpAddr.

Module DestKey.
Inductive t : Type := Ntfy | Ip (addr : IpAddr.t).
End DestKey.

#[global] Instance addr_eq_dec : EqDecision IpAddr.t.
Proof. solve_decision. Defined.
#[global] Instance key_eq_dec : EqDecision DestKey.t.
Proof. solve_decision. Defined.

Definition key_code (k : DestKey.t) : option (Z + Z) :=
  match k with
  | DestKey.Ntfy => None
  | DestKey.Ip (IpAddr.V4 b) => Some (inl b)
  | DestKey.Ip (IpAddr.V6 b) => Some (inr b)
  end.

Definition key_of_code (c : option (Z + Z)) : DestKey.t :=
  match c with
  | None => DestKey.Ntfy
  | Some (inl b) => DestKey.Ip (IpAddr.V4 b)
  | Some (inr b) => DestKey.Ip (IpAddr.V6 b)
  end.

#[global] Instance key_countable : Countable DestKey.t.
Proof. apply (inj_countable' key_code key_of_code). by intros [|[]]. Defined.

Record DestLimits : Type := mkDestLimits {
  send_burst : Q;
  send_refill_per_sec : Q;
  reject_burst : Q;
  reject_refill_per_sec : Q;
  user_burst : Q;
  user_refill_per_sec : Q;
  max_in_flight : Z;
  pause_on_503_secs : Q;
}.

Record Rate : Type := mkRate { burst : Q; refill_per_sec : Q }.

Definition send_rate (l : DestLimits) : Rate := mkRate (send_burst l) (send_refill_per_sec l).
Definition reject_rate (l : DestLimits) : Rate := mkRate (reject_burst l) (reject_refill_per_sec l).
Definition user_rate (l : DestLimits) : Rate := mkRate (user_burst l) (user_refill_per_sec l).

Record UpLimits : Type := mkUpLimits {
  ntfy : DestLimits;
  generic : DestLimits;
  user_429_cooldown_secs : Q;
  max_dest_keys : Z;
  max_user_keys : Z;
  max_sub_keys : Z;
  sub_cooldown_base_secs : Z;
  sub_cooldown_max_secs : Z;
}.

Definition dest_limits (l : UpLimits) (key : DestKey.t) : DestLimits :=
  match key with DestKey.Ntfy => ntfy l | DestKey.Ip _ => generic l end.

Definition default_limits : UpLimits :=
  mkUpLimits
    (mkDestLimits NTFY_BURST NTFY_REFILL_PER_SEC NTFY_REJECT_BURST NTFY_REJECT_REFILL_PER_SEC NTFY_USER_BURST
       NTFY_USER_REFILL_PER_SEC NTFY_MAX_IN_FLIGHT NTFY_PAUSE_ON_503_SECS)
    (mkDestLimits IP_BURST IP_REFILL_PER_SEC IP_REJECT_BURST IP_REJECT_REFILL_PER_SEC USER_BURST
       USER_REFILL_PER_SEC IP_MAX_IN_FLIGHT IP_PAUSE_ON_503_SECS)
    USER_429_COOLDOWN_SECS MAX_DEST_KEYS MAX_USER_KEYS MAX_SUB_KEYS SUB_COOLDOWN_BASE_SECS SUB_COOLDOWN_MAX_SECS.

(** [UpLimiter::with]: each map keeps at least one entry. *)
Definition with_limits (l : UpLimits) : UpLimits :=
  mkUpLimits (ntfy l) (generic l) (user_429_cooldown_secs l) (Z.max (max_dest_keys l) 1) (Z.max (max_user_keys l) 1)
    (Z.max (max_sub_keys l) 1) (sub_cooldown_base_secs l) (sub_cooldown_max_secs l).

(** ** Buckets *)

(** [Duration::as_secs_f64] *)
Definition as_secs_f64 (nanos : Z) : Q :=
  f64_add (f64_of_Z (nanos / 1000000000)) (f64_div (f64_of_Z (nanos mod 1000000000)) (f64_of_Z 1000000000)).

(** [Instant::saturating_duration_since] *)
Definition saturating_since (now earlier : Z) : Z := Z.max 0 (now - earlier).

Record TokenBucket : Type := mkBucket { tokens : Q; last : Z; denied : bool }.

Definition full (rate : Rate) (now : Z) : TokenBucket := mkBucket (burst rate) now false.

Definition set_tokens (b : TokenBucket) (q : Q) : TokenBucket := mkBucket q (last b) (denied b).

Definition refill (rate : Rate) (now : Z) (self : TokenBucket) : TokenBucket :=
  let elapsed := as_secs_f64 (saturating_since now (last self)) in
  let tokens := f64_min (f64_add (tokens self) (f64_mul elapsed (refill_per_sec rate))) (burst rate) in
  mkBucket tokens (Z.max (last self) now) (if f64_ltb tokens 1 then denied self else false).

Definition is_full (rate : Rate) (self : TokenBucket) : bool := negb (f64_ltb (tokens self) (burst rate)).

Definition fullness (rate : Rate) (self : TokenBucket) : Q :=
  if f64_ltb 0 (burst rate) then f64_div (tokens self) (burst rate) else 1%Q.

Definition deny (self : TokenBucket) : TokenBucket * bool :=
  (mkBucket (tokens self) (last self) true, negb (denied self)).

(** ** Who sends and who is rejected most *)

Record Offender : Type := mkOffender { of_user_id : string; rejections : Z }.

Definition saturating_add_u32 (a b : Z) : Z := Z.min u32_max (a + b).

Definition count_one (o : Offender) : Offender := mkOffender (of_user_id o) (saturating_add_u32 (rejections o) 1).

(** [Iterator::min_by_key]: the position of the first smallest *)
Fixpoint smallest (l : list Offender) : option (nat * Offender) :=
  match l with
  | [] => None
  | o :: l =>
      match smallest l with
      | Some (i, x) => if rejections x <? rejections o then Some (S i, x) else Some (0%nat, o)
      | None => Some (0%nat, o)
      end
  end.

Definition record_offender (offenders : list Offender) (user_id : string) : list Offender :=
  match list_find (fun o => of_user_id o = user_id) offenders with
  | Some (i, o) => <[i := count_one o]> offenders
  | None =>
      if (length offenders <? MAX_OFFENDERS)%nat then offenders ++ [mkOffender user_id 1]
      else
        match smallest offenders with
        | Some (i, o) => <[i := mkOffender user_id (saturating_add_u32 (rejections o) 1)]> offenders
        | None => offenders
        end
  end.

(** Highest count first, then by user *)
Definition heavier (a b : Offender) : bool :=
  if rejections a =? rejections b then str_leb (of_user_id a) (of_user_id b) else rejections b <? rejections a.

Definition take_top (table : list Offender) : list Offender * Z :=
  (take TOP_OFFENDERS (sort_by heavier table), Z.of_nat (length table - TOP_OFFENDERS)).

Module Rejected.
Inductive t : Type := Counted | Paused (top : list Offender) (others : Z).
End Rejected.

Definition pause_report (offenders : list Offender) : Rejected.t :=
  let (top, others) := take_top offenders in Rejected.Paused top others.

(** ** Destinations *)

Record Dest : Type := mkDest {
  send : TokenBucket;
  reject : TokenBucket;
  in_flight : Z;
  offenders : list Offender;
  senders : list Offender;
  touched : Z;
  generation : Z;
}.

Definition dest_new (limits : DestLimits) (now generation : Z) : Dest :=
  mkDest (full (send_rate limits) now) (full (reject_rate limits) now) 0 [] [] 0 generation.

Definition dest_refill (limits : DestLimits) (now : Z) (d : Dest) : Dest :=
  mkDest (refill (send_rate limits) now (send d)) (refill (reject_rate limits) now (reject d)) (in_flight d)
    (offenders d) (senders d) (touched d) (generation d).

Definition set_touched (d : Dest) (calls : Z) : Dest :=
  mkDest (send d) (reject d) (in_flight d) (offenders d) (senders d) calls (generation d).

Definition set_reject (d : Dest) (b : TokenBucket) : Dest :=
  mkDest (send d) b (in_flight d) (offenders d) (senders d) (touched d) (generation d).

Definition set_send (d : Dest) (b : TokenBucket) : Dest :=
  mkDest b (reject d) (in_flight d) (offenders d) (senders d) (touched d) (generation d).

Definition paused (d : Dest) : bool := f64_ltb (tokens (reject d)) 1.

Definition protected (d : Dest) : bool := paused d || (0 <? in_flight d).

Definition idle_full (limits : DestLimits) (d : Dest) : bool :=
  is_full (send_rate limits) (send d) && is_full (reject_rate limits) (reject d) && (in_flight d =? 0)
  && negb (paused d).

Definition dest_fullness (limits : DestLimits) (d : Dest) : Q :=
  f64_min (fullness (send_rate limits) (send d)) (fullness (reject_rate limits) (reject d)).

Definition release_one (d : Dest) : Dest :=
  mkDest (send d) (reject d) (Z.max 0 (in_flight d - 1)) (offenders d) (senders d) (touched d) (generation d).

(** What is left of [before] after one rejection *)
Definition spend (limits : DestLimits) (pause : bool) (before : Q) : Q :=
  let spent := f64_max (f64_sub before 1) (f64_min before 0) in
  if pause then f64_min spent (- f64_mul (pause_on_503_secs limits) (reject_refill_per_sec limits)) else spent.

Definition reject_one (limits : DestLimits) (user_id : string) (pause : bool) (now : Z) (d : Dest)
    : Dest * Rejected.t :=
  let d := release_one d in
  let bucket := refill (reject_rate limits) now (reject d) in
  let before := tokens bucket in
  let after := spend limits pause before in
  let table := record_offender (offenders d) user_id in
  let report := negb (f64_ltb before 1) && f64_ltb after 1 in
  (mkDest (send d) (set_tokens bucket after) (in_flight d) (if report then [] else table) (senders d) (touched d)
     (generation d),
   if report then pause_report table else Rejected.Counted).

(** ** Users and subscriptions *)

Record UserEntry : Type := mkUserEntry { ue_bucket : TokenBucket; ue_touched : Z }.

Record SubEntry : Type := mkSubEntry {
  until : option Z;
  level_secs : Z;
  sub_denied : bool;
  refused_at : option Z;
}.

Definition new_sub : SubEntry := mkSubEntry None 0 false None.

Definition cooling (now : Z) (e : SubEntry) : bool :=
  match until e with Some until => now <? until | None => false end.

(** [Option::max]: [None] is the smallest. *)
Definition option_max (a b : option Z) : option Z :=
  match a, b with
  | Some x, Some y => Some (Z.max x y)
  | Some x, None => Some x
  | None, b => b
  end.

Definition sub_end (e : SubEntry) : option Z :=
  option_max (until e) ((fun at_ => at_ + REFUSAL_LOG_INTERVAL) <$> refused_at e).

Definition sub_deny (e : SubEntry) : SubEntry * bool :=
  (mkSubEntry (until e) (level_secs e) true (refused_at e), negb (sub_denied e)).

(** The next cooldown: [None] when a cooldown is on and is not extended *)
Definition next_level (limits : UpLimits) (prunes active : bool) (level : Z) : option Z :=
  if prunes then Some (sub_cooldown_max_secs limits)
  else if active then None
  else if level =? 0 then Some (sub_cooldown_base_secs limits)
  else Some (Z.min u64_max (level * 2)).

Definition cool (prunes : bool) (now : Z) (limits : UpLimits) (e : SubEntry) : SubEntry :=
  let active := cooling now e in
  match next_level limits prunes active (level_secs e) with
  | None => e
  | Some level =>
      let level := Z.min level (sub_cooldown_max_secs limits) in
      let ends := now + from_secs level in
      mkSubEntry (Some (match until e with Some current => Z.max current ends | None => ends end)) level
        (if active then sub_denied e else false) (refused_at e)
  end.

Definition clear_cooldown (e : SubEntry) : SubEntry * bool :=
  (mkSubEntry None 0 false (refused_at e), match refused_at e with None => true | Some _ => false end).

(** ** The state *)

Record State : Type := mkState {
  dests : gmap DestKey.t Dest;
  users : gmap (string * DestKey.t) UserEntry;
  subs : gmap Z SubEntry;
  calls : Z;
  generations : Z;
}.

Definition initial : State := mkState ∅ ∅ ∅ 0 0.

Definition set_dests (s : State) (v : gmap DestKey.t Dest) : State :=
  mkState v (users s) (subs s) (calls s) (generations s).
Definition set_users (s : State) (v : gmap (string * DestKey.t) UserEntry) : State :=
  mkState (dests s) v (subs s) (calls s) (generations s).
Definition set_subs (s : State) (v : gmap Z SubEntry) : State :=
  mkState (dests s) (users s) v (calls s) (generations s).

Definition wrapping_inc (n : Z) : Z := (n + 1) mod two64.

(** A new call *)
Definition count_call (s : State) : State :=
  mkState (dests s) (users s) (subs s) (wrapping_inc (calls s)) (generations s).

Record Ticket : Type := mkTicket { tk_user_id : string; tk_sub : Z; tk_key : DestKey.t; tk_generation : Z }.

Module Bucket.
Inductive t : Type := Ip | User | Paused | Subscription.
End Bucket.

Module Admit.
Inductive t : Type := Allowed (ticket : Ticket) | Wait | Denied (first : bool) (bucket : Bucket.t).
End Admit.

(** ** Making room *)

Definition evictable (key : DestKey.t) : bool := match key with DestKey.Ntfy => false | DestKey.Ip _ => true end.

(** [evict_first(a, b)] is [Greater]: the fullest goes first, then the one
    touched longest ago. *)
Definition evicted_later (a b : Q * Z) : bool :=
  f64_ltb a.1 b.1 || (Qeq_bool a.1 b.1 && (b.2 <? a.2)).

(** [Iterator::min_by] *)
Fixpoint min_from {A} (greater : A -> A -> bool) (best : A) (l : list A) : A :=
  match l with
  | [] => best
  | x :: l => min_from greater (if greater best x then x else best) l
  end.

Definition min_by {A} (greater : A -> A -> bool) (l : list A) : option A :=
  match l with [] => None | x :: l => Some (min_from greater x l) end.

(** [end] of one entry is after that of another; [None] comes first. *)
Definition ends_later (a b : option Z) : bool :=
  match a, b with
  | Some x, Some y => y <? x
  | Some _, None => true
  | None, _ => false
  end.

(** [while map.len() >= max { remove the victim }]; the fuel is the size of
    the map. *)
Fixpoint evict {K V} `{Countable K} (over : gmap K V -> bool) (victim : gmap K V -> option K) (fuel : nat)
    (m : gmap K V) : gmap K V :=
  match fuel with
  | O => m
  | S fuel =>
      if over m then
        match victim m with
        | Some k => evict over victim fuel (delete k m)
        | None => m
        end
      else m
  end.

Section Limiter.
Context `{!HashIter DestKey.t Dest, !HashIter (string * DestKey.t) UserEntry, !HashIter Z SubEntry}.
Context (limits : UpLimits).

Definition candidates (m : gmap DestKey.t Dest) : Z := Z.of_nat (length (List.filter evictable (hm_keys m))).

Definition all_protected (m : gmap DestKey.t Dest) : bool :=
  forallb (fun kv => protected kv.2) (List.filter (fun kv => evictable kv.1) (hm_iter m)).

Definition dest_score (kv : DestKey.t * Dest) : Q * Z :=
  (dest_fullness (dest_limits limits kv.1) kv.2, touched kv.2).

Definition dest_victim (m : gmap DestKey.t Dest) : option DestKey.t :=
  fst <$> min_by (fun a b => evicted_later (dest_score a) (dest_score b))
            (List.filter (fun kv => evictable kv.1 && (all_protected m || negb (protected kv.2))) (hm_iter m)).

Definition keep_dest (now : Z) (key : DestKey.t) (d : Dest) : option Dest :=
  let d := dest_refill (dest_limits limits key) now d in
  if negb (evictable key) || negb (idle_full (dest_limits limits key) d) then Some d else None.

Definition make_dest_room (now : Z) (m : gmap DestKey.t Dest) : gmap DestKey.t Dest :=
  if candidates m <? max_dest_keys limits then m
  else
    let m := map_imap (keep_dest now) m in
    evict (fun m => max_dest_keys limits <=? candidates m) dest_victim (size m) m.

(** The entry, refilled and touched, with the map it is now in and the number
    of entries ever made *)
Definition dest_for (key : DestKey.t) (now calls : Z) (m : gmap DestKey.t Dest) (generations : Z)
    : Dest * gmap DestKey.t Dest * Z :=
  let m := if evictable key && bool_decide (m !! key = None) then make_dest_room now m else m in
  let '(d, generations) :=
    match m !! key with
    | Some d => (d, generations)
    | None =>
        let generations := wrapping_inc generations in
        (dest_new (dest_limits limits key) now generations, generations)
    end in
  let d := set_touched (dest_refill (dest_limits limits key) now d) calls in
  (d, <[key := d]> m, generations).

Definition user_score (kv : (string * DestKey.t) * UserEntry) : Q * Z :=
  (fullness (user_rate (dest_limits limits kv.1.2)) (ue_bucket kv.2), ue_touched kv.2).

Definition user_victim (m : gmap (string * DestKey.t) UserEntry) : option (string * DestKey.t) :=
  fst <$> min_by (fun a b => evicted_later (user_score a) (user_score b)) (hm_iter m).

Definition keep_user (now : Z) (pair : string * DestKey.t) (e : UserEntry) : option UserEntry :=
  let rate := user_rate (dest_limits limits pair.2) in
  let bucket := refill rate now (ue_bucket e) in
  if is_full rate bucket then None else Some (mkUserEntry bucket (ue_touched e)).

Definition make_user_room (now : Z) (m : gmap (string * DestKey.t) UserEntry) : gmap (string * DestKey.t) UserEntry :=
  if Z.of_nat (size m) <? max_user_keys limits then m
  else
    let m := map_imap (keep_user now) m in
    evict (fun m => max_user_keys limits <=? Z.of_nat (size m)) user_victim (size m) m.

Definition user_for (user_id : string) (key : DestKey.t) (now calls : Z) (m : gmap (string * DestKey.t) UserEntry)
    : TokenBucket * gmap (string * DestKey.t) UserEntry :=
  let pair := (user_id, key) in
  let m := if bool_decide (m !! pair = None) then make_user_room now m else m in
  let rate := user_rate (dest_limits limits key) in
  let bucket := match m !! pair with Some e => ue_bucket e | None => full rate now end in
  let bucket := refill rate now bucket in
  (bucket, <[pair := mkUserEntry bucket calls]> m).

Definition keep_sub (now : Z) (sub : Z) (e : SubEntry) : option SubEntry :=
  match sub_end e with
  | Some ends => if saturating_since now ends <? SUB_FORGET_AFTER then Some e else None
  | None => None
  end.

Definition sub_victim (m : gmap Z SubEntry) : option Z :=
  fst <$> min_by (fun a b => ends_later (sub_end a.2) (sub_end b.2)) (hm_iter m).

Definition make_sub_room (now : Z) (m : gmap Z SubEntry) : gmap Z SubEntry :=
  if Z.of_nat (size m) <? max_sub_keys limits then m
  else
    let m := map_imap (keep_sub now) m in
    evict (fun m => max_sub_keys limits <=? Z.of_nat (size m)) sub_victim (size m) m.

Definition sub_entry (sub now : Z) (m : gmap Z SubEntry) : SubEntry * gmap Z SubEntry :=
  let m := if bool_decide (m !! sub = None) then make_sub_room now m else m in
  let e := default new_sub (m !! sub) in
  (e, <[sub := e]> m).

(** ** The methods *)

Definition admit_user (user_id : string) (sub : Z) (key : DestKey.t) (now : Z) (d : Dest) (s : State) : State * Admit.t :=
  let (user, m) := user_for user_id key now (calls s) (users s) in
  if f64_ltb (tokens user) 1 then
    let (user, first) := deny user in
    (set_users s (<[(user_id, key) := mkUserEntry user (calls s)]> m), Admit.Denied first Bucket.User)
  else
    let user := set_tokens user (f64_sub (tokens user) 1) in
    let d := mkDest (set_tokens (send d) (f64_sub (tokens (send d)) 1)) (reject d) (saturating_add_u32 (in_flight d) 1)
               (offenders d) (record_offender (senders d) user_id) (touched d) (generation d) in
    (set_users (set_dests s (<[key := d]> (dests s))) (<[(user_id, key) := mkUserEntry user (calls s)]> m),
     Admit.Allowed (mkTicket user_id sub key (generation d))).

Definition admit_dest (user_id : string) (sub : Z) (key : DestKey.t) (now : Z) (s : State) : State * Admit.t :=
  let '(d, m, generations) := dest_for key now (calls s) (dests s) (generations s) in
  let s := mkState m (users s) (subs s) (calls s) generations in
  if paused d then
    let (bucket, first) := deny (reject d) in
    (set_dests s (<[key := set_reject d bucket]> m), Admit.Denied first Bucket.Paused)
  else if (max_in_flight (dest_limits limits key) <=? in_flight d)
          || f64_ltb (f64_sub (tokens (reject d)) (f64_of_Z (in_flight d))) 1
  then (s, Admit.Wait)
  else if f64_ltb (tokens (send d)) 1 then
    let (bucket, first) := deny (send d) in
    (set_dests s (<[key := set_send d bucket]> m), Admit.Denied first Bucket.Ip)
  else admit_user user_id sub key now d s.

Definition admit_push (user_id : string) (sub : Z) (key : DestKey.t) (now : Z) (s : State) : State * Admit.t :=
  let s := count_call s in
  match subs s !! sub with
  | Some entry =>
      if cooling now entry then
        let (entry, first) := sub_deny entry in
        (set_subs s (<[sub := entry]> (subs s)), Admit.Denied first Bucket.Subscription)
      else admit_dest user_id sub key now s
  | None => admit_dest user_id sub key now s
  end.

Definition drain_user (user_id : string) (key : DestKey.t) (now : Z) (s : State) : State :=
  let s := count_call s in
  let (bucket, m) := user_for user_id key now (calls s) (users s) in
  let held := (- f64_mul (user_429_cooldown_secs limits) (user_refill_per_sec (dest_limits limits key)))%Q in
  set_users s (<[(user_id, key) := mkUserEntry (set_tokens bucket held) (calls s)]> m).

Definition top_senders (key : DestKey.t) (s : State) : State * (list Offender * Z) :=
  match dests s !! key with
  | Some d =>
      (set_dests s (<[key := mkDest (send d) (reject d) (in_flight d) (offenders d) [] (touched d) (generation d)]> (dests s)),
       take_top (senders d))
  | None => (s, ([], 0))
  end.

Definition first_refusal (sub now : Z) (s : State) : State * bool :=
  let (e, m) := sub_entry sub now (subs s) in
  let due := match refused_at e with
             | None => true
             | Some at_ => REFUSAL_LOG_INTERVAL <=? saturating_since now at_
             end in
  let e := if due then mkSubEntry (until e) (level_secs e) (sub_denied e) (Some now) else e in
  (set_subs s (<[sub := e]> m), due).

Definition live_dest (key : DestKey.t) (generation_ : Z) (m : gmap DestKey.t Dest) : option Dest :=
  match m !! key with
  | Some d => if generation d =? generation_ then Some d else None
  | None => None
  end.

Definition release_slot (key : DestKey.t) (generation_ : Z) (m : gmap DestKey.t Dest) : gmap DestKey.t Dest :=
  match live_dest key generation_ m with Some d => <[key := release_one d]> m | None => m end.

(** A ticket dropped without an outcome *)
Definition release (t : Ticket) (s : State) : State :=
  set_dests s (release_slot (tk_key t) (tk_generation t) (dests s)).

Definition complete_success (t : Ticket) (s : State) : State :=
  let s := set_dests s (release_slot (tk_key t) (tk_generation t) (dests s)) in
  match subs s !! tk_sub t with
  | Some e =>
      let (e, forgotten) := clear_cooldown e in
      set_subs s (if forgotten then delete (tk_sub t) (subs s) else <[tk_sub t := e]> (subs s))
  | None => s
  end.

Definition complete_rejected (t : Ticket) (prunes : bool) (status : option Z) (now : Z) (s : State)
    : State * Rejected.t :=
  let l := dest_limits limits (tk_key t) in
  let pause := bool_decide (status = Some 503) && f64_ltb 0 (pause_on_503_secs l) in
  let s := count_call s in
  let '(m, rejected) :=
    match live_dest (tk_key t) (tk_generation t) (dests s) with
    | Some d =>
        let (d, rejected) := reject_one l (tk_user_id t) pause now (set_touched d (calls s)) in
        (<[tk_key t := d]> (dests s), rejected)
    | None => (dests s, Rejected.Counted)
    end in
  let (e, sm) := sub_entry (tk_sub t) now (subs s) in
  (set_subs (set_dests s m) (<[tk_sub t := cool prunes now limits e]> sm), rejected).
End Limiter.
