(* ===== verification/UpBudget.v ===== *)
(** * Push limits: what a destination can see of us

    A destination that rejects too much bans us, so every send reserves a
    rejection.  Here any sequence of calls is run, with any number of sends in
    flight and completed in any order, and the rejections of a destination are
    counted. *)

From Stdlib Require Import QArith Lqa.
From stdpp Require Import base numbers list gmap strings sorting.
From S2P Require Import Prelude Float64 UpLimiter.
Open Scope Z_scope.
Open Scope sloga_scope.

(** ** A bucket that is refilled *)

Definition bucket_ok (rate : Rate) (b : TokenBucket) : Prop :=
  rep (tokens b) /\ (tokens b <= burst rate)%Q /\ (- inject_Z (2 ^ 21) <= tokens b)%Q.

Definition rate_ok (rate : Rate) : Prop :=
  rep (burst rate) /\ (1 <= burst rate <= inject_Z (2 ^ 20))%Q /\ (0 <= refill_per_sec rate <= inject_Z (2 ^ 20))%Q.

Definition secs (nanos : Z) : Q := (inject_Z nanos * (1 # 1000000000))%Q.

(** What a refill may add: what was earned, and the rounding *)
Definition credit (rate : Rate) (nanos : Z) : Q :=
  (refill_per_sec rate * secs nanos * (1 + (1 # 1125899906842624)) + (1 # 1073741824))%Q.

Local Open Scope Q_scope.

Lemma rounded_up q b : 0 <= q <= b -> 0 <= round64 q <= q + (b * ulp_half + tiny).
Proof.
  intros Hq. pose proof (round64_nonneg q ltac:(lra)). pose proof (round64_error q b ltac:(lra)). lra.
Qed.

(** One more rounding of a bound *)
Lemma widen e y k :
  0 <= e -> 0 <= k <= 4 -> y <= e + e * ulp_half + k * tiny -> y * ulp_half <= 2 * (e * ulp_half) + tiny.
Proof.
  intros He Hk Hy. assert (0 <= ulp_half <= 1 # 8) as [HU HU8] by done. assert (0 <= tiny) as HT by done.
  revert Hy HU HU8 HT. generalize ulp_half, tiny. intros U T Hy HU HU8 HT.
  assert (y * U <= (e + e * U + k * T) * U) as H1 by (by apply Qmult_le_compat_r).
  assert (0 <= e * U) as H2 by (by apply Qmult_le_0_compat).
  assert (e * U * U <= e * U * (1 # 8)) as H3 by nra.
  assert (0 <= k * T <= 4 * T) as [H4 H5] by (split; nra).
  assert (k * T * U <= k * T * (1 # 8)) as H6 by nra.
  lra.
Qed.

Lemma secs_split nanos :
  secs nanos == inject_Z (nanos / 1000000000) + inject_Z (nanos mod 1000000000) * (1 # 1000000000).
Proof.
  unfold secs. rewrite (Z.div_mod nanos 1000000000) at 1 by lia. rewrite inject_Z_plus, inject_Z_mult.
  change (inject_Z 1000000000) with (1000000000 # 1). ring.
Qed.

Lemma as_secs_bound nanos :
  (0 <= nanos)%Z -> 0 <= as_secs_f64 nanos <= secs nanos * (1 + 3 * ulp_half) + 4 * tiny.
Proof.
  intros Hn. rewrite secs_split. unfold as_secs_f64, f64_add, f64_div, f64_of_Z.
  set (sec := inject_Z (nanos / 1000000000)). set (frac := inject_Z (nanos mod 1000000000)).
  assert (0 <= sec) as Hsec.
  { unfold sec. change 0 with (inject_Z 0). rewrite <- Zle_Qle. apply Z.div_pos; lia. }
  pose proof (Z.mod_pos_bound nanos 1000000000 ltac:(lia)) as Hmod.
  assert (0 <= frac) as Hfrac by (unfold frac; change 0 with (inject_Z 0); rewrite <- Zle_Qle; lia).
  assert (round64 frac == frac) as E1 by (apply round64_exact, rep_Z; lia).
  assert (round64 (inject_Z 1000000000) == inject_Z 1000000000) as E2 by (apply round64_exact, rep_Z; lia).
  assert (frac / inject_Z 1000000000 == frac * (1 # 1000000000)) as E3 by (unfold Qdiv; reflexivity).
  rewrite E1, E2, E3. set (x := frac * (1 # 1000000000)).
  assert (0 <= x) as Hx by (unfold x; lra).
  pose proof (rounded_up sec sec ltac:(lra)) as H1. pose proof (rounded_up x x ltac:(lra)) as H2.
  set (a := round64 sec) in *. set (b := round64 x) in *.
  pose proof (rounded_up (a + b) (a + b) ltac:(lra)) as H3. set (r := round64 (a + b)) in *.
  split; [lra|]. pose proof (widen (sec + x) (a + b) 2 ltac:(lra) ltac:(lra) ltac:(lra)). lra.
Qed.

Lemma earned_bound nanos rate :
  (0 <= nanos)%Z -> rate_ok rate ->
  0 <= f64_mul (as_secs_f64 nanos) (refill_per_sec rate)
    <= refill_per_sec rate * secs nanos * (1 + 5 * ulp_half) + (1 # 68719476736).
Proof.
  intros Hn (_ & _ & Hr). pose proof (as_secs_bound nanos Hn) as [Hs0 Hs]. unfold f64_mul.
  assert (0 <= secs nanos) as HE.
  { unfold secs. assert (0 <= inject_Z nanos) by (change 0 with (inject_Z 0); by rewrite <- Zle_Qle). lra. }
  set (s := as_secs_f64 nanos) in *. set (r := refill_per_sec rate) in *. set (e := secs nanos) in *.
  assert (0 <= s * r) as Hsr by (apply Qmult_le_0_compat; lra).
  pose proof (rounded_up (s * r) (s * r) ltac:(lra)) as [H0 H1]. split; [done|].
  assert (s * r <= (e * (1 + 3 * ulp_half) + 4 * tiny) * r) as H2 by (apply Qmult_le_compat_r; [done | apply Hr]).
  assert (0 <= r * e) as Hre by (apply Qmult_le_0_compat; [apply Hr | done]).
  assert (tiny * r <= 1 # 1099511627776) as Ht.
  { assert (tiny * inject_Z (2 ^ 20) == 1 # 1099511627776) as <- by reflexivity. rewrite !(Qmult_comm tiny).
    apply Qmult_le_compat_r; [apply Hr | done]. }
  assert (s * r * ulp_half <= 2 * (r * e * ulp_half) + (1 # 274877906944)) as H3.
  { assert (0 <= ulp_half <= 1 # 8) as [HU0 HU] by done.
    assert (s * r * ulp_half <= (r * e * (1 + 3 * ulp_half) + 4 * (1 # 1099511627776)) * ulp_half) as H4
      by (apply Qmult_le_compat_r; [lra | done]).
    revert H4 HU0 HU. generalize ulp_half. set (re := r * e) in *. clearbody re. intros U H4 HU0 HU.
    assert (0 <= re * U) as H5 by (by apply Qmult_le_0_compat).
    assert (re * U * U <= re * U * (1 # 8)) as H6 by nra.
    lra. }
  assert (tiny <= 1 # 1099511627776) by done. lra.
Qed.

Lemma since_nonneg now earlier : (0 <= saturating_since now earlier)%Z.
Proof. unfold saturating_since. lia. Qed.

Lemma last_refill rate now b : last (refill rate now b) = (last b + saturating_since now (last b))%Z.
Proof. cbn. unfold saturating_since. lia. Qed.

(** A refill never takes tokens away, and adds at most the credit. *)
Lemma refill_ok rate now b :
  rate_ok rate -> bucket_ok rate b ->
  bucket_ok rate (refill rate now b) /\ tokens b <= tokens (refill rate now b) /\
  tokens (refill rate now b) <= tokens b + credit rate (saturating_since now (last b)).
Proof.
  intros Hrate (Hrep & Hle & Hge). pose proof (since_nonneg now (last b)) as Hn.
  set (n := saturating_since now (last b)) in *. pose proof (earned_bound n rate Hn Hrate) as [Hd0 Hd].
  destruct Hrate as (Hb & Hb1 & Hr).
  set (d := f64_mul (as_secs_f64 n) (refill_per_sec rate)) in *.
  set (t := tokens b) in *. pose proof (round64_above (t + d) t Hrep ltac:(lra)) as Hup.
  assert (round64 (t + d) <= t + credit rate n) as Hcr.
  { assert (inject_Z (2 ^ 20) == 1048576 # 1) as E20 by reflexivity.
    assert (inject_Z (2 ^ 21) == 2097152 # 1) as E21 by reflexivity. rewrite E20 in *. rewrite E21 in *.
    pose proof (round64_error (t + d) ((2097152 # 1) + d) ltac:(lra)) as [_ H1]. unfold credit.
    assert (0 <= secs n) as HE.
    { unfold secs. assert (0 <= inject_Z n) by (change 0 with (inject_Z 0); by rewrite <- Zle_Qle). lra. }
    assert (0 <= refill_per_sec rate * secs n) as Hre by (apply Qmult_le_0_compat; lra).
    set (re := refill_per_sec rate * secs n) in *. clearbody re.
    change ulp_half with (1 # 9007199254740992) in *. change tiny with (1 # 1152921504606846976) in *. lra. }
  pose proof (f64_min_spec (round64 (t + d)) (burst rate)) as (Hm1 & Hm2 & Hm3).
  set (m := f64_min (round64 (t + d)) (burst rate)) in *.
  assert (tokens (refill rate now b) = m) as Em by reflexivity. unfold bucket_ok. rewrite Em. split_and!.
  - destruct Hm3 as [-> | ->]; [apply round64_rep | done].
  - lra.
  - assert (0 <= inject_Z (2 ^ 21)) by done. destruct Hm3 as [-> | ->]; lra.
  - destruct Hm3 as [-> | ->]; lra.
  - lra.
Qed.

(** What a rejection takes *)
Lemma spend_ok l pause before :
  rep before -> before < pow2 53 ->
  rep (spend l pause before) /\
  (1 <= before -> spend l pause before <= before - 1) /\ (before < 1 -> spend l pause before <= 0).
Proof.
  intros Hrep Hb. unfold spend, f64_sub. pose proof (rep_Z 0 eq_refl) as R0. change (inject_Z 0) with 0 in R0.
  set (s := f64_max (round64 (before - 1)) (f64_min before 0)).
  assert (rep s /\ (1 <= before -> s <= before - 1) /\ (before < 1 -> s <= 0)) as (Hs & Hs1 & Hs2).
  { pose proof (f64_max_spec (round64 (before - 1)) (f64_min before 0)) as (_ & _ & Hm). fold s in Hm.
    pose proof (f64_min_spec before 0) as (Hn1 & Hn2 & Hn). split_and!.
    - destruct Hm as [-> | ->]; [apply round64_rep|]. by destruct Hn as [-> | ->].
    - intros H1. assert (round64 (before - 1) == before - 1) as E.
      { apply round64_exact. change 1 with (inject_Z 1). apply rep_sub; [done | lia | done | done]. }
      destruct Hm as [-> | ->]; [rewrite E|]; lra.
    - intros H1. pose proof (round64_below (before - 1) 0 R0 ltac:(lra)). destruct Hm as [-> | ->]; lra. }
  destruct pause; [|done].
  pose proof (f64_min_spec s (- f64_mul (pause_on_503_secs l) (reject_refill_per_sec l))) as (Hm1 & _ & Hm).
  split_and!; [destruct Hm as [-> | ->]; [done | apply rep_opp, round64_rep] | intros H1; specialize (Hs1 H1); lra|].
  intros H1. specialize (Hs2 H1). lra.
Qed.

Lemma spend_ge l pause before x :
  f64_mul (pause_on_503_secs l) (reject_refill_per_sec l) <= x -> 0 <= x -> - x <= before ->
  - x <= spend l pause before.
Proof.
  intros Hp Hx Hb. unfold spend. set (s := f64_max _ _).
  assert (- x <= s) as Hs.
  { pose proof (f64_max_spec (f64_sub before 1) (f64_min before 0)) as (_ & Hm & _). fold s in Hm.
    pose proof (f64_min_spec before 0) as (_ & _ & [E|E]); rewrite E in Hm; lra. }
  destruct pause; [|done]. destruct (f64_min_spec s (- f64_mul (pause_on_503_secs l) (reject_refill_per_sec l)))
    as (_ & _ & [-> | ->]); lra.
Qed.

Local Close Scope Q_scope.

(** ** Making room *)

Section Maps.
Context {K V : Type} `{Countable K}.
Implicit Types m : gmap K V.

Lemma evict_subset over victim fuel : forall m, evict over victim fuel m ⊆ m.
Proof.
  induction fuel as [|fuel IH]; intros m; cbn [evict]; [done|]. destruct (over m); [|done].
  destruct (victim m) as [k|]; [|done]. etrans; [apply IH | apply delete_subseteq].
Qed.

(** What the victim is never is, stays. *)
Lemma evict_keeps over victim k fuel : forall m,
  (forall m, victim m <> Some k) -> evict over victim fuel m !! k = m !! k.
Proof.
  induction fuel as [|fuel IH]; intros m Hk; cbn [evict]; [done|]. destruct (over m); [|done].
  destruct (victim m) as [k'|] eqn:Ev; [|done]. rewrite IH by done. apply lookup_delete_ne. intros ->. by apply (Hk m).
Qed.
End Maps.

Lemma min_from_in {A} (greater : A -> A -> bool) l : forall best, min_from greater best l ∈ best :: l.
Proof.
  induction l as [|x l IH]; intros best; cbn [min_from]; [by left|].
  specialize (IH (if greater best x then x else best)). destruct (greater best x); set_solver.
Qed.

Lemma min_by_in {A} (greater : A -> A -> bool) l x : min_by greater l = Some x -> x ∈ l.
Proof. destruct l as [|y l]; [done|]. intros [= <-]. apply min_from_in. Qed.

(** ** Any sequence of calls *)

Module Op.
Inductive t : Type :=
| Admit (user_id : string) (sub : Z) (key : DestKey.t) (now : Z)
| Success (i : nat)
| Rejected (i : nat) (prunes : bool) (status : option Z) (now : Z)
| Drop (i : nat)
| Drain (user_id : string) (key : DestKey.t) (now : Z)
| TopSenders (key : DestKey.t)
| FirstRefusal (sub now : Z).
End Op.

(** The limiter and the tickets that are out *)
Record Sys : Type := mkSys { st : State; out : list Ticket }.

Definition is_ticket (key : DestKey.t) (g : Z) (t : Ticket) : bool :=
  bool_decide (tk_key t = key) && (tk_generation t =? g).

Definition tickets (key : DestKey.t) (g : Z) (l : list Ticket) : Z := Z.of_nat (length (List.filter (is_ticket key g) l)).

(** ** The budget of an entry *)

(** What the budget of rejections depends on *)
Definition budget (d : Dest) : Q * Z * Z * Z := (tokens (reject d), last (reject d), in_flight d, generation d).

(** [moves l d n r d']: the entry goes from [d] to [d'], [n] more tickets are
    out on it and [r] rejections were counted. *)
Inductive moves (l : DestLimits) (d : Dest) : Z -> Z -> Dest -> Prop :=
| moves_same d' : budget d' = budget d -> moves l d 0 0 d'
| moves_refill now d' : budget d' = budget (dest_refill l now d) -> moves l d 0 0 d'
| moves_admit now d' :
    let b := refill (reject_rate l) now (reject d) in
    in_flight d < max_in_flight l -> f64_ltb (f64_sub (tokens b) (f64_of_Z (in_flight d))) 1 = false ->
    budget d' = (tokens b, last b, saturating_add_u32 (in_flight d) 1, generation d) -> moves l d 1 0 d'
| moves_release d' : budget d' = budget (release_one d) -> moves l d (-1) 0 d'
| moves_reject user_id pause now d' :
    budget d' = budget (reject_one l user_id pause now d).1 -> moves l d (-1) 1 d'.

(** Sends in flight, or tokens if there are more: what it can still take *)
Definition potential (d : Dest) : Q := f64_max (inject_Z (in_flight d)) (tokens (reject d)).

Definition limits_ok (l : DestLimits) : Prop :=
  rate_ok (reject_rate l) /\ (f64_mul (pause_on_503_secs l) (reject_refill_per_sec l) <= inject_Z (2 ^ 21))%Q.

Definition dest_ok (l : DestLimits) (d : Dest) : Prop :=
  bucket_ok (reject_rate l) (reject d) /\ 0 <= in_flight d /\ (inject_Z (in_flight d) <= reject_burst l)%Q.

(** What a move does to a good entry *)
Definition accounted (l : DestLimits) (d : Dest) (n r : Z) (d' : Dest) : Prop :=
  dest_ok l d' /\ in_flight d' = in_flight d + n /\ generation d' = generation d /\
  last (reject d) <= last (reject d') /\
  (inject_Z r + potential d' <= potential d + credit (reject_rate l) (last (reject d') - last (reject d)))%Q.

Lemma accounted_budget l d n r d1 d2 : budget d1 = budget d2 -> accounted l d n r d2 -> accounted l d n r d1.
Proof.
  unfold budget, accounted, dest_ok, bucket_ok, potential. intros [= -> -> -> ->]. done.
Qed.

Section Moves.
Context (l : DestLimits) (Hl : limits_ok l) (d : Dest) (Hd : dest_ok l d).
Local Open Scope Q_scope.

Lemma credit_nonneg n : (0 <= n)%Z -> 0 <= credit (reject_rate l) n.
Proof.
  intros Hn. unfold credit, secs. destruct Hl as ((_ & _ & Hr) & _).
  assert (0 <= inject_Z n) as H0 by (change 0 with (inject_Z 0); by rewrite <- Zle_Qle).
  assert (0 <= refill_per_sec (reject_rate l) * (inject_Z n * (1 # 1000000000))) by (apply Qmult_le_0_compat; lra). lra.
Qed.

Lemma below_53 t : t <= reject_burst l -> t < pow2 53.
Proof.
  intros Ht. destruct Hl as ((_ & Hb & _) & _). cbn in Hb.
  assert (inject_Z (2 ^ 20) < pow2 53) by done. lra.
Qed.

Lemma refill_accounted now : accounted l d 0 0 (dest_refill l now d).
Proof.
  destruct Hd as (Hb & Hf & Hfb). destruct (refill_ok (reject_rate l) now (reject d) (proj1 Hl) Hb) as (Hb' & H1 & H2).
  assert (last (reject (dest_refill l now d)) - last (reject d) = saturating_since now (last (reject d)))%Z as El.
  { change (reject (dest_refill l now d)) with (refill (reject_rate l) now (reject d)). rewrite last_refill. lia. }
  pose proof (since_nonneg now (last (reject d))).
  split; [done|]. split; [cbn; lia|]. split; [done|]. split; [lia|]. rewrite El. unfold potential.
  change (reject (dest_refill l now d)) with (refill (reject_rate l) now (reject d)). change (inject_Z 0) with 0.
  change (in_flight (dest_refill l now d)) with (in_flight d).
  pose proof (credit_nonneg (saturating_since now (last (reject d))) ltac:(done)).
  destruct (f64_max_spec (inject_Z (in_flight d)) (tokens (reject d))) as (Ha & Hb2 & _).
  destruct (f64_max_spec (inject_Z (in_flight d)) (tokens (refill (reject_rate l) now (reject d)))) as (_ & _ & [-> | ->]); lra.
Qed.

Lemma admit_accounted now d' :
  let b := refill (reject_rate l) now (reject d) in
  f64_ltb (f64_sub (tokens b) (f64_of_Z (in_flight d))) 1 = false ->
  budget d' = (tokens b, last b, saturating_add_u32 (in_flight d) 1, generation d) -> accounted l d 1 0 d'.
Proof.
  intros b Hres Eb. destruct (refill_accounted now) as ((Hb & _) & _ & _ & Hlast & Hpot).
  unfold potential in Hpot. change (reject (dest_refill l now d)) with b in Hb, Hlast, Hpot. destruct Hd as (_ & Hf & Hfb).
  destruct Hb as (Hrep & Hble & Hbge). cbn [burst reject_rate] in Hble. destruct Hl as ((_ & H20 & _) & _). cbn [burst reject_rate] in H20.
  assert (in_flight d <= 2 ^ 20)%Z as Hf20 by (rewrite Zle_Qle; lra).
  assert (f64_of_Z (in_flight d) == inject_Z (in_flight d)) as En by (apply round64_exact, rep_Z; lia).
  apply f64_ltb_ge in Hres. unfold f64_sub in Hres. rewrite En in Hres.
  apply sub_at_least_one in Hres; [|done | by apply below_53 | done].
  assert (saturating_add_u32 (in_flight d) 1 = in_flight d + 1)%Z as Es by (unfold saturating_add_u32, u32_max; lia).
  assert (tokens (reject d') = tokens b /\ last (reject d') = last b /\ in_flight d' = (in_flight d + 1)%Z /\
          generation d' = generation d) as (E1 & E2 & E3 & E4) by (unfold budget in Eb; rewrite Es in Eb; split_and!; congruence).
  unfold accounted, dest_ok, bucket_ok, potential in *. rewrite E1, E2, E3, E4.
  assert (inject_Z (in_flight d + 1) == inject_Z (in_flight d) + 1) as E by (rewrite inject_Z_plus; reflexivity).
  split; [split_and!; [done | done | done | lia | rewrite E; lra]|]. split; [lia|]. split; [done|]. split; [lia|].
  change (in_flight (dest_refill l now d)) with (in_flight d) in Hpot. change (inject_Z 0) with 0 in *.
  destruct (f64_max_spec (inject_Z (in_flight d)) (tokens b)) as (_ & Hm & _).
  destruct (f64_max_spec (inject_Z (in_flight d + 1)) (tokens b)) as (_ & _ & [-> | ->]); [rewrite E|]; lra.
Qed.

Lemma release_accounted : (1 <= in_flight d)%Z -> accounted l d (-1) 0 (release_one d).
Proof.
  intros Hf. destruct Hd as (Hb & _ & Hfb). unfold accounted, dest_ok, potential. cbn [release_one in_flight reject generation].
  replace (Z.max 0 (in_flight d - 1)) with (in_flight d - 1)%Z by lia.
  assert (inject_Z (in_flight d - 1) == inject_Z (in_flight d) - 1) as E.
  { unfold Z.sub. rewrite inject_Z_plus. reflexivity. }
  split; [split_and!; [done | lia | rewrite E; lra]|].
  split; [lia|]. split; [done|]. split; [lia|]. pose proof (credit_nonneg (last (reject d) - last (reject d)) ltac:(lia)).
  change (inject_Z 0) with 0. destruct (f64_max_spec (inject_Z (in_flight d)) (tokens (reject d))) as (Ha & Hb2 & _).
  destruct (f64_max_spec (inject_Z (in_flight d - 1)) (tokens (reject d))) as (_ & _ & [-> | ->]); [rewrite E|]; lra.
Qed.

Lemma reject_accounted user_id pause now :
  (1 <= in_flight d)%Z -> accounted l d (-1) 1 (reject_one l user_id pause now d).1.
Proof.
  intros Hf. destruct (refill_accounted now) as ((Hb & _) & _ & _ & Hlast & Hpot).
  set (b := refill (reject_rate l) now (reject d)) in *.
  unfold potential in Hpot. change (reject (dest_refill l now d)) with b in Hb, Hlast, Hpot. destruct Hb as (Hrep & Hble & Hbge).
  destruct Hd as (_ & _ & Hfb). destruct (spend_ok l pause (tokens b) Hrep (below_53 _ Hble)) as (Hs & Hs1 & Hs2).
  pose proof (spend_ge l pause (tokens b) (inject_Z (2 ^ 21)) (proj2 Hl) ltac:(done) Hbge) as Hge.
  set (t := spend l pause (tokens b)) in *. destruct Hl as ((_ & Hb1 & _) & _). cbn [burst reject_rate] in *.
  apply (accounted_budget _ _ _ _ _ (mkDest (send d) (set_tokens b t) (in_flight d - 1)%Z [] [] 0 (generation d))).
  { cbn. unfold budget. cbn. replace (Z.max 0 (in_flight d - 1)) with (in_flight d - 1)%Z by lia. done. }
  unfold accounted, dest_ok, bucket_ok, potential in *. cbn [in_flight reject generation set_tokens tokens last burst reject_rate].
  assert (inject_Z (in_flight d - 1) == inject_Z (in_flight d) - 1) as E.
  { unfold Z.sub. rewrite inject_Z_plus. reflexivity. }
  assert (1 <= inject_Z (in_flight d)) as Hf1 by (change 1 with (inject_Z 1); by rewrite <- Zle_Qle).
  change (in_flight (dest_refill l now d)) with (in_flight d) in Hpot. change (inject_Z 0) with 0 in *. change (inject_Z 1) with 1 in *.
  assert (t <= reject_burst l) as Ht by (destruct (Qlt_le_dec (tokens b) 1) as [H|H]; [specialize (Hs2 H) | specialize (Hs1 H)]; lra).
  split; [split_and!; [done | done | done | lia | rewrite E; lra]|]. split; [lia|]. split; [done|]. split; [lia|].
  destruct (f64_max_spec (inject_Z (in_flight d)) (tokens b)) as (Ha & Hm & _).
  destruct (f64_max_spec (inject_Z (in_flight d - 1)) t) as (_ & _ & [-> | ->]); [rewrite E; lra|].
  destruct (Qlt_le_dec (tokens b) 1) as [H|H]; [specialize (Hs2 H) | specialize (Hs1 H)]; lra.
Qed.

Lemma moves_accounted n r d' :
  moves l d n r d' -> (n = (-1)%Z -> (1 <= in_flight d)%Z) -> accounted l d n r d'.
Proof.
  intros Hm Hf. destruct Hm as [d' E|now d' E|now d' b _ Hres E|d' E|user_id pause now d' E].
  - apply (accounted_budget _ _ _ _ _ d E). split; [done|]. split; [lia|]. split; [done|]. split; [lia|].
    pose proof (credit_nonneg (last (reject d) - last (reject d)) ltac:(lia)). change (inject_Z 0) with 0. lra.
  - apply (accounted_budget _ _ _ _ _ _ E), refill_accounted.
  - by eapply admit_accounted.
  - apply (accounted_budget _ _ _ _ _ _ E). by apply release_accounted, Hf.
  - apply (accounted_budget _ _ _ _ _ _ E). by apply reject_accounted, Hf.
Qed.
End Moves.

Section Calls.
Context `{!HashIter DestKey.t Dest, !HashIter (string * DestKey.t) UserEntry, !HashIter Z SubEntry}.
Context (limits : UpLimits).

Definition step (x : Sys) (o : Op.t) : Sys :=
  match o with
  | Op.Admit user_id sub key now =>
      match admit_push limits user_id sub key now (st x) with
      | (s, Admit.Allowed t) => mkSys s (t :: out x)
      | (s, _) => mkSys s (out x)
      end
  | Op.Success i =>
      match out x !! i with
      | Some t => mkSys (complete_success t (st x)) (delete i (out x))
      | None => x
      end
  | Op.Rejected i prunes status now =>
      match out x !! i with
      | Some t => mkSys (complete_rejected limits t prunes status now (st x)).1 (delete i (out x))
      | None => x
      end
  | Op.Drop i =>
      match out x !! i with
      | Some t => mkSys (release t (st x)) (delete i (out x))
      | None => x
      end
  | Op.Drain user_id key now => mkSys (drain_user limits user_id key now (st x)) (out x)
  | Op.TopSenders key => mkSys (top_senders key (st x)).1 (out x)
  | Op.FirstRefusal sub now => mkSys (first_refusal limits sub now (st x)).1 (out x)
  end.

Definition steps (x : Sys) (ops : list Op.t) : Sys := foldl step x ops.

Definition idle : Sys := mkSys initial [].

(** Whether this call is a rejection of a send to this entry *)
Definition rejects (key : DestKey.t) (g : Z) (x : Sys) (o : Op.t) : Z :=
  match o with
  | Op.Rejected i _ _ _ =>
      match out x !! i with Some t => if is_ticket key g t then 1 else 0 | None => 0 end
  | _ => 0
  end.

Fixpoint rejections_of (key : DestKey.t) (g : Z) (x : Sys) (ops : list Op.t) : Z :=
  match ops with
  | [] => 0
  | o :: ops => rejects key g x o + rejections_of key g (step x o) ops
  end.

(** ** Entries *)

Lemma dest_victim_evictable m k : dest_victim limits m = Some k -> evictable k = true.
Proof.
  unfold dest_victim. intros Hv. apply fmap_Some in Hv as ([k' d] & Hm & ->). apply min_by_in in Hm.
  apply elem_of_filter_bool in Hm as [Hm _]. by apply andb_true_iff in Hm as [? _].
Qed.

(** Making room leaves an entry as it is or refills it, or removes it. *)
Lemma room_entry now m k d' :
  make_dest_room limits now m !! k = Some d' ->
  exists d, m !! k = Some d /\ (d' = d \/ d' = dest_refill (dest_limits limits k) now d).
Proof.
  unfold make_dest_room. destruct (candidates m <? _); [by exists d'; eauto|]. intros Hk.
  eapply lookup_weaken in Hk; [|apply evict_subset]. rewrite map_lookup_imap in Hk.
  destruct (m !! k) as [d|]; [|done]. cbn in Hk. unfold keep_dest in Hk. case_match; [|done].
  injection Hk as <-. eauto.
Qed.

(** That of ntfy.sh is never removed. *)
Lemma room_keeps_ntfy now m d :
  m !! DestKey.Ntfy = Some d -> exists d', make_dest_room limits now m !! DestKey.Ntfy = Some d'.
Proof.
  intros Hd. unfold make_dest_room. destruct (candidates m <? _); [by exists d|].
  rewrite evict_keeps; [rewrite map_lookup_imap, Hd; by eexists|].
  intros m' Hv. by apply dest_victim_evictable in Hv.
Qed.

Lemma dest_for_entry key now calls m gens d m' gens' :
  dest_for limits key now calls m gens = (d, m', gens') ->
  exists d0, d = set_touched (dest_refill (dest_limits limits key) now d0) calls /\
    ((m !! key = Some d0 /\ gens' = gens) \/
     (m !! key = None /\ gens' = wrapping_inc gens /\ d0 = dest_new (dest_limits limits key) now gens')) /\
    m' !! key = Some d /\
    forall k e, k <> key -> m' !! k = Some e ->
      exists e0, m !! k = Some e0 /\ (e = e0 \/ e = dest_refill (dest_limits limits k) now e0).
Proof.
  unfold dest_for. set (m1 := if evictable key && _ then _ else m).
  assert (forall k e, m1 !! k = Some e -> exists e0, m !! k = Some e0 /\ (e = e0 \/ e = dest_refill (dest_limits limits k) now e0))
    as Hm1 by (unfold m1; case_match; [apply room_entry | eauto]).
  destruct (m1 !! key) as [d0|] eqn:Ed.
  - intros [= <- <- <-]. exists d0. split_and!; [done| |apply lookup_insert_eq|].
    + left. split; [|done]. unfold m1 in Ed. case_match eqn:Eb; [|done].
      apply andb_true_iff in Eb as [_ Eb%bool_decide_eq_true]. apply Hm1 in Ed as (? & ? & _). congruence.
    + intros k e Hk. rewrite lookup_insert_ne by done. apply Hm1.
  - intros [= <- <- <-]. eexists. split_and!; [done| |apply lookup_insert_eq|].
    + right. split; [|done]. unfold m1 in Ed. case_match eqn:Eb; [|done].
      by apply andb_true_iff in Eb as [_ Eb%bool_decide_eq_true].
    + intros k e Hk. rewrite lookup_insert_ne by done. apply Hm1.
Qed.

(** *** How calls move an entry *)

Lemma admit_dest_shape user_id sub k now s s' r :
  admit_dest limits user_id sub k now s = (s', r) ->
  exists d m e, dest_for limits k now (calls s) (dests s) (generations s) = (d, m, generations s') /\
    dests s' = <[k := e]> m /\
    ((budget e = budget d /\ forall t, r <> Admit.Allowed t) \/
     (in_flight d < max_in_flight (dest_limits limits k) /\
      f64_ltb (f64_sub (tokens (reject d)) (f64_of_Z (in_flight d))) 1 = false /\
      budget e = (tokens (reject d), last (reject d), saturating_add_u32 (in_flight d) 1, generation d) /\
      r = Admit.Allowed (mkTicket user_id sub k (generation d)))).
Proof.
  unfold admit_dest. destruct (dest_for _ _ _ _ _ _) as [[d m] gens] eqn:Ed. intros E. exists d, m.
  destruct (paused d); [injection E as <- <-; eexists; split_and!; [done | done | by left]|].
  destruct (_ || _) eqn:Ew.
  { injection E as <- <-. exists d. split_and!; [done | | by left]. symmetry. apply insert_id.
    by apply dest_for_entry in Ed as (? & _ & _ & ? & _). }
  apply orb_false_iff in Ew as [Ew1%Z.leb_gt Ew2].
  destruct (f64_ltb (tokens (send d)) 1); [injection E as <- <-; eexists; split_and!; [done | done | by left]|].
  unfold admit_user in E. destruct (user_for _ _ _ _ _ _) as [user um].
  destruct (f64_ltb (tokens user) 1); injection E as <- <-.
  - exists d. split_and!; [done | | by left]. symmetry. apply insert_id.
    by apply dest_for_entry in Ed as (? & _ & _ & ? & _).
  - eexists. split_and!; [done | done | right]. by split_and!.
Qed.

Lemma tickets_cons key g t l : tickets key g (t :: l) = (if is_ticket key g t then 1 else 0) + tickets key g l.
Proof. unfold tickets. cbn [List.filter]. destruct (is_ticket key g t); cbn [length]; lia. Qed.

Lemma tickets_delete key g l i t :
  l !! i = Some t -> tickets key g (delete i l) = tickets key g l - (if is_ticket key g t then 1 else 0).
Proof.
  revert i. induction l as [|x l IH]; intros [|i] Hi; [done|done| |].
  - injection Hi as ->. change (delete 0%nat (t :: l)) with l. rewrite tickets_cons. lia.
  - change (delete (S i) (x :: l)) with (x :: delete i l). rewrite !tickets_cons, (IH i) by done. lia.
Qed.

(** The entry before a call: the stored one, or the new one of this call *)
Definition entry_before (key : DestKey.t) (s s' : State) (d : Dest) : Prop :=
  dests s !! key = Some d \/
  (dests s !! key = None /\ generations s' = wrapping_inc (generations s) /\
   exists now, d = dest_new (dest_limits limits key) now (generations s')).

Definition entry_moves (key : DestKey.t) (x x' : Sys) (r : Dest -> Z) (d' : Dest) : Prop :=
  exists d n, entry_before key (st x) (st x') d /\ moves (dest_limits limits key) d n (r d) d' /\
    tickets key (generation d) (out x') = tickets key (generation d) (out x) + n.

Lemma unmoved key x x' d' :
  out x' = out x -> dests (st x) !! key = Some d' -> entry_moves key x x' (fun _ => 0) d'.
Proof. intros Eo Hd. exists d', 0. rewrite Eo. split_and!; [by left | by constructor | lia]. Qed.

Lemma admit_moves user_id sub k now x key d' :
  dests (st (step x (Op.Admit user_id sub k now))) !! key = Some d' ->
  entry_moves key x (step x (Op.Admit user_id sub k now)) (fun _ => 0) d'.
Proof.
  cbn [step]. unfold admit_push. set (s := count_call (st x)).
  assert (forall s' r, admit_dest limits user_id sub k now s = (s', r) ->
    let x' := match r with Admit.Allowed t => mkSys s' (t :: out x) | _ => mkSys s' (out x) end in
    dests (st x') !! key = Some d' -> entry_moves key x x' (fun _ => 0) d') as Hdest.
  { intros s' r Ea. apply admit_dest_shape in Ea as (d & m & e & Ef & Em & Hr). intros x'.
    assert (st x' = s') as Es by (unfold x'; by destruct r). rewrite Es, Em.
    apply dest_for_entry in Ef as (d0 & Ed & Hd0 & Hm & Hothers). unfold entry_moves. rewrite Es.
    assert (tickets key (generation d) (out x') = tickets key (generation d) (out x) +
              match r with Admit.Allowed t => if is_ticket key (generation d) t then 1 else 0 | _ => 0 end) as Et.
    { unfold x'. destruct r; cbn [out]; [rewrite tickets_cons|..]; lia. }
    destruct (decide (k = key)) as [->|Hne].
    - rewrite lookup_insert_eq. intros [= ->]. assert (generation d0 = generation d) as Eg by by rewrite Ed.
      destruct Hr as [[He Hno]|(Hf & Hres & He & ->)].
      + exists d0, 0. rewrite Eg, Et. split_and!.
        * destruct Hd0 as [[? ?]|(? & ? & ?)]; [by left | right; eauto].
        * apply (moves_refill _ _ now). rewrite He, Ed. done.
        * destruct r as [t| |]; [by destruct (Hno t) | lia | lia].
      + exists d0, 1. rewrite Eg, Et. split_and!.
        * destruct Hd0 as [[? ?]|(? & ? & ?)]; [by left | right; eauto].
        * apply (moves_admit _ _ now); rewrite Ed in Hf, Hres, He; done.
        * unfold is_ticket. cbn. rewrite bool_decide_true, Z.eqb_refl by done. cbn. lia.
    - rewrite lookup_insert_ne by done. intros Hk. destruct (Hothers _ _ (not_eq_sym Hne) Hk) as (e0 & He0 & Hcases).
      exists e0, 0. split_and!; [by left | |].
      + destruct Hcases as [-> | ->]; [by constructor | by eapply moves_refill].
      + unfold x'. destruct Hr as [[_ Hno]|(_ & _ & _ & ->)].
        * destruct r as [t| |]; [by destruct (Hno t) | cbn; lia | cbn; lia].
        * cbn [out]. rewrite tickets_cons. unfold is_ticket at 1. cbn. rewrite bool_decide_false by done. cbn. lia. }
  destruct (subs s !! sub) as [entry|]; [destruct (cooling now entry)|];
    [intros Hd; by apply unmoved | | ];
    (destruct (admit_dest limits user_id sub k now s) as [s' r] eqn:Ea; specialize (Hdest s' r eq_refl);
     destruct r; exact Hdest).
Qed.
(** A ticket is given back, and its entry goes from [d] to [f d]. *)
Lemma given_back x x' t i key f r d' :
  out x !! i = Some t -> out x' = delete i (out x) ->
  dests (st x') = match live_dest (tk_key t) (tk_generation t) (dests (st x)) with
                  | Some d => <[tk_key t := f d]> (dests (st x))
                  | None => dests (st x)
                  end ->
  (forall d, is_ticket key (generation d) t = true -> moves (dest_limits limits key) d (-1) (r d) (f d)) ->
  (forall d, is_ticket key (generation d) t = false -> r d = 0) ->
  dests (st x') !! key = Some d' -> entry_moves key x x' r d'.
Proof.
  intros Hi Eo Ed Hmove Hr. rewrite Ed. unfold live_dest, entry_moves. rewrite Eo.
  assert (forall d, is_ticket key (generation d) t = false -> dests (st x) !! key = Some d ->
    exists d0 n, entry_before key (st x) (st x') d0 /\ moves (dest_limits limits key) d0 n (r d0) d /\
      tickets key (generation d0) (delete i (out x)) = tickets key (generation d0) (out x) + n) as Hother.
  { intros d Ht Hd. exists d, 0. rewrite (Hr d Ht). split_and!; [by left | by constructor|].
    rewrite (tickets_delete _ _ _ _ _ Hi), Ht. lia. }
  destruct (decide (tk_key t = key)) as [Ek|Hne].
  - rewrite Ek. destruct (dests (st x) !! key) as [d|] eqn:Ekey; [|congruence].
    destruct (generation d =? tk_generation t) eqn:Eg.
    + rewrite lookup_insert_eq. intros [= <-].
      assert (is_ticket key (generation d) t = true) as Ht.
      { unfold is_ticket. rewrite bool_decide_true by done. by rewrite Z.eqb_sym. }
      exists d, (-1). split_and!; [by left | by apply Hmove|]. rewrite (tickets_delete _ _ _ _ _ Hi), Ht. lia.
    + rewrite Ekey. intros [= <-]. apply Hother; [|done]. unfold is_ticket. rewrite Z.eqb_sym, Eg. apply andb_false_r.
  - intros Hd. apply Hother.
    + unfold is_ticket. by rewrite bool_decide_false.
    + destruct (dests (st x) !! tk_key t) as [d|]; [|done]. destruct (_ =? _); [|done].
      by rewrite lookup_insert_ne in Hd.
Qed.

Lemma success_dests t s : dests (complete_success t s) = release_slot (tk_key t) (tk_generation t) (dests s).
Proof. unfold complete_success. cbn. by destruct (subs s !! tk_sub t). Qed.

Lemma rejected_dests t prunes status now s :
  dests (complete_rejected limits t prunes status now s).1 =
  match live_dest (tk_key t) (tk_generation t) (dests s) with
  | Some d =>
      <[tk_key t := (reject_one (dest_limits limits (tk_key t)) (tk_user_id t)
                       (bool_decide (status = Some 503) && f64_ltb 0 (pause_on_503_secs (dest_limits limits (tk_key t))))
                       now (set_touched d (calls (count_call s)))).1]> (dests s)
  | None => dests s
  end.
Proof.
  unfold complete_rejected. cbn [count_call dests]. destruct (live_dest _ _ _) as [d|]; [|by destruct (sub_entry _ _ _ _)].
  destruct (reject_one _ _ _ _ _). by destruct (sub_entry _ _ _ _).
Qed.

Lemma rejected_generations t prunes status now s :
  generations (complete_rejected limits t prunes status now s).1 = generations s.
Proof.
  unfold complete_rejected. cbn [count_call dests]. destruct (live_dest _ _ _) as [d|]; [|by destruct (sub_entry _ _ _ _)].
  destruct (reject_one _ _ _ _ _). by destruct (sub_entry _ _ _ _).
Qed.

Lemma step_moves x o key d' :
  dests (st (step x o)) !! key = Some d' ->
  entry_moves key x (step x o) (fun d => rejects key (generation d) x o) d'.
Proof.
  destruct o as [user_id sub k now|i|i prunes status now|i|user_id k now|k|sub now].
  - apply admit_moves.
  - cbn [step rejects]. destruct (out x !! i) as [t|] eqn:Ei; [|intros Hd; by apply unmoved].
    intros Hd. eapply given_back; [done | done | cbn [st]; rewrite success_dests; reflexivity| |done | done].
    intros d _. by apply moves_release.
  - cbn [step rejects]. destruct (out x !! i) as [t|] eqn:Ei; [|intros Hd; by apply unmoved].
    intros Hd. eapply given_back; [done | done | cbn [st]; rewrite rejected_dests; reflexivity| | |done].
    + intros d Ht. rewrite Ht. apply andb_true_iff in Ht as [Hk%bool_decide_eq_true _]. rewrite Hk. by eapply (moves_reject _ _ (tk_user_id t)).
    + intros d Ht. by rewrite Ht.
  - cbn [step rejects]. destruct (out x !! i) as [t|] eqn:Ei; [|intros Hd; by apply unmoved].
    intros Hd. eapply given_back; [done | done | reflexivity | |done | done]. intros d _. by apply moves_release.
  - cbn [step rejects]. unfold drain_user. destruct (user_for _ _ _ _ _ _). intros Hd. by apply unmoved.
  - cbn [step rejects]. unfold top_senders. destruct (dests (st x) !! k) as [d|] eqn:Ek; [|intros Hd; by apply unmoved].
    cbn [fst st set_dests dests]. destruct (decide (k = key)) as [->|Hne].
    + rewrite lookup_insert_eq. intros [= <-]. exists d, 0. split_and!; [by left | by constructor | cbn; lia].
    + rewrite lookup_insert_ne by done. intros Hd. by apply unmoved.
  - cbn [step rejects]. unfold first_refusal. destruct (sub_entry _ _ _ _). intros Hd. by apply unmoved.
Qed.
(** ** What holds after any sequence of calls *)

Context (Hlimits : forall key, limits_ok (dest_limits limits key)).

(** No more than [n] entries were made; tickets are of entries made, and the
    sends in flight of an entry are its tickets. *)
Definition sys_ok (n : Z) (x : Sys) : Prop :=
  0 <= generations (st x) <= n /\
  (forall t, t ∈ out x -> tk_generation t <= generations (st x)) /\
  forall key d, dests (st x) !! key = Some d ->
    dest_ok (dest_limits limits key) d /\ generation d <= generations (st x) /\
    in_flight d = tickets key (generation d) (out x).

Lemma idle_ok : sys_ok 0 idle.
Proof. split_and!; [done | done | by intros t Ht%elem_of_nil|]. intros key d Hd. cbn in Hd. by rewrite lookup_empty in Hd. Qed.

Lemma dest_for_gens key now calls m gens d m' gens' :
  dest_for limits key now calls m gens = (d, m', gens') -> gens' = gens \/ gens' = wrapping_inc gens.
Proof. intros E. apply dest_for_entry in E as (d0 & _ & [[_ ?]|(_ & ? & _)] & _); auto. Qed.

(** The new entry count, and the tickets that are new *)
Lemma step_tickets x o :
  (generations (st (step x o)) = generations (st x) \/ generations (st (step x o)) = wrapping_inc (generations (st x))) /\
  forall t, t ∈ out (step x o) -> t ∈ out x \/
    exists d, dests (st (step x o)) !! tk_key t = Some d /\ generation d = tk_generation t.
Proof.
  destruct o as [user_id sub k now|i|i prunes status now|i|user_id k now|k|sub now]; cbn [step].
  - unfold admit_push. set (s := count_call (st x)).
    assert (forall s' r, admit_dest limits user_id sub k now s = (s', r) ->
      (generations s' = generations (st x) \/ generations s' = wrapping_inc (generations (st x))) /\
      forall t, r = Admit.Allowed t -> exists d, dests s' !! tk_key t = Some d /\ generation d = tk_generation t) as Hdest.
    { intros s' r Ea. apply admit_dest_shape in Ea as (d & m & e & Ef & Em & Hr). apply dest_for_gens in Ef. split; [done|].
      intros t ->. destruct Hr as [[_ Hno]|(_ & _ & He & [= ->])]; [by destruct (Hno t)|].
      exists e. rewrite Em. split; [apply lookup_insert_eq|]. unfold budget in He. by injection He. }
    destruct (subs s !! sub) as [entry|]; [destruct (cooling now entry)|]; [by split; [left | left]|..];
      (destruct (admit_dest limits user_id sub k now s) as [s' r] eqn:Ea; destruct (Hdest s' r eq_refl) as [Hg Ht];
       destruct r as [t| |]; cbn [st out]; split; try done; try (by left);
       intros t' [->|]%elem_of_cons; [right; by apply Ht | by left]).
  - destruct (out x !! i) as [t|]; [|by split; [left | left]]. unfold complete_success. cbn.
    destruct (subs (st x) !! tk_sub t); (split; [by left|]); intros t' Ht; left; by eapply list_elem_of_delete_inv.
  - destruct (out x !! i) as [t|]; [|by split; [left | left]]. split.
    + left. apply rejected_generations.
    + intros t' Ht. left. by eapply list_elem_of_delete_inv.
  - destruct (out x !! i) as [t|]; [|by split; [left | left]]. split; [by left|].
    intros t' Ht. left. by eapply list_elem_of_delete_inv.
  - unfold drain_user. destruct (user_for _ _ _ _ _ _). by split; [left | left].
  - unfold top_senders. destruct (dests (st x) !! k); by split; [left | left].
  - unfold first_refusal. destruct (sub_entry _ _ _ _). by split; [left | left].
Qed.

Lemma new_dest_ok l now g : limits_ok l -> dest_ok l (dest_new l now g).
Proof.
  intros [(Hrep & Hb & _) _]. assert (0 <= inject_Z (2 ^ 21))%Q by done.
  unfold dest_ok, bucket_ok. cbn [dest_new reject full tokens burst reject_rate in_flight] in *.
  change (inject_Z 0) with 0%Q. split_and!; [done | lra | lra | done | lra].
Qed.

Lemma tickets_nonneg key g l : 0 <= tickets key g l.
Proof. unfold tickets. lia. Qed.

Lemma no_tickets key g l : (forall t, t ∈ l -> tk_generation t < g) -> tickets key g l = 0.
Proof.
  intros Hl. induction l as [|t l IH]; [done|]. rewrite tickets_cons, IH by (intros u Hu; apply Hl; by right).
  unfold is_ticket. specialize (Hl t ltac:(by left)). rewrite (proj2 (Z.eqb_neq _ _)) by lia. by rewrite andb_false_r.
Qed.

(** An entry after a call, and what became of its budget *)
Lemma entry_accounted n x o key d' :
  sys_ok n x -> n + 1 < two64 -> dests (st (step x o)) !! key = Some d' ->
  exists d k, entry_before key (st x) (st (step x o)) d /\
    accounted (dest_limits limits key) d k (rejects key (generation d) x o) d' /\
    in_flight d' = tickets key (generation d) (out (step x o)) /\ generation d' <= generations (st (step x o)).
Proof.
  intros (Hg & Ht & Hd) Hn Hd'. apply step_moves in Hd' as (d & k & Hb & Hm & Hk). exists d, k.
  assert (dest_ok (dest_limits limits key) d /\ in_flight d = tickets key (generation d) (out x) /\
          generation d <= generations (st (step x o))) as (Hok & Hf & Hgen).
  { assert (wrapping_inc (generations (st x)) = generations (st x) + 1) as Ew.
    { unfold wrapping_inc. apply Z.mod_small. lia. }
    destruct Hb as [Hb|(_ & Eg & now & ->)].
    - destruct (Hd _ _ Hb) as (? & ? & ?). destruct (step_tickets x o) as [[?|?] _]; split_and!; try done; lia.
    - split_and!; [by apply new_dest_ok | | cbn; lia]. cbn [in_flight dest_new generation]. symmetry.
      apply no_tickets. intros t Hin. specialize (Ht t Hin). lia. }
  pose proof (tickets_nonneg key (generation d) (out (step x o))).
  assert (accounted (dest_limits limits key) d k (rejects key (generation d) x o) d') as Ha.
  { apply moves_accounted; [done | done | done | lia]. }
  destruct Ha as (? & Ein & Egen & ?). split_and!; try done; [lia | lia].
Qed.

Lemma step_ok n x o : sys_ok n x -> n + 1 < two64 -> sys_ok (n + 1) (step x o).
Proof.
  intros Hx Hn. destruct (step_tickets x o) as [Hgen Hts]. pose proof Hx as (Hg & Ht & Hd).
  assert (wrapping_inc (generations (st x)) = generations (st x) + 1) as Ew.
  { unfold wrapping_inc. apply Z.mod_small. lia. }
  assert (forall key d', dests (st (step x o)) !! key = Some d' ->
    dest_ok (dest_limits limits key) d' /\ generation d' <= generations (st (step x o)) /\
    in_flight d' = tickets key (generation d') (out (step x o))) as Hds.
  { intros key d' Hd'. destruct (entry_accounted n x o key d' Hx Hn Hd') as (d & k & _ & (? & _ & Eg & _) & ? & ?).
    split_and!; [done | done | by rewrite Eg]. }
  split; [lia|]. split; [|done]. intros t Hin. destruct (Hts t Hin) as [Hin'|(d & Hkey & Eg)].
  - specialize (Ht t Hin'). lia.
  - destruct (Hds _ _ Hkey) as (_ & ? & _). lia.
Qed.

Lemma steps_ok ops : forall n x, sys_ok n x -> n + Z.of_nat (length ops) < two64 -> sys_ok (n + Z.of_nat (length ops)) (steps x ops).
Proof.
  induction ops as [|o ops IH]; intros n x Hx Hn; cbn [steps foldl length] in *; [by rewrite Z.add_0_r|].
  replace (n + Z.of_nat (S (length ops))) with (n + 1 + Z.of_nat (length ops)) by lia.
  apply IH; [apply step_ok; [done | lia] | lia].
Qed.

(** An entry that is gone does not come back: a new one has a new number. *)
Lemma gone_for_good ops : forall n x key g d',
  sys_ok n x -> n + Z.of_nat (length ops) < two64 -> g <= generations (st x) ->
  (forall d, dests (st x) !! key = Some d -> generation d <> g) ->
  dests (st (steps x ops)) !! key = Some d' -> generation d' <> g.
Proof.
  induction ops as [|o ops IH]; intros n x key g d' Hx Hn Hg Hgone Hd'; cbn [steps foldl length] in *; [by apply Hgone|].
  pose proof (step_ok n x o Hx ltac:(lia)) as Hx'. destruct (step_tickets x o) as [Hgen _]. pose proof Hx as (Hgs & _ & _).
  assert (wrapping_inc (generations (st x)) = generations (st x) + 1) as Ew.
  { unfold wrapping_inc. apply Z.mod_small. lia. }
  eapply (IH (n + 1) (step x o)); [done | lia | lia | | done].
  intros d1 Hd1. destruct (entry_accounted n x o key d1 Hx ltac:(lia) Hd1) as (d & k & Hb & (_ & _ & Eg & _) & _).
  rewrite Eg. destruct Hb as [Hb|(_ & Eg' & now & ->)]; [by apply Hgone | cbn; lia].
Qed.

(** Earned over a time, with the rounding of [k] calls *)
Definition earned (rate : Rate) (nanos k : Z) : Q :=
  (refill_per_sec rate * secs nanos * (1 + (1 # 1125899906842624)) + inject_Z k * (1 # 1073741824))%Q.

Lemma earned_add rate a b k : (credit rate a + earned rate b k == earned rate (a + b) (k + 1))%Q.
Proof.
  unfold credit, earned, secs. rewrite !inject_Z_plus. change (inject_Z 1) with 1%Q. ring.
Qed.

Lemma rejections_accounted ops : forall n x key d d',
  sys_ok n x -> n + Z.of_nat (length ops) < two64 ->
  dests (st x) !! key = Some d -> dests (st (steps x ops)) !! key = Some d' -> generation d' = generation d ->
  (inject_Z (rejections_of key (generation d) x ops) + potential d' <=
   potential d + earned (reject_rate (dest_limits limits key)) (last (reject d') - last (reject d)) (Z.of_nat (length ops)))%Q.
Proof.
  induction ops as [|o ops IH]; intros n x key d d' Hx Hn Hd Hd' Eg; cbn [steps foldl length rejections_of] in *.
  - assert (d' = d) as -> by congruence. rewrite Z.sub_diag. unfold earned, secs. change (inject_Z (Z.of_nat 0)) with 0%Q.
    change (inject_Z 0) with 0%Q. lra.
  - pose proof (step_ok n x o Hx ltac:(lia)) as Hx'. pose proof Hx as (_ & _ & Hds).
    destruct (step_tickets x o) as [Hgen _]. destruct (Hds _ _ Hd) as (_ & Hgd & _).
    assert (wrapping_inc (generations (st x)) = generations (st x) + 1) as Ew.
    { unfold wrapping_inc. apply Z.mod_small. destruct Hx as (? & _). lia. }
    destruct (dests (st (step x o)) !! key) as [d1|] eqn:Ed1.
    2: { exfalso. apply (gone_for_good ops (n + 1) (step x o) key (generation d) d'); [done | lia | lia | | done | done].
         intros ? ?. congruence. }
    destruct (entry_accounted n x o key d1 Hx ltac:(lia) Ed1) as (d0 & k & Hb & (_ & _ & Eg1 & Hl & Hpot) & _).
    destruct Hb as [Hb|(Hb & _)]; [|congruence]. assert (d0 = d) as -> by congruence.
    specialize (IH (n + 1) (step x o) key d1 d' Hx' ltac:(lia) Ed1 Hd' ltac:(congruence)). rewrite Eg1 in IH.
    rewrite inject_Z_plus.
    pose proof (earned_add (reject_rate (dest_limits limits key)) (last (reject d1) - last (reject d))
                  (last (reject d') - last (reject d1)) (Z.of_nat (length ops))) as Eadd.
    replace (last (reject d1) - last (reject d) + (last (reject d') - last (reject d1)))
      with (last (reject d') - last (reject d)) in Eadd by lia.
    replace (Z.of_nat (length ops) + 1) with (Z.of_nat (S (length ops))) in Eadd by lia. lra.
Qed.

(** *** The entry of ntfy.sh stays *)

Definition has_ntfy (g : Z) (m : gmap DestKey.t Dest) : Prop := exists d, m !! DestKey.Ntfy = Some d /\ generation d = g.

Lemma insert_has_ntfy (m : gmap DestKey.t Dest) k e d : m !! DestKey.Ntfy = Some d -> is_Some (<[k := e]> m !! DestKey.Ntfy).
Proof.
  intros Hd. destruct (decide (k = DestKey.Ntfy)) as [->|]; [by rewrite lookup_insert_eq | by rewrite lookup_insert_ne, Hd].
Qed.

Lemma dest_for_keeps_ntfy key now calls m gens d m' gens' d0 :
  dest_for limits key now calls m gens = (d, m', gens') -> m !! DestKey.Ntfy = Some d0 -> is_Some (m' !! DestKey.Ntfy).
Proof.
  unfold dest_for. intros E Hd. set (m1 := if evictable key && _ then _ else m) in E.
  assert (is_Some (m1 !! DestKey.Ntfy)) as [d1 Hd1].
  { unfold m1. destruct (evictable key && _); [|by rewrite Hd]. by destruct (room_keeps_ntfy now m d0 Hd) as [d1 ->]. }
  destruct (m1 !! key); injection E as _ <- _; by eapply insert_has_ntfy.
Qed.

Lemma given_back_keeps_ntfy (m : gmap DestKey.t Dest) k g f d :
  m !! DestKey.Ntfy = Some d ->
  is_Some (match live_dest k g m with Some e => <[k := f e]> m | None => m end !! DestKey.Ntfy).
Proof. intros Hd. destruct (live_dest k g m); [by eapply insert_has_ntfy | by rewrite Hd]. Qed.

Lemma step_keeps_ntfy x o d :
  dests (st x) !! DestKey.Ntfy = Some d -> is_Some (dests (st (step x o)) !! DestKey.Ntfy).
Proof.
  intros Hd. destruct o as [user_id sub k now|i|i prunes status now|i|user_id k now|k|sub now]; cbn [step].
  - unfold admit_push. set (s := count_call (st x)).
    assert (forall s' r, admit_dest limits user_id sub k now s = (s', r) -> is_Some (dests s' !! DestKey.Ntfy)) as Hdest.
    { intros s' r Ea. apply admit_dest_shape in Ea as (e & m & e' & Ef & -> & _).
      destruct (dest_for_keeps_ntfy _ _ _ _ _ _ _ _ d Ef Hd) as [d1 Hd1]. by eapply insert_has_ntfy. }
    destruct (subs s !! sub) as [entry|]; [destruct (cooling now entry)|]; [by eexists|..];
      (destruct (admit_dest limits user_id sub k now s) as [s' r] eqn:Ea; destruct r; by eapply Hdest).
  - destruct (out x !! i) as [t|]; [|by eexists]. cbn [st]. rewrite success_dests. by eapply given_back_keeps_ntfy.
  - destruct (out x !! i) as [t|]; [|by eexists]. cbn [st]. rewrite rejected_dests.
    eapply (given_back_keeps_ntfy _ _ _ (fun e => (reject_one _ _ _ _ (set_touched e _)).1)). exact Hd.
  - destruct (out x !! i) as [t|]; [|by eexists]. by eapply given_back_keeps_ntfy.
  - unfold drain_user. destruct (user_for _ _ _ _ _ _). by eexists.
  - unfold top_senders. destruct (dests (st x) !! k); [by eapply insert_has_ntfy | by eexists].
  - unfold first_refusal. destruct (sub_entry _ _ _ _). by eexists.
Qed.

Lemma step_same_ntfy n x o g : sys_ok n x -> n + 1 < two64 -> has_ntfy g (dests (st x)) -> has_ntfy g (dests (st (step x o))).
Proof.
  intros Hx Hn (d & Hd & <-). destruct (step_keeps_ntfy x o d Hd) as [d' Hd']. exists d'. split; [done|].
  destruct (entry_accounted n x o DestKey.Ntfy d' Hx Hn Hd') as (d0 & k & [Hb|[Hb _]] & (_ & _ & Eg & _) & _); congruence.
Qed.

Lemma steps_same_ntfy ops : forall n x g,
  sys_ok n x -> n + Z.of_nat (length ops) < two64 -> has_ntfy g (dests (st x)) -> has_ntfy g (dests (st (steps x ops))).
Proof.
  induction ops as [|o ops IH]; intros n x g Hx Hn Hg; cbn [steps foldl length] in *; [done|].
  apply (IH (n + 1)); [apply step_ok; [done | lia] | lia | by apply (step_same_ntfy n); [| lia|]].
Qed.

(** So every ticket for ntfy.sh is one of its one entry. *)
Lemma ntfy_tickets ops : forall n x,
  sys_ok n x -> n + Z.of_nat (length ops) < two64 ->
  (forall t, t ∈ out x -> tk_key t = DestKey.Ntfy -> has_ntfy (tk_generation t) (dests (st x))) ->
  forall t, t ∈ out (steps x ops) -> tk_key t = DestKey.Ntfy -> has_ntfy (tk_generation t) (dests (st (steps x ops))).
Proof.
  induction ops as [|o ops IH]; intros n x Hx Hn Ht; cbn [steps foldl length] in *; [done|].
  apply (IH (n + 1)); [apply step_ok; [done | lia] | lia|]. intros t Hin Hk.
  destruct (step_tickets x o) as [_ Hts]. destruct (Hts t Hin) as [Hin'|(d & Hd & Eg)].
  - apply (step_same_ntfy n); [done | lia | by apply Ht].
  - rewrite Hk in Hd. by exists d.
Qed.

Lemma potential_bounds key d :
  dest_ok (dest_limits limits key) d -> (0 <= potential d <= reject_burst (dest_limits limits key))%Q.
Proof.
  intros ((_ & Hb & _) & Hf & Hfb). cbn in Hb. unfold potential.
  assert (0 <= inject_Z (in_flight d))%Q by (change 0%Q with (inject_Z 0); by rewrite <- Zle_Qle).
  destruct (f64_max_spec (inject_Z (in_flight d)) (tokens (reject d))) as (H1 & _ & [E|E]); rewrite E in *; lra.
Qed.
End Calls.

(** ** Theorem *)

Lemma default_limits_ok key : limits_ok (dest_limits default_limits key).
Proof.
  assert (rep 20) as R20 by (by apply (rep_Z 20)).
  destruct key; (split; [split; [exact R20 | split; [by vm_compute | by vm_compute]] | by vm_compute]).
Qed.

(** C18. With the limits the service runs with, a destination sees at most sixty
    rejections from us in ten minutes, however many sends are in flight and
    in whatever order they end: between any two states of a history in which
    the entry of the destination was not removed and its clock advanced by at
    most 600 seconds, at most sixty of its sends were rejected.  The entry of
    ntfy.sh, which bans by address, is never removed, and every send to it
    that is in flight is counted on that entry. *)
Theorem sixty_rejections_in_ten_minutes
    `{!HashIter DestKey.t Dest, !HashIter (string * DestKey.t) UserEntry, !HashIter Z SubEntry}
    (before during : list Op.t) :
  Z.of_nat (length before) + Z.of_nat (length during) < two64 -> Z.of_nat (length during) <= 2 ^ 29 ->
  let x := steps default_limits idle before in
  let x' := steps default_limits x during in
  (forall key d d', dests (st x) !! key = Some d -> dests (st x') !! key = Some d' -> generation d' = generation d ->
     last (reject d') - last (reject d) <= from_secs 600 ->
     rejections_of default_limits key (generation d) x during <= 60) /\
  (forall g, has_ntfy g (dests (st x)) -> has_ntfy g (dests (st x'))) /\
  (forall t, t ∈ out x' -> tk_key t = DestKey.Ntfy -> has_ntfy (tk_generation t) (dests (st x'))).
Proof.
  intros Hn Hk x x'.
  pose proof (steps_ok default_limits default_limits_ok before 0 idle (idle_ok _) ltac:(lia)) as Hx. fold x in Hx.
  pose proof (steps_ok default_limits default_limits_ok during _ x Hx ltac:(lia)) as Hx'. fold x' in Hx'.
  split_and!.
  - intros key d d' Hd Hd' Eg Ht.
    pose proof (rejections_accounted default_limits default_limits_ok during _ x key d d' Hx ltac:(lia) Hd Hd' Eg) as Hr.
    destruct Hx as (_ & _ & Hok). destruct Hx' as (_ & _ & Hok').
    pose proof (potential_bounds default_limits key d (proj1 (Hok _ _ Hd))) as Hp.
    pose proof (potential_bounds default_limits key d' (proj1 (Hok' _ _ Hd'))) as Hp'.
    set (r := rejections_of default_limits key (generation d) x during) in *. set (n := last (reject d') - last (reject d)) in *.
    assert (inject_Z r < 61)%Q as Hr61.
    { unfold earned in Hr. assert (inject_Z n <= inject_Z (from_secs 600))%Q as Hn600 by (by rewrite <- Zle_Qle).
      assert (inject_Z (Z.of_nat (length during)) <= inject_Z (2 ^ 29))%Q as Hk29 by (by rewrite <- Zle_Qle).
      assert (reject_burst (dest_limits default_limits key) = 20%Q) as Eb by (by destruct key). rewrite Eb in *.
      assert (refill_per_sec (reject_rate (dest_limits default_limits key)) == 4803839602528529 # 72057594037927936)%Q as Er
        by (destruct key; by vm_compute). rewrite Er in Hr. unfold secs in Hr.
      change (inject_Z (from_secs 600)) with (600000000000 # 1)%Q in Hn600.
      change (inject_Z (2 ^ 29)) with (536870912 # 1)%Q in Hk29. lra. }
    change 61%Q with (inject_Z 61) in Hr61. rewrite <- Zlt_Qlt in Hr61. lia.
  - intros g Hg. by apply (steps_same_ntfy default_limits default_limits_ok during _ x g Hx ltac:(lia)).
  - apply (ntfy_tickets default_limits default_limits_ok during _ x Hx ltac:(lia)).
    apply (ntfy_tickets default_limits default_limits_ok before 0 idle (idle_ok _) ltac:(lia)). by intros t Ht%elem_of_nil.
Qed.

(** *** Two sends rejected, one after the other *)

Definition two_rejected : list Op.t :=
  [Op.Rejected 0 false (Some 404) (from_secs 1); Op.Admit "v" 2 DestKey.Ntfy (from_secs 2);
   Op.Rejected 0 false (Some 503) (from_secs 3)].

Lemma sixty_rejections_in_ten_minutes_witness :
  let x := steps default_limits idle [Op.Admit "u" 1 DestKey.Ntfy 0] in
  let x' := steps default_limits x two_rejected in
  exists d d', dests (st x) !! DestKey.Ntfy = Some d /\ dests (st x') !! DestKey.Ntfy = Some d' /\
    paused d' = true /\ rejections_of default_limits DestKey.Ntfy (generation d) x two_rejected = 2 /\
    rejections_of default_limits DestKey.Ntfy (generation d) x two_rejected <= 60.
Proof.
  intros x x'.
  destruct (sixty_rejections_in_ten_minutes [Op.Admit "u" 1 DestKey.Ntfy 0] two_rejected) as [Hr _]; [done | done|].
  fold x in Hr. fold x' in Hr.
  assert (is_Some (dests (st x) !! DestKey.Ntfy)) as [d Hd] by (vm_compute; by eexists).
  assert (is_Some (dests (st x') !! DestKey.Ntfy)) as [d' Hd'] by (vm_compute; by eexists).
  assert ((d0 ← dests (st x) !! DestKey.Ntfy; d1 ← dests (st x') !! DestKey.Ntfy;
           Some (generation d0, generation d1, last (reject d0), last (reject d1), paused d1)) =
          Some (1, 1, 0, from_secs 3, true)) as E by (vm_compute; reflexivity).
  rewrite Hd, Hd' in E. cbn in E. injection E as E1 E2 E3 E4 E5.
  exists d, d'. split_and!; [done | done | done | rewrite E1; vm_compute; reflexivity|].
  apply (Hr _ _ _ Hd Hd'); [congruence|]. rewrite E3, E4. done.
Defined.
