(* ===== verification/UpTables.v ===== *)
(** * Push limits: the tables

    The table of a destination names those who sent or were rejected most with
    sixteen counters, and the maps of the limiter make room before they grow
    past their size. *)

From Stdlib Require Import QArith.
From stdpp Require Import base numbers list gmap strings sorting.
From S2P Require Import Prelude Float64 UpLimiter UpBudget.
Open Scope Z_scope.
Open Scope sloga_scope.

(** ** Heavy users *)

Definition times (u : string) (l : list string) : Z := Z.of_nat (length (List.filter (fun v => str_eqb v u) l)).

Definition total (table : list Offender) : Z := list_sum rejections table.

(** What the table knows of the users seen so far *)
Definition table_ok (seen : list string) (table : list Offender) : Prop :=
  NoDup (of_user_id <$> table) /\ (length table <= MAX_OFFENDERS)%nat /\
  total table = Z.of_nat (length seen) /\
  (forall o, o ∈ table -> 0 < rejections o /\ times (of_user_id o) seen <= rejections o) /\
  (forall u, u ∉ of_user_id <$> table ->
     (forall o, o ∈ table -> times u seen <= rejections o) /\ ((length table < MAX_OFFENDERS)%nat -> times u seen = 0)).

Lemma times_app u l v : times u (l ++ [v]) = times u l + (if str_eqb v u then 1 else 0).
Proof. unfold times. rewrite List.filter_app, length_app. cbn. destruct (str_eqb v u); cbn; lia. Qed.

Lemma insert_perm (l : list Offender) i o o' :
  l !! i = Some o -> exists rest, l ≡ₚ o :: rest /\ <[i := o']> l ≡ₚ o' :: rest.
Proof.
  intros Hi. exists (take i l ++ drop (S i) l). split.
  - rewrite <- (take_drop_middle l i o Hi) at 1. by rewrite Permutation_middle.
  - rewrite insert_take_drop by (by apply lookup_lt_Some in Hi). by rewrite Permutation_middle.
Qed.

Lemma table_ok_perm seen t t' : t ≡ₚ t' -> table_ok seen t -> table_ok seen t'.
Proof.
  intros Hp (Hnd & Hlen & Hsum & Hin & Hout). unfold table_ok, total in *.
  split_and!; [by rewrite <- Hp | by rewrite <- Hp | by rewrite <- Hp | intros o Ho; apply Hin; by rewrite Hp|].
  intros u Hu. rewrite <- Hp in Hu. destruct (Hout u Hu) as [H1 H2]. rewrite <- Hp. split; [|done].
  intros o Ho. apply H1. by rewrite Hp.
Qed.

Lemma total_cons o l : total (o :: l) = rejections o + total l.
Proof. done. Qed.

Lemma count_le_total seen t o : table_ok seen t -> o ∈ t -> rejections o <= Z.of_nat (length seen).
Proof.
  intros (_ & _ & <- & Hin & _) Ho. apply elem_of_Permutation in Ho as [l Hp].
  assert (0 <= total l) as Hl.
  { apply list_sum_nonneg. intros x Hx. destruct (Hin x); [rewrite Hp; by right | lia]. }
  unfold total. rewrite Hp. change (list_sum rejections (o :: l)) with (total (o :: l)). rewrite total_cons. lia.
Qed.

Lemma sat_count n (seen : list string) : n <= Z.of_nat (length seen) -> Z.of_nat (length seen) < u32_max -> saturating_add_u32 n 1 = n + 1.
Proof. unfold saturating_add_u32. lia. Qed.

(** A counter goes up. *)
Lemma table_counts seen o rest v :
  of_user_id o = v -> table_ok seen (o :: rest) -> table_ok (seen ++ [v]) (mkOffender v (rejections o + 1) :: rest).
Proof.
  intros <- (Hnd & Hlen & Hsum & Hin & Hout). rewrite total_cons in Hsum. split_and!; [done | done | | |].
  - rewrite total_cons, length_app. cbn. lia.
  - intros x [->|Hx]%elem_of_cons; cbn; rewrite times_app.
    + rewrite str_eqb_refl. specialize (Hin o ltac:(by left)). lia.
    + specialize (Hin x ltac:(by right)). rewrite (proj2 (str_eqb_neq _ _)); [lia|]. intros E.
      cbn in Hnd. apply NoDup_cons in Hnd as [Hn _]. apply Hn. rewrite E. by apply list_elem_of_fmap_2.
  - intros u Hu. cbn in Hu. destruct (Hout u Hu) as [H1 H2]. rewrite times_app, (proj2 (str_eqb_neq _ _)).
    + split; [|intros Hl; specialize (H2 Hl); lia]. intros x [->|Hx]%elem_of_cons.
      * specialize (H1 o ltac:(by left)). cbn. lia.
      * specialize (H1 x ltac:(by right)). lia.
    + intros <-. apply Hu. by left.
Qed.

(** A counter is free. *)
Lemma table_grows seen table v :
  v ∉ of_user_id <$> table -> (length table < MAX_OFFENDERS)%nat -> table_ok seen table ->
  table_ok (seen ++ [v]) (mkOffender v 1 :: table).
Proof.
  intros Hv Hl (Hnd & _ & Hsum & Hin & Hout). destruct (Hout v Hv) as [_ Hv0]. specialize (Hv0 Hl). split_and!.
  - cbn. by apply NoDup_cons.
  - cbn [length]. lia.
  - rewrite total_cons, length_app. cbn. lia.
  - intros x [->|Hx]%elem_of_cons; cbn; rewrite times_app.
    + rewrite str_eqb_refl. lia.
    + specialize (Hin x Hx). rewrite (proj2 (str_eqb_neq _ _)); [lia|]. intros ->. apply Hv. by apply list_elem_of_fmap_2.
  - intros u Hu. cbn in Hu. apply not_elem_of_cons in Hu as [Hne Hu]. destruct (Hout u Hu) as [_ H0]. specialize (H0 Hl).
    rewrite times_app, (proj2 (str_eqb_neq _ _)), H0 by congruence. split; [|done].
    intros x [->|Hx]%elem_of_cons; cbn; [lia|]. specialize (Hin x Hx). lia.
Qed.

(** The smallest counter is taken over. *)
Lemma table_replaces seen o rest v :
  v ∉ of_user_id <$> o :: rest -> length (o :: rest) = MAX_OFFENDERS -> (forall x, x ∈ rest -> rejections o <= rejections x) ->
  table_ok seen (o :: rest) -> table_ok (seen ++ [v]) (mkOffender v (rejections o + 1) :: rest).
Proof.
  intros Hv Hl Hmin (Hnd & _ & Hsum & Hin & Hout). destruct (Hout v Hv) as [Hvo _]. rewrite total_cons in Hsum.
  cbn in Hnd. apply NoDup_cons in Hnd as [Hno Hnd]. cbn in Hv. apply not_elem_of_cons in Hv as [Hne Hv].
  pose proof (Hin o ltac:(by left)) as Ho. split_and!.
  - cbn. by apply NoDup_cons.
  - by rewrite <- Hl.
  - rewrite total_cons, length_app. cbn. lia.
  - intros x [->|Hx]%elem_of_cons; cbn; rewrite times_app.
    + rewrite str_eqb_refl. specialize (Hvo o ltac:(by left)). lia.
    + specialize (Hin x ltac:(by right)). rewrite (proj2 (str_eqb_neq _ _)); [lia|]. intros ->. apply Hv. by apply list_elem_of_fmap_2.
  - intros u Hu. cbn in Hu. apply not_elem_of_cons in Hu as [Hune Hu].
    assert (times u seen <= rejections o) as Huo.
    { destruct (decide (u = of_user_id o)) as [->|Huo]; [lia|].
      destruct (Hout u) as [H1 _]; [by apply not_elem_of_cons|]. apply H1. by left. }
    rewrite times_app, (proj2 (str_eqb_neq _ _)) by congruence. split.
    + intros x [->|Hx]%elem_of_cons; cbn; [lia|]. specialize (Hmin x Hx). lia.
    + cbn [length] in *. lia.
Qed.

Lemma smallest_spec l i o : smallest l = Some (i, o) -> l !! i = Some o /\ forall x, x ∈ l -> rejections o <= rejections x.
Proof.
  revert i o. induction l as [|y l IH]; intros i o; cbn; [done|].
  destruct (smallest l) as [[j x]|] eqn:Es.
  - destruct (IH j x eq_refl) as [Hj Hx]. destruct (rejections x <? rejections y) eqn:Ec; intros [= <- <-].
    + apply Z.ltb_lt in Ec. split; [done|]. intros z [->|Hz]%elem_of_cons; [lia | by apply Hx].
    + apply Z.ltb_ge in Ec. split; [done|]. intros z [->|Hz]%elem_of_cons; [lia|]. specialize (Hx z Hz). lia.
  - intros [= <- <-]. split; [done|]. destruct l as [|z l]; [|by cbn in Es; destruct (smallest l) as [[]|]; [case_match|]].
    intros x [->|Hx%elem_of_nil]%elem_of_cons; [lia | done].
Qed.

Lemma record_ok seen table v :
  Z.of_nat (length seen) < u32_max -> table_ok seen table -> table_ok (seen ++ [v]) (record_offender table v).
Proof.
  intros Hn Hok. unfold record_offender. destruct (list_find _ table) as [[i o]|] eqn:Ef.
  - apply list_find_Some in Ef as (Hi & Eo & _). destruct (insert_perm table i o (count_one o) Hi) as (rest & Hp & Hp').
    unfold count_one in *. rewrite (sat_count _ seen), Eo in Hp' |- *;
      [| by eapply count_le_total; [exact Hok | by eapply list_elem_of_lookup_2] | done |
         by eapply count_le_total; [exact Hok | by eapply list_elem_of_lookup_2] | done].
    eapply table_ok_perm; [symmetry; exact Hp'|]. apply table_counts; [done|]. by eapply table_ok_perm.
  - apply list_find_None in Ef. assert (v ∉ of_user_id <$> table) as Hv.
    { intros (o & -> & Ho)%list_elem_of_fmap. rewrite Forall_forall in Ef. by apply (Ef o Ho). }
    destruct (length table <? MAX_OFFENDERS)%nat eqn:El.
    + apply Nat.ltb_lt in El. eapply (table_ok_perm _ (mkOffender v 1 :: table)); [apply Permutation_cons_append | by apply table_grows].
    + apply Nat.ltb_ge in El. destruct (smallest table) as [[i o]|] eqn:Es.
      * apply smallest_spec in Es as [Hi Hmin]. assert (o ∈ table) as Ho by (by eapply list_elem_of_lookup_2).
        rewrite (sat_count _ seen) by (by eapply count_le_total || done).
        destruct (insert_perm table i o (mkOffender v (rejections o + 1)) Hi) as (rest & Hp & Hp').
        eapply table_ok_perm; [symmetry; exact Hp'|]. apply table_replaces.
        -- by rewrite <- Hp.
        -- rewrite <- Hp. destruct Hok as (_ & ? & _). lia.
        -- intros x Hx. apply Hmin. rewrite Hp. by right.
        -- by eapply table_ok_perm.
      * exfalso. destruct table as [|o l]; [cbn in El; unfold MAX_OFFENDERS in El; lia|]. cbn in Es.
        destruct (smallest l) as [[]|]; [case_match|]; done.
Qed.

Lemma recorded_ok seen : Z.of_nat (length seen) <= u32_max -> table_ok seen (foldl record_offender [] seen).
Proof.
  induction seen as [|v seen IH] using rev_ind; intros Hn.
  - split_and!; [constructor | cbn; lia | done | by intros o Ho%elem_of_nil|]. intros u _. split; [|done].
    by intros o Ho%elem_of_nil.
  - rewrite length_app in Hn. cbn in Hn. rewrite foldl_app. cbn. apply record_ok; [lia | apply IH; lia].
Qed.

Lemma heavier_total a b : heavier a b = true \/ heavier b a = true.
Proof.
  unfold heavier. rewrite (Z.eqb_sym (rejections b)). destruct (rejections a =? rejections b) eqn:E; [apply str_leb_total|].
  apply Z.eqb_neq in E. rewrite !Z.ltb_lt. lia.
Qed.

Lemma heavier_trans a b c : heavier a b = true -> heavier b c = true -> heavier a c = true.
Proof.
  unfold heavier. destruct (rejections a =? rejections b) eqn:E1, (rejections b =? rejections c) eqn:E2,
    (rejections a =? rejections c) eqn:E3; rewrite ?Z.eqb_eq, ?Z.eqb_neq, ?Z.ltb_lt in *; try lia; eauto using str_leb_trans.
Qed.

Lemma heavier_count a b : heavier a b = true -> rejections b <= rejections a.
Proof. unfold heavier. destruct (_ =? _) eqn:E; rewrite ?Z.eqb_eq, ?Z.ltb_lt in *; lia. Qed.

Lemma take_top_heaviest table o o' :
  o ∈ (take_top table).1 -> o' ∈ table -> o' ∉ (take_top table).1 -> rejections o' <= rejections o.
Proof.
  unfold take_top. cbn [fst]. intros Ho Ho' Hn. rewrite <- (elem_of_sort_by heavier) in Ho'.
  pose proof (sort_by_sorted heavier heavier_total heavier_trans table) as Hs. set (l := sort_by heavier table) in *.
  rewrite <- (take_drop TOP_OFFENDERS l), elem_of_app in Ho'. destruct Ho' as [|Ho']; [done|].
  rewrite <- (take_drop TOP_OFFENDERS l) in Hs. apply heavier_count.
  exact (StronglySorted_app_1_elem_of (fun a b => heavier a b = true) _ _ _ _ Hs Ho Ho').
Qed.

(** C19. The table of a destination, with sixteen counters for any number of users,
    is never far off: a user's counter is at least what the user did, a user
    who did more than a sixteenth of everything since the table was cleared is
    in it, however late they came, and a report names the users with the
    highest counters. *)
Theorem heavy_users_are_named (seen : list string) :
  Z.of_nat (length seen) <= u32_max ->
  let table := foldl record_offender [] seen in
  (length table <= MAX_OFFENDERS)%nat /\ NoDup (of_user_id <$> table) /\
  (forall o, o ∈ table -> times (of_user_id o) seen <= rejections o) /\
  (forall u, Z.of_nat (length seen) < Z.of_nat MAX_OFFENDERS * times u seen -> u ∈ of_user_id <$> table) /\
  (forall o o', o ∈ (take_top table).1 -> o' ∈ table -> o' ∉ (take_top table).1 -> rejections o' <= rejections o).
Proof.
  intros Hn table. destruct (recorded_ok seen Hn) as (Hnd & Hlen & Hsum & Hin & Hout). fold table in Hnd, Hlen, Hsum, Hin, Hout.
  split_and!; [done | done | intros o Ho; by apply Hin | | apply take_top_heaviest].
  intros u Hu. destruct (decide (u ∈ of_user_id <$> table)) as [|Hn']; [done|]. exfalso.
  destruct (Hout u Hn') as [Hle H0]. destruct (decide (length table < MAX_OFFENDERS)%nat) as [Hl|Hl]; [specialize (H0 Hl); lia|].
  assert (Z.of_nat (length table) * times u seen <= total table) as Hb.
  { clear - Hle. induction table as [|o l IH]; [done|]. rewrite total_cons. cbn [length].
    pose proof (Hle o ltac:(by left)). specialize (IH (fun x Hx => Hle x ltac:(by right))). lia. }
  assert (length table = MAX_OFFENDERS) as E by lia. rewrite E in Hb. lia.
Qed.

(** A crowd, and one user at the end of it *)
Lemma heavy_users_are_named_witness :
  let crowd := ["a"; "b"; "c"; "d"; "e"; "f"; "g"; "h"; "i"; "j"; "k"; "l"; "m"; "n"; "o"; "p"; "q"; "r"; "s"; "t"] in
  let seen := crowd ++ ["mallory"; "mallory"] in
  "mallory" ∈ of_user_id <$> foldl record_offender [] seen.
Proof.
  intros crowd seen. destruct (heavy_users_are_named seen) as (_ & _ & _ & Hheavy & _); [by vm_compute|].
  apply Hheavy. by vm_compute.
Defined.

(** ** Maps that make room *)

(** The fuel is enough: the loop ends with the map no longer over. *)
Lemma evict_not_over {K V} `{Countable K} (over : gmap K V -> bool) victim fuel : forall m,
  (size m <= fuel)%nat -> (forall m, over m = true -> exists k, victim m = Some k /\ is_Some (m !! k)) ->
  over (evict over victim fuel m) = false.
Proof.
  induction fuel as [|fuel IH]; intros m Hs Hv; cbn [evict].
  - destruct (over m) eqn:E; [|done]. destruct (Hv m E) as (k & _ & [v Hk]).
    assert (m = ∅) as -> by (apply map_size_empty_inv; lia). by rewrite lookup_empty in Hk.
  - destruct (over m) eqn:E; [|done]. destruct (Hv m E) as (k & -> & Hk). apply IH; [|done].
    rewrite map_size_delete_Some by done. lia.
Qed.

Lemma min_by_some {A} (greater : A -> A -> bool) l : l <> [] -> exists x, min_by greater l = Some x /\ x ∈ l.
Proof. intros Hl. destruct l as [|y l]; [done|]. eexists. split; [done|]. apply min_from_in. Qed.

(** The first of a listing is a victim. *)
Lemma iter_victim {K V} `{HashIter K V} (greater : K * V -> K * V -> bool) (p : K * V -> bool) (m : gmap K V) :
  List.filter p (hm_iter m) <> [] ->
  exists k, fst <$> min_by greater (List.filter p (hm_iter m)) = Some k /\ is_Some (m !! k).
Proof.
  intros Hl. destruct (min_by_some greater _ Hl) as ([k v] & -> & Hin). exists k. split; [done|].
  apply elem_of_filter_bool in Hin as [_ Hin]. apply elem_of_hm_iter in Hin. by eexists.
Qed.

Lemma iter_nonempty {K V} `{HashIter K V} (m : gmap K V) : (1 <= size m)%nat -> hm_iter m <> [].
Proof. intros Hs E. apply (f_equal length) in E. rewrite hm_iter_perm, length_map_to_list in E. cbn in E. lia. Qed.

Lemma size_insert_le {K V} `{Countable K} (m : gmap K V) k v : (size (<[k := v]> m) <= S (size m))%nat.
Proof.
  destruct (m !! k) as [u|] eqn:E; [rewrite map_size_insert_Some by done; lia | by rewrite map_size_insert_None].
Qed.

Section Room.
Context `{!HashIter DestKey.t Dest, !HashIter (string * DestKey.t) UserEntry, !HashIter Z SubEntry}.
Context (limits : UpLimits).
Context (Hdest : 1 <= max_dest_keys limits) (Huser : 1 <= max_user_keys limits) (Hsub : 1 <= max_sub_keys limits).

Lemma hm_iter_all {K V} `{HashIter K V} (m : gmap K V) : List.filter (fun _ => true) (hm_iter m) = hm_iter m.
Proof. induction (hm_iter m) as [|x l IH]; cbn; [done | by rewrite IH]. Qed.

Lemma user_room now m : Z.of_nat (size (make_user_room limits now m)) < max_user_keys limits.
Proof.
  unfold make_user_room. destruct (_ <? _) eqn:E; [by apply Z.ltb_lt|]. apply Z.leb_gt.
  apply (evict_not_over (fun m => max_user_keys limits <=? Z.of_nat (size m))); [done|].
  intros m' Hm%Z.leb_le. unfold user_victim. rewrite <- hm_iter_all. apply iter_victim. rewrite hm_iter_all.
  apply iter_nonempty. lia.
Qed.

Lemma sub_room now m : Z.of_nat (size (make_sub_room limits now m)) < max_sub_keys limits.
Proof.
  unfold make_sub_room. destruct (_ <? _) eqn:E; [by apply Z.ltb_lt|]. apply Z.leb_gt.
  apply (evict_not_over (fun m => max_sub_keys limits <=? Z.of_nat (size m))); [done|].
  intros m' Hm%Z.leb_le. unfold sub_victim. rewrite <- hm_iter_all. apply iter_victim. rewrite hm_iter_all.
  apply iter_nonempty. lia.
Qed.

Lemma keys_filter (m : gmap DestKey.t Dest) :
  List.filter evictable (hm_keys m) = fst <$> List.filter (fun kv => evictable kv.1) (hm_iter m).
Proof. unfold hm_keys. apply filter_bool_fmap. Qed.

Lemma dest_room now m : candidates (make_dest_room limits now m) < max_dest_keys limits.
Proof.
  unfold make_dest_room. destruct (_ <? _) eqn:E; [by apply Z.ltb_lt|]. apply Z.leb_gt.
  apply (evict_not_over (fun m => max_dest_keys limits <=? candidates m)); [done|].
  intros m' Hm%Z.leb_le. unfold dest_victim. apply iter_victim. intros En.
  assert (List.filter (fun kv => evictable kv.1) (hm_iter m') <> []) as Hne.
  { intros En'. unfold candidates in Hm. rewrite keys_filter, En' in Hm. cbn in Hm. lia. }
  destruct (all_protected m') eqn:Ep; cbn [orb] in En.
  - apply Hne. rewrite <- En. apply List.filter_ext. intros x. by rewrite andb_true_r.
  - unfold all_protected in Ep. apply not_true_iff_false in Ep. apply Ep. apply forallb_forall. intros kv Hkv.
    destruct (protected kv.2) eqn:Epr; [done|]. exfalso.
    apply list_elem_of_In, elem_of_filter_bool in Hkv as [He Hin].
    assert (kv ∈ List.filter (fun kv => evictable kv.1 && negb (protected kv.2)) (hm_iter m')) as H.
    { apply elem_of_filter_bool. by rewrite He, Epr. }
    rewrite En in H. by apply elem_of_nil in H.
Qed.

(** The candidates are those of the keys. *)
Lemma candidates_present k d d0 (m : gmap DestKey.t Dest) : m !! k = Some d0 -> candidates (<[k := d]> m) = candidates m.
Proof.
  intros Hk. unfold candidates. f_equal. apply Permutation_length, filter_bool_perm. unfold hm_keys. rewrite !hm_iter_perm.
  rewrite <- (insert_delete_id m k d0 Hk) at 2. rewrite <- (insert_delete_eq m k d).
  rewrite !map_to_list_insert by apply lookup_delete_eq. done.
Qed.

Lemma candidates_absent k d (m : gmap DestKey.t Dest) :
  m !! k = None -> candidates (<[k := d]> m) = candidates m + (if evictable k then 1 else 0).
Proof.
  intros Hk. unfold candidates.
  assert (List.filter evictable (hm_keys (<[k := d]> m)) ≡ₚ List.filter evictable (k :: hm_keys m)) as Hp.
  { apply filter_bool_perm. unfold hm_keys. rewrite !hm_iter_perm. by rewrite map_to_list_insert. }
  rewrite Hp. cbn. destruct (evictable k); cbn; lia.
Qed.

(** Only ntfy.sh is not a candidate. *)
Lemma size_candidates (m : gmap DestKey.t Dest) : Z.of_nat (size m) <= candidates m + 1.
Proof.
  unfold candidates. rewrite <- length_map_to_list, <- (hm_iter_perm m), <- (length_fmap fst). fold (hm_keys m).
  pose proof (hm_keys_NoDup m) as Hnd. revert Hnd. generalize (hm_keys m). intros l Hnd.
  assert (forall l, NoDup l -> Z.of_nat (length l) <= Z.of_nat (length (List.filter evictable l)) + 1 /\
            (DestKey.Ntfy ∉ l -> Z.of_nat (length l) = Z.of_nat (length (List.filter evictable l)))) as H.
  { clear. induction l as [|k l IH]; intros Hnd; [done|]. apply NoDup_cons in Hnd as [Hk Hnd].
    destruct (IH Hnd) as [H1 H2]. cbn [List.filter length]. destruct k as [|a]; cbn [evictable length].
    - specialize (H2 Hk). split; [lia|]. intros Hn. destruct Hn. by left.
    - split; [lia|]. intros Hn. apply not_elem_of_cons in Hn as [_ Hn]. specialize (H2 Hn). lia. }
  by apply H.
Qed.

Definition small (s : State) : Prop :=
  candidates (dests s) <= max_dest_keys limits /\ Z.of_nat (size (users s)) <= max_user_keys limits /\
  Z.of_nat (size (subs s)) <= max_sub_keys limits.

Lemma user_for_small user_id key now calls m b m' :
  user_for limits user_id key now calls m = (b, m') -> Z.of_nat (size m) <= max_user_keys limits ->
  is_Some (m' !! (user_id, key)) /\ Z.of_nat (size m') <= max_user_keys limits.
Proof.
  unfold user_for. intros [= _ <-] Hm. split; [by rewrite lookup_insert_eq|]. case_bool_decide as Hn.
  - pose proof (user_room now m). pose proof (size_insert_le (make_user_room limits now m) (user_id, key)
      (mkUserEntry (refill (user_rate (dest_limits limits key)) now
         match make_user_room limits now m !! (user_id, key) with Some e => ue_bucket e
         | None => full (user_rate (dest_limits limits key)) now end) calls)). lia.
  - destruct (m !! (user_id, key)) as [e|] eqn:E; [|done]. rewrite map_size_insert_Some by done. lia.
Qed.

Lemma sub_entry_small sub now m e m' :
  sub_entry limits sub now m = (e, m') -> Z.of_nat (size m) <= max_sub_keys limits ->
  is_Some (m' !! sub) /\ Z.of_nat (size m') <= max_sub_keys limits.
Proof.
  unfold sub_entry. intros [= _ <-] Hm. split; [by rewrite lookup_insert_eq|]. case_bool_decide as Hn.
  - pose proof (sub_room now m). pose proof (size_insert_le (make_sub_room limits now m) sub
      (default new_sub (make_sub_room limits now m !! sub))). lia.
  - destruct (m !! sub) as [x|] eqn:E; [|done]. rewrite map_size_insert_Some by done. lia.
Qed.

Lemma dest_for_small key now calls m gens d m' gens' :
  dest_for limits key now calls m gens = (d, m', gens') -> candidates m <= max_dest_keys limits ->
  is_Some (m' !! key) /\ candidates m' <= max_dest_keys limits.
Proof.
  unfold dest_for. intros E Hm. set (m1 := if evictable key && _ then _ else m) in E.
  assert (m' = <[key := d]> m1) as -> by (destruct (m1 !! key); by injection E as -> <- _).
  split; [by rewrite lookup_insert_eq|]. destruct (m1 !! key) as [d0|] eqn:Ek.
  - rewrite (candidates_present _ _ _ _ Ek). unfold m1. destruct (_ && _); [|done]. pose proof (dest_room now m). lia.
  - rewrite (candidates_absent _ _ _ Ek). unfold m1 in *. destruct (evictable key) eqn:Ee; cbn [andb] in *; [|lia].
    case_bool_decide as Hn; [pose proof (dest_room now m); lia | done].
Qed.

Lemma insert_size_small {K V} `{Countable K} (m : gmap K V) k v n :
  is_Some (m !! k) -> Z.of_nat (size m) <= n -> Z.of_nat (size (<[k := v]> m)) <= n.
Proof. intros Hk Hm. by rewrite map_size_insert_Some. Qed.

Lemma insert_candidates_small (m : gmap DestKey.t Dest) k d n :
  is_Some (m !! k) -> candidates m <= n -> candidates (<[k := d]> m) <= n.
Proof. intros [d0 Hk] Hm. by rewrite (candidates_present _ _ _ _ Hk). Qed.

Lemma admit_small user_id sub key now s : small s -> small (admit_push limits user_id sub key now s).1.
Proof.
  intros (Hd & Hu & Hs). unfold admit_push. cbn [count_call subs].
  assert (small (admit_dest limits user_id sub key now (count_call s)).1) as Ha.
  { unfold admit_dest. cbn [count_call calls dests generations users subs].
    destruct (dest_for _ _ _ _ _ _) as [[d m] gens] eqn:Ed. apply dest_for_small in Ed as [Hk Hm]; [|done].
    destruct (paused d); [by split_and!; [apply insert_candidates_small|..]|].
    destruct (_ || _); [done|]. destruct (f64_ltb (tokens (send d)) 1); [by split_and!; [apply insert_candidates_small|..]|].
    unfold admit_user. cbn [calls users dests]. destruct (user_for _ _ _ _ _ _) as [b um] eqn:Eu.
    apply user_for_small in Eu as [Huk Hum]; [|done].
    destruct (f64_ltb (tokens b) 1); (split_and!; [|by apply insert_size_small | done]); [done | by apply insert_candidates_small]. }
  destruct (subs s !! sub) as [e|] eqn:Ee; [|done]. destruct (cooling now e); [|done].
  split_and!; [done | done | apply insert_size_small; [by rewrite Ee | done]].
Qed.

Lemma released_small k g f (m : gmap DestKey.t Dest) n :
  candidates m <= n -> candidates (match live_dest k g m with Some d => <[k := f d]> m | None => m end) <= n.
Proof.
  intros Hm. unfold live_dest. destruct (m !! k) as [d|] eqn:Ek; [|done]. destruct (_ =? _); [|done].
  apply insert_candidates_small; [by rewrite Ek | done].
Qed.

Lemma success_small t s : small s -> small (complete_success t s).
Proof.
  intros (Hd & Hu & Hs). pose proof (released_small (tk_key t) (tk_generation t) release_one (dests s) _ Hd) as Hr.
  unfold complete_success. cbn [set_dests subs]. destruct (subs s !! tk_sub t) as [e|] eqn:Ee; [|by split_and!].
  cbn [clear_cooldown]. split_and!; [done | done|]. cbn [set_subs subs]. destruct (refused_at e).
  - apply insert_size_small; [by rewrite Ee | done].
  - rewrite map_size_delete_Some by by rewrite Ee. lia.
Qed.

Lemma rejected_small t prunes status now s : small s -> small (complete_rejected limits t prunes status now s).1.
Proof.
  intros (Hd & Hu & Hs).
  assert (candidates (dests (complete_rejected limits t prunes status now s).1) <= max_dest_keys limits) as Hr.
  { rewrite rejected_dests. by apply (released_small _ _ (fun d => (reject_one _ _ _ _ (set_touched d _)).1)). }
  revert Hr. unfold complete_rejected. cbn [count_call dests subs users]. intros Hr. split; [exact Hr|]. clear Hr.
  destruct (sub_entry limits (tk_sub t) now (subs s)) as [e m] eqn:Es. apply sub_entry_small in Es as [Hk Hm]; [|done].
  destruct (live_dest _ _ _) as [d|]; [destruct (reject_one _ _ _ _ _)|]; (split; [done | by apply insert_size_small]).
Qed.

Lemma step_small x o : small (st x) -> small (st (step limits x o)).
Proof.
  intros Hx. destruct o as [user_id sub k now|i|i prunes status now|i|user_id k now|k|sub now]; cbn [step].
  - pose proof (admit_small user_id sub k now (st x) Hx) as Ha. destruct (admit_push _ _ _ _ _ _) as [s r]. by destruct r.
  - destruct (out x !! i) as [t|]; [by apply success_small | done].
  - destruct (out x !! i) as [t|]; [by apply rejected_small | done].
  - destruct (out x !! i) as [t|]; [|done]. destruct Hx as (Hd & Hu & Hs). split_and!; [|done|done].
    by apply (released_small _ _ release_one).
  - destruct Hx as (Hd & Hu & Hs). unfold drain_user. cbn [count_call calls users].
    destruct (user_for _ _ _ _ _ _) as [b m] eqn:Eu. apply user_for_small in Eu as [Hk Hm]; [|done].
    by split_and!; [|apply insert_size_small|].
  - destruct Hx as (Hd & Hu & Hs). unfold top_senders. destruct (dests (st x) !! k) as [d|] eqn:Ek; [|done].
    split_and!; [|done|done]. apply insert_candidates_small; [by rewrite Ek | done].
  - destruct Hx as (Hd & Hu & Hs). unfold first_refusal. destruct (sub_entry _ _ _ _) as [e m] eqn:Es.
    apply sub_entry_small in Es as [Hk Hm]; [|done]. by split_and!; [| |apply insert_size_small].
Qed.

Lemma steps_small ops : forall x, small (st x) -> small (st (steps limits x ops)).
Proof. induction ops as [|o ops IH]; intros x Hx; [done|]. apply IH. by apply step_small. Qed.
End Room.

(** The maps are within their sizes; ntfy.sh, which is never evicted, may be one
    destination more. *)
Definition within_sizes (limits : UpLimits) (s : State) : Prop :=
  Z.of_nat (size (dests s)) <= max_dest_keys limits + 1 /\ Z.of_nat (size (users s)) <= max_user_keys limits /\
  Z.of_nat (size (subs s)) <= max_sub_keys limits.

(** C20. However many users, subscriptions and addresses clients make up, the maps
    stay within their sizes after any sequence of calls, whatever limits the
    limiter is made with; ntfy.sh may be one destination more. *)
Theorem limiter_stays_small
    `{!HashIter DestKey.t Dest, !HashIter (string * DestKey.t) UserEntry, !HashIter Z SubEntry}
    (configured : UpLimits) (ops : list Op.t) :
  within_sizes (with_limits configured) (st (steps (with_limits configured) idle ops)).
Proof.
  set (limits := with_limits configured). set (s := st (steps limits idle ops)). assert (1 <= max_dest_keys limits /\ 1 <= max_user_keys limits /\ 1 <= max_sub_keys limits) as (Hd & Hu & Hs)
    by (cbn; lia).
  assert (small limits s) as (H1 & H2 & H3).
  { apply steps_small; [done..|]. assert (candidates (∅ : gmap DestKey.t Dest) = 0) as E.
    { assert (hm_iter (∅ : gmap DestKey.t Dest) = []) as E0
        by (apply Permutation_nil_r; by rewrite hm_iter_perm, map_to_list_empty).
      unfold candidates, hm_keys. by rewrite E0. }
    split_and!; cbn [idle initial st dests users subs]; [rewrite E; lia | rewrite map_size_empty; lia | rewrite map_size_empty; lia]. }
  pose proof (size_candidates (dests s)). split_and!; [lia | done | done].
Qed.
